(* ===== verification/_CoqProject ===== *)
-Q . S2P
Prelude.v
AdapterLifecycle.v
DeliveryState.v
Json.v
RoutePolicy.v
Router.v
IsoTime.v
Delivery.v
Store.v
Outbox.v
OutboxMaintenance.v
Receipts.v
OutboxProofs.v
OutboxSafety.v
OutboxClaims.v
OutboxCreate.v
OutboxFinalize.v
DeliveryAuthority.v
AuthorityFence.v
Recovery.v
Capacity.v
Attachments.v
Events.v
ContentStore.v
Ingress.v
IngressProofs.v
ContentGrants.v
Retention.v
ContentSteps.v
ContentSafety.v
IngressSafety.v
ContentAuthority.v
ContentRoundtrip.v
IngressWorker.v
RetentionSafety.v
RetentionPaging.v
CollectionWorker.v
CollectionWorkerSafety.v
CollectionProgress.v
Capability.v
JsonText.v
DeliveryPlan.v
StorageProgram.v
MaintenanceSafety.v
ReceiptFactory.v
RetryPlan.v
DeliveryContracts.v
DeliveryLifecycle.v
OutboxManager.v
LifecycleSafety.v
RetryRoundtrip.v
RetryWorker.v
RetryWorkerSafety.v
RadioProgress.v
TargetDelivery.v
TargetSafety.v
Accounting.v
DeliveryCoordinator.v
CoordinatorSafety.v
CoordinatorMemory.v
Pipeline.v
PipelineSafety.v
Conversation.v
ConversationGraph.v
ConversationSafety.v
ConversationRebuild.v
