(* ===== verification/Prelude.v ===== *)
(** * MEDRE: a verified model of the delivery core

    MEDRE bridges messaging transports.  Adapters hand canonical events to a
    runtime; durable ingress stores each event with its native identity and a
    work marker in one transaction; the pipeline resolves its relations, puts
    it into a conversation, routes it and stages one delivery per target.  The
    outbox (one row per delivery generation) is claimed by workers under
    leases, an attempt is reserved before a transport is called, and receipts
    are the append-only evidence of what happened.  The text of an event is
    held only as long as somebody may still read it, and collected afterwards.
    The implementation modelled here is the Python package under
    [src/src/medre/]; file names below are relative to it.

    ** Parts and files

    Foundations.
    - [Prelude]: results of calls that may raise, Python values (truthiness,
      [strip], stable [sorted], [max], insertion-ordered dictionaries), the
      [medre] hint database and the [breflect] and [split_ifs] tactics.
    - [Json], [JsonText]: JSON values and the canonical text of
      [json.dumps(..., sort_keys=True)].
    - [IsoTime]: UTC timestamps.  The stores keep ISO 8601 text and compare it
      with SQL [<=]; the model keeps instants (microseconds), and [IsoTime]
      proves that the text order is the instant order.

    Vocabulary and decisions.
    - [AdapterLifecycle]: the adapter state machine ([core/lifecycle/states.py])
      and the health classification ([core/supervision/]).
    - [DeliveryState]: status vocabularies and transition tables
      ([core/engine/pipeline/delivery_state.py]).
    - [RoutePolicy], [Router]: [core/policies/route_policy.py] and
      [core/routing/{models,router}.py].
    - [Capability]: which capability an event demands and what an adapter
      declares ([core/planning/capability_decision.py]).
    - [DeliveryPlan]: plans, their deterministic identity, retry policies and
      the failure taxonomy ([core/planning/]).
    - [Capacity]: [core/supervision/capacity.py], the inbound admission queue
      and the delivery and replay gates, as steps between suspension points.
    - [Accounting]: route statistics and runtime counters.

    Values.
    - [Delivery]: provenance, receipts, native references, delivery identity.
    - [Events], [Attachments]: canonical events with relations and metadata,
      their stored form, and the attachment descriptor ([core/events/]).
    - [DeliveryContracts]: what adapters report ([core/contracts/delivery.py]).

    The store.
    - [Store]: the SQLite tables of the delivery side with their constraints,
      and transactions as a state-and-error monad that rolls back on a raise.
    - [Outbox], [OutboxMaintenance], [Receipts]: the statements of
      [core/storage/sqlite/_outbox.py], [_delivery_finalize.py],
      [_deadline_cleanup.py], [_operator_decision.py] and [_receipt.py].
    - [OutboxProofs]: the operations as one type [outbox_op], their execution
      [exec], reachability from the empty database, and what every transaction
      preserves; [OutboxSafety], [OutboxClaims], [OutboxCreate],
      [OutboxFinalize], [MaintenanceSafety]: the theorems.
    - [DeliveryAuthority], [AuthorityFence]: [core/delivery_authority.py], its
      agreement with the SQL status query, and what a reservation means for
      late callbacks.
    - [Recovery]: [core/recovery/], the startup classification and its ledger.
    - [ContentStore]: a [cdb] extends the delivery database by events, text,
      relations, ingress work, attachments, grants and retention.
    - [Ingress], [ContentGrants], [Retention]: [_ingress.py],
      [_content_grants.py], [_retention.py] and [_collection.py] on it.
    - [ContentSteps]: every operation as elementary steps, and the invariant
      [content_inv], with its strict form [content_ok]; [IngressProofs],
      [ContentSafety], [IngressSafety],
      [ContentAuthority], [ContentRoundtrip], [RetentionSafety],
      [RetentionPaging]: the theorems.

    Workers and the pipeline.
    - [IngressWorker]: [core/ingress/worker.py] with an oracle for what asyncio
      decides.
    - [CollectionWorker], [CollectionWorkerSafety], [CollectionProgress]:
      [runtime/collection.py].
    - [StorageProgram]: coroutines over the store.  A program is a function of
      a world: the database, the operations of other tasks and the faults that
      happen around each of its storage calls, the clock and the UUIDs.  The
      classes [Stepped] and [Traced] say that a call is one atomic operation
      and that a program only ever performs such operations.
    - [ReceiptFactory], [RetryPlan], [DeliveryLifecycle], [OutboxManager]: the
      services of [core/engine/pipeline/]; [LifecycleSafety], [RetryRoundtrip]:
      their theorems.
    - [RetryWorker], [RetryWorkerSafety]: [runtime/retry.py], the dispatcher of
      due outbox rows, against the class [RetryPipeline].
    - [RadioProgress]: radio plans, the progress of their parts, checkpoints and
      hand-off facts ([core/rendering/radio_*.py], [core/storage/radio*.py]).
    - [TargetDelivery], [TargetSafety]: one execution of a plan and the driver
      of multipart radio plans ([target_delivery.py], [radio_delivery.py])
      against the adapters, renderers, grants and radio tables of the class
      [TargetBackend].
    - [DeliveryCoordinator], [CoordinatorSafety], [CoordinatorMemory]: one
      delivery from its suppression checks to its outcome, and the memory that
      concurrent deliveries share.
    - [Pipeline], [PipelineSafety]: routing and the staging of admitted events.
    - [Conversation], [ConversationGraph], [ConversationSafety],
      [ConversationRebuild]: relation resolution and the conversation
      projection ([core/planning/conversation_graph.py]) over a [cdb].

    A program talks to what is not under study through a class of operations
    ([TargetBackend], [CoordinatorHost], [PipelineHost], [RetryPipeline]) whose
    laws say that these only perform operations of the store; [Reads] says how
    the conversation projection sees the events of a [cdb], and the store's
    own read satisfies it ([envelope_reads]).

    ** What the theorems show

    - Outbox safety, over any sequence of operations: the schema invariant,
      immutability of history, legality of status moves, exclusive claims, and
      that an attempt generation is handed out at most once.  Creation, fenced
      transitions and finalizations are all-or-nothing.
    - Authority: the SQL status query refines the in-memory rule, and a
      reservation fences older callbacks.
    - Ingress and content: the invariant of the tables over every operation
      (its clause on excerpts of collected events as long as no relation is
      stored for such an event afterwards), idempotent admission, exclusive work claims, attachment quotas, the round
      trip of stored events, and that an authority that ended stays ended.
    - Retention: the collector deletes only what nothing may read, spares
      history from before its activation, and on a quiet database without
      malformed bodies collects all the rest.
    - Workers: the ingress worker drains its queue while its processing reads
      and stages; a deadline sweep retires
      only unstarted work; the dispatcher calls a transport at most once per
      claimed row, under an attempt reserved for it, and returns its permit.
    - Executions and deliveries, for every interleaving and every storage
      fault: a result is handed to its adapter at most once (one plain call, or
      one per radio part, each native start granted and before the deadline)
      and only past every fence and gate; outcomes tell the truth about what was
      handed over and about receipts; what is rebuilt for a retry is what was
      accepted, in full for staged work and up to the fields a direct delivery
      freezes; shared counters and permits add up
      when any number of deliveries interleave.
    - Routing and staging: every target of every matching route is planned
      once; staging loses no delivery.
    - Conversations: after late evidence a repair leaves the whole projection
      as the evidence says, cycles included; a rebuild does so for evidence
      without cycles, and a computed example shows how it fails otherwise.
    - Capacity, recovery, planning, policy: bounds, fairness and conservation
      of admission; agreement of recovery labels with the claim statement;
      plan identity; soundness of constructed receipts.

    ** Conventions and bounds

    Integers are Python's unbounded integers, [Z].  Strings are sequences of
    8-bit characters.  The clock is an argument of each operation, or drawn
    from the world of a program.  A database transaction is atomic and isolated
    (BEGIN IMMEDIATE); interleavings are between transactions, or between the
    statements of [claim_due_outbox_items].  An exception leaves behind what
    was committed before it.

    Recursion that is not structural runs on fuel, and each is proved to have
    enough: [grant_loop] of [Capacity] ([grant_fuel], the rotation plus the
    waiters, since every iteration removes one of them); [walk], [repair_loop]
    and [rebuild_pages] of [Conversation] (the number of stored events, since
    each is visited, queued or listed once).  The sweeps of
    [OutboxMaintenance] and [CollectionWorker] are bounded by their own
    budgets; [renew_lease_loop] and the loops of the workers run for a given
    number of turns, because in the source a cancellation ends them.

    ** Not modelled

    The asyncio runtime itself: tasks and their cancellation, local locks and
    bounded stops (the interleavings of their storage calls are modelled).
    Adapters and their SDKs, renderers, the planning of radio texts and the
    tables of radio attempts, reached only through the classes above.  In the pipeline: the direct ingress path with its
    caches, the fan-out worker pool, replay and the enrichment of relations.
    Configuration, command line, drills, diagnostics, evidence bundles and
    reports, the event bus and installation tools: they format, read or wire
    up what is modelled here, or are I/O.  Floating-point backoff is an
    argument; logging and durations are omitted everywhere. *)

From stdpp Require Export base tactics option list strings gmap sorting pretty relations.
From Stdlib Require Export ZArith Lia.

Open Scope string_scope.
Open Scope list_scope.
Open Scope Z_scope.

(** ** Results

    A Python call either returns or raises; [result E A] is its value. *)

Inductive result (E A : Type) : Type :=
| Ok (a : A)
| Raise (e : E).
Arguments Ok {E A} a.
Arguments Raise {E A} e.

Section result_monad.
Context {E : Type}.

#[export] Instance result_ret : MRet (result E) := fun _ a => Ok a.
#[export] Instance result_bind : MBind (result E) :=
  fun _ _ k m => match m with Ok a => k a | Raise e => Raise e end.
#[export] Instance result_fmap : FMap (result E) :=
  fun _ _ f m => match m with Ok a => Ok (f a) | Raise e => Raise e end.

Lemma bind_Ok {A B} (m : result E A) (k : A -> result E B) b :
  (m ≫= k) = Ok b <-> exists a, m = Ok a /\ k a = Ok b.
Proof. destruct m; cbn; naive_solver. Qed.

Lemma bind_Raise {A B} (m : result E A) (k : A -> result E B) e :
  (m ≫= k) = Raise e <-> m = Raise e \/ exists a, m = Ok a /\ k a = Raise e.
Proof. destruct m; cbn; naive_solver. Qed.
End result_monad.

#[export] Instance result_eq_dec {E A} `{EqDecision E, EqDecision A} : EqDecision (result E A).
Proof. solve_decision. Defined.

Definition isOk {E A} (r : result E A) : bool :=
  match r with Ok _ => true | Raise _ => false end.

(** ** Python values

    A Python [str] is a [string] of 8-bit characters, i.e. a sequence of code
    points up to U+00FF: equality, [len] and the code-point ordering used by
    [sorted] and by SQLite's BINARY collation are those of the bytes. *)

(** [bool(s)] of a string, and [s or None]. *)
Definition truthy (s : string) : bool := negb (bool_decide (s = "")).
Definition or_none (s : string) : option string := if truthy s then Some s else None.

(** [bool(x)] of an optional string. *)
Definition opt_truthy (x : option string) : bool :=
  match x with Some s => truthy s | None => false end.

(** [s or None] of an optional string, and [s or ""] . *)
Definition opt_or_none (x : option string) : option string := x ≫= or_none.
Definition opt_or_empty (x : option string) : string := default "" x.

(** [x in xs] for a tuple, list or set of hashable values. *)
Definition elem {A} `{EqDecision A} (x : A) (xs : list A) : bool := bool_decide (x ∈ xs).
Arguments elem : simpl never.

(** [bool(xs)] of a sequence. *)
Definition nonempty {A} (xs : list A) : bool := match xs with [] => false | _ => true end.

(** Characters that [str.strip] removes. *)
Definition is_py_space (c : Ascii.ascii) : bool :=
  let n := Z.of_N (Ascii.N_of_ascii c) in
  ((9 <=? n) && (n <=? 13)) || ((28 <=? n) && (n <=? 32)) || (n =? 133) || (n =? 160).

Fixpoint py_lstrip (s : string) : string :=
  match s with
  | String c rest => if is_py_space c then py_lstrip rest else s
  | EmptyString => EmptyString
  end.

Definition py_strip (s : string) : string := String.rev (py_lstrip (String.rev (py_lstrip s))).

(** [str.lower] on code points up to U+00FF. *)
Definition lower_char (c : Ascii.ascii) : Ascii.ascii :=
  let n := Z.of_N (Ascii.N_of_ascii c) in
  if ((65 <=? n) && (n <=? 90)) || ((192 <=? n) && (n <=? 222) && negb (n =? 215))
  then Ascii.ascii_of_N (Z.to_N (n + 32)) else c.

Fixpoint py_lower (s : string) : string :=
  match s with
  | EmptyString => EmptyString
  | String c rest => String (lower_char c) (py_lower rest)
  end.

(** [sep.join(xs)], and [str(n)] of an integer. *)
Fixpoint py_join (sep : string) (xs : list string) : string :=
  match xs with
  | [] => ""
  | [x] => x
  | x :: xs' => x +:+ sep +:+ py_join sep xs'
  end.

Definition py_str (n : Z) : string := pretty n.

Lemma truthy_true s : truthy s = true <-> s <> "".
Proof. unfold truthy. case_bool_decide; naive_solver. Qed.

Lemma truthy_false s : truthy s = false <-> s = "".
Proof. unfold truthy. case_bool_decide; naive_solver. Qed.

Lemma elem_true {A} `{EqDecision A} (x : A) xs : elem x xs = true <-> x ∈ xs.
Proof. unfold elem. apply bool_decide_eq_true. Qed.

Lemma elem_false {A} `{EqDecision A} (x : A) xs : elem x xs = false <-> x ∉ xs.
Proof. unfold elem. apply bool_decide_eq_false. Qed.

Lemma nonempty_true {A} (xs : list A) : nonempty xs = true <-> xs <> [].
Proof. by destruct xs. Qed.

Lemma nonempty_false {A} (xs : list A) : nonempty xs = false <-> xs = [].
Proof. by destruct xs. Qed.

Lemma bool_decide_eq_negb_nonempty {A} `{EqDecision A} (xs : list A) :
  negb (nonempty xs) = bool_decide (xs = []).
Proof. by destruct xs. Qed.

Create HintDb medre.
Create Rewrite HintDb medre_bool.
#[export] Hint Rewrite @elem_true @elem_false @nonempty_true @nonempty_false
  truthy_true truthy_false @bool_decide_eq_true @bool_decide_eq_false
  andb_true_iff andb_false_iff orb_true_iff orb_false_iff
  negb_true_iff negb_false_iff : medre_bool.

(** Turn every boolean test of the context and the goal into the proposition
    it decides. *)
Ltac breflect := autorewrite with medre_bool in *.

(** Split on every [if] and [match] of the goal, closing absurd cases. *)
Ltac split_ifs := repeat (case_match; simplify_eq/=; try done).

(** ** Boolean total preorders and Python's [sorted] and [max] *)

Class TotalLe {A} (leb : A -> A -> bool) : Prop := {
  leb_total_or : forall a b, leb a b = true \/ leb b a = true;
  leb_trans_le : forall a b c, leb a b = true -> leb b c = true -> leb a c = true
}.

Class AntisymLe {A} (leb : A -> A -> bool) : Prop :=
  leb_antisym_eq : forall a b, leb a b = true -> leb b a = true -> a = b.

Lemma leb_refl_le {A} (leb : A -> A -> bool) `{!TotalLe leb} a : leb a a = true.
Proof. destruct (leb_total_or a a); done. Qed.

#[export] Instance Z_leb_total : TotalLe Z.leb.
Proof. split; intros; lia. Qed.
#[export] Instance Z_leb_antisym : AntisymLe Z.leb.
Proof. intros ???. lia. Qed.

#[export] Instance string_leb_total : TotalLe String.leb.
Proof.
  split.
  - intros a b. apply String.leb_total.
  - intros a b c Hab Hbc. apply Is_true_true. change (String.le a c).
    transitivity b; by apply Is_true_true.
Qed.
#[export] Instance string_leb_antisym : AntisymLe String.leb.
Proof. intros a b. apply String.leb_antisym. Qed.

(** Comparison of Python tuples: lexicographic. *)
Definition lex_leb {A B} (leA : A -> A -> bool) (leB : B -> B -> bool) (x y : A * B) : bool :=
  leA x.1 y.1 && (negb (leA y.1 x.1) || leB x.2 y.2).

#[export] Instance lex_leb_total {A B} (leA : A -> A -> bool) (leB : B -> B -> bool)
  `{!TotalLe leA, !TotalLe leB} : TotalLe (lex_leb leA leB).
Proof.
  split.
  - intros [a b] [a' b']. unfold lex_leb; simpl.
    destruct (leb_total_or a a') as [H1|H1], (leb_total_or (leb:=leB) b b') as [H2|H2];
      rewrite H1, H2; destruct (leA a a'), (leA a' a); simpl; auto.
  - intros [a b] [a' b'] [a'' b'']. unfold lex_leb; simpl. breflect.
    intros [H1 H1'] [H2 H2']. split; [by eapply leb_trans_le|].
    destruct (leA a'' a) eqn:H3; [right|by left].
    destruct H1' as [H1'|H1'].
    { assert (leA a' a = true) by (by eapply leb_trans_le). congruence. }
    destruct H2' as [H2'|H2'].
    { assert (leA a'' a' = true) by (by eapply leb_trans_le). congruence. }
    by eapply leb_trans_le.
Qed.

#[export] Instance lex_leb_antisym {A B} (leA : A -> A -> bool) (leB : B -> B -> bool)
  `{!AntisymLe leA, !AntisymLe leB} : AntisymLe (lex_leb leA leB).
Proof.
  intros [a b] [a' b']. unfold lex_leb; simpl. breflect.
  intros [H1 [H2|H2]] [H3 [H4|H4]]; try congruence.
  f_equal; by apply leb_antisym_eq.
Qed.

(** Order of the keys of a keyed sort. *)
Definition on_key {A K} (key : A -> K) (leb : K -> K -> bool) (x y : A) : bool :=
  leb (key x) (key y).

#[export] Instance on_key_total {A K} (key : A -> K) leb `{!TotalLe leb} :
  TotalLe (on_key key leb).
Proof.
  split; unfold on_key; intros.
  - apply leb_total_or.
  - by eapply leb_trans_le.
Qed.

Section sorted_by.
Context {A : Type} (leb : A -> A -> bool).

(** Insertion before the first element that is not smaller: [sorted_by] is
    the stable sort that Python's [sorted] computes. *)
Fixpoint insert_by (x : A) (l : list A) : list A :=
  match l with
  | [] => [x]
  | y :: l' => if leb x y then x :: l else y :: insert_by x l'
  end.

Fixpoint sorted_by (l : list A) : list A :=
  match l with
  | [] => []
  | x :: l' => insert_by x (sorted_by l')
  end.

Lemma insert_by_perm x l : insert_by x l ≡ₚ x :: l.
Proof.
  induction l as [|y l IH]; simpl; [done|].
  destruct (leb x y); [done|]. rewrite IH. apply perm_swap.
Qed.

Lemma sorted_by_perm l : sorted_by l ≡ₚ l.
Proof. induction l as [|x l IH]; simpl; [done|]. by rewrite insert_by_perm, IH. Qed.

Lemma elem_of_sorted_by x l : x ∈ sorted_by l <-> x ∈ l.
Proof. by rewrite sorted_by_perm. Qed.

Context `{!TotalLe leb}.

Lemma insert_by_sorted x l :
  StronglySorted (fun a b => leb a b = true) l ->
  StronglySorted (fun a b => leb a b = true) (insert_by x l).
Proof.
  induction 1 as [|y l Hs IH Hy]; simpl; [repeat constructor|].
  destruct (leb x y) eqn:Hxy.
  - constructor; [by constructor|]. constructor; [done|].
    eapply Forall_impl; [done|]. intros z Hz. by eapply leb_trans_le.
  - constructor; [done|]. rewrite insert_by_perm. constructor; [|done].
    destruct (leb_total_or x y); congruence.
Qed.

Lemma sorted_by_sorted l : StronglySorted (fun a b => leb a b = true) (sorted_by l).
Proof. induction l; simpl; [constructor|]. by apply insert_by_sorted. Qed.

(** A sorted list is determined by its elements when the order is
    antisymmetric on them: the input order is immaterial. *)
Lemma sorted_perm_unique l1 l2 :
  (forall a b, a ∈ l1 -> b ∈ l1 -> leb a b = true -> leb b a = true -> a = b) ->
  StronglySorted (fun a b => leb a b = true) l1 ->
  StronglySorted (fun a b => leb a b = true) l2 ->
  l1 ≡ₚ l2 -> l1 = l2.
Proof.
  intros Hanti Hs1. revert l2 Hanti.
  induction Hs1 as [|x l1 Hs1 IH Hx]; intros l2 Hanti Hs2 Hp.
  { by apply Permutation_nil in Hp as ->. }
  destruct Hs2 as [|y l2 Hs2 Hy].
  { symmetry in Hp. by apply Permutation_nil in Hp. }
  assert (x = y) as ->.
  { rewrite Forall_forall in Hx, Hy.
    assert (x ∈ y :: l2) as Hin1 by (rewrite <- Hp; set_solver).
    assert (y ∈ x :: l1) as Hin2 by (rewrite Hp; set_solver).
    apply elem_of_cons in Hin1 as [->|Hin1]; [done|].
    apply elem_of_cons in Hin2 as [->|Hin2]; [done|].
    apply Hanti; [set_solver..| |]; auto. }
  f_equal. apply IH; [|done|].
  - intros a b Ha Hb. apply Hanti; set_solver.
  - by apply Permutation_cons_inv in Hp.
Qed.

Lemma sorted_by_perm_inv l1 l2 :
  (forall a b, a ∈ l1 -> b ∈ l1 -> leb a b = true -> leb b a = true -> a = b) ->
  l1 ≡ₚ l2 -> sorted_by l1 = sorted_by l2.
Proof.
  intros Hanti Hp. apply sorted_perm_unique; [|by apply sorted_by_sorted..|].
  - intros a b. rewrite !elem_of_sorted_by. apply Hanti.
  - by rewrite !sorted_by_perm.
Qed.
End sorted_by.

Section max_by.
Context {A : Type} (leb : A -> A -> bool).

(** Python's [max(xs, key=...)]: the first of the maximal elements. *)
Fixpoint max_from (best : A) (l : list A) : A :=
  match l with
  | [] => best
  | x :: l' => max_from (if leb x best then best else x) l'
  end.

Definition max_by (l : list A) : option A :=
  match l with [] => None | x :: l' => Some (max_from x l') end.

Context `{!TotalLe leb}.

Lemma max_from_spec best l :
  (max_from best l = best \/ max_from best l ∈ l) /\
  leb best (max_from best l) = true /\
  forall x, x ∈ l -> leb x (max_from best l) = true.
Proof.
  revert best. induction l as [|x l IH]; intros best; simpl.
  { split_and!; [by left| by apply leb_refl_le | set_solver]. }
  destruct (IH (if leb x best then best else x)) as (Hin & Hb & Hall).
  destruct (leb x best) eqn:Hx.
  - split_and!; [set_solver|done|].
    intros y [->|Hy]%elem_of_cons; [by eapply leb_trans_le|auto].
  - assert (leb best x = true) by (destruct (leb_total_or x best); congruence).
    split_and!; [set_solver| by eapply leb_trans_le |].
    intros y [->|Hy]%elem_of_cons; auto.
Qed.

Lemma max_by_None l : max_by l = None <-> l = [].
Proof. by destruct l. Qed.

Lemma max_by_Some l m :
  max_by l = Some m -> m ∈ l /\ forall x, x ∈ l -> leb x m = true.
Proof.
  destruct l as [|x l]; simpl; [done|]. intros [= <-].
  destruct (max_from_spec x l) as (Hin & Hb & Hall). set_solver.
Qed.

(** When ties cannot occur the maximum does not depend on list order. *)
Lemma max_by_unique l m :
  (forall a b, a ∈ l -> b ∈ l -> leb a b = true -> leb b a = true -> a = b) ->
  m ∈ l -> (forall x, x ∈ l -> leb x m = true) -> max_by l = Some m.
Proof.
  intros Hanti Hm Hall. destruct (max_by l) as [m'|] eqn:Hl.
  - apply max_by_Some in Hl as [Hm' Hall']. f_equal. auto.
  - apply max_by_None in Hl as ->. set_solver.
Qed.

Lemma max_by_perm_inv l1 l2 :
  (forall a b, a ∈ l1 -> b ∈ l1 -> leb a b = true -> leb b a = true -> a = b) ->
  l1 ≡ₚ l2 -> max_by l1 = max_by l2.
Proof.
  intros Hanti Hp. destruct (max_by l2) as [m|] eqn:Hl.
  - apply max_by_Some in Hl as [Hm Hall].
    apply max_by_unique; [done|by rewrite Hp|].
    intros x. rewrite Hp. apply Hall.
  - apply max_by_None in Hl as ->. by apply Permutation_nil_r in Hp as ->.
Qed.
End max_by.

(** ** Searching and appending *)

Lemma list_elem_of_option_list {A} (x : A) (o : option A) : x ∈ option_list o <-> o = Some x.
Proof. destruct o; cbn; rewrite ?list_elem_of_singleton; set_solver. Qed.

Lemma find_Some_elem {A} (f : A -> bool) l x : List.find f l = Some x -> x ∈ l /\ f x = true.
Proof. intros [? ?]%find_some. by rewrite list_elem_of_In. Qed.

Lemma filter_nil_iff {A} (P : A -> Prop) `{!forall x, Decision (P x)} (l : list A) :
  filter P l = [] <-> forall x, x ∈ l -> ~ P x.
Proof.
  induction l as [|x l IH]; [split; [intros _ x []%not_elem_of_nil|done]|].
  rewrite filter_cons. setoid_rewrite elem_of_cons. destruct (decide (P x)); [|naive_solver].
  split; [done|]. intros Hn. destruct (Hn x); auto.
Qed.

Lemma find_None_elem {A} (f : A -> bool) l : List.find f l = None <-> forall x, x ∈ l -> f x = false.
Proof.
  split.
  - intros Hn x Hx%list_elem_of_In. by eapply find_none.
  - intros Hall. destruct (List.find f l) eqn:E; [|done].
    apply find_Some_elem in E as [Hin Hf]. by rewrite Hall in Hf.
Qed.

Lemma NoDup_snoc {A} (l : list A) x : NoDup l -> x ∉ l -> NoDup (l ++ [x]).
Proof.
  intros Hl Hx. apply NoDup_app. split_and!; [done| |apply NoDup_singleton].
  intros y Hy ->%list_elem_of_singleton. done.
Qed.

Lemma Forall_snoc {A} (P : A -> Prop) l x : Forall P l -> P x -> Forall P (l ++ [x]).
Proof. intros. apply Forall_app_2; auto. Qed.

(** ** Counting with [filter] *)

Lemma filter_ext_on {A} (P Q : A -> Prop) `{!forall x, Decision (P x), !forall x, Decision (Q x)}
    (l : list A) :
  (forall x, x ∈ l -> P x <-> Q x) -> filter P l = filter Q l.
Proof.
  induction l as [|x l IH]; intros Hiff; [done|]. rewrite !filter_cons.
  pose proof (Hiff x ltac:(set_solver)). rewrite IH by set_solver.
  repeat case_decide; tauto.
Qed.

Lemma filter_id_on {A} (P : A -> Prop) `{!forall x, Decision (P x)} (l : list A) :
  (forall x, x ∈ l -> P x) -> filter P l = l.
Proof.
  induction l as [|x l IH]; intros Hall; [done|].
  rewrite filter_cons, decide_True, IH by set_solver. done.
Qed.

Lemma length_filter_0 {A} (P : A -> Prop) `{!forall x, Decision (P x)} (l : list A) :
  length (filter P l) = 0%nat <-> forall x, x ∈ l -> ~ P x.
Proof.
  rewrite length_zero_iff_nil. split.
  - intros Hnil x Hx HP. assert (x ∈ filter P l) as Hin by (by apply list_elem_of_filter).
    rewrite Hnil in Hin. set_solver.
  - intros Hno. destruct (filter P l) as [|x l'] eqn:E; [done|].
    assert (x ∈ filter P l) as Hin by (rewrite E; set_solver).
    apply list_elem_of_filter in Hin as [HP Hx]. exfalso. by eapply Hno.
Qed.

Lemma length_filter_all {A} (P : A -> Prop) `{!forall x, Decision (P x)} (l : list A) :
  length (filter P l) = length l <-> forall x, x ∈ l -> P x.
Proof.
  induction l as [|x l IH]; simpl; [set_solver|].
  assert (length (filter P l) <= length l)%nat by apply length_filter.
  rewrite filter_cons. case_decide as HP; simpl; split.
  - intros Hl y [->|Hy]%elem_of_cons; [done|]. apply IH; [lia|done].
  - intros Hall. f_equal. apply IH. set_solver.
  - lia.
  - intros Hall. exfalso. apply HP, Hall. set_solver.
Qed.

Lemma length_filter_pos {A} (P : A -> Prop) `{!forall x, Decision (P x)} (l : list A) :
  (0 < length (filter P l))%nat <-> exists x, x ∈ l /\ P x.
Proof.
  split.
  - intros Hl. destruct (filter P l) as [|x l'] eqn:E; simpl in Hl; [lia|].
    assert (x ∈ filter P l) as [HP Hx]%list_elem_of_filter by (rewrite E; set_solver).
    by exists x.
  - intros (x & Hx & HP). destruct (decide (length (filter P l) = 0%nat)) as [Hz|]; [|lia].
    rewrite length_filter_0 in Hz. by exfalso; eapply Hz.
Qed.

Lemma length_filter_lt {A} (P : A -> Prop) `{!forall x, Decision (P x)} (l : list A) :
  (length (filter P l) < length l)%nat <-> exists x, x ∈ l /\ ~ P x.
Proof.
  pose proof (length_filter P l).
  split.
  - intros Hl. destruct (decide (Forall P l)) as [Hall|Hn].
    + rewrite Forall_forall in Hall. apply (length_filter_all P l) in Hall. lia.
    + by apply Exists_exists, not_Forall_Exists.
  - intros (x & Hx & HP). destruct (decide (length (filter P l) = length l)) as [He|]; [|lia].
    rewrite length_filter_all in He. exfalso. auto.
Qed.

Lemma NoDup_fmap_filter {A B} (f : A -> B) (P : A -> Prop) `{!forall x, Decision (P x)} (l : list A) :
  NoDup (f <$> l) -> NoDup (f <$> filter P l).
Proof.
  induction l as [|x l IH]; simpl; [done|]. intros [Hni Hnd]%NoDup_cons.
  rewrite filter_cons. case_decide; [|by apply IH]. simpl. apply NoDup_cons. split; [|by apply IH].
  rewrite list_elem_of_fmap. intros (y & Heq & [_ Hin]%list_elem_of_filter).
  apply Hni. rewrite Heq. by apply list_elem_of_fmap_2.
Qed.

(** A list without duplicate keys holds one element per key. *)
Lemma NoDup_fmap_inj_on {A B} (f : A -> B) (l : list A) x y :
  NoDup (f <$> l) -> x ∈ l -> y ∈ l -> f x = f y -> x = y.
Proof.
  induction l as [|z l IH]; cbn; [set_solver|]. intros [Hni Hnd]%NoDup_cons.
  intros [->|Hx]%elem_of_cons [->|Hy]%elem_of_cons Heq; [done| | |by apply IH];
    exfalso; apply Hni; [rewrite Heq|rewrite <- Heq]; by apply list_elem_of_fmap_2.
Qed.

(** ** Insertion-ordered dictionaries

    A Python [dict]: assignment to a present key keeps its position, a new key
    goes last, [del] of an absent key raises [KeyError]. *)

Section odict.
Context {K V : Type} `{EqDecision K}.

Abbreviation odict := (list (K * V)).

Fixpoint od_get (k : K) (d : odict) : option V :=
  match d with
  | [] => None
  | (k', v) :: d' => if decide (k = k') then Some v else od_get k d'
  end.

Fixpoint od_set (k : K) (v : V) (d : odict) : odict :=
  match d with
  | [] => [(k, v)]
  | (k', v') :: d' => if decide (k = k') then (k', v) :: d' else (k', v') :: od_set k v d'
  end.

Fixpoint od_del (k : K) (d : odict) : odict :=
  match d with
  | [] => []
  | (k', v') :: d' => if decide (k = k') then d' else (k', v') :: od_del k d'
  end.

Definition od_keys (d : odict) : list K := d.*1.
Definition od_values (d : odict) : list V := d.*2.
Definition od_wf (d : odict) : Prop := NoDup (od_keys d).

Lemma od_get_set_eq k v d : od_get k (od_set k v d) = Some v.
Proof. induction d as [|[k' v'] d IH]; simpl; repeat (case_decide; simpl); congruence. Qed.

Lemma od_get_set_ne k k' v d : k <> k' -> od_get k' (od_set k v d) = od_get k' d.
Proof.
  intros Hne. induction d as [|[k0 v0] d IH]; simpl; repeat (case_decide; simpl); congruence.
Qed.

Lemma od_get_In k v d : od_get k d = Some v -> (k, v) ∈ d.
Proof.
  induction d as [|[k' v'] d IH]; simpl; [done|].
  case_decide; intros; simplify_eq; set_solver.
Qed.

Lemma od_In_get k v d : od_wf d -> (k, v) ∈ d -> od_get k d = Some v.
Proof.
  unfold od_wf. induction d as [|[k' v'] d IH]; simpl; [set_solver|].
  rewrite NoDup_cons. intros [Hni Hnd] [[= <- <-]|Hin]%elem_of_cons.
  { by rewrite decide_True. }
  rewrite decide_False; [by apply IH|]. intros ->. apply Hni.
  apply list_elem_of_fmap. by exists (k', v).
Qed.

Lemma od_get_None k d : od_get k d = None <-> k ∉ od_keys d.
Proof.
  induction d as [|[k' v'] d IH]; simpl; [set_solver|].
  case_decide; subst; set_solver.
Qed.

Lemma od_keys_set k v d :
  od_keys (od_set k v d) = if decide (k ∈ od_keys d) then od_keys d else od_keys d ++ [k].
Proof.
  induction d as [|[k' v'] d IH]; simpl; [done|].
  destruct (decide (k = k')) as [->|Hne].
  { simpl. rewrite decide_True; [done|set_solver]. }
  simpl. rewrite IH. repeat case_decide; set_solver.
Qed.

Lemma od_set_In k v d k' v' :
  (k', v') ∈ od_set k v d -> (k' = k /\ v' = v) \/ (k', v') ∈ d.
Proof.
  induction d as [|[k0 v0] d IH]; simpl; [set_solver|]. case_decide; set_solver.
Qed.

Lemma od_set_new k v d : k ∉ od_keys d -> od_set k v d = d ++ [(k, v)].
Proof.
  induction d as [|[k0 v0] d IH]; simpl; [done|]. intros Hni.
  rewrite decide_False by set_solver. rewrite IH by set_solver. done.
Qed.

Lemma od_del_In k d kv : kv ∈ od_del k d -> kv ∈ d.
Proof.
  induction d as [|[k0 v0] d IH]; simpl; [set_solver|]. case_decide; set_solver.
Qed.

Lemma od_set_wf k v d : od_wf d -> od_wf (od_set k v d).
Proof.
  unfold od_wf. rewrite od_keys_set. case_decide; [done|].
  intros. apply NoDup_app. split_and!; [done| |apply NoDup_singleton]. set_solver.
Qed.

Lemma elem_of_od_keys_del k k' d : k' ∈ od_keys (od_del k d) -> k' ∈ od_keys d.
Proof.
  induction d as [|[k0 v0] d IH]; simpl; [set_solver|]. case_decide; set_solver.
Qed.

Lemma od_del_wf k d : od_wf d -> od_wf (od_del k d).
Proof.
  unfold od_wf. induction d as [|[k0 v0] d IH]; simpl; [done|].
  rewrite NoDup_cons. intros [Hni Hnd]. case_decide; [done|].
  simpl. apply NoDup_cons. split; [|by apply IH].
  intros Hin%elem_of_od_keys_del. done.
Qed.

Lemma od_get_del_eq k d : od_wf d -> od_get k (od_del k d) = None.
Proof.
  unfold od_wf. induction d as [|[k0 v0] d IH]; simpl; [done|].
  rewrite NoDup_cons. intros [Hni Hnd]. case_decide; subst.
  - by apply od_get_None.
  - simpl. rewrite decide_False by done. by apply IH.
Qed.

Lemma od_get_del_ne k k' d : k <> k' -> od_get k' (od_del k d) = od_get k' d.
Proof.
  intros Hne. induction d as [|[k0 v0] d IH]; simpl; [done|].
  repeat (case_decide; simpl); congruence.
Qed.
End odict.

#[export] Hint Resolve od_set_wf od_del_wf : medre.

Lemma od_get_app_Some {K V} `{EqDecision K} (k : K) (v : V) l l' :
  od_get k l = Some v -> od_get k (l ++ l') = Some v.
Proof. induction l as [|[k1 v1] l IH]; simpl; [done|]. by case_decide. Qed.

Lemma od_get_app_None {K V} `{EqDecision K} (k : K) (l l' : list (K * V)) :
  od_get k l = None -> od_get k (l ++ l') = od_get k l'.
Proof. induction l as [|[k1 v1] l IH]; simpl; [done|]. by case_decide. Qed.

Lemma od_get_filter_keep {K V} `{EqDecision K} (k : K) (P : K * V -> Prop)
    `{!forall x, Decision (P x)} (l : list (K * V)) :
  (forall x, x ∈ l -> x.1 = k -> P x) -> od_get k (filter P l) = od_get k l.
Proof.
  induction l as [|[k' v] l IH]; intros Hk; [done|]. rewrite filter_cons.
  assert (od_get k (filter P l) = od_get k l) as E by (apply IH; intros; apply Hk; set_solver).
  destruct (decide (P (k', v))) as [Hp|Hp]; simpl; rewrite ?E; [done|].
  destruct (decide (k' = k)) as [->|Hn]; [|by rewrite decide_False by congruence].
  destruct Hp. apply Hk; [set_solver|done].
Qed.

(** LIMIT/OFFSET; a negative LIMIT is no limit. *)
Definition sql_limit {A} (limit offset : Z) (xs : list A) : list A :=
  let rest := drop (Z.to_nat offset) xs in
  if limit <? 0 then rest else take (Z.to_nat limit) rest.

Lemma sql_limit_sublist {A} limit (l : list A) : sublist (sql_limit limit 0 l) l.
Proof. unfold sql_limit. simpl. case_match; [done|]. apply sublist_take. Qed.

