(* ===== verification/AdapterLifecycle.v ===== *)
(** * Adapter lifecycle states and runtime supervision

    [src/src/medre/core/lifecycle/states.py] (the adapter state machine) and
    [src/src/medre/core/supervision/supervision.py] (classification of the
    runtime's health from the states of its adapters), with the
    state/health-string tables of [supervision/health.py]. *)

From S2P Require Import Prelude.

Open Scope string_scope.
Open Scope list_scope.
Open Scope Z_scope.

Module Lifecycle.

Inductive AdapterState : Set :=
| INITIALIZING
| READY
| DEGRADED
| BACKPRESSURED
| DISCONNECTED
| STOPPING
| FAILED
| STOPPED.

#[export] Instance AdapterState_eq_dec : EqDecision AdapterState.
Proof. solve_decision. Defined.

Definition AdapterState_value (s : AdapterState) : string :=
  match s with
  | INITIALIZING => "initializing"
  | READY => "ready"
  | DEGRADED => "degraded"
  | BACKPRESSURED => "backpressured"
  | DISCONNECTED => "disconnected"
  | STOPPING => "stopping"
  | FAILED => "failed"
  | STOPPED => "stopped"
  end.

Definition VALID_TRANSITIONS (s : AdapterState) : list AdapterState :=
  match s with
  | INITIALIZING => [READY; STOPPING; STOPPED; FAILED]
  | READY => [DEGRADED; BACKPRESSURED; DISCONNECTED; STOPPING; FAILED]
  | DEGRADED => [READY; BACKPRESSURED; DISCONNECTED; STOPPING; FAILED]
  | BACKPRESSURED => [READY; DEGRADED; DISCONNECTED; STOPPING; FAILED]
  | DISCONNECTED => [READY; STOPPING; FAILED]
  | STOPPING => [STOPPED; FAILED]
  | FAILED => []
  | STOPPED => []
  end.

Definition is_valid_transition (source target : AdapterState) : bool :=
  elem target (VALID_TRANSITIONS source).

(** [InvalidStateTransition(source, target)]. *)
Record InvalidStateTransition : Set := { ist_source : AdapterState; ist_target : AdapterState }.

Definition require_valid_transition (source target : AdapterState) :
  result InvalidStateTransition unit :=
  if is_valid_transition source target then Ok tt
  else Raise {| ist_source := source; ist_target := target |}.

(** One legal move of the machine. *)
Inductive step : AdapterState -> AdapterState -> Prop :=
| step_valid s t : require_valid_transition s t = Ok tt -> step s t.

Definition terminal (s : AdapterState) : Prop := forall t, ~ step s t.

(** A rank that every transition out of the operating states decreases:
    operating states share rank 2, so only they can be revisited. *)
Definition phase (s : AdapterState) : Z :=
  match s with
  | INITIALIZING => 3
  | READY | DEGRADED | BACKPRESSURED | DISCONNECTED => 2
  | STOPPING => 1
  | FAILED | STOPPED => 0
  end.

Lemma step_spec s t : step s t <-> t ∈ VALID_TRANSITIONS s.
Proof.
  split.
  - intros [? ? H]. revert H. unfold require_valid_transition, is_valid_transition.
    case_match; [|done]. by breflect.
  - intros H. constructor. unfold require_valid_transition, is_valid_transition.
    apply elem_true in H. by rewrite H.
Qed.

Ltac enum_transitions :=
  repeat match goal with
  | H : step ?s _ |- _ => apply step_spec in H; destruct s; simpl in H
  | H : _ ∈ _ :: _ |- _ => apply elem_of_cons in H as [->|H]
  | H : _ ∈ [] |- _ => by apply not_elem_of_nil in H
  end.

Lemma phase_antitone s t : step s t -> phase t <= phase s.
Proof. intros H. enum_transitions; simpl; lia. Qed.

Lemma phase_antitone_rtc s t : rtc step s t -> phase t <= phase s.
Proof. induction 1 as [|s t u Hst _ IH]; [lia|]. apply phase_antitone in Hst. lia. Qed.

Lemma terminal_iff_phase s : terminal s <-> phase s = 0.
Proof.
  split.
  - intros H. destruct s; simpl; try done; exfalso.
    all: apply (H FAILED), step_spec; simpl; set_solver.
  - intros H t Ht. enum_transitions; done.
Qed.

(** Terminal states are exactly FAILED and STOPPED; every other state can
    reach both of them; once a shutdown has begun no operating state is
    reachable again; and a state outside the operating group is never
    re-entered. *)
Lemma terminal_states s : terminal s <-> s = FAILED \/ s = STOPPED.
Proof. rewrite terminal_iff_phase. destruct s; simpl; naive_solver. Qed.

Lemma step_FAILED s : s <> FAILED -> s <> STOPPED -> step s FAILED.
Proof. intros. apply step_spec. destruct s; try done; simpl; set_solver. Qed.

Lemma reach_STOPPED s : s <> FAILED -> s <> STOPPED -> rtc step s STOPPED.
Proof.
  intros. assert (rtc step STOPPING STOPPED) by
    (apply rtc_once, step_spec; simpl; set_solver).
  destruct s; try done; (eapply rtc_l; [apply step_spec|done]); simpl; set_solver.
Qed.

(** Along any sequence of legal transitions a terminal state (FAILED or
    STOPPED) is never left, a shutdown that has begun ends only in STOPPED or
    FAILED, and an adapter that has left INITIALIZING never re-enters it. *)
Theorem lifecycle_runs_forward s t :
  rtc step s t ->
  (s = FAILED \/ s = STOPPED -> t = s) /\
  (s = STOPPING -> t = STOPPING \/ t = STOPPED \/ t = FAILED) /\
  (t = INITIALIZING -> s = INITIALIZING).
Proof.
  induction 1 as [s|s u t Hsu _ IH]; [naive_solver|].
  enum_transitions; naive_solver.
Qed.

Lemma lifecycle_runs_forward_witness :
  rtc step READY STOPPED /\ rtc step STOPPING FAILED /\
  (STOPPING = STOPPING -> FAILED = STOPPING \/ FAILED = STOPPED \/ FAILED = FAILED).
Proof.
  assert (rtc step STOPPING FAILED) as H
    by (apply rtc_once, step_spec; apply elem_true; reflexivity).
  split; [by apply reach_STOPPED|]. split; [done|].
  exact (proj1 (proj2 (lifecycle_runs_forward _ _ H))).
Defined.

(** Every state that is not terminal can be driven to a clean STOPPED and
    can fail in one transition; the transition check raises exactly on the
    pairs missing from the graph, carrying both states. *)
Theorem lifecycle_live s :
  (terminal s <-> s = FAILED \/ s = STOPPED) /\
  (~ terminal s -> step s FAILED /\ rtc step s STOPPED) /\
  forall t, require_valid_transition s t =
    if elem t (VALID_TRANSITIONS s) then Ok tt
    else Raise {| ist_source := s; ist_target := t |}.
Proof.
  split_and!; [apply terminal_states| |done].
  rewrite terminal_states. intros Hn. split.
  - apply step_FAILED; naive_solver.
  - apply reach_STOPPED; naive_solver.
Qed.

End Lifecycle.

Module Supervision.
Import Lifecycle.

Inductive RuntimeHealth : Set := RH_HEALTHY | RH_DEGRADED | RH_FAILED.
Inductive AdapterFailureSeverity : Set := FATAL | NON_FATAL.
Inductive StartupOutcome : Set := SUCCESS | PARTIAL | TOTAL_FAILURE.

#[export] Instance RuntimeHealth_eq_dec : EqDecision RuntimeHealth.
Proof. solve_decision. Defined.

Definition RuntimeHealth_value (h : RuntimeHealth) : string :=
  match h with
  | RH_HEALTHY => "healthy" | RH_DEGRADED => "degraded" | RH_FAILED => "failed"
  end.

Definition OPERATIONAL_STATES : list AdapterState := [READY].
Definition PARTIAL_STATES : list AdapterState := [DEGRADED; BACKPRESSURED; DISCONNECTED].
Definition DEAD_STATES : list AdapterState := [FAILED; STOPPED].

Record StateCounts : Set :=
  { sc_operational : Z; sc_partial : Z; sc_failed : Z; sc_transitional : Z }.

Definition count_one (c : StateCounts) (s : AdapterState) : StateCounts :=
  if elem s OPERATIONAL_STATES then
    {| sc_operational := sc_operational c + 1; sc_partial := sc_partial c;
       sc_failed := sc_failed c; sc_transitional := sc_transitional c |}
  else if elem s PARTIAL_STATES then
    {| sc_operational := sc_operational c; sc_partial := sc_partial c + 1;
       sc_failed := sc_failed c; sc_transitional := sc_transitional c |}
  else if elem s DEAD_STATES then
    {| sc_operational := sc_operational c; sc_partial := sc_partial c;
       sc_failed := sc_failed c + 1; sc_transitional := sc_transitional c |}
  else
    {| sc_operational := sc_operational c; sc_partial := sc_partial c;
       sc_failed := sc_failed c; sc_transitional := sc_transitional c + 1 |}.

Definition count_adapter_state_categories (states : list AdapterState) : StateCounts :=
  foldl count_one
    {| sc_operational := 0; sc_partial := 0; sc_failed := 0; sc_transitional := 0 |} states.

Definition classify_runtime_health (states : list AdapterState) : RuntimeHealth :=
  if negb (nonempty states) then RH_FAILED
  else
    let c := count_adapter_state_categories states in
    let total := Z.of_nat (length states) in
    if sc_operational c =? total then RH_HEALTHY
    else if sc_failed c =? total then RH_FAILED
    else if sc_operational c >? 0 then RH_DEGRADED
    else if sc_partial c >? 0 then RH_DEGRADED
    else if sc_failed c >? 0 then RH_FAILED
    else RH_FAILED.

Definition classify_adapter_failure_severity (healthy_count total_count : Z) :
  AdapterFailureSeverity :=
  if total_count =? 0 then FATAL
  else if healthy_count =? 0 then FATAL
  else NON_FATAL.

Definition classify_startup_outcome (started failed total : Z) : StartupOutcome :=
  if total =? 0 then TOTAL_FAILURE
  else if started =? 0 then TOTAL_FAILURE
  else if started =? total then SUCCESS
  else PARTIAL.

(** The state distribution that the snapshot's fingerprint prints. *)
Definition state_counts (states : list AdapterState) : list (string * Z) :=
  foldl (fun d s =>
    let v := AdapterState_value s in od_set v (default 0 (od_get v d) + 1) d) [] states.

Record SupervisionSnapshot : Set := {
  ss_runtime_health : string;
  ss_counts : StateCounts;
  ss_total : Z;
  ss_fingerprint : string
}.

Definition runtime_supervision_snapshot (states : list AdapterState) : SupervisionSnapshot :=
  {| ss_runtime_health := RuntimeHealth_value (classify_runtime_health states);
     ss_counts := count_adapter_state_categories states;
     ss_total := Z.of_nat (length states);
     ss_fingerprint := py_join ", "
       ((fun kv => kv.1 +:+ "=" +:+ py_str kv.2) <$>
          sorted_by (lex_leb String.leb Z.leb) (state_counts states)) |}.

(** [health.py]: the health vocabulary and its state tables. *)
Definition VALID_HEALTH_STRINGS : list string :=
  ["healthy"; "degraded"; "failed"; "unknown"; "starting"; "stopping"].

Definition STATE_TO_HEALTH (s : AdapterState) : string :=
  match s with
  | INITIALIZING => "starting"
  | READY => "healthy"
  | DEGRADED | BACKPRESSURED | DISCONNECTED => "degraded"
  | STOPPING => "stopping"
  | FAILED => "failed"
  | STOPPED => "unknown"
  end.

Definition TRANSITIONAL_STATES (s : AdapterState) : option string :=
  match s with
  | INITIALIZING => Some "starting"
  | STOPPING => Some "stopping"
  | _ => None
  end.

Definition HEALTH_TO_ADAPTER_STATE : list (string * AdapterState) :=
  [("healthy", READY); ("degraded", DEGRADED); ("failed", FAILED);
   ("unknown", STOPPED); ("starting", INITIALIZING); ("stopping", STOPPING)].

Definition health_to_adapter_state (health : string) : AdapterState :=
  default FAILED (od_get health HEALTH_TO_ADAPTER_STATE).

Definition MAX_LIVE_HEALTH_ERROR_LEN : Z := 256.

Definition truncate_health_error (error : string) : string :=
  if Z.of_nat (String.length error) <=? MAX_LIVE_HEALTH_ERROR_LEN then error
  else String.substring 0 (Z.to_nat (MAX_LIVE_HEALTH_ERROR_LEN - 3)) error +:+ "...".

(** The health string that [normalize_adapter_health] reports. *)
Definition normalize_adapter_health_string (health : string)
    (lifecycle_state : option AdapterState) : string :=
  let h := if elem health VALID_HEALTH_STRINGS then health else "unknown" in
  match lifecycle_state with
  | Some s =>
      match TRANSITIONAL_STATES s with
      | Some t => t
      | None => if decide (s = STOPPED) then "unknown" else h
      end
  | None => h
  end.

Lemma count_foldl c states :
  sc_operational (foldl count_one c states) =
    sc_operational c + Z.of_nat (length (filter (fun s => s = READY) states)) /\
  sc_partial (foldl count_one c states) =
    sc_partial c + Z.of_nat (length (filter (fun s => s ∈ PARTIAL_STATES) states)) /\
  sc_failed (foldl count_one c states) =
    sc_failed c + Z.of_nat (length (filter (fun s => s ∈ DEAD_STATES) states)) /\
  sc_transitional (foldl count_one c states) =
    sc_transitional c + Z.of_nat (length (filter (fun s => s = INITIALIZING \/ s = STOPPING) states)).
Proof.
  revert c. induction states as [|s states IH]; intros c; simpl; [lia|].
  destruct (IH (count_one c s)) as (-> & -> & -> & ->).
  rewrite !filter_cons. destruct s; vm_compute (decide _) in |- *; simpl; lia.
Qed.

Lemma count_spec states :
  let c := count_adapter_state_categories states in
  sc_operational c = Z.of_nat (length (filter (fun s => s = READY) states)) /\
  sc_partial c = Z.of_nat (length (filter (fun s => s ∈ PARTIAL_STATES) states)) /\
  sc_failed c = Z.of_nat (length (filter (fun s => s ∈ DEAD_STATES) states)) /\
  sc_transitional c =
    Z.of_nat (length (filter (fun s => s = INITIALIZING \/ s = STOPPING) states)).
Proof. apply count_foldl. Qed.

Definition serving (s : AdapterState) : Prop := s = READY \/ s ∈ PARTIAL_STATES.

#[export] Instance serving_dec s : Decision (serving s).
Proof. unfold serving. apply _. Defined.

Lemma classify_runtime_health_eq states :
  classify_runtime_health states =
    if bool_decide (states = []) then RH_FAILED
    else if bool_decide (Forall (fun s => s = READY) states) then RH_HEALTHY
    else if bool_decide (Exists serving states) then RH_DEGRADED else RH_FAILED.
Proof.
  unfold classify_runtime_health.
  destruct (count_spec states) as (-> & -> & -> & _).
  rewrite bool_decide_eq_negb_nonempty. case_bool_decide as Hne; [done|]. cbn [negb].
  assert (Hbd : forall P `{Decision P} Q `{Decision Q}, (P <-> Q) -> bool_decide P = bool_decide Q)
    by (intros; by apply bool_decide_ext).
  rewrite (Hbd _ _ (length (filter (fun s => s = READY) states) = length states) _)
    by (by rewrite Forall_forall, length_filter_all).
  case_bool_decide as HallR; [by rewrite (proj2 (Z.eqb_eq _ _)) by lia|].
  rewrite (proj2 (Z.eqb_neq _ _)) by lia.
  rewrite (Hbd (Exists serving states) _
    (0 < length (filter (fun s => s = READY) states) \/
     0 < length (filter (fun s => s ∈ PARTIAL_STATES) states))%nat _)
    by (rewrite Exists_exists, !length_filter_pos; unfold serving; naive_solver).
  destruct (Z.eqb_spec (Z.of_nat (length (filter (fun s => s ∈ DEAD_STATES) states)))
    (Z.of_nat (length states))) as [HallD|_].
  - apply Nat2Z.inj in HallD. rewrite length_filter_all in HallD.
    rewrite bool_decide_eq_false_2; [done|].
    rewrite !length_filter_pos. intros [(x & Hx & HP)|(x & Hx & HP)];
      specialize (HallD x Hx); destruct x; set_solver.
  - case_bool_decide; split_ifs; lia.
Qed.

(** The runtime-health classification is the stated trichotomy: healthy
    exactly when there is an adapter and all of them are READY, failed exactly
    when no adapter is READY or partially capable (in particular when none is
    registered), and degraded in every remaining case. *)
Theorem classify_runtime_health_spec states :
  (classify_runtime_health states = RH_HEALTHY <->
     states <> [] /\ forall s, s ∈ states -> s = READY) /\
  (classify_runtime_health states = RH_FAILED <-> forall s, s ∈ states -> ~ serving s) /\
  (classify_runtime_health states = RH_DEGRADED <->
     (exists s, s ∈ states /\ serving s) /\ exists s, s ∈ states /\ s <> READY).
Proof.
  rewrite classify_runtime_health_eq.
  case_bool_decide as Hnil; [subst; repeat split; set_solver|].
  destruct states as [|s0 states']; [done|]. remember (s0 :: states') as states.
  assert (s0 ∈ states) as Hs0 by (subst; set_solver).
  case_bool_decide as HallR.
  { rewrite Forall_forall in HallR. pose proof (HallR s0 Hs0).
    repeat split; try done; [intros Hno; exfalso|intros (_ & s & Hs & Hn); exfalso]; [|naive_solver].
    apply (Hno s0); [done|by left]. }
  assert (exists s, s ∈ states /\ s <> READY) as HexN.
  { apply not_Forall_Exists, Exists_exists in HallR; [done|apply _]. }
  rewrite Forall_forall in HallR.
  case_bool_decide as Hex; rewrite Exists_exists in Hex; naive_solver.
Qed.

End Supervision.
