(* ===== verification/DeliveryState.v ===== *)
(** * Delivery status vocabularies and transition tables

    [src/src/medre/core/engine/pipeline/delivery_state.py].  The source keeps
    statuses as plain strings; so do the tables and validators here.  The
    storage components use the enumerations [OutboxStatus] and
    [ReceiptStatus], whose values are exactly the vocabularies (the SQLite
    CHECK constraint on [delivery_outbox.status]). *)

From S2P Require Import Prelude.

Open Scope string_scope.
Open Scope list_scope.
Open Scope Z_scope.

Definition RECEIPT_STATUSES : list string :=
  ["queued"; "sent"; "failed"; "dead_lettered"; "cancelled"; "abandoned"; "suppressed"].

Definition TERMINAL_RECEIPT_STATUSES : list string :=
  ["sent"; "dead_lettered"; "cancelled"; "abandoned"; "suppressed"].

Definition NON_TERMINAL_RECEIPT_STATUSES : list string :=
  filter (fun s => s ∉ TERMINAL_RECEIPT_STATUSES) RECEIPT_STATUSES.

Definition OUTBOX_STATUSES : list string :=
  ["pending"; "in_progress"; "queued"; "sent"; "retry_wait"; "dead_lettered";
   "cancelled"; "abandoned"].

Definition TERMINAL_OUTBOX_STATUSES : list string :=
  ["sent"; "dead_lettered"; "cancelled"; "abandoned"].

Definition NON_TERMINAL_OUTBOX_STATUSES : list string :=
  filter (fun s => s ∉ TERMINAL_OUTBOX_STATUSES) OUTBOX_STATUSES.

Definition CLAIMABLE_OUTBOX_STATUSES : list string := ["pending"; "retry_wait"].

Definition OUTCOME_STATUSES : list string :=
  ["success"; "queued"; "transient_failure"; "permanent_failure"; "skipped"].

Definition ACCEPTED_OUTCOME_STATUSES : list string := ["success"; "queued"].

Definition RECEIPT_TRANSITIONS : list (string * list string) :=
  [("queued", ["sent"; "failed"; "cancelled"; "abandoned"]);
   ("failed", ["dead_lettered"; "failed"; "queued"; "sent"])].

Definition OUTBOX_TRANSITIONS : list (string * list string) :=
  [("pending", ["in_progress"; "cancelled"; "abandoned"]);
   ("retry_wait", ["in_progress"; "cancelled"; "dead_lettered"; "abandoned"]);
   ("queued", ["in_progress"; "sent"; "cancelled"; "abandoned"]);
   ("in_progress", ["pending"; "queued"; "sent"; "retry_wait"; "dead_lettered";
                    "cancelled"; "abandoned"])].

Definition validate_receipt_status (status : string) : bool := elem status RECEIPT_STATUSES.
Definition validate_outbox_status (status : string) : bool := elem status OUTBOX_STATUSES.
Definition validate_outcome_status (status : string) : bool := elem status OUTCOME_STATUSES.

Definition is_terminal_receipt_status (status : string) : bool :=
  elem status TERMINAL_RECEIPT_STATUSES.
Definition is_terminal_outbox_status (status : string) : bool :=
  elem status TERMINAL_OUTBOX_STATUSES.
Definition is_claimable_outbox_status (status : string) : bool :=
  elem status CLAIMABLE_OUTBOX_STATUSES.
Definition is_accepted_outcome_status (status : string) : bool :=
  elem status ACCEPTED_OUTCOME_STATUSES.

Definition validate_receipt_transition (source target : string) : bool :=
  match od_get source RECEIPT_TRANSITIONS with
  | Some allowed => elem target allowed
  | None => false
  end.

Definition validate_outbox_transition (source target : string) : bool :=
  match od_get source OUTBOX_TRANSITIONS with
  | Some allowed => elem target allowed
  | None => false
  end.

Definition is_valid_queued_to_sent_transition (source_status : string) : bool :=
  bool_decide (source_status = "queued").

(** ** The outbox vocabulary as an enumeration *)

Inductive OutboxStatus : Set :=
| Pending | InProgress | Queued | Sent | RetryWait | DeadLettered | Cancelled | Abandoned.

#[export] Instance OutboxStatus_eq_dec : EqDecision OutboxStatus.
Proof. solve_decision. Defined.

Definition outbox_str (s : OutboxStatus) : string :=
  match s with
  | Pending => "pending"
  | InProgress => "in_progress"
  | Queued => "queued"
  | Sent => "sent"
  | RetryWait => "retry_wait"
  | DeadLettered => "dead_lettered"
  | Cancelled => "cancelled"
  | Abandoned => "abandoned"
  end.

Definition all_outbox_statuses : list OutboxStatus :=
  [Pending; InProgress; Queued; Sent; RetryWait; DeadLettered; Cancelled; Abandoned].

Definition outbox_terminal (s : OutboxStatus) : bool := is_terminal_outbox_status (outbox_str s).
Definition outbox_claimable (s : OutboxStatus) : bool := is_claimable_outbox_status (outbox_str s).

(** [outbox_move s t]: the row keeps its status or the table lists the move. *)
Definition outbox_move (s t : OutboxStatus) : bool :=
  bool_decide (s = t) || validate_outbox_transition (outbox_str s) (outbox_str t).

#[export] Instance outbox_str_inj : Inj (=) (=) outbox_str.
Proof. intros [] []; simpl; intros; simplify_eq; done. Qed.

Lemma outbox_str_vocabulary : outbox_str <$> all_outbox_statuses = OUTBOX_STATUSES.
Proof. reflexivity. Qed.

Lemma outbox_status_of_string s :
  validate_outbox_status s = true <-> exists st, s = outbox_str st.
Proof.
  unfold validate_outbox_status. rewrite elem_true, <- outbox_str_vocabulary, list_elem_of_fmap.
  split; intros [st ?]; exists st; [naive_solver|].
  split; [done|]. destruct st; unfold all_outbox_statuses; set_solver.
Qed.

Lemma outbox_terminal_cases s :
  outbox_terminal s = true <->
  s = Sent \/ s = DeadLettered \/ s = Cancelled \/ s = Abandoned.
Proof. destruct s; vm_compute; naive_solver. Qed.

(** A terminal status has no outgoing move. *)
Lemma terminal_no_move s t :
  outbox_terminal s = true -> outbox_move s t = true -> s = t.
Proof. destruct s, t; vm_compute; done. Qed.

(** Any string pair accepted by the table has its source in the non-terminal
    vocabulary and its target in the vocabulary. *)
Lemma validate_outbox_transition_inv a b :
  validate_outbox_transition a b = true ->
  exists s t, a = outbox_str s /\ b = outbox_str t /\ outbox_terminal s = false.
Proof.
  unfold validate_outbox_transition, OUTBOX_TRANSITIONS. simpl.
  intros H.
  repeat case_decide; subst; try done.
  all: rewrite elem_true in H.
  all: repeat (apply elem_of_cons in H as [->|H]); try (by apply not_elem_of_nil in H).
  all: match goal with
       | |- exists s t, ?a = _ /\ ?b = _ /\ _ =>
           let go s t := (exists s, t; split_and!; reflexivity) in
           first [ go Pending InProgress | go Pending Cancelled | go Pending Abandoned
                 | go RetryWait InProgress | go RetryWait Cancelled | go RetryWait DeadLettered
                 | go RetryWait Abandoned | go Queued InProgress | go Queued Sent
                 | go Queued Cancelled | go Queued Abandoned | go InProgress Pending
                 | go InProgress Queued | go InProgress Sent | go InProgress RetryWait
                 | go InProgress DeadLettered | go InProgress Cancelled
                 | go InProgress Abandoned ]
       end.
Qed.

(** The transition table, the terminal set and the claimable set of the
    outbox agree, for arbitrary strings: a status is terminal exactly when it
    is a known status with no legal successor, every legal transition stays
    inside the vocabulary, and a directly claimable status is a known,
    non-terminal status whose claim transition to in_progress is legal. *)
Theorem outbox_tables_agree (a b : string) :
  (is_terminal_outbox_status a = true <->
     validate_outbox_status a = true /\ forall t, validate_outbox_transition a t = false) /\
  (validate_outbox_transition a b = true ->
     validate_outbox_status a = true /\ validate_outbox_status b = true) /\
  (is_claimable_outbox_status a = true ->
     validate_outbox_status a = true /\ is_terminal_outbox_status a = false /\
     validate_outbox_transition a "in_progress" = true).
Proof.
  split_and!.
  - split.
    + unfold is_terminal_outbox_status. rewrite elem_true. intros Ha.
      repeat (apply elem_of_cons in Ha as [->|Ha]); try (by apply not_elem_of_nil in Ha).
      all: split; [reflexivity|]; intros t; reflexivity.
    + intros [[st ->]%outbox_status_of_string Hno].
      destruct st; try reflexivity; exfalso.
      all: by specialize (Hno "cancelled").
  - intros (s & t & -> & -> & _)%validate_outbox_transition_inv.
    by split; apply outbox_status_of_string; eexists.
  - unfold is_claimable_outbox_status. rewrite elem_true. intros Ha.
    repeat (apply elem_of_cons in Ha as [->|Ha]); try (by apply not_elem_of_nil in Ha).
    all: by split_and!.
Qed.

(** ** Receipt chains

    A receipt row never changes; a chain of receipts for one delivery grows by
    appending a receipt whose status is a legal successor. *)

Inductive receipt_chain : list string -> Prop :=
| chain_one s : validate_receipt_status s = true -> receipt_chain [s]
| chain_snoc l s t :
    receipt_chain (l ++ [s]) -> validate_receipt_transition s t = true ->
    receipt_chain (l ++ [s; t]).

Lemma validate_receipt_transition_inv a b :
  validate_receipt_transition a b = true ->
  a ∈ NON_TERMINAL_RECEIPT_STATUSES /\ b ∈ RECEIPT_STATUSES.
Proof.
  unfold validate_receipt_transition, RECEIPT_TRANSITIONS. simpl. intros H.
  repeat case_decide; subst; try done.
  all: rewrite elem_true in H.
  all: repeat (apply elem_of_cons in H as [->|H]); try (by apply not_elem_of_nil in H).
  all: split; apply elem_true; reflexivity.
Qed.

(** In a receipt chain every receipt but the last is non-terminal
    (queued or failed), every status is in the vocabulary, and hence at most
    the last receipt is terminal. *)
Theorem receipt_chain_terminal_last l s :
  receipt_chain (l ++ [s]) ->
  (forall x, x ∈ l -> is_terminal_receipt_status x = false) /\
  (forall x, x ∈ l ++ [s] -> validate_receipt_status x = true).
Proof.
  intros Hc. remember (l ++ [s]) as c eqn:Heq. revert l s Heq.
  induction Hc as [s0 Hs0|l0 s0 t Hc IH Ht]; intros l s Heq.
  - destruct l as [|? [|]]; simplify_eq/=. split; [set_solver|]. set_solver.
  - change [s0; t] with ([s0] ++ [t]) in *. rewrite app_assoc in *.
    apply app_inj_2 in Heq as [<- [= ->]]; [|done].
    destruct (IH _ _ eq_refl) as [H1 H2].
    apply validate_receipt_transition_inv in Ht as [Hs Ht]. split.
    + intros x [Hx|Hx]%elem_of_app; [by apply H1|].
      apply list_elem_of_singleton in Hx as ->.
      unfold is_terminal_receipt_status. rewrite elem_false.
      by apply list_elem_of_filter in Hs as [? _].
    + intros x [Hx|Hx]%elem_of_app; [by apply H2|].
      apply list_elem_of_singleton in Hx as ->. by apply elem_true.
Qed.

Lemma receipt_chain_terminal_last_witness :
  receipt_chain ((["failed"; "queued"] : list string) ++ ["sent"]) /\
  (forall x, x ∈ ["failed"; "queued"] -> is_terminal_receipt_status x = false).
Proof.
  assert (receipt_chain ((["failed"; "queued"] : list string) ++ ["sent"])) as H.
  { apply (chain_snoc ["failed"] "queued" "sent"); [|reflexivity].
    apply (chain_snoc [] "failed" "queued"); [|reflexivity]. by constructor. }
  split; [exact H|]. exact (proj1 (receipt_chain_terminal_last _ _ H)).
Defined.
