(* ===== verification/Json.v ===== *)
(** * JSON values

    The Python values that occur as route metadata and in frozen documents:
    [None], booleans, integers, strings, lists and string-keyed dictionaries
    (insertion order kept).  Floating-point members are not represented. *)

From S2P Require Import Prelude.

Open Scope string_scope.
Open Scope list_scope.
Open Scope Z_scope.

Inductive json : Type :=
| JNull
| JBool (b : bool)
| JInt (n : Z)
| JStr (s : string)
| JArr (xs : list json)
| JObj (kvs : list (string * json)).

Fixpoint json_ind' (P : json -> Prop) (Hnull : P JNull) (Hbool : forall b, P (JBool b))
    (Hint : forall n, P (JInt n)) (Hstr : forall s, P (JStr s))
    (Harr : forall xs, Forall P xs -> P (JArr xs))
    (Hobj : forall kvs, Forall (fun kv => P kv.2) kvs -> P (JObj kvs)) (j : json) : P j :=
  match j with
  | JNull => Hnull
  | JBool b => Hbool b
  | JInt n => Hint n
  | JStr s => Hstr s
  | JArr xs => Harr xs
      ((fix go l : Forall P l :=
          match l with
          | [] => Forall_nil_2 _
          | x :: l' => Forall_cons_2 _ x l'
              (json_ind' P Hnull Hbool Hint Hstr Harr Hobj x) (go l')
          end) xs)
  | JObj kvs => Hobj kvs
      ((fix go l : Forall (fun kv => P kv.2) l :=
          match l with
          | [] => Forall_nil_2 _
          | kv :: l' => Forall_cons_2 _ kv l'
              (json_ind' P Hnull Hbool Hint Hstr Harr Hobj kv.2) (go l')
          end) kvs)
  end.
