(* ===== verification/RoutePolicy.v ===== *)
(** * Route policies

    [src/src/medre/core/policies/route_policy.py]: allowlist policies and
    their evaluation against an event and a target. *)

From Stdlib Require Import Ascii.
From S2P Require Import Prelude.

Open Scope string_scope.
Open Scope list_scope.
Open Scope Z_scope.

Definition REASON_SOURCE_ADAPTER : string := "source_adapter_not_allowed".
Definition REASON_DEST_ADAPTER : string := "dest_adapter_not_allowed".
Definition REASON_SENDER : string := "sender_not_allowed".
Definition REASON_ROOM : string := "room_not_allowed".
Definition REASON_CHANNEL : string := "channel_not_allowed".

Definition SUMMARY_CUTOFF : nat := 5.
Definition BLOCKED_VALUE_CUTOFF : nat := 256.

Record RoutePolicy : Set := {
  allowed_source_adapters : list string;
  allowed_dest_adapters : list string;
  room_allowlist : list string;
  channel_allowlist : list string;
  sender_allowlist : list string
}.

Record RouteDecision : Set := {
  rd_allowed : bool;
  rd_reason : option string;
  rd_blocked_field : option string;
  rd_blocked_value : option string;
  rd_allowed_summary : string
}.

(** The event and target attributes the evaluator reads. *)
Record RoutePolicyEvent : Set := {
  pe_source_adapter : string;
  pe_source_transport_id : string;
  pe_source_channel_id : option string
}.

Record RoutePolicyTarget : Set := {
  pt_adapter : option string;
  pt_channel : option string
}.

Definition safe_summary (field_name : string) (values : list string) : string :=
  if negb (nonempty values) then field_name +:+ ": any"
  else if bool_decide (length values <= SUMMARY_CUTOFF)%nat then
    field_name +:+ ": [" +:+ py_join ", " values +:+ "]"
  else
    field_name +:+ ": [" +:+ py_join ", " (take SUMMARY_CUTOFF values) +:+ ", ... (" +:+
      py_str (Z.of_nat (length values)) +:+ " total)]".

(** [str.encode("unicode_escape")] on one code point up to U+00FF. *)
Definition hex_digit (n : N) : string :=
  String (ascii_of_N (if (n <? 10)%N then 48 + n else 87 + n)) "".

Definition escape_char (c : ascii) : string :=
  let n := N_of_ascii c in
  if (n =? 9)%N then "\t" else if (n =? 10)%N then "\n" else if (n =? 13)%N then "\r"
  else if (n =? 92)%N then "\\"
  else if ((32 <=? n) && (n <=? 126))%N then String c ""
  else "\x" +:+ hex_digit (n / 16) +:+ hex_digit (n mod 16).

Fixpoint unicode_escape (s : string) : string :=
  match s with
  | EmptyString => EmptyString
  | String c rest => escape_char c +:+ unicode_escape rest
  end.

Definition deny (reason blocked_field blocked_value : string) : RouteDecision :=
  let safe_display :=
    if bool_decide (BLOCKED_VALUE_CUTOFF <= String.length blocked_value)%nat then "<blocked>"
    else unicode_escape blocked_value in
  {| rd_allowed := false;
     rd_reason := Some reason;
     rd_blocked_field := Some blocked_field;
     rd_blocked_value := Some blocked_value;
     rd_allowed_summary :=
       "denied: " +:+ reason +:+ " (" +:+ blocked_field +:+ "=" +:+ safe_display +:+ ")" |}.

Definition allow (policy : RoutePolicy) : RouteDecision :=
  {| rd_allowed := true;
     rd_reason := None;
     rd_blocked_field := None;
     rd_blocked_value := None;
     rd_allowed_summary := py_join "; "
       [safe_summary "source_adapters" (allowed_source_adapters policy);
        safe_summary "dest_adapters" (allowed_dest_adapters policy);
        safe_summary "rooms" (room_allowlist policy);
        safe_summary "channels" (channel_allowlist policy);
        safe_summary "senders" (sender_allowlist policy)] |}.

(** [xs and (v is None or v not in xs)]: the refusal test of an allowlist. *)
Definition refused (xs : list string) (v : option string) : bool :=
  nonempty xs && match v with None => true | Some x => negb (elem x xs) end.

Definition missing (v : option string) : string := default "<missing>" v.

Definition effective_channel (event : RoutePolicyEvent) (target : RoutePolicyTarget) :
  option string :=
  match pt_channel target with
  | Some c => Some c
  | None => pe_source_channel_id event
  end.

Definition evaluate_route_policy (policy : RoutePolicy) (event : RoutePolicyEvent)
    (target : RoutePolicyTarget) : RouteDecision :=
  let src_adapter := pe_source_adapter event in
  if nonempty (allowed_source_adapters policy) &&
     negb (elem src_adapter (allowed_source_adapters policy)) then
    deny REASON_SOURCE_ADAPTER "allowed_source_adapters" src_adapter
  else
  let dst_adapter := pt_adapter target in
  if refused (allowed_dest_adapters policy) dst_adapter then
    deny REASON_DEST_ADAPTER "allowed_dest_adapters" (missing dst_adapter)
  else
  let sender := pe_source_transport_id event in
  if nonempty (sender_allowlist policy) && negb (elem sender (sender_allowlist policy)) then
    deny REASON_SENDER "sender_allowlist" sender
  else
  let source_channel_id := pe_source_channel_id event in
  if refused (room_allowlist policy) source_channel_id then
    deny REASON_ROOM "room_allowlist" (missing source_channel_id)
  else
  let channel := effective_channel event target in
  if refused (channel_allowlist policy) channel then
    deny REASON_CHANNEL "channel_allowlist" (missing channel)
  else allow policy.

(** ** Specification: five independent allowlist checks *)

Definition permits (xs : list string) (v : option string) : Prop :=
  xs = [] \/ exists x, v = Some x /\ x ∈ xs.

#[export] Instance permits_dec xs v : Decision (permits xs v).
Proof.
  destruct (decide (xs = [])) as [->|Hne]; [left; by left|].
  destruct v as [x|]; [|right; intros [?|(? & ? & ?)]; done].
  destruct (decide (x ∈ xs)) as [Hx|Hx]; [left; right; by exists x|].
  right. intros [?|(? & [= ->] & ?)]; done.
Defined.

Record check : Set := { ck_reason : string; ck_field : string; ck_list : list string;
                        ck_value : option string }.

Definition policy_checks (p : RoutePolicy) (e : RoutePolicyEvent) (t : RoutePolicyTarget) :
  list check :=
  [ {| ck_reason := REASON_SOURCE_ADAPTER; ck_field := "allowed_source_adapters";
       ck_list := allowed_source_adapters p; ck_value := Some (pe_source_adapter e) |};
    {| ck_reason := REASON_DEST_ADAPTER; ck_field := "allowed_dest_adapters";
       ck_list := allowed_dest_adapters p; ck_value := pt_adapter t |};
    {| ck_reason := REASON_SENDER; ck_field := "sender_allowlist";
       ck_list := sender_allowlist p; ck_value := Some (pe_source_transport_id e) |};
    {| ck_reason := REASON_ROOM; ck_field := "room_allowlist";
       ck_list := room_allowlist p; ck_value := pe_source_channel_id e |};
    {| ck_reason := REASON_CHANNEL; ck_field := "channel_allowlist";
       ck_list := channel_allowlist p; ck_value := effective_channel e t |} ].

Definition ck_passes (c : check) : Prop := permits (ck_list c) (ck_value c).

#[export] Instance ck_passes_dec c : Decision (ck_passes c).
Proof. unfold ck_passes. apply _. Defined.

Fixpoint first_failed (cs : list check) : option check :=
  match cs with
  | [] => None
  | c :: cs' => if decide (ck_passes c) then first_failed cs' else Some c
  end.

Lemma refused_spec xs v : refused xs v = negb (bool_decide (permits xs v)).
Proof.
  unfold refused, permits. destruct xs as [|x0 xs]; simpl nonempty.
  - rewrite bool_decide_eq_true_2; [done|by left].
  - destruct v as [x|]; cbn [andb]; [|symmetry; apply negb_true_iff, bool_decide_eq_false; naive_solver].
    unfold elem. f_equal. apply bool_decide_ext. naive_solver.
Qed.

Lemma refused_Some xs x : nonempty xs && negb (elem x xs) = refused xs (Some x).
Proof. reflexivity. Qed.

Lemma evaluate_first_failed p e t :
  evaluate_route_policy p e t =
    match first_failed (policy_checks p e t) with
    | Some c => deny (ck_reason c) (ck_field c) (missing (ck_value c))
    | None => allow p
    end.
Proof.
  unfold evaluate_route_policy. rewrite !refused_Some, !refused_spec.
  unfold policy_checks. cbn [first_failed].
  repeat (let Hc := fresh "Hc" in case_decide as Hc;
    unfold ck_passes in Hc; cbn [ck_list ck_value] in Hc;
    [ rewrite bool_decide_eq_true_2 by done | rewrite bool_decide_eq_false_2 by done ];
    cbn [negb]; try done).
Qed.

Lemma first_failed_None cs : first_failed cs = None <-> Forall ck_passes cs.
Proof.
  induction cs as [|c cs IH]; simpl; [done|].
  rewrite Forall_cons. case_decide; naive_solver.
Qed.

Lemma first_failed_Some cs c :
  first_failed cs = Some c <->
  exists before after, cs = before ++ c :: after /\ Forall ck_passes before /\ ~ ck_passes c.
Proof.
  induction cs as [|d cs IH]; simpl.
  { split; [done|]. intros ([|] & ? & ? & _); simplify_eq/=. }
  case_decide as Hd.
  - rewrite IH. split.
    + intros (b & a & -> & Hb & Hc). exists (d :: b), a. naive_solver.
    + intros ([|d' b] & a & Heq & Hb & Hc); simplify_eq/=; [done|].
      apply Forall_cons in Hb as [_ Hb]. by exists b, a.
  - split.
    + intros [= ->]. by exists [], cs.
    + intros ([|d' b] & a & Heq & Hb & Hc); simplify_eq/=; [done|].
      by apply Forall_cons in Hb as [? _].
Qed.

(** A route policy allows a delivery exactly when each of its five
    allowlists is empty or contains the value it governs (source adapter,
    destination adapter, sender, room, effective channel); an allowed decision
    carries no reason. *)
Theorem policy_allows_iff p e t :
  (rd_allowed (evaluate_route_policy p e t) = true <->
     permits (allowed_source_adapters p) (Some (pe_source_adapter e)) /\
     permits (allowed_dest_adapters p) (pt_adapter t) /\
     permits (sender_allowlist p) (Some (pe_source_transport_id e)) /\
     permits (room_allowlist p) (pe_source_channel_id e) /\
     permits (channel_allowlist p) (effective_channel e t)) /\
  (rd_allowed (evaluate_route_policy p e t) = true <->
     rd_reason (evaluate_route_policy p e t) = None).
Proof.
  rewrite evaluate_first_failed.
  destruct (first_failed (policy_checks p e t)) as [c|] eqn:Hf.
  - split; [|done]. split; [done|]. intros Hall. exfalso.
    apply first_failed_Some in Hf as (b & a & Heq & _ & Hc). apply Hc.
    assert (Forall ck_passes (policy_checks p e t)) as HF.
    { unfold policy_checks, ck_passes. repeat (constructor; [naive_solver|]). constructor. }
    rewrite Heq, Forall_app, Forall_cons in HF. naive_solver.
  - split; [|done]. apply first_failed_None in Hf.
    unfold policy_checks, ck_passes in Hf. rewrite !Forall_cons in Hf. naive_solver.
Qed.

(** A denial reports the first check, in the documented order source
    adapter, destination adapter, sender, room, channel, whose allowlist
    refuses its value: all earlier checks pass, the named one fails, and the
    reported field and value are that check's (["<missing>"] for an absent
    value). *)
Theorem policy_first_denial_wins p e t reason :
  rd_reason (evaluate_route_policy p e t) = Some reason <->
  exists before c after,
    policy_checks p e t = before ++ c :: after /\
    Forall ck_passes before /\ ~ ck_passes c /\ ck_reason c = reason /\
    rd_blocked_field (evaluate_route_policy p e t) = Some (ck_field c) /\
    rd_blocked_value (evaluate_route_policy p e t) = Some (missing (ck_value c)).
Proof.
  rewrite evaluate_first_failed. split.
  - destruct (first_failed _) as [c|] eqn:Hf; [|done]. intros [= <-].
    apply first_failed_Some in Hf as (b & a & ? & ? & ?). by exists b, c, a.
  - intros (b & c & a & Heq & Hb & Hc & Hr & _).
    assert (first_failed (policy_checks p e t) = Some c) as ->
      by (apply first_failed_Some; by exists b, a).
    simpl. by rewrite Hr.
Qed.
