(* ===== verification/Router.v ===== *)
(** * Routing

    [src/src/medre/core/routing/models.py] (routes), [routing/router.py] (the
    in-memory matching engine) and [routing/stats.py] (per-route counters).
    The router's dictionary keeps insertion order, as the source's does. *)

From S2P Require Import Prelude.
From S2P Require Import Json.
From S2P Require Import RoutePolicy.

Open Scope string_scope.
Open Scope list_scope.
Open Scope Z_scope.

Record RouteSource : Set := {
  rs_adapter : option string;
  rs_event_kinds : list string;
  rs_channel : option string;
  rs_origin_label : option string
}.

Record RouteDestination : Type := {
  dst_kind : string;
  dst_hash : option string;
  dst_name : option string;
  dst_metadata : list (string * json)
}.

Record RouteTarget : Type := {
  rt_adapter : option string;
  rt_channel : option string;
  rt_destination : option RouteDestination
}.

Record Route : Type := {
  rte_id : string;
  rte_source : RouteSource;
  rte_targets : list RouteTarget;
  rte_priority : Z;
  rte_fanout_strategy : string;
  rte_ownership : string;
  rte_enabled : bool;
  rte_policy : option RoutePolicy;
  rte_forward_typing : bool
}.

(** The three event fields the source matcher reads. *)
Record RouteMatchableEvent : Set := {
  me_source_adapter : string;
  me_event_kind : string;
  me_source_channel_id : option string
}.

Definition source_matches (source : RouteSource) (event : RouteMatchableEvent) : bool :=
  if match rs_adapter source with
     | Some a => negb (bool_decide (a = me_source_adapter event))
     | None => false
     end then false
  else if nonempty (rs_event_kinds source) &&
          negb (elem (me_event_kind event) (rs_event_kinds source)) then false
  else if match rs_channel source with
          | Some c => negb (bool_decide (Some c = me_source_channel_id event))
          | None => false
          end then false
  else true.

(** [a is not None and b is not None and a != b]. *)
Definition both_differ (a b : option string) : bool :=
  match a, b with
  | Some x, Some y => negb (bool_decide (x = y))
  | _, _ => false
  end.

Definition sources_overlap (a b : RouteSource) : bool :=
  if both_differ (rs_adapter a) (rs_adapter b) then false
  else if nonempty (rs_event_kinds a) && nonempty (rs_event_kinds b) &&
          negb (nonempty (filter (fun k => k ∈ rs_event_kinds b) (rs_event_kinds a))) then false
  else if both_differ (rs_channel a) (rs_channel b) then false
  else true.

Definition exclusive_enabled (route : Route) : bool :=
  rte_enabled route && bool_decide (rte_ownership route = "exclusive").

(** The [for i, a in enumerate(xs): for b in xs[i+1:]] double loop. *)
Fixpoint conflict_pairs (exclusive : list Route) : list (string * string) :=
  match exclusive with
  | [] => []
  | route_a :: rest =>
      ((fun route_b => (rte_id route_a, rte_id route_b)) <$>
         filter (fun route_b => sources_overlap (rte_source route_a) (rte_source route_b) = true)
           rest) ++ conflict_pairs rest
  end.

Definition find_route_conflicts (routes : list Route) : list (string * string) :=
  conflict_pairs
    (sorted_by (on_key rte_id String.leb) (filter (fun r => exclusive_enabled r = true) routes)).

Definition delivery_order : Route -> Route -> bool :=
  on_key (fun r => (rte_priority r, rte_id r)) (lex_leb Z.leb String.leb).

(** ** The router *)

Record RouteConflictError : Set := { rce_route_a_id : string; rce_route_b_id : string }.
Inductive RouterError : Set := KeyError (key : string) | RouteConflict (e : RouteConflictError).

Record Router : Type := { routes_ : list (string * Route) }.

Definition add_route (r : Router) (route : Route) : Router :=
  {| routes_ := od_set (rte_id route) route (routes_ r) |}.

Definition Router_init (routes : list Route) : Router :=
  foldl add_route {| routes_ := [] |} routes.

Definition remove_route (r : Router) (route_id : string) : result RouterError Router :=
  match od_get route_id (routes_ r) with
  | Some _ => Ok {| routes_ := od_del route_id (routes_ r) |}
  | None => Raise (KeyError route_id)
  end.

Definition registered_route_ids (r : Router) : list string :=
  sorted_by String.leb (od_keys (routes_ r)).

Definition typing_routes (r : Router) (adapter channel : string) : list Route :=
  sorted_by delivery_order
    (filter (fun route =>
       rte_enabled route && rte_forward_typing route &&
       bool_decide (rs_adapter (rte_source route) = Some adapter) &&
       bool_decide (rs_channel (rte_source route) = Some channel) = true)
     (od_values (routes_ r))).

Definition match_event (r : Router) (event : RouteMatchableEvent) : list Route :=
  sorted_by delivery_order
    (filter (fun route => rte_enabled route && source_matches (rte_source route) event = true)
       (od_values (routes_ r))).

Definition resolve_targets (event : RouteMatchableEvent) (route : Route) : list RouteTarget :=
  rte_targets route.

Definition find_conflicts (r : Router) (replacements : list Route) : list (string * string) :=
  find_route_conflicts
    (od_values (foldl (fun d route => od_set (rte_id route) route d) (routes_ r) replacements)).

Definition validate_no_conflicts (r : Router) : result RouterError unit :=
  match find_conflicts r [] with
  | [] => Ok tt
  | (a, b) :: _ => Raise (RouteConflict {| rce_route_a_id := a; rce_route_b_id := b |})
  end.

(** ** Invariant: the key of an entry is the route's identifier *)

Definition router_wf (r : Router) : Prop :=
  od_wf (routes_ r) /\ forall k route, (k, route) ∈ routes_ r -> k = rte_id route.

Lemma add_route_wf r route : router_wf r -> router_wf (add_route r route).
Proof.
  intros [Hwf Hid]. split; simpl; [by apply od_set_wf|].
  intros k rt [[-> ->]|Hin]%od_set_In; [done|]. by apply Hid.
Qed.

Lemma remove_route_wf r i r' : router_wf r -> remove_route r i = Ok r' -> router_wf r'.
Proof.
  intros [Hwf Hid]. unfold remove_route. case_match; [|done]. intros [= <-].
  split; simpl; [by apply od_del_wf|]. intros k rt Hin%od_del_In. by apply Hid.
Qed.

Lemma Router_init_wf routes : router_wf (Router_init routes).
Proof.
  unfold Router_init. assert (router_wf {| routes_ := [] |}) as H.
  { split; simpl; [constructor|set_solver]. }
  revert H. generalize {| routes_ := [] |}.
  induction routes as [|rt routes IH]; intros r H; simpl; [done|].
  by apply IH, add_route_wf.
Qed.

#[export] Hint Resolve add_route_wf remove_route_wf Router_init_wf : medre.

(** Registered routes, by identifier. *)
Definition registered (r : Router) (route : Route) : Prop :=
  od_get (rte_id route) (routes_ r) = Some route.

Lemma registered_values r route :
  router_wf r -> registered r route <-> route ∈ od_values (routes_ r).
Proof.
  intros [Hwf Hid]. unfold registered, od_values. rewrite list_elem_of_fmap. split.
  - intros H%od_get_In. by exists (rte_id route, route).
  - intros ([k rt] & -> & Hin). simpl. rewrite <- (Hid _ _ Hin). by apply od_In_get.
Qed.

Lemma registered_id_inj r a b :
  registered r a -> registered r b -> rte_id a = rte_id b -> a = b.
Proof. unfold registered. intros Ha Hb Heq. rewrite Heq in Ha. congruence. Qed.

Lemma values_NoDup r : router_wf r -> NoDup (rte_id <$> od_values (routes_ r)).
Proof.
  intros [Hwf Hid]. unfold od_values, od_wf, od_keys in *.
  assert (rte_id <$> (routes_ r).*2 = (routes_ r).*1) as ->; [|done].
  clear Hwf. induction (routes_ r) as [|[k rt] d IH]; simpl; [done|].
  f_equal; [symmetry; apply Hid; set_solver|]. apply IH. set_solver.
Qed.

Lemma delivery_order_antisym a b :
  delivery_order a b = true -> delivery_order b a = true -> rte_id a = rte_id b.
Proof.
  unfold delivery_order, on_key. intros H1 H2.
  pose proof (leb_antisym_eq _ _ H1 H2). by simplify_eq.
Qed.

#[export] Instance delivery_order_total : TotalLe delivery_order.
Proof. unfold delivery_order. apply _. Qed.

(** ** Matching *)

Lemma match_event_elem r event route :
  router_wf r ->
  route ∈ match_event r event <->
  registered r route /\ rte_enabled route = true /\
  source_matches (rte_source route) event = true.
Proof.
  intros Hwf. unfold match_event.
  rewrite elem_of_sorted_by, list_elem_of_filter, (registered_values r route Hwf).
  breflect. naive_solver.
Qed.

Lemma match_event_NoDup r event : router_wf r -> NoDup (rte_id <$> match_event r event).
Proof.
  intros Hwf. unfold match_event. rewrite sorted_by_perm.
  by apply NoDup_fmap_filter, values_NoDup.
Qed.

Lemma opt_filter_spec (o : option string) (v : string) :
  match o with Some a => negb (bool_decide (a = v)) | None => false end = false <->
  (forall a, o = Some a -> a = v).
Proof. destruct o; [case_bool_decide|]; naive_solver. Qed.

Lemma opt_filter_spec' (o : option string) (v : option string) :
  match o with Some c => negb (bool_decide (Some c = v)) | None => false end = false <->
  (forall c, o = Some c -> v = Some c).
Proof. destruct o; [case_bool_decide|]; naive_solver. Qed.

Lemma kinds_filter_spec (ks : list string) k :
  nonempty ks && negb (elem k ks) = false <-> (ks <> [] -> k ∈ ks).
Proof. breflect. destruct (decide (ks = [])); naive_solver. Qed.

Lemma source_matches_spec s e :
  source_matches s e = true <->
  (forall a, rs_adapter s = Some a -> a = me_source_adapter e) /\
  (rs_event_kinds s <> [] -> me_event_kind e ∈ rs_event_kinds s) /\
  (forall c, rs_channel s = Some c -> me_source_channel_id e = Some c).
Proof.
  unfold source_matches.
  rewrite <- opt_filter_spec, <- opt_filter_spec', <- kinds_filter_spec.
  repeat case_match; intuition congruence.
Qed.

(** Matching returns exactly the registered, enabled routes all of whose
    source filters accept the event, each once, ordered by priority and then
    by route identifier. *)
Theorem match_event_spec r event :
  router_wf r ->
  (forall route, route ∈ match_event r event <->
     registered r route /\ rte_enabled route = true /\
     (forall a, rs_adapter (rte_source route) = Some a -> a = me_source_adapter event) /\
     (rs_event_kinds (rte_source route) <> [] ->
        me_event_kind event ∈ rs_event_kinds (rte_source route)) /\
     (forall c, rs_channel (rte_source route) = Some c ->
        me_source_channel_id event = Some c)) /\
  NoDup (rte_id <$> match_event r event) /\
  StronglySorted (fun a b => rte_priority a < rte_priority b \/
    (rte_priority a = rte_priority b /\ String.leb (rte_id a) (rte_id b) = true))
    (match_event r event).
Proof.
  intros Hwf. split_and!.
  - intros route. by rewrite match_event_elem, source_matches_spec.
  - by apply match_event_NoDup.
  - assert (StronglySorted (fun a b => delivery_order a b = true) (match_event r event)) as Hs
      by (apply sorted_by_sorted; apply _).
    induction Hs as [|x l Hs IH Hx]; constructor; [done|].
    eapply Forall_impl; [exact Hx|]. intros y. unfold delivery_order, on_key, lex_leb; simpl.
    breflect. rewrite Z.leb_gt, !Z.leb_le. intros [? [?|?]]; [by left|].
    destruct (decide (rte_priority x < rte_priority y)); [by left|right; split; [lia|done]].
Qed.

Lemma foldl_add_route_fresh r routes :
  NoDup (rte_id <$> routes) ->
  (forall rt, rt ∈ routes -> rte_id rt ∉ od_keys (routes_ r)) ->
  routes_ (foldl add_route r routes) = routes_ r ++ ((fun rt => (rte_id rt, rt)) <$> routes).
Proof.
  revert r. induction routes as [|rt routes IH]; intros r Hnd Hni; simpl; [by rewrite app_nil_r|].
  simpl in Hnd. apply NoDup_cons in Hnd as [Hrt Hnd].
  assert (Hset : routes_ (add_route r rt) = routes_ r ++ [(rte_id rt, rt)])
    by (simpl; apply od_set_new, Hni; set_solver).
  rewrite IH; [|done|].
  - rewrite Hset, <- app_assoc. done.
  - intros rt' Hin. rewrite Hset. unfold od_keys. rewrite fmap_app, not_elem_of_app. split.
    + apply Hni. set_solver.
    + simpl. intros Heq%list_elem_of_singleton. apply Hrt. rewrite <- Heq.
      by apply list_elem_of_fmap_2.
Qed.

Lemma Router_init_values routes :
  NoDup (rte_id <$> routes) -> od_values (routes_ (Router_init routes)) = routes.
Proof.
  intros Hnd. unfold Router_init. rewrite foldl_add_route_fresh; [|done|set_solver].
  simpl. unfold od_values. rewrite <- list_fmap_compose. simpl. by rewrite list_fmap_id.
Qed.

Lemma filter_order_antisym (P : Route -> Prop) `{!forall x, Decision (P x)} routes a b :
  NoDup (rte_id <$> routes) -> a ∈ filter P routes -> b ∈ filter P routes ->
  rte_id a = rte_id b -> a = b.
Proof.
  rewrite !list_elem_of_filter. intros Hnd [_ Ha] [_ Hb] Heq.
  apply list_elem_of_lookup in Ha as [i Hi], Hb as [j Hj].
  assert (i = j) as ->; [|congruence].
  eapply (NoDup_lookup _ i j (rte_id a)); [done| |].
  - rewrite list_lookup_fmap, Hi. done.
  - rewrite list_lookup_fmap, Hj. by rewrite Heq.
Qed.

(** The order in which routes are registered does not matter: two
    registrations of the same distinctly named routes match every event with
    the same list of routes. *)
Theorem match_event_order_independent routes1 routes2 event :
  NoDup (rte_id <$> routes1) -> routes1 ≡ₚ routes2 ->
  match_event (Router_init routes1) event = match_event (Router_init routes2) event.
Proof.
  intros Hnd Hp. assert (NoDup (rte_id <$> routes2)) by (by rewrite <- Hp).
  unfold match_event. rewrite !Router_init_values by done.
  apply sorted_by_perm_inv; [apply _| |by rewrite Hp].
  intros a b Ha Hb Hab Hba.
  by apply (filter_order_antisym _ routes1 a b Hnd Ha Hb), delivery_order_antisym.
Qed.

(** ** Conflicts *)

Lemma both_differ_spec a b :
  both_differ a b = false <-> exists v, (forall x, a = Some x -> x = v) /\ (forall y, b = Some y -> y = v).
Proof.
  destruct a as [x|], b as [y|]; simpl.
  - case_bool_decide; subst; simpl.
    + split; [intros _|done]. exists y. naive_solver.
    + split; [done|]. intros (v & H1 & H2). pose proof (H1 x eq_refl). pose proof (H2 y eq_refl).
      congruence.
  - split; [intros _|done]. exists x. naive_solver.
  - split; [intros _|done]. exists y. naive_solver.
  - split; [intros _|done]. by exists "".
Qed.

Lemma both_differ_spec' a b :
  both_differ a b = false <->
  exists v : option string, (forall x, a = Some x -> v = Some x) /\ (forall y, b = Some y -> v = Some y).
Proof.
  rewrite both_differ_spec. split.
  - intros (v & H1 & H2). exists (Some v). naive_solver.
  - intros ([v|] & H1 & H2); [exists v|exists ""]; naive_solver.
Qed.

Lemma kinds_overlap_spec ka kb :
  nonempty ka && nonempty kb && negb (nonempty (filter (fun k : string => k ∈ kb) ka)) = false <->
  exists k, (ka <> [] -> k ∈ ka) /\ (kb <> [] -> k ∈ kb).
Proof.
  breflect. split.
  - intros [[-> | ->]|Hf].
    + destruct kb as [|k kb]; [by exists ""|]. exists k. set_solver.
    + destruct ka as [|k ka]; [by exists ""|]. exists k. set_solver.
    + destruct (filter _ ka) as [|k l] eqn:E; [done|].
      assert (k ∈ filter (fun k => k ∈ kb) ka) as [? ?]%list_elem_of_filter
        by (rewrite E; set_solver).
      by exists k.
  - intros (k & Ha & Hb). destruct ka as [|a ka]; [by left; left|].
    destruct kb as [|b kb]; [by left; right|]. right.
    intros E. assert (k ∈ filter (fun k => k ∈ b :: kb) (a :: ka)) as Hin
      by (apply list_elem_of_filter; naive_solver).
    rewrite E in Hin. set_solver.
Qed.

Lemma sources_overlap_correct a b :
  sources_overlap a b = true <->
  exists event, source_matches a event = true /\ source_matches b event = true.
Proof.
  transitivity (both_differ (rs_adapter a) (rs_adapter b) = false /\
    nonempty (rs_event_kinds a) && nonempty (rs_event_kinds b) &&
      negb (nonempty (filter (fun k => k ∈ rs_event_kinds b) (rs_event_kinds a))) = false /\
    both_differ (rs_channel a) (rs_channel b) = false).
  { unfold sources_overlap. repeat case_match; intuition congruence. }
  rewrite both_differ_spec, both_differ_spec', kinds_overlap_spec.
  setoid_rewrite source_matches_spec. split.
  - intros ((ad & ? & ?) & (k & ? & ?) & (ch & ? & ?)).
    by exists {| me_source_adapter := ad; me_event_kind := k; me_source_channel_id := ch |}.
  - intros ([ad k ch] & (? & ? & ?) & (? & ? & ?)). simpl in *.
    split_and!; [exists ad|exists k|exists ch]; auto.
Qed.

Lemma sources_overlap_sym a b : sources_overlap a b = sources_overlap b a.
Proof.
  apply eq_true_iff_eq. rewrite !sources_overlap_correct. naive_solver.
Qed.

Lemma conflict_pairs_nil l :
  NoDup (rte_id <$> l) ->
  conflict_pairs l = [] <->
  forall x y, x ∈ l -> y ∈ l -> rte_id x <> rte_id y ->
    sources_overlap (rte_source x) (rte_source y) = false.
Proof.
  induction l as [|a l IH]; simpl; [set_solver|].
  intros [Hni Hnd]%NoDup_cons. rewrite app_nil, (IH Hnd). split.
  - intros [Hf%fmap_nil_inv Hrec] x y Hx Hy Hne.
    assert (Ha : forall z, z ∈ l -> sources_overlap (rte_source a) (rte_source z) = false).
    { intros z Hz. destruct (sources_overlap (rte_source a) (rte_source z)) eqn:E; [|done].
      assert (z ∈ filter (fun r => sources_overlap (rte_source a) (rte_source r) = true) l) as Hin
        by (by apply list_elem_of_filter).
      rewrite Hf in Hin. set_solver. }
    apply elem_of_cons in Hx as [->|Hx], Hy as [->|Hy]; [done|auto| |auto].
    rewrite sources_overlap_sym. auto.
  - intros Hall. split; [|set_solver].
    match goal with |- _ <$> ?l = [] => assert (l = []) as ->; [|done] end.
    destruct (filter _ l) as [|z l'] eqn:E; [done|]. exfalso.
    assert (z ∈ filter (fun r => sources_overlap (rte_source a) (rte_source r) = true) l) as Hin
      by (rewrite E; set_solver).
    apply list_elem_of_filter in Hin as [Ho Hz].
    rewrite Hall in Ho; [done|set_solver|set_solver|].
    intros Heq. apply Hni. rewrite Heq. by apply list_elem_of_fmap_2.
Qed.

Lemma conflict_pairs_elem l i j :
  NoDup (rte_id <$> l) -> (i, j) ∈ conflict_pairs l ->
  exists x y, x ∈ l /\ y ∈ l /\ rte_id x = i /\ rte_id y = j /\ i <> j /\
    sources_overlap (rte_source x) (rte_source y) = true.
Proof.
  induction l as [|a l IH]; simpl; [set_solver|].
  intros [Hni Hnd]%NoDup_cons [Hin|Hin]%elem_of_app.
  - apply list_elem_of_fmap in Hin as (y & [= -> ->] & [Ho Hy]%list_elem_of_filter).
    exists a, y. split_and!; try done; [set_solver..|].
    intros Heq. apply Hni. rewrite Heq. by apply list_elem_of_fmap_2.
  - destruct (IH Hnd Hin) as (x & y & Hx & Hy & ? & ? & ? & ?). exists x, y. set_solver.
Qed.

Definition exclusive_routes (r : Router) : list Route :=
  sorted_by (on_key rte_id String.leb)
    (filter (fun rt => exclusive_enabled rt = true) (od_values (routes_ r))).

Lemma exclusive_routes_elem r route :
  router_wf r ->
  route ∈ exclusive_routes r <->
  registered r route /\ rte_enabled route = true /\ rte_ownership route = "exclusive".
Proof.
  intros Hwf. unfold exclusive_routes, exclusive_enabled.
  rewrite elem_of_sorted_by, list_elem_of_filter, (registered_values r route Hwf).
  breflect. naive_solver.
Qed.

Lemma exclusive_routes_NoDup r : router_wf r -> NoDup (rte_id <$> exclusive_routes r).
Proof.
  intros Hwf. unfold exclusive_routes. rewrite sorted_by_perm.
  eapply NoDup_fmap_filter, values_NoDup, Hwf.
Qed.

Lemma validate_no_conflicts_eq r :
  validate_no_conflicts r =
    match conflict_pairs (exclusive_routes r) with
    | [] => Ok tt
    | (a, b) :: _ => Raise (RouteConflict {| rce_route_a_id := a; rce_route_b_id := b |})
    end.
Proof. reflexivity. Qed.

(** The overlap test is exact: it accepts two source specifications if and
    only if some concrete event satisfies both of them. *)
Theorem sources_overlap_iff a b :
  sources_overlap a b = true <->
  exists event, source_matches a event = true /\ source_matches b event = true.
Proof. apply sources_overlap_correct. Qed.

(** Conflict validation passes if and only if no event can ever be matched
    by two different exclusive routes. *)
Theorem validate_no_conflicts_iff r :
  router_wf r ->
  validate_no_conflicts r = Ok tt <->
  forall event x y, x ∈ match_event r event -> y ∈ match_event r event ->
    rte_ownership x = "exclusive" -> rte_ownership y = "exclusive" -> x = y.
Proof.
  intros Hwf. rewrite validate_no_conflicts_eq.
  transitivity (conflict_pairs (exclusive_routes r) = []).
  { destruct (conflict_pairs _) as [|[] ?]; naive_solver. }
  rewrite conflict_pairs_nil by (by apply exclusive_routes_NoDup). split.
  - intros Hno event x y (Hrx & Hex & Hmx)%match_event_elem
      (Hry & Hey & Hmy)%match_event_elem Hox Hoy; [|done..].
    destruct (decide (rte_id x = rte_id y)); [by eapply registered_id_inj|].
    exfalso. assert (sources_overlap (rte_source x) (rte_source y) = false) as Hf
      by (apply Hno; rewrite ?exclusive_routes_elem by done; done).
    apply not_true_iff_false in Hf. apply Hf, sources_overlap_correct. by exists event.
  - intros Huniq x y Hx Hy Hne. rewrite exclusive_routes_elem in Hx, Hy by done.
    apply not_true_iff_false. intros (event & Hmx & Hmy)%sources_overlap_correct.
    apply Hne. f_equal. apply (Huniq event); try naive_solver.
    all: apply match_event_elem; naive_solver.
Qed.

(** A conflict error names two different registered, enabled, exclusive
    routes together with the existence of an event that both match. *)
Theorem validate_no_conflicts_error r i j :
  router_wf r ->
  validate_no_conflicts r = Raise (RouteConflict {| rce_route_a_id := i; rce_route_b_id := j |}) ->
  exists x y event, rte_id x = i /\ rte_id y = j /\ x <> y /\
    rte_ownership x = "exclusive" /\ rte_ownership y = "exclusive" /\
    x ∈ match_event r event /\ y ∈ match_event r event.
Proof.
  intros Hwf. rewrite validate_no_conflicts_eq.
  destruct (conflict_pairs (exclusive_routes r)) as [|[i' j'] ps] eqn:Hps; [done|].
  intros [= -> ->].
  assert ((i, j) ∈ conflict_pairs (exclusive_routes r)) as Hin by (rewrite Hps; set_solver).
  apply conflict_pairs_elem in Hin as (x & y & Hx & Hy & Hi & Hj & Hij & Ho);
    [|by apply exclusive_routes_NoDup].
  apply sources_overlap_correct in Ho as (event & Hmx & Hmy).
  rewrite exclusive_routes_elem in Hx, Hy by done.
  exists x, y, event. rewrite !match_event_elem by done. naive_solver.
Qed.

(** ** Registration *)

(** Registration, replacement and removal keep the router well formed and
    act on exactly one identifier: a registered route is found under its own
    identifier and nothing else changes, removal deletes it, and removing an
    unknown identifier raises KeyError. *)
Theorem router_registration routes route i :
  let r := Router_init routes in
  router_wf r /\ router_wf (add_route r route) /\
  od_get (rte_id route) (routes_ (add_route r route)) = Some route /\
  (i <> rte_id route -> od_get i (routes_ (add_route r route)) = od_get i (routes_ r)) /\
  match remove_route r i with
  | Ok r' => router_wf r' /\ od_get i (routes_ r) <> None /\ od_get i (routes_ r') = None /\
             forall j, j <> i -> od_get j (routes_ r') = od_get j (routes_ r)
  | Raise e => e = KeyError i /\ i ∉ registered_route_ids r
  end.
Proof.
  intros r. assert (router_wf r) as Hwf by (apply Router_init_wf).
  split_and!; [done|by apply add_route_wf|apply od_get_set_eq|by intros; apply od_get_set_ne|].
  destruct (remove_route r i) as [r'|e] eqn:Hr.
  - split; [by eapply remove_route_wf|]. revert Hr. unfold remove_route.
    case_match; [|done]. intros [= <-]. simpl. split_and!; [congruence| |].
    + by apply od_get_del_eq, Hwf.
    + intros. by apply od_get_del_ne.
  - revert Hr. unfold remove_route. case_match eqn:Hg; [done|]. intros [= <-]. split; [done|].
    unfold registered_route_ids. rewrite elem_of_sorted_by. by apply od_get_None.
Qed.

(** ** A small bridge: two exclusive routes that overlap on one adapter *)

Module Examples.
Definition src (adapter : option string) (kinds : list string) : RouteSource :=
  {| rs_adapter := adapter; rs_event_kinds := kinds; rs_channel := None;
     rs_origin_label := None |}.

Definition route (id ownership : string) (priority : Z) (s : RouteSource) : Route :=
  {| rte_id := id; rte_source := s; rte_targets := []; rte_priority := priority;
     rte_fanout_strategy := "parallel"; rte_ownership := ownership; rte_enabled := true;
     rte_policy := None; rte_forward_typing := false |}.

Definition bridge_a := route "a" "exclusive" 20 (src (Some "matrix") []).
Definition bridge_b := route "b" "exclusive" 10 (src None ["message.created"]).
Definition bridge_c := route "c" "shared" 10 (src (Some "mesh") []).

Definition hello : RouteMatchableEvent :=
  {| me_source_adapter := "matrix"; me_event_kind := "message.created";
     me_source_channel_id := Some "!room" |}.
End Examples.

Lemma match_event_spec_witness :
  match_event (Router_init [Examples.bridge_a; Examples.bridge_b; Examples.bridge_c])
    Examples.hello = [Examples.bridge_b; Examples.bridge_a] /\
  NoDup (rte_id <$> match_event
    (Router_init [Examples.bridge_a; Examples.bridge_b; Examples.bridge_c]) Examples.hello).
Proof.
  split; [reflexivity|].
  exact (proj1 (proj2 (match_event_spec
    (Router_init [Examples.bridge_a; Examples.bridge_b; Examples.bridge_c])
    Examples.hello (Router_init_wf _)))).
Defined.

Lemma match_event_order_independent_witness :
  match_event (Router_init [Examples.bridge_a; Examples.bridge_b]) Examples.hello =
  match_event (Router_init [Examples.bridge_b; Examples.bridge_a]) Examples.hello.
Proof.
  apply match_event_order_independent.
  - vm_compute. repeat (constructor; [set_solver|]). constructor.
  - apply perm_swap.
Defined.

Lemma validate_no_conflicts_iff_witness :
  let r := Router_init [Examples.bridge_a; Examples.bridge_c] in
  validate_no_conflicts r = Ok tt /\
  forall event x y, x ∈ match_event r event -> y ∈ match_event r event ->
    rte_ownership x = "exclusive" -> rte_ownership y = "exclusive" -> x = y.
Proof.
  intros r. split; [reflexivity|].
  apply (proj1 (validate_no_conflicts_iff r (Router_init_wf _))). reflexivity.
Defined.

Lemma validate_no_conflicts_error_witness :
  let r := Router_init [Examples.bridge_b; Examples.bridge_a] in
  exists x y event, rte_id x = "a" /\ rte_id y = "b" /\ x <> y /\
    rte_ownership x = "exclusive" /\ rte_ownership y = "exclusive" /\
    x ∈ match_event r event /\ y ∈ match_event r event.
Proof.
  intros r. apply (validate_no_conflicts_error r "a" "b" (Router_init_wf _)). reflexivity.
Defined.
