(* ===== verification/IsoTime.v ===== *)
(** * ISO-8601 timestamps

    The store keeps timestamps as text and compares them as text; the model
    keeps instants.  This file is the bridge: the text that
    [datetime.isoformat()] gives for an aware UTC datetime, the instant it
    denotes (proleptic Gregorian calendar, as CPython's [datetime] computes
    it), the parser for such texts, and the proof that text order is
    chronological order, also between texts with and without the optional
    microseconds part. *)

From Stdlib Require Import Ascii.
From S2P Require Import Prelude.

Open Scope string_scope.
Open Scope list_scope.
Open Scope Z_scope.

Record civil : Set := {
  c_year : Z; c_month : Z; c_day : Z;
  c_hour : Z; c_minute : Z; c_second : Z; c_microsecond : Z
}.

#[export] Instance civil_eq_dec : EqDecision civil.
Proof. solve_decision. Defined.

Definition is_leap (y : Z) : bool :=
  (y mod 4 =? 0) && (negb (y mod 100 =? 0) || (y mod 400 =? 0)).

Definition days_before_year (y : Z) : Z :=
  (y - 1) * 365 + (y - 1) / 4 - (y - 1) / 100 + (y - 1) / 400.

Definition days_in_month (y m : Z) : Z :=
  if m =? 2 then (if is_leap y then 29 else 28)
  else if (m =? 4) || (m =? 6) || (m =? 9) || (m =? 11) then 30 else 31.

(** Days of the year [y] before month [m]. *)
Definition days_before_month (y m : Z) : Z :=
  let leap := if is_leap y then 1 else 0 in
  if m =? 1 then 0 else if m =? 2 then 31 else if m =? 3 then 59 + leap
  else if m =? 4 then 90 + leap else if m =? 5 then 120 + leap else if m =? 6 then 151 + leap
  else if m =? 7 then 181 + leap else if m =? 8 then 212 + leap else if m =? 9 then 243 + leap
  else if m =? 10 then 273 + leap else if m =? 11 then 304 + leap else 334 + leap.

Definition civil_ok (c : civil) : bool :=
  (1 <=? c_year c) && (c_year c <=? 9999) && (1 <=? c_month c) && (c_month c <=? 12) &&
  (1 <=? c_day c) && (c_day c <=? days_in_month (c_year c) (c_month c)) &&
  (0 <=? c_hour c) && (c_hour c <=? 23) && (0 <=? c_minute c) && (c_minute c <=? 59) &&
  (0 <=? c_second c) && (c_second c <=? 59) &&
  (0 <=? c_microsecond c) && (c_microsecond c <=? 999999).

Definition ordinal (c : civil) : Z :=
  days_before_year (c_year c) + days_before_month (c_year c) (c_month c) + c_day c.

(** Microseconds since 0001-01-01T00:00:00 UTC. *)
Definition instant_of (c : civil) : Z :=
  ((((ordinal c - 1) * 24 + c_hour c) * 60 + c_minute c) * 60 + c_second c) * 1000000
  + c_microsecond c.

(** ** Rendering *)

Definition digit (n : Z) : Ascii.ascii := Ascii.ascii_of_N (Z.to_N (48 + n)).

(** The decimal digits of [n mod 10^k], most significant first. *)
Fixpoint zero_pad (k : nat) (n : Z) : string :=
  match k with
  | O => ""
  | S k' => String (digit (n / 10 ^ Z.of_nat k' mod 10)) (zero_pad k' n)
  end.

Definition isoformat (c : civil) : string :=
  zero_pad 4 (c_year c) +:+ "-" +:+ zero_pad 2 (c_month c) +:+ "-" +:+ zero_pad 2 (c_day c) +:+
  "T" +:+ zero_pad 2 (c_hour c) +:+ ":" +:+ zero_pad 2 (c_minute c) +:+ ":" +:+
  zero_pad 2 (c_second c) +:+
  (if c_microsecond c =? 0 then "" else "." +:+ zero_pad 6 (c_microsecond c)) +:+ "+00:00".

(** ** Parsing: the texts [isoformat] produces *)

Definition parse_digit (c : Ascii.ascii) : option Z :=
  let n := Z.of_N (Ascii.N_of_ascii c) - 48 in
  if (0 <=? n) && (n <=? 9) then Some n else None.

Fixpoint parse_digits (k : nat) (acc : Z) (s : string) : option (Z * string) :=
  match k, s with
  | O, _ => Some (acc, s)
  | S k', String c s' =>
      match parse_digit c with
      | Some d => parse_digits k' (acc * 10 + d) s'
      | None => None
      end
  | _, _ => None
  end.

Definition parse_char (want : Ascii.ascii) (s : string) : option string :=
  match s with
  | String c s' => if bool_decide (c = want) then Some s' else None
  | EmptyString => None
  end.

Definition parse_micros (s : string) : option (Z * string) :=
  match s with
  | String c s' => if bool_decide (c = "."%char) then parse_digits 6 0 s' else Some (0, s)
  | EmptyString => Some (0, s)
  end.

Definition fromisoformat (s : string) : option civil :=
  '(y, s) ← parse_digits 4 0 s; s ← parse_char "-"%char s;
  '(mo, s) ← parse_digits 2 0 s; s ← parse_char "-"%char s;
  '(d, s) ← parse_digits 2 0 s; s ← parse_char "T"%char s;
  '(h, s) ← parse_digits 2 0 s; s ← parse_char ":"%char s;
  '(mi, s) ← parse_digits 2 0 s; s ← parse_char ":"%char s;
  '(se, s) ← parse_digits 2 0 s;
  '(us, s) ← parse_micros s;
  let c := {| c_year := y; c_month := mo; c_day := d; c_hour := h; c_minute := mi;
              c_second := se; c_microsecond := us |} in
  if bool_decide (s = "+00:00") && civil_ok c then Some c else None.

Definition instant_of_text (s : string) : option Z := instant_of <$> fromisoformat s.

Definition newyear : civil :=
  {| c_year := 2026; c_month := 1; c_day := 31; c_hour := 23; c_minute := 59; c_second := 7;
     c_microsecond := 40 |}.

Example isoformat_newyear : isoformat newyear = "2026-01-31T23:59:07.000040+00:00".
Proof. reflexivity. Qed.

Example fromisoformat_newyear : fromisoformat "2026-01-31T23:59:07.000040+00:00" = Some newyear.
Proof. reflexivity. Qed.

(** 1970-01-01 has ordinal 719163. *)
Example epoch_ordinal :
  instant_of {| c_year := 1970; c_month := 1; c_day := 1; c_hour := 0; c_minute := 0;
                c_second := 0; c_microsecond := 0 |} = 719162 * 86400 * 1000000.
Proof. reflexivity. Qed.

(** ** Digits *)

Lemma digit_code n : 0 <= n <= 9 -> Ascii.N_of_ascii (digit n) = Z.to_N (48 + n).
Proof. intros. unfold digit. apply Ascii.N_ascii_embedding. lia. Qed.

Lemma parse_digit_digit n : 0 <= n <= 9 -> parse_digit (digit n) = Some n.
Proof.
  intros Hn. unfold parse_digit. rewrite digit_code by done. rewrite Z2N.id by lia.
  replace (48 + n - 48) with n by lia.
  by replace ((0 <=? n) && (n <=? 9)) with true by lia.
Qed.

Lemma zero_pad_step (k : nat) n :
  n mod 10 ^ Z.of_nat (S k) = n / 10 ^ Z.of_nat k mod 10 * 10 ^ Z.of_nat k + n mod 10 ^ Z.of_nat k.
Proof.
  rewrite Nat2Z.inj_succ, Z.pow_succ_r by lia.
  rewrite (Z.mul_comm 10), Z.rem_mul_r by lia. lia.
Qed.

Lemma parse_digits_zero_pad k n acc s :
  parse_digits k acc (zero_pad k n +:+ s) =
  Some (acc * 10 ^ Z.of_nat k + n mod 10 ^ Z.of_nat k, s).
Proof.
  revert acc. induction k as [|k IH]; intros acc.
  { simpl. rewrite Z.mod_1_r. do 2 f_equal. lia. }
  assert (zero_pad (S k) n +:+ s =
    String (digit (n / 10 ^ Z.of_nat k mod 10)) (zero_pad k n +:+ s)) as -> by reflexivity.
  cbn [parse_digits].
  rewrite parse_digit_digit; [|pose proof (Z.mod_pos_bound (n / 10 ^ Z.of_nat k) 10); lia].
  rewrite IH, zero_pad_step. do 2 f_equal.
  rewrite Nat2Z.inj_succ, Z.pow_succ_r by lia. lia.
Qed.

Lemma parse_digits_zero_pad_exact k n s :
  0 <= n < 10 ^ Z.of_nat k -> parse_digits k 0 (zero_pad k n +:+ s) = Some (n, s).
Proof. intros Hn. rewrite parse_digits_zero_pad, Z.mod_small by done. do 2 f_equal; lia. Qed.

Lemma parse_char_same c s : parse_char c (String c "" +:+ s) = Some s.
Proof. change (String c "" +:+ s) with (String c s). unfold parse_char. by rewrite bool_decide_eq_true_2. Qed.

Lemma days_in_month_le y m : days_in_month y m <= 31.
Proof. unfold days_in_month. repeat case_match; lia. Qed.

Lemma parse_micros_isoformat u s :
  0 <= u <= 999999 ->
  parse_micros ((if u =? 0 then "" else "." +:+ zero_pad 6 u) +:+ String "+" s) =
  Some (u, String "+" s).
Proof.
  intros Hu. destruct (Z.eqb_spec u 0) as [->|Hne]; [reflexivity|].
  cbn [String.app parse_micros]. change (("." +:+ ?a) +:+ ?b) with (String "." (a +:+ b)).
  unfold parse_micros. rewrite bool_decide_eq_true_2 by done.
  by rewrite parse_digits_zero_pad_exact by (simpl; lia).
Qed.

Lemma fromisoformat_isoformat c : civil_ok c = true -> fromisoformat (isoformat c) = Some c.
Proof.
  intros Hok. assert (Hb := Hok). unfold civil_ok in Hb. breflect. rewrite !Z.leb_le in Hb.
  destruct c as [y mo d h mi se us]; simpl in Hb. destruct_and!.
  pose proof (days_in_month_le y mo).
  unfold fromisoformat, isoformat. cbn [c_year c_month c_day c_hour c_minute c_second c_microsecond].
  repeat (rewrite parse_digits_zero_pad_exact by (simpl; lia);
          cbn [mbind option_bind]; rewrite ?parse_char_same; cbn [mbind option_bind]).
  rewrite (parse_micros_isoformat us "00:00") by lia. cbn [mbind option_bind].
  rewrite Hok. reflexivity.
Qed.

(** ** Order *)

Lemma ascii_compare_digit a b :
  0 <= a <= 9 -> 0 <= b <= 9 -> Ascii.compare (digit a) (digit b) = Z.compare a b.
Proof.
  intros Ha Hb. unfold Ascii.compare. rewrite !digit_code by done.
  rewrite Z2N.inj_compare by lia. apply Z.add_compare_mono_l.
Qed.

Lemma compare_zero_pad k a b s t :
  String.compare (zero_pad k a +:+ s) (zero_pad k b +:+ t) =
  match Z.compare (a mod 10 ^ Z.of_nat k) (b mod 10 ^ Z.of_nat k) with
  | Eq => String.compare s t
  | c => c
  end.
Proof.
  induction k as [|k IH].
  { by rewrite !Z.mod_1_r. }
  rewrite !zero_pad_step.
  assert (forall n u, zero_pad (S k) n +:+ u =
    String (digit (n / 10 ^ Z.of_nat k mod 10)) (zero_pad k n +:+ u)) as Hz by reflexivity.
  rewrite !Hz. cbn [String.compare].
  pose proof (Z.mod_pos_bound (a / 10 ^ Z.of_nat k) 10).
  pose proof (Z.mod_pos_bound (b / 10 ^ Z.of_nat k) 10).
  assert (0 < 10 ^ Z.of_nat k) by (apply Z.pow_pos_nonneg; lia).
  pose proof (Z.mod_pos_bound a (10 ^ Z.of_nat k)).
  pose proof (Z.mod_pos_bound b (10 ^ Z.of_nat k)).
  rewrite ascii_compare_digit, IH by lia.
  set (P := 10 ^ Z.of_nat k) in *.
  clearbody P.
  clear IH Hz. remember (a / P mod 10) as ha. remember (b / P mod 10) as hb.
  remember (a mod P) as la. remember (b mod P) as lb.
  destruct (Z.compare_spec ha hb) as [->|Hlt|Hgt].
  - by rewrite Z.add_compare_mono_l.
  - assert (ha * P + la < hb * P + lb) as Hl by nia. by rewrite (proj2 (Z.compare_lt_iff _ _) Hl).
  - assert (hb * P + lb < ha * P + la) as Hl by nia. by rewrite (proj2 (Z.compare_gt_iff _ _) Hl).
Qed.

Definition then_cmp (c d : comparison) : comparison := match c with Eq => d | _ => c end.

Lemma compare_zero_pad_exact k a b s t :
  0 <= a < 10 ^ Z.of_nat k -> 0 <= b < 10 ^ Z.of_nat k ->
  String.compare (zero_pad k a +:+ s) (zero_pad k b +:+ t) =
  then_cmp (Z.compare a b) (String.compare s t).
Proof. intros. rewrite compare_zero_pad, !Z.mod_small by done. by destruct (Z.compare a b). Qed.

Lemma ascii_compare_refl c : Ascii.compare c c = Eq.
Proof. apply N.compare_refl. Qed.

Lemma compare_same c s t : String.compare (String c s) (String c t) = String.compare s t.
Proof. cbn. by rewrite ascii_compare_refl. Qed.

(** The optional fraction: its absence sorts before any fraction. *)
Lemma compare_micros a b :
  0 <= a <= 999999 -> 0 <= b <= 999999 ->
  String.compare ((if a =? 0 then "" else "." +:+ zero_pad 6 a) +:+ "+00:00")
                 ((if b =? 0 then "" else "." +:+ zero_pad 6 b) +:+ "+00:00") = Z.compare a b.
Proof.
  intros Ha Hb. destruct (Z.eqb_spec a 0) as [->|Hna], (Z.eqb_spec b 0) as [->|Hnb].
  - reflexivity.
  - transitivity Lt; [reflexivity|]. symmetry. apply Z.compare_lt_iff. lia.
  - transitivity Gt; [reflexivity|]. symmetry. apply Z.compare_gt_iff. lia.
  - change (String.compare ("." +:+ (zero_pad 6 a +:+ "+00:00")) ("." +:+ (zero_pad 6 b +:+ "+00:00"))
      = Z.compare a b).
    change ("." +:+ ?x) with (String "." x). rewrite compare_same.
    rewrite compare_zero_pad_exact by (simpl; lia). by destruct (Z.compare a b).
Qed.

(** Lexicographic comparison of the calendar fields, most significant first. *)
Definition civil_compare (a b : civil) : comparison :=
  then_cmp (c_year a ?= c_year b)
  (then_cmp (c_month a ?= c_month b)
  (then_cmp (c_day a ?= c_day b)
  (then_cmp (c_hour a ?= c_hour b)
  (then_cmp (c_minute a ?= c_minute b)
  (then_cmp (c_second a ?= c_second b) (c_microsecond a ?= c_microsecond b)))))).

Lemma compare_sep c s t :
  String.compare (String c "" +:+ s) (String c "" +:+ t) = String.compare s t.
Proof. apply compare_same. Qed.

Lemma civil_ok_bounds c :
  civil_ok c = true ->
  1 <= c_year c <= 9999 /\ 1 <= c_month c <= 12 /\
  1 <= c_day c <= days_in_month (c_year c) (c_month c) /\
  0 <= c_hour c <= 23 /\ 0 <= c_minute c <= 59 /\ 0 <= c_second c <= 59 /\
  0 <= c_microsecond c <= 999999.
Proof. unfold civil_ok. breflect. rewrite !Z.leb_le. tauto. Qed.

Lemma isoformat_compare a b :
  civil_ok a = true -> civil_ok b = true ->
  String.compare (isoformat a) (isoformat b) = civil_compare a b.
Proof.
  intros Ha%civil_ok_bounds Hb%civil_ok_bounds. destruct_and!.
  pose proof (days_in_month_le (c_year a) (c_month a)).
  pose proof (days_in_month_le (c_year b) (c_month b)).
  unfold isoformat, civil_compare.
  repeat (rewrite compare_zero_pad_exact by (simpl; lia); f_equal; rewrite ?compare_sep).
  apply compare_micros; lia.
Qed.

(** A positional system: comparing the composed number is comparing the
    leading part first. *)
Lemma positional_compare w x x' y y' :
  0 <= y < w -> 0 <= y' < w ->
  (x * w + y ?= x' * w + y') = then_cmp (x ?= x') (y ?= y').
Proof.
  intros. destruct (Z.compare_spec x x') as [->|?|?]; simpl.
  - apply Z.add_compare_mono_l.
  - apply Z.compare_lt_iff. nia.
  - apply Z.compare_gt_iff. nia.
Qed.

Definition year_length (y : Z) : Z := if is_leap y then 366 else 365.

Lemma days_before_year_succ y : days_before_year (y + 1) = days_before_year y + year_length y.
Proof.
  unfold days_before_year, year_length, is_leap.
  replace (y + 1 - 1) with y by lia.
  destruct (Z.eqb_spec (y mod 4) 0), (Z.eqb_spec (y mod 100) 0), (Z.eqb_spec (y mod 400) 0);
    simpl; Z.div_mod_to_equations; lia.
Qed.

Lemma days_before_year_mono y y' :
  y < y' -> days_before_year y + year_length y <= days_before_year y'.
Proof.
  intros Hlt. rewrite <- days_before_year_succ.
  replace y' with (y + 1 + Z.of_nat (Z.to_nat (y' - y - 1))) by lia.
  generalize (Z.to_nat (y' - y - 1)). intros n. clear Hlt.
  induction n as [|n IH]; [rewrite Z.add_0_r; lia|].
  rewrite Nat2Z.inj_succ.
  replace (y + 1 + Z.succ (Z.of_nat n)) with (y + 1 + Z.of_nat n + 1) by lia.
  rewrite (days_before_year_succ (y + 1 + Z.of_nat n)). unfold year_length. case_match; lia.
Qed.

Lemma month_cases m : 1 <= m <= 12 ->
  m = 1 \/ m = 2 \/ m = 3 \/ m = 4 \/ m = 5 \/ m = 6 \/ m = 7 \/ m = 8 \/ m = 9 \/ m = 10 \/
  m = 11 \/ m = 12.
Proof. lia. Qed.

Lemma days_before_month_mono y m m' :
  1 <= m <= 12 -> 1 <= m' <= 12 -> m < m' ->
  days_before_month y m + days_in_month y m <= days_before_month y m'.
Proof.
  intros Hm Hm' Hlt. unfold days_before_month, days_in_month.
  destruct (is_leap y);
    destruct (month_cases m Hm) as [->|[->|[->|[->|[->|[->|[->|[->|[->|[->|[->| ->]]]]]]]]]]];
    simpl; repeat case_match; lia.
Qed.

Lemma day_of_year_bound y m :
  1 <= m <= 12 -> 0 <= days_before_month y m /\ days_before_month y m + days_in_month y m <= year_length y.
Proof.
  intros Hm. unfold days_before_month, days_in_month, year_length.
  destruct (is_leap y);
    destruct (month_cases m Hm) as [->|[->|[->|[->|[->|[->|[->|[->|[->|[->|[->| ->]]]]]]]]]]];
    simpl; lia.
Qed.

Lemma ordinal_compare a b :
  civil_ok a = true -> civil_ok b = true ->
  (ordinal a ?= ordinal b) =
  then_cmp (c_year a ?= c_year b) (then_cmp (c_month a ?= c_month b) (c_day a ?= c_day b)).
Proof.
  intros Ha%civil_ok_bounds Hb%civil_ok_bounds. destruct_and!. unfold ordinal.
  destruct (day_of_year_bound (c_year a) (c_month a)); [done|].
  destruct (day_of_year_bound (c_year b) (c_month b)); [done|].
  destruct (Z.compare_spec (c_year a) (c_year b)) as [Hy|Hy|Hy]; simpl.
  - rewrite <- Hy in *. destruct (Z.compare_spec (c_month a) (c_month b)) as [Hm|Hm|Hm]; simpl.
    + rewrite <- Hm. apply Z.add_compare_mono_l.
    + apply Z.compare_lt_iff.
      pose proof (days_before_month_mono (c_year a) (c_month a) (c_month b)). lia.
    + apply Z.compare_gt_iff.
      pose proof (days_before_month_mono (c_year a) (c_month b) (c_month a)). lia.
  - apply Z.compare_lt_iff. pose proof (days_before_year_mono _ _ Hy). lia.
  - apply Z.compare_gt_iff. pose proof (days_before_year_mono _ _ Hy). lia.
Qed.

Lemma then_cmp_assoc a b c : then_cmp (then_cmp a b) c = then_cmp a (then_cmp b c).
Proof. by destruct a. Qed.

Lemma instant_compare a b :
  civil_ok a = true -> civil_ok b = true ->
  (instant_of a ?= instant_of b) = civil_compare a b.
Proof.
  intros Ha Hb. unfold civil_compare, instant_of.
  rewrite <- (then_cmp_assoc (c_month a ?= _)), <- then_cmp_assoc, <- ordinal_compare by done.
  apply civil_ok_bounds in Ha, Hb. destruct_and!.
  rewrite !positional_compare by lia. rewrite !then_cmp_assoc. f_equal.
  rewrite <- !Z.add_opp_r, !(Z.add_comm _ (- (1))). apply Z.add_compare_mono_l.
Qed.

(** Timestamps compare as text exactly as they compare in time: for UTC
    datetimes, with or without a microseconds part, the stored text of one is
    at most the stored text of the other if and only if it is not later; and
    reading a stored text back gives the instant it was written from. *)
Theorem iso_text_order_chronological a b :
  civil_ok a = true -> civil_ok b = true ->
  (String.leb (isoformat a) (isoformat b) = true <-> instant_of a <= instant_of b) /\
  instant_of_text (isoformat a) = Some (instant_of a).
Proof.
  intros Ha Hb. split.
  - unfold String.leb. rewrite isoformat_compare, <- instant_compare by done.
    destruct (Z.compare_spec (instant_of a) (instant_of b)); split; intros; try done; lia.
  - unfold instant_of_text. by rewrite fromisoformat_isoformat.
Qed.

Lemma iso_text_order_chronological_witness :
  civil_ok newyear = true /\ instant_of_text (isoformat newyear) = Some (instant_of newyear).
Proof.
  split; [reflexivity|].
  exact (proj2 (iso_text_order_chronological newyear newyear eq_refl eq_refl)).
Defined.
