(* ===== verification/Delivery.v ===== *)
(** * Delivery evidence values

    [src/src/medre/core/events/delivery.py] (delivery sources, replay-run
    normalization, the attempt provenance envelope), the receipt and native
    reference structures of [events/canonical.py], and the delivery identity
    of [core/delivery_authority.py].  Timestamps are instants: microseconds
    since 0001-01-01T00:00:00 UTC (see [IsoTime]). *)

From S2P Require Import Prelude.
From S2P Require Import Json.
From S2P Require Import DeliveryState.

Open Scope string_scope.
Open Scope list_scope.
Open Scope Z_scope.

Definition instant : Set := Z.

Definition DELIVERY_CONFIRMATION_LEVEL_VALUES : list string :=
  ["unknown"; "local_queue"; "local_transport"; "remote_service"; "end_to_end"].

Definition DELIVERY_SOURCE_VALUES : list string := ["live"; "retry"; "replay"].

Definition DELIVERY_CAPABILITY_LEVELS : list string := ["native"; "fallback"; "unsupported"].

Definition DELIVERY_STRATEGY_METHODS : list string :=
  ["direct"; "fallback_text"; "skip"; "propagated"; "opportunistic"; "paper"].

(** The exceptions the modelled code raises. *)
Inductive exc : Set :=
| ValueError (what : string)
| TypeError (what : string)
| StorageError (what : string)
| IntegrityError
| ForeignKeyError
| SnapshotIntegrityError
| SnapshotReadError
| EventKeyError
| DuplicateEventError
| ContentCeilingMismatchError
| ContentCollectionEpochChanged
| RuntimeError (what : string)
| AttributeError (what : string).

#[export] Instance exc_eq_dec : EqDecision exc.
Proof. solve_decision. Defined.

(** ** Provenance *)

Definition normalize_replay_run_id (value : option string) : option string :=
  match value with
  | None => None
  | Some v => or_none (py_strip v)
  end.

Definition normalize_delivery_provenance (source : string) (replay_run_id : option string)
    : result exc (string * option string) :=
  if negb (elem source DELIVERY_SOURCE_VALUES) then Raise (ValueError "unknown delivery source")
  else
    let normalized_run_id := normalize_replay_run_id replay_run_id in
    if bool_decide (source = "live") && bool_decide (normalized_run_id <> None)
    then Raise (ValueError "live delivery cannot carry replay_run_id")
    else Ok (source, normalized_run_id).

Record DeliveryAttemptProvenance : Set := {
  pv_event_id : string;
  pv_delivery_plan_id : string;
  pv_target_adapter : string;
  pv_target_channel : option string;
  pv_outbox_id : string;
  pv_attempt_number : Z;
  pv_source : string;
  pv_replay_run_id : option string
}.

(** [__post_init__] of the envelope: the arguments are typed here, so the
    isinstance checks never fail. *)
Definition DeliveryAttemptProvenance_init (p : DeliveryAttemptProvenance)
    : result exc DeliveryAttemptProvenance :=
  let nonblank s := truthy (py_strip s) in
  if negb (nonblank (pv_event_id p)) then Raise (ValueError "event_id")
  else if negb (nonblank (pv_delivery_plan_id p)) then Raise (ValueError "delivery_plan_id")
  else if negb (nonblank (pv_target_adapter p)) then Raise (ValueError "target_adapter")
  else if negb (nonblank (pv_outbox_id p)) then Raise (ValueError "outbox_id")
  else if pv_attempt_number p <? 1 then Raise (ValueError "attempt_number must be an integer >= 1")
  else
    '(source, run) ← normalize_delivery_provenance (pv_source p) (pv_replay_run_id p);
    Ok {| pv_event_id := pv_event_id p;
          pv_delivery_plan_id := pv_delivery_plan_id p;
          pv_target_adapter := pv_target_adapter p;
          pv_target_channel := opt_or_none (pv_target_channel p);
          pv_outbox_id := pv_outbox_id p;
          pv_attempt_number := pv_attempt_number p;
          pv_source := source;
          pv_replay_run_id := run |}.

(** ** Receipts and native references

    The receipt's two floating-point columns ([retry_backoff_base] and
    [retry_max_delay]) are copied and never inspected; they are left out. *)

Record DeliveryReceipt : Set := {
  rc_sequence : Z;
  rc_receipt_id : string;
  rc_event_id : string;
  rc_delivery_plan_id : string;
  rc_target_adapter : string;
  rc_target_channel : option string;
  rc_route_id : string;
  rc_status : string;
  rc_receipt_kind : option string;
  rc_error : option string;
  rc_failure_kind : option string;
  rc_capability_level : option string;
  rc_capability_field : option string;
  rc_capability_reason : option string;
  rc_delivery_strategy : option string;
  rc_adapter_message_id : option string;
  rc_next_retry_at : option instant;
  rc_attempt_number : Z;
  rc_parent_receipt_id : option string;
  rc_source : string;
  rc_replay_run_id : option string;
  rc_retry_max_attempts : option Z;
  rc_retry_jitter : option bool;
  rc_rendering_evidence : option string;
  rc_outbox_id : option string;
  rc_confirmation_level : string;
  rc_created_at : instant
}.

Definition DELIVERY_ATTEMPT_RECEIPT_STATUSES : list string := ["queued"; "sent"; "failed"].
Definition DELIVERY_LIFECYCLE_RECEIPT_STATUSES : list string :=
  ["dead_lettered"; "cancelled"; "abandoned"; "suppressed"].

Definition expected_receipt_kind (status : string) : option string :=
  if elem status DELIVERY_ATTEMPT_RECEIPT_STATUSES then Some "attempt"
  else if elem status DELIVERY_LIFECYCLE_RECEIPT_STATUSES then Some "lifecycle"
  else None.

Definition outside (v : option string) (vocabulary : list string) : bool :=
  match v with Some x => negb (elem x vocabulary) | None => false end.

(** The three columns [DeliveryReceipt.__post_init__] may rewrite. *)
Definition with_provenance (r : DeliveryReceipt) (kind : option string) (source : string)
    (run : option string) : DeliveryReceipt :=
  {| rc_sequence := rc_sequence r; rc_receipt_id := rc_receipt_id r; rc_event_id := rc_event_id r;
     rc_delivery_plan_id := rc_delivery_plan_id r; rc_target_adapter := rc_target_adapter r;
     rc_target_channel := rc_target_channel r; rc_route_id := rc_route_id r;
     rc_status := rc_status r; rc_receipt_kind := kind; rc_error := rc_error r;
     rc_failure_kind := rc_failure_kind r; rc_capability_level := rc_capability_level r;
     rc_capability_field := rc_capability_field r;
     rc_capability_reason := rc_capability_reason r;
     rc_delivery_strategy := rc_delivery_strategy r;
     rc_adapter_message_id := rc_adapter_message_id r; rc_next_retry_at := rc_next_retry_at r;
     rc_attempt_number := rc_attempt_number r; rc_parent_receipt_id := rc_parent_receipt_id r;
     rc_source := source; rc_replay_run_id := run;
     rc_retry_max_attempts := rc_retry_max_attempts r; rc_retry_jitter := rc_retry_jitter r;
     rc_rendering_evidence := rc_rendering_evidence r; rc_outbox_id := rc_outbox_id r;
     rc_confirmation_level := rc_confirmation_level r; rc_created_at := rc_created_at r |}.

Definition DeliveryReceipt_init (r : DeliveryReceipt) : result exc DeliveryReceipt :=
  if outside (rc_capability_level r) DELIVERY_CAPABILITY_LEVELS
  then Raise (ValueError "invalid delivery capability_level")
  else if outside (rc_delivery_strategy r) DELIVERY_STRATEGY_METHODS
  then Raise (ValueError "invalid delivery strategy")
  else match expected_receipt_kind (rc_status r) with
  | None => Raise (ValueError "Unknown delivery receipt status")
  | Some expected_kind =>
      if match rc_receipt_kind r with
         | Some k => negb (bool_decide (k = expected_kind)) | None => false end
      then Raise (ValueError "receipt_kind is incompatible with status")
      else
        '(source, run) ← normalize_delivery_provenance (rc_source r) (rc_replay_run_id r);
        Ok (with_provenance r (Some expected_kind) source run)
  end.

Record NativeMessageRef : Type := {
  nr_id : string;
  nr_event_id : string;
  nr_adapter : string;
  nr_native_channel_id : option string;
  nr_native_message_id : string;
  nr_native_thread_id : option string;
  nr_native_relation_id : option string;
  nr_direction : string;
  nr_metadata : list (string * json);
  nr_created_at : instant
}.

(** ** Delivery identity *)

Definition normalized_channel (value : option string) : option string := opt_or_none value.

Record DeliveryIdentity : Set := {
  id_event_id : string;
  id_delivery_plan_id : string;
  id_target_adapter : string;
  id_target_channel : option string
}.

#[export] Instance DeliveryIdentity_eq_dec : EqDecision DeliveryIdentity.
Proof. solve_decision. Defined.

(** The constructor normalizes the channel. *)
Definition mkIdentity (event plan adapter : string) (channel : option string) : DeliveryIdentity :=
  {| id_event_id := event; id_delivery_plan_id := plan; id_target_adapter := adapter;
     id_target_channel := normalized_channel channel |}.

Definition identity_complete (i : DeliveryIdentity) : bool :=
  truthy (id_event_id i) && truthy (id_delivery_plan_id i) && truthy (id_target_adapter i).

Definition receipt_identity (r : DeliveryReceipt) : DeliveryIdentity :=
  mkIdentity (rc_event_id r) (rc_delivery_plan_id r) (rc_target_adapter r) (rc_target_channel r).

Lemma opt_or_none_idem x : opt_or_none (opt_or_none x) = opt_or_none x.
Proof. destruct x as [s|]; cbn; [|done]. unfold or_none. destruct (truthy s) eqn:E; cbn; by rewrite ?E. Qed.

Lemma opt_or_none_not_empty x : opt_or_none x <> Some "".
Proof.
  destruct x as [s|]; cbn; [|done]. unfold or_none. destruct (truthy s) eqn:E; [|done].
  intros [= ->]. done.
Qed.

Lemma opt_or_none_id x : x <> Some "" -> opt_or_none x = x.
Proof.
  destruct x as [s|]; [|done]. intros Hne. cbn. unfold or_none.
  assert (truthy s = true) as ->; [|done]. apply truthy_true. congruence.
Qed.

(** ** Receipt construction *)

Lemma normalize_delivery_provenance_Ok source run source' run' :
  normalize_delivery_provenance source run = Ok (source', run') ->
  source' = source /\ source ∈ DELIVERY_SOURCE_VALUES /\
  run' = normalize_replay_run_id run /\ (source = "live" -> run' = None).
Proof.
  unfold normalize_delivery_provenance.
  case_match eqn:E1; [done|]. case_match eqn:E2; [done|]. intros [= <- <-].
  breflect. split_and!; try done. intros ->.
  destruct E2 as [?|Hn]; [done|]. by apply dec_stable.
Qed.

Lemma normalize_replay_run_id_nonempty v : normalize_replay_run_id v <> Some "".
Proof.
  destruct v as [s|]; simpl; [|done]. unfold or_none. destruct (truthy _) eqn:E; [|done].
  intros [= Heq]. rewrite Heq in E. done.
Qed.

(** The run a receipt keeps: the text without surrounding blanks, none when
    nothing is left. *)
Definition stripped_run (run run' : option string) : Prop :=
  forall t, run' = Some t <-> t <> "" /\ exists s, run = Some s /\ t = py_strip s.

Lemma normalize_replay_run_id_stripped run : stripped_run run (normalize_replay_run_id run).
Proof.
  intros t. destruct run as [s|]; simpl; [|naive_solver]. unfold or_none.
  destruct (truthy (py_strip s)) eqn:E; [apply truthy_true in E|apply truthy_false in E]; naive_solver.
Qed.

(** C40: A constructed receipt always has the kind its status implies,
    a known dispatch source, capability level and strategy, no blank replay
    run, and no replay run on live delivery.  Construction keeps the dispatch
    source as given and the replay run up to surrounding blanks (a blank run
    becomes none), and every other column but the kind is untouched, so the
    receipt's provenance survives it. *)
Theorem DeliveryReceipt_init_sound r r' :
  DeliveryReceipt_init r = Ok r' ->
  rc_receipt_kind r' = expected_receipt_kind (rc_status r') /\
  rc_receipt_kind r' <> None /\
  rc_source r' ∈ DELIVERY_SOURCE_VALUES /\
  outside (rc_capability_level r') DELIVERY_CAPABILITY_LEVELS = false /\
  outside (rc_delivery_strategy r') DELIVERY_STRATEGY_METHODS = false /\
  rc_replay_run_id r' <> Some "" /\
  (rc_source r' = "live" -> rc_replay_run_id r' = None) /\
  receipt_identity r' = receipt_identity r /\
  rc_source r' = rc_source r /\
  stripped_run (rc_replay_run_id r) (rc_replay_run_id r') /\
  with_provenance r' (rc_receipt_kind r) (rc_source r) (rc_replay_run_id r) = r.
Proof.
  unfold DeliveryReceipt_init. intros H.
  destruct (outside (rc_capability_level r) _) eqn:E1; [done|].
  destruct (outside (rc_delivery_strategy r) _) eqn:E2; [done|].
  destruct (expected_receipt_kind (rc_status r)) as [k|] eqn:E3; [|done].
  case_match eqn:E4; [done|].
  apply bind_Ok in H as ([source run] & Hn & [= <-]).
  apply normalize_delivery_provenance_Ok in Hn as (-> & Hs & -> & Hl). simpl.
  split_and!; try done.
  - apply normalize_replay_run_id_nonempty.
  - apply normalize_replay_run_id_stripped.
  - by destruct r.
Qed.

Definition example_receipt : DeliveryReceipt :=
  {| rc_sequence := 0; rc_receipt_id := "rcpt-1"; rc_event_id := "evt-1";
     rc_delivery_plan_id := "plan-1"; rc_target_adapter := "mesh";
     rc_target_channel := Some ""; rc_route_id := "r"; rc_status := "sent";
     rc_receipt_kind := None; rc_error := None; rc_failure_kind := None;
     rc_capability_level := Some "native"; rc_capability_field := None;
     rc_capability_reason := None; rc_delivery_strategy := Some "direct";
     rc_adapter_message_id := None; rc_next_retry_at := None; rc_attempt_number := 1;
     rc_parent_receipt_id := None; rc_source := "retry"; rc_replay_run_id := Some " run-1 ";
     rc_retry_max_attempts := None; rc_retry_jitter := None; rc_rendering_evidence := None;
     rc_outbox_id := Some "ob-1"; rc_confirmation_level := "unknown"; rc_created_at := 100 |}.

Lemma DeliveryReceipt_init_sound_witness :
  let r' := with_provenance example_receipt (Some "attempt") "retry" (Some "run-1") in
  DeliveryReceipt_init example_receipt = Ok r' /\ rc_replay_run_id r' <> Some "" /\
  rc_source r' = rc_source example_receipt.
Proof.
  intros r'. assert (DeliveryReceipt_init example_receipt = Ok r') as H by reflexivity.
  destruct (DeliveryReceipt_init_sound _ _ H) as (_ & _ & _ & _ & _ & Hrun & _ & _ & Hsrc & _).
  split; [exact H|]. split; [exact Hrun|exact Hsrc].
Defined.
