(* ===== verification/Store.v ===== *)
(** * The delivery tables and the SQL statements on them

    [src/src/medre/core/storage/sqlite/]: the tables of [schema.py] that
    delivery uses with their CHECK, UNIQUE, primary-key and foreign-key
    constraints, the transaction helpers of [connection.py], the diagnostic
    side table of [_evidence_diagnostics.py], the content dependencies of
    [_content_identity.py], and receipt and native-reference insertion.

    A statement is a function of the database that may raise; a transaction
    that raises leaves the database as it was (ROLLBACK).  Rows are kept in
    rowid order.  JSON columns hold the decoded document and timestamps the
    instant their text denotes ([IsoTime]). *)

From S2P Require Import Prelude.
From S2P Require Import Json.
From S2P Require Import IsoTime.
From S2P Require Import DeliveryState.
From S2P Require Import Delivery.

Open Scope string_scope.
Open Scope list_scope.
Open Scope Z_scope.

(** ** delivery_outbox

    The columns no UPDATE of the source assigns, and those some UPDATE does. *)

Record OutboxFixed : Type := {
  outbox_id : string;
  event_id : string;
  route_id : string;
  delivery_plan_id : string;
  target_adapter : string;
  target_channel : option string;
  target_address : option string;
  created_at : instant;
  payload_hash : option string;
  parent_receipt_id : option string;
  replay_run_id : option string;
  metadata : list (string * json)
}.

Record OutboxState : Set := {
  attempt_number : Z;
  active_attempt : option Z;
  status : OutboxStatus;
  failure_kind : option string;
  failure_kind_detail : option string;
  next_attempt_at : option instant;
  updated_at : instant;
  last_attempt_at : option instant;
  locked_at : option instant;
  lease_until : option instant;
  worker_id : option string;
  receipt_id : option string;
  error_summary : option string;
  dispatch_source : string
}.

Record Row : Type := mkRow { row_fixed :> OutboxFixed; row_state :> OutboxState }.

Definition with_state (r : Row) (s : OutboxState) : Row := mkRow r s.

(** [COALESCE(active_attempt, attempt_number)]. *)
Definition generation (r : OutboxState) : Z := default (attempt_number r) (active_attempt r).

(** Same event-scoped delivery, with [COALESCE(target_channel, '')]. *)
Definition same_target (a b : OutboxFixed) : bool :=
  bool_decide (event_id a = event_id b) &&
  bool_decide (delivery_plan_id a = delivery_plan_id b) &&
  bool_decide (target_adapter a = target_adapter b) &&
  bool_decide (opt_or_empty (target_channel a) = opt_or_empty (target_channel b)).

(** SQLite's [trim(x)]: spaces only. *)
Fixpoint trim_left (s : string) : string :=
  match s with
  | String c rest => if bool_decide (c = Ascii.ascii_of_nat 32) then trim_left rest else s
  | EmptyString => EmptyString
  end.
Definition sql_trim (s : string) : string := String.rev (trim_left (String.rev (trim_left s))).

Definition run_id_check (run : option string) : bool :=
  match run with
  | None => true
  | Some r => truthy r && bool_decide (r = sql_trim r)
  end.

(** The CHECK constraints of one row (the status vocabulary is the type's). *)
Definition row_check (r : Row) : bool :=
  (0 <=? attempt_number r) &&
  match active_attempt r with
  | None => true
  | Some a => (a =? attempt_number r + 1) && bool_decide (status r = InProgress)
  end &&
  elem (dispatch_source r) DELIVERY_SOURCE_VALUES &&
  (negb (bool_decide (dispatch_source r = "live")) || bool_decide (replay_run_id r = None)) &&
  run_id_check (replay_run_id r).

(** UNIQUE (event, plan, adapter, channel, attempt) together with its partial
    index for NULL channels: no two rows agree on the tuple, NULL included. *)
Definition attempt_key (r : Row) : string * string * string * option string * Z :=
  (event_id r, delivery_plan_id r, target_adapter r, target_channel r, attempt_number r).

(** idx_outbox_replay_run_identity_unique, on rows with a non-empty run. *)
Definition replay_key (r : Row) : string * string * string * string * option string :=
  (event_id r, delivery_plan_id r, target_adapter r, opt_or_empty (target_channel r),
   replay_run_id r).

Definition has_replay_run (r : Row) : bool := opt_truthy (replay_run_id r).

Definition outbox_constraints (rows : list Row) : bool :=
  forallb row_check rows &&
  bool_decide (NoDup (outbox_id <$> (row_fixed <$> rows))) &&
  bool_decide (NoDup (attempt_key <$> rows)) &&
  bool_decide (NoDup (replay_key <$> filter (fun r => has_replay_run r = true) rows)).

(** ** The other tables *)

Record Snapshot : Type := {
  sn_outbox_id : string;
  sn_attempt_number : Z;
  sn_version : Z;
  sn_kind : string;
  sn_context : list (string * json);
  sn_created_at : instant
}.

Record Diagnostic : Set := {
  dg_family : string;
  dg_row_id : string;
  dg_attempt : Z;
  dg_field : string;
  dg_text : string;
  dg_created_at : instant
}.

Record Dependency : Set := {
  dp_event_id : string;
  dp_owner_kind : string;
  dp_owner_id : string;
  dp_acquired_at : instant;
  dp_deadline : option instant;
  dp_released_at : option instant
}.

Record db : Type := {
  canonical_events : list string;
  outbox : list Row;
  snapshots : list Snapshot;
  diagnostics : list Diagnostic;
  dependencies : list Dependency;
  access_policies : list (string * instant);
  receipts : list DeliveryReceipt;
  native_refs : list NativeMessageRef
}.

Definition empty_db : db :=
  {| canonical_events := []; outbox := []; snapshots := []; diagnostics := [];
     dependencies := []; access_policies := []; receipts := []; native_refs := [] |}.

Definition set_outbox (d : db) (rows : list Row) : db :=
  {| canonical_events := canonical_events d; outbox := rows; snapshots := snapshots d;
     diagnostics := diagnostics d; dependencies := dependencies d;
     access_policies := access_policies d; receipts := receipts d; native_refs := native_refs d |}.
Definition set_snapshots (d : db) (s : list Snapshot) : db :=
  {| canonical_events := canonical_events d; outbox := outbox d; snapshots := s;
     diagnostics := diagnostics d; dependencies := dependencies d;
     access_policies := access_policies d; receipts := receipts d; native_refs := native_refs d |}.
Definition set_diagnostics (d : db) (g : list Diagnostic) : db :=
  {| canonical_events := canonical_events d; outbox := outbox d; snapshots := snapshots d;
     diagnostics := g; dependencies := dependencies d;
     access_policies := access_policies d; receipts := receipts d; native_refs := native_refs d |}.
Definition set_dependencies (d : db) (p : list Dependency) : db :=
  {| canonical_events := canonical_events d; outbox := outbox d; snapshots := snapshots d;
     diagnostics := diagnostics d; dependencies := p;
     access_policies := access_policies d; receipts := receipts d; native_refs := native_refs d |}.
Definition set_receipts (d : db) (r : list DeliveryReceipt) : db :=
  {| canonical_events := canonical_events d; outbox := outbox d; snapshots := snapshots d;
     diagnostics := diagnostics d; dependencies := dependencies d;
     access_policies := access_policies d; receipts := r; native_refs := native_refs d |}.
Definition set_native_refs (d : db) (n : list NativeMessageRef) : db :=
  {| canonical_events := canonical_events d; outbox := outbox d; snapshots := snapshots d;
     diagnostics := diagnostics d; dependencies := dependencies d;
     access_policies := access_policies d; receipts := receipts d; native_refs := n |}.

(** ** Transactions *)

Definition tx (A : Type) : Type := db -> result exc (A * db).

#[export] Instance tx_ret : MRet tx := fun A a d => Ok (a, d).
#[export] Instance tx_bind : MBind tx :=
  fun A B k m d => match m d with Ok (a, d') => k a d' | Raise e => Raise e end.

Definition raise {A} (e : exc) : tx A := fun _ => Raise e.
Definition get {A} (f : db -> A) : tx A := fun d => Ok (f d, d).
Definition modify (f : db -> db) : tx unit := fun d => Ok (tt, f d).
Definition when (b : bool) (m : tx unit) : tx unit := if b then m else mret tt.
Fixpoint run_ops (ops : list (tx unit)) : tx unit :=
  match ops with [] => mret tt | op :: rest => op ;; run_ops rest end.

(** BEGIN IMMEDIATE ... COMMIT, or ROLLBACK and re-raise. *)
Definition atomically {A} (m : tx A) (d : db) : result exc A * db :=
  match m d with
  | Ok (a, d') => (Ok a, d')
  | Raise e => (Raise e, d)
  end.

(** ** Statements on delivery_outbox *)

(** UPDATE delivery_outbox SET ... WHERE ...: the condition and the new values
    are computed from the state before the statement; the rowcount is
    returned. *)
Definition update_outbox (where_ : db -> Row -> bool) (set_ : Row -> OutboxState) : tx Z := fun d =>
  let rows' := (fun r => if where_ d r then with_state r (set_ r) else r) <$> outbox d in
  if outbox_constraints rows'
  then Ok (Z.of_nat (length (filter (fun r => where_ d r = true) (outbox d))), set_outbox d rows')
  else Raise IntegrityError.

Definition insert_outbox (r : Row) : tx unit := fun d =>
  if negb (outbox_constraints (outbox d ++ [r])) then Raise IntegrityError
  else if negb (elem (event_id r) (canonical_events d)) then Raise ForeignKeyError
  else Ok (tt, set_outbox d (outbox d ++ [r])).

Definition find_outbox (d : db) (id : string) : option Row :=
  List.find (fun r : Row => bool_decide (outbox_id r = id)) (outbox d).

(** ** Snapshots *)

Definition OUTBOX_DISPATCH_SNAPSHOT_VERSION : Z := 1.
Definition OUTBOX_DISPATCH_SNAPSHOT_KINDS : list string := ["staged"; "direct"].

(** [_INSERT_OUTBOX_SNAPSHOT]: one snapshot per outbox row, keyed by the row's
    committed attempt. *)
Definition insert_outbox_snapshot (kind : string) (context : list (string * json))
    (now : instant) (id : string) : tx unit := fun d =>
  match find_outbox d id with
  | None => Ok (tt, d)
  | Some r =>
      if elem id (sn_outbox_id <$> snapshots d) ||
         negb (elem kind OUTBOX_DISPATCH_SNAPSHOT_KINDS) || negb (0 <=? attempt_number r)
      then Raise IntegrityError
      else Ok (tt, set_snapshots d (snapshots d ++
             [{| sn_outbox_id := id; sn_attempt_number := attempt_number r;
                 sn_version := OUTBOX_DISPATCH_SNAPSHOT_VERSION; sn_kind := kind;
                 sn_context := context; sn_created_at := now |}]))
  end.

(** [_RETIRE_OUTBOX_SNAPSHOT]. *)
Definition retire_outbox_snapshot (id : string) : tx unit :=
  modify (fun d => set_snapshots d (filter (fun s => sn_outbox_id s <> id) (snapshots d))).

(** ** Diagnostics *)

Definition DIAGNOSTIC_FIELDS (family : string) : list string :=
  if bool_decide (family = "receipt") then ["error"; "capability_reason"; "rendering_evidence"]
  else if bool_decide (family = "observation") then ["error"]
  else if bool_decide (family = "outbox") then ["failure_kind_detail"; "error_summary"]
  else if bool_decide (family = "ingress") then ["last_error"]
  else [].

Definition insert_diagnostic (g : Diagnostic) : tx unit := fun d =>
  if negb (truthy (dg_row_id g)) || negb (0 <=? dg_attempt g) then Raise IntegrityError
  else Ok (tt, set_diagnostics d (diagnostics d ++ [g])).

Definition diagnostic_write_ops (family row_id : string) (attempt : Z)
    (values : list (string * option string)) (created : instant) : list (tx unit) :=
  omap (fun field =>
    match od_get field values with
    | Some (Some v) =>
        if truthy v then
          Some (insert_diagnostic {| dg_family := family; dg_row_id := row_id;
                  dg_attempt := attempt; dg_field := field; dg_text := v;
                  dg_created_at := created |})
        else None
    | _ => None
    end) (DIAGNOSTIC_FIELDS family).

Definition inline_diagnostic (field : string) (r : OutboxState) : option string :=
  if bool_decide (field = "error_summary") then error_summary r else failure_kind_detail r.

(** [_INSERT_OUTBOX_DIAGNOSTIC]: keyed by the committed attempt; an empty text
    is recorded only when it clears something. *)
Definition insert_outbox_diagnostic (field value : string) (created : instant) (id : string)
    : tx unit := fun d =>
  match find_outbox d id with
  | None => Ok (tt, d)
  | Some r =>
      if truthy value || bool_decide (inline_diagnostic field r <> None) ||
         existsb (fun g => bool_decide (dg_family g = "outbox") && bool_decide (dg_row_id g = id) &&
                           (dg_attempt g =? attempt_number r) && bool_decide (dg_field g = field) &&
                           truthy (dg_text g)) (diagnostics d)
      then insert_diagnostic {| dg_family := "outbox"; dg_row_id := id;
             dg_attempt := attempt_number r; dg_field := field; dg_text := value;
             dg_created_at := created |} d
      else Ok (tt, d)
  end.

Definition outbox_diagnostic_ops (values : list (string * option string)) (created : instant)
    (id : string) : list (tx unit) :=
  omap (fun field =>
    match od_get field values with
    | Some (Some v) => Some (insert_outbox_diagnostic field v created id)
    | _ => None
    end) (DIAGNOSTIC_FIELDS "outbox").

(** The latest diagnostic of a row's current attempt, in append order. *)
Definition latest_diagnostic (d : db) (r : Row) (field : string) : option string :=
  dg_text <$> last (filter (fun g =>
    dg_family g = "outbox" /\ dg_row_id g = outbox_id r /\ dg_field g = field /\
    dg_attempt g = attempt_number r) (diagnostics d)).

Definition coalesce_text (d : db) (r : Row) (field : string) : option string :=
  match latest_diagnostic d r field with
  | Some v => or_none v
  | None => inline_diagnostic field r
  end.

(** [_coalesce_evidence_diagnostics("outbox", ...)] on one row. *)
Definition coalesce_outbox (d : db) (r : Row) : Row :=
  if elem (status r) [Sent; Queued] then r
  else with_state r
    {| attempt_number := attempt_number r; active_attempt := active_attempt r;
       status := status r; failure_kind := failure_kind r;
       failure_kind_detail := coalesce_text d r "failure_kind_detail";
       next_attempt_at := next_attempt_at r; updated_at := updated_at r;
       last_attempt_at := last_attempt_at r; locked_at := locked_at r;
       lease_until := lease_until r; worker_id := worker_id r; receipt_id := receipt_id r;
       error_summary := coalesce_text d r "error_summary";
       dispatch_source := dispatch_source r |}.

(** ** Content dependencies *)

Definition frozen_plan_deadline (context : list (string * json)) : result exc (option string) :=
  let raw := match od_get "deadline" context with
             | None | Some JNull =>
                 match od_get "plan" context with
                 | Some (JObj plan) => od_get "deadline" plan
                 | _ => None
                 end
             | Some v => Some v
             end in
  match raw with
  | None | Some JNull => Ok None
  | Some (JStr s) => Ok (Some s)
  | Some _ => Raise (ValueError "Frozen plan deadline must be a UTC timestamp string")
  end.

Definition source_owner (p : Dependency) : bool := elem (dp_owner_kind p) ["ingress"; "append"].

Definition release_dependency (at_ : instant) (p : Dependency) : Dependency :=
  {| dp_event_id := dp_event_id p; dp_owner_kind := dp_owner_kind p; dp_owner_id := dp_owner_id p;
     dp_acquired_at := dp_acquired_at p; dp_deadline := dp_deadline p;
     dp_released_at := Some at_ |}.

Definition opt_le (o : option instant) (t : instant) : bool :=
  match o with Some x => x <=? t | None => false end.

Definition min_instants (xs : list instant) : option instant :=
  match xs with [] => None | x :: xs' => Some (foldr Z.min x xs') end.

(** The live source dependency ordered by owner kind ('append' first). *)
Definition live_source (d : db) (event : string) : option Dependency :=
  head (sorted_by (on_key dp_owner_kind String.leb)
    (filter (fun p => dp_event_id p = event /\ source_owner p = true /\ dp_released_at p = None)
       (dependencies d))).

Definition insert_dependency (p : Dependency) : tx unit := fun d =>
  if existsb (fun q => bool_decide (dp_event_id q = dp_event_id p) &&
                       bool_decide (dp_owner_kind q = dp_owner_kind p) &&
                       bool_decide (dp_owner_id q = dp_owner_id p)) (dependencies d) ||
     negb (truthy (dp_owner_id p)) || opt_le (dp_deadline p) (dp_acquired_at p)
  then Raise IntegrityError
  else Ok (tt, set_dependencies d (dependencies d ++ [p])).

Definition insert_outbox_dependency (id event : string) (now : instant)
    (plan_deadline : option string) : tx unit :=
  frozen_plan ← match plan_deadline with
                | None => mret None
                | Some s => match instant_of_text s with
                            | Some t => mret (Some t)
                            | None => raise (ValueError "Frozen plan deadline")
                            end
                end;
  modify (fun d => set_dependencies d
    ((fun p => if bool_decide (dp_event_id p = event) && source_owner p &&
                  bool_decide (dp_released_at p = None) && opt_le (dp_deadline p) now
               then release_dependency now p else p) <$> dependencies d)) ;;
  source ← get (fun d => live_source d event);
  policies ← get access_policies;
  match source with
  | None => mret tt
  | Some src =>
      let ceiling := od_get event policies in
      if bool_decide (ceiling <> None) && bool_decide (dp_deadline src = None) then mret tt
      else
        let bounds := omap (fun b => b) [dp_deadline src; ceiling; frozen_plan] in
        if existsb (fun b => b <=? now) bounds then mret tt
        else insert_dependency
               {| dp_event_id := event; dp_owner_kind := "outbox"; dp_owner_id := id;
                  dp_acquired_at := now; dp_deadline := min_instants bounds;
                  dp_released_at := None |}
  end.

Definition settle_outbox_content_dependency (id event : string) (at_ : instant) : tx unit :=
  modify (fun d => set_dependencies d
    ((fun p => if bool_decide (dp_event_id p = event) &&
                  bool_decide (dp_owner_kind p = "outbox") && bool_decide (dp_owner_id p = id) &&
                  bool_decide (dp_released_at p = None)
               then release_dependency at_ p else p) <$> dependencies d)).

(** ** Receipts and native references *)

(** [_receipt_insert_params]: validation, then the stored row (free-form text
    columns stay NULL, the sequence is assigned by the table). *)
Definition receipt_insert_params (r : DeliveryReceipt) : result exc DeliveryReceipt :=
  if negb (elem (rc_status r) RECEIPT_STATUSES) then Raise (ValueError "Unknown receipt status")
  else if negb (elem (rc_receipt_kind r) [Some "attempt"; Some "lifecycle"])
  then Raise (ValueError "Unknown receipt kind")
  else if negb (elem (rc_confirmation_level r) DELIVERY_CONFIRMATION_LEVEL_VALUES)
  then Raise (ValueError "Unknown confirmation level")
  else
    '(source, run) ← normalize_delivery_provenance (rc_source r) (rc_replay_run_id r);
    Ok {| rc_sequence := 0; rc_receipt_id := rc_receipt_id r; rc_event_id := rc_event_id r;
          rc_delivery_plan_id := rc_delivery_plan_id r; rc_target_adapter := rc_target_adapter r;
          rc_target_channel := opt_or_none (rc_target_channel r); rc_route_id := rc_route_id r;
          rc_status := rc_status r; rc_receipt_kind := rc_receipt_kind r; rc_error := None;
          rc_failure_kind := rc_failure_kind r; rc_capability_level := rc_capability_level r;
          rc_capability_field := rc_capability_field r; rc_capability_reason := None;
          rc_delivery_strategy := rc_delivery_strategy r;
          rc_adapter_message_id := rc_adapter_message_id r;
          rc_next_retry_at := rc_next_retry_at r; rc_attempt_number := rc_attempt_number r;
          rc_parent_receipt_id := rc_parent_receipt_id r; rc_source := source;
          rc_replay_run_id := run; rc_retry_max_attempts := rc_retry_max_attempts r;
          rc_retry_jitter := rc_retry_jitter r; rc_rendering_evidence := None;
          rc_outbox_id := rc_outbox_id r; rc_confirmation_level := rc_confirmation_level r;
          rc_created_at := rc_created_at r |}.

Definition receipt_diagnostic_ops (r : DeliveryReceipt) : list (tx unit) :=
  diagnostic_write_ops "receipt" (rc_receipt_id r) (rc_attempt_number r)
    [("error", rc_error r); ("capability_reason", rc_capability_reason r);
     ("rendering_evidence", rc_rendering_evidence r)] (rc_created_at r).

(** The CHECK constraints of delivery_receipts. *)
Definition receipt_check (r : DeliveryReceipt) : bool :=
  (1 <=? rc_attempt_number r) &&
  bool_decide (rc_receipt_kind r = expected_receipt_kind (rc_status r)) &&
  bool_decide (rc_receipt_kind r <> None) &&
  elem (rc_source r) DELIVERY_SOURCE_VALUES &&
  (negb (bool_decide (rc_source r = "live")) || bool_decide (rc_replay_run_id r = None)) &&
  run_id_check (rc_replay_run_id r) &&
  negb (outside (rc_capability_level r) DELIVERY_CAPABILITY_LEVELS) &&
  negb (outside (rc_delivery_strategy r) DELIVERY_STRATEGY_METHODS) &&
  elem (rc_confirmation_level r) DELIVERY_CONFIRMATION_LEVEL_VALUES.

Definition with_sequence (r : DeliveryReceipt) (n : Z) : DeliveryReceipt :=
  {| rc_sequence := n; rc_receipt_id := rc_receipt_id r; rc_event_id := rc_event_id r;
     rc_delivery_plan_id := rc_delivery_plan_id r; rc_target_adapter := rc_target_adapter r;
     rc_target_channel := rc_target_channel r; rc_route_id := rc_route_id r;
     rc_status := rc_status r; rc_receipt_kind := rc_receipt_kind r; rc_error := rc_error r;
     rc_failure_kind := rc_failure_kind r; rc_capability_level := rc_capability_level r;
     rc_capability_field := rc_capability_field r;
     rc_capability_reason := rc_capability_reason r;
     rc_delivery_strategy := rc_delivery_strategy r;
     rc_adapter_message_id := rc_adapter_message_id r; rc_next_retry_at := rc_next_retry_at r;
     rc_attempt_number := rc_attempt_number r; rc_parent_receipt_id := rc_parent_receipt_id r;
     rc_source := rc_source r; rc_replay_run_id := rc_replay_run_id r;
     rc_retry_max_attempts := rc_retry_max_attempts r; rc_retry_jitter := rc_retry_jitter r;
     rc_rendering_evidence := rc_rendering_evidence r; rc_outbox_id := rc_outbox_id r;
     rc_confirmation_level := rc_confirmation_level r; rc_created_at := rc_created_at r |}.

(** [_INSERT_RECEIPT]: the AUTOINCREMENT sequence follows the log's length
    because no statement deletes a receipt. *)
Definition insert_receipt (r : DeliveryReceipt) : tx unit := fun d =>
  if negb (receipt_check r) || elem (rc_receipt_id r) (rc_receipt_id <$> receipts d)
  then Raise IntegrityError
  else if negb (elem (rc_event_id r) (canonical_events d)) then Raise ForeignKeyError
  else Ok (tt, set_receipts d
             (receipts d ++ [with_sequence r (Z.of_nat (length (receipts d)) + 1)])).

Definition native_ref_identity (n : NativeMessageRef) : string * option string * string :=
  (nr_adapter n, nr_native_channel_id n, nr_native_message_id n).

(** [_RESOLVE_NATIVE_REF]. *)
Definition resolve_native_ref (d : db) (key : string * option string * string) : option string :=
  nr_event_id <$> List.find (fun n => bool_decide (native_ref_identity n = key)) (native_refs d).

(** UNIQUE(adapter, channel, message) treats NULL channels as distinct. *)
Definition native_ref_clash (a b : NativeMessageRef) : bool :=
  bool_decide (nr_id a = nr_id b) ||
  (bool_decide (nr_native_channel_id a <> None) &&
   bool_decide (native_ref_identity a = native_ref_identity b)).

(** [_INSERT_NATIVE_REF_STRICT]. *)
Definition insert_native_ref (n : NativeMessageRef) : tx unit := fun d =>
  if existsb (native_ref_clash n) (native_refs d) then Raise IntegrityError
  else if negb (elem (nr_event_id n) (canonical_events d)) then Raise ForeignKeyError
  else Ok (tt, set_native_refs d (native_refs d ++ [n])).

(** [store_native_ref]: resolve, then INSERT OR IGNORE. *)
Definition store_native_ref (n : NativeMessageRef) (d : db) : result exc unit * db :=
  match resolve_native_ref d (native_ref_identity n) with
  | Some _ => (Ok tt, d)
  | None =>
      if existsb (native_ref_clash n) (native_refs d) then (Ok tt, d)
      else if negb (elem (nr_event_id n) (canonical_events d))
      then (Raise (StorageError "Database write failed"), d)
      else (Ok tt, set_native_refs d (native_refs d ++ [n]))
  end.

(** [except sqlite3.Error as exc: raise StorageError(...)]. *)
Definition wrap_db_error {A} (r : result exc A * db) : result exc A * db :=
  match r with
  | (Raise IntegrityError, d) | (Raise ForeignKeyError, d) =>
      (Raise (StorageError "Database write failed"), d)
  | _ => r
  end.

Definition append_receipt (r : DeliveryReceipt) (d : db) : result exc unit * db :=
  match receipt_insert_params r with
  | Raise e => (Raise e, d)
  | Ok row => wrap_db_error (atomically (insert_receipt row ;; run_ops (receipt_diagnostic_ops r)) d)
  end.
