(* ===== verification/Outbox.v ===== *)
(** * The delivery outbox operations

    [src/src/medre/core/storage/sqlite/_outbox.py]: creation and generation
    allocation, claims, attempt reservation, the guarded status transitions,
    leases and the read paths; and [_delivery_finalize.py]: the two atomic
    finalizations.  An operation takes the database and returns its result
    (value or exception) with the new database.  The clock reading
    [_now_iso()] is the argument [now]. *)

From S2P Require Import Prelude.
From S2P Require Import Json.
From S2P Require Import DeliveryState.
From S2P Require Import Delivery.
From S2P Require Import Store.

Open Scope string_scope.
Open Scope list_scope.
Open Scope Z_scope.

Record DeliveryOutboxItem : Type := {
  it_outbox_id : string;
  it_event_id : string;
  it_route_id : string;
  it_delivery_plan_id : string;
  it_target_adapter : string;
  it_target_channel : option string;
  it_target_address : option string;
  it_attempt_number : Z;
  it_active_attempt : option Z;
  it_status : option string;
  it_failure_kind : option string;
  it_failure_kind_detail : option string;
  it_next_attempt_at : option instant;
  it_created_at : option instant;
  it_updated_at : option instant;
  it_last_attempt_at : option instant;
  it_locked_at : option instant;
  it_lease_until : option instant;
  it_worker_id : option string;
  it_payload_hash : option string;
  it_receipt_id : option string;
  it_parent_receipt_id : option string;
  it_error_summary : option string;
  it_dispatch_source : option string;
  it_replay_run_id : option string;
  it_metadata : option (list (string * json))
}.

Record OutboxDispatchSnapshotWrite : Type := {
  sw_kind : string;
  sw_context : list (string * json)
}.

Definition parse_outbox_status (s : string) : option OutboxStatus :=
  List.find (fun st => bool_decide (outbox_str st = s)) all_outbox_statuses.

(** ** Creation *)

(** The inserted row; [attempt] is the item's, or the allocated generation. *)
Definition item_row (item : DeliveryOutboxItem) (attempt : Z) (st : OutboxStatus)
    (source : string) (now : instant) : Row :=
  mkRow
    {| outbox_id := it_outbox_id item; event_id := it_event_id item;
       route_id := it_route_id item; delivery_plan_id := it_delivery_plan_id item;
       target_adapter := it_target_adapter item;
       target_channel := opt_or_none (it_target_channel item);
       target_address := it_target_address item;
       created_at := default now (it_created_at item);
       payload_hash := it_payload_hash item;
       parent_receipt_id := it_parent_receipt_id item;
       replay_run_id := opt_or_none (it_replay_run_id item);
       metadata := default [] (it_metadata item) |}
    {| attempt_number := attempt; active_attempt := it_active_attempt item; status := st;
       failure_kind := it_failure_kind item; failure_kind_detail := None;
       next_attempt_at := it_next_attempt_at item;
       updated_at := default now (it_updated_at item);
       last_attempt_at := it_last_attempt_at item; locked_at := it_locked_at item;
       lease_until := it_lease_until item; worker_id := it_worker_id item;
       receipt_id := it_receipt_id item; error_summary := None;
       dispatch_source := source |}.

(** Same delivery with [target_channel IS ?]. *)
Definition row_of_item (item : DeliveryOutboxItem) (r : Row) : bool :=
  bool_decide (event_id r = it_event_id item) &&
  bool_decide (delivery_plan_id r = it_delivery_plan_id item) &&
  bool_decide (target_adapter r = it_target_adapter item) &&
  bool_decide (target_channel r = opt_or_none (it_target_channel item)).

(** Same delivery with [COALESCE(target_channel, '') = COALESCE(?, '')]. *)
Definition row_of_item_coalesced (item : DeliveryOutboxItem) (r : Row) : bool :=
  bool_decide (event_id r = it_event_id item) &&
  bool_decide (delivery_plan_id r = it_delivery_plan_id item) &&
  bool_decide (target_adapter r = it_target_adapter item) &&
  bool_decide (opt_or_empty (target_channel r) =
               opt_or_empty (opt_or_none (it_target_channel item))).

Definition newest_first : Row -> Row -> bool :=
  on_key (fun r : Row => (generation r, outbox_id r)) (lex_leb Z.leb String.leb).

(** [select_sql]: the newest row at or above the requested attempt. *)
Definition adoptable (item : DeliveryOutboxItem) (r : Row) : bool :=
  row_of_item item r &&
  ((it_attempt_number item <=? attempt_number r) ||
   match active_attempt r with Some a => it_attempt_number item <=? a | None => false end).

Definition select_adoptable (item : DeliveryOutboxItem) (d : db) : option string :=
  (fun r : Row => outbox_id r) <$>
    max_by newest_first (filter (fun r => adoptable item r = true) (outbox d)).

(** [generation_select_sql]. *)
Definition select_max_generation (item : DeliveryOutboxItem) (d : db) : option Z :=
  max_by Z.leb ((fun r : Row => generation r) <$>
    filter (fun r => row_of_item_coalesced item r = true) (outbox d)).

(** [replay_run_select_sql]. *)
Definition select_replay_run (item : DeliveryOutboxItem) (d : db) : option string :=
  (fun r : Row => outbox_id r) <$>
    List.find (fun r => row_of_item_coalesced item r &&
                        bool_decide (replay_run_id r = it_replay_run_id item)) (outbox d).

(** [_sync_atomic_create_outbox_generation]. *)
Definition sync_atomic_create_outbox_generation (item : DeliveryOutboxItem) (st : OutboxStatus)
    (source : string) (now : instant) (post_insert_ops : list (tx unit))
    (plan_deadline : option string) : tx (option string) :=
  existing ← get (fun d => if opt_truthy (it_replay_run_id item)
                           then select_replay_run item d else None);
  match existing with
  | Some i => mret (Some i)
  | None =>
      max_attempt ← get (select_max_generation item);
      insert_outbox (item_row item (default 0 max_attempt + 1) st source now) ;;
      when (negb (bool_decide (source = "replay")))
        (insert_outbox_dependency (it_outbox_id item) (it_event_id item) now plan_deadline) ;;
      run_ops post_insert_ops ;;
      mret None
  end.

(** [_sync_atomic_create_outbox]. *)
Definition sync_atomic_create_outbox (item : DeliveryOutboxItem) (st : OutboxStatus)
    (source : string) (now : instant) (post_insert_ops : list (tx unit))
    (plan_deadline : option string) : tx (option string) :=
  existing ← get (select_adoptable item);
  match existing with
  | Some i => mret (Some i)
  | None =>
      insert_outbox (item_row item (it_attempt_number item) st source now) ;;
      insert_outbox_dependency (it_outbox_id item) (it_event_id item) now plan_deadline ;;
      run_ops post_insert_ops ;;
      mret None
  end.

Definition get_outbox_item (d : db) (id : string) : option Row :=
  coalesce_outbox d <$> find_outbox d id.

Definition reread (d : db) (id : string) : result exc Row :=
  match get_outbox_item d id with
  | Some r => Ok r
  | None => Raise (StorageError "outbox row could not be re-read")
  end.

(** The argument checks of [create_outbox_item], in order; the initial status
    and the dispatch source on success. *)
Definition create_checks (item : DeliveryOutboxItem) (allocate_new_generation : bool)
    (dispatch_snapshot : option OutboxDispatchSnapshotWrite)
    : result exc (OutboxStatus * string) :=
  let effective_status := default "pending" (it_status item) in
  let source := match opt_or_none (it_dispatch_source item) with
                | Some s => s
                | None => if allocate_new_generation then "replay" else "live"
                end in
  if negb (elem source ["live"; "replay"]) then Raise (ValueError "invalid dispatch_source")
  else if opt_truthy (it_replay_run_id item) && negb allocate_new_generation
  then Raise (ValueError "named replay provenance requires allocate_new_generation=True")
  else if bool_decide (source = "live") && opt_truthy (it_replay_run_id item)
  then Raise (ValueError "live dispatch_source cannot carry replay_run_id")
  else if bool_decide (source = "replay") && negb allocate_new_generation
  then Raise (ValueError "replay dispatch_source requires allocate_new_generation=True")
  else if negb (elem effective_status ["pending"; "in_progress"])
  then Raise (ValueError "initial status not permitted")
  else if opt_truthy (it_replay_run_id item) && negb allocate_new_generation
  then Raise (ValueError "replay_run_id requires allocate_new_generation=True")
  else match dispatch_snapshot with
  | Some _ =>
      if nonempty (default [] (it_metadata item))
      then Raise (ValueError "outbox dispatch context must have one owner")
      else Ok (if bool_decide (effective_status = "pending") then Pending else InProgress, source)
  | None => Ok (if bool_decide (effective_status = "pending") then Pending else InProgress, source)
  end.

Definition snapshot_op (s : OutboxDispatchSnapshotWrite) (now : instant) (id : string) : tx unit :=
  insert_outbox_snapshot (sw_kind s) (sw_context s) now id.

Definition create_post_insert_ops (item : DeliveryOutboxItem)
    (dispatch_snapshot : option OutboxDispatchSnapshotWrite) (now : instant) : list (tx unit) :=
  outbox_diagnostic_ops
    [("failure_kind_detail", it_failure_kind_detail item);
     ("error_summary", it_error_summary item)] now (it_outbox_id item) ++
  match dispatch_snapshot with
  | Some s => [snapshot_op s now (it_outbox_id item)]
  | None => []
  end.

Definition snapshot_deadline (dispatch_snapshot : option OutboxDispatchSnapshotWrite)
    : result exc (option string) :=
  match dispatch_snapshot with
  | None => Ok None
  | Some s =>
      if negb (elem (sw_kind s) OUTBOX_DISPATCH_SNAPSHOT_KINDS)
      then Raise (ValueError "invalid dispatch snapshot kind")
      else frozen_plan_deadline (sw_context s)
  end.

Definition create_outbox_item (now : instant) (item : DeliveryOutboxItem)
    (allocate_new_generation : bool)
    (dispatch_snapshot : option OutboxDispatchSnapshotWrite) (d : db) : result exc Row * db :=
  match create_checks item allocate_new_generation dispatch_snapshot with
  | Raise e => (Raise e, d)
  | Ok (st, source) =>
  match snapshot_deadline dispatch_snapshot with
  | Raise e => (Raise e, d)
  | Ok plan_deadline =>
      let ops := create_post_insert_ops item dispatch_snapshot now in
      if allocate_new_generation then
        if bool_decide (it_active_attempt item <> None)
        then (Raise (ValueError "allocate_new_generation requires active_attempt=None"), d)
        else match atomically
               (sync_atomic_create_outbox_generation item st source now ops plan_deadline) d with
        | (Ok (Some i), d') => (reread d' i, d')
        | (Ok None, d') => (reread d' (it_outbox_id item), d')
        | (Raise ForeignKeyError, d') => (Raise (StorageError "Outbox create failed"), d')
        | (Raise e, d') => (Raise e, d')
        end
      else match atomically (sync_atomic_create_outbox item st source now ops plan_deadline) d with
        | (Ok (Some i), d') => (reread d' i, d')
        | (Ok None, d') => (reread d' (it_outbox_id item), d')
        | (Raise ForeignKeyError, d') => (Raise (StorageError "Outbox create failed"), d')
        | (Raise IntegrityError, d') =>
            match select_adoptable item d' with
            | Some i => (reread d' i, d')
            | None => (Raise IntegrityError, d')
            end
        | (Raise e, d') => (Raise e, d')
        end
  end end.

(** ** Reading *)

Record OutboxDispatchSnapshot : Type := {
  ds_outbox_id : string;
  ds_attempt_number : Z;
  ds_snapshot_version : Z;
  ds_kind : string;
  ds_context : list (string * json)
}.

Definition get_outbox_dispatch_context (d : db) (id event plan adapter : string)
    (channel : option string) : result exc (option OutboxDispatchSnapshot) :=
  let owner := List.find (fun r : Row =>
    bool_decide (outbox_id r = id) && bool_decide (event_id r = event) &&
    bool_decide (delivery_plan_id r = plan) && bool_decide (target_adapter r = adapter) &&
    bool_decide (target_channel r = opt_or_none channel) &&
    elem (status r) [Pending; InProgress; RetryWait; Queued]) (outbox d) in
  match owner, List.find (fun s => bool_decide (sn_outbox_id s = id)) (snapshots d) with
  | Some _, Some s =>
      if negb (sn_version s =? OUTBOX_DISPATCH_SNAPSHOT_VERSION) then Raise SnapshotIntegrityError
      else if negb (elem (sn_kind s) OUTBOX_DISPATCH_SNAPSHOT_KINDS)
      then Raise SnapshotIntegrityError
      else Ok (Some {| ds_outbox_id := id; ds_attempt_number := sn_attempt_number s;
                       ds_snapshot_version := sn_version s; ds_kind := sn_kind s;
                       ds_context := sn_context s |})
  | _, _ => Ok None
  end.

(** NULLs sort first in ascending order. *)
Definition opt_leb (a b : option instant) : bool :=
  match a, b with
  | None, _ => true
  | Some _, None => false
  | Some x, Some y => x <=? y
  end.

Definition list_outbox_items_for_delivery (d : db) (i : DeliveryIdentity)
    : result exc (list Row) :=
  if negb (identity_complete i)
  then Raise (ValueError "outbox history requires a complete DeliveryIdentity")
  else Ok (coalesce_outbox d <$>
    sorted_by (on_key (fun r : Row => (generation r, (created_at r, outbox_id r)))
                 (lex_leb Z.leb (lex_leb Z.leb String.leb)))
      (filter (fun r : Row => event_id r = id_event_id i /\
         delivery_plan_id r = id_delivery_plan_id i /\
         target_adapter r = id_target_adapter i /\
         target_channel r = opt_or_none (id_target_channel i)) (outbox d))).

Definition list_outbox_items (d : db) (status_filter : list OutboxStatus)
    (due_before : option instant) (limit offset : Z) : list Row :=
  coalesce_outbox d <$> sql_limit limit offset
    (sorted_by (on_key (fun r : Row => (next_attempt_at r, created_at r)) (lex_leb opt_leb Z.leb))
      (filter (fun r : Row =>
         (negb (nonempty status_filter) || elem (status r) status_filter) &&
         match due_before with
         | None => true
         | Some t => opt_le (next_attempt_at r) t
         end = true) (outbox d))).

Definition created_order : Row -> Row -> bool :=
  on_key (fun r : Row => (created_at r, outbox_id r)) (lex_leb Z.leb String.leb).

Definition list_all_outbox_items (d : db) (limit offset : Z) : list Row :=
  coalesce_outbox d <$> sql_limit limit offset (sorted_by created_order (outbox d)).

Definition list_outbox_items_for_event (d : db) (event : string) : list Row :=
  coalesce_outbox d <$>
    sorted_by created_order (filter (fun r : Row => event_id r = event) (outbox d)).

Definition list_outbox_items_by_replay_run (d : db) (run : string) : result exc (list Row) :=
  match normalize_replay_run_id (Some run) with
  | None => Raise (ValueError "replay-run outbox lookup requires a non-empty run ID")
  | Some i => Ok (coalesce_outbox d <$>
      sorted_by created_order (filter (fun r : Row => replay_run_id r = Some i) (outbox d)))
  end.

Definition count_outbox_by_status (d : db) : list (string * Z) :=
  filter (fun kv => kv.2 <> 0)
    ((fun st => (outbox_str st,
                 Z.of_nat (length (filter (fun r : Row => status r = st) (outbox d)))))
       <$> sorted_by (on_key outbox_str String.leb) all_outbox_statuses).

(** ** Claims *)

Definition STALE_QUEUED_GRACE_SECONDS : Z := 300.
Definition seconds (n : Z) : Z := n * 1000000.

Record claim_options : Set := {
  excluded_adapters : list string;
  initial_only : bool;
  one_per_adapter : bool
}.

(** [_no_newer_generation]. *)
Definition no_newer_generation (d : db) (r : Row) : bool :=
  negb (existsb (fun s : Row => negb (bool_decide (outbox_id s = outbox_id r)) &&
                          same_target s r && (generation r <=? generation s)) (outbox d)).

Definition null_or_le (o : option instant) (t : instant) : bool :=
  match o with None => true | Some x => x <=? t end.

Definition claim_filters (o : claim_options) (now : instant) (d : db) (r : Row) : bool :=
  negb (elem (target_adapter r) (excluded_adapters o)) &&
  (negb (one_per_adapter o) ||
   negb (existsb (fun s : Row => negb (bool_decide (outbox_id s = outbox_id r)) &&
           bool_decide (target_adapter s = target_adapter r) &&
           bool_decide (status s = InProgress) &&
           match lease_until s with Some t => now <? t | None => false end) (outbox d))) &&
  (negb (initial_only o) ||
   ((attempt_number r =? 0) && bool_decide (active_attempt r = None) &&
    elem (status r) [Pending; RetryWait; InProgress])).

(** The WHERE clause shared by the SELECT and the conditional UPDATE. *)
Definition claim_predicate (o : claim_options) (now : instant) (d : db) (r : Row) : bool :=
  (outbox_claimable (status r) ||
   (bool_decide (status r = InProgress) && null_or_le (lease_until r) now) ||
   (bool_decide (status r = Queued) &&
    (updated_at r <=? now - seconds STALE_QUEUED_GRACE_SECONDS))) &&
  null_or_le (next_attempt_at r) now &&
  null_or_le (lease_until r) now &&
  no_newer_generation d r &&
  claim_filters o now d r.

(** [COALESCE(next_attempt_at, created_at), created_at]. *)
Definition due_key (r : Row) : Z * Z := (default (created_at r) (next_attempt_at r), created_at r).

(** [adapter_rank = 1]: first of the adapter's eligible rows by due time,
    creation time and rowid. *)
Definition first_of_adapter (eligible : list Row) (r : Row) : bool :=
  match head (sorted_by (on_key due_key (lex_leb Z.leb Z.leb))
                (filter (fun s : Row => target_adapter s = target_adapter r) eligible)) with
  | Some s => bool_decide (outbox_id s = outbox_id r)
  | None => false
  end.

Definition claim_eligible (o : claim_options) (now : instant) (d : db) : list Row :=
  filter (fun r => claim_predicate o now d r = true) (outbox d).

Definition claim_ranked (o : claim_options) (now : instant) (d : db) : list Row :=
  sorted_by (on_key (fun r : Row => (due_key r, outbox_id r))
               (lex_leb (lex_leb Z.leb Z.leb) String.leb))
    (filter (fun r => negb (one_per_adapter o) || first_of_adapter (claim_eligible o now d) r = true)
       (claim_eligible o now d)).

Definition claim_select (o : claim_options) (now : instant) (limit : Z) (d : db) : list Row :=
  sql_limit limit 0 (claim_ranked o now d).

Definition claim_state (now lease : instant) (worker : string) (r : Row) : OutboxState :=
  {| attempt_number := attempt_number r; active_attempt := active_attempt r;
     status := InProgress; failure_kind := failure_kind r;
     failure_kind_detail := failure_kind_detail r; next_attempt_at := None; updated_at := now;
     last_attempt_at := last_attempt_at r; locked_at := Some now; lease_until := Some lease;
     worker_id := Some worker; receipt_id := receipt_id r; error_summary := error_summary r;
     dispatch_source := dispatch_source r |}.

Definition claim_update (o : claim_options) (now lease : instant) (worker : string)
    (ids : list string) (d : db) : result exc Z * db :=
  wrap_db_error (atomically
    (update_outbox (fun d r => elem (outbox_id r) ids && claim_predicate o now d r)
       (claim_state now lease worker)) d).

Definition claim_reread (worker : string) (ids : list string) (d : db) : list Row :=
  coalesce_outbox d <$>
    filter (fun r : Row => elem (outbox_id r) ids && bool_decide (worker_id r = Some worker) &&
                           bool_decide (status r = InProgress) && no_newer_generation d r = true)
      (outbox d).

Definition claim_due_outbox_items (now : instant) (worker : string) (lease_seconds limit : Z)
    (o : claim_options) (d : db) : result exc (list Row) * db :=
  let rows := claim_select o now limit d in
  if negb (nonempty rows) then (Ok [], d)
  else
    let ids := (fun r : Row => outbox_id r) <$> rows in
    match claim_update o now (now + seconds lease_seconds) worker ids d with
    | (Ok _, d') => (Ok (claim_reread worker ids d'), d')
    | (Raise e, d') => (Raise e, d')
    end.

(** ** Reservation *)

Definition reserve_guard (worker : string) (from_attempt : Z) (id : string) (d : db) (r : Row)
    : bool :=
  bool_decide (outbox_id r = id) && bool_decide (worker_id r = Some worker) &&
  bool_decide (status r = InProgress) && bool_decide (active_attempt r = None) &&
  (attempt_number r =? from_attempt) &&
  negb (existsb (fun s : Row => negb (bool_decide (outbox_id s = outbox_id r)) &&
                          same_target s r && (attempt_number r + 1 <=? generation s)) (outbox d)).

Definition reserve_state (now : instant) (r : Row) : OutboxState :=
  {| attempt_number := attempt_number r; active_attempt := Some (attempt_number r + 1);
     status := status r; failure_kind := failure_kind r;
     failure_kind_detail := failure_kind_detail r; next_attempt_at := next_attempt_at r;
     updated_at := now; last_attempt_at := Some now; locked_at := locked_at r;
     lease_until := lease_until r; worker_id := worker_id r; receipt_id := receipt_id r;
     error_summary := error_summary r;
     dispatch_source := if attempt_number r =? 0 then "live" else "retry" |}.

Definition reserve_outbox_attempt (now : instant) (id worker : string) (from_attempt : Z) (d : db)
    : result exc (option Z) * db :=
  match wrap_db_error
          (atomically (update_outbox (reserve_guard worker from_attempt id) (reserve_state now)) d) with
  | (Ok rowcount, d') => (Ok (if rowcount =? 1 then Some (from_attempt + 1) else None), d')
  | (Raise e, d') => (Raise e, d')
  end.

(** ** Status transitions *)

Record transition_args : Set := {
  ta_allowed_from : option (list OutboxStatus);
  ta_receipt_id : option string;
  ta_attempt_number : option Z;
  ta_failure_kind : option string;
  ta_failure_kind_detail : option string;
  ta_error_summary : option string;
  ta_next_attempt_at : option instant;
  ta_expected_worker_id : option string
}.

Definition transition_state (a : transition_args) (new_status : OutboxStatus) (now : instant)
    (r : Row) : OutboxState :=
  let happy := elem new_status [Queued; Sent] in
  let error_terminal := outbox_terminal new_status && negb (bool_decide (new_status = Sent)) in
  let unlock := outbox_terminal new_status || elem new_status [Queued; RetryWait] in
  {| attempt_number :=
       match ta_attempt_number a with
       | Some n => n
       | None => if bool_decide (new_status = InProgress) then attempt_number r else generation r
       end;
     active_attempt :=
       match ta_attempt_number a with
       | Some _ => None
       | None => if bool_decide (new_status = InProgress) then active_attempt r else None
       end;
     status := new_status;
     failure_kind :=
       if happy then None
       else match ta_failure_kind a with Some k => Some k | None => failure_kind r end;
     failure_kind_detail := if happy || error_terminal then None else failure_kind_detail r;
     next_attempt_at := ta_next_attempt_at a;
     updated_at := now;
     last_attempt_at :=
       if elem new_status [Queued; Sent; RetryWait] then Some now else last_attempt_at r;
     locked_at := if unlock then None else locked_at r;
     lease_until := if unlock then None else lease_until r;
     worker_id := if unlock then None else worker_id r;
     receipt_id := match ta_receipt_id a with Some i => Some i | None => receipt_id r end;
     error_summary := if happy then None else error_summary r;
     dispatch_source := dispatch_source r |}.

Definition transition_guard (a : transition_args) (id : string) (d : db) (r : Row) : bool :=
  bool_decide (outbox_id r = id) && negb (outbox_terminal (status r)) &&
  match ta_attempt_number a with
  | None => true
  | Some n => (bool_decide (active_attempt r = None) && (attempt_number r <=? n)) ||
              bool_decide (active_attempt r = Some n)
  end &&
  match ta_expected_worker_id a with
  | None => true
  | Some w => bool_decide (worker_id r = Some w)
  end &&
  match ta_allowed_from a with
  | None => true
  | Some from => elem (status r) from
  end.

Definition transition_diagnostics (a : transition_args) (new_status : OutboxStatus)
    : list (string * option string) :=
  let detail := match ta_failure_kind_detail a with
                | Some t => Some t
                | None => if outbox_terminal new_status && negb (bool_decide (new_status = Sent))
                          then Some "" else None
                end in
  [("failure_kind_detail", detail); ("error_summary", ta_error_summary a)].

(** [sync_transition_outbox_and_settle]. *)
Definition sync_transition_outbox_and_settle (update : tx Z) (id : string) (settled_at : instant)
    (follow_ups : list (tx unit)) : tx Z :=
  rowcount ← update;
  when (rowcount =? 1)
    (run_ops follow_ups ;;
     event ← get (fun d => (fun r : Row => event_id r) <$> find_outbox d id);
     match event with
     | None => raise IntegrityError
     | Some e => settle_outbox_content_dependency id e settled_at
     end) ;;
  mret rowcount.

(** [sync_write_with_followups]. *)
Definition sync_write_with_followups (update : tx Z) (follow_ups : list (tx unit)) : tx Z :=
  rowcount ← update;
  when (0 <? rowcount) (run_ops follow_ups) ;;
  mret rowcount.

Definition update_outbox_status (now : instant) (id : string) (new_status : string)
    (a : transition_args) (d : db) : result exc bool * db :=
  match parse_outbox_status new_status with
  | None => (Raise (ValueError "Unknown outbox status"), d)
  | Some st =>
      if bool_decide (ta_next_attempt_at a = None) && bool_decide (st = RetryWait)
      then (Raise (ValueError "next_attempt_at is required"), d)
      else
        let update := update_outbox (transition_guard a id) (transition_state a st now) in
        let follow_ups := outbox_diagnostic_ops (transition_diagnostics a st) now id in
        let run :=
          if outbox_terminal st
          then sync_transition_outbox_and_settle update id now
                 (follow_ups ++ [retire_outbox_snapshot id])
          else sync_write_with_followups update follow_ups in
        match wrap_db_error (atomically run d) with
        | (Ok rowcount, d') => (Ok (rowcount =? 1), d')
        | (Raise e, d') => (Raise e, d')
        end
  end.

Definition mark_outbox_sent (now : instant) (id : string) (receipt : option string)
    (attempt : option Z) (expected_worker : option string) : db -> result exc bool * db :=
  update_outbox_status now id "sent"
    {| ta_allowed_from := Some [InProgress; Queued]; ta_receipt_id := receipt;
       ta_attempt_number := attempt; ta_failure_kind := None; ta_failure_kind_detail := None;
       ta_error_summary := None; ta_next_attempt_at := None;
       ta_expected_worker_id := expected_worker |}.

Definition mark_outbox_queued (now : instant) (id : string) (receipt : option string)
    (attempt : option Z) (expected_worker : option string) : db -> result exc bool * db :=
  update_outbox_status now id "queued"
    {| ta_allowed_from := Some [InProgress]; ta_receipt_id := receipt;
       ta_attempt_number := attempt; ta_failure_kind := None; ta_failure_kind_detail := None;
       ta_error_summary := None; ta_next_attempt_at := None;
       ta_expected_worker_id := expected_worker |}.

Definition mark_outbox_retry_wait (now : instant) (id : string) (next : instant)
    (receipt kind detail error : option string) (attempt : option Z)
    (expected_worker : option string) : db -> result exc bool * db :=
  update_outbox_status now id "retry_wait"
    {| ta_allowed_from := Some [InProgress]; ta_receipt_id := receipt;
       ta_attempt_number := attempt; ta_failure_kind := kind; ta_failure_kind_detail := detail;
       ta_error_summary := error; ta_next_attempt_at := Some next;
       ta_expected_worker_id := expected_worker |}.

Definition mark_outbox_dead_lettered (now : instant) (id : string)
    (receipt kind detail error : option string) (attempt : option Z)
    (expected_worker : option string) : db -> result exc bool * db :=
  update_outbox_status now id "dead_lettered"
    {| ta_allowed_from := Some [InProgress; RetryWait]; ta_receipt_id := receipt;
       ta_attempt_number := attempt; ta_failure_kind := kind; ta_failure_kind_detail := detail;
       ta_error_summary := error; ta_next_attempt_at := None;
       ta_expected_worker_id := expected_worker |}.

Definition mark_outbox_cancelled (now : instant) (id : string)
    (error receipt kind : option string) (attempt : option Z)
    (expected_worker : option string) : db -> result exc bool * db :=
  update_outbox_status now id "cancelled"
    {| ta_allowed_from := Some [Pending; InProgress; RetryWait; Queued]; ta_receipt_id := receipt;
       ta_attempt_number := attempt; ta_failure_kind := kind; ta_failure_kind_detail := None;
       ta_error_summary := error; ta_next_attempt_at := None;
       ta_expected_worker_id := expected_worker |}.

Definition mark_outbox_abandoned (now : instant) (id : string)
    (error receipt kind : option string) (attempt : option Z)
    (expected_worker : option string) : db -> result exc bool * db :=
  update_outbox_status now id "abandoned"
    {| ta_allowed_from := Some [Pending; InProgress; RetryWait; Queued]; ta_receipt_id := receipt;
       ta_attempt_number := attempt; ta_failure_kind := kind; ta_failure_kind_detail := None;
       ta_error_summary := error; ta_next_attempt_at := None;
       ta_expected_worker_id := expected_worker |}.

(** ** Leases *)

Definition owned_by (id worker : string) (r : Row) : bool :=
  bool_decide (outbox_id r = id) && bool_decide (worker_id r = Some worker) &&
  bool_decide (status r = InProgress).

Definition renew_state (lease now : instant) (r : Row) : OutboxState :=
  {| attempt_number := attempt_number r; active_attempt := active_attempt r;
     status := status r; failure_kind := failure_kind r;
     failure_kind_detail := failure_kind_detail r; next_attempt_at := next_attempt_at r;
     updated_at := now; last_attempt_at := last_attempt_at r; locked_at := locked_at r;
     lease_until := Some lease; worker_id := worker_id r; receipt_id := receipt_id r;
     error_summary := error_summary r; dispatch_source := dispatch_source r |}.

Definition renew_outbox_lease (now : instant) (id worker : string) (lease : instant) (d : db)
    : result exc bool * db :=
  match wrap_db_error
          (atomically (update_outbox (fun _ => owned_by id worker) (renew_state lease now)) d) with
  | (Ok _, d') => (Ok (existsb (owned_by id worker) (outbox d')), d')
  | (Raise e, d') => (Raise e, d')
  end.

Definition release_state (st : OutboxStatus) (now : instant) (r : Row) : OutboxState :=
  {| attempt_number := attempt_number r; active_attempt := active_attempt r;
     status := st; failure_kind := failure_kind r;
     failure_kind_detail := failure_kind_detail r; next_attempt_at := next_attempt_at r;
     updated_at := now; last_attempt_at := last_attempt_at r; locked_at := None;
     lease_until := None; worker_id := None; receipt_id := receipt_id r;
     error_summary := error_summary r; dispatch_source := dispatch_source r |}.

Definition release_outbox_claim (now : instant) (id worker release_status : string) (d : db)
    : result exc unit * db :=
  if negb (is_claimable_outbox_status release_status)
  then (Raise (ValueError "Invalid release_status"), d)
  else match parse_outbox_status release_status with
  | None => (Raise (ValueError "Invalid release_status"), d)
  | Some st =>
      match wrap_db_error (atomically (update_outbox
              (fun _ r => owned_by id worker r && bool_decide (active_attempt r = None))
              (release_state st now)) d) with
      | (Ok _, d') => (Ok tt, d')
      | (Raise e, d') => (Raise e, d')
      end
  end.

(** ** Atomic finalization *)

Record DeferredHandoffFinalization : Type := {
  dh_receipt : DeliveryReceipt;
  dh_native_ref : option NativeMessageRef
}.

(** [DeferredHandoffFinalization.__post_init__]. *)
Definition DeferredHandoffFinalization_init (c : DeferredHandoffFinalization) : result exc unit :=
  let r := dh_receipt c in
  if match dh_native_ref c with
     | Some n => negb (bool_decide (nr_direction n = "outbound")) | None => false end
  then Raise (ValueError "requires an outbound native ref")
  else if negb (bool_decide (rc_receipt_kind r = Some "attempt")) ||
          negb (bool_decide (rc_status r = "sent"))
  then Raise (ValueError "requires sent attempt evidence")
  else if negb (truthy (rc_receipt_id r)) then Raise (ValueError "requires receipt_id")
  else if negb (opt_truthy (rc_outbox_id r)) then Raise (ValueError "requires outbox_id")
  else if negb (identity_complete (receipt_identity r))
  then Raise (ValueError "requires complete delivery identity")
  else if rc_attempt_number r <? 1 then Raise (ValueError "attempt_number must be >= 1")
  else match dh_native_ref c with
  | None => if bool_decide (rc_adapter_message_id r <> None)
            then Raise (ValueError "adapter_message_id requires a native_ref") else Ok tt
  | Some n =>
      if bool_decide (rc_adapter_message_id r = None)
      then Raise (ValueError "native_ref requires adapter_message_id")
      else if negb (bool_decide (nr_event_id n = rc_event_id r))
      then Raise (ValueError "native_ref.event_id must match receipt.event_id")
      else if negb (bool_decide (nr_adapter n = rc_target_adapter r))
      then Raise (ValueError "native_ref.adapter must match receipt.target_adapter")
      else if negb (bool_decide (Some (nr_native_message_id n) = rc_adapter_message_id r))
      then Raise (ValueError "native_ref.native_message_id must match")
      else Ok tt
  end.

(** The identity and attempt part of both finalization WHERE clauses. *)
Definition finalize_guard (i : DeliveryIdentity) (id : string) (attempt : Z) (r : Row) : bool :=
  bool_decide (outbox_id r = id) && bool_decide (event_id r = id_event_id i) &&
  bool_decide (delivery_plan_id r = id_delivery_plan_id i) &&
  bool_decide (target_adapter r = id_target_adapter i) &&
  bool_decide (target_channel r = id_target_channel i) && (attempt =? generation r) &&
  elem (status r) [Queued; InProgress].

(** SET of [_FINALIZE_QUEUED_OUTBOX_SENT]. *)
Definition finalize_sent_state (at_ : instant) (receipt : string) (r : Row) : OutboxState :=
  {| attempt_number := generation r; active_attempt := None; status := Sent;
     failure_kind := None; failure_kind_detail := None; next_attempt_at := None;
     updated_at := at_; last_attempt_at := Some at_; locked_at := None; lease_until := None;
     worker_id := None; receipt_id := Some receipt; error_summary := None;
     dispatch_source := dispatch_source r |}.

(** [sync_finalize_deferred_handoff]: committed, and the conflicting event. *)
Definition sync_finalize_deferred_handoff (c : DeferredHandoffFinalization)
    (row : DeliveryReceipt) : tx (bool * option string) := fun d =>
  let r := dh_receipt c in
  let id := opt_or_empty (rc_outbox_id r) in
  let i := receipt_identity r in
  let existing := match dh_native_ref c with
                  | Some n => resolve_native_ref d (native_ref_identity n)
                  | None => None
                  end in
  let conflict := match existing, dh_native_ref c with
  | Some e, Some n =>
      if negb (bool_decide (e = nr_event_id n)) then Some e else None
  | _, _ => None
  end in
  match conflict with
  | Some e => Ok ((false, Some e), d)
  | None =>
      match update_outbox (fun _ => finalize_guard i id (rc_attempt_number r))
              (finalize_sent_state (rc_created_at r) (rc_receipt_id r)) d with
      | Raise e => Raise e
      | Ok (rowcount, d1) =>
          if negb (rowcount =? 1) then Ok ((false, None), d)
          else
            (match dh_native_ref c with
             | Some n => when (bool_decide (existing = None)) (insert_native_ref n)
             | None => mret tt
             end ;;
             insert_receipt row ;;
             run_ops (receipt_diagnostic_ops r) ;;
             settle_outbox_content_dependency id (id_event_id i) (rc_created_at r) ;;
             retire_outbox_snapshot id ;;
             mret (true, None)) d1
      end
  end.

Definition finalize_deferred_handoff (c : DeferredHandoffFinalization) (d : db)
    : result exc bool * db :=
  match DeferredHandoffFinalization_init c with
  | Raise e => (Raise e, d)
  | Ok _ =>
  match receipt_insert_params (dh_receipt c) with
  | Raise e => (Raise e, d)
  | Ok row =>
      match wrap_db_error (atomically (sync_finalize_deferred_handoff c row) d) with
      | (Ok (_, Some _), d') => (Raise (StorageError "Native identity already maps"), d')
      | (Ok (committed, None), d') => (Ok committed, d')
      | (Raise e, d') => (Raise e, d')
      end
  end end.

Record TerminalOutboxFinalization : Set := {
  tf_lifecycle_receipt : DeliveryReceipt;
  tf_attempt_receipt : option DeliveryReceipt;
  tf_expected_worker_id : option string
}.

(** [TerminalOutboxFinalization.__post_init__]. *)
Definition TerminalOutboxFinalization_init (c : TerminalOutboxFinalization) : result exc unit :=
  let r := tf_lifecycle_receipt c in
  if negb (bool_decide (rc_receipt_kind r = Some "lifecycle"))
  then Raise (ValueError "requires lifecycle evidence")
  else if negb (elem (rc_status r) ["dead_lettered"; "cancelled"; "abandoned"])
  then Raise (ValueError "requires an error-terminal lifecycle status")
  else if negb (opt_truthy (rc_outbox_id r)) then Raise (ValueError "requires outbox_id")
  else if negb (truthy (rc_receipt_id r)) then Raise (ValueError "requires receipt_id")
  else if negb (identity_complete (receipt_identity r))
  then Raise (ValueError "requires complete delivery identity")
  else if rc_attempt_number r <? 1 then Raise (ValueError "attempt_number must be >= 1")
  else match tf_attempt_receipt c with
  | None => Ok tt
  | Some a =>
      if negb (bool_decide (rc_receipt_kind a = Some "attempt"))
      then Raise (ValueError "attempt_receipt must be attempt evidence")
      else if negb (truthy (rc_receipt_id a)) then Raise (ValueError "requires receipt_id")
      else if negb (bool_decide (rc_status a = "failed"))
      then Raise (ValueError "terminal attempt_receipt must have status='failed'")
      else if negb (bool_decide (receipt_identity a = receipt_identity r)) ||
              negb (bool_decide (rc_outbox_id a = rc_outbox_id r)) ||
              negb (rc_attempt_number a =? rc_attempt_number r) ||
              negb (bool_decide (rc_parent_receipt_id r = Some (rc_receipt_id a)))
      then Raise (ValueError "must be linked to the same delivery attempt")
      else Ok tt
  end.

(** SET of [_FINALIZE_OUTBOX_TERMINAL]. *)
Definition finalize_terminal_state (st : OutboxStatus) (kind : option string) (at_ : instant)
    (receipt : string) (r : Row) : OutboxState :=
  {| attempt_number := generation r; active_attempt := None; status := st;
     failure_kind := kind; failure_kind_detail := None; next_attempt_at := None;
     updated_at := at_; last_attempt_at := last_attempt_at r; locked_at := None;
     lease_until := None; worker_id := None; receipt_id := Some receipt; error_summary := None;
     dispatch_source := dispatch_source r |}.

Definition finalize_error_summary (r : DeliveryReceipt) : string :=
  opt_or_empty ((String.substring 0 512) <$> opt_or_none (rc_error r)).

(** [sync_finalize_outbox_terminal]. *)
Definition sync_finalize_outbox_terminal (c : TerminalOutboxFinalization) (st : OutboxStatus)
    (row : DeliveryReceipt) (attempt_row : option DeliveryReceipt) : tx bool := fun d =>
  let r := tf_lifecycle_receipt c in
  let id := opt_or_empty (rc_outbox_id r) in
  let i := receipt_identity r in
  match update_outbox
          (fun _ o => finalize_guard i id (rc_attempt_number r) o &&
             match tf_expected_worker_id c with
             | None => true | Some w => bool_decide (worker_id o = Some w) end)
          (finalize_terminal_state st (rc_failure_kind r) (rc_created_at r) (rc_receipt_id r)) d with
  | Raise e => Raise e
  | Ok (rowcount, d1) =>
      if negb (rowcount =? 1) then Ok (false, d)
      else
        (run_ops (outbox_diagnostic_ops
           [("error_summary", Some (finalize_error_summary r));
            ("failure_kind_detail", Some "")] (rc_created_at r) id) ;;
         match tf_attempt_receipt c, attempt_row with
         | Some a, Some arow => insert_receipt arow ;; run_ops (receipt_diagnostic_ops a)
         | _, _ => mret tt
         end ;;
         insert_receipt row ;;
         run_ops (receipt_diagnostic_ops r) ;;
         settle_outbox_content_dependency id (id_event_id i) (rc_created_at r) ;;
         retire_outbox_snapshot id ;;
         mret true) d1
  end.

Definition opt_receipt_params (r : option DeliveryReceipt) : result exc (option DeliveryReceipt) :=
  match r with
  | None => Ok None
  | Some a => Some <$> receipt_insert_params a
  end.

Definition finalize_outbox_terminal (c : TerminalOutboxFinalization) (d : db)
    : result exc bool * db :=
  match TerminalOutboxFinalization_init c with
  | Raise e => (Raise e, d)
  | Ok _ =>
  match receipt_insert_params (tf_lifecycle_receipt c), opt_receipt_params (tf_attempt_receipt c),
        parse_outbox_status (rc_status (tf_lifecycle_receipt c)) with
  | Raise e, _, _ | _, Raise e, _ => (Raise e, d)
  | Ok row, Ok attempt_row, Some st =>
      wrap_db_error (atomically (sync_finalize_outbox_terminal c st row attempt_row) d)
  | _, _, None => (Raise IntegrityError, d)
  end end.
