(* ===== verification/OutboxMaintenance.v ===== *)
(** * Deadline cleanup and operator decisions

    [src/src/medre/core/storage/sqlite/_deadline_cleanup.py]: the sweep that
    retires work whose deadline elapsed before anything was sent, and
    [_operator_decision.py]: cancellation of unstarted work and the recording
    of exact-target decisions.  With the outbox's own operations these are all
    the statements that change [delivery_outbox].

    The sweep's cursor ([_medre_schema_meta]) and the decision table are
    explicit state beside the database; [None] is the cursor [["", ""]]. *)

From S2P Require Import Prelude.
From S2P Require Import Json.
From S2P Require Import DeliveryState.
From S2P Require Import IsoTime.
From S2P Require Import Delivery.
From S2P Require Import Store.
From S2P Require Import Outbox.

Open Scope string_scope.
Open Scope list_scope.
Open Scope Z_scope.

(** ** Deadline cleanup *)

Definition DEADLINE_RETIREMENT_FAILURE_KIND : string := "deadline_exceeded".
Definition DEADLINE_RETIREMENT_SUMMARY : string :=
  "Effective delivery deadline elapsed before dispatch; unstarted work retired".
Definition DEADLINE_SWEEP_MAX_LIMIT : Z := 500.

(** No claim, no reservation and no lease. *)
Definition unclaimed (r : Row) : bool :=
  bool_decide (active_attempt r = None) && bool_decide (worker_id r = None) &&
  bool_decide (locked_at r = None) && bool_decide (lease_until r = None).

Definition unstarted (r : Row) : bool := elem (status r) [Pending; RetryWait] && unclaimed r.

Definition sweep_cursor : Set := option (instant * string).

Definition after_cursor (cursor : sweep_cursor) (r : Row) : bool :=
  match cursor with
  | None => true
  | Some (t, i) => (t <? created_at r) || ((created_at r =? t) && negb (String.leb (outbox_id r) i))
  end.

(** [_CANDIDATES_SQL]. *)
Definition sweep_candidates (cursor : sweep_cursor) (size : Z) (d : db) : list Row :=
  sql_limit size 0 (sorted_by created_order
    (filter (fun r => unstarted r && after_cursor cursor r = true) (outbox d))).

(** [_RETIRE_CAS_SQL] on the row the page showed. *)
Definition retire_guard (seen : Row) (d : db) (r : Row) : bool :=
  bool_decide (outbox_id r = outbox_id seen) && bool_decide (status r = status seen) &&
  (attempt_number r =? attempt_number seen) && (updated_at r =? updated_at seen) &&
  unclaimed r && no_newer_generation d r.

Definition retire_state (observed : instant) (r : Row) : OutboxState :=
  {| attempt_number := attempt_number r; active_attempt := active_attempt r; status := Abandoned;
     failure_kind := Some DEADLINE_RETIREMENT_FAILURE_KIND; failure_kind_detail := None;
     next_attempt_at := None; updated_at := observed; last_attempt_at := last_attempt_at r;
     locked_at := None; lease_until := None; worker_id := None; receipt_id := receipt_id r;
     error_summary := None; dispatch_source := dispatch_source r |}.

(** The bounds of a row; [None] when one of them cannot be read. *)
Definition deadline_bounds (event id : string) (d : db) : option (list instant) :=
  let ceiling := od_get event (access_policies d) in
  let dependency := List.find (fun p => bool_decide (dp_event_id p = event) &&
    bool_decide (dp_owner_kind p = "outbox") && bool_decide (dp_owner_id p = id)) (dependencies d) in
  let context :=
    match List.find (fun s => bool_decide (sn_outbox_id s = id)) (snapshots d) with
    | Some s => sn_context s
    | None => match find_outbox d id with Some r => metadata r | None => [] end
    end in
  let known := option_list ceiling ++ option_list (dependency ≫= dp_deadline) in
  match frozen_plan_deadline context with
  | Raise _ => None
  | Ok None => Some known
  | Ok (Some text) => (fun t => known ++ [t]) <$> instant_of_text text
  end.

Record DeadlineRetirement : Set := {
  rt_outbox_id : string;
  rt_event_id : string;
  rt_attempt_number : Z;
  rt_prior_status : OutboxStatus;
  rt_effective_deadline : instant;
  rt_retired_at : instant
}.

(** The compare-and-set of one row and what it settles; did it match? *)
Definition retire_row (observed : instant) (seen : Row) : tx bool :=
  rowcount ← update_outbox (retire_guard seen) (retire_state observed);
  if negb (rowcount =? 1) then mret false
  else
    settle_outbox_content_dependency (outbox_id seen) (event_id seen) observed ;;
    retire_outbox_snapshot (outbox_id seen) ;;
    run_ops (outbox_diagnostic_ops
      [("failure_kind_detail", Some ""); ("error_summary", Some DEADLINE_RETIREMENT_SUMMARY)]
      observed (outbox_id seen)) ;;
    mret true.

Record sweep : Type := {
  sw_retired : list DeadlineRetirement;
  sw_examined : Z;
  sw_cursor : sweep_cursor
}.

(** One row of a page. *)
Definition sweep_row (observed : instant) (seen : Row) (s : sweep) : tx sweep :=
  bounds ← get (deadline_bounds (event_id seen) (outbox_id seen));
  let s' := {| sw_retired := sw_retired s; sw_examined := sw_examined s + 1;
               sw_cursor := Some (created_at seen, outbox_id seen) |} in
  match min_instants (default [] bounds) with
  | None => mret s'
  | Some effective =>
      if observed <? effective then mret s'
      else
        matched ← retire_row observed seen;
        mret (if (matched : bool)
              then {| sw_retired := sw_retired s ++
                        [{| rt_outbox_id := outbox_id seen; rt_event_id := event_id seen;
                            rt_attempt_number := attempt_number seen; rt_prior_status := status seen;
                            rt_effective_deadline := effective; rt_retired_at := observed |}];
                      sw_examined := sw_examined s'; sw_cursor := sw_cursor s' |}
              else s')
  end.

(** The rows of a page until [limit] are retired. *)
Fixpoint sweep_page (observed : instant) (limit : Z) (page : list Row) (s : sweep) : tx sweep :=
  match page with
  | [] => mret s
  | seen :: rest =>
      s' ← sweep_row observed seen s;
      if limit <=? Z.of_nat (length (sw_retired s')) then mret s'
      else sweep_page observed limit rest s'
  end.

(** [while len(retired) < limit and examined < budget].  Every page that is
    not the last one examines a row, so [budget] rounds are enough. *)
Fixpoint sweep_pages (fuel : nat) (observed : instant) (limit budget : Z) (s : sweep) : tx sweep :=
  match fuel with
  | O => mret s
  | S fuel' =>
      if negb ((Z.of_nat (length (sw_retired s)) <? limit) && (sw_examined s <? budget)) then mret s
      else
        let size := Z.min 100 (budget - sw_examined s) in
        let rewound s := {| sw_retired := sw_retired s; sw_examined := sw_examined s; sw_cursor := None |} in
        page ← get (sweep_candidates (sw_cursor s) size);
        match last (page : list Row) with
        | None => mret (rewound s)
        | Some final =>
            s' ← sweep_page observed limit page s;
            if (Z.of_nat (length page) <? size) &&
               bool_decide (snd <$> sw_cursor s' = Some (outbox_id final))
            then mret (rewound s')
            else sweep_pages fuel' observed limit budget s'
        end
  end.

Definition sweep_budget (limit : Z) : Z := Z.max 25 limit.

Definition retire_expired_unstarted_outbox (observed : instant) (limit : Z) (cursor : sweep_cursor) (d : db)
    : result exc (list DeadlineRetirement) * (sweep_cursor * db) :=
  if negb ((1 <=? limit) && (limit <=? DEADLINE_SWEEP_MAX_LIMIT))
  then (Raise (ValueError "The deadline cleanup limit must be an integer between 1 and 500"), (cursor, d))
  else match wrap_db_error (atomically
    (sweep_pages (Z.to_nat (sweep_budget limit)) observed limit (sweep_budget limit)
       {| sw_retired := []; sw_examined := 0; sw_cursor := cursor |}) d) with
  | (Ok s, d') => (Ok (sw_retired s), (sw_cursor s, d'))
  | (Raise e, d') => (Raise e, (cursor, d'))
  end.

(** ** Operator decisions *)

(** Refusals are [OperatorDecisionRefused], a [ValueError]. *)
Definition DECISION_ID_REBOUND : exc := ValueError "Decision ID already binds another request".
Definition EXACT_TARGET_GONE : exc := ValueError "Exact destination no longer exists".
Definition OBSERVATION_STALE : exc := ValueError "Stale observed state; nothing decided".
Definition COMPETING_GENERATION : exc := ValueError "A competing delivery generation exists".
Definition CONCURRENT_DECISION_CHANGE : exc := ValueError "Concurrent attempt changed; nothing decided".
Definition ACTIVE_NATIVE_UNDECIDABLE : exc :=
  ValueError "In-progress, queued or uncertain native work is not decidable by this authority".
Definition TERMINAL_REOPEN_REFUSED : exc :=
  ValueError "Reopening terminal failed or dead-lettered work requires a separate send-capable authority".
Definition SETTLED_TARGET_UNDECIDABLE : exc :=
  ValueError "Completed or cancelled delivery work is not decidable by this authority".
Definition STALE_CANCELLATION : exc := ValueError "Stale generation or active attempt; nothing cancelled".
Definition CONCURRENT_CANCELLATION : exc := ValueError "Concurrent attempt changed; nothing cancelled".

Definition EXACT_TARGET_DECISION_ACTIONS : list string := ["resume_scheduled"; "resolve_uncertain"].

(** A request about one row as the operator saw it: both decision classes,
    with the action of [CancelUnstartedDecision] being [cancel_unstarted].  The
    observed timestamp is the instant of its text, as everywhere in the store. *)
Record decision : Set := {
  dn_decision_id : string;
  dn_actor_id : string;
  dn_action : string;
  dn_identity : DeliveryIdentity;
  dn_outbox_id : string;
  dn_expected_generation : Z;
  dn_expected_status : string;
  dn_expected_updated_at : instant
}.

Definition bounded_text (s : string) : bool :=
  truthy (py_strip s) && (Z.of_nat (String.length s) <=? 512).

(** [_validate_decision_fields]. *)
Definition validate_decision_fields (n : decision) : result exc unit :=
  if negb (forallb bounded_text [dn_decision_id n; dn_actor_id n; dn_outbox_id n])
  then Raise (ValueError "must be a non-empty bounded string")
  else if negb (identity_complete (dn_identity n))
  then Raise (ValueError "A complete event/plan/adapter identity is required")
  else if negb (forallb bounded_text [id_event_id (dn_identity n); id_delivery_plan_id (dn_identity n);
                                      id_target_adapter (dn_identity n)])
  then Raise (ValueError "Delivery identity must contain bounded non-empty strings")
  else if match id_target_channel (dn_identity n) with
          | Some c => 512 <? Z.of_nat (String.length c) | None => false end
  then Raise (ValueError "Delivery channel must be bounded")
  else Ok tt.

(** The class has no action of its own: it stands for the constant the
    transaction records, so a value with another action is not one. *)
Definition CancelUnstartedDecision_init (n : decision) : result exc unit :=
  _ ← validate_decision_fields n;
  if negb (elem (dn_expected_status n) ["pending"; "retry_wait"])
  then Raise (ValueError "Only pending or retry_wait work can be cancelled")
  else if dn_expected_generation n <? 0 then Raise (ValueError "Expected generation must be nonnegative")
  else if negb (bool_decide (dn_action n = "cancel_unstarted"))
  then Raise (ValueError "not a cancellation")
  else Ok tt.

Definition ExactTargetDecision_init (n : decision) : result exc unit :=
  _ ← validate_decision_fields n;
  if negb (elem (dn_action n) EXACT_TARGET_DECISION_ACTIONS)
  then Raise (ValueError "action must be one of the frozen exact-target decision actions")
  else if negb (bounded_text (dn_expected_status n))
  then Raise (ValueError "Expected status must be a non-empty bounded string")
  else if dn_expected_generation n <? 0 then Raise (ValueError "Expected generation must be nonnegative")
  else Ok tt.

(** A row of [operator_delivery_decisions]. *)
Record recorded_decision : Set := { rd_request : decision; rd_recorded_at : instant }.

Definition row_identity (r : Row) : DeliveryIdentity :=
  {| id_event_id := event_id r; id_delivery_plan_id := delivery_plan_id r;
     id_target_adapter := target_adapter r; id_target_channel := normalized_channel (target_channel r) |}.

Definition competing_generation (n : decision) (d : db) : bool :=
  existsb (fun r : Row =>
    bool_decide (row_identity r = dn_identity n) && negb (bool_decide (outbox_id r = dn_outbox_id n)) &&
    (dn_expected_generation n <=? generation r)) (outbox d).

Definition as_expected (n : decision) (r : Row) : bool :=
  (attempt_number r =? dn_expected_generation n) && bool_decide (outbox_str (status r) = dn_expected_status n) &&
  (updated_at r =? dn_expected_updated_at n).

Definition cancel_guard (n : decision) (d : db) (r : Row) : bool :=
  bool_decide (outbox_id r = dn_outbox_id n) && bool_decide (active_attempt r = None) && as_expected n r.

Definition cancel_state (now : instant) (r : Row) : OutboxState :=
  {| attempt_number := attempt_number r; active_attempt := active_attempt r; status := Cancelled;
     failure_kind := failure_kind r; failure_kind_detail := failure_kind_detail r; next_attempt_at := None;
     updated_at := now; last_attempt_at := last_attempt_at r; locked_at := locked_at r;
     lease_until := lease_until r; worker_id := worker_id r; receipt_id := receipt_id r;
     error_summary := error_summary r; dispatch_source := dispatch_source r |}.

(** [_sync_cancel_unstarted] on the outbox, for a decision not recorded yet. *)
Definition cancel_unstarted (now : instant) (n : decision) : tx unit :=
  row ← get (fun d => find_outbox d (dn_outbox_id n));
  match (row : option Row) with
  | None => raise EXACT_TARGET_GONE
  | Some r =>
      if negb (bool_decide (row_identity r = dn_identity n)) then raise EXACT_TARGET_GONE
      else if negb (unclaimed r && as_expected n r) then raise STALE_CANCELLATION
      else
        competing ← get (competing_generation n);
        if (competing : bool) then raise COMPETING_GENERATION
        else
          rowcount ← update_outbox (cancel_guard n) (cancel_state now);
          if negb (rowcount =? 1) then raise CONCURRENT_CANCELLATION
          else
            settle_outbox_content_dependency (dn_outbox_id n) (id_event_id (dn_identity n)) now ;;
            retire_outbox_snapshot (dn_outbox_id n)
  end.

(** The foreign key and CHECK constraints of the decision table. *)
Definition record_decision (n : decision) : tx unit := fun d =>
  if negb (elem (id_event_id (dn_identity n)) (canonical_events d)) then Raise ForeignKeyError
  else if negb (elem (dn_action n) ["cancel_unstarted"; "resolve_uncertain"; "resume_scheduled"] &&
                elem (dn_expected_status n) ["pending"; "retry_wait"] && (0 <=? dn_expected_generation n))
  then Raise IntegrityError
  else Ok (tt, d).

Definition find_decision (id : string) (table : list recorded_decision) : option recorded_decision :=
  List.find (fun q => bool_decide (dn_decision_id (rd_request q) = id)) table.

#[export] Instance decision_eq_dec : EqDecision decision.
Proof. solve_decision. Defined.

(** A decision identifier is an idempotency key: a repeated request changes
    nothing, another request under the same identifier is refused. *)
Definition decide_once (now : instant) (n : decision) (run : tx unit) (table : list recorded_decision) (d : db)
    : result exc bool * (list recorded_decision * db) :=
  match find_decision (dn_decision_id n) table with
  | Some old => (if bool_decide (rd_request old = n) then Ok false else Raise DECISION_ID_REBOUND, (table, d))
  | None =>
      match wrap_db_error (atomically (run ;; record_decision n) d) with
      | (Ok _, d') => (Ok true, (table ++ [{| rd_request := n; rd_recorded_at := now |}], d'))
      | (Raise e, d') => (Raise e, (table, d'))
      end
  end.

Definition cancel_unstarted_delivery (now : instant) (n : decision) (table : list recorded_decision) (d : db)
    : result exc bool * (list recorded_decision * db) :=
  match CancelUnstartedDecision_init n with
  | Raise e => (Raise e, (table, d))
  | Ok _ => decide_once now n (cancel_unstarted now n) table d
  end.

(** [_sync_exact_target_decision]: checks only, the outbox is left alone. *)
Definition exact_target (n : decision) : tx unit :=
  row ← get (fun d => find_outbox d (dn_outbox_id n));
  match (row : option Row) with
  | None => raise EXACT_TARGET_GONE
  | Some r =>
      if negb (bool_decide (row_identity r = dn_identity n)) then raise EXACT_TARGET_GONE
      else if bool_decide (status r = DeadLettered) then raise TERMINAL_REOPEN_REFUSED
      else if elem (status r) [Sent; Cancelled] then raise SETTLED_TARGET_UNDECIDABLE
      else if negb (unstarted r) then raise ACTIVE_NATIVE_UNDECIDABLE
      else if negb (as_expected n r) then raise OBSERVATION_STALE
      else
        competing ← get (competing_generation n);
        if (competing : bool) then raise COMPETING_GENERATION
        else
          still ← get (fun d => existsb (fun r : Row =>
            bool_decide (outbox_id r = dn_outbox_id n) && as_expected n r && unclaimed r) (outbox d));
          if negb still then raise CONCURRENT_DECISION_CHANGE else mret tt
  end.

Definition record_exact_target_decision (now : instant) (n : decision) (table : list recorded_decision) (d : db)
    : result exc bool * (list recorded_decision * db) :=
  match ExactTargetDecision_init n with
  | Raise e => (Raise e, (table, d))
  | Ok _ => decide_once now n (exact_target n) table d
  end.

Definition list_operator_decisions (event : string) (table : list recorded_decision)
    : result exc (list recorded_decision) :=
  if negb (truthy event) then Raise (ValueError "A non-empty event identifier is required")
  else Ok (sorted_by (on_key (fun q => (rd_recorded_at q, dn_decision_id (rd_request q)))
                        (lex_leb Z.leb String.leb))
             (filter (fun q => id_event_id (dn_identity (rd_request q)) = event) table)).
