(* ===== verification/Receipts.v ===== *)
(** * The receipt log

    [src/src/medre/core/storage/sqlite/_receipt.py]: the reads of the
    append-only delivery receipt log with the separated diagnostic text put
    back ([_evidence_diagnostics.py]), the status query of
    [statements.py], and the due-retry selection.  Every read is modelled with
    [metadata_only=False]. *)

From S2P Require Import Prelude.
From S2P Require Import DeliveryState.
From S2P Require Import Delivery.
From S2P Require Import Store.
From S2P Require Import Outbox.

Open Scope string_scope.
Open Scope list_scope.
Open Scope Z_scope.

(** ** Reading a row *)

Definition latest_receipt_diagnostic (d : db) (id field : string) : option string :=
  dg_text <$> last (filter (fun g =>
    dg_family g = "receipt" /\ dg_row_id g = id /\ dg_field g = field) (diagnostics d)).

(** Receipts are immutable evidence: an inline text takes precedence. *)
Definition coalesce_receipt_text (d : db) (id field : string) (inline : option string)
    : option string :=
  if opt_truthy inline then inline
  else match latest_receipt_diagnostic d id field with
  | Some v => or_none v
  | None => inline
  end.

Definition with_texts (r : DeliveryReceipt) (error capability_reason rendering_evidence : option string)
    : DeliveryReceipt :=
  {| rc_sequence := rc_sequence r; rc_receipt_id := rc_receipt_id r; rc_event_id := rc_event_id r;
     rc_delivery_plan_id := rc_delivery_plan_id r; rc_target_adapter := rc_target_adapter r;
     rc_target_channel := rc_target_channel r; rc_route_id := rc_route_id r;
     rc_status := rc_status r; rc_receipt_kind := rc_receipt_kind r; rc_error := error;
     rc_failure_kind := rc_failure_kind r; rc_capability_level := rc_capability_level r;
     rc_capability_field := rc_capability_field r; rc_capability_reason := capability_reason;
     rc_delivery_strategy := rc_delivery_strategy r;
     rc_adapter_message_id := rc_adapter_message_id r; rc_next_retry_at := rc_next_retry_at r;
     rc_attempt_number := rc_attempt_number r; rc_parent_receipt_id := rc_parent_receipt_id r;
     rc_source := rc_source r; rc_replay_run_id := rc_replay_run_id r;
     rc_retry_max_attempts := rc_retry_max_attempts r; rc_retry_jitter := rc_retry_jitter r;
     rc_rendering_evidence := rendering_evidence; rc_outbox_id := rc_outbox_id r;
     rc_confirmation_level := rc_confirmation_level r; rc_created_at := rc_created_at r |}.

(** [_coalesce_evidence_diagnostics("receipt", ...)] on one row. *)
Definition coalesce_receipt (d : db) (r : DeliveryReceipt) : DeliveryReceipt :=
  with_texts r
    (coalesce_receipt_text d (rc_receipt_id r) "error" (rc_error r))
    (coalesce_receipt_text d (rc_receipt_id r) "capability_reason" (rc_capability_reason r))
    (coalesce_receipt_text d (rc_receipt_id r) "rendering_evidence" (rc_rendering_evidence r)).

(** [_row_to_receipt] constructs the value, which validates it again. *)
Definition row_to_receipt (r : DeliveryReceipt) : result exc DeliveryReceipt := DeliveryReceipt_init r.

Definition read_receipt (d : db) (r : DeliveryReceipt) : result exc DeliveryReceipt :=
  row_to_receipt (coalesce_receipt d r).

Definition read_receipts (d : db) (rows : list DeliveryReceipt) : result exc (list DeliveryReceipt) :=
  mapM (read_receipt d) rows.

(** ** Lists *)

Definition by_sequence : DeliveryReceipt -> DeliveryReceipt -> bool := on_key rc_sequence Z.leb.

Definition by_attempt : DeliveryReceipt -> DeliveryReceipt -> bool :=
  on_key (fun r => (rc_attempt_number r, rc_sequence r)) (lex_leb Z.leb Z.leb).

(** [event_id = ? AND delivery_plan_id = ? AND target_adapter = ? AND
    target_channel IS ?]. *)
Definition of_delivery (i : DeliveryIdentity) (r : DeliveryReceipt) : Prop :=
  rc_event_id r = id_event_id i /\ rc_delivery_plan_id r = id_delivery_plan_id i /\
  rc_target_adapter r = id_target_adapter i /\
  rc_target_channel r = opt_or_none (id_target_channel i).

#[export] Instance of_delivery_dec i r : Decision (of_delivery i r).
Proof. unfold of_delivery. apply _. Defined.

Definition list_receipts_for_delivery (d : db) (i : DeliveryIdentity)
    : result exc (list DeliveryReceipt) :=
  if negb (identity_complete i)
  then Raise (ValueError "receipt history requires a complete DeliveryIdentity")
  else read_receipts d (sorted_by by_attempt (filter (of_delivery i) (receipts d))).

Definition list_receipts_for_outbox (d : db) (id : string) : result exc (list DeliveryReceipt) :=
  if negb (truthy (py_strip id))
  then Raise (ValueError "receipt outbox history requires a non-empty outbox_id")
  else read_receipts d (sorted_by by_attempt (filter (fun r => rc_outbox_id r = Some id) (receipts d))).

Definition list_receipts_by_replay_run (d : db) (run : string) : result exc (list DeliveryReceipt) :=
  match normalize_replay_run_id (Some run) with
  | None => Raise (ValueError "replay-run receipt lookup requires a non-empty run ID")
  | Some i => read_receipts d
      (sorted_by by_sequence (filter (fun r => rc_replay_run_id r = Some i) (receipts d)))
  end.

Definition list_receipts_for_event (d : db) (event : string) : result exc (list DeliveryReceipt) :=
  read_receipts d (sorted_by by_sequence (filter (fun r => rc_event_id r = event) (receipts d))).

Definition list_all_receipts (d : db) (limit offset : Z) : result exc (list DeliveryReceipt) :=
  read_receipts d (sql_limit limit offset (sorted_by by_sequence (receipts d))).

(** ** Due retries *)

(** [outbox_id IS NULL OR EXISTS (outbox row committing this receipt)]. *)
Definition pointed_at (d : db) (r : DeliveryReceipt) : bool :=
  match rc_outbox_id r with
  | None => true
  | Some id => existsb (fun o : Row => bool_decide (outbox_id o = id) &&
                          bool_decide (receipt_id o = Some (rc_receipt_id r))) (outbox d)
  end.

Definition retry_due (now : instant) (max_attempts : Z) (d : db) (r : DeliveryReceipt) : bool :=
  bool_decide (rc_status r = "failed") &&
  bool_decide (rc_failure_kind r = Some "adapter_transient") &&
  match rc_next_retry_at r with Some t => t <=? now | None => false end &&
  (rc_attempt_number r <? max_attempts) &&
  pointed_at d r &&
  negb (existsb (fun child => bool_decide (rc_parent_receipt_id child = Some (rc_receipt_id r)) &&
                              bool_decide (rc_source child = "retry")) (receipts d)).

Definition list_due_retry_receipts (d : db) (now : instant) (limit max_attempts : Z)
    : result exc (list DeliveryReceipt) :=
  read_receipts d (sql_limit limit 0
    (sorted_by (on_key (fun r => (rc_next_retry_at r, rc_sequence r)) (lex_leb opt_leb Z.leb))
       (filter (fun r => retry_due now max_attempts d r = true) (receipts d)))).

Definition count_pending_retry (d : db) (now : instant) (max_attempts : Z) : Z :=
  Z.of_nat (length (filter (fun r => retry_due now max_attempts d r = true) (receipts d))).

(** ** The status query *)

(** [JOIN delivery_outbox o ON o.outbox_id = r.outbox_id AND o.receipt_id = r.receipt_id]. *)
Definition commits (o : Row) (r : DeliveryReceipt) : Prop :=
  rc_outbox_id r = Some (outbox_id o) /\ receipt_id o = Some (rc_receipt_id r).

#[export] Instance commits_dec (o : Row) r : Decision (commits o r).
Proof. unfold commits. apply _. Defined.

Definition joined (d : db) (i : DeliveryIdentity) : list (DeliveryReceipt * Row) :=
  filter (fun ro => of_delivery i ro.1 /\ commits ro.2 ro.1)
    (r ← receipts d; o ← outbox d; [(r, o)]).

Definition outbox_current (d : db) (i : DeliveryIdentity) : option DeliveryReceipt :=
  fst <$> max_by (on_key (fun ro : DeliveryReceipt * Row => (attempt_number ro.2, rc_sequence ro.1))
                    (lex_leb Z.leb Z.leb)) (joined d i).

Definition outboxless_current (d : db) (i : DeliveryIdentity) : option DeliveryReceipt :=
  max_by by_sequence (filter (fun r => of_delivery i r /\ rc_outbox_id r = None) (receipts d)).

(** [_DELIVERY_RECEIPT_LATEST_BY_EVENT_CHANNEL]. *)
Definition latest_by_event_channel (d : db) (i : DeliveryIdentity) : option DeliveryReceipt :=
  max_by by_sequence (option_list (outbox_current d i) ++ option_list (outboxless_current d i)).

Definition delivery_status (d : db) (i : DeliveryIdentity) : result exc (option DeliveryReceipt) :=
  if negb (identity_complete i)
  then Raise (ValueError "delivery status requires a complete DeliveryIdentity")
  else match latest_by_event_channel d i with
  | None => Ok None
  | Some row => r ← read_receipt d row; Ok (Some r)
  end.

(** ** Appending *)

Definition text_diagnostic (r : DeliveryReceipt) (field text : string) : Diagnostic :=
  {| dg_family := "receipt"; dg_row_id := rc_receipt_id r; dg_attempt := rc_attempt_number r;
     dg_field := field; dg_text := text; dg_created_at := rc_created_at r |}.

(** The side-table rows of a receipt. *)
Definition receipt_texts (r : DeliveryReceipt) : list Diagnostic :=
  (text_diagnostic r "error" <$> option_list (opt_or_none (rc_error r))) ++
  (text_diagnostic r "capability_reason" <$> option_list (opt_or_none (rc_capability_reason r))) ++
  (text_diagnostic r "rendering_evidence" <$> option_list (opt_or_none (rc_rendering_evidence r))).

Lemma receipt_diagnostic_ops_eq r : receipt_diagnostic_ops r = insert_diagnostic <$> receipt_texts r.
Proof.
  unfold receipt_diagnostic_ops, diagnostic_write_ops, receipt_texts.
  change (DIAGNOSTIC_FIELDS "receipt") with ["error"; "capability_reason"; "rendering_evidence"].
  set (vals := [("error", rc_error r); ("capability_reason", rc_capability_reason r);
                ("rendering_evidence", rc_rendering_evidence r)]).
  assert (od_get "error" vals = Some (rc_error r)) as H1 by reflexivity.
  assert (od_get "capability_reason" vals = Some (rc_capability_reason r)) as H2 by reflexivity.
  assert (od_get "rendering_evidence" vals = Some (rc_rendering_evidence r)) as H3 by reflexivity.
  cbn [omap list_omap]. rewrite H1, H2, H3. clearbody vals. rewrite !fmap_app. unfold opt_or_none.
  destruct (rc_error r) as [e|], (rc_capability_reason r) as [c|], (rc_rendering_evidence r) as [v|];
    cbn [mbind option_bind]; unfold or_none; repeat case_match; simplify_eq; done.
Qed.

Lemma run_diagnostics gs d x d' :
  run_ops (insert_diagnostic <$> gs) d = Ok (x, d') ->
  d' = set_diagnostics d (diagnostics d ++ gs).
Proof.
  revert d. induction gs as [|g gs IH]; intros d; cbn.
  { intros [= _ <-]. rewrite app_nil_r. by destruct d. }
  unfold tx_bind, mbind, insert_diagnostic at 1.
  match goal with |- context [if ?b then _ else _] => destruct b end; [done|].
  intros Hr. apply IH in Hr as ->. cbn. by rewrite <- (assoc (++)).
Qed.

Lemma append_receipt_Ok r d d' :
  append_receipt r d = (Ok tt, d') ->
  exists row, receipt_insert_params r = Ok row /\ receipt_check row = true /\
    rc_receipt_id r ∉ (rc_receipt_id <$> receipts d) /\
    d' = set_diagnostics
           (set_receipts d (receipts d ++ [with_sequence row (Z.of_nat (length (receipts d)) + 1)]))
           (diagnostics d ++ receipt_texts r).
Proof.
  unfold append_receipt. destruct (receipt_insert_params r) as [row|e] eqn:Hp; [|done].
  assert (rc_receipt_id row = rc_receipt_id r) as Hid.
  { unfold receipt_insert_params in Hp. repeat (case_match; [done|]).
    apply bind_Ok in Hp as ([source run] & _ & [= <-]). done. }
  unfold atomically, mbind, tx_bind, insert_receipt.
  match goal with |- context [if ?b then _ else _] => destruct b eqn:Hc end; [done|].
  match goal with |- context [if ?b then _ else _] => destruct b end; [done|].
  rewrite receipt_diagnostic_ops_eq.
  match goal with |- context [run_ops ?ops ?d0] => destruct (run_ops ops d0) as [[[] d1]|e] eqn:Hr end.
  - intros [= <-]. apply run_diagnostics in Hr as ->. exists row. breflect.
    destruct Hc as [Hc1 Hc2]. split_and!; try done. by rewrite <- Hid.
  - destruct e; done.
Qed.

(** *** Reading back *)

Lemma with_provenance_id r r' : DeliveryReceipt_init r = Ok r' ->
  r' = with_provenance r (rc_receipt_kind r') (rc_source r') (rc_replay_run_id r').
Proof.
  unfold DeliveryReceipt_init. repeat (case_match; [done|]). case_match; [|done]. case_match; [done|].
  intros ([source run] & _ & [= <-])%bind_Ok. done.
Qed.

(** Construction looks at the validated columns only. *)
Lemma DeliveryReceipt_init_cong r r1 :
  rc_capability_level r1 = rc_capability_level r -> rc_delivery_strategy r1 = rc_delivery_strategy r ->
  rc_status r1 = rc_status r -> rc_receipt_kind r1 = rc_receipt_kind r ->
  rc_source r1 = rc_source r -> rc_replay_run_id r1 = rc_replay_run_id r ->
  DeliveryReceipt_init r = Ok r -> DeliveryReceipt_init r1 = Ok r1.
Proof.
  intros H1 H2 H3 H4 H5 H6. unfold DeliveryReceipt_init. rewrite H1, H2, H3, H4, H5, H6.
  repeat (case_match; [done|]). case_match; [|done]. case_match; [done|].
  intros ([source run] & Hn & Heq)%bind_Ok. rewrite Hn. cbn. injection Heq as Heq.
  rewrite <- Heq in H4, H5, H6. cbn in H4, H5, H6. f_equal. destruct r1; cbn in *. by subst.
Qed.

(** The row a constructed receipt is stored as, texts included. *)
Definition stored_receipt (r : DeliveryReceipt) (n : Z) : DeliveryReceipt :=
  {| rc_sequence := n; rc_receipt_id := rc_receipt_id r; rc_event_id := rc_event_id r;
     rc_delivery_plan_id := rc_delivery_plan_id r; rc_target_adapter := rc_target_adapter r;
     rc_target_channel := opt_or_none (rc_target_channel r); rc_route_id := rc_route_id r;
     rc_status := rc_status r; rc_receipt_kind := rc_receipt_kind r; rc_error := rc_error r;
     rc_failure_kind := rc_failure_kind r; rc_capability_level := rc_capability_level r;
     rc_capability_field := rc_capability_field r;
     rc_capability_reason := rc_capability_reason r;
     rc_delivery_strategy := rc_delivery_strategy r;
     rc_adapter_message_id := rc_adapter_message_id r; rc_next_retry_at := rc_next_retry_at r;
     rc_attempt_number := rc_attempt_number r; rc_parent_receipt_id := rc_parent_receipt_id r;
     rc_source := rc_source r; rc_replay_run_id := rc_replay_run_id r;
     rc_retry_max_attempts := rc_retry_max_attempts r; rc_retry_jitter := rc_retry_jitter r;
     rc_rendering_evidence := rc_rendering_evidence r; rc_outbox_id := rc_outbox_id r;
     rc_confirmation_level := rc_confirmation_level r; rc_created_at := rc_created_at r |}.

Lemma init_fixed_provenance r :
  DeliveryReceipt_init r = Ok r ->
  normalize_delivery_provenance (rc_source r) (rc_replay_run_id r) =
    Ok (rc_source r, rc_replay_run_id r).
Proof.
  unfold DeliveryReceipt_init. repeat (case_match; [done|]). case_match; [|done]. case_match; [done|].
  intros ([source run] & Hn & Heq)%bind_Ok. rewrite Hn. injection Heq as Heq.
  apply (f_equal rc_source) in Heq as Hs. apply (f_equal rc_replay_run_id) in Heq as Hr.
  cbn in Hs, Hr. by rewrite <- Hs, <- Hr.
Qed.

Lemma receipt_insert_params_row r row :
  DeliveryReceipt_init r = Ok r -> receipt_insert_params r = Ok row ->
  row = with_texts (stored_receipt r 0) None None None.
Proof.
  intros Hn%init_fixed_provenance. unfold receipt_insert_params.
  repeat (case_match; [done|]). rewrite Hn. by intros [= <-].
Qed.

Lemma opt_truthy_or_none o : o <> Some "" -> opt_truthy o = false -> o = None.
Proof.
  destruct o as [s|]; [|done]. cbn. intros Hne Ht. apply truthy_false in Ht. congruence.
Qed.

(** The separated text of one field is found again. *)
Lemma latest_after_append r d d' field text :
  diagnostics d' = diagnostics d ++ receipt_texts r ->
  (forall g, g ∈ diagnostics d -> dg_family g = "receipt" -> dg_row_id g <> rc_receipt_id r) ->
  (field, text) ∈ [("error", rc_error r); ("capability_reason", rc_capability_reason r);
                   ("rendering_evidence", rc_rendering_evidence r)] ->
  latest_receipt_diagnostic d' (rc_receipt_id r) field = opt_or_none text.
Proof.
  intros Hd Hno Hin. unfold latest_receipt_diagnostic. rewrite Hd, filter_app.
  assert (filter (fun g => dg_family g = "receipt" /\ dg_row_id g = rc_receipt_id r /\ dg_field g = field)
    (diagnostics d) = []) as ->.
  { apply length_zero_iff_nil, length_filter_0. intros g Hg (Hf & Hi & _). by eapply Hno. }
  unfold receipt_texts. rewrite app_nil_l, !filter_app.
  repeat (apply elem_of_cons in Hin as [[= -> ->]|Hin]); [| | |set_solver];
    destruct (opt_or_none (rc_error r)), (opt_or_none (rc_capability_reason r)),
      (opt_or_none (rc_rendering_evidence r));
    cbn; rewrite ?filter_cons, ?filter_nil; repeat case_decide; cbn in *; naive_solver.
Qed.

Lemma latest_other r d d' id field :
  diagnostics d' = diagnostics d ++ receipt_texts r -> id <> rc_receipt_id r ->
  latest_receipt_diagnostic d' id field = latest_receipt_diagnostic d id field.
Proof.
  intros Hd Hne. unfold latest_receipt_diagnostic. rewrite Hd, filter_app.
  assert (filter (fun g => dg_family g = "receipt" /\ dg_row_id g = id /\ dg_field g = field)
    (receipt_texts r) = []) as ->; [|by rewrite app_nil_r].
  apply length_zero_iff_nil, length_filter_0. intros g Hg (_ & Hi & _). apply Hne. rewrite <- Hi.
  unfold receipt_texts in Hg.
  repeat (apply elem_of_app in Hg as [Hg|Hg]); apply list_elem_of_fmap in Hg as (t & -> & _); done.
Qed.

Lemma mapM_Ok {E A B} (f : A -> result E B) l k :
  mapM f l = Ok k <-> Forall2 (fun x y => f x = Ok y) l k.
Proof.
  revert k. induction l as [|x l IH]; intros k; cbn.
  - split; [intros [= <-]; constructor|intros H; by inversion H].
  - rewrite bind_Ok. split.
    + intros (y & Hx & (ys & Hl & [= <-])%bind_Ok). constructor; [done|by apply IH].
    + inversion 1 as [|?? ? ys Hx Hl]; subst. exists y. split; [done|]. apply bind_Ok.
      exists ys. split; [by apply IH|done].
Qed.

Lemma sorted_by_id {A} (leb : A -> A -> bool) (l : list A) :
  StronglySorted (fun a b => leb a b = true) l -> sorted_by leb l = l.
Proof.
  induction 1 as [|x l Hs IH Hx]; [done|]. cbn. rewrite IH.
  destruct l as [|y l]; [done|]. cbn. apply Forall_cons in Hx as [-> _]. done.
Qed.

(** The log of one store: sequences strictly increase in append order, and
    separated texts belong to logged receipts. *)
Record log_wf (d : db) : Prop := {
  log_sorted : StronglySorted (fun a b => rc_sequence a < rc_sequence b) (receipts d);
  log_bound : forall r, r ∈ receipts d -> rc_sequence r <= Z.of_nat (length (receipts d));
  log_texts : forall g, g ∈ diagnostics d -> dg_family g = "receipt" ->
    dg_row_id g ∈ (rc_receipt_id <$> receipts d)
}.

Lemma StronglySorted_filter {A} (R : A -> A -> Prop) (P : A -> Prop) `{!forall x, Decision (P x)} l :
  StronglySorted R l -> StronglySorted R (filter P l).
Proof.
  induction 1 as [|x l Hs IH Hx]; [constructor|]. rewrite filter_cons. case_decide; [|done].
  constructor; [done|]. rewrite Forall_forall in *. intros y [_ Hy]%list_elem_of_filter. auto.
Qed.

Lemma StronglySorted_snoc {A} (R : A -> A -> Prop) l x :
  StronglySorted R l -> (forall y, y ∈ l -> R y x) -> StronglySorted R (l ++ [x]).
Proof.
  induction 1 as [|y l Hs IH Hy]; intros Hx; cbn; [repeat constructor|].
  constructor; [by apply IH; set_solver|]. rewrite Forall_app. split; [done|].
  repeat constructor. apply Hx. set_solver.
Qed.

Lemma StronglySorted_weaken {A} (R S : A -> A -> Prop) l :
  (forall a b, R a b -> S a b) -> StronglySorted R l -> StronglySorted S l.
Proof.
  intros Hrs. induction 1 as [|x l Hs IH Hx]; constructor; [done|].
  eapply Forall_impl; [done|]. auto.
Qed.

Lemma mapM_ext_on {E A B} (f g : A -> result E B) l :
  (forall x, x ∈ l -> f x = g x) -> mapM f l = mapM g l.
Proof.
  induction l as [|x l IH]; intros Heq; cbn; [done|].
  rewrite (Heq x) by set_solver. rewrite IH by set_solver. done.
Qed.

Lemma log_filter_sorted d (P : DeliveryReceipt -> Prop) `{!forall x, Decision (P x)} :
  log_wf d -> sorted_by by_sequence (filter P (receipts d)) = filter P (receipts d).
Proof.
  intros Hwf. apply sorted_by_id. eapply StronglySorted_weaken; [|by apply StronglySorted_filter, Hwf].
  intros a b. unfold by_sequence, on_key. lia.
Qed.

Lemma append_log_wf r row d d' :
  log_wf d -> rc_receipt_id row = rc_receipt_id r ->
  d' = set_diagnostics
         (set_receipts d (receipts d ++ [with_sequence row (Z.of_nat (length (receipts d)) + 1)]))
         (diagnostics d ++ receipt_texts r) ->
  log_wf d'.
Proof.
  intros [Hs Hb Ht] Hid ->. split; cbn.
  - apply StronglySorted_snoc; [done|]. intros y Hy%Hb. cbn. lia.
  - intros x [Hx%Hb|Hx]%elem_of_app; rewrite length_app; cbn; [lia|].
    apply list_elem_of_singleton in Hx as ->. cbn. lia.
  - intros g [Hg|Hg]%elem_of_app Hf; rewrite fmap_app, elem_of_app; [left; by apply Ht|right].
    unfold receipt_texts in Hg. cbn. apply list_elem_of_singleton. rewrite Hid.
    repeat (apply elem_of_app in Hg as [Hg|Hg]); apply list_elem_of_fmap in Hg as (t & -> & _); done.
Qed.

Lemma coalesce_stored r d d' n :
  diagnostics d' = diagnostics d ++ receipt_texts r ->
  (forall g, g ∈ diagnostics d -> dg_family g = "receipt" -> dg_row_id g <> rc_receipt_id r) ->
  rc_error r <> Some "" -> rc_capability_reason r <> Some "" -> rc_rendering_evidence r <> Some "" ->
  coalesce_receipt d' (with_sequence (with_texts (stored_receipt r 0) None None None) n) =
    stored_receipt r n.
Proof.
  intros Hd Hno He Hc Hv. unfold coalesce_receipt, coalesce_receipt_text. cbn.
  rewrite (latest_after_append r d d' "error" (rc_error r)) by (done || set_solver).
  rewrite (latest_after_append r d d' "capability_reason" (rc_capability_reason r)) by (done || set_solver).
  rewrite (latest_after_append r d d' "rendering_evidence" (rc_rendering_evidence r)) by (done || set_solver).
  assert (Hback : forall o : option string, o <> Some "" ->
    match opt_or_none o with Some v => or_none v | None => None end = o).
  { intros o Ho. rewrite opt_or_none_id by done. destruct o as [s|]; [|done].
    unfold or_none. by rewrite (proj2 (truthy_true s)) by congruence. }
  rewrite !Hback by done. done.
Qed.

(** Appending a receipt and reading the log back is a round trip: although
    the free-form texts are separated into the side table, the history of the
    event afterwards is the history before followed by exactly the appended
    receipt, with the next sequence number and an empty channel read as no
    channel; no earlier receipt reads differently. *)
Theorem append_receipt_roundtrip (r : DeliveryReceipt) (d d' : db) (l : list DeliveryReceipt) :
  log_wf d -> DeliveryReceipt_init r = Ok r ->
  rc_error r <> Some "" -> rc_capability_reason r <> Some "" -> rc_rendering_evidence r <> Some "" ->
  append_receipt r d = (Ok tt, d') ->
  list_receipts_for_event d (rc_event_id r) = Ok l ->
  log_wf d' /\
  list_receipts_for_event d' (rc_event_id r) =
    Ok (l ++ [stored_receipt r (Z.of_nat (length (receipts d)) + 1)]).
Proof.
  intros Hwf Hi He Hc Hv (row & Hp & _ & Hnew & Hd')%append_receipt_Ok Hl.
  apply receipt_insert_params_row in Hp as ->; [|done].
  assert (log_wf d') as Hwf' by (eapply append_log_wf; [exact Hwf| |exact Hd']; done).
  split; [done|]. unfold list_receipts_for_event, read_receipts in *.
  rewrite !log_filter_sorted in * by done.
  assert (diagnostics d' = diagnostics d ++ receipt_texts r) as Hdg by (by rewrite Hd').
  rewrite <- (mapM_ext_on (read_receipt d')) in Hl.
  2: { intros x [_ Hx]%list_elem_of_filter. unfold read_receipt, coalesce_receipt, coalesce_receipt_text.
    assert (rc_receipt_id x <> rc_receipt_id r)
      by (intros Heq; apply Hnew; rewrite <- Heq; by apply list_elem_of_fmap_2).
    by rewrite !(latest_other r d d') by done. }
  apply mapM_Ok in Hl. apply mapM_Ok.
  assert (receipts d' = receipts d ++ [with_sequence (with_texts (stored_receipt r 0) None None None)
    (Z.of_nat (length (receipts d)) + 1)]) as -> by (by rewrite Hd').
  rewrite filter_app. apply Forall2_app; [done|].
  rewrite filter_cons, decide_True, filter_nil by done. constructor; [|constructor].
  unfold read_receipt. rewrite (coalesce_stored r d d'); try done.
  - by apply (DeliveryReceipt_init_cong r).
  - intros g Hg Hf Heq. apply Hnew. rewrite <- Heq. by apply Hwf.
Qed.

(** ** An append *)

Definition example_attempt : DeliveryReceipt :=
  with_texts (with_provenance example_receipt (Some "attempt") "retry" (Some "run-1"))
    (Some "boom") None None.

Definition one_event_db : db :=
  {| canonical_events := ["evt-1"]; outbox := []; snapshots := []; diagnostics := [];
     dependencies := []; access_policies := []; receipts := []; native_refs := [] |}.

Lemma one_event_log_wf : log_wf one_event_db.
Proof. split; cbn; [constructor|set_solver..]. Qed.

Lemma append_receipt_roundtrip_witness :
  append_receipt example_attempt one_event_db =
    (Ok tt, (append_receipt example_attempt one_event_db).2) /\
  list_receipts_for_event (append_receipt example_attempt one_event_db).2 "evt-1" =
    Ok [stored_receipt example_attempt 1].
Proof.
  assert (append_receipt example_attempt one_event_db =
    (Ok tt, (append_receipt example_attempt one_event_db).2)) as Happ by (vm_compute; reflexivity).
  split; [exact Happ|].
  apply (append_receipt_roundtrip example_attempt one_event_db _ [] one_event_log_wf eq_refl);
    [discriminate|discriminate|discriminate|exact Happ|reflexivity].
Defined.
