(* ===== verification/OutboxProofs.v ===== *)
(** * Correctness of the outbox

    Operations are the atomic steps of the store, so every theorem about
    sequences of steps covers every interleaving of workers, callbacks and
    creators ([claim_due_outbox_items] takes its conditional UPDATE as the
    step, with arbitrary candidate identifiers). *)

From S2P Require Import Prelude.
From S2P Require Import Json.
From S2P Require Import DeliveryState.
From S2P Require Import Delivery.
From S2P Require Import Store.
From S2P Require Import Outbox.
From S2P Require Import OutboxMaintenance.

Open Scope string_scope.
Open Scope list_scope.
Open Scope Z_scope.

(** ** Steps *)

Inductive outbox_op : Type :=
| OpCreate (now : instant) (item : DeliveryOutboxItem) (allocate : bool)
    (snapshot : option OutboxDispatchSnapshotWrite)
| OpClaim (o : claim_options) (now lease : instant) (worker : string) (ids : list string)
| OpReserve (now : instant) (id worker : string) (from_attempt : Z)
| OpSent (now : instant) (id : string) (receipt : option string) (attempt : option Z)
    (worker : option string)
| OpQueued (now : instant) (id : string) (receipt : option string) (attempt : option Z)
    (worker : option string)
| OpRetryWait (now : instant) (id : string) (next : instant)
    (receipt kind detail error : option string) (attempt : option Z) (worker : option string)
| OpDeadLettered (now : instant) (id : string) (receipt kind detail error : option string)
    (attempt : option Z) (worker : option string)
| OpCancelled (now : instant) (id : string) (error receipt kind : option string)
    (attempt : option Z) (worker : option string)
| OpAbandoned (now : instant) (id : string) (error receipt kind : option string)
    (attempt : option Z) (worker : option string)
| OpRenew (now : instant) (id worker : string) (lease : instant)
| OpRelease (now : instant) (id worker release_status : string)
| OpHandoff (c : DeferredHandoffFinalization)
| OpTerminal (c : TerminalOutboxFinalization)
| OpReceipt (r : DeliveryReceipt)
| OpNativeRef (n : NativeMessageRef)
(** The retirement of one row of a deadline sweep, and an operator's
    cancellation. *)
| OpRetire (observed : instant) (seen : Row)
| OpOperatorCancel (now : instant) (n : decision)
(** Admission, retention and policy changes elsewhere in the system: any
    change of the event, dependency and policy tables. *)
| OpEnvironment (events : list string) (deps : list Dependency)
    (policies : list (string * instant)).

Definition step (op : outbox_op) (d : db) : db :=
  match op with
  | OpCreate now item allocate snapshot => (create_outbox_item now item allocate snapshot d).2
  | OpClaim o now lease worker ids => (claim_update o now lease worker ids d).2
  | OpReserve now id worker from => (reserve_outbox_attempt now id worker from d).2
  | OpSent now id receipt attempt worker => (mark_outbox_sent now id receipt attempt worker d).2
  | OpQueued now id receipt attempt worker => (mark_outbox_queued now id receipt attempt worker d).2
  | OpRetryWait now id next receipt kind detail error attempt worker =>
      (mark_outbox_retry_wait now id next receipt kind detail error attempt worker d).2
  | OpDeadLettered now id receipt kind detail error attempt worker =>
      (mark_outbox_dead_lettered now id receipt kind detail error attempt worker d).2
  | OpCancelled now id error receipt kind attempt worker =>
      (mark_outbox_cancelled now id error receipt kind attempt worker d).2
  | OpAbandoned now id error receipt kind attempt worker =>
      (mark_outbox_abandoned now id error receipt kind attempt worker d).2
  | OpRenew now id worker lease => (renew_outbox_lease now id worker lease d).2
  | OpRelease now id worker st => (release_outbox_claim now id worker st d).2
  | OpHandoff c => (finalize_deferred_handoff c d).2
  | OpTerminal c => (finalize_outbox_terminal c d).2
  | OpReceipt r => (append_receipt r d).2
  | OpNativeRef n => (store_native_ref n d).2
  | OpRetire observed seen =>
      if unstarted seen then (wrap_db_error (atomically (retire_row observed seen) d)).2 else d
  | OpOperatorCancel now n => (cancel_unstarted_delivery now n [] d).2.2
  | OpEnvironment events deps policies =>
      {| canonical_events := events; outbox := outbox d; snapshots := snapshots d;
         diagnostics := diagnostics d; dependencies := deps; access_policies := policies;
         receipts := receipts d; native_refs := native_refs d |}
  end.

Definition exec (ops : list outbox_op) (d : db) : db := foldl (fun d op => step op d) d ops.

Definition reachable (d : db) : Prop := exists ops, d = exec ops empty_db.

(** ** Relations every successful run of a transaction respects *)

Section tx_rel.
Context (R : db -> db -> Prop) `{!PreOrder R}.

Definition tx_rel {A} (m : tx A) : Prop := forall d a d', m d = Ok (a, d') -> R d d'.

Lemma tx_rel_bind {A B} (m : tx A) (k : A -> tx B) :
  tx_rel m -> (forall a, tx_rel (k a)) -> tx_rel (m ≫= k).
Proof.
  intros Hm Hk d b d'. unfold mbind, tx_bind. destruct (m d) as [[a d1]|] eqn:E; [|done].
  intros H. transitivity d1; [by eapply Hm|by eapply Hk].
Qed.

Lemma tx_rel_ret {A} (a : A) : tx_rel (mret a).
Proof. intros d b d' [= _ <-]. done. Qed.

Lemma tx_rel_get {A} (g : db -> A) : tx_rel (get g).
Proof. intros d b d' [= _ <-]. done. Qed.

Lemma tx_rel_raise {A} (e : exc) : tx_rel (raise (A := A) e).
Proof. intros d b d'. done. Qed.

Lemma tx_rel_modify g : (forall d, R d (g d)) -> tx_rel (modify g).
Proof. intros Hg d b d' [= _ <-]. apply Hg. Qed.

Lemma tx_rel_when b m : tx_rel m -> tx_rel (when b m).
Proof. destruct b; [done|intros _; apply tx_rel_ret]. Qed.

Lemma tx_rel_run_ops ops : Forall tx_rel ops -> tx_rel (run_ops ops).
Proof.
  induction 1; simpl; [apply tx_rel_ret|]. apply tx_rel_bind; [done|]. by intros _.
Qed.

(** A transaction that raises is rolled back. *)
Lemma tx_rel_atomically {A} (m : tx A) d : tx_rel m -> R d (wrap_db_error (atomically m d)).2.
Proof.
  intros Hm. unfold atomically. destruct (m d) as [[a d']|e] eqn:E; simpl.
  - by eapply Hm.
  - destruct e; done.
Qed.
End tx_rel.

Lemma tx_bind_Ok {A B} (m : tx A) (k : A -> tx B) d b d' :
  (m ≫= k) d = Ok (b, d') <-> exists a d1, m d = Ok (a, d1) /\ k a d1 = Ok (b, d').
Proof.
  unfold mbind, tx_bind. destruct (m d) as [[a d1]|]; naive_solver.
Qed.

(** The transaction leaves [f] of the database alone. *)
Definition same {T} (f : db -> T) (d d' : db) : Prop := f d' = f d.
Abbreviation keeps f := (tx_rel (same f)).

#[export] Instance same_preorder {T} (f : db -> T) : PreOrder (same f).
Proof. split; [intros d; done|intros a b c H1 H2; unfold same in *; congruence]. Qed.

(** Receipts are only appended, under identifiers of their own. *)
Definition receipts_distinct (d : db) : Prop := NoDup (rc_receipt_id <$> receipts d).
Definition receipts_grow (d d' : db) : Prop :=
  receipts d `prefix_of` receipts d' /\ (receipts_distinct d -> receipts_distinct d').
#[export] Instance receipts_grow_preorder : PreOrder receipts_grow.
Proof. split; [intros d; by split|]. intros a b c [P1 H1] [P2 H2]. split; [by etrans|auto]. Qed.

Create HintDb keeps.
#[export] Hint Resolve tx_rel_bind tx_rel_ret tx_rel_get tx_rel_raise tx_rel_when tx_rel_run_ops
  Forall_app_2 Forall_cons_2 Forall_nil_2 : keeps.
#[export] Hint Extern 1 (PreOrder _) => (typeclasses eauto) : keeps.
#[export] Hint Extern 1 (tx_rel _ (match ?x with _ => _ end)) => (destruct x) : keeps.

Section statements.
Context (R : db -> db -> Prop) `{!PreOrder R}.

Lemma keeps_insert_diagnostic g :
  (forall d x, R d (set_diagnostics d x)) -> tx_rel R (insert_diagnostic g).
Proof. intros Hf d a d'. unfold insert_diagnostic. case_match; [done|]. by intros [= _ <-]. Qed.

Lemma keeps_outbox_diagnostic field v t i :
  (forall d x, R d (set_diagnostics d x)) -> tx_rel R (insert_outbox_diagnostic field v t i).
Proof.
  intros Hf d a d'. unfold insert_outbox_diagnostic. repeat case_match; try (by intros [= _ <-]).
  intros H'. by eapply keeps_insert_diagnostic.
Qed.

Lemma keeps_outbox_diagnostic_ops values t i :
  (forall d x, R d (set_diagnostics d x)) ->
  Forall (tx_rel R) (outbox_diagnostic_ops values t i).
Proof.
  intros Hf. apply Forall_forall. intros m Hm. unfold outbox_diagnostic_ops in Hm.
  apply list_elem_of_omap in Hm as (field & _ & Hm). repeat case_match; simplify_eq.
  by apply keeps_outbox_diagnostic.
Qed.

Lemma keeps_diagnostic_write_ops family i n values t :
  (forall d x, R d (set_diagnostics d x)) ->
  Forall (tx_rel R) (diagnostic_write_ops family i n values t).
Proof.
  intros Hf. apply Forall_forall. intros m Hm. unfold diagnostic_write_ops in Hm.
  apply list_elem_of_omap in Hm as (field & _ & Hm). repeat case_match; simplify_eq.
  by apply keeps_insert_diagnostic.
Qed.

Lemma keeps_insert_receipt r :
  (forall d x, rc_receipt_id x ∉ (rc_receipt_id <$> receipts d) -> R d (set_receipts d (receipts d ++ [x]))) ->
  tx_rel R (insert_receipt r).
Proof.
  intros Hf d a d'. unfold insert_receipt. case_match eqn:E; [done|]. case_match; [done|]. intros [= _ <-].
  apply Hf. apply orb_false_iff in E as [_ E]. by apply elem_false in E.
Qed.

Lemma keeps_insert_native_ref r :
  (forall d x, R d (set_native_refs d x)) -> tx_rel R (insert_native_ref r).
Proof. intros Hf d a d'. unfold insert_native_ref. repeat case_match; try done. by intros [= _ <-]. Qed.

Lemma keeps_insert_dependency p :
  (forall d x, R d (set_dependencies d x)) -> tx_rel R (insert_dependency p).
Proof. intros Hf d a d'. unfold insert_dependency. repeat case_match; try done. by intros [= _ <-]. Qed.

Lemma keeps_outbox_dependency i e now dl :
  (forall d x, R d (set_dependencies d x)) -> tx_rel R (insert_outbox_dependency i e now dl).
Proof.
  intros Hf. unfold insert_outbox_dependency.
  apply tx_rel_bind; [done|auto with keeps|]. intros plan.
  apply tx_rel_bind; [done|apply tx_rel_modify; auto|]. intros _.
  apply tx_rel_bind; [done|auto with keeps|]. intros src.
  apply tx_rel_bind; [done|auto with keeps|]. intros pol.
  destruct src; [|auto with keeps]. case_match; [auto with keeps|].
  case_match; [auto with keeps|]. by apply keeps_insert_dependency.
Qed.

Lemma keeps_settle i e t :
  (forall d x, R d (set_dependencies d x)) ->
  tx_rel R (settle_outbox_content_dependency i e t).
Proof. intros Hf. apply tx_rel_modify. auto. Qed.

Lemma keeps_retire i :
  (forall d x, R d (set_snapshots d x)) -> tx_rel R (retire_outbox_snapshot i).
Proof. intros Hf. apply tx_rel_modify. auto. Qed.

Lemma keeps_insert_snapshot k c t i :
  (forall d x, R d (set_snapshots d x)) -> tx_rel R (insert_outbox_snapshot k c t i).
Proof.
  intros Hf d a d'. unfold insert_outbox_snapshot. repeat case_match; try done.
  all: by intros [= _ <-].
Qed.
End statements.

Lemma receipts_grow_app d x :
  rc_receipt_id x ∉ (rc_receipt_id <$> receipts d) -> receipts_grow d (set_receipts d (receipts d ++ [x])).
Proof.
  intros Hx. split; simpl; [by apply prefix_app_r|]. unfold receipts_distinct. simpl. intros Hd.
  rewrite fmap_app. apply NoDup_app. split_and!; [done| |apply NoDup_singleton]. set_solver.
Qed.

#[export] Hint Resolve keeps_outbox_diagnostic_ops keeps_diagnostic_write_ops
  keeps_insert_receipt keeps_insert_native_ref keeps_outbox_dependency keeps_settle
  keeps_retire keeps_insert_snapshot receipts_grow_app : keeps.
(** Setting one table leaves the others alone. *)
#[export] Hint Extern 1 (same _ _ _) => reflexivity : keeps.
#[export] Hint Extern 2 (receipts_grow _ _) => (split; [reflexivity|exact id]) : keeps.

(** ** How one row may change in one step *)

Record row_evolves (r r' : Row) : Prop := {
  re_fixed : row_fixed r' = row_fixed r;
  re_terminal : outbox_terminal (status r) = true -> r' = r;
  re_generation : generation r <= generation r'
}.

(** A legal move of the transition table, or the one move of the terminal
    finalization that the table does not list. *)
Definition legal_move (s t : OutboxStatus) : Prop :=
  outbox_move s t = true \/ (s = Queued /\ t = DeadLettered).

Record row_step (r r' : Row) : Prop := {
  rs_evolves : row_evolves r r';
  rs_move : legal_move (status r) (status r');
  rs_attempt : row_check r = true -> attempt_number r <= attempt_number r'
}.

Definition rows_rel (P : Row -> Row -> Prop) (rows rows' : list Row) : Prop :=
  forall i r, rows !! i = Some r -> exists r', rows' !! i = Some r' /\ P r r'.

Lemma row_evolves_refl r : row_evolves r r.
Proof. split; [done|done|lia]. Qed.

Lemma row_evolves_trans a b c : row_evolves a b -> row_evolves b c -> row_evolves a c.
Proof.
  intros [F1 T1 G1] [F2 T2 G2]. split; [congruence| |lia].
  intros Ht. specialize (T1 Ht). subst b. auto.
Qed.

Lemma row_step_refl r : row_step r r.
Proof. split; [apply row_evolves_refl| |done]. left. unfold outbox_move. by rewrite bool_decide_eq_true_2. Qed.

Lemma rows_rel_mono (P Q : Row -> Row -> Prop) l l' :
  (forall a b, P a b -> Q a b) -> rows_rel P l l' -> rows_rel Q l l'.
Proof. intros Hi H i r Hr. destruct (H i r Hr) as (r' & ? & ?). eauto. Qed.

Lemma rows_rel_refl P l : (forall r, P r r) -> rows_rel P l l.
Proof. intros HP i r Hr. eauto. Qed.

Lemma rows_rel_app P l l' : rows_rel P l l -> rows_rel P l (l ++ l').
Proof.
  intros H i r Hr. destruct (H i r Hr) as (r' & Hr' & ?). exists r'. split; [|done].
  by apply lookup_app_l_Some.
Qed.

Lemma rows_rel_trans P a b c :
  (forall x y z, P x y -> P y z -> P x z) -> rows_rel P a b -> rows_rel P b c -> rows_rel P a c.
Proof.
  intros Ht H1 H2 i r Hr. destruct (H1 i r Hr) as (r1 & Hr1 & ?).
  destruct (H2 i r1 Hr1) as (r2 & Hr2 & ?). eauto.
Qed.

Lemma rows_rel_elem P a b r : rows_rel P a b -> r ∈ a -> exists r', r' ∈ b /\ P r r'.
Proof.
  intros H (i & Hi)%list_elem_of_lookup. destruct (H i r Hi) as (r' & Hr' & ?).
  exists r'. split; [by eapply list_elem_of_lookup_2|done].
Qed.

(** ** The UPDATE statement *)

Definition updated (w : db -> Row -> bool) (s : Row -> OutboxState) (d : db) : list Row :=
  (fun r => if w d r then with_state r (s r) else r) <$> outbox d.

Lemma update_outbox_Ok w s d n d' :
  update_outbox w s d = Ok (n, d') ->
  d' = set_outbox d (updated w s d) /\ outbox_constraints (updated w s d) = true /\
  n = Z.of_nat (length (filter (fun r => w d r = true) (outbox d))).
Proof.
  unfold update_outbox, updated. case_match eqn:E; [|done]. intros [= <- <-]. done.
Qed.

Lemma updated_rel P w s d :
  (forall r, P r r) ->
  (forall r, r ∈ outbox d -> w d r = true -> P r (with_state r (s r))) ->
  rows_rel P (outbox d) (updated w s d).
Proof.
  intros Hrefl Hw i r Hr. unfold updated. rewrite list_lookup_fmap, Hr. simpl.
  eexists. split; [done|]. destruct (w d r) eqn:E; [|done].
  apply Hw; [by eapply list_elem_of_lookup_2|done].
Qed.

Lemma updated_fixed w s d : row_fixed <$> updated w s d = row_fixed <$> outbox d.
Proof.
  unfold updated. rewrite <- list_fmap_compose. apply list_fmap_ext. intros i r _. simpl.
  by destruct (w d r).
Qed.

(** ** Each statement respects [row_step] *)

Ltac gen_lia := unfold generation; simpl; unfold generation; simpl; lia.

Lemma row_check_generation r : row_check r = true -> attempt_number r <= generation r.
Proof.
  unfold row_check, generation. rewrite !andb_true_iff. intros [[[[_ Ha] _] _] _].
  destruct (active_attempt r); simpl; lia.
Qed.

Lemma claim_row_step o now lease w d r :
  claim_predicate o now d r = true -> row_step r (with_state r (claim_state now lease w r)).
Proof.
  unfold claim_predicate. breflect. intros [[[[Hs _] _] _] _].
  assert (outbox_move (status r) InProgress = true /\ outbox_terminal (status r) = false) as [Hm Ht].
  { destruct Hs as [[Hs|[Hs _]]|[Hs _]]; [|by rewrite Hs..].
    revert Hs. destruct (status r); done. }
  split; [split| |]; simpl; [done|congruence|gen_lia|by left|lia].
Qed.

Lemma reserve_row_step w from i d now r :
  reserve_guard w from i d r = true -> row_step r (with_state r (reserve_state now r)).
Proof.
  unfold reserve_guard. breflect. intros [[[[[_ _] Hs] Ha] _] _].
  split; [split| |]; simpl; [done| | | |lia].
  - rewrite Hs. done.
  - unfold generation; simpl. rewrite Ha. simpl. lia.
  - rewrite Hs. by left.
Qed.

Lemma transition_row_step a st i now d r from :
  ta_allowed_from a = Some from -> (forall x, x ∈ from -> outbox_move x st = true) ->
  st <> InProgress -> transition_guard a i d r = true ->
  row_step r (with_state r (transition_state a st now r)).
Proof.
  intros Hfrom Hmove Hst. unfold transition_guard. rewrite Hfrom. breflect.
  intros [[[[_ Ht] Hatt] _] Hin].
  assert (generation r <= match ta_attempt_number a with Some n => n | None => generation r end) as Hg.
  { destruct (ta_attempt_number a) as [n|]; [|done]. unfold generation.
    rewrite orb_true_iff, andb_true_iff, !bool_decide_eq_true, Z.leb_le in Hatt.
    destruct Hatt as [[-> ?]| ->]; simpl; lia. }
  split; [split| |]; simpl; [done|congruence| |by left; apply Hmove|].
  - unfold generation at 2. simpl. rewrite (bool_decide_eq_false_2 (st = InProgress)) by done.
    destruct (ta_attempt_number a); simpl; lia.
  - intros Hck%row_check_generation. rewrite bool_decide_eq_false_2 by done.
    destruct (ta_attempt_number a); lia.
Qed.

Lemma renew_row_step lease now i w r :
  owned_by i w r = true -> row_step r (with_state r (renew_state lease now r)).
Proof.
  unfold owned_by. breflect. intros [[_ _] Hs].
  split; [split| |]; simpl; [done| |gen_lia| |lia]; rewrite Hs; [done|by left].
Qed.

Lemma release_row_step st now i w r :
  outbox_claimable st = true -> owned_by i w r = true -> row_step r (with_state r (release_state st now r)).
Proof.
  unfold owned_by. breflect. intros Hst [[_ _] Hs].
  split; [split| |]; simpl; [done| |gen_lia| |lia]; rewrite Hs; [done|].
  left. revert Hst. by destruct st.
Qed.

Lemma finalize_guard_status i id n r :
  finalize_guard i id n r = true -> status r = Queued \/ status r = InProgress.
Proof. unfold finalize_guard. breflect. set_solver. Qed.

Lemma finalize_sent_row_step i id n t rc r :
  finalize_guard i id n r = true -> row_step r (with_state r (finalize_sent_state t rc r)).
Proof.
  intros Hs%finalize_guard_status.
  split; [split| |]; simpl; [done| |gen_lia| |apply row_check_generation];
    destruct Hs as [-> | ->]; try done; by left.
Qed.

Lemma finalize_terminal_row_step i id n st k t rc r :
  elem st [DeadLettered; Cancelled; Abandoned] = true ->
  finalize_guard i id n r = true -> row_step r (with_state r (finalize_terminal_state st k t rc r)).
Proof.
  intros Hst Hs%finalize_guard_status. rewrite elem_true in Hst.
  split; [split| |]; simpl; [done| |gen_lia| |apply row_check_generation].
  - destruct Hs as [-> | ->]; done.
  - unfold legal_move. repeat (apply elem_of_cons in Hst as [->|Hst]); [..|by apply not_elem_of_nil in Hst].
    all: destruct Hs as [-> | ->]; auto.
Qed.

(** ** Steps of the whole store *)

(** Every frozen dispatch snapshot belongs to a row that is not terminal. *)
Definition snapshots_live (rows : list Row) (snaps : list Snapshot) : Prop :=
  forall s, s ∈ snaps -> exists r : Row, r ∈ rows /\ outbox_id r = sn_outbox_id s /\
    outbox_terminal (status r) = false.

(** A stored channel is NULL or non-empty. *)
Definition channels_normal (rows : list Row) : Prop :=
  forall r : Row, r ∈ rows -> target_channel r <> Some "".

(** A snapshot is only retired with the row it belongs to. *)
Definition snapshots_kept (d d' : db) : Prop :=
  forall s, s ∈ snapshots d -> s ∈ snapshots d' \/
    exists r : Row, r ∈ outbox d' /\ outbox_id r = sn_outbox_id s /\ outbox_terminal (status r) = true.

(** One snapshot per row. *)
Definition snapshots_once (d : db) : Prop := NoDup (sn_outbox_id <$> snapshots d).

Record store_step (d d' : db) : Prop := {
  st_rows : rows_rel row_step (outbox d) (outbox d');
  st_channels : channels_normal (outbox d) -> channels_normal (outbox d');
  st_constraints : outbox_constraints (outbox d) = true -> outbox_constraints (outbox d') = true;
  st_snapshots : outbox_constraints (outbox d) = true ->
    snapshots_live (outbox d) (snapshots d) -> snapshots_live (outbox d') (snapshots d');
  st_kept : snapshots_kept d d';
  st_once : snapshots_once d -> snapshots_once d';
  st_receipts : receipts_grow d d'
}.

Lemma snapshots_kept_sub d d' : (forall s, s ∈ snapshots d -> s ∈ snapshots d') -> snapshots_kept d d'.
Proof. intros H s Hs. left. by apply H. Qed.

Lemma snapshots_kept_filter d d' i :
  snapshots d' = filter (fun sn => sn_outbox_id sn <> i) (snapshots d) ->
  (exists r : Row, r ∈ outbox d' /\ outbox_id r = i /\ outbox_terminal (status r) = true) ->
  snapshots_kept d d'.
Proof.
  intros Hs Ht s Hin. destruct (decide (sn_outbox_id s = i)) as [<-|Hne]; [by right|left].
  rewrite Hs. by apply list_elem_of_filter.
Qed.

Lemma store_step_refl d : store_step d d.
Proof.
  split; [apply rows_rel_refl, row_step_refl|done|done|done| |done|unfold receipts_grow; done].
  by apply snapshots_kept_sub.
Qed.

(** A step that leaves the outbox and the snapshots alone. *)
Lemma store_step_same d d' :
  same outbox d d' -> same snapshots d d' -> receipts_grow d d' -> store_step d d'.
Proof.
  unfold same. intros Ho Hs Hr. split; rewrite ?Ho, ?Hs; [|done..| | |done].
  - apply rows_rel_refl, row_step_refl.
  - apply snapshots_kept_sub. by rewrite Hs.
  - unfold snapshots_once. by rewrite Hs.
Qed.

Lemma snapshots_live_updated w s d snaps :
  (forall r, r ∈ outbox d -> w d r = true -> outbox_terminal (status (s r)) = false) ->
  snapshots_live (outbox d) snaps -> snapshots_live (updated w s d) snaps.
Proof.
  intros Hw Hl sn Hsn. destruct (Hl sn Hsn) as (r & Hr & Hid & Ht).
  exists (if w d r then with_state r (s r) else r). split_and!.
  - unfold updated. by apply (list_elem_of_fmap_2 (fun r => if w d r then with_state r (s r) else r)).
  - by destruct (w d r).
  - destruct (w d r) eqn:E; [by apply Hw|done].
Qed.

Lemma snapshots_live_retired (w : db -> Row -> bool) s d i snaps :
  (forall r, w d r = true -> outbox_id r = i) ->
  snapshots_live (outbox d) snaps ->
  snapshots_live (updated w s d) (filter (fun sn => sn_outbox_id sn <> i) snaps).
Proof.
  intros Hw Hl sn [Hne Hsn]%list_elem_of_filter. destruct (Hl sn Hsn) as (r & Hr & Hid & Ht).
  exists r. split_and!; [|done|done].
  assert (w d r = false) as E.
  { destruct (w d r) eqn:E; [|done]. apply Hw in E. congruence. }
  unfold updated. apply list_elem_of_fmap. exists r. by rewrite E.
Qed.

Lemma channels_normal_updated w s d :
  channels_normal (outbox d) -> channels_normal (updated w s d).
Proof.
  intros Hn r' (r & -> & Hr)%list_elem_of_fmap. destruct (w d r); apply (Hn r Hr).
Qed.

(** An UPDATE followed by statements on other tables. *)
Lemma store_step_update (w : db -> Row -> bool) s d n d1 d' :
  update_outbox w s d = Ok (n, d1) ->
  (forall r, r ∈ outbox d -> w d r = true -> row_step r (with_state r (s r))) ->
  same outbox d1 d' -> receipts_grow d1 d' ->
  ((forall r, r ∈ outbox d -> w d r = true -> outbox_terminal (status (s r)) = false) /\
     same snapshots d1 d' \/
   exists i, (forall r, w d r = true -> outbox_id r = i) /\
     (exists r : Row, r ∈ updated w s d /\ outbox_id r = i /\ outbox_terminal (status r) = true) /\
     snapshots d' = filter (fun sn => sn_outbox_id sn <> i) (snapshots d)) ->
  store_step d d'.
Proof.
  unfold same. intros (-> & Hc & _)%update_outbox_Ok Hstep Ho Hr Hsn. simpl in *.
  split; rewrite ?Ho; [| |done| | | |done].
  - by apply updated_rel; [apply row_step_refl|].
  - apply channels_normal_updated.
  - intros _ Hl. destruct Hsn as [[Hnt ->]|(i & Hi & _ & ->)].
    + by apply (snapshots_live_updated w s d).
    + by apply (snapshots_live_retired w s d i).
  - destruct Hsn as [[_ Hs]|(i & _ & Ht & Hs)].
    + apply snapshots_kept_sub. by rewrite Hs.
    + apply (snapshots_kept_filter _ _ i); [done|]. by rewrite Ho.
  - unfold snapshots_once. destruct Hsn as [[_ ->]|(i & _ & _ & ->)]; [done|]. apply NoDup_fmap_filter.
Qed.

Lemma store_step_update_only w s d :
  (forall r, r ∈ outbox d -> w d r = true -> row_step r (with_state r (s r))) ->
  (forall r, r ∈ outbox d -> w d r = true -> outbox_terminal (status (s r)) = false) ->
  store_step d (wrap_db_error (atomically (update_outbox w s) d)).2.
Proof.
  intros Hstep Hnt. unfold atomically.
  destruct (update_outbox w s d) as [[n d1]|e] eqn:E; simpl.
  - eapply store_step_update; [done..| | |left; split]; try done.
  - destruct e; apply store_step_refl.
Qed.

(** ** Every operation is a store step *)

Ltac same_step := apply store_step_refl.

Lemma claim_update_step o now lease w ids d :
  store_step d (claim_update o now lease w ids d).2.
Proof.
  unfold claim_update. apply store_step_update_only.
  - intros r _ [_ Hp]%andb_true_iff. by eapply claim_row_step.
  - done.
Qed.

Lemma reserve_step now i w from d : store_step d (reserve_outbox_attempt now i w from d).2.
Proof.
  unfold reserve_outbox_attempt.
  match goal with |- store_step d (match ?m with _ => _ end).2 => assert (store_step d m.2) as H end.
  { apply store_step_update_only.
    - intros r _. apply reserve_row_step.
    - intros r _. unfold reserve_guard. breflect. intros [[[[[_ _] Hs] _] _] _]. simpl. by rewrite Hs. }
  revert H. destruct (wrap_db_error _) as [[] ?]; done.
Qed.

Lemma renew_step now i w lease d : store_step d (renew_outbox_lease now i w lease d).2.
Proof.
  unfold renew_outbox_lease.
  match goal with |- store_step d (match ?m with _ => _ end).2 => assert (store_step d m.2) as H end.
  { apply store_step_update_only.
    - intros r _. apply renew_row_step.
    - intros r _. unfold owned_by. breflect. intros [_ Hs]. simpl. by rewrite Hs. }
  revert H. destruct (wrap_db_error _) as [[] ?]; done.
Qed.

Lemma parse_outbox_status_str s st : parse_outbox_status s = Some st -> s = outbox_str st.
Proof.
  unfold parse_outbox_status. intros [_ H]%List.find_some. by apply bool_decide_eq_true in H.
Qed.

Lemma parse_outbox_str st : parse_outbox_status (outbox_str st) = Some st.
Proof. by destruct st. Qed.

Lemma release_step now i w s d : store_step d (release_outbox_claim now i w s d).2.
Proof.
  unfold release_outbox_claim. destruct (is_claimable_outbox_status s) eqn:Hcl; [|same_step]. simpl.
  destruct (parse_outbox_status s) as [st|] eqn:Hp; [|same_step].
  apply parse_outbox_status_str in Hp as ->. change (outbox_claimable st = true) in Hcl.
  match goal with |- store_step d (match ?m with _ => _ end).2 => assert (store_step d m.2) as H end.
  { apply store_step_update_only.
    - intros r _ [Ho _]%andb_true_iff. by eapply release_row_step.
    - intros r _ _. simpl. revert Hcl. by destruct st. }
  revert H. destruct (wrap_db_error _) as [[] ?]; done.
Qed.

(** A statement guarded by one primary key touches at most one row. *)
Lemma NoDup_length_le_1 (l : list string) i : NoDup l -> (forall x, x ∈ l -> x = i) -> (length l <= 1)%nat.
Proof.
  intros Hnd Hall. destruct l as [|a [|b l]]; simpl; [lia..|]. exfalso.
  apply NoDup_cons in Hnd as [Hni _]. apply Hni.
  rewrite (Hall a), (Hall b) by set_solver. set_solver.
Qed.

Lemma constraints_NoDup_ids rows :
  outbox_constraints rows = true -> NoDup (outbox_id <$> (row_fixed <$> rows)).
Proof. unfold outbox_constraints. breflect. tauto. Qed.

Lemma update_rowcount (w : db -> Row -> bool) s d n d1 i :
  (forall r, w d r = true -> outbox_id r = i) -> update_outbox w s d = Ok (n, d1) ->
  (n = 0 /\ d1 = d) \/ (n = 1 /\ exists r : Row, r ∈ outbox d /\ w d r = true /\ outbox_id r = i).
Proof.
  intros Hw (-> & Hc & ->)%update_outbox_Ok.
  apply constraints_NoDup_ids in Hc. rewrite updated_fixed, <- list_fmap_compose in Hc.
  apply (NoDup_fmap_filter _ (fun r => w d r = true)) in Hc.
  apply (NoDup_length_le_1 _ i) in Hc.
  2: { intros x (r & -> & [Hr _]%list_elem_of_filter)%list_elem_of_fmap. by apply Hw. }
  rewrite length_fmap in Hc.
  destruct (filter (fun r => w d r = true) (outbox d)) as [|r [|]] eqn:E; simpl in *; [| |lia].
  - left. split; [done|]. destruct d. unfold set_outbox. simpl. f_equal. unfold updated. simpl in *.
    rewrite <- (list_fmap_id outbox) at 2. apply list_fmap_ext. intros j r Hr. simpl.
    destruct (w _ r) eqn:Hwr; [|done]. exfalso.
    assert (r ∈ filter (fun r => w {| canonical_events := canonical_events; outbox := outbox;
      snapshots := snapshots; diagnostics := diagnostics; dependencies := dependencies;
      access_policies := access_policies; receipts := receipts; native_refs := native_refs |} r = true)
      outbox) as Hin by (apply list_elem_of_filter; split; [done|by eapply list_elem_of_lookup_2]).
    rewrite E in Hin. set_solver.
  - right. split; [done|]. exists r.
    assert (r ∈ filter (fun r => w d r = true) (outbox d)) as [Hwr Hr]%list_elem_of_filter
      by (rewrite E; set_solver). auto.
Qed.

(** ** Statements on the other tables

    [quiet]: neither the outbox nor the snapshots change and receipts are only
    appended.  [settles i]: additionally the snapshot of row [i] is gone. *)
Definition quiet (d d' : db) : Prop :=
  same outbox d d' /\ same snapshots d d' /\ receipts_grow d d'.

#[export] Instance quiet_preorder : PreOrder quiet.
Proof.
  split.
  - intros d. by unfold quiet.
  - intros a b c (? & ? & ?) (? & ? & ?). split_and!; by etrans.
Qed.

#[export] Hint Extern 1 (quiet _ _) =>
  (split_and!; [reflexivity|reflexivity|auto with keeps]) : keeps.

Definition settles {A} (i : string) (m : tx A) : Prop :=
  forall d a d', m d = Ok (a, d') ->
    same outbox d d' /\ receipts_grow d d' /\
    snapshots d' = filter (fun sn => sn_outbox_id sn <> i) (snapshots d).

Lemma settles_bind_l {A B} i (m : tx A) (k : A -> tx B) :
  settles i m -> (forall a, tx_rel quiet (k a)) -> settles i (m ≫= k).
Proof.
  intros Hm Hk d b d'. unfold mbind, tx_bind. destruct (m d) as [[a d1]|] eqn:E; [|done].
  intros H. apply Hm in E as (? & ? & Hs). apply Hk in H as (? & Hs' & ?).
  split_and!; [by etrans..|]. unfold same in Hs'. congruence.
Qed.

Lemma settles_bind_r {A B} i (m : tx A) (k : A -> tx B) :
  tx_rel quiet m -> (forall a, settles i (k a)) -> settles i (m ≫= k).
Proof.
  intros Hm Hk d b d'. unfold mbind, tx_bind. destruct (m d) as [[a d1]|] eqn:E; [|done].
  intros H. apply Hm in E as (? & Hs' & ?). apply Hk in H as (? & ? & Hs).
  split_and!; [by etrans..|]. unfold same in Hs'. congruence.
Qed.

Lemma settles_retire i : settles i (retire_outbox_snapshot i).
Proof. intros d a d' [= _ <-]. split_and!; auto with keeps. Qed.

Lemma settles_run_ops i ops :
  Forall (tx_rel quiet) ops -> settles i (run_ops (ops ++ [retire_outbox_snapshot i])).
Proof.
  induction 1; simpl.
  - apply settles_bind_l; [apply settles_retire|auto with keeps].
  - by apply settles_bind_r.
Qed.

Create HintDb settles.
#[export] Hint Resolve settles_bind_l settles_bind_r settles_retire settles_run_ops : settles.

(** A guarded UPDATE of row [i], then a settling transaction. *)
Lemma store_step_finalize {A} (w : db -> Row -> bool) s d n d1 d' i (m : tx A) a :
  update_outbox w s d = Ok (n, d1) -> n = 1 ->
  (forall r, r ∈ outbox d -> w d r = true -> row_step r (with_state r (s r))) ->
  (forall r, w d r = true -> outbox_id r = i) ->
  (forall r, outbox_terminal (status (s r)) = true) ->
  settles i m -> m d1 = Ok (a, d') -> store_step d d'.
Proof.
  intros Hu -> Hstep Hi Ht Hm (Ho & Hr & Hs)%Hm.
  eapply store_step_update; [done..|]. right. exists i. split_and!; [done| |].
  - destruct (update_rowcount _ _ _ _ _ i Hi Hu) as [[? _]|[_ (x & Hx & Hwx & Hid)]]; [done|].
    exists (with_state x (s x)). split_and!; [|done|apply Ht]. apply list_elem_of_fmap.
    exists x. by rewrite Hwx.
  - apply update_outbox_Ok in Hu as (-> & _). exact Hs.
Qed.

Lemma settles_transition i now ops (n : Z) :
  Forall (tx_rel quiet) ops ->
  settles i ((run_ops (ops ++ [retire_outbox_snapshot i]) ;;
     event ← get (fun d => (fun r : Row => event_id r) <$> find_outbox d i);
     match event with
     | None => raise IntegrityError
     | Some e => settle_outbox_content_dependency i e now
     end) ;; mret n).
Proof.
  intros Hops. apply settles_bind_l; [|auto with keeps].
  apply settles_bind_l; [by apply settles_run_ops|]. intros _.
  apply tx_rel_bind; [apply _|auto with keeps|]. intros [e|]; auto with keeps.
Qed.

Lemma transition_run_step a st i now from :
  ta_allowed_from a = Some from -> (forall x, x ∈ from -> outbox_move x st = true) ->
  st <> InProgress ->
  tx_rel store_step
    (let update := update_outbox (transition_guard a i) (transition_state a st now) in
     let follow_ups := outbox_diagnostic_ops (transition_diagnostics a st) now i in
     if outbox_terminal st
     then sync_transition_outbox_and_settle update i now (follow_ups ++ [retire_outbox_snapshot i])
     else sync_write_with_followups update follow_ups).
Proof.
  intros Hfrom Hmove Hst d n d' H. cbv zeta in H.
  assert (Hops : Forall (tx_rel quiet) (outbox_diagnostic_ops (transition_diagnostics a st) now i))
    by auto with keeps.
  assert (Hid : forall r, transition_guard a i d r = true -> outbox_id r = i)
    by (intros r; unfold transition_guard; breflect; tauto).
  assert (Hstep : forall r, r ∈ outbox d -> transition_guard a i d r = true ->
    row_step r (with_state r (transition_state a st now r)))
    by (intros; by eapply transition_row_step).
  destruct (outbox_terminal st) eqn:Hterm.
  - unfold sync_transition_outbox_and_settle, mbind at 1, tx_bind at 1 in H.
    destruct (update_outbox _ _ d) as [[n1 d1]|] eqn:Hu; [|done].
    destruct (update_rowcount _ _ _ _ _ i Hid Hu) as [[-> ->]|[-> _]].
    { cbn in H. injection H as _ <-. apply store_step_refl. }
    eapply (store_step_finalize _ _ d 1 d1 d' i); [done..| | |exact H].
    { intros r. exact Hterm. }
    by apply settles_transition.
  - unfold sync_write_with_followups, mbind at 1, tx_bind at 1 in H.
    destruct (update_outbox _ _ d) as [[n1 d1]|] eqn:Hu; [|done].
    assert (quiet d1 d') as (? & ? & ?).
    { revert H. apply (tx_rel_bind quiet); auto with keeps. }
    eapply store_step_update; [done..|]. left. by split.
Qed.

Lemma transition_step now i s st a from d :
  parse_outbox_status s = Some st ->
  ta_allowed_from a = Some from -> (forall x, x ∈ from -> outbox_move x st = true) ->
  st <> InProgress -> store_step d (update_outbox_status now i s a d).2.
Proof.
  intros Hp Hfrom Hmove Hst. unfold update_outbox_status. rewrite Hp.
  case_match; [same_step|]. cbv zeta.
  match goal with |- store_step d (match ?m with _ => _ end).2 => assert (store_step d m.2) as Hs end.
  - pose proof (transition_run_step a st i now from Hfrom Hmove Hst) as Hrun. cbv zeta in Hrun.
    unfold atomically.
    match goal with |- context [ (if outbox_terminal st then ?x else ?y) d ] =>
      destruct ((if outbox_terminal st then x else y) d) as [[n d']|e] eqn:Hr end.
    + by apply Hrun in Hr.
    + destruct e; apply store_step_refl.
  - revert Hs. destruct (wrap_db_error _) as [[] ?]; done.
Qed.

Lemma quiet_receipt_ops r : Forall (tx_rel quiet) (receipt_diagnostic_ops r).
Proof. unfold receipt_diagnostic_ops. auto with keeps. Qed.
#[export] Hint Resolve quiet_receipt_ops : keeps.

Lemma finalize_guard_id i id n r : finalize_guard i id n r = true -> outbox_id r = id.
Proof. unfold finalize_guard. breflect. tauto. Qed.

Lemma settles_finalization id e t {A} (a : A) row ops :
  Forall (tx_rel quiet) ops ->
  settles id (insert_receipt row ;; run_ops ops ;;
    settle_outbox_content_dependency id e t ;; retire_outbox_snapshot id ;; mret a).
Proof.
  intros Hops. apply settles_bind_r; [apply keeps_insert_receipt; auto with keeps|]. intros _.
  apply settles_bind_r; [auto with keeps|]. intros _.
  apply settles_bind_r; [auto with keeps|]. intros _.
  apply settles_bind_l; [apply settles_retire|auto with keeps].
Qed.

Lemma handoff_run_step c row : tx_rel store_step (sync_finalize_deferred_handoff c row).
Proof.
  intros d a d'. unfold sync_finalize_deferred_handoff.
  set (i := receipt_identity _). set (id := opt_or_empty _).
  match goal with |- match ?x with _ => _ end = _ -> _ => destruct x end.
  { intros [= _ <-]. apply store_step_refl. }
  destruct (update_outbox _ _ d) as [[n d1]|] eqn:Hu; [|done].
  destruct (negb (n =? 1)) eqn:Hn; [intros ?; simplify_eq; apply store_step_refl|].
  apply negb_false_iff, Z.eqb_eq in Hn.
  apply (store_step_finalize _ _ _ _ _ _ id _ _ Hu Hn).
  - intros r _. apply finalize_sent_row_step.
  - intros r. apply finalize_guard_id.
  - done.
  - apply settles_bind_r; [|intros _; apply settles_finalization; auto with keeps].
    case_match; auto with keeps.
Qed.

Lemma handoff_step c d : store_step d (finalize_deferred_handoff c d).2.
Proof.
  unfold finalize_deferred_handoff. case_match; [|same_step]. case_match; [|same_step].
  match goal with |- store_step d (match ?m with _ => _ end).2 => assert (store_step d m.2) as Hs end.
  - unfold atomically. destruct (sync_finalize_deferred_handoff c a0 d) as [[x d']|e] eqn:Hr.
    + by apply handoff_run_step in Hr.
    + destruct e; apply store_step_refl.
  - revert Hs. destruct (wrap_db_error _) as [[[? []]|] ?]; done.
Qed.

Lemma terminal_run_step c st row arow :
  elem st [DeadLettered; Cancelled; Abandoned] = true ->
  tx_rel store_step (sync_finalize_outbox_terminal c st row arow).
Proof.
  intros Hst d a d'. unfold sync_finalize_outbox_terminal.
  set (i := receipt_identity _). set (id := opt_or_empty _).
  destruct (update_outbox _ _ d) as [[n d1]|] eqn:Hu; [|done].
  destruct (negb (n =? 1)) eqn:Hn; [intros ?; simplify_eq; apply store_step_refl|].
  apply negb_false_iff, Z.eqb_eq in Hn.
  apply (store_step_finalize _ _ _ _ _ _ id _ _ Hu Hn).
  - intros r _ [Hg _]%andb_true_iff. by eapply finalize_terminal_row_step.
  - intros r [Hg _]%andb_true_iff. by eapply finalize_guard_id.
  - intros r. by destruct st.
  - apply settles_bind_r; [auto with keeps|]. intros _.
    apply settles_bind_r; [|intros _; apply settles_finalization; auto with keeps].
    repeat case_match; auto with keeps.
Qed.

Lemma terminal_status_parse s st :
  elem s ["dead_lettered"; "cancelled"; "abandoned"] = true -> parse_outbox_status s = Some st ->
  elem st [DeadLettered; Cancelled; Abandoned] = true.
Proof.
  intros Hs ->%parse_outbox_status_str. revert Hs. by destruct st.
Qed.

Lemma TerminalOutboxFinalization_status c :
  TerminalOutboxFinalization_init c = Ok tt ->
  elem (rc_status (tf_lifecycle_receipt c)) ["dead_lettered"; "cancelled"; "abandoned"] = true.
Proof. unfold TerminalOutboxFinalization_init. case_match; [done|]. case_match eqn:E; [done|]. by breflect. Qed.

Lemma terminal_step c d : store_step d (finalize_outbox_terminal c d).2.
Proof.
  unfold finalize_outbox_terminal.
  destruct (TerminalOutboxFinalization_init c) as [[]|] eqn:Hi; [|same_step].
  apply TerminalOutboxFinalization_status in Hi.
  destruct (receipt_insert_params _) as [row|]; [|same_step].
  destruct (opt_receipt_params _) as [arow|]; [|same_step].
  destruct (parse_outbox_status _) as [st|] eqn:Hp; [|same_step].
  unfold atomically. destruct (sync_finalize_outbox_terminal c st row arow d) as [[x d']|e] eqn:Hr.
  - apply terminal_run_step in Hr; [done|]. by eapply terminal_status_parse.
  - destruct e; apply store_step_refl.
Qed.

(** ** Creation *)

(** Statements after the INSERT of row [i]: only that row can gain a snapshot. *)
Definition dresses (i : string) (d d' : db) : Prop :=
  same outbox d d' /\ receipts_grow d d' /\
  (forall sn, sn ∈ snapshots d' -> sn ∈ snapshots d \/ sn_outbox_id sn = i) /\
  (forall sn, sn ∈ snapshots d -> sn ∈ snapshots d') /\
  (snapshots_once d -> snapshots_once d').

#[export] Instance dresses_preorder i : PreOrder (dresses i).
Proof.
  split.
  - intros d. unfold dresses. auto with keeps.
  - intros a b c (? & ? & H1 & K1 & O1) (? & ? & H2 & K2 & O2). split_and!; [by etrans..| |auto|auto].
    naive_solver.
Qed.

#[export] Hint Extern 1 (dresses _ _ _) =>
  (split_and!; [reflexivity|auto with keeps|simpl; auto|simpl; auto|simpl; auto]) : keeps.

Lemma dresses_snapshot k c t i : tx_rel (dresses i) (insert_outbox_snapshot k c t i).
Proof.
  intros d a d'. unfold insert_outbox_snapshot. case_match; [|by intros [= _ <-]].
  case_match eqn:E; [done|]. intros [= _ <-]. breflect. destruct E as [[Hn _] _].
  split_and!; [done|auto with keeps|simpl; set_solver|simpl; set_solver|].
  unfold snapshots_once. simpl. rewrite fmap_app. intros Ho. by apply NoDup_snoc.
Qed.

Lemma dresses_post_ops item s now :
  Forall (tx_rel (dresses (it_outbox_id item))) (create_post_insert_ops item s now).
Proof.
  unfold create_post_insert_ops. apply Forall_app_2; [auto with keeps|].
  destruct s; [apply Forall_cons_2; [apply dresses_snapshot|]|]; apply Forall_nil_2.
Qed.

Lemma insert_outbox_Ok r d d' :
  insert_outbox r d = Ok (tt, d') ->
  d' = set_outbox d (outbox d ++ [r]) /\ outbox_constraints (outbox d ++ [r]) = true /\
  event_id r ∈ canonical_events d.
Proof.
  unfold insert_outbox. case_match eqn:E1; [done|]. case_match eqn:E2; [done|]. intros [= <-].
  breflect. done.
Qed.

Lemma store_step_insert r d d1 d' :
  insert_outbox r d = Ok (tt, d1) -> outbox_terminal (status r) = false ->
  target_channel r <> Some "" -> dresses (outbox_id r) d1 d' -> store_step d d'.
Proof.
  intros (-> & Hc & _)%insert_outbox_Ok Ht Hch (Ho & Hr & Hs & Hk & Honce). unfold same in Ho. simpl in *.
  split; rewrite ?Ho; [| |done| |by apply snapshots_kept_sub|done|done].
  - apply rows_rel_app, rows_rel_refl, row_step_refl.
  - intros Hn r' [Hr'|Hr']%elem_of_app; [by apply Hn|].
    by apply list_elem_of_singleton in Hr' as ->.
  - intros _ Hl sn [Hsn|Hid]%Hs.
    + destruct (Hl sn Hsn) as (r' & ? & ? & ?). exists r'. set_solver.
    + exists r. set_solver.
Qed.

(** The INSERT and what follows it, common to both creation transactions. *)
Definition create_tail (item : DeliveryOutboxItem) (r : Row) (now : instant)
    (dl : option string) (b : bool) (snap : option OutboxDispatchSnapshotWrite)
    : tx (option string) :=
  insert_outbox r ;;
  when b (insert_outbox_dependency (it_outbox_id item) (it_event_id item) now dl) ;;
  run_ops (create_post_insert_ops item snap now) ;; mret None.

Lemma create_tail_inv item attempt st source now dl b snap d a d' :
  create_tail item (item_row item attempt st source now) now dl b snap d = Ok (a, d') ->
  exists d1, insert_outbox (item_row item attempt st source now) d = Ok (tt, d1) /\
    a = None /\ dresses (it_outbox_id item) d1 d'.
Proof.
  unfold create_tail, mbind at 1, tx_bind at 1.
  destruct (insert_outbox _ d) as [[[] d1]|] eqn:Hi; [|done]. intros H.
  exists d1. split; [done|]. split.
  - revert H. unfold mbind, tx_bind. repeat (case_match; try done). by intros [= <- _].
  - revert H. apply (tx_rel_bind (dresses _)); [auto with keeps|]. intros _.
    apply (tx_rel_bind (dresses _)); [|auto with keeps].
    apply tx_rel_run_ops; [apply _|apply dresses_post_ops].
Qed.

Lemma create_tail_step item attempt st source now dl b snap :
  outbox_terminal st = false ->
  tx_rel store_step (create_tail item (item_row item attempt st source now) now dl b snap).
Proof.
  intros Hst d a d' (d1 & Hi & -> & Hd)%create_tail_inv.
  eapply store_step_insert; [done|done| |done]. apply opt_or_none_not_empty.
Qed.

Lemma plain_create_run item st source now snap dl d :
  sync_atomic_create_outbox item st source now (create_post_insert_ops item snap now) dl d =
  match select_adoptable item d with
  | Some i => Ok (Some i, d)
  | None => create_tail item (item_row item (it_attempt_number item) st source now) now dl true snap d
  end.
Proof. unfold sync_atomic_create_outbox, mbind at 1, tx_bind at 1. cbn [get]. by case_match. Qed.

Lemma generation_create_run item st source now snap dl d :
  sync_atomic_create_outbox_generation item st source now (create_post_insert_ops item snap now) dl d =
  match (if opt_truthy (it_replay_run_id item) then select_replay_run item d else None) with
  | Some i => Ok (Some i, d)
  | None =>
      create_tail item
        (item_row item (default 0 (select_max_generation item d) + 1) st source now) now dl
        (negb (bool_decide (source = "replay"))) snap d
  end.
Proof.
  unfold sync_atomic_create_outbox_generation, mbind at 1, tx_bind at 1. cbn [get].
  by destruct (if opt_truthy _ then _ else _).
Qed.

Lemma create_checks_status item alloc snap st source :
  create_checks item alloc snap = Ok (st, source) ->
  (st = Pending \/ st = InProgress) /\ (source = "live" \/ source = "replay").
Proof.
  unfold create_checks. cbv zeta. set (src := match opt_or_none (it_dispatch_source item) with
    | Some s => s | None => if alloc then "replay" else "live" end).
  repeat (case_match; [done|]). intros H'.
  assert (src ∈ ["live"; "replay"]) as Hsrc by (by breflect).
  assert (source = src /\ (st = Pending \/ st = InProgress)) as [-> ?].
  { revert H'. repeat case_match; intros; simplify_eq; auto. }
  split; [done|]. set_solver.
Qed.

Lemma create_step now item alloc snap d : store_step d (create_outbox_item now item alloc snap d).2.
Proof.
  unfold create_outbox_item.
  destruct (create_checks item alloc snap) as [[st source]|] eqn:Hc; [|same_step].
  apply create_checks_status in Hc as [Hst _].
  assert (outbox_terminal st = false) as Ht by (by destruct Hst as [-> | ->]).
  destruct (snapshot_deadline snap) as [dl|]; [|same_step]. cbv zeta.
  destruct alloc.
  - case_match; [same_step|]. unfold atomically. rewrite generation_create_run.
    destruct (if opt_truthy _ then _ else _); [same_step|].
    destruct (create_tail _ _ _ _ _ _ d) as [[a d']|e] eqn:Hr; [|destruct e; same_step].
    apply create_tail_step in Hr; [|done]. by destruct a.
  - unfold atomically. rewrite plain_create_run.
    destruct (select_adoptable item d) eqn:Hsel; [same_step|].
    destruct (create_tail _ _ _ _ _ _ d) as [[a d']|e] eqn:Hr.
    + apply create_tail_step in Hr; [|done]. by destruct a.
    + destruct e; try same_step. rewrite Hsel. same_step.
Qed.

(** ** Maintenance *)

Lemma unstarted_move (r : Row) :
  unstarted r = true -> outbox_terminal (status r) = false /\
    outbox_move (status r) Abandoned = true /\ outbox_move (status r) Cancelled = true.
Proof. unfold unstarted. rewrite andb_true_iff. intros [Hs _]. revert Hs. by destruct (status r). Qed.

Lemma retire_row_step observed seen d r :
  unstarted seen = true -> retire_guard seen d r = true -> row_step r (with_state r (retire_state observed r)).
Proof.
  intros (Ht & Hm & _)%unstarted_move. unfold retire_guard. breflect.
  intros [[[[[_ Hs] _] _] _] _]. rewrite <-Hs in Ht, Hm.
  split; [split| |]; simpl; [done|congruence|gen_lia|by left|lia].
Qed.

Lemma settles_retirement i e t ops :
  Forall (tx_rel quiet) ops ->
  settles i (settle_outbox_content_dependency i e t ;; retire_outbox_snapshot i ;; run_ops ops ;; mret true).
Proof.
  intros Hops. apply settles_bind_r; [auto with keeps|]. intros _.
  apply settles_bind_l; [apply settles_retire|]. intros _.
  apply (tx_rel_bind quiet); auto with keeps.
Qed.

Lemma retire_step observed seen d :
  unstarted seen = true -> store_step d (wrap_db_error (atomically (retire_row observed seen) d)).2.
Proof.
  intros Hun. unfold atomically. destruct (retire_row observed seen d) as [[b d']|e] eqn:Hr;
    [|destruct e; same_step].
  simpl. unfold retire_row in Hr. apply tx_bind_Ok in Hr as (n & d1 & Hu & Hr).
  assert (Hid : forall r, retire_guard seen d r = true -> outbox_id r = outbox_id seen)
    by (intros r; unfold retire_guard; breflect; tauto).
  destruct (update_rowcount _ _ _ _ _ _ Hid Hu) as [[-> ->]|[-> _]].
  { injection Hr as _ <-. same_step. }
  eapply (store_step_finalize _ _ d 1 d1 d' (outbox_id seen)); [exact Hu|done| |exact Hid|done| |exact Hr].
  - intros r _. by apply retire_row_step.
  - apply settles_retirement. auto with keeps.
Qed.

Lemma cancel_row_step n now d r :
  CancelUnstartedDecision_init n = Ok tt -> cancel_guard n d r = true ->
  row_step r (with_state r (cancel_state now r)).
Proof.
  unfold CancelUnstartedDecision_init. intros (_ & _ & Hi)%bind_Ok. revert Hi.
  case_match eqn:Hst; [done|]. intros _. breflect. unfold cancel_guard, as_expected. breflect.
  intros [[_ _] [[_ Hs] _]]. rewrite <-Hs in Hst.
  assert (outbox_terminal (status r) = false /\ outbox_move (status r) Cancelled = true) as [Ht Hm].
  { revert Hst. destruct (status r); vm_compute; set_solver. }
  split; [split| |]; simpl; [done|congruence|gen_lia|by left|lia].
Qed.

Lemma cancel_unstarted_step n now d u d' :
  CancelUnstartedDecision_init n = Ok tt -> cancel_unstarted now n d = Ok (u, d') -> store_step d d'.
Proof.
  intros Hinit. unfold cancel_unstarted. intros (row & d0 & [= <- <-] & H)%tx_bind_Ok.
  destruct (find_outbox d _) as [r|]; [|done]. do 2 (case_match; [done|]).
  apply tx_bind_Ok in H as (b & d0 & [= <- <-] & H). case_match; [done|].
  apply tx_bind_Ok in H as (k & d1 & Hu & H).
  assert (Hid : forall r, cancel_guard n d r = true -> outbox_id r = dn_outbox_id n)
    by (intros q; unfold cancel_guard; breflect; tauto).
  destruct (update_rowcount _ _ _ _ _ _ Hid Hu) as [[-> ->]|[-> _]]; [done|].
  eapply (store_step_finalize _ _ d 1 d1 d' (dn_outbox_id n)); [exact Hu|done| |exact Hid|done| |exact H].
  - intros q _. by apply cancel_row_step.
  - apply settles_bind_r; [auto with keeps|]. intros _. apply settles_retire.
Qed.

Lemma record_decision_Ok n d u d' : record_decision n d = Ok (u, d') -> d' = d.
Proof. unfold record_decision. do 2 (case_match; [done|]). by intros [= _ <-]. Qed.

Lemma operator_cancel_step now n d : store_step d (cancel_unstarted_delivery now n [] d).2.2.
Proof.
  unfold cancel_unstarted_delivery. destruct (CancelUnstartedDecision_init n) as [[]|] eqn:Hi; [|same_step].
  unfold decide_once, atomically. simpl.
  destruct ((cancel_unstarted now n ;; record_decision n) d) as [[u d']|e] eqn:Hr; [|destruct e; same_step].
  simpl. apply tx_bind_Ok in Hr as ([] & d1 & Hr & ->%record_decision_Ok). by eapply cancel_unstarted_step.
Qed.

(** ** The store invariant over all executions *)

Lemma quiet_store_step d d' : quiet d d' -> store_step d d'.
Proof. intros (? & ? & ?). by apply store_step_same. Qed.

Lemma append_receipt_step r d : store_step d (append_receipt r d).2.
Proof.
  unfold append_receipt. case_match; [|same_step].
  apply quiet_store_step, (tx_rel_atomically quiet).
  apply tx_rel_bind; [apply _|apply keeps_insert_receipt; auto with keeps|auto with keeps].
Qed.

Lemma store_native_ref_step n d : store_step d (store_native_ref n d).2.
Proof.
  unfold store_native_ref. repeat case_match; try same_step.
  apply quiet_store_step. split_and!; [done|done|]. unfold receipts_grow. done.
Qed.

Lemma step_store_step op d : store_step d (step op d).
Proof.
  destruct op; simpl.
  - apply create_step.
  - apply claim_update_step.
  - apply reserve_step.
  - eapply transition_step; [reflexivity..| |done]. apply Forall_forall. by repeat constructor.
  - eapply transition_step; [reflexivity..| |done]. apply Forall_forall. by repeat constructor.
  - eapply transition_step; [reflexivity..| |done]. apply Forall_forall. by repeat constructor.
  - eapply transition_step; [reflexivity..| |done]. apply Forall_forall. by repeat constructor.
  - eapply transition_step; [reflexivity..| |done]. apply Forall_forall. by repeat constructor.
  - eapply transition_step; [reflexivity..| |done]. apply Forall_forall. by repeat constructor.
  - apply renew_step.
  - apply release_step.
  - apply handoff_step.
  - apply terminal_step.
  - apply append_receipt_step.
  - apply store_native_ref_step.
  - case_match; [by apply retire_step|same_step].
  - apply operator_cancel_step.
  - apply quiet_store_step. split_and!; [done|done|]. unfold receipts_grow. done.
Qed.

(** What any execution preserves. *)
Record store_evolves (d d' : db) : Prop := {
  ev_rows : rows_rel row_evolves (outbox d) (outbox d');
  ev_channels : channels_normal (outbox d) -> channels_normal (outbox d');
  ev_constraints : outbox_constraints (outbox d) = true -> outbox_constraints (outbox d') = true;
  ev_snapshots : outbox_constraints (outbox d) = true ->
    snapshots_live (outbox d) (snapshots d) -> snapshots_live (outbox d') (snapshots d');
  ev_kept : snapshots_kept d d';
  ev_once : snapshots_once d -> snapshots_once d';
  ev_receipts : receipts_grow d d'
}.

(** A retired snapshot stays retired with its row, which stays terminal. *)
Lemma snapshots_kept_trans a b c :
  snapshots_kept a b -> snapshots_kept b c -> rows_rel row_evolves (outbox b) (outbox c) ->
  snapshots_kept a c.
Proof.
  intros H1 H2 R2 s Hs. destruct (H1 s Hs) as [Hb|(r & Hr & Hid & Ht)]; [by apply H2|right].
  destruct (rows_rel_elem _ _ _ _ R2 Hr) as (r' & Hr' & [_ Hsame _]). rewrite (Hsame Ht) in Hr'. eauto.
Qed.

#[export] Instance store_evolves_preorder : PreOrder store_evolves.
Proof.
  split.
  - intros d. split; [apply rows_rel_refl, row_evolves_refl|done..| |done|unfold receipts_grow; done].
    by apply snapshots_kept_sub.
  - intros a b c [R1 N1 C1 S1 K1 O1 G1] [R2 N2 C2 S2 K2 O2 G2]. split; [|auto..| |auto|by etrans].
    + eapply rows_rel_trans; [apply row_evolves_trans|done|done].
    + by eapply snapshots_kept_trans.
Qed.

Lemma step_evolves op d : store_evolves d (step op d).
Proof.
  destruct (step_store_step op d) as [R N C S K O G]. split; [|done..].
  eapply rows_rel_mono; [|done]. by intros a b [].
Qed.

Lemma exec_evolves ops d : store_evolves d (exec ops d).
Proof.
  revert d. induction ops as [|op ops IH]; intros d; simpl; [done|].
  etrans; [apply step_evolves|apply IH].
Qed.

Lemma reachable_constraints d : reachable d -> outbox_constraints (outbox d) = true.
Proof. intros (ops & ->). by apply (ev_constraints _ _ (exec_evolves ops empty_db)). Qed.

Lemma reachable_channels d : reachable d -> channels_normal (outbox d).
Proof.
  intros (ops & ->). apply (ev_channels _ _ (exec_evolves ops empty_db)).
  intros r Hr. by apply not_elem_of_nil in Hr.
Qed.

Lemma reachable_snapshots d : reachable d -> snapshots_live (outbox d) (snapshots d).
Proof.
  intros (ops & ->). apply (ev_snapshots _ _ (exec_evolves ops empty_db)); [done|].
  intros sn Hsn. by apply not_elem_of_nil in Hsn.
Qed.
