(* ===== verification/OutboxSafety.v ===== *)
(** * What the outbox guarantees

    The safety theorems over arbitrary interleavings of operations, and the
    functional theorems of the individual operations. *)

From S2P Require Import Prelude.
From S2P Require Import Json.
From S2P Require Import DeliveryState.
From S2P Require Import Delivery.
From S2P Require Import Store.
From S2P Require Import Outbox.
From S2P Require Import OutboxProofs.

Open Scope string_scope.
Open Scope list_scope.
Open Scope Z_scope.

(** ** A worked delivery *)

Module Examples.
Definition item_for (plan id : string) (attempt : Z) (status : string) (run : option string)
    (worker : option string) : DeliveryOutboxItem :=
  {| it_outbox_id := id; it_event_id := "evt-1"; it_route_id := "route-1";
     it_delivery_plan_id := plan; it_target_adapter := "mesh";
     it_target_channel := Some "0"; it_target_address := None; it_attempt_number := attempt;
     it_active_attempt := None; it_status := Some status; it_failure_kind := None;
     it_failure_kind_detail := None; it_next_attempt_at := None; it_created_at := None;
     it_updated_at := None; it_last_attempt_at := None; it_locked_at := None;
     it_lease_until := None; it_worker_id := worker; it_payload_hash := None;
     it_receipt_id := None; it_parent_receipt_id := None; it_error_summary := None;
     it_dispatch_source := None; it_replay_run_id := run; it_metadata := None |}.

Definition item := item_for "plan-1".

Definition snapshot : OutboxDispatchSnapshotWrite :=
  {| sw_kind := "staged"; sw_context := [("route", JStr "route-1")] |}.

Definition all_work : claim_options :=
  {| excluded_adapters := []; initial_only := false; one_per_adapter := true |}.

(** An event, staged work for it, and its claim by a worker. *)
Definition staged : list outbox_op :=
  [OpEnvironment ["evt-1"] [] [];
   OpCreate 1000 (item "ob-1" 0 "pending" None None) false (Some snapshot)].

Definition claimed : list outbox_op :=
  staged ++ [OpClaim all_work 2000 (2000 + seconds 30) "worker-a" ["ob-1"]].

Definition sent : list outbox_op :=
  claimed ++ [OpReserve 3000 "ob-1" "worker-a" 0;
              OpSent 4000 "ob-1" (Some "rcpt-1") (Some 1) (Some "worker-a")].
End Examples.

(** ** History *)

(** C2: No sequence of operations rewrites history: a row is never deleted and
    keeps its identity columns, a row that reached a terminal status is
    exactly the same row forever, the effective attempt generation of a row
    never goes down, and receipts are only appended. *)
Theorem outbox_history_immutable ops d (i : nat) (r : Row) :
  outbox d !! i = Some r ->
  (exists r', outbox (exec ops d) !! i = Some r' /\
     row_fixed r' = row_fixed r /\
     (is_terminal_outbox_status (outbox_str (status r)) = true -> r' = r) /\
     generation r <= generation r') /\
  receipts d `prefix_of` receipts (exec ops d).
Proof.
  intros Hr. destruct (exec_evolves ops d) as [Hrows _ _ _ _ _ [Hrec _]]. split; [|done].
  destruct (Hrows i r Hr) as (r' & Hr' & [F T G]). exists r'. by split_and!.
Qed.

Lemma outbox_history_immutable_witness :
  exists r' : Row, outbox (exec [OpCancelled 9000 "ob-1" None None None None None]
                       (exec Examples.sent empty_db)) !! 0%nat = Some r' /\ status r' = Sent.
Proof.
  destruct (outbox (exec Examples.sent empty_db) !! 0%nat) as [r|] eqn:Hr; [|vm_compute in Hr; done].
  assert (status r = Sent) as Hs by (vm_compute in Hr; by injection Hr as <-).
  destruct (outbox_history_immutable [OpCancelled 9000 "ob-1" None None None None None] _ _ _ Hr)
    as [(r' & Hr' & _ & Ht & _) _].
  exists r'. split; [exact Hr'|]. rewrite Ht; [exact Hs|]. rewrite Hs. reflexivity.
Defined.

(** C4: In one operation a row's status stays, or moves along an edge of the
    transition table, or is the terminal finalization's move of a queued row
    to dead_lettered, which the table omits. *)
Theorem outbox_status_moves op d (i : nat) (r r' : Row) :
  outbox d !! i = Some r -> outbox (step op d) !! i = Some r' ->
  status r' = status r \/
  validate_outbox_transition (outbox_str (status r)) (outbox_str (status r')) = true \/
  (status r = Queued /\ status r' = DeadLettered).
Proof.
  intros Hr Hr'. destruct (st_rows _ _ (step_store_step op d) i r Hr) as (r2 & Hr2 & [_ Hm]).
  simplify_eq. destruct Hm as [Hm|?]; [|by auto].
  unfold outbox_move in Hm. breflect. destruct Hm; auto.
Qed.

Lemma outbox_status_moves_witness :
  exists r r' : Row, outbox (exec Examples.staged empty_db) !! 0%nat = Some r /\
    outbox (step (OpCancelled 9000 "ob-1" None None None None None)
              (exec Examples.staged empty_db)) !! 0%nat = Some r' /\
    status r' = Cancelled /\
    (status r' = status r \/
     validate_outbox_transition (outbox_str (status r)) (outbox_str (status r')) = true \/
     (status r = Queued /\ status r' = DeadLettered)).
Proof.
  eexists _, _. split_and!; [vm_compute; reflexivity|vm_compute; reflexivity|reflexivity|].
  apply (outbox_status_moves (OpCancelled 9000 "ob-1" None None None None None)
    (exec Examples.staged empty_db) 0%nat); vm_compute; reflexivity.
Defined.

(** C3: In every reachable database the schema holds and frozen dispatch
    contexts are bounded by the work they belong to: outbox identifiers are
    unique, no delivery has two rows at one attempt, a named replay run owns
    at most one row of a delivery, an attempt is reserved only on an
    in-progress row and only as the successor of its last finalized attempt,
    and every snapshot belongs to a row that is not terminal. *)
Theorem outbox_reachable_invariant d :
  reachable d ->
  NoDup ((fun r : Row => outbox_id r) <$> outbox d) /\
  NoDup (attempt_key <$> outbox d) /\
  NoDup (replay_key <$> filter (fun r => has_replay_run r = true) (outbox d)) /\
  (forall (r : Row) a, r ∈ outbox d -> active_attempt r = Some a ->
     status r = InProgress /\ a = attempt_number r + 1) /\
  (forall s, s ∈ snapshots d -> exists r : Row, r ∈ outbox d /\ outbox_id r = sn_outbox_id s /\
     is_terminal_outbox_status (outbox_str (status r)) = false).
Proof.
  intros Hd. pose proof (reachable_constraints d Hd) as Hc.
  pose proof (reachable_snapshots d Hd) as Hs.
  unfold outbox_constraints in Hc. breflect. destruct Hc as [[[Hck H1] H2] H3].
  split_and!; [by rewrite <- list_fmap_compose in H1|done|done| |exact Hs].
  intros r a Hr Ha. rewrite forallb_forall in Hck.
  specialize (Hck r (proj1 (list_elem_of_In _ _) Hr)). unfold row_check in Hck.
  rewrite Ha in Hck. breflect. split; [tauto|]. rewrite <- Z.eqb_eq. tauto.
Qed.

Lemma outbox_reachable_invariant_witness :
  let d := exec Examples.claimed empty_db in
  reachable d /\ length (snapshots d) = 1%nat /\
  NoDup ((fun r : Row => outbox_id r) <$> outbox d).
Proof.
  intros d. assert (reachable d) as Hd by (exists Examples.claimed; reflexivity).
  split; [exact Hd|]. split; [reflexivity|].
  exact (proj1 (outbox_reachable_invariant d Hd)).
Defined.

(** ** Rows by identifier *)

Lemma unique_row d (r s : Row) :
  outbox_constraints (outbox d) = true -> r ∈ outbox d -> s ∈ outbox d ->
  outbox_id r = outbox_id s -> r = s.
Proof.
  intros Hc%constraints_NoDup_ids Hr Hs Heq. rewrite <- list_fmap_compose in Hc.
  apply list_elem_of_lookup in Hr as [i Hi], Hs as [j Hj].
  assert (i = j) as ->; [|congruence].
  eapply (NoDup_lookup _ i j (outbox_id r)); [exact Hc| |]; rewrite list_lookup_fmap.
  - by rewrite Hi.
  - rewrite Hj. simpl. by rewrite Heq.
Qed.

Lemma find_outbox_Some d i r : find_outbox d i = Some r -> r ∈ outbox d /\ outbox_id r = i.
Proof.
  unfold find_outbox. intros [Hin H]%List.find_some. apply bool_decide_eq_true in H.
  split; [by apply list_elem_of_In|done].
Qed.

Lemma find_outbox_elem d (r : Row) :
  outbox_constraints (outbox d) = true -> r ∈ outbox d -> find_outbox d (outbox_id r) = Some r.
Proof.
  intros Hc Hr. destruct (find_outbox d (outbox_id r)) as [s|] eqn:E.
  - apply find_outbox_Some in E as [Hs Hid]. f_equal. by apply (unique_row d).
  - unfold find_outbox in E. exfalso.
    apply list_elem_of_In, (List.find_none _ _ E r) in Hr.
    by apply bool_decide_eq_false in Hr.
Qed.

Lemma exec_constraints ops d :
  outbox_constraints (outbox d) = true -> outbox_constraints (outbox (exec ops d)) = true.
Proof. apply (ev_constraints _ _ (exec_evolves ops d)). Qed.

Lemma exec_row ops d (r : Row) :
  r ∈ outbox d -> exists r' : Row, r' ∈ outbox (exec ops d) /\ row_evolves r r'.
Proof. apply rows_rel_elem, (ev_rows _ _ (exec_evolves ops d)). Qed.

Lemma elem_of_updated w s d (r : Row) :
  r ∈ outbox d -> w d r = true -> with_state r (s r) ∈ updated w s d.
Proof. intros Hr Hw. unfold updated. apply list_elem_of_fmap. exists r. by rewrite Hw. Qed.

(** ** Reservation *)

Lemma reserve_guard_facts w from i d r :
  reserve_guard w from i d r = true ->
  outbox_id r = i /\ worker_id r = Some w /\ status r = InProgress /\ active_attempt r = None /\
  attempt_number r = from /\
  forall s : Row, s ∈ outbox d -> outbox_id s <> i -> same_target s r = true ->
    generation s < from + 1.
Proof.
  unfold reserve_guard. rewrite !andb_true_iff, negb_true_iff, !bool_decide_eq_true, Z.eqb_eq.
  intros [[[[[Hi Hw] Hs] Ha] Hn] Hex]. split_and!; try done. intros s Hin Hne Hst.
  apply not_true_iff_false in Hex.
  destruct (Z.lt_ge_cases (generation s) (from + 1)) as [?|Hge]; [done|]. exfalso. apply Hex.
  apply existsb_exists. exists s. split; [by apply list_elem_of_In|].
  rewrite Hst, bool_decide_eq_false_2 by congruence. simpl. lia.
Qed.

Lemma reserve_Some now i w from d g d' :
  reserve_outbox_attempt now i w from d = (Ok (Some g), d') ->
  g = from + 1 /\ d' = set_outbox d (updated (reserve_guard w from i) (reserve_state now) d) /\
  exists r : Row, r ∈ outbox d /\ reserve_guard w from i d r = true.
Proof.
  unfold reserve_outbox_attempt, atomically.
  destruct (update_outbox _ _ d) as [[n d1]|e] eqn:Hu; [|by destruct e]. simpl.
  intros H. assert (d1 = d') as -> by congruence.
  assert (Hid : forall r, reserve_guard w from i d r = true -> outbox_id r = i)
    by (intros r Hg; by apply reserve_guard_facts in Hg as [? _]).
  destruct (update_rowcount _ _ _ _ _ i Hid Hu)
    as [[-> ->]|[-> (r & Hr & Hg & _)]]; [done|].
  simpl in H. apply update_outbox_Ok in Hu as (-> & _ & _).
  split; [congruence|]. split; [done|]. by exists r.
Qed.

(** Once attempt [g] is reserved on a row, that row never again represents an
    older generation, whatever operations follow. *)
Lemma reserved_generation ops d now i w f g d1 :
  outbox_constraints (outbox d) = true ->
  reserve_outbox_attempt now i w f d = (Ok (Some g), d1) ->
  outbox_constraints (outbox (exec ops d1)) = true /\
  forall r : Row, r ∈ outbox (exec ops d1) -> outbox_id r = i -> g <= generation r.
Proof.
  intros Hc H.
  assert (outbox_constraints (outbox d1) = true) as Hc1.
  { pose proof (step_evolves (OpReserve now i w f) d) as [_ _ HC _ _]. simpl in HC.
    rewrite H in HC. auto. }
  pose proof (exec_constraints ops _ Hc1) as Hc2. split; [done|]. intros r Hr Hi.
  apply reserve_Some in H as (-> & -> & q & Hq & Hg).
  apply reserve_guard_facts in Hg as Hf. destruct Hf as (Hqi & _ & _ & _ & Hqn & _).
  set (dr := set_outbox d (updated (reserve_guard w f i) (reserve_state now) d)) in *.
  destruct (exec_row ops dr (with_state q (reserve_state now q))) as (q' & Hq' & [F _ G]).
  { by apply elem_of_updated. }
  assert (q' = r) as <- by (apply (unique_row _ _ _ Hc2 Hq' Hr); rewrite F; simpl; congruence).
  unfold generation at 1 in G. simpl in G. lia.
Qed.

(** The generation counter of a delivery is consumed: after a reservation of
    [g], any later successful reservation for the same delivery is larger. *)
Lemma reservations_increase ops d now1 i1 w1 f1 g1 d1 now2 i2 w2 f2 g2 d2 (r1 r2 : Row) :
  outbox_constraints (outbox d) = true ->
  reserve_outbox_attempt now1 i1 w1 f1 d = (Ok (Some g1), d1) ->
  r1 ∈ outbox (exec ops d1) -> outbox_id r1 = i1 ->
  r2 ∈ outbox (exec ops d1) -> outbox_id r2 = i2 -> same_target r1 r2 = true ->
  reserve_outbox_attempt now2 i2 w2 f2 (exec ops d1) = (Ok (Some g2), d2) ->
  g1 < g2.
Proof.
  intros Hc H1 Hr1 Hi1 Hr2 Hi2 Hst H2.
  destruct (reserved_generation ops d now1 i1 w1 f1 g1 d1 Hc H1) as [Hc2 Hgen].
  specialize (Hgen r1 Hr1 Hi1).
  apply reserve_Some in H2 as (-> & _ & p & Hp & Hg2).
  apply reserve_guard_facts in Hg2 as (Hpi & _ & _ & Hpa & Hpn & Hsib).
  assert (p = r2) as -> by (apply (unique_row _ _ _ Hc2 Hp Hr2); congruence).
  destruct (decide (i1 = i2)) as [->|Hne].
  - assert (r1 = r2) as -> by (apply (unique_row _ _ _ Hc2 Hr1 Hr2); congruence).
    unfold generation in Hgen. rewrite Hpa in Hgen. simpl in Hgen. lia.
  - specialize (Hsib r1 Hr1 ltac:(congruence) Hst). lia.
Qed.

(** C1: An attempt generation of a delivery is handed out at most once: after a
    worker reserved attempt g, every reservation that any worker obtains later
    for the same event, plan, adapter and channel (on the same outbox row or
    on another generation's row), after any interleaving of operations, is for
    a strictly larger attempt number. *)
Theorem reservation_at_most_once ops d now1 i1 w1 f1 g1 d1 now2 i2 w2 f2 g2 d2 (r1 r2 : Row) :
  reachable d ->
  reserve_outbox_attempt now1 i1 w1 f1 d = (Ok (Some g1), d1) ->
  r1 ∈ outbox (exec ops d1) -> outbox_id r1 = i1 ->
  r2 ∈ outbox (exec ops d1) -> outbox_id r2 = i2 -> same_target r1 r2 = true ->
  reserve_outbox_attempt now2 i2 w2 f2 (exec ops d1) = (Ok (Some g2), d2) ->
  g1 < g2.
Proof. intros Hd. by apply reservations_increase, reachable_constraints. Qed.

Lemma reservation_at_most_once_witness :
  let d := exec Examples.claimed empty_db in
  let d1 := (reserve_outbox_attempt 3000 "ob-1" "worker-a" 0 d).2 in
  let ops := [OpRetryWait 4000 "ob-1" 5000 None None None None (Some 1) (Some "worker-a");
              OpClaim Examples.all_work 6000 (6000 + seconds 30) "worker-b" ["ob-1"]] in
  (reserve_outbox_attempt 7000 "ob-1" "worker-b" 1 (exec ops d1)).1 = Ok (Some 2) /\ 1 < 2.
Proof.
  intros d d1 ops. split; [vm_compute; reflexivity|].
  destruct (outbox (exec ops d1) !! 0%nat) as [r|] eqn:Hr; [|vm_compute in Hr; done].
  assert (r ∈ outbox (exec ops d1)) as Hin by (by eapply list_elem_of_lookup_2).
  assert (outbox_id r = "ob-1" /\ same_target r r = true) as [Hid Hst]
    by (vm_compute in Hr; injection Hr as <-; split; vm_compute; reflexivity).
  apply (reservation_at_most_once ops d 3000 "ob-1" "worker-a" 0 1 d1 7000 "ob-1" "worker-b" 1 2
    (reserve_outbox_attempt 7000 "ob-1" "worker-b" 1 (exec ops d1)).2 r r).
  - exists Examples.claimed. reflexivity.
  - vm_compute. reflexivity.
  - exact Hin.
  - exact Hid.
  - exact Hin.
  - exact Hid.
  - exact Hst.
  - vm_compute. reflexivity.
Defined.
