(* ===== verification/OutboxClaims.v ===== *)
(** * Claims: who gets which rows

    [claim_due_outbox_items] selects candidates, updates them conditionally
    and re-reads what it owns.  The theorems are about the whole sequence run
    alone (totality, selection, progress) and about the conditional UPDATE in
    an arbitrary state (exclusion between workers). *)

From S2P Require Import Prelude.
From S2P Require Import DeliveryState.
From S2P Require Import Delivery.
From S2P Require Import Store.
From S2P Require Import Outbox.
From S2P Require Import OutboxProofs.
From S2P Require Import OutboxSafety.

Open Scope string_scope.
Open Scope list_scope.
Open Scope Z_scope.

(** ** Constraints under updates that keep the attempt number *)

Lemma fmap_filter_map {A B} (k : A -> B) (P : A -> Prop) `{!forall x, Decision (P x)} (g : A -> A) (l : list A) :
  (forall x, P (g x) <-> P x) -> (forall x, k (g x) = k x) ->
  k <$> filter P (g <$> l) = k <$> filter P l.
Proof.
  intros HP Hk. induction l as [|x l IH]; simpl; [done|]. rewrite !filter_cons.
  specialize (HP x). specialize (Hk x).
  destruct (decide (P (g x))), (decide (P x)); simpl; [|tauto..|done].
  rewrite Hk. by f_equal.
Qed.

Lemma forallb_true {A} (f : A -> bool) l : forallb f l = true <-> forall x, x ∈ l -> f x = true.
Proof. rewrite forallb_forall. by setoid_rewrite list_elem_of_In. Qed.

Lemma constraints_row_check d (r : Row) :
  outbox_constraints (outbox d) = true -> r ∈ outbox d -> row_check r = true.
Proof. unfold outbox_constraints. breflect. rewrite forallb_true. naive_solver. Qed.

Lemma constraints_updated w s d :
  outbox_constraints (outbox d) = true ->
  (forall r : Row, r ∈ outbox d -> w d r = true ->
     row_check (with_state r (s r)) = true /\ attempt_number (s r) = attempt_number r) ->
  outbox_constraints (updated w s d) = true.
Proof.
  intros Hc Hw. pose proof (fun r => constraints_row_check d r Hc) as Hck.
  unfold outbox_constraints in *. rewrite !andb_true_iff, !bool_decide_eq_true in *.
  destruct Hc as [[[H0 H1] H2] H3]. split_and!.
  - apply forallb_true. intros r' (r & -> & Hr)%list_elem_of_fmap.
    destruct (w d r) eqn:E; [by apply Hw|by apply Hck].
  - by rewrite updated_fixed.
  - assert (attempt_key <$> updated w s d = attempt_key <$> outbox d) as ->; [|done].
    unfold updated. rewrite <- list_fmap_compose. apply list_fmap_ext. intros i r Hr. simpl.
    destruct (w d r) eqn:E; [|done]. unfold attempt_key. simpl.
    by rewrite (proj2 (Hw r ltac:(by eapply list_elem_of_lookup_2) E)).
  - unfold updated. rewrite fmap_filter_map; [done|..]; intros r; by destruct (w d r).
Qed.

(** ** The claim's UPDATE *)

Lemma claim_row_check now lease w (r : Row) :
  row_check r = true -> row_check (with_state r (claim_state now lease w r)) = true.
Proof.
  unfold row_check. simpl. rewrite !andb_true_iff. intros [[[[? Ha] ?] ?] ?]. split_and!; try done.
  destruct (active_attempt r); [|done]. rewrite andb_true_iff in Ha. destruct Ha as [-> _].
  reflexivity.
Qed.

Definition claim_where (o : claim_options) (now : instant) (ids : list string) (d : db) (r : Row)
    : bool := elem (outbox_id r) ids && claim_predicate o now d r.

(** On a database that satisfies the schema the UPDATE always commits. *)
Lemma claim_update_eq o now lease w ids d :
  outbox_constraints (outbox d) = true ->
  exists n, claim_update o now lease w ids d =
    (Ok n, set_outbox d (updated (claim_where o now ids) (claim_state now lease w) d)).
Proof.
  intros Hc. unfold claim_update, atomically, update_outbox.
  assert (outbox_constraints (updated (claim_where o now ids) (claim_state now lease w) d) = true)
    as HC.
  { apply constraints_updated; [done|]. intros r Hr _. split; [|done].
    by eapply claim_row_check, constraints_row_check. }
  unfold updated, claim_where in HC |- *. rewrite HC. simpl. by eexists.
Qed.

Lemma claim_predicate_facts o now d (r : Row) :
  claim_predicate o now d r = true ->
  (outbox_claimable (status r) = true \/ status r = InProgress \/
   (status r = Queued /\ updated_at r <= now - seconds STALE_QUEUED_GRACE_SECONDS)) /\
  null_or_le (next_attempt_at r) now = true /\ null_or_le (lease_until r) now = true /\
  no_newer_generation d r = true /\ claim_filters o now d r = true.
Proof. unfold claim_predicate. breflect. rewrite Z.leb_le. tauto. Qed.

(** A row whose lease is still running does not satisfy the predicate. *)
Lemma live_lease_not_claimable o now d (r : Row) t :
  lease_until r = Some t -> now < t -> claim_predicate o now d r = false.
Proof.
  intros Hl Ht. apply not_true_iff_false. intros (_ & _ & H & _)%claim_predicate_facts.
  unfold null_or_le in H. rewrite Hl in H. lia.
Qed.

Lemma existsb_map_ext {A} (f f' : A -> bool) (g : A -> A) (l : list A) :
  (forall x, f (g x) = f' x) -> existsb f (g <$> l) = existsb f' l.
Proof. intros Hf. induction l as [|x l IH]; [done|]. cbn. by rewrite Hf, <- IH. Qed.

Lemma no_newer_updated w s d (r r' : Row) :
  (forall x : Row, generation (s x) = generation x) ->
  row_fixed r' = row_fixed r -> generation r' = generation r ->
  no_newer_generation (set_outbox d (updated w s d)) r' = no_newer_generation d r.
Proof.
  intros Hs Hf Hg. unfold no_newer_generation. f_equal. apply existsb_map_ext.
  intros x. rewrite Hf, Hg. destruct (w d x); simpl; [|done]. by rewrite Hs.
Qed.

Lemma coalesce_fixed d r : row_fixed (coalesce_outbox d r) = row_fixed r.
Proof. unfold coalesce_outbox. by case_match. Qed.

Lemma coalesce_state d (r : Row) :
  status (coalesce_outbox d r) = status r /\ worker_id (coalesce_outbox d r) = worker_id r /\
  lease_until (coalesce_outbox d r) = lease_until r /\
  generation (coalesce_outbox d r) = generation r.
Proof. unfold coalesce_outbox. by case_match. Qed.

(** ** Selection *)

Lemma sql_limit_length {A} limit (l : list A) :
  0 <= limit -> Z.of_nat (length (sql_limit limit 0 l)) <= limit.
Proof. intros H. unfold sql_limit. case_match; [lia|]. simpl. rewrite length_take. lia. Qed.

Lemma sql_limit_nonempty {A} limit (l : list A) :
  limit <> 0 -> l <> [] -> sql_limit limit 0 l <> [].
Proof.
  intros Hlim Hl. unfold sql_limit. case_match; [done|]. simpl.
  destruct l as [|x l]; [done|]. destruct (Z.to_nat limit) eqn:E; [lia|]. done.
Qed.

Lemma claim_ranked_elem o now d r :
  r ∈ claim_ranked o now d <->
  r ∈ outbox d /\ claim_predicate o now d r = true /\
  (one_per_adapter o = true -> first_of_adapter (claim_eligible o now d) r = true).
Proof.
  unfold claim_ranked. rewrite elem_of_sorted_by, list_elem_of_filter.
  unfold claim_eligible at 2. rewrite list_elem_of_filter, orb_true_iff, negb_true_iff.
  destruct (one_per_adapter o); naive_solver.
Qed.

Lemma claim_select_elem o now limit d r :
  r ∈ claim_select o now limit d ->
  r ∈ outbox d /\ claim_predicate o now d r = true /\
  (one_per_adapter o = true -> first_of_adapter (claim_eligible o now d) r = true).
Proof.
  intros Hr. apply claim_ranked_elem.
  eapply elem_of_sublist; [exact Hr|apply sql_limit_sublist].
Qed.

(** Whenever some row is due, the ranking selects some row of its adapter. *)
Lemma claim_ranked_nonempty o now d r :
  r ∈ outbox d -> claim_predicate o now d r = true -> claim_ranked o now d <> [].
Proof.
  intros Hr Hp. assert (r ∈ claim_eligible o now d) as He by (by apply list_elem_of_filter).
  destruct (one_per_adapter o) eqn:Ho.
  - set (l := filter (fun s : Row => target_adapter s = target_adapter r) (claim_eligible o now d)).
    set (sl := sorted_by (on_key due_key (lex_leb Z.leb Z.leb)) l).
    assert (r ∈ sl) as Hin by (apply elem_of_sorted_by, list_elem_of_filter; done).
    destruct sl as [|h sl'] eqn:E; [by apply not_elem_of_nil in Hin|].
    assert (h ∈ l) as [Hh1 Hh2]%list_elem_of_filter by (apply (elem_of_sorted_by (on_key due_key (lex_leb Z.leb Z.leb))); fold sl; rewrite E; set_solver).
    assert (h ∈ claim_ranked o now d) as Hrk.
    { apply claim_ranked_elem. apply list_elem_of_filter in Hh2 as [? ?]. split_and!; try done.
      intros _. unfold first_of_adapter. rewrite Hh1. fold l. fold sl. rewrite E. simpl.
      by apply bool_decide_eq_true. }
    intros Hn. rewrite Hn in Hrk. set_solver.
  - assert (r ∈ claim_ranked o now d) as Hrk by (apply claim_ranked_elem; rewrite Ho; done).
    intros Hn. rewrite Hn in Hrk. set_solver.
Qed.

(** ** The whole claim *)

Lemma claimed_rows o now lease w limit d (r : Row) :
  outbox_constraints (outbox d) = true ->
  let ids := (fun r : Row => outbox_id r) <$> claim_select o now limit d in
  let d' := set_outbox d (updated (claim_where o now ids) (claim_state now lease w) d) in
  r ∈ claim_reread w ids d' <->
  exists r0, r0 ∈ claim_select o now limit d /\
    r = coalesce_outbox d' (with_state r0 (claim_state now lease w r0)).
Proof.
  intros Hc ids d'. unfold claim_reread. rewrite list_elem_of_fmap.
  assert (Hsel : forall r0 : Row, r0 ∈ outbox d -> outbox_id r0 ∈ ids -> r0 ∈ claim_select o now limit d).
  { intros r0 Hr0 (s & Hid & Hs)%list_elem_of_fmap.
    assert (r0 = s) as ->; [|done]. apply claim_select_elem in Hs as (Hs & _). by apply (unique_row d). }
  split.
  - intros (r1 & -> & [Hf Hr1]%list_elem_of_filter).
    apply list_elem_of_fmap in Hr1 as (r0 & -> & Hr0).
    rewrite !andb_true_iff, elem_true in Hf. destruct Hf as [[[Hid _] _] _].
    assert (outbox_id r0 ∈ ids) as Hid0 by (by destruct (claim_where o now ids d r0)).
    specialize (Hsel r0 Hr0 Hid0). exists r0. split; [done|].
    assert (claim_where o now ids d r0 = true) as ->; [|done].
    apply claim_select_elem in Hsel as (_ & Hp & _).
    unfold claim_where. rewrite Hp, andb_true_r. by apply elem_true.
  - intros (r0 & Hr0 & ->). eexists. split; [done|].
    apply claim_select_elem in Hr0 as Hf. destruct Hf as (Hin & Hp & _).
    assert (outbox_id r0 ∈ ids) as Hid by (apply list_elem_of_fmap; by exists r0).
    assert (claim_where o now ids d r0 = true) as Hw
      by (unfold claim_where; rewrite Hp, andb_true_r; by apply elem_true).
    apply list_elem_of_filter. split; [|by apply elem_of_updated].
    simpl. rewrite (proj2 (elem_true _ _) Hid), !bool_decide_eq_true_2 by done. simpl.
    unfold d'. rewrite (no_newer_updated _ _ d r0) by done.
    by apply claim_predicate_facts in Hp as (_ & _ & _ & -> & _).
Qed.

Lemma reread_length w ids d :
  outbox_constraints (outbox d) = true -> (length (claim_reread w ids d) <= length ids)%nat.
Proof.
  intros Hc%constraints_NoDup_ids. rewrite <- list_fmap_compose in Hc. unfold claim_reread.
  set (P := fun r : Row => _). rewrite length_fmap, <- (length_fmap (outbox_id ∘ row_fixed)).
  apply submseteq_length, NoDup_submseteq; [by apply NoDup_fmap_filter|].
  intros i (r & -> & [HP _]%list_elem_of_filter)%list_elem_of_fmap. unfold P in HP.
  rewrite !andb_true_iff, elem_true in HP. tauto.
Qed.

(** Claiming run alone always succeeds on a schema-valid store and returns
    exactly the selected rows, now in progress, owned by this worker until the
    end of the lease, each the newest generation of its delivery; at most
    [limit] of them; and if any row is due and the limit is not zero, at least
    one row is claimed. *)
Theorem claim_due_outbox_items_spec now w lease limit o d :
  reachable d -> 0 < limit ->
  exists rows d', claim_due_outbox_items now w lease limit o d = (Ok rows, d') /\
    Z.of_nat (length rows) <= limit /\
    (forall i, i ∈ ((fun r : Row => outbox_id r) <$> rows) <->
               i ∈ ((fun r : Row => outbox_id r) <$> claim_select o now limit d)) /\
    (forall r : Row, r ∈ rows ->
       status r = InProgress /\ worker_id r = Some w /\
       lease_until r = Some (now + seconds lease) /\ no_newer_generation d' r = true) /\
    ((exists r, r ∈ outbox d /\ claim_predicate o now d r = true) -> rows <> []).
Proof.
  intros Hd%reachable_constraints Hlim. unfold claim_due_outbox_items.
  cbv zeta. destruct (nonempty (claim_select o now limit d)) eqn:Hsel; cbn [negb].
  2: { apply nonempty_false in Hsel. exists [], d. rewrite Hsel. split_and!; [done|simpl; lia|done|set_solver|].
    intros (r & Hr & Hp) _. revert Hsel. unfold claim_select.
    apply sql_limit_nonempty; [lia|]. by eapply claim_ranked_nonempty. }
  apply nonempty_true in Hsel.
  set (ids := (fun r : Row => outbox_id r) <$> claim_select o now limit d).
  destruct (claim_update_eq o now (now + seconds lease) w ids d Hd) as (n & ->).
  set (d' := set_outbox d _). exists (claim_reread w ids d'), d'.
  pose proof (fun r => claimed_rows o now (now + seconds lease) w limit d r Hd) as Hrows.
  cbv zeta in Hrows. fold ids in Hrows. fold d' in Hrows.
  assert (Hids : forall i, i ∈ ((fun r : Row => outbox_id r) <$> claim_reread w ids d') <-> i ∈ ids).
  { intros i. unfold ids at 2. rewrite !list_elem_of_fmap. split.
    - intros (r & -> & (r0 & Hr0 & ->)%Hrows). exists r0. by rewrite coalesce_fixed.
    - intros (r0 & -> & Hr0). eexists. split; [|apply Hrows; by exists r0]. by rewrite coalesce_fixed. }
  split_and!; [done| |exact Hids| |].
  - pose proof (claim_update_step o now (now + seconds lease) w ids d) as [_ _ HC _ _].
    destruct (claim_update_eq o now (now + seconds lease) w ids d Hd) as (n' & Hn').
    rewrite Hn' in HC. simpl in HC. pose proof (reread_length w ids d' (HC Hd)) as Hlen.
    pose proof (sql_limit_length limit (claim_ranked o now d)) as Hlen'.
    assert (length ids = length (claim_select o now limit d)) as He by apply length_fmap.
    unfold claim_select in He. lia.
  - intros r (r0 & Hr0 & ->)%Hrows. destruct (coalesce_state d' (with_state r0 (claim_state now (now + seconds lease) w r0)))
      as (-> & -> & -> & Hg). split_and!; try done.
    unfold d' at 1. rewrite (no_newer_updated _ _ d r0); [|done|by rewrite coalesce_fixed|by rewrite Hg].
    apply claim_select_elem in Hr0 as (_ & Hp & _). apply claim_predicate_facts in Hp. tauto.
  - intros _ Hn. destruct (claim_select o now limit d) as [|s0 sel] eqn:E; [done|].
    specialize (Hids (outbox_id s0)). rewrite Hn in Hids. set_solver.
Qed.

Lemma claim_due_outbox_items_spec_witness :
  let d := exec Examples.staged empty_db in
  reachable d /\
  exists rows d', claim_due_outbox_items 2000 "worker-a" 30 20 Examples.all_work d = (Ok rows, d') /\
    rows <> [].
Proof.
  intros d. assert (reachable d) as Hd by (exists Examples.staged; reflexivity).
  split; [exact Hd|].
  destruct (claim_due_outbox_items_spec 2000 "worker-a" 30 20 Examples.all_work d Hd eq_refl)
    as (rows & d' & Heq & _ & _ & _ & Hne).
  exists rows, d'. split; [exact Heq|]. apply Hne.
  destruct (outbox d !! 0%nat) as [r|] eqn:Hr; [|vm_compute in Hr; done].
  exists r. split; [by eapply list_elem_of_lookup_2|].
  vm_compute in Hr. injection Hr as <-. vm_compute. reflexivity.
Defined.

(** ** Exclusion *)

Lemma claim_keeps o now lease w ids d (i : nat) (r : Row) :
  outbox d !! i = Some r -> claim_predicate o now d r = false ->
  outbox (claim_update o now lease w ids d).2 !! i = Some r.
Proof.
  intros Hr Hp. unfold claim_update, atomically.
  destruct (update_outbox _ _ d) as [[n d']|e] eqn:Hu; [|by destruct e].
  apply update_outbox_Ok in Hu as (-> & _). simpl. unfold updated.
  rewrite list_lookup_fmap, Hr. simpl. by rewrite Hp, andb_false_r.
Qed.

(** A claim never takes a row whose lease is still running, never touches
    a terminal row, and never touches a row superseded by another generation
    of the same delivery: such a row is left exactly as it was, whatever
    candidate identifiers the claiming worker selected earlier. *)
Theorem claim_respects_owners o now lease w ids d (i : nat) (r : Row) :
  outbox d !! i = Some r ->
  (exists t, lease_until r = Some t /\ now < t) \/
  is_terminal_outbox_status (outbox_str (status r)) = true \/
  (exists s : Row, s ∈ outbox d /\ outbox_id s <> outbox_id r /\ same_target s r = true /\
     generation r <= generation s) ->
  outbox (claim_update o now lease w ids d).2 !! i = Some r.
Proof.
  intros Hr Hprotected. apply claim_keeps; [done|].
  destruct Hprotected as [(t & Hl & Ht)|[Ht|(s & Hs & Hne & Hst & Hg)]].
  - by eapply live_lease_not_claimable.
  - apply not_true_iff_false. intros (Hs & _)%claim_predicate_facts.
    change (outbox_terminal (status r) = true) in Ht.
    apply outbox_terminal_cases in Ht as [E|[E|[E|E]]]; rewrite E in Hs;
      by destruct Hs as [?|[?|[? _]]].
  - apply not_true_iff_false. intros (_ & _ & _ & Hn & _)%claim_predicate_facts.
    unfold no_newer_generation in Hn. apply negb_true_iff, not_true_iff_false in Hn. apply Hn.
    apply existsb_exists. exists s. split; [by apply list_elem_of_In|].
    rewrite bool_decide_eq_false_2, Hst by done. simpl. lia.
Qed.

Lemma claim_respects_owners_witness :
  let d := exec Examples.claimed empty_db in
  outbox (claim_update Examples.all_work 5000 (5000 + seconds 30) "worker-b" ["ob-1"] d).2 !! 0%nat
  = outbox d !! 0%nat /\ is_Some (outbox d !! 0%nat).
Proof.
  intros d. destruct (outbox d !! 0%nat) as [r|] eqn:Hr; [|vm_compute in Hr; done].
  split; [|by eexists]. apply (claim_respects_owners _ _ _ _ _ d 0%nat r Hr). left.
  exists (2000 + seconds 30). vm_compute in Hr. injection Hr as <-. split; vm_compute; reflexivity.
Defined.

Lemma claim_reread_elem w ids d (r : Row) :
  r ∈ claim_reread w ids d ->
  exists r0 : Row, r0 ∈ outbox d /\ row_fixed r = row_fixed r0 /\ worker_id r0 = Some w /\
    status r0 = InProgress.
Proof.
  intros (r0 & -> & [Hf Hr0]%list_elem_of_filter)%list_elem_of_fmap. exists r0.
  rewrite coalesce_fixed. rewrite !andb_true_iff, !bool_decide_eq_true in Hf. tauto.
Qed.

(** C35: Two workers claiming one after the other, with any candidate
    identifiers, never own the same row: while the first worker's lease runs
    the second worker's claim returns none of the rows the first one returned,
    and those rows are still owned by the first worker.  The first worker's
    identifier is fresh: no row is owned under it before its claim (every claim
    draws a new random identifier). *)
Theorem claims_disjoint o1 now1 lease1 w1 ids1 o2 now2 lease2 w2 ids2 d (r1 r2 : Row) :
  reachable d -> w1 <> w2 -> now2 < lease1 ->
  let d1 := (claim_update o1 now1 lease1 w1 ids1 d).2 in
  let d2 := (claim_update o2 now2 lease2 w2 ids2 d1).2 in
  (forall r : Row, r ∈ outbox d -> worker_id r <> Some w1) ->
  r1 ∈ claim_reread w1 ids1 d1 -> r2 ∈ claim_reread w2 ids2 d2 ->
  outbox_id r1 <> outbox_id r2 /\
  exists r : Row, r ∈ outbox d2 /\ outbox_id r = outbox_id r1 /\ worker_id r = Some w1.
Proof.
  intros Hd%reachable_constraints Hw Hnow d1 d2 Hfresh H1 H2.
  destruct (claim_update_eq o1 now1 lease1 w1 ids1 d Hd) as (n1 & E1).
  assert (outbox_constraints (outbox d1) = true) as Hc1
    by (by apply (st_constraints _ _ (claim_update_step o1 now1 lease1 w1 ids1 d))).
  assert (outbox_constraints (outbox d2) = true) as Hc2
    by (by apply (st_constraints _ _ (claim_update_step o2 now2 lease2 w2 ids2 d1))).
  apply claim_reread_elem in H1 as (q1 & Hq1 & Hf1 & Hw1 & _).
  apply claim_reread_elem in H2 as (q2 & Hq2 & Hf2 & Hw2 & _).
  assert (lease_until q1 = Some lease1) as Hl.
  { unfold d1 in Hq1. rewrite E1 in Hq1. apply list_elem_of_fmap in Hq1 as (q & -> & Hq).
    destruct (claim_where o1 now1 ids1 d q); [done|]. by apply Hfresh in Hw1. }
  assert (q1 ∈ outbox d2) as Hq1'.
  { apply list_elem_of_lookup in Hq1 as [j Hj]. apply list_elem_of_lookup_2 with j.
    apply claim_keeps; [done|]. by eapply live_lease_not_claimable. }
  rewrite Hf1, Hf2. split; [|by exists q1].
  intros Heq. assert (q1 = q2) as -> by (by apply (unique_row d2)). congruence.
Qed.

Lemma claims_disjoint_witness :
  let d := exec (Examples.staged ++
    [OpCreate 1000 (Examples.item_for "plan-2" "ob-2" 1 "pending" None None) false None]) empty_db in
  let o := {| excluded_adapters := []; initial_only := false; one_per_adapter := false |} in
  let d1 := (claim_update o 2000 9000 "worker-a" ["ob-2"] d).2 in
  let d2 := (claim_update o 3000 9000 "worker-b" ["ob-1"; "ob-2"] d1).2 in
  exists r1 r2 : Row, r1 ∈ claim_reread "worker-a" ["ob-2"] d1 /\
    r2 ∈ claim_reread "worker-b" ["ob-1"; "ob-2"] d2 /\ outbox_id r1 <> outbox_id r2.
Proof.
  intros d o d1 d2.
  destruct (claim_reread "worker-a" ["ob-2"] d1) as [|r1 l1] eqn:H1; [vm_compute in H1; done|].
  destruct (claim_reread "worker-b" ["ob-1"; "ob-2"] d2) as [|r2 l2] eqn:H2; [vm_compute in H2; done|].
  exists r1, r2. split; [constructor|]. split; [constructor|].
  apply (claims_disjoint o 2000 9000 "worker-a" ["ob-2"] o 3000 9000 "worker-b" ["ob-1"; "ob-2"] d
    r1 r2).
  - eexists. reflexivity.
  - done.
  - done.
  - apply Forall_forall. vm_compute. repeat constructor; done.
  - fold d1. rewrite H1. constructor.
  - fold d1. fold d2. rewrite H2. constructor.
Defined.
