(* ===== verification/OutboxCreate.v ===== *)
(** * Creation: adoption, generation allocation, replay idempotency *)

From S2P Require Import Prelude.
From S2P Require Import Json.
From S2P Require Import DeliveryState.
From S2P Require Import Delivery.
From S2P Require Import Store.
From S2P Require Import Outbox.
From S2P Require Import OutboxProofs.
From S2P Require Import OutboxSafety.
From S2P Require Import OutboxClaims.

Open Scope string_scope.
Open Scope list_scope.
Open Scope Z_scope.

(** ** Identities of items and rows *)

Lemma opt_or_empty_inj x y : x <> Some "" -> y <> Some "" -> opt_or_empty x = opt_or_empty y -> x = y.
Proof. destruct x, y; simpl; congruence. Qed.

Lemma row_of_item_same_target item attempt st source now (r : Row) :
  target_channel r <> Some "" ->
  row_of_item item r = same_target r (item_row item attempt st source now) /\
  row_of_item_coalesced item r = same_target r (item_row item attempt st source now).
Proof.
  intros Hn. unfold row_of_item, row_of_item_coalesced, same_target. simpl. split; [|done].
  f_equal. apply bool_decide_ext. split; [congruence|].
  apply opt_or_empty_inj; [done|apply opt_or_none_not_empty].
Qed.

Lemma newest_first_total : TotalLe newest_first.
Proof. unfold newest_first. apply _. Qed.

Lemma select_adoptable_Some item d i :
  select_adoptable item d = Some i ->
  exists r : Row, r ∈ outbox d /\ outbox_id r = i /\ adoptable item r = true /\
    forall s : Row, s ∈ outbox d -> adoptable item s = true -> generation s <= generation r.
Proof.
  unfold select_adoptable. intros (r & Hr & ->)%fmap_Some.
  apply max_by_Some in Hr as [Hin Hmax]; [|apply newest_first_total].
  apply list_elem_of_filter in Hin as [Ha Hin]. exists r. split_and!; try done.
  intros s Hs Has. specialize (Hmax s ltac:(by apply list_elem_of_filter)).
  unfold newest_first, on_key, lex_leb in Hmax. simpl in Hmax. breflect. lia.
Qed.

Lemma select_adoptable_None item d :
  select_adoptable item d = None -> forall r : Row, r ∈ outbox d -> adoptable item r = false.
Proof.
  unfold select_adoptable. intros Hn%fmap_None%max_by_None r Hr.
  apply not_true_iff_false. intros Ha.
  assert (r ∈ filter (fun r => adoptable item r = true) (outbox d)) as Hin
    by (by apply list_elem_of_filter).
  rewrite Hn in Hin. by apply not_elem_of_nil in Hin.
Qed.

Lemma select_max_generation_ge item d (r : Row) :
  r ∈ outbox d -> row_of_item_coalesced item r = true ->
  generation r <= default 0 (select_max_generation item d).
Proof.
  intros Hr Hi. unfold select_max_generation.
  destruct (max_by Z.leb _) as [m|] eqn:E; simpl.
  - apply max_by_Some in E as [_ Hmax]; [|apply _]. apply Z.leb_le, Hmax.
    apply list_elem_of_fmap. exists r. split; [done|]. by apply list_elem_of_filter.
  - apply max_by_None, fmap_nil_inv in E.
    assert (r ∈ filter (fun r => row_of_item_coalesced item r = true) (outbox d)) as Hin
      by (by apply list_elem_of_filter).
    rewrite E in Hin. by apply not_elem_of_nil in Hin.
Qed.

Lemma reread_find d (r : Row) :
  outbox_constraints (outbox d) = true -> r ∈ outbox d ->
  reread d (outbox_id r) = Ok (coalesce_outbox d r).
Proof. intros Hc Hr. unfold reread, get_outbox_item. by rewrite (find_outbox_elem d r Hc Hr). Qed.

(** ** Adoption *)

(** Plain creation never restarts work that exists: when the delivery has a
    row at or above the requested attempt (finalized or reserved), creation
    returns the newest such row, whatever its status, and changes nothing. *)
Theorem create_adopts_existing now item snap d st source dl (r : Row) :
  reachable d ->
  create_checks item false snap = Ok (st, source) -> snapshot_deadline snap = Ok dl ->
  r ∈ outbox d -> adoptable item r = true ->
  exists r' : Row, r' ∈ outbox d /\ adoptable item r' = true /\ generation r <= generation r' /\
    create_outbox_item now item false snap d = (Ok (coalesce_outbox d r'), d).
Proof.
  intros Hd%reachable_constraints Hck Hdl Hr Ha.
  unfold create_outbox_item. rewrite Hck, Hdl. cbv zeta. unfold atomically.
  rewrite plain_create_run.
  destruct (select_adoptable item d) as [i|] eqn:Hsel.
  - apply select_adoptable_Some in Hsel as (r' & Hr' & <- & Ha' & Hmax).
    exists r'. split_and!; auto. by rewrite reread_find.
  - apply select_adoptable_None with (r := r) in Hsel; [congruence|done].
Qed.

Lemma create_adopts_existing_witness :
  let d := exec Examples.sent empty_db in
  exists r', create_outbox_item 9000 (Examples.item "ob-9" 1 "pending" None None) false None d
    = (Ok r', d).
Proof.
  intros d. destruct (outbox d !! 0%nat) as [r|] eqn:Hr; [|vm_compute in Hr; done].
  assert (adoptable (Examples.item "ob-9" 1 "pending" None None) r = true) as Ha
    by (vm_compute in Hr; injection Hr as <-; vm_compute; reflexivity).
  destruct (create_adopts_existing 9000 (Examples.item "ob-9" 1 "pending" None None) None d
    Pending "live" None r) as (r' & _ & _ & _ & Heq).
  - exists Examples.sent. reflexivity.
  - reflexivity.
  - reflexivity.
  - by eapply list_elem_of_lookup_2.
  - exact Ha.
  - eexists. exact Heq.
Defined.

(** ** New generations *)

(** A creation that changed the outbox ran the insertion and re-read its row. *)
Lemma create_ran now item alloc snap d r d' :
  create_outbox_item now item alloc snap d = (Ok r, d') -> outbox d' <> outbox d ->
  exists attempt st source dl b,
    create_checks item alloc snap = Ok (st, source) /\
    attempt = (if alloc then default 0 (select_max_generation item d) + 1
               else it_attempt_number item) /\
    (alloc = true -> it_active_attempt item = None) /\
    (alloc = false -> select_adoptable item d = None) /\
    create_tail item (item_row item attempt st source now) now dl b snap d = Ok (None, d') /\
    reread d' (it_outbox_id item) = Ok r.
Proof.
  unfold create_outbox_item.
  destruct (create_checks item alloc snap) as [[st source]|] eqn:Hck; [|congruence].
  destruct (snapshot_deadline snap) as [dl|]; [|congruence]. cbv zeta. destruct alloc.
  - destruct (bool_decide _) eqn:Hact; [congruence|].
    apply bool_decide_eq_false, dec_stable in Hact.
    unfold atomically. rewrite generation_create_run.
    destruct (if opt_truthy _ then _ else _); [intros; simplify_eq|].
    destruct (create_tail _ _ _ _ _ _ d) as [[a dx]|e] eqn:Hr; [|destruct e; congruence].
    pose proof Hr as (_ & _ & -> & _)%create_tail_inv. intros [= Hrr ->] _.
    by eexists _, st, source, dl, _.
  - unfold atomically. rewrite plain_create_run.
    destruct (select_adoptable item d) eqn:Hsel; [intros; simplify_eq|].
    destruct (create_tail _ _ _ _ _ _ d) as [[a dx]|e] eqn:Hr.
    + pose proof Hr as (_ & _ & -> & _)%create_tail_inv. intros [= Hrr ->] _.
      by eexists _, st, source, dl, _.
    + destruct e; try congruence. rewrite Hsel. congruence.
Qed.

Lemma create_inserts now item alloc snap d r d' :
  outbox_constraints (outbox d) = true ->
  create_outbox_item now item alloc snap d = (Ok r, d') -> outbox d' <> outbox d ->
  exists attempt st source (d1 : db),
    (st = Pending \/ st = InProgress) /\
    attempt = (if alloc then default 0 (select_max_generation item d) + 1
               else it_attempt_number item) /\
    (alloc = true -> it_active_attempt item = None) /\
    (alloc = false -> select_adoptable item d = None) /\
    insert_outbox (item_row item attempt st source now) d = Ok (tt, d1) /\
    dresses (it_outbox_id item) d1 d' /\
    r = coalesce_outbox d' (item_row item attempt st source now).
Proof.
  intros Hc H Hne. pose proof (st_constraints _ _ (create_step now item alloc snap d)) as HC.
  rewrite H in HC. specialize (HC Hc). simpl in HC.
  destruct (create_ran _ _ _ _ _ _ _ H Hne)
    as (attempt & st & source & dl & b & [Hst _]%create_checks_status & Hatt & Hact & Hsel & Ht & Hrr).
  apply create_tail_inv in Ht as (d1 & Hi & _ & Hd). exists attempt, st, source, d1. split_and!; try done.
  assert (item_row item attempt st source now ∈ outbox d') as Hin.
  { destruct Hd as [Ho _]. unfold same in Ho. rewrite Ho.
    apply insert_outbox_Ok in Hi as (-> & _). simpl. set_solver. }
  change (it_outbox_id item) with (outbox_id (item_row item attempt st source now)) in Hrr.
  rewrite reread_find in Hrr by done. congruence.
Qed.

Lemma run_ops_app_Ok ops1 ops2 d u d' :
  run_ops (ops1 ++ ops2) d = Ok (u, d') ->
  exists d1, run_ops ops1 d = Ok (tt, d1) /\ run_ops ops2 d1 = Ok (u, d').
Proof.
  revert d. induction ops1 as [|op ops IH]; intros d; [by exists d|]. simpl.
  unfold mbind, tx_bind. destruct (op d) as [[[] d1]|]; [|done]. apply IH.
Qed.

(** The frozen dispatch context is stored with the new row. *)
Lemma create_tail_snapshot item attempt st source now dl b s d a d' :
  outbox_constraints (outbox d') = true ->
  create_tail item (item_row item attempt st source now) now dl b (Some s) d = Ok (a, d') ->
  {| sn_outbox_id := it_outbox_id item; sn_attempt_number := attempt;
     sn_version := OUTBOX_DISPATCH_SNAPSHOT_VERSION; sn_kind := sw_kind s; sn_context := sw_context s;
     sn_created_at := now |} ∈ snapshots d' /\ elem (sw_kind s) OUTBOX_DISPATCH_SNAPSHOT_KINDS = true.
Proof.
  intros Hc H. pose proof H as (d1 & Hi & _ & (Ho & _))%create_tail_inv.
  apply insert_outbox_Ok in Hi as (-> & _). unfold same in Ho. simpl in Ho.
  set (r := item_row item attempt st source now) in *.
  assert (r ∈ outbox d') as Hin by (rewrite Ho; set_solver).
  unfold create_tail in H. apply tx_bind_Ok in H as ([] & d1 & Hi & H).
  apply tx_bind_Ok in H as ([] & d2 & Hdep & H). apply tx_bind_Ok in H as ([] & d3 & Hops & [= _ <-]).
  apply run_ops_app_Ok in Hops as (d4 & _ & Hs). simpl in Hs.
  apply tx_bind_Ok in Hs as ([] & d5 & Hs & [= <-]). unfold snapshot_op, insert_outbox_snapshot in Hs.
  assert (outbox d5 = outbox d4) as Hout by (revert Hs; repeat (case_match; try done); by intros [= <-]).
  replace (find_outbox d4 (it_outbox_id item)) with (Some r) in Hs.
  - destruct (elem (sw_kind s) OUTBOX_DISPATCH_SNAPSHOT_KINDS) eqn:Hk; [|by rewrite orb_true_r in Hs].
    case_match; [done|]. injection Hs as <-. split; [simpl; set_solver|done].
  - symmetry. change (it_outbox_id item) with (outbox_id r). rewrite Hout in Hc, Hin.
    by apply find_outbox_elem.
Qed.

(** Whenever creation adds a row, plain or replay, the new row opens a
    generation strictly newer than every existing row of the same delivery,
    starts as pending or in progress, and no other row changes. *)
Theorem create_opens_newest_generation now item alloc snap d r d' :
  reachable d ->
  create_outbox_item now item alloc snap d = (Ok r, d') -> outbox d' <> outbox d ->
  exists r0 : Row, outbox d' = outbox d ++ [r0] /\ outbox_id r0 = it_outbox_id item /\
    row_fixed r = row_fixed r0 /\ (status r0 = Pending \/ status r0 = InProgress) /\
    (alloc = true -> attempt_number r0 = default 0 (select_max_generation item d) + 1) /\
    forall s : Row, s ∈ outbox d -> same_target s r0 = true -> generation s < generation r0.
Proof.
  intros Hd H Hne. pose proof (reachable_constraints d Hd) as Hc.
  pose proof (reachable_channels d Hd) as Hch.
  destruct (create_inserts _ _ _ _ _ _ _ Hc H Hne)
    as (attempt & st & source & d1 & Hst & Hatt & Hact & Hsel & Hi & (Ho & _ & _) & ->).
  apply insert_outbox_Ok in Hi as (-> & Hcn & _). unfold same in Ho. simpl in Ho.
  exists (item_row item attempt st source now).
  split_and!; [done|done|by rewrite coalesce_fixed|done|by intros ->|].
  intros s Hs Ht.
  destruct (row_of_item_same_target item attempt st source now s (Hch s Hs)) as [Hi1 Hi2].
  assert (attempt <= generation (item_row item attempt st source now)) as Hgen.
  { assert (row_check (item_row item attempt st source now) = true) as Hck.
    { apply (constraints_row_check (set_outbox d (outbox d ++ [item_row item attempt st source now])));
        [done|]. simpl. set_solver. }
    unfold row_check in Hck. unfold generation. simpl in *.
    destruct (it_active_attempt item); simpl in *; [|lia]. breflect. lia. }
  destruct alloc; cbv match in Hatt.
  - rewrite <- Hi2 in Ht. pose proof (select_max_generation_ge item d s Hs Ht). lia.
  - rewrite <- Hi1 in Ht. pose proof (select_adoptable_None _ _ (Hsel eq_refl) s Hs) as Ha.
    unfold adoptable in Ha. rewrite Ht, andb_true_l, orb_false_iff, Z.leb_gt in Ha.
    destruct Ha as [Ha1 Ha2].
    eapply Z.lt_le_trans; [|exact Hgen]. unfold generation. revert Ha2.
    destruct (active_attempt s); simpl; lia.
Qed.

Lemma create_opens_newest_generation_witness :
  let d := exec Examples.sent empty_db in
  let c := create_outbox_item 9000 (Examples.item "ob-9" 1 "pending" (Some "run-1") None) true None d in
  exists r0 : Row, outbox c.2 = outbox d ++ [r0] /\ attempt_number r0 = 2.
Proof.
  intros d c.
  destruct c as [[r|] d'] eqn:Hc; [|vm_compute in Hc; done].
  destruct (create_opens_newest_generation 9000
    (Examples.item "ob-9" 1 "pending" (Some "run-1") None) true None d r d')
    as (r0 & Ho & _ & _ & _ & Ha & _).
  - exists Examples.sent. reflexivity.
  - exact Hc.
  - intros He. assert (length (outbox c.2) = 2%nat) as Hl by (vm_compute; reflexivity).
    rewrite Hc in Hl. cbn [snd] in Hl. rewrite He in Hl. vm_compute in Hl. done.
  - exists r0. split; [exact Ho|]. rewrite (Ha eq_refl). vm_compute. reflexivity.
Defined.

(** ** Replay runs *)

Lemma unique_replay_row d (p q : Row) :
  outbox_constraints (outbox d) = true -> p ∈ outbox d -> q ∈ outbox d ->
  has_replay_run p = true -> has_replay_run q = true -> replay_key p = replay_key q -> p = q.
Proof.
  unfold outbox_constraints. rewrite !andb_true_iff, !bool_decide_eq_true.
  intros [_ Hnd] Hp Hq Hrp Hrq Hk.
  assert (p ∈ filter (fun r => has_replay_run r = true) (outbox d)) as Hp' by (by apply list_elem_of_filter).
  assert (q ∈ filter (fun r => has_replay_run r = true) (outbox d)) as Hq' by (by apply list_elem_of_filter).
  apply list_elem_of_lookup in Hp' as [i Hi], Hq' as [j Hj].
  assert (i = j) as ->; [|congruence].
  eapply (NoDup_lookup _ i j (replay_key p)); [exact Hnd| |]; rewrite list_lookup_fmap.
  - by rewrite Hi.
  - rewrite Hj. simpl. by rewrite Hk.
Qed.

(** [q] is the row of the item's delivery owned by the item's replay run. *)
Definition run_owner (item : DeliveryOutboxItem) (q : Row) : Prop :=
  row_of_item_coalesced item q = true /\ replay_run_id q = it_replay_run_id item.

Lemma run_owner_key item (p q : Row) :
  opt_truthy (it_replay_run_id item) = true -> run_owner item p -> run_owner item q ->
  has_replay_run p = true /\ has_replay_run q = true /\ replay_key p = replay_key q.
Proof.
  intros Hrun [Hp Hpr] [Hq Hqr]. unfold has_replay_run, replay_key. rewrite Hpr, Hqr.
  split_and!; [done..|]. unfold row_of_item_coalesced in Hp, Hq. breflect.
  destruct_and!. congruence.
Qed.

Lemma select_replay_run_owner item d (q : Row) :
  outbox_constraints (outbox d) = true -> opt_truthy (it_replay_run_id item) = true ->
  q ∈ outbox d -> run_owner item q -> select_replay_run item d = Some (outbox_id q).
Proof.
  intros Hc Hrun Hq Hown. unfold select_replay_run.
  destruct (List.find _ (outbox d)) as [p|] eqn:E; simpl.
  - apply List.find_some in E as [Hp%list_elem_of_In Hf].
    rewrite andb_true_iff, bool_decide_eq_true in Hf.
    destruct (run_owner_key item p q Hrun Hf Hown) as (? & ? & ?).
    by rewrite (unique_replay_row d p q).
  - apply list_elem_of_In, (List.find_none _ _ E q) in Hq.
    destruct Hown as [H1 H2]. rewrite H1, bool_decide_eq_true_2 in Hq by done. done.
Qed.

Lemma create_run_owner now item snap d r d' :
  outbox_constraints (outbox d) = true -> opt_truthy (it_replay_run_id item) = true ->
  create_outbox_item now item true snap d = (Ok r, d') ->
  exists q : Row, q ∈ outbox d' /\ row_fixed r = row_fixed q /\ run_owner item q.
Proof.
  intros Hc Hrun H. revert H. unfold create_outbox_item.
  destruct (create_checks item true snap) as [[st source]|] eqn:Hck; [|congruence].
  destruct (snapshot_deadline snap) as [dl|]; [|congruence]. cbv zeta.
  case_match; [congruence|]. unfold atomically. rewrite generation_create_run, Hrun.
  destruct (select_replay_run item d) as [i|] eqn:Hsel.
  - intros [= Hrr <-]. unfold select_replay_run in Hsel. apply fmap_Some in Hsel as (q & Hq & ->).
    apply List.find_some in Hq as [Hin%list_elem_of_In Hf].
    rewrite andb_true_iff, bool_decide_eq_true in Hf.
    rewrite reread_find in Hrr by done. injection Hrr as <-. exists q. by rewrite coalesce_fixed.
  - destruct (create_tail _ _ _ _ _ _ d) as [[a dx]|e] eqn:Hr; [|destruct e; congruence].
    apply create_tail_inv in Hr as (d1 & Hi & -> & (Ho & _ & _)). intros [= Hrr ->].
    apply insert_outbox_Ok in Hi as (-> & Hcn & _). unfold same in Ho. simpl in Ho.
    set (q := item_row _ _ _ _ _) in *.
    assert (q ∈ outbox d') as Hq by (rewrite Ho; set_solver).
    change (it_outbox_id item) with (outbox_id q) in Hrr.
    rewrite (reread_find d' q ltac:(by rewrite Ho) Hq) in Hrr. injection Hrr as <-. exists q.
    rewrite coalesce_fixed. split; [done|]. split; [done|]. split.
    + unfold row_of_item_coalesced. by rewrite !andb_true_iff, !bool_decide_eq_true.
    + simpl. destruct (it_replay_run_id item) as [s|]; [|done]. simpl in *.
      unfold or_none. by rewrite Hrun.
Qed.

(** C36: A named replay run is an idempotency key: once a run created a row for a
    delivery, replaying the same run for that delivery again, after any other
    operations, returns the same row and writes nothing. *)
Theorem replay_run_idempotent now1 item1 snap1 d r1 d1 ops now2 item2 snap2 st source dl :
  reachable d -> opt_truthy (it_replay_run_id item1) = true ->
  create_outbox_item now1 item1 true snap1 d = (Ok r1, d1) ->
  it_event_id item2 = it_event_id item1 ->
  it_delivery_plan_id item2 = it_delivery_plan_id item1 ->
  it_target_adapter item2 = it_target_adapter item1 ->
  opt_or_none (it_target_channel item2) = opt_or_none (it_target_channel item1) ->
  it_replay_run_id item2 = it_replay_run_id item1 ->
  create_checks item2 true snap2 = Ok (st, source) -> snapshot_deadline snap2 = Ok dl ->
  it_active_attempt item2 = None ->
  exists r2, create_outbox_item now2 item2 true snap2 (exec ops d1) = (Ok r2, exec ops d1) /\
    row_fixed r2 = row_fixed r1.
Proof.
  intros Hd%reachable_constraints Hrun H1 He Hp Ha Hch Hr Hck Hdl Hact.
  destruct (create_run_owner _ _ _ _ _ _ Hd Hrun H1) as (q & Hq & Hf & Hown).
  assert (outbox_constraints (outbox d1) = true) as Hc1.
  { pose proof (st_constraints _ _ (create_step now1 item1 true snap1 d)) as HC.
    rewrite H1 in HC. auto. }
  pose proof (exec_constraints ops d1 Hc1) as Hc2.
  destruct (exec_row ops d1 q Hq) as (q' & Hq' & [F _ _]).
  assert (run_owner item2 q') as Hown2.
  { destruct Hown as [Hi Hrr]. split; [|by rewrite F, Hrr].
    unfold row_of_item_coalesced in *. by rewrite F, He, Hp, Ha, Hch. }
  assert (opt_truthy (it_replay_run_id item2) = true) as Hrun2 by (by rewrite Hr).
  unfold create_outbox_item. rewrite Hck, Hdl. cbv zeta. rewrite Hact.
  rewrite bool_decide_eq_false_2 by (intros Hne; by apply Hne).
  unfold atomically. rewrite generation_create_run, Hrun2.
  rewrite (select_replay_run_owner item2 _ q' Hc2 Hrun2 Hq' Hown2).
  rewrite reread_find by done. eexists. split; [done|]. rewrite coalesce_fixed. congruence.
Qed.

Lemma replay_run_idempotent_witness :
  let d := exec Examples.sent empty_db in
  let replay id := create_outbox_item 9000 (Examples.item id 1 "pending" (Some "run-1") None) true None in
  exists r2, replay "ob-10" (exec [OpCancelled 9500 "ob-9" None None None None None] (replay "ob-9" d).2) =
    (Ok r2, exec [OpCancelled 9500 "ob-9" None None None None None] (replay "ob-9" d).2) /\
    outbox_id r2 = "ob-9".
Proof.
  intros d replay. destruct (replay "ob-9" d) as [[r1|] d1] eqn:H1; [|vm_compute in H1; done].
  destruct (replay_run_idempotent 9000 (Examples.item "ob-9" 1 "pending" (Some "run-1") None) None d r1 d1
    [OpCancelled 9500 "ob-9" None None None None None] 9000
    (Examples.item "ob-10" 1 "pending" (Some "run-1") None) None Pending "replay" None)
    as (r2 & Heq & Hf).
  - exists Examples.sent. reflexivity.
  - reflexivity.
  - exact H1.
  - reflexivity.
  - reflexivity.
  - reflexivity.
  - reflexivity.
  - reflexivity.
  - reflexivity.
  - reflexivity.
  - reflexivity.
  - exists r2. split; [exact Heq|]. rewrite Hf.
    vm_compute in H1. injection H1 as <- _. reflexivity.
Defined.
