(* ===== verification/OutboxFinalize.v ===== *)
(** * Fenced transitions and atomic finalization

    Status transitions and the two cross-table finalizations are
    all-or-nothing: they commit against exactly the attempt they name or write
    nothing at all. *)

From S2P Require Import Prelude.
From S2P Require Import Json.
From S2P Require Import DeliveryState.
From S2P Require Import Delivery.
From S2P Require Import Store.
From S2P Require Import Outbox.
From S2P Require Import OutboxProofs.
From S2P Require Import OutboxSafety.

Open Scope string_scope.
Open Scope list_scope.
Open Scope Z_scope.

(** ** Status transitions *)

Lemma transition_guard_facts a i d (r : Row) :
  transition_guard a i d r = true ->
  outbox_id r = i /\ outbox_terminal (status r) = false /\
  (forall n, ta_attempt_number a = Some n ->
     (active_attempt r = None /\ attempt_number r <= n) \/ active_attempt r = Some n) /\
  (forall w, ta_expected_worker_id a = Some w -> worker_id r = Some w) /\
  (forall from, ta_allowed_from a = Some from -> status r ∈ from).
Proof.
  unfold transition_guard. rewrite !andb_true_iff, negb_true_iff, bool_decide_eq_true.
  intros [[[[Hi Ht] Ha] Hw] Hf]. split_and!; try done.
  - intros n Hn. rewrite Hn in Ha. rewrite orb_true_iff, andb_true_iff, !bool_decide_eq_true, Z.leb_le in Ha.
    done.
  - intros w Hn. rewrite Hn, bool_decide_eq_true in Hw. done.
  - intros from Hn. rewrite Hn, elem_true in Hf. done.
Qed.

Lemma transition_run_false a st i now d n d' :
  (let update := update_outbox (transition_guard a i) (transition_state a st now) in
   let follow_ups := outbox_diagnostic_ops (transition_diagnostics a st) now i in
   if outbox_terminal st
   then sync_transition_outbox_and_settle update i now (follow_ups ++ [retire_outbox_snapshot i])
   else sync_write_with_followups update follow_ups) d = Ok (n, d') ->
  (n = 0 /\ d' = d) \/
  (n = 1 /\ exists r : Row, r ∈ outbox d /\ transition_guard a i d r = true /\
     outbox d' = updated (transition_guard a i) (transition_state a st now) d /\
     (outbox_terminal st = true -> forall s, s ∈ snapshots d' -> sn_outbox_id s <> i)).
Proof.
  cbv zeta. assert (Hid : forall r, transition_guard a i d r = true -> outbox_id r = i)
    by (intros r Hg; by apply transition_guard_facts in Hg as [? _]).
  set (ops := outbox_diagnostic_ops _ _ _).
  assert (Forall (tx_rel quiet) ops) as Hops by (unfold ops; auto with keeps).
  destruct (outbox_terminal st).
  - intros (n1 & d1 & Hu & H)%tx_bind_Ok.
    destruct (update_rowcount _ _ _ _ _ i Hid Hu) as [[-> ->]|[-> (r & Hr & Hg & _)]].
    { left. cbn in H. by injection H as <- <-. }
    right. apply update_outbox_Ok in Hu as (-> & _).
    assert (n = 1) as -> by (apply tx_bind_Ok in H as ([] & ? & _ & [= <- _]); done).
    split; [done|]. exists r. split; [done|]. split; [done|].
    apply (settles_transition i now ops 1 Hops) in H as (Ho & _ & Hs).
    split; [exact Ho|]. intros _ s. rewrite Hs. intros [? _]%list_elem_of_filter. done.
  - intros (n1 & d1 & Hu & H)%tx_bind_Ok.
    destruct (update_rowcount _ _ _ _ _ i Hid Hu) as [[-> ->]|[-> (r & Hr & Hg & _)]].
    { left. cbn in H. by injection H as <- <-. }
    right. apply update_outbox_Ok in Hu as (-> & _).
    assert (n = 1) as -> by (apply tx_bind_Ok in H as ([] & ? & _ & [= <- _]); done).
    split; [done|]. exists r. split; [done|]. split; [done|]. split; [|done].
    apply (tx_rel_bind quiet) in H as (Ho & _ & _); [exact Ho|auto with keeps..].
Qed.

Lemma transition_outcome now i s st a d b d' :
  parse_outbox_status s = Some st ->
  update_outbox_status now i s a d = (Ok b, d') ->
  if b then
    exists r : Row, r ∈ outbox d /\ transition_guard a i d r = true /\
      outbox d' = updated (transition_guard a i) (transition_state a st now) d /\
      (outbox_terminal st = true -> forall s, s ∈ snapshots d' -> sn_outbox_id s <> i)
  else d' = d.
Proof.
  intros Hp. unfold update_outbox_status. rewrite Hp. case_match; [congruence|]. cbv zeta.
  unfold atomically.
  match goal with |- context [ (if outbox_terminal st then ?x else ?y) d ] =>
    destruct ((if outbox_terminal st then x else y) d) as [[n dx]|e] eqn:Hr end.
  2: { destruct e; simpl; congruence. }
  simpl. intros [= <- <-].
  destruct (transition_run_false a st i now d n dx Hr) as [[-> ->]|[-> (r & Hin & Hg & Ho & Hs)]].
  - done.
  - simpl. exists r. by split_and!.
Qed.

(** A status transition is fenced by identity, attempt and owner: when it
    reports success the row existed, was not terminal, was in an allowed
    source status, its reservation (or, without one, its finalized attempt)
    admitted the named attempt and the expected worker owned it; that row and
    no other took the new state, and a terminal transition retired the row's
    frozen dispatch context.  When it reports failure nothing was written. *)
Theorem transition_fenced now i s st a d b d' :
  parse_outbox_status s = Some st ->
  update_outbox_status now i s a d = (Ok b, d') ->
  if b then
    exists r : Row, r ∈ outbox d /\ outbox_id r = i /\
      is_terminal_outbox_status (outbox_str (status r)) = false /\
      (forall n, ta_attempt_number a = Some n ->
         (active_attempt r = None /\ attempt_number r <= n) \/ active_attempt r = Some n) /\
      (forall w, ta_expected_worker_id a = Some w -> worker_id r = Some w) /\
      (forall from, ta_allowed_from a = Some from -> status r ∈ from) /\
      outbox d' = updated (transition_guard a i) (transition_state a st now) d /\
      (outbox_terminal st = true -> forall s, s ∈ snapshots d' -> sn_outbox_id s <> i)
  else d' = d.
Proof.
  intros Hp H. pose proof (transition_outcome _ _ _ _ _ _ _ _ Hp H) as Ho. destruct b; [|done].
  destruct Ho as (r & Hin & Hg & Ho & Hs). apply transition_guard_facts in Hg as (? & ? & ? & ? & ?).
  exists r. by split_and!.
Qed.

Lemma transition_fenced_witness :
  let d := exec (Examples.claimed ++ [OpReserve 3000 "ob-1" "worker-a" 0]) empty_db in
  let stale := mark_outbox_sent 4000 "ob-1" (Some "late") (Some 7) None in
  (stale d).1 = Ok false /\ (stale d).2 = d.
Proof.
  intros d stale. assert ((stale d).1 = Ok false) as H1 by (vm_compute; reflexivity).
  split; [exact H1|].
  destruct (stale d) as [res d'] eqn:H. cbn [fst] in H1. subst res.
  exact (transition_fenced 4000 "ob-1" "sent" Sent _ d false d' eq_refl H).
Defined.

(** ** Finalization *)

Lemma insert_receipt_Ok r d a d' :
  insert_receipt r d = Ok (a, d') ->
  exists n, with_sequence r n ∈ receipts d' /\ outbox d' = outbox d /\ snapshots d' = snapshots d.
Proof.
  unfold insert_receipt. case_match; [done|]. case_match; [done|]. intros [= _ <-].
  exists (Z.of_nat (length (receipts d)) + 1). split_and!; [simpl; set_solver|done..].
Qed.

(** The tail of both finalizations: the receipt is in the log and the row's
    snapshot is gone. *)
Lemma finalization_tail {A} (a b : A) id e t row ops d d' :
  Forall (tx_rel quiet) ops ->
  (insert_receipt row ;; run_ops ops ;;
   settle_outbox_content_dependency id e t ;; retire_outbox_snapshot id ;; mret a) d = Ok (b, d') ->
  b = a /\ outbox d' = outbox d /\ (exists n, with_sequence row n ∈ receipts d') /\
  forall s, s ∈ snapshots d' -> sn_outbox_id s <> id.
Proof.
  intros Hops H. apply (settles_finalization id e t a row ops Hops) in H as Hs.
  destruct Hs as (Ho & _ & Hsn).
  apply tx_bind_Ok in H as ([] & d1 & Hi & H).
  apply insert_receipt_Ok in Hi as (n & Hin & _).
  assert (b = a) as -> by (repeat (apply tx_bind_Ok in H as ([] & ? & _ & H)); by injection H).
  assert (receipts_grow d1 d') as [[l Hl] _].
  { revert H. apply (tx_rel_bind receipts_grow).
    - apply tx_rel_run_ops; [apply _|]. eapply Forall_impl; [exact Hops|].
      intros m Hm x y z Hxyz. by apply Hm in Hxyz as (_ & _ & ?).
    - intros _. apply (tx_rel_bind receipts_grow); [auto with keeps|]. intros _.
      apply (tx_rel_bind receipts_grow); auto with keeps. }
  split_and!; [done|exact Ho|exists n; rewrite Hl; set_solver|].
  intros s. rewrite Hsn. intros [? _]%list_elem_of_filter. done.
Qed.

Lemma quiet_outbox_match (m : option DeliveryReceipt) (n : option DeliveryReceipt) :
  tx_rel quiet match m, n with
    | Some a, Some arow => insert_receipt arow ;; run_ops (receipt_diagnostic_ops a)
    | _, _ => mret tt
    end.
Proof. repeat case_match; auto with keeps. Qed.

Lemma finalize_guard_facts i id n (r : Row) :
  finalize_guard i id n r = true ->
  outbox_id r = id /\ event_id r = id_event_id i /\ generation r = n /\
  (status r = Queued \/ status r = InProgress).
Proof.
  intros H. pose proof (finalize_guard_status _ _ _ _ H). unfold finalize_guard in H.
  rewrite !andb_true_iff, !bool_decide_eq_true, Z.eqb_eq in H. destruct_and!. by split_and!.
Qed.

(** What a committed run of [sync_finalize_outbox_terminal] did. *)
Lemma terminal_run_Ok c st row arow d b d' :
  sync_finalize_outbox_terminal c st row arow d = Ok (b, d') ->
  let rc := tf_lifecycle_receipt c in
  let id := opt_or_empty (rc_outbox_id rc) in
  if b then
    exists r : Row, r ∈ outbox d /\
      finalize_guard (receipt_identity rc) id (rc_attempt_number rc) r = true /\
      (forall w, tf_expected_worker_id c = Some w -> worker_id r = Some w) /\
      with_state r (finalize_terminal_state st (rc_failure_kind rc) (rc_created_at rc)
        (rc_receipt_id rc) r) ∈ outbox d' /\
      (exists n, with_sequence row n ∈ receipts d') /\
      (forall s, s ∈ snapshots d' -> sn_outbox_id s <> id)
  else d' = d.
Proof.
  intros H rc id. unfold sync_finalize_outbox_terminal in H. fold rc in H. fold id in H.
  destruct (update_outbox _ _ d) as [[n d1]|] eqn:Hu; [|done].
  match type of Hu with update_outbox ?w ?s _ = _ => set (W := w) in *; set (S := s) in * end.
  assert (Hid : forall r : Row, W d r = true -> outbox_id r = id)
    by (intros r [Hg _]%andb_true_iff; by apply finalize_guard_id in Hg).
  destruct (update_rowcount _ _ _ _ _ id Hid Hu) as [[-> ->]|[-> (r & Hr & Hw & _)]].
  { simpl in H. by injection H as <- <-. }
  cbn [negb Z.eqb Pos.eqb] in H.
  apply tx_bind_Ok in H as ([] & d2 & Hd2 & H).
  apply tx_bind_Ok in H as ([] & d3 & Hd3 & H).
  apply finalization_tail in H as (-> & Ho & Hrec & Hsn); [|auto with keeps].
  apply (tx_rel_run_ops quiet) in Hd2 as (Ho2 & _); [|auto with keeps].
  apply quiet_outbox_match in Hd3 as (Ho3 & _).
  apply update_outbox_Ok in Hu as (-> & _). unfold same in *. simpl in *.
  exists r. pose proof Hw as [Hg Hwk]%andb_true_iff. split_and!; try done.
  - intros w Hw'. rewrite Hw' in Hwk. by apply bool_decide_eq_true in Hwk.
  - rewrite Ho, Ho3, Ho2. by apply (elem_of_updated W S d r).
Qed.

Lemma TerminalOutboxFinalization_outbox_id c :
  TerminalOutboxFinalization_init c = Ok tt ->
  exists i, rc_outbox_id (tf_lifecycle_receipt c) = Some i.
Proof.
  unfold TerminalOutboxFinalization_init. do 2 (case_match; [done|]). case_match eqn:E; [done|].
  intros _. apply negb_false_iff in E. destruct (rc_outbox_id _); [by eexists|done].
Qed.

Lemma receipt_insert_params_Ok r row :
  receipt_insert_params r = Ok row ->
  rc_receipt_id row = rc_receipt_id r /\ rc_status row = rc_status r /\
  rc_event_id row = rc_event_id r /\ rc_outbox_id row = rc_outbox_id r /\
  rc_attempt_number row = rc_attempt_number r.
Proof.
  unfold receipt_insert_params. do 3 (case_match; [done|]).
  intros ([source run] & _ & [= <-])%bind_Ok. done.
Qed.

Lemma terminal_outcome c d res d' :
  finalize_outbox_terminal c d = (res, d') ->
  let rc := tf_lifecycle_receipt c in
  if bool_decide (res = Ok true) then
    exists r r' : Row, r ∈ outbox d /\ r' ∈ outbox d' /\ row_fixed r' = row_fixed r /\
      Some (outbox_id r) = rc_outbox_id rc /\ event_id r = rc_event_id rc /\
      generation r = rc_attempt_number rc /\ (status r = Queued \/ status r = InProgress) /\
      (forall w, tf_expected_worker_id c = Some w -> worker_id r = Some w) /\
      outbox_str (status r') = rc_status rc /\ receipt_id r' = Some (rc_receipt_id rc) /\
      attempt_number r' = rc_attempt_number rc /\ active_attempt r' = None /\
      (exists q, q ∈ receipts d' /\ rc_receipt_id q = rc_receipt_id rc /\ rc_status q = rc_status rc) /\
      (forall s, s ∈ snapshots d' -> Some (sn_outbox_id s) <> rc_outbox_id rc)
  else d' = d.
Proof.
  intros H rc. revert H. unfold finalize_outbox_terminal.
  destruct (TerminalOutboxFinalization_init c) as [[]|] eqn:Hinit; [|intros [= <- <-]; done].
  apply TerminalOutboxFinalization_outbox_id in Hinit as [i Hi].
  destruct (receipt_insert_params _) as [row|] eqn:Hrow; [|intros [= <- <-]; done].
  apply receipt_insert_params_Ok in Hrow as (Hrid & Hrst & _).
  destruct (opt_receipt_params _) as [arow|]; [|intros [= <- <-]; done].
  destruct (parse_outbox_status _) as [st|] eqn:Hp; [|intros [= <- <-]; done].
  apply parse_outbox_status_str in Hp. unfold atomically.
  destruct (sync_finalize_outbox_terminal c st row arow d) as [[b dx]|e] eqn:Hr.
  2: { destruct e; simpl; intros [= <- <-]; done. }
  simpl. intros [= <- <-]. apply terminal_run_Ok in Hr. cbv zeta in Hr. fold rc in Hr, Hi, Hp.
  destruct b; [|by rewrite bool_decide_eq_false_2].
  rewrite bool_decide_eq_true_2 by done.
  destruct Hr as (r & Hin & Hg & Hw & Hin' & (n & Hn) & Hsn).
  apply finalize_guard_facts in Hg as (Hid & He & Hgen & Hst). rewrite Hi in Hid, Hsn. simpl in *.
  exists r, (with_state r (finalize_terminal_state st (rc_failure_kind rc) (rc_created_at rc)
    (rc_receipt_id rc) r)).
  split_and!; simpl; try done; [by rewrite Hid, Hi| |].
  - exists (with_sequence row n). by split_and!.
  - intros s Hs. rewrite Hi. intros [= Heq]. by apply (Hsn s).
Qed.

(** Terminal finalization is atomic: if it reports success, a row of exactly
    the evidence's delivery identity and effective attempt, queued or in
    progress (and owned by the expected worker), became terminal with the
    evidence's status, points at the lifecycle receipt, that receipt is in the
    log, and the row's frozen context is gone; in every other outcome nothing
    was written. *)
Theorem finalize_outbox_terminal_atomic c d res d' :
  finalize_outbox_terminal c d = (res, d') ->
  let rc := tf_lifecycle_receipt c in
  if bool_decide (res = Ok true) then
    exists r r' : Row, r ∈ outbox d /\ r' ∈ outbox d' /\ row_fixed r' = row_fixed r /\
      Some (outbox_id r) = rc_outbox_id rc /\ event_id r = rc_event_id rc /\
      generation r = rc_attempt_number rc /\ (status r = Queued \/ status r = InProgress) /\
      (forall w, tf_expected_worker_id c = Some w -> worker_id r = Some w) /\
      outbox_str (status r') = rc_status rc /\ receipt_id r' = Some (rc_receipt_id rc) /\
      attempt_number r' = rc_attempt_number rc /\ active_attempt r' = None /\
      (exists q, q ∈ receipts d' /\ rc_receipt_id q = rc_receipt_id rc /\ rc_status q = rc_status rc) /\
      (forall s, s ∈ snapshots d' -> Some (sn_outbox_id s) <> rc_outbox_id rc)
  else d' = d.
Proof. apply terminal_outcome. Qed.

Module FinalizeExamples.
Definition receipt (id status kind : string) (attempt : Z) (parent : option string)
    (message : option string) : DeliveryReceipt :=
  {| rc_sequence := 0; rc_receipt_id := id; rc_event_id := "evt-1";
     rc_delivery_plan_id := "plan-1"; rc_target_adapter := "mesh";
     rc_target_channel := Some "0"; rc_route_id := "route-1"; rc_status := status;
     rc_receipt_kind := Some kind; rc_error := Some "queue lost"; rc_failure_kind := None;
     rc_capability_level := None; rc_capability_field := None; rc_capability_reason := None;
     rc_delivery_strategy := None; rc_adapter_message_id := message; rc_next_retry_at := None;
     rc_attempt_number := attempt; rc_parent_receipt_id := parent; rc_source := "live";
     rc_replay_run_id := None; rc_retry_max_attempts := None; rc_retry_jitter := None;
     rc_rendering_evidence := None; rc_outbox_id := Some "ob-1";
     rc_confirmation_level := "unknown"; rc_created_at := 6000 |}.

(** Staged, claimed, reserved and accepted by the adapter's queue. *)
Definition queued : list outbox_op :=
  Examples.claimed ++ [OpReserve 3000 "ob-1" "worker-a" 0;
    OpQueued 4000 "ob-1" (Some "rcpt-q") (Some 1) (Some "worker-a")].

Definition dead_letter : TerminalOutboxFinalization :=
  {| tf_lifecycle_receipt := receipt "rcpt-dl" "dead_lettered" "lifecycle" 1 None None;
     tf_attempt_receipt := None; tf_expected_worker_id := None |}.

Definition native : NativeMessageRef :=
  {| nr_id := "nref-1"; nr_event_id := "evt-1"; nr_adapter := "mesh";
     nr_native_channel_id := Some "0"; nr_native_message_id := "pkt-7";
     nr_native_thread_id := None; nr_native_relation_id := None; nr_direction := "outbound";
     nr_metadata := []; nr_created_at := 6000 |}.

Definition handoff : DeferredHandoffFinalization :=
  {| dh_receipt := receipt "rcpt-s" "sent" "attempt" 1 (Some "rcpt-q") (Some "pkt-7");
     dh_native_ref := Some native |}.
End FinalizeExamples.

Lemma finalize_outbox_terminal_atomic_witness :
  let d := exec FinalizeExamples.queued empty_db in
  (finalize_outbox_terminal FinalizeExamples.dead_letter d).1 = Ok true /\
  exists r' : Row, r' ∈ outbox (finalize_outbox_terminal FinalizeExamples.dead_letter d).2 /\
    receipt_id r' = Some "rcpt-dl".
Proof.
  intros d.
  assert ((finalize_outbox_terminal FinalizeExamples.dead_letter d).1 = Ok true) as H1
    by (vm_compute; reflexivity).
  split; [exact H1|].
  destruct (finalize_outbox_terminal FinalizeExamples.dead_letter d) as [res d'] eqn:H.
  cbn [fst] in H1. subst res.
  destruct (finalize_outbox_terminal_atomic _ _ _ _ H)
    as (r & r' & _ & Hin & _ & _ & _ & _ & _ & _ & _ & Hrc & _).
  exists r'. split; [exact Hin|exact Hrc].
Defined.

(** The transition table of the delivery-state module is not closed under
    the store's operations: finalizing a queued row with dead-letter evidence
    commits and moves it from queued to dead_lettered, a move the table
    rejects. *)
Theorem finalize_moves_queued_to_dead_lettered :
  let d := exec FinalizeExamples.queued empty_db in
  let f := finalize_outbox_terminal FinalizeExamples.dead_letter d in
  reachable d /\ f.1 = Ok true /\
  (fun r : Row => status r) <$> outbox d = [Queued] /\
  (fun r : Row => status r) <$> outbox f.2 = [DeadLettered] /\
  validate_outbox_transition "queued" "dead_lettered" = false.
Proof.
  intros d f. split; [exists FinalizeExamples.queued; reflexivity|].
  split_and!; vm_compute; reflexivity.
Qed.

(** ** Deferred hand-off *)

Lemma insert_native_ref_Ok n d a d' :
  insert_native_ref n d = Ok (a, d') ->
  n ∈ native_refs d' /\ outbox d' = outbox d /\ native_refs d `prefix_of` native_refs d'.
Proof.
  unfold insert_native_ref. case_match; [done|]. case_match; [done|]. intros [= _ <-].
  split_and!; [simpl; set_solver|done|simpl; by apply prefix_app_r].
Qed.

Lemma resolve_native_ref_Some d k e :
  resolve_native_ref d k = Some e ->
  exists n, n ∈ native_refs d /\ native_ref_identity n = k /\ nr_event_id n = e.
Proof.
  unfold resolve_native_ref. intros (n & Hn & ->)%fmap_Some.
  apply List.find_some in Hn as [Hin%list_elem_of_In Hk]. apply bool_decide_eq_true in Hk.
  by exists n.
Qed.

(** The tail of a finalization leaves native references alone. *)
Lemma finalization_tail_native {A} (a : A) id e t row r :
  keeps native_refs (insert_receipt row ;; run_ops (receipt_diagnostic_ops r) ;;
    settle_outbox_content_dependency id e t ;; retire_outbox_snapshot id ;; mret a).
Proof.
  apply tx_rel_bind; [apply _|auto with keeps|]. intros _.
  apply tx_rel_bind; [apply _| |].
  - apply tx_rel_run_ops; [apply _|]. apply keeps_diagnostic_write_ops; auto with keeps.
  - intros _. apply tx_rel_bind; [apply _|auto with keeps|]. intros _.
    apply tx_rel_bind; [apply _|auto with keeps|auto with keeps].
Qed.

Lemma handoff_run_Ok c row d b d' :
  sync_finalize_deferred_handoff c row d = Ok (b, d') ->
  let rc := dh_receipt c in
  let id := opt_or_empty (rc_outbox_id rc) in
  if bool_decide (b = (true, None)) then
    exists r : Row, r ∈ outbox d /\
      finalize_guard (receipt_identity rc) id (rc_attempt_number rc) r = true /\
      with_state r (finalize_sent_state (rc_created_at rc) (rc_receipt_id rc) r) ∈ outbox d' /\
      (exists n, with_sequence row n ∈ receipts d') /\
      (forall n, dh_native_ref c = Some n -> exists n', n' ∈ native_refs d' /\
         native_ref_identity n' = native_ref_identity n /\ nr_event_id n' = nr_event_id n) /\
      (forall s, s ∈ snapshots d' -> sn_outbox_id s <> id)
  else d' = d.
Proof.
  intros H rc id. unfold sync_finalize_deferred_handoff in H. fold rc in H. fold id in H.
  set (existing := match dh_native_ref c with Some n => _ | None => None end) in H.
  destruct (match existing, dh_native_ref c with Some e, Some n => _ | _, _ => None end) eqn:Hconf.
  { injection H as <- <-. done. }
  destruct (update_outbox _ _ d) as [[n d1]|] eqn:Hu; [|done].
  match type of Hu with update_outbox ?w ?s _ = _ => set (W := w) in *; set (S := s) in * end.
  assert (Hid : forall r : Row, W d r = true -> outbox_id r = id)
    by (intros r Hg; by apply finalize_guard_id in Hg).
  destruct (update_rowcount _ _ _ _ _ id Hid Hu) as [[-> ->]|[-> (r & Hr & Hw & _)]].
  { simpl in H. injection H as <- <-. done. }
  cbn [negb Z.eqb Pos.eqb] in H.
  apply tx_bind_Ok in H as ([] & d2 & Hd2 & H).
  pose proof H as Hnat. apply finalization_tail_native in Hnat. unfold same in Hnat.
  apply finalization_tail in H as (-> & Ho & Hrec & Hsn); [|auto with keeps].
  apply update_outbox_Ok in Hu as (-> & _).
  rewrite bool_decide_eq_true_2 by done. exists r. split_and!; try done.
  - assert (outbox d2 = updated W S d) as Ho2.
    { clear Hconf. destruct (dh_native_ref c); [|cbn in Hd2; by injection Hd2 as <-].
      destruct (bool_decide _); [|cbn in Hd2; by injection Hd2 as <-].
      apply insert_native_ref_Ok in Hd2 as (_ & -> & _). done. }
    rewrite Ho, Ho2. by apply (elem_of_updated W S d r).
  - intros nr Hnr. rewrite Hnat. unfold existing in Hconf, Hd2. rewrite Hnr in Hconf, Hd2.
    destruct (resolve_native_ref d (native_ref_identity nr)) as [e|] eqn:Hres.
    + simpl in Hd2. injection Hd2 as <-. simpl.
      destruct (bool_decide (e = nr_event_id nr)) eqn:He; [|done].
      apply bool_decide_eq_true in He as ->. by apply resolve_native_ref_Some in Hres.
    + simpl in Hd2. apply insert_native_ref_Ok in Hd2 as (Hin & _). by exists nr.
Qed.

Lemma DeferredHandoffFinalization_outbox_id c :
  DeferredHandoffFinalization_init c = Ok tt -> exists i, rc_outbox_id (dh_receipt c) = Some i.
Proof.
  unfold DeferredHandoffFinalization_init. cbv zeta.
  do 3 match goal with |- (if ?b then _ else _) = _ -> _ => destruct b; [done|] end.
  destruct (negb (opt_truthy _)) eqn:E; [done|].
  intros _. apply negb_false_iff in E. destruct (rc_outbox_id _); [by eexists|done].
Qed.

Lemma handoff_outcome c d res d' :
  finalize_deferred_handoff c d = (res, d') ->
  let rc := dh_receipt c in
  if bool_decide (res = Ok true) then
    exists r r' : Row, r ∈ outbox d /\ r' ∈ outbox d' /\ row_fixed r' = row_fixed r /\
      Some (outbox_id r) = rc_outbox_id rc /\ generation r = rc_attempt_number rc /\
      (status r = Queued \/ status r = InProgress) /\
      status r' = Sent /\ receipt_id r' = Some (rc_receipt_id rc) /\
      attempt_number r' = rc_attempt_number rc /\ worker_id r' = None /\
      (exists q, q ∈ receipts d' /\ rc_receipt_id q = rc_receipt_id rc /\ rc_status q = rc_status rc) /\
      (forall n, dh_native_ref c = Some n -> exists n', n' ∈ native_refs d' /\
         native_ref_identity n' = native_ref_identity n /\ nr_event_id n' = nr_event_id n) /\
      (forall s, s ∈ snapshots d' -> Some (sn_outbox_id s) <> rc_outbox_id rc)
  else d' = d.
Proof.
  intros H rc. revert H. unfold finalize_deferred_handoff.
  destruct (DeferredHandoffFinalization_init c) as [[]|] eqn:Hinit; [|intros [= <- <-]; done].
  apply DeferredHandoffFinalization_outbox_id in Hinit as [i Hi].
  destruct (receipt_insert_params _) as [row|] eqn:Hrow; [|intros [= <- <-]; done].
  apply receipt_insert_params_Ok in Hrow as (Hrid & Hrst & _). unfold atomically.
  destruct (sync_finalize_deferred_handoff c row d) as [[[b conf] dx]|e] eqn:Hr.
  2: { destruct e; simpl; intros [= <- <-]; done. }
  apply handoff_run_Ok in Hr. cbv zeta in Hr. fold rc in Hr, Hi. simpl.
  destruct conf as [e|]; intros [= <- <-].
  { rewrite bool_decide_eq_false_2 in Hr by congruence. by rewrite bool_decide_eq_false_2. }
  destruct b.
  2: { rewrite bool_decide_eq_false_2 in Hr by congruence. by rewrite bool_decide_eq_false_2. } rewrite bool_decide_eq_true_2 in Hr by done.
  rewrite bool_decide_eq_true_2 by done.
  destruct Hr as (r & Hin & Hg & Hin' & (n & Hn) & Hnat & Hsn).
  apply finalize_guard_facts in Hg as (Hid & He & Hgen & Hst). rewrite Hi in Hid, Hsn. simpl in *.
  exists r, (with_state r (finalize_sent_state (rc_created_at rc) (rc_receipt_id rc) r)).
  split_and!; simpl; try done; [by rewrite Hid, Hi| |].
  - exists (with_sequence row n). by split_and!.
  - intros s Hs. rewrite Hi. intros [= Heq]. by apply (Hsn s).
Qed.

(** A deferred hand-off commits as one unit: if it reports success, the row
    of exactly the receipt's delivery identity and effective attempt is sent
    and points at the sent receipt, the receipt is in the log, the native
    message identity resolves to the receipt's event, and the frozen context
    is gone; otherwise (stale attempt, native identity of another event,
    constraint violation, invalid evidence) nothing was written. *)
Theorem finalize_deferred_handoff_atomic c d res d' :
  finalize_deferred_handoff c d = (res, d') ->
  let rc := dh_receipt c in
  if bool_decide (res = Ok true) then
    exists r r' : Row, r ∈ outbox d /\ r' ∈ outbox d' /\ row_fixed r' = row_fixed r /\
      Some (outbox_id r) = rc_outbox_id rc /\ generation r = rc_attempt_number rc /\
      (status r = Queued \/ status r = InProgress) /\
      status r' = Sent /\ receipt_id r' = Some (rc_receipt_id rc) /\
      attempt_number r' = rc_attempt_number rc /\ worker_id r' = None /\
      (exists q, q ∈ receipts d' /\ rc_receipt_id q = rc_receipt_id rc /\ rc_status q = rc_status rc) /\
      (forall n, dh_native_ref c = Some n -> exists n', n' ∈ native_refs d' /\
         native_ref_identity n' = native_ref_identity n /\ nr_event_id n' = nr_event_id n) /\
      (forall s, s ∈ snapshots d' -> Some (sn_outbox_id s) <> rc_outbox_id rc)
  else d' = d.
Proof. apply handoff_outcome. Qed.

Lemma finalize_deferred_handoff_atomic_witness :
  let d := exec FinalizeExamples.queued empty_db in
  (finalize_deferred_handoff FinalizeExamples.handoff d).1 = Ok true /\
  exists r' : Row, r' ∈ outbox (finalize_deferred_handoff FinalizeExamples.handoff d).2 /\
    status r' = Sent.
Proof.
  intros d.
  assert ((finalize_deferred_handoff FinalizeExamples.handoff d).1 = Ok true) as H1
    by (vm_compute; reflexivity).
  split; [exact H1|].
  destruct (finalize_deferred_handoff FinalizeExamples.handoff d) as [res d'] eqn:H.
  cbn [fst] in H1. subst res.
  destruct (finalize_deferred_handoff_atomic _ _ _ _ H)
    as (r & r' & _ & Hin & _ & _ & _ & _ & Hs & _).
  exists r'. split; [exact Hin|exact Hs].
Defined.
