(* ===== verification/DeliveryAuthority.v ===== *)
(** * Delivery authority

    [src/src/medre/core/delivery_authority.py]: which receipt and which outbox
    generation are current for one delivery identity.  Records are receipts
    and outbox rows; the texts of mismatch reports are kept without the
    interpolated values.  Timestamps are instants, which compare as their ISO
    texts do ([IsoTime]). *)

From S2P Require Import Prelude.
From S2P Require Import DeliveryState.
From S2P Require Import Delivery.
From S2P Require Import Store.
From S2P Require Import Receipts.

Open Scope string_scope.
Open Scope list_scope.
Open Scope Z_scope.

(** ** Identities and indexes *)

Definition outbox_identity (o : Row) : DeliveryIdentity :=
  mkIdentity (event_id o) (delivery_plan_id o) (target_adapter o) (target_channel o).

Definition identity_sort_key (i : DeliveryIdentity) : string * (string * (string * string)) :=
  (id_event_id i, (id_delivery_plan_id i, (id_target_adapter i, opt_or_empty (id_target_channel i)))).

(** [int(x or d)]. *)
Definition int_or (o : option Z) (d : Z) : Z :=
  match o with Some n => if n =? 0 then d else n | None => d end.

(** Committed pointers: (outbox id, receipt id, finalized attempt). *)
Record ReceiptAuthority : Set := { committed : list (string * string * Z) }.

Definition generation_for (a : ReceiptAuthority) (r : DeliveryReceipt) : option Z :=
  let outbox := opt_or_empty (rc_outbox_id r) in
  if negb (truthy outbox) || negb (truthy (rc_receipt_id r)) then None
  else snd <$> List.find (fun c : string * string * Z =>
         bool_decide (c.1.1 = outbox) && bool_decide (c.1.2 = rc_receipt_id r)) (committed a).

(** [set.add]. *)
Definition set_add (x : string * string * Z) (s : list (string * string * Z)) :=
  if elem x s then s else s ++ [x].

(** The pointers of one identity after one more outbox row. *)
Definition add_commit (o : Row) (s : list (string * string * Z)) : list (string * string * Z) :=
  let receipt := opt_or_empty (receipt_id o) in
  if truthy receipt && truthy (outbox_id o)
  then set_add (outbox_id o, receipt, int_or (Some (attempt_number o)) 1) s
  else s.

Definition authority_index (items : list Row) : list (DeliveryIdentity * ReceiptAuthority) :=
  (fun ic => (ic.1, {| committed := ic.2 |})) <$>
  foldl (fun index o =>
           od_set (outbox_identity o)
             (add_commit o (default [] (od_get (outbox_identity o) index))) index) [] items.

Definition group_by_identity {T} (identity : T -> DeliveryIdentity) (items : list T)
    : list (DeliveryIdentity * list T) :=
  foldl (fun grouped x =>
           od_set (identity x) (default [] (od_get (identity x) grouped) ++ [x]) grouped) [] items.

Definition group_receipts_by_identity := group_by_identity receipt_identity.
Definition group_outbox_by_identity := group_by_identity outbox_identity.

(** ** Current outbox generation *)

(** [int(active_attempt or attempt_number or 1)]. *)
Definition effective_generation (o : OutboxState) : Z :=
  int_or (active_attempt o) (int_or (Some (attempt_number o)) 1).

Definition outbox_rank (o : Row) : Z * (Z * (Z * string)) :=
  (effective_generation o, (updated_at o, (created_at o, outbox_id o))).

Definition outbox_rank_leb : Row -> Row -> bool :=
  on_key outbox_rank (lex_leb Z.leb (lex_leb Z.leb (lex_leb Z.leb String.leb))).

Definition select_current_outbox (items : list Row) : option Row := max_by outbox_rank_leb items.

(** ** Callback fences *)

Definition provenance_identity (p : DeliveryAttemptProvenance) : DeliveryIdentity :=
  mkIdentity (pv_event_id p) (pv_delivery_plan_id p) (pv_target_adapter p) (pv_target_channel p).

Definition delivery_attempt_provenance_mismatch (p : DeliveryAttemptProvenance) (o : Row)
    : option string :=
  if negb (bool_decide (outbox_id o = pv_outbox_id p)) then Some "outbox_id mismatch"
  else if negb (bool_decide (outbox_identity o = provenance_identity p))
  then Some "delivery identity mismatch"
  else if negb (effective_generation o =? pv_attempt_number p)
  then Some "attempt generation mismatch"
  else if negb (bool_decide (dispatch_source o = pv_source p)) then Some "dispatch source mismatch"
  else if negb (bool_decide (normalize_replay_run_id (replay_run_id o) = pv_replay_run_id p))
  then Some "replay_run_id mismatch"
  else None.

Definition delivery_attempt_receipt_provenance_mismatch (p : DeliveryAttemptProvenance)
    (r : DeliveryReceipt) : option string :=
  if negb (bool_decide (opt_or_empty (rc_outbox_id r) = pv_outbox_id p))
  then Some "receipt outbox_id mismatch"
  else if negb (bool_decide (receipt_identity r = provenance_identity p))
  then Some "receipt delivery identity mismatch"
  else if negb (rc_attempt_number r =? pv_attempt_number p)
  then Some "receipt attempt generation mismatch"
  else if negb (bool_decide (rc_source r = pv_source p))
  then Some "receipt dispatch source mismatch"
  else if negb (bool_decide (normalize_replay_run_id (rc_replay_run_id r) = pv_replay_run_id p))
  then Some "receipt replay_run_id mismatch"
  else None.

Definition receipts_for_attempt (p : DeliveryAttemptProvenance) (rs : list DeliveryReceipt)
    : list DeliveryReceipt :=
  filter (fun r => opt_or_empty (rc_outbox_id r) = pv_outbox_id p /\
                   rc_attempt_number r = pv_attempt_number p) rs.

Definition queued_receipts_for_attempt (p : DeliveryAttemptProvenance) (rs : list DeliveryReceipt)
    : list DeliveryReceipt :=
  filter (fun r => rc_status r = "queued") (receipts_for_attempt p rs).

(** ** Current receipt *)

Definition append_rank (r : DeliveryReceipt) : Z * (Z * string) :=
  (rc_sequence r, (rc_created_at r, rc_receipt_id r)).

Definition append_leb : DeliveryReceipt -> DeliveryReceipt -> bool :=
  on_key append_rank (lex_leb Z.leb (lex_leb Z.leb String.leb)).

(** Only applied to receipts the authority commits. *)
Definition generation_rank (a : ReceiptAuthority) (r : DeliveryReceipt) : Z * (Z * (Z * string)) :=
  (default 0 (generation_for a r), append_rank r).

Definition generation_leb (a : ReceiptAuthority) : DeliveryReceipt -> DeliveryReceipt -> bool :=
  on_key (generation_rank a) (lex_leb Z.leb (lex_leb Z.leb (lex_leb Z.leb String.leb))).

Definition outbox_backed (a : ReceiptAuthority) (rs : list DeliveryReceipt) : list DeliveryReceipt :=
  filter (fun r => generation_for a r <> None) rs.

Definition outboxless (rs : list DeliveryReceipt) : list DeliveryReceipt :=
  filter (fun r => opt_truthy (rc_outbox_id r) = false) rs.

Definition select_current_receipt (rs : list DeliveryReceipt) (authority : option ReceiptAuthority)
    : option DeliveryReceipt :=
  match authority with
  | None => max_by append_leb rs
  | Some a =>
      max_by append_leb
        (option_list (max_by (generation_leb a) (outbox_backed a rs)) ++
         option_list (max_by append_leb (outboxless rs)))
  end.

(** ** Attempt evidence *)

Definition receipt_kind (r : DeliveryReceipt) : result exc string :=
  let kind := opt_or_empty (rc_receipt_kind r) in
  if elem kind ["attempt"; "lifecycle"] then Ok kind
  else Raise (ValueError "receipt has no valid receipt_kind").

(** [[x for x in l if p(x)]] and [next((x for x in l if p(x)), None)] where
    [p] may raise: the comprehension tests every element, [next] stops at the
    first that passes. *)
Fixpoint filter_m {A} (p : A -> result exc bool) (l : list A) : result exc (list A) :=
  match l with
  | [] => Ok []
  | x :: l' => b ← p x; rest ← filter_m p l'; Ok (if (b : bool) then x :: rest else rest)
  end.

Fixpoint next_m {A} (p : A -> result exc bool) (l : list A) : result exc (option A) :=
  match l with
  | [] => Ok None
  | x :: l' => b ← p x; if (b : bool) then Ok (Some x) else next_m p l'
  end.

Definition is_kind (kind : string) (r : DeliveryReceipt) : result exc bool :=
  k ← receipt_kind r; Ok (bool_decide (k = kind)).

Definition attempt_leb : DeliveryReceipt -> DeliveryReceipt -> bool :=
  on_key (fun r => (int_or (Some (rc_attempt_number r)) 1, append_rank r))
    (lex_leb Z.leb (lex_leb Z.leb (lex_leb Z.leb String.leb))).

Definition latest_attempt (rs : list DeliveryReceipt) : result exc (option DeliveryReceipt) :=
  attempts ← filter_m (is_kind "attempt") rs; Ok (max_by attempt_leb attempts).

(** Evidence of the generation [n] of outbox row [id]. *)
Definition of_generation (id : string) (n : Z) (r : DeliveryReceipt) : bool :=
  bool_decide (opt_or_empty (rc_outbox_id r) = id) &&
  (int_or (Some (rc_attempt_number r)) 1 =? n).

Definition committed_receipt_for_outbox (o : option Row) (rs : list DeliveryReceipt)
    : option DeliveryReceipt :=
  match o with
  | None => None
  | Some o =>
      let pointer := opt_or_empty (receipt_id o) in
      if negb (truthy (outbox_id o)) || negb (truthy pointer) then None
      else List.find (fun r => of_generation (outbox_id o) (effective_generation o) r &&
                               bool_decide (rc_receipt_id r = pointer)) rs
  end.

Definition current_generation_attempt (current_outbox : option Row)
    (current_receipt : option DeliveryReceipt) (rs : list DeliveryReceipt)
    : result exc (option DeliveryReceipt) :=
  match current_outbox, current_receipt with
  | Some o, Some r =>
      kind ← receipt_kind r;
      if bool_decide (kind = "attempt") then Ok (Some r)
      else
        let parent := opt_or_empty (rc_parent_receipt_id r) in
        if negb (truthy parent) then Ok None
        else next_m (fun x =>
               b ← is_kind "attempt" x;
               Ok ((b : bool) && bool_decide (rc_receipt_id x = parent) &&
                   of_generation (outbox_id o) (effective_generation o) x)) rs
  | _, _ => Ok None
  end.

Definition causative_receipt (authoritative : option DeliveryReceipt) (rs : list DeliveryReceipt)
    : result exc (option DeliveryReceipt) :=
  match authoritative with
  | None => Ok None
  | Some r =>
      kind ← receipt_kind r;
      if negb (bool_decide (kind = "lifecycle")) then Ok None
      else
        let parent := opt_or_empty (rc_parent_receipt_id r) in
        if negb (truthy parent) then Ok None
        else Ok (List.find (fun x => bool_decide (rc_receipt_id x = parent)) rs)
  end.

(** ** The resolver *)

Record DeliveryAuthorityResolver : Type := {
  rs_receipts : list (DeliveryIdentity * list DeliveryReceipt);
  rs_outbox : list (DeliveryIdentity * list Row);
  rs_authorities : list (DeliveryIdentity * ReceiptAuthority)
}.

Definition DeliveryAuthorityResolver_init (rs : list DeliveryReceipt) (items : list Row)
    : DeliveryAuthorityResolver :=
  {| rs_receipts := group_receipts_by_identity rs; rs_outbox := group_outbox_by_identity items;
     rs_authorities := authority_index items |}.

Definition ordered_identities (v : DeliveryAuthorityResolver) : list DeliveryIdentity :=
  sorted_by (on_key identity_sort_key
               (lex_leb String.leb (lex_leb String.leb (lex_leb String.leb String.leb))))
    (remove_dups (od_keys (rs_receipts v) ++ od_keys (rs_outbox v) ++ od_keys (rs_authorities v))).

Definition receipts_for (v : DeliveryAuthorityResolver) (i : DeliveryIdentity) : list DeliveryReceipt :=
  default [] (od_get i (rs_receipts v)).
Definition outbox_for (v : DeliveryAuthorityResolver) (i : DeliveryIdentity) : list Row :=
  default [] (od_get i (rs_outbox v)).
Definition authority_for (v : DeliveryAuthorityResolver) (i : DeliveryIdentity)
    : option ReceiptAuthority := od_get i (rs_authorities v).

Definition resolver_current_outbox (v : DeliveryAuthorityResolver) (i : DeliveryIdentity) : option Row :=
  select_current_outbox (outbox_for v i).
Definition current (v : DeliveryAuthorityResolver) (i : DeliveryIdentity) : option DeliveryReceipt :=
  select_current_receipt (receipts_for v i) (authority_for v i).

Record ResolvedDeliverySnapshot : Type := {
  rd_identity : DeliveryIdentity;
  rd_receipts : list DeliveryReceipt;
  rd_outbox_items : list Row;
  rd_authoritative_receipt : option DeliveryReceipt;
  rd_current_outbox : option Row;
  rd_current_receipt : option DeliveryReceipt;
  rd_current_attempt : option DeliveryReceipt;
  rd_latest_attempt : option DeliveryReceipt;
  rd_causative_receipt : option DeliveryReceipt
}.

Definition resolve (v : DeliveryAuthorityResolver) (i : DeliveryIdentity)
    : result exc ResolvedDeliverySnapshot :=
  let rs := receipts_for v i in
  let items := outbox_for v i in
  let authoritative := select_current_receipt rs (authority_for v i) in
  let current_outbox := select_current_outbox items in
  let current_receipt := committed_receipt_for_outbox current_outbox rs in
  latest ← latest_attempt rs;
  attempt ← current_generation_attempt current_outbox current_receipt rs;
  cause ← causative_receipt authoritative rs;
  Ok {| rd_identity := i; rd_receipts := rs; rd_outbox_items := items;
        rd_authoritative_receipt := authoritative; rd_current_outbox := current_outbox;
        rd_current_receipt := current_receipt; rd_current_attempt := attempt;
        rd_latest_attempt := latest; rd_causative_receipt := cause |}.

Definition ordered_snapshots (v : DeliveryAuthorityResolver)
    : result exc (list ResolvedDeliverySnapshot) :=
  mapM (resolve v) (ordered_identities v).

(** ** What the indexes hold *)

Lemma group_by_identity_get {T} (identity : T -> DeliveryIdentity) (items : list T) i :
  default [] (od_get i (group_by_identity identity items)) = filter (fun x => identity x = i) items.
Proof.
  unfold group_by_identity. induction items as [|x items IH] using rev_ind; [done|].
  rewrite foldl_app, filter_app, filter_cons, filter_nil. cbn. rewrite <- IH.
  destruct (decide (identity x = i)) as [Heq|Hne].
  - by rewrite Heq, od_get_set_eq.
  - by rewrite od_get_set_ne, app_nil_r by done.
Qed.

Lemma od_get_fmap_snd {K V W} `{EqDecision K} (f : V -> W) (k : K) (d : list (K * V)) :
  od_get k ((fun ic => (ic.1, f ic.2)) <$> d) = f <$> od_get k d.
Proof. induction d as [|[k' v] d IH]; cbn; [done|]. by case_decide. Qed.

Lemma authority_index_get items i :
  od_get i (authority_index items) =
    match filter (fun o => outbox_identity o = i) items with
    | [] => None
    | l => Some {| committed := foldl (fun s o => add_commit o s) [] l |}
    end.
Proof.
  unfold authority_index.
  rewrite (od_get_fmap_snd (fun s => {| committed := s |})).
  induction items as [|x items IH] using rev_ind; [done|].
  rewrite foldl_app, filter_app, filter_cons, filter_nil. cbn.
  destruct (decide (outbox_identity x = i)) as [Heq|Hne].
  - rewrite Heq, od_get_set_eq. cbn.
    match type of IH with _ <$> ?g = _ => destruct g as [s|] eqn:Hg end;
      destruct (filter _ items) as [|y l]; simplify_eq/=; try done.
    by rewrite foldl_app.
  - rewrite od_get_set_ne, app_nil_r by done. done.
Qed.

Lemma elem_of_set_add c x s : c ∈ set_add x s <-> c = x \/ c ∈ s.
Proof.
  unfold set_add. destruct (elem x s) eqn:E; [apply elem_true in E|]; set_solver.
Qed.

(** The pointer an outbox row contributes. *)
Definition pointer_of (o : Row) (c : string * string * Z) : Prop :=
  exists rid, receipt_id o = Some rid /\ rid <> "" /\ outbox_id o <> "" /\
    c = (outbox_id o, rid, int_or (Some (attempt_number o)) 1).

Lemma elem_of_add_commit c (o : Row) s : c ∈ add_commit o s <-> pointer_of o c \/ c ∈ s.
Proof.
  unfold add_commit, pointer_of. destruct (receipt_id o) as [rid|]; cbn; [|naive_solver].
  destruct (truthy rid) eqn:Hr, (truthy (outbox_id o)) eqn:Ho; cbn;
    rewrite ?truthy_true, ?truthy_false in *; rewrite ?elem_of_set_add; naive_solver.
Qed.

Lemma elem_of_committed c (l : list Row) s :
  c ∈ foldl (fun s o => add_commit o s) s l <-> (exists o, o ∈ l /\ pointer_of o c) \/ c ∈ s.
Proof.
  revert s. induction l as [|x l IH]; intros s; cbn; [set_solver|].
  rewrite IH, elem_of_add_commit. set_solver.
Qed.

(** A receipt is committed at generation [n] exactly when an outbox row of the
    index points at it and has [n] as finalized attempt. *)
Lemma generation_for_spec (l : list Row) r n :
  NoDup ((fun o : Row => outbox_id o) <$> l) -> rc_receipt_id r <> "" -> rc_outbox_id r <> Some "" ->
  generation_for {| committed := foldl (fun s o => add_commit o s) [] l |} r = Some n <->
  exists o, o ∈ l /\ commits o r /\ n = int_or (Some (attempt_number o)) 1.
Proof.
  intros Hnd Hrid Hoid. unfold generation_for, commits.
  assert (truthy (rc_receipt_id r) = true) as -> by (by apply truthy_true).
  destruct (rc_outbox_id r) as [oid|]; cbn; [|naive_solver].
  assert (truthy oid = true) as -> by (apply truthy_true; congruence). cbn. split.
  - intros (c & (Hin & Hb)%find_Some_elem & ->)%fmap_Some. breflect. destruct Hb as [H1 H2].
    apply elem_of_committed in Hin as [(o & Ho & rid & Hr & _ & _ & ->)|]; [|set_solver].
    cbn in *. exists o. naive_solver.
  - intros (o & Ho & [[= ->] Hr] & ->).
    destruct (List.find _ _) as [c|] eqn:Hf; cbn.
    + apply find_Some_elem in Hf as [Hin Hb]. breflect. destruct Hb as [H1 H2].
      apply elem_of_committed in Hin as [(o' & Ho' & rid & Hr' & _ & _ & ->)|]; [|set_solver].
      cbn in *. assert (o' = o) as ->; [|done].
      by eapply (NoDup_fmap_inj_on _ l).
    + exfalso. rewrite find_None_elem in Hf.
      specialize (Hf (outbox_id o, rc_receipt_id r, int_or (Some (attempt_number o)) 1)).
      cbn in Hf. rewrite !bool_decide_true in Hf by done. discriminate Hf.
      apply elem_of_committed. left. exists o. split; [done|]. exists (rc_receipt_id r).
      split_and!; try done. congruence.
Qed.

(** ** Ranks *)

Lemma lex_leb_Z {B} (leB : B -> B -> bool) n m (x y : B) :
  lex_leb Z.leb leB (n, x) (m, y) = true <-> n < m \/ (n = m /\ leB x y = true).
Proof.
  unfold lex_leb. cbn. rewrite andb_true_iff, orb_true_iff, negb_true_iff, Z.leb_le, Z.leb_gt.
  destruct (Z.lt_trichotomy n m) as [?|[->|?]]; intuition lia.
Qed.

Lemma append_leb_seq a b : append_leb a b = true -> rc_sequence a <= rc_sequence b.
Proof. intros [?|[? _]]%lex_leb_Z; lia. Qed.

Lemma seq_append_leb a b : rc_sequence a < rc_sequence b -> append_leb a b = true.
Proof. intros Hlt. apply lex_leb_Z. by left. Qed.

Lemma generation_leb_iff a x y n m :
  generation_for a x = Some n -> generation_for a y = Some m ->
  generation_leb a x y = true <-> n < m \/ (n = m /\ append_leb x y = true).
Proof.
  intros Hx Hy. unfold generation_leb, append_leb, on_key, generation_rank. rewrite Hx, Hy.
  apply lex_leb_Z.
Qed.

#[export] Instance append_leb_total : TotalLe append_leb.
Proof. unfold append_leb. apply _. Qed.
#[export] Instance generation_leb_total a : TotalLe (generation_leb a).
Proof. unfold generation_leb. apply _. Qed.
#[export] Instance by_sequence_total : TotalLe by_sequence.
Proof. unfold by_sequence. apply _. Qed.

(** Append order is the order of the sequence numbers. *)
Lemma max_by_append rs :
  (forall x y, x ∈ rs -> y ∈ rs -> rc_sequence x = rc_sequence y -> x = y) ->
  max_by append_leb rs = max_by by_sequence rs.
Proof.
  intros Hinj. destruct (max_by by_sequence rs) as [m|] eqn:Hm.
  - apply max_by_Some in Hm as [Hin Hall]; [|apply _]. apply max_by_unique; [apply _| |done|].
    + intros a b Ha Hb Hab%append_leb_seq Hba%append_leb_seq.
      apply Hinj; [done..|lia].
    + intros x Hx. specialize (Hall x Hx). unfold by_sequence, on_key in Hall.
      apply Z.leb_le, Z.lt_eq_cases in Hall as [Hlt|Heq]; [by apply seq_append_leb|].
      rewrite (Hinj x m) by done. apply leb_refl_le. apply _.
  - apply max_by_None in Hm as ->. done.
Qed.

(** ** The status query implements the rule *)

(** What the committed history has to satisfy: distinct sequence numbers and
    outbox ids, no empty ids or channels, every outbox-backed receipt written
    for an existing row of its own identity, and no row committed at the
    staging attempt 0. *)
Record evidence_wf (d : db) : Prop := {
  ew_sequence : NoDup (rc_sequence <$> receipts d);
  ew_receipt : forall r, r ∈ receipts d ->
    rc_receipt_id r <> "" /\ rc_outbox_id r <> Some "" /\ rc_target_channel r <> Some "";
  ew_outbox : NoDup ((fun o : Row => outbox_id o) <$> outbox d);
  ew_backed : forall r id, r ∈ receipts d -> rc_outbox_id r = Some id ->
    exists o : Row, o ∈ outbox d /\ outbox_id o = id /\ outbox_identity o = receipt_identity r;
  ew_committed : forall o : Row, o ∈ outbox d -> receipt_id o <> None -> 1 <= attempt_number o
}.

Definition resolver_of (d : db) : DeliveryAuthorityResolver :=
  DeliveryAuthorityResolver_init (receipts d) (outbox d).

Lemma of_delivery_identity d r i :
  evidence_wf d -> r ∈ receipts d -> id_target_channel i <> Some "" ->
  of_delivery i r <-> receipt_identity r = i.
Proof.
  intros Hwf Hr Hi. destruct (ew_receipt d Hwf r Hr) as (_ & _ & Hc).
  unfold of_delivery, receipt_identity, mkIdentity, normalized_channel.
  rewrite !opt_or_none_id by done. destruct i; cbn. naive_solver.
Qed.

Lemma elem_of_joined d i r (o : Row) :
  (r, o) ∈ joined d i <-> r ∈ receipts d /\ o ∈ outbox d /\ of_delivery i r /\ commits o r.
Proof.
  unfold joined. rewrite list_elem_of_filter, list_elem_of_bind. cbn. split.
  - intros ([Hd Hc] & r' & Hin & Hr'). apply list_elem_of_bind in Hin as (o' & Hin & Ho').
    apply list_elem_of_singleton in Hin. naive_solver.
  - intros (Hr & Ho & Hd & Hc). split; [done|]. exists r. split; [|done].
    apply list_elem_of_bind. exists o. split; [by apply list_elem_of_singleton|done].
Qed.

Section refinement.
Context (d : db) (i : DeliveryIdentity) (Hwf : evidence_wf d) (Hi : id_target_channel i <> Some "").

Let rs := filter (fun r => receipt_identity r = i) (receipts d).
Let os := filter (fun o => outbox_identity o = i) (outbox d).
Let a := {| committed := foldl (fun s o => add_commit o s) [] os |}.

Lemma elem_of_rs r : r ∈ rs <-> r ∈ receipts d /\ of_delivery i r.
Proof.
  unfold rs. rewrite list_elem_of_filter. split.
  - intros [Heq Hr]. split; [done|]. by apply (of_delivery_identity d).
  - intros [Hr Hd]. split; [|done]. by apply (of_delivery_identity d).
Qed.

Lemma generation_for_rs r n :
  r ∈ rs -> generation_for a r = Some n <->
  exists o : Row, (r, o) ∈ joined d i /\ n = attempt_number o.
Proof.
  intros Hr. apply elem_of_rs in Hr as [Hr Hd].
  destruct (ew_receipt d Hwf r Hr) as (Hrid & Hoid & _).
  unfold a. rewrite generation_for_spec; [|by apply NoDup_fmap_filter, Hwf|done|done].
  split; intros (o & H); exists o; rewrite elem_of_joined in *.
  - destruct H as ([Ho Hin]%list_elem_of_filter & Hc & ->). split; [done|].
    pose proof (ew_committed d Hwf o Hin) as Hatt. destruct Hc as [_ Hc].
    rewrite Hc in Hatt. cbn. rewrite (proj2 (Z.eqb_neq _ _)); [done|].
    intros Hz. rewrite Hz in Hatt. by specialize (Hatt ltac:(done)).
  - destruct H as ((_ & Ho & _ & Hc) & ->). split_and!; [|done|].
    + apply list_elem_of_filter. split; [|done]. destruct Hc as [Hc _].
      destruct (ew_backed d Hwf r _ Hr Hc) as (o' & Ho' & Hid & Hident).
      assert (o' = o) as -> by (by apply (NoDup_fmap_inj_on (fun o : Row => outbox_id o) (outbox d)); [apply Hwf|..]).
      rewrite Hident. by apply (of_delivery_identity d).
    + pose proof (ew_committed d Hwf o Ho) as Hatt. destruct Hc as [_ Hc].
      rewrite Hc in Hatt. cbn. rewrite (proj2 (Z.eqb_neq _ _)); [done|].
      intros Hz. rewrite Hz in Hatt. by specialize (Hatt ltac:(done)).
Qed.

Lemma elem_of_backed r : r ∈ outbox_backed a rs <-> exists o : Row, (r, o) ∈ joined d i.
Proof.
  unfold outbox_backed. rewrite list_elem_of_filter. split.
  - intros [Hg Hr]. destruct (generation_for a r) as [n|] eqn:E; [|done].
    apply generation_for_rs in E as (o & ? & _); [by exists o|done].
  - intros (o & Hj). assert (r ∈ rs) as Hr by (apply elem_of_joined in Hj; apply elem_of_rs; naive_solver).
    split; [|done]. rewrite (proj2 (generation_for_rs r (attempt_number o) Hr)); [done|by exists o].
Qed.

Lemma generation_of_joined r (o : Row) :
  (r, o) ∈ joined d i -> r ∈ rs /\ generation_for a r = Some (attempt_number o).
Proof.
  intros Hj. assert (r ∈ rs) as Hr by (apply elem_of_joined in Hj; apply elem_of_rs; naive_solver).
  split; [done|]. apply generation_for_rs; eauto.
Qed.

Lemma rs_sequence x y : x ∈ rs -> y ∈ rs -> rc_sequence x = rc_sequence y -> x = y.
Proof. apply NoDup_fmap_inj_on, NoDup_fmap_filter, Hwf. Qed.

Lemma generation_leb_joined x y (ox oy : Row) :
  (x, ox) ∈ joined d i -> (y, oy) ∈ joined d i ->
  generation_leb a x y = true <->
  attempt_number ox < attempt_number oy \/
  (attempt_number ox = attempt_number oy /\ rc_sequence x <= rc_sequence y).
Proof.
  intros [Hx Gx]%generation_of_joined [Hy Gy]%generation_of_joined.
  rewrite (generation_leb_iff a x y _ _ Gx Gy).
  enough (append_leb x y = true <-> rc_sequence x <= rc_sequence y) as -> by done.
  split; [apply append_leb_seq|]. intros [?|Heq]%Z.lt_eq_cases; [by apply seq_append_leb|].
  rewrite (rs_sequence x y) by done. apply leb_refl_le. apply _.
Qed.

Lemma outbox_current_eq : outbox_current d i = max_by (generation_leb a) (outbox_backed a rs).
Proof.
  unfold outbox_current. destruct (max_by _ (joined d i)) as [[r o]|] eqn:Hm; cbn.
  - apply max_by_Some in Hm as [Hin Hall]; [|apply _].
    symmetry. apply max_by_unique; [apply _| | |].
    + intros x y [ox Hx]%elem_of_backed [oy Hy]%elem_of_backed H1 H2.
      apply (generation_leb_joined x y ox oy Hx Hy) in H1.
      apply (generation_leb_joined y x oy ox Hy Hx) in H2.
      apply generation_of_joined in Hx as [Hx _], Hy as [Hy _]. apply rs_sequence; [done..|lia].
    + apply elem_of_backed. by exists o.
    + intros x [ox Hx]%elem_of_backed. apply (generation_leb_joined x r ox o Hx Hin).
      specialize (Hall _ Hx). apply lex_leb_Z in Hall as [?|[? Hs]]; [by left|right].
      split; [done|]. by apply Z.leb_le.
  - apply max_by_None in Hm. symmetry. apply max_by_None.
    destruct (outbox_backed a rs) as [|x l] eqn:E; [done|].
    assert (x ∈ outbox_backed a rs) as (o & Ho)%elem_of_backed by (rewrite E; set_solver).
    rewrite Hm in Ho. set_solver.
Qed.

Lemma outboxless_current_eq : outboxless_current d i = max_by append_leb (outboxless rs).
Proof.
  unfold outboxless_current, outboxless. rewrite max_by_append.
  2: { intros x y [_ Hx]%list_elem_of_filter [_ Hy]%list_elem_of_filter. by apply rs_sequence. }
  f_equal. unfold rs. rewrite list_filter_filter. apply filter_ext_on. intros r Hr.
  rewrite (of_delivery_identity d r i Hwf Hr Hi).
  destruct (ew_receipt d Hwf r Hr) as (_ & Ho & _).
  destruct (rc_outbox_id r) as [id|]; cbn; [|naive_solver].
  assert (truthy id = true) as -> by (apply truthy_true; congruence). naive_solver.
Qed.

Lemma elem_of_candidates x :
  x ∈ option_list (max_by (generation_leb a) (outbox_backed a rs)) ++
      option_list (max_by append_leb (outboxless rs)) -> x ∈ rs.
Proof.
  intros [Hx|Hx]%elem_of_app; apply list_elem_of_option_list in Hx;
    apply max_by_Some in Hx as [[_ ?]%list_elem_of_filter _]; done || apply _.
Qed.

(** Without outbox rows of its own identity no receipt is outbox-backed. *)
Lemma outboxless_all : os = [] -> outboxless rs = rs.
Proof.
  intros Hos. apply filter_id_on. intros r [Hr Hd]%elem_of_rs.
  destruct (rc_outbox_id r) as [id|] eqn:E; [|done].
  destruct (ew_backed d Hwf r id Hr E) as (o & Ho & _ & Hident).
  assert (o ∈ os) as Hin; [|rewrite Hos in Hin; set_solver].
  apply list_elem_of_filter. split; [|done]. rewrite Hident. by apply (of_delivery_identity d).
Qed.

Lemma latest_is_current : latest_by_event_channel d i = current (resolver_of d) i.
Proof.
  unfold latest_by_event_channel. rewrite outbox_current_eq, outboxless_current_eq.
  unfold current, receipts_for, authority_for, resolver_of, DeliveryAuthorityResolver_init. cbn.
  unfold group_receipts_by_identity. rewrite group_by_identity_get, authority_index_get. fold rs.
  rewrite <- max_by_append.
  2: { intros x y Hx Hy. apply rs_sequence.
    - apply elem_of_candidates, Hx.
    - apply elem_of_candidates, Hy. }
  fold os. destruct os as [|o l] eqn:Hos; [|done].
  assert (outbox_backed a rs = []) as ->.
  { apply length_zero_iff_nil, length_filter_0. intros r _ Hg. apply Hg. unfold generation_for, a.
    by case_match. }
  cbn. rewrite outboxless_all by done. by destruct (max_by append_leb rs).
Qed.
End refinement.

(** C6: The SQL status query implements the shared authority rule: for a store
    whose evidence is well formed, the receipt the query selects for a complete
    delivery identity is the one the in-memory resolver selects from the same
    receipts and outbox rows, read back with its texts; and there is none for
    the one exactly when there is none for the other. *)
Theorem delivery_status_refines_authority (d : db) (i : DeliveryIdentity) :
  evidence_wf d -> identity_complete i = true -> id_target_channel i <> Some "" ->
  delivery_status d i =
    match current (resolver_of d) i with
    | None => Ok None
    | Some r => Some <$> read_receipt d r
    end.
Proof.
  intros Hwf Hc Hi. unfold delivery_status. rewrite Hc, latest_is_current by done. cbn.
  destruct (current (resolver_of d) i) as [r|]; [|done]. by destruct (read_receipt d r).
Qed.

(** ** Properties of the rule *)

Lemma elem_of_backed_iff a rs r : r ∈ outbox_backed a rs <-> r ∈ rs /\ generation_for a r <> None.
Proof. unfold outbox_backed. rewrite list_elem_of_filter. tauto. Qed.

Lemma elem_of_outboxless_iff rs r :
  r ∈ outboxless rs <-> r ∈ rs /\ opt_truthy (rc_outbox_id r) = false.
Proof. unfold outboxless. rewrite list_elem_of_filter. tauto. Qed.

Lemma generation_backed a r n : generation_for a r = Some n -> opt_truthy (rc_outbox_id r) = true.
Proof.
  unfold generation_for. destruct (rc_outbox_id r) as [id|]; cbn; [|done].
  by destruct (truthy id).
Qed.

Lemma generation_leb_le a x y n m :
  generation_for a x = Some n -> generation_for a y = Some m ->
  generation_leb a x y = true -> n <= m.
Proof. intros Hx Hy. rewrite (generation_leb_iff a x y n m Hx Hy). lia. Qed.

(** The current receipt of a delivery that has outbox generations is never
    history that lost: it is either outbox-less, or committed by an outbox row,
    and then by the newest generation that commits anything, so a late append
    by an older generation cannot displace it; no outbox-less receipt was
    appended after it; and there is no current receipt exactly when no receipt
    is eligible. *)
Theorem current_receipt_authoritative (rs : list DeliveryReceipt) (a : ReceiptAuthority) :
  match select_current_receipt rs (Some a) with
  | Some r =>
      r ∈ rs /\
      (forall x, x ∈ rs -> opt_truthy (rc_outbox_id x) = false -> rc_sequence x <= rc_sequence r) /\
      (opt_truthy (rc_outbox_id r) = true ->
       exists n, generation_for a r = Some n /\
         forall x m, x ∈ rs -> generation_for a x = Some m -> m <= n)
  | None => forall x, x ∈ rs ->
      opt_truthy (rc_outbox_id x) = true /\ generation_for a x = None
  end.
Proof.
  unfold select_current_receipt.
  destruct (max_by append_leb (_ ++ _)) as [r|] eqn:Hm.
  - apply max_by_Some in Hm as [Hin Hall]; [|apply _].
    assert (Hless : forall x, x ∈ rs -> opt_truthy (rc_outbox_id x) = false -> rc_sequence x <= rc_sequence r).
    { intros x Hx Ho. destruct (max_by append_leb (outboxless rs)) as [u|] eqn:Hu.
      - apply max_by_Some in Hu as [_ Hu]; [|apply _].
        assert (append_leb x u = true) as H1%append_leb_seq by (apply Hu; by apply elem_of_outboxless_iff).
        assert (append_leb u r = true) as H2%append_leb_seq; [|lia].
        apply Hall, elem_of_app. right. by apply list_elem_of_option_list.
      - apply max_by_None in Hu. assert (x ∈ outboxless rs) as Hxo by (by apply elem_of_outboxless_iff).
        rewrite Hu in Hxo. set_solver. }
    apply elem_of_app in Hin as [Hin|Hin]; apply list_elem_of_option_list in Hin;
      apply max_by_Some in Hin as [Hr Hmax]; try apply _.
    + apply elem_of_backed_iff in Hr as [Hr Hg]. split_and!; [done|done|]. intros _.
      destruct (generation_for a r) as [n|] eqn:Hn; [|done]. exists n. split; [done|].
      intros x m Hx Hxm. eapply (generation_leb_le a x r); [done|done|].
      apply Hmax, elem_of_backed_iff. by rewrite Hxm.
    + apply elem_of_outboxless_iff in Hr as [Hr Ho]. split_and!; [done|done|]. congruence.
  - apply max_by_None, app_eq_nil in Hm as [Hb Hu]. intros x Hx.
    assert (outboxless rs = []) as Hu' by (destruct (max_by append_leb (outboxless rs)) eqn:E; [done|by apply max_by_None in E]).
    assert (outbox_backed a rs = []) as Hb'
      by (destruct (max_by (generation_leb a) (outbox_backed a rs)) eqn:E; [done|by apply max_by_None in E]).
    split.
    + destruct (opt_truthy (rc_outbox_id x)) eqn:Ho; [done|].
      assert (x ∈ outboxless rs) as Hxo by (by apply elem_of_outboxless_iff). rewrite Hu' in Hxo. set_solver.
    + destruct (generation_for a x) as [n|] eqn:Hn; [|done].
      assert (x ∈ outbox_backed a rs) as Hxo by (apply elem_of_backed_iff; by rewrite Hn).
      rewrite Hb' in Hxo. set_solver.
Qed.

Lemma next_m_Some {A} (p : A -> result exc bool) l x :
  next_m p l = Ok (Some x) -> x ∈ l /\ p x = Ok true.
Proof.
  induction l as [|y l IH]; cbn; [done|]. intros ([] & Hp & H)%bind_Ok.
  - injection H as ->. split; [set_solver|done].
  - destruct (IH H). split; [set_solver|done].
Qed.

Lemma is_kind_true kind r : is_kind kind r = Ok true -> rc_receipt_kind r = Some kind.
Proof.
  intros (k & Hk & [= Heq])%bind_Ok. apply bool_decide_eq_true in Heq as ->.
  unfold receipt_kind in Hk. case_match eqn:He; [|done]. injection Hk as <-.
  apply elem_true in He. destruct (rc_receipt_kind r) as [k|]; cbn in *; [done|set_solver].
Qed.

Lemma committed_receipt_Some (o : Row) rs c :
  committed_receipt_for_outbox (Some o) rs = Some c ->
  c ∈ rs /\ receipt_id o = Some (rc_receipt_id c) /\
  of_generation (outbox_id o) (effective_generation o) c = true.
Proof.
  unfold committed_receipt_for_outbox. destruct (receipt_id o) as [rid|]; cbn [opt_or_empty default].
  2: { by rewrite orb_true_r. }
  destruct (negb _ || negb _); [done|]. intros [Hin Hb]%find_Some_elem.
  apply andb_true_iff in Hb as [Hg Hr%bool_decide_eq_true]. naive_solver.
Qed.

(** Attempt evidence of the current generation is only ever reached through
    the current outbox row's committed pointer: the resolved current attempt is
    an attempt receipt of that row and of its effective generation, and it is
    the pointed receipt itself or the parent the pointed lifecycle receipt
    names, so a receipt that merely claims the row and generation is never
    promoted. *)
Theorem current_attempt_committed (v : DeliveryAuthorityResolver) (i : DeliveryIdentity)
    (s : ResolvedDeliverySnapshot) (x : DeliveryReceipt) :
  resolve v i = Ok s -> rd_current_attempt s = Some x ->
  exists (o : Row) (c : DeliveryReceipt),
    rd_current_outbox s = Some o /\ rd_current_receipt s = Some c /\
    receipt_id o = Some (rc_receipt_id c) /\
    of_generation (outbox_id o) (effective_generation o) c = true /\
    x ∈ receipts_for v i /\ rc_receipt_kind x = Some "attempt" /\
    of_generation (outbox_id o) (effective_generation o) x = true /\
    (x = c \/ rc_parent_receipt_id c = Some (rc_receipt_id x)).
Proof.
  intros (latest & _ & (attempt & Ha & (cause & _ & [= <-])%bind_Ok)%bind_Ok)%bind_Ok. cbn.
  intros ->. unfold current_generation_attempt in Ha.
  destruct (select_current_outbox (outbox_for v i)) as [o|]; [|done].
  destruct (committed_receipt_for_outbox (Some o) (receipts_for v i)) as [c|] eqn:Hc; [|done].
  apply committed_receipt_Some in Hc as (Hcin & Hpo & Hgen). exists o, c.
  split_and!; try done; apply bind_Ok in Ha as (kind & Hk & Ha).
  all: assert (rc_receipt_kind c = Some kind) as Hkc
    by (apply is_kind_true; unfold is_kind; rewrite Hk; cbn; by rewrite bool_decide_true).
  all: case_bool_decide as Hat; [injection Ha as <-; subst; by auto|].
  all: case_match eqn:Hpar; [done|]; apply next_m_Some in Ha as [Hx Hp];
    apply bind_Ok in Hp as (b & Hb & [= Hp]); breflect; destruct Hp as [[-> Hpid] Hog]; try done.
  - by apply is_kind_true.
  - right. destruct (rc_parent_receipt_id c); cbn in *; congruence.
Qed.

(** ** A store with a failed first attempt and a committed second one *)

Module AuthorityExamples.

Definition row (attempt : Z) (receipt : string) : Row :=
  mkRow
    {| outbox_id := "ob-1"; event_id := "evt-1"; route_id := "r"; delivery_plan_id := "plan-1";
       target_adapter := "mesh"; target_channel := None; target_address := None; created_at := 10;
       payload_hash := None; parent_receipt_id := None; replay_run_id := None; metadata := [] |}
    {| attempt_number := attempt; active_attempt := None; status := Sent; failure_kind := None;
       failure_kind_detail := None; next_attempt_at := None; updated_at := 20;
       last_attempt_at := None; locked_at := None; lease_until := None; worker_id := None;
       receipt_id := Some receipt; error_summary := None; dispatch_source := "retry" |}.

Definition receipt (seq : Z) (id : string) (st : string) (attempt : Z) : DeliveryReceipt :=
  {| rc_sequence := seq; rc_receipt_id := id; rc_event_id := "evt-1";
     rc_delivery_plan_id := "plan-1"; rc_target_adapter := "mesh"; rc_target_channel := None;
     rc_route_id := "r"; rc_status := st; rc_receipt_kind := Some "attempt"; rc_error := None;
     rc_failure_kind := None; rc_capability_level := None; rc_capability_field := None;
     rc_capability_reason := None; rc_delivery_strategy := None; rc_adapter_message_id := None;
     rc_next_retry_at := None; rc_attempt_number := attempt; rc_parent_receipt_id := None;
     rc_source := "retry"; rc_replay_run_id := None; rc_retry_max_attempts := None;
     rc_retry_jitter := None; rc_rendering_evidence := None; rc_outbox_id := Some "ob-1";
     rc_confirmation_level := "unknown"; rc_created_at := 30 |}.

(** The late receipt 3 of attempt 1 lost the guarded transition. *)
Definition store : db :=
  {| canonical_events := ["evt-1"]; outbox := [row 2 "rc-2"]; snapshots := []; diagnostics := [];
     dependencies := []; access_policies := [];
     receipts := [receipt 1 "rc-1" "failed" 1; receipt 2 "rc-2" "sent" 2; receipt 3 "rc-3" "sent" 1];
     native_refs := [] |}.

Definition target : DeliveryIdentity := mkIdentity "evt-1" "plan-1" "mesh" None.

Lemma store_wf : evidence_wf store.
Proof.
  split.
  - apply (bool_decide_unpack _). vm_compute. exact I.
  - intros r Hr. cbn in Hr. repeat (apply elem_of_cons in Hr as [->|Hr]; [done|]). set_solver.
  - apply NoDup_singleton.
  - intros r id Hr Ho. exists (row 2 "rc-2"). cbn in Hr.
    repeat (apply elem_of_cons in Hr as [->|Hr];
      [cbn in Ho; injection Ho as <-; split_and!; [set_solver|done|reflexivity]|]). set_solver.
  - intros o Ho _. apply list_elem_of_singleton in Ho as ->. cbn. lia.
Qed.

(** The committed receipt wins over the later append. *)
Lemma delivery_status_refines_authority_witness :
  current (resolver_of store) target = Some (receipt 2 "rc-2" "sent" 2) /\
  delivery_status store target = Some <$> read_receipt store (receipt 2 "rc-2" "sent" 2).
Proof.
  assert (current (resolver_of store) target = Some (receipt 2 "rc-2" "sent" 2)) as Hc
    by (vm_compute; reflexivity).
  split; [exact Hc|].
  pose proof (delivery_status_refines_authority store target store_wf eq_refl ltac:(discriminate)) as H.
  rewrite Hc in H. exact H.
Defined.

Lemma current_attempt_committed_witness :
  match resolve (resolver_of store) target with
  | Ok s => rd_current_attempt s = Some (receipt 2 "rc-2" "sent" 2) /\
      exists (o : Row) (c : DeliveryReceipt), rd_current_outbox s = Some o /\
        rd_current_receipt s = Some c /\ receipt_id o = Some (rc_receipt_id c)
  | Raise _ => False
  end.
Proof.
  destruct (resolve (resolver_of store) target) as [s|e] eqn:Hs; [|vm_compute in Hs; discriminate Hs].
  assert (rd_current_attempt s = Some (receipt 2 "rc-2" "sent" 2)) as Ha
    by (vm_compute in Hs; injection Hs as <-; reflexivity).
  split; [exact Ha|].
  destruct (current_attempt_committed _ _ s _ Hs Ha) as (o & c & Ho & Hc & Hp & _).
  exists o, c. split; [exact Ho|]. split; [exact Hc|exact Hp].
Defined.

End AuthorityExamples.
