(* ===== verification/AuthorityFence.v ===== *)
(** * Stale callbacks are fenced

    How the outbox store and the authority rule meet: a reservation made
    through [reserve_outbox_attempt] ([storage/sqlite/_outbox.py]) decides
    which asynchronous callbacks [delivery_attempt_provenance_mismatch]
    ([core/delivery_authority.py]) lets through. *)

From S2P Require Import Prelude.
From S2P Require Import DeliveryState.
From S2P Require Import Delivery.
From S2P Require Import Store.
From S2P Require Import Outbox.
From S2P Require Import OutboxProofs.
From S2P Require Import OutboxSafety.
From S2P Require Import DeliveryAuthority.

Open Scope string_scope.
Open Scope list_scope.
Open Scope Z_scope.

(** SQL's and Python's notion of a row's generation agree from attempt 1 on. *)
Lemma effective_generation_eq (r : Row) :
  row_check r = true -> 1 <= generation r -> effective_generation r = generation r.
Proof.
  unfold row_check, effective_generation, generation, int_or. rewrite !andb_true_iff.
  intros [[[[Hn Ha] _] _] _]. destruct (active_attempt r) as [a|]; cbn; intros Hg.
  - case_match; lia.
  - case_match; lia.
Qed.

Lemma provenance_match_iff p (o : Row) :
  delivery_attempt_provenance_mismatch p o = None <->
  outbox_id o = pv_outbox_id p /\ outbox_identity o = provenance_identity p /\
  effective_generation o = pv_attempt_number p /\ dispatch_source o = pv_source p /\
  normalize_replay_run_id (replay_run_id o) = pv_replay_run_id p.
Proof.
  unfold delivery_attempt_provenance_mismatch.
  repeat case_bool_decide; cbn; try (destruct (Z.eqb_spec (effective_generation o) (pv_attempt_number p)));
    cbn; intuition congruence.
Qed.

Lemma constraints_row rows (r : Row) : outbox_constraints rows = true -> r ∈ rows -> row_check r = true.
Proof.
  unfold outbox_constraints. rewrite !andb_true_iff. intros [[[Hall _] _] _] Hin.
  rewrite forallb_forall in Hall. by apply Hall, list_elem_of_In.
Qed.

(** C5: A reservation fences every older attempt for good: once attempt g was
    reserved on an outbox row, no callback envelope for that row with a smaller
    attempt number is ever accepted again, whatever operations follow; while
    right after the reservation the envelope that agrees with the row and
    carries attempt g is accepted. *)
Theorem reservation_fences_callbacks ops d now i w f g d1 (r : Row) (p : DeliveryAttemptProvenance) :
  reachable d -> reserve_outbox_attempt now i w f d = (Ok (Some g), d1) ->
  r ∈ outbox (exec ops d1) -> outbox_id r = i ->
  (pv_attempt_number p < g -> delivery_attempt_provenance_mismatch p r <> None) /\
  (ops = [] -> pv_attempt_number p = g -> pv_outbox_id p = i ->
   provenance_identity p = outbox_identity r ->
   pv_source p = (if f =? 0 then "live" else "retry") ->
   pv_replay_run_id p = normalize_replay_run_id (replay_run_id r) ->
   delivery_attempt_provenance_mismatch p r = None).
Proof.
  intros Hd%reachable_constraints H Hr Hi.
  destruct (reserved_generation ops d now i w f g d1 Hd H) as [Hc Hgen]. specialize (Hgen r Hr Hi).
  pose proof (constraints_row _ r Hc Hr) as Hrow.
  apply reserve_Some in H as (-> & -> & q & Hq & Hg).
  pose proof (constraints_row _ q Hd Hq) as Hqrow.
  apply reserve_guard_facts in Hg as Hf. destruct Hf as (Hqi & _ & _ & Hqa & Hqn & _).
  assert (0 <= f) by (unfold row_check in Hqrow; rewrite !andb_true_iff in Hqrow; lia).
  split.
  - intros Hlt (_ & _ & He & _)%provenance_match_iff.
    rewrite effective_generation_eq in He by (done || lia). lia.
  - intros -> Hp Hpi Hid Hs Hrun. apply provenance_match_iff.
    assert (r = with_state q (reserve_state now q)) as ->.
    { apply (unique_row _ _ _ Hc Hr); [by apply elem_of_updated|]. simpl. congruence. }
    split_and!; [simpl in *; congruence|done| |simpl; rewrite Hqn; congruence|done].
    rewrite effective_generation_eq by (done || lia). unfold generation. simpl. lia.
Qed.

(** The live envelope of attempt [n] on row [r]. *)
Definition live_envelope (r : Row) (n : Z) : DeliveryAttemptProvenance :=
  {| pv_event_id := event_id r; pv_delivery_plan_id := delivery_plan_id r;
     pv_target_adapter := target_adapter r; pv_target_channel := target_channel r;
     pv_outbox_id := outbox_id r; pv_attempt_number := n; pv_source := "live";
     pv_replay_run_id := normalize_replay_run_id (replay_run_id r) |}.

(** The envelope of the first attempt is accepted after its reservation. *)
Lemma reservation_fences_callbacks_witness :
  let d := exec Examples.claimed empty_db in
  let d1 := (reserve_outbox_attempt 3000 "ob-1" "worker-a" 0 d).2 in
  (reserve_outbox_attempt 3000 "ob-1" "worker-a" 0 d).1 = Ok (Some 1) /\
  match outbox d1 !! 0%nat with
  | None => False
  | Some r =>
      delivery_attempt_provenance_mismatch (live_envelope r 0) r <> None /\
      delivery_attempt_provenance_mismatch (live_envelope r 1) r = None
  end.
Proof.
  intros d d1. split; [vm_compute; reflexivity|].
  destruct (outbox d1 !! 0%nat) as [r|] eqn:Hr; [|vm_compute in Hr; discriminate Hr].
  assert (r ∈ outbox (exec [] d1)) as Hin by (by eapply list_elem_of_lookup_2).
  assert (outbox_id r = "ob-1") as Hid
    by (vm_compute in Hr; injection Hr as <-; vm_compute; reflexivity).
  assert (reserve_outbox_attempt 3000 "ob-1" "worker-a" 0 d = (Ok (Some 1), d1)) as Hres
    by (vm_compute; reflexivity).
  assert (reachable d) as Hd by (exists Examples.claimed; reflexivity).
  split.
  - apply (reservation_fences_callbacks [] d 3000 "ob-1" "worker-a" 0 1 d1 r (live_envelope r 0) Hd Hres Hin Hid).
    reflexivity.
  - apply (reservation_fences_callbacks [] d 3000 "ob-1" "worker-a" 0 1 d1 r (live_envelope r 1) Hd Hres Hin Hid);
      [reflexivity|reflexivity|exact Hid|reflexivity..].
Defined.
