(* ===== verification/Recovery.v ===== *)
(** * Startup recovery evidence

    [src/src/medre/core/recovery/]: the classification of outbox snapshots
    ([classification.py]), the recovery ledger and its summary ([builder.py],
    [models.py], [recovery_source.py]).  A snapshot is the item as the code
    sees it through [_get]: optional strings, timestamps still text.  The
    reason strings are kept as the constructor that stands for the message,
    with the timestamp or status it interpolates.

    [datetime.fromisoformat] is the argument [fromisoformat]: it reads more
    spellings than the store writes, and only its agreement with the stored
    spelling matters ([reads_stored_text]). *)

From S2P Require Import Prelude.
From S2P Require Import DeliveryState.
From S2P Require Import IsoTime.
From S2P Require Import Delivery.
From S2P Require Import Store.
From S2P Require Import Outbox.

Open Scope string_scope.
Open Scope list_scope.
Open Scope Z_scope.

(** ** Snapshots and labels *)

Record outbox_snapshot : Set := {
  oi_status : option string;
  oi_event_id : option string;
  oi_outbox_id : option string;
  oi_delivery_plan_id : option string;
  oi_worker_id : option string;
  oi_replay_run_id : option string;
  oi_next_attempt_at : option string;
  oi_lease_until : option string;
  oi_updated_at : option string
}.

(** [_to_str]. *)
Definition to_str (v : option string) : string := opt_or_empty v.

Inductive label : Set :=
| CLASS_IMMEDIATELY_CLAIMABLE | CLASS_RETRY_ELIGIBLE | CLASS_STALE
| CLASS_ORPHANED | CLASS_TERMINAL | CLASS_INCONSISTENT.

#[export] Instance label_eq_dec : EqDecision label.
Proof. solve_decision. Defined.

Inductive reason : Set :=
| ItemTerminal (status : string)
| UnrecognisedStatus (status : string)
| NoKnownEvent (event : string)
| LeaseExpired (until : string)
| ActiveLease (until : string)
| LeaseMissing
| QueuedWithoutUpdatedAt
| QueuedWithinGrace (updated : string)
| QueuedBeyondGrace (updated : string)
| QueuedUnparseable
| RetryNotYetDue (next : string)
| RetryDue
| ItemPending
| OtherClaimable (status : string).

#[export] Instance reason_eq_dec : EqDecision reason.
Proof. solve_decision. Defined.

(** A [datetime]: its wall clock in microseconds and its UTC offset, absent
    when it is naive. *)
Record datetime : Set := { dt_wall : Z; dt_utcoffset : option Z }.

(** Aware datetimes compare and subtract by their UTC instants. *)
Definition dt_instant (t : datetime) : instant := dt_wall t - default 0 (dt_utcoffset t).

(** ** Ownership and sources *)

Inductive RecoveryOwnershipStatus : Set :=
| RECOVERABLE | CLAIMED_FOR_RECOVERY | RECLAIMED | ABANDONED | UNRECOVERABLE | SKIPPED.

Definition ownership_str (o : RecoveryOwnershipStatus) : string :=
  match o with
  | RECOVERABLE => "recoverable"
  | CLAIMED_FOR_RECOVERY => "claimed_for_recovery"
  | RECLAIMED => "reclaimed"
  | ABANDONED => "abandoned"
  | UNRECOVERABLE => "unrecoverable"
  | SKIPPED => "skipped"
  end.

Definition CLASSIFICATION_TO_OWNERSHIP (l : label) : string :=
  ownership_str match l with
                | CLASS_IMMEDIATELY_CLAIMABLE => RECOVERABLE
                | CLASS_RETRY_ELIGIBLE => SKIPPED
                | CLASS_STALE => CLAIMED_FOR_RECOVERY
                | CLASS_ORPHANED | CLASS_TERMINAL | CLASS_INCONSISTENT => UNRECOVERABLE
                end.

(** The values of [RecoverySource]. *)
Definition RECOVERY_SOURCES : list string :=
  ["startup_recovery"; "retry_worker_recovery"; "snapshot_diagnostics"; "replay_execution"].

Definition infer_recovery_source (startup_timestamp recovery_source : option string)
    : result exc string :=
  match recovery_source with
  | Some s => if negb (elem s RECOVERY_SOURCES) then Raise (ValueError "Unknown recovery source")
              else Ok s
  | None => Ok (if startup_timestamp then "startup_recovery" else "snapshot_diagnostics")
  end.

Record RecoveryOwnershipAction : Set := {
  ra_recovery_run_id : option string;
  ra_startup_timestamp : option string;
  ra_outbox_id : string;
  ra_prior_status : string;
  ra_observed_status : string;
  ra_ownership_action : string;
  ra_reason : reason;
  ra_worker_identity : option string;
  ra_recovery_source : string;
  ra_timestamp : string;
  ra_delivery_plan_id : string;
  ra_event_id : string;
  ra_replay_run_id : option string
}.

Record StartupRecoveryLedger : Set := {
  rl_recovery_run_id : option string;
  rl_startup_timestamp : option string;
  rl_actions : list RecoveryOwnershipAction;
  rl_generated_at : string
}.

Record RecoverySummary : Set := {
  recoverable_items : Z;
  claimed_items : Z;
  reclaimed_items : Z;
  skipped_items : Z;
  abandoned_items : Z;
  unrecoverable_items : Z;
  total_items : Z;
  consistency_valid : bool;
  by_source : list (string * Z);
  rs_recovery_run_id : option string
}.

Section recovery.
Context (fromisoformat : string -> result exc datetime).

(** [_parse_as_utc]: a naive timestamp is given the UTC zone. *)
Definition parse_as_utc (ts : string) : result exc datetime :=
  dt ← fromisoformat ts;
  Ok match dt_utcoffset dt with
     | None => {| dt_wall := dt_wall dt; dt_utcoffset := Some 0 |}
     | Some _ => dt
     end.

(** ** Classification *)

Definition classify_in_progress (lease_until : string) (now : instant) : label * reason :=
  if truthy lease_until then
    match parse_as_utc lease_until with
    | Ok lease_dt => if dt_instant lease_dt <=? now then (CLASS_STALE, LeaseExpired lease_until)
                     else (CLASS_RETRY_ELIGIBLE, ActiveLease lease_until)
    | Raise _ => (CLASS_STALE, LeaseMissing)
    end
  else (CLASS_STALE, LeaseMissing).

Definition classify_queued (updated_at : string) (now : instant) (grace : Z) : label * reason :=
  if negb (truthy updated_at) then (CLASS_STALE, QueuedWithoutUpdatedAt)
  else
    match parse_as_utc updated_at with
    | Ok updated_dt =>
        let age := now - dt_instant updated_dt in
        if age <=? grace then (CLASS_RETRY_ELIGIBLE, QueuedWithinGrace updated_at)
        else (CLASS_IMMEDIATELY_CLAIMABLE, QueuedBeyondGrace updated_at)
    | Raise _ => (CLASS_STALE, QueuedUnparseable)
    end.

Definition classify_retry_wait (next_attempt_at : string) (now : instant) : label * reason :=
  let due := (CLASS_IMMEDIATELY_CLAIMABLE, RetryDue) in
  if truthy next_attempt_at then
    match parse_as_utc next_attempt_at with
    | Ok next_dt => if now <? dt_instant next_dt
                    then (CLASS_RETRY_ELIGIBLE, RetryNotYetDue next_attempt_at) else due
    | Raise _ => due
    end
  else due.

Definition classify_startup_reclamation (it : outbox_snapshot)
    (known_event_ids : option (list string)) (now : instant) (stale_queued_grace : Z)
    : label * reason :=
  let status := py_lower (to_str (oi_status it)) in
  let event_id := to_str (oi_event_id it) in
  if is_terminal_outbox_status status then (CLASS_TERMINAL, ItemTerminal status)
  else if negb (validate_outbox_status status) then (CLASS_INCONSISTENT, UnrecognisedStatus status)
  else if match known_event_ids with Some ids => negb (elem event_id ids) | None => false end
  then (CLASS_ORPHANED, NoKnownEvent event_id)
  else if bool_decide (status = "in_progress")
  then classify_in_progress (to_str (oi_lease_until it)) now
  else if bool_decide (status = "queued")
  then classify_queued (to_str (oi_updated_at it)) now stale_queued_grace
  else if bool_decide (status = "retry_wait")
  then classify_retry_wait (to_str (oi_next_attempt_at it)) now
  else if bool_decide (status = "pending") then (CLASS_IMMEDIATELY_CLAIMABLE, ItemPending)
  else (CLASS_IMMEDIATELY_CLAIMABLE, OtherClaimable status).

(** ** The ledger *)

(** The arguments of [build_startup_recovery_ledger] besides the items and the
    clock, and the grace after its default. *)
Record ledger_request : Set := {
  rq_startup_timestamp : option string;
  rq_recovery_run_id : option string;
  rq_recovery_source : option string;
  rq_known_event_ids : option (list string);
  rq_stale_queued_grace : option Z
}.

Definition resolved_grace (q : ledger_request) : Z :=
  default (seconds STALE_QUEUED_GRACE_SECONDS) (rq_stale_queued_grace q).

(** The action recorded for an item, its source given. *)
Definition ownership_action (q : ledger_request) (generated_at : string) (now : instant)
    (source : string) (it : outbox_snapshot) : RecoveryOwnershipAction :=
  let status := py_lower (to_str (oi_status it)) in
  let updated_at := to_str (oi_updated_at it) in
  let classified := classify_startup_reclamation it (rq_known_event_ids q) now (resolved_grace q) in
  {| ra_recovery_run_id := rq_recovery_run_id q;
     ra_startup_timestamp := rq_startup_timestamp q;
     ra_outbox_id := to_str (oi_outbox_id it);
     ra_prior_status := status;
     ra_observed_status := status;
     ra_ownership_action := CLASSIFICATION_TO_OWNERSHIP classified.1;
     ra_reason := classified.2;
     ra_worker_identity := or_none (to_str (oi_worker_id it));
     ra_recovery_source := source;
     ra_timestamp := if truthy updated_at then updated_at else generated_at;
     ra_delivery_plan_id := to_str (oi_delivery_plan_id it);
     ra_event_id := to_str (oi_event_id it);
     ra_replay_run_id := or_none (to_str (oi_replay_run_id it)) |}.

(** The body of the loop; an unknown source raises at the first item. *)
Definition recovery_action (q : ledger_request) (generated_at : string) (now : instant)
    (it : outbox_snapshot) : result exc RecoveryOwnershipAction :=
  source ← infer_recovery_source (rq_startup_timestamp q) (rq_recovery_source q);
  Ok (ownership_action q generated_at now source it).

Fixpoint recovery_actions (q : ledger_request) (generated_at : string) (now : instant)
    (items : list outbox_snapshot) : result exc (list RecoveryOwnershipAction) :=
  match items with
  | [] => Ok []
  | it :: rest =>
      a ← recovery_action q generated_at now it;
      actions ← recovery_actions q generated_at now rest;
      Ok (a :: actions)
  end.

Definition action_order : RecoveryOwnershipAction -> RecoveryOwnershipAction -> bool :=
  on_key (fun a => (ra_outbox_id a, ra_timestamp a)) (lex_leb String.leb String.leb).

(** [generated_at] is the reading of [now_fn]. *)
Definition build_startup_recovery_ledger (q : ledger_request) (generated_at : string)
    (items : list outbox_snapshot) : result exc StartupRecoveryLedger :=
  now_dt ← parse_as_utc generated_at;
  actions ← recovery_actions q generated_at (dt_instant now_dt) items;
  Ok {| rl_recovery_run_id := rq_recovery_run_id q;
        rl_startup_timestamp := rq_startup_timestamp q;
        rl_actions := sorted_by action_order actions;
        rl_generated_at := generated_at |}.
End recovery.

(** ** The summary *)

Definition summary_zero (run : option string) : RecoverySummary :=
  {| recoverable_items := 0; claimed_items := 0; reclaimed_items := 0; skipped_items := 0;
     abandoned_items := 0; unrecoverable_items := 0; total_items := 0;
     consistency_valid := true; by_source := []; rs_recovery_run_id := run |}.

(** One iteration of the counting loop: the source counter and the first
    bucket whose name the ownership action equals. *)
Definition count_action (s : RecoverySummary) (a : RecoveryOwnershipAction) : RecoverySummary :=
  let oa := ra_ownership_action a in
  let b (x : RecoveryOwnershipStatus) := if bool_decide (oa = ownership_str x) then 1 else 0 in
  {| recoverable_items := recoverable_items s + b RECOVERABLE;
     claimed_items := claimed_items s + b CLAIMED_FOR_RECOVERY;
     reclaimed_items := reclaimed_items s + b RECLAIMED;
     skipped_items := skipped_items s + b SKIPPED;
     abandoned_items := abandoned_items s + b ABANDONED;
     unrecoverable_items := unrecoverable_items s + b UNRECOVERABLE;
     total_items := total_items s;
     consistency_valid := consistency_valid s;
     by_source := od_set (ra_recovery_source a)
                    (default 0 (od_get (ra_recovery_source a) (by_source s)) + 1) (by_source s);
     rs_recovery_run_id := rs_recovery_run_id s |}.

Definition bucket_sum (s : RecoverySummary) : Z :=
  recoverable_items s + claimed_items s + reclaimed_items s + skipped_items s +
  abandoned_items s + unrecoverable_items s.

Definition build_recovery_summary (l : StartupRecoveryLedger) : RecoverySummary :=
  let s := foldl count_action (summary_zero (rl_recovery_run_id l)) (rl_actions l) in
  let total := Z.of_nat (length (rl_actions l)) in
  {| recoverable_items := recoverable_items s; claimed_items := claimed_items s;
     reclaimed_items := reclaimed_items s; skipped_items := skipped_items s;
     abandoned_items := abandoned_items s; unrecoverable_items := unrecoverable_items s;
     total_items := total; consistency_valid := total =? bucket_sum s;
     by_source := sorted_by (lex_leb String.leb Z.leb) (by_source s);
     rs_recovery_run_id := rl_recovery_run_id l |}.

(** ** Agreement with the claim statement *)

(** [datetime.fromisoformat] reads what [datetime.isoformat] wrote in UTC. *)
Definition reads_stored_text (fromisoformat : string -> result exc datetime) : Prop :=
  forall c, civil_ok c = true ->
    fromisoformat (isoformat c) = Ok {| dt_wall := instant_of c; dt_utcoffset := Some 0 |}.

(** A column that holds the instant [o] is read as the text [t]. *)
Definition shows (t : option string) (o : option instant) : Prop :=
  match o with
  | None => t = None
  | Some i => exists c, civil_ok c = true /\ instant_of c = i /\ t = Some (isoformat c)
  end.

(** [it] is the snapshot of the stored row [r]. *)
Record snapshot_of (it : outbox_snapshot) (r : Row) : Prop := {
  so_status : oi_status it = Some (outbox_str (status r));
  so_event : oi_event_id it = Some (event_id r);
  so_next : shows (oi_next_attempt_at it) (next_attempt_at r);
  so_lease : shows (oi_lease_until it) (lease_until r);
  so_updated : shows (oi_updated_at it) (Some (updated_at r))
}.

(** Every adapter, initial and retried work, several claims per adapter. *)
Definition all_work : claim_options :=
  {| excluded_adapters := []; initial_only := false; one_per_adapter := false |}.

Lemma claim_filters_all_work now d r : claim_filters all_work now d r = true.
Proof. reflexivity. Qed.

Lemma lower_outbox_str s : py_lower (to_str (Some (outbox_str s))) = outbox_str s.
Proof. by destruct s. Qed.

Section classification.
Context (fromisoformat : string -> result exc datetime) (Hiso : reads_stored_text fromisoformat).

Lemma shown_parses t i : shows t (Some i) ->
  truthy (to_str t) = true /\
  exists dt, parse_as_utc fromisoformat (to_str t) = Ok dt /\ dt_instant dt = i.
Proof.
  intros (c & Hc & <- & ->). split; [by apply truthy_true|].
  eexists. unfold parse_as_utc. cbn. rewrite Hiso by done. split; [reflexivity|].
  unfold dt_instant; cbn; lia.
Qed.

Lemma classify_in_progress_row t o now : shows t o ->
  (classify_in_progress fromisoformat (to_str t) now).1 =
  if null_or_le o now then CLASS_STALE else CLASS_RETRY_ELIGIBLE.
Proof.
  unfold classify_in_progress. destruct o as [i|]; cbn; [|by intros ->].
  intros [-> (dt & -> & <-)]%shown_parses. by case_match.
Qed.

Lemma classify_queued_row t i now grace : shows t (Some i) ->
  (classify_queued fromisoformat (to_str t) now grace).1 =
  if i <? now - grace then CLASS_IMMEDIATELY_CLAIMABLE else CLASS_RETRY_ELIGIBLE.
Proof.
  unfold classify_queued. intros [-> (dt & -> & <-)]%shown_parses. cbn.
  destruct (Z.leb_spec (now - dt_instant dt) grace), (Z.ltb_spec (dt_instant dt) (now - grace));
    cbn; try done; lia.
Qed.

Lemma classify_retry_wait_row t o now : shows t o ->
  (classify_retry_wait fromisoformat (to_str t) now).1 =
  if null_or_le o now then CLASS_IMMEDIATELY_CLAIMABLE else CLASS_RETRY_ELIGIBLE.
Proof.
  unfold classify_retry_wait. destruct o as [i|]; cbn; [|by intros ->].
  intros [-> (dt & -> & <-)]%shown_parses.
  destruct (Z.ltb_spec now (dt_instant dt)), (Z.leb_spec (dt_instant dt) now); cbn; try done; lia.
Qed.

(** The label of a stored row whose event is known. *)
Definition row_label (now grace : Z) (r : Row) : label :=
  match status r with
  | Sent | DeadLettered | Cancelled | Abandoned => CLASS_TERMINAL
  | Pending => CLASS_IMMEDIATELY_CLAIMABLE
  | InProgress => if null_or_le (lease_until r) now then CLASS_STALE else CLASS_RETRY_ELIGIBLE
  | RetryWait => if null_or_le (next_attempt_at r) now then CLASS_IMMEDIATELY_CLAIMABLE
                 else CLASS_RETRY_ELIGIBLE
  | Queued => if updated_at r <? now - grace then CLASS_IMMEDIATELY_CLAIMABLE
              else CLASS_RETRY_ELIGIBLE
  end.

Definition event_known (known : option (list string)) (r : Row) : bool :=
  match known with Some ids => elem (event_id r) ids | None => true end.

Lemma classify_row (it : outbox_snapshot) (r : Row) known now grace :
  snapshot_of it r ->
  (classify_startup_reclamation fromisoformat it known now grace).1 =
  if event_known known r || outbox_terminal (status r) then row_label now grace r
  else CLASS_ORPHANED.
Proof.
  intros [Hst Hev Hn Hl Hu]. unfold classify_startup_reclamation, row_label, event_known.
  rewrite Hst, Hev, lower_outbox_str.
  destruct known as [ids|]; [destruct (elem (event_id r) ids) eqn:Hk|]; cbn [orb];
    try change (to_str (Some (event_id r))) with (event_id r); rewrite ?Hk;
    destruct (status r); first
      [ reflexivity
      | exact (classify_in_progress_row _ _ _ Hl)
      | exact (classify_queued_row _ _ _ _ Hu)
      | exact (classify_retry_wait_row _ _ _ Hn) ].
Qed.
End classification.

Lemma leb_split (u now g : Z) :
  (u <=? now - g) = (u <? now - g) || (now =? u + g).
Proof. apply eq_true_iff_eq. rewrite orb_true_iff, Z.leb_le, Z.ltb_lt, Z.eqb_eq. lia. Qed.

(** C39: For the snapshot of a stored row that no newer generation supersedes
    and whose event is known, recovery's label decides what the unrestricted
    claim statement does with the row: it takes it if and only if the label is
    immediately claimable or stale (or the row is queued exactly at the grace
    age, where the two comparisons differ).  Only the two columns the
    classification never reads are left to the statement: the schedule of a row
    that is not waiting for a retry and the lease of a row that is not in
    progress must not lie in the future.  So the label of an in-progress row
    follows its lease, and that of a waiting row its schedule, exactly as the
    claim does. *)
Theorem recovery_agrees_with_claims fromisoformat it d (r : Row) known now :
  reads_stored_text fromisoformat -> snapshot_of it r ->
  no_newer_generation d r = true -> event_known known r = true ->
  let grace := seconds STALE_QUEUED_GRACE_SECONDS in
  let label := (classify_startup_reclamation fromisoformat it known now grace).1 in
  claim_predicate all_work now d r = true <->
  (label = CLASS_IMMEDIATELY_CLAIMABLE \/ label = CLASS_STALE \/
   (status r = Queued /\ now = updated_at r + grace)) /\
  (status r <> RetryWait -> null_or_le (next_attempt_at r) now = true) /\
  (status r <> InProgress -> null_or_le (lease_until r) now = true).
Proof.
  intros Hiso Hs Hg Hk grace lb. subst lb.
  rewrite (classify_row _ Hiso _ _ _ _ _ Hs), Hk. cbn [orb].
  unfold claim_predicate, row_label, outbox_claimable.
  rewrite claim_filters_all_work, Hg. fold grace.
  rewrite (leb_split (updated_at r) now grace).
  destruct (null_or_le (next_attempt_at r) now), (null_or_le (lease_until r) now),
    (updated_at r <? now - grace), (Z.eqb_spec now (updated_at r + grace)),
    (status r); cbn; naive_solver.
Qed.

(** ** The ledger and its summary *)

Definition bucket (o : RecoveryOwnershipStatus) (s : RecoverySummary) : Z :=
  match o with
  | RECOVERABLE => recoverable_items s
  | CLAIMED_FOR_RECOVERY => claimed_items s
  | RECLAIMED => reclaimed_items s
  | ABANDONED => abandoned_items s
  | UNRECOVERABLE => unrecoverable_items s
  | SKIPPED => skipped_items s
  end.

Definition owned (o : RecoveryOwnershipStatus) (a : RecoveryOwnershipAction) : Prop :=
  ra_ownership_action a = ownership_str o.

#[export] Instance owned_dec o a : Decision (owned o a).
Proof. unfold owned. apply _. Defined.

Lemma fold_bucket o acts s :
  bucket o (foldl count_action s acts) =
  bucket o s + Z.of_nat (length (filter (owned o) acts)).
Proof.
  revert s. induction acts as [|a acts IH]; intros s; cbn [foldl]; [cbn; lia|].
  rewrite IH, filter_cons. unfold owned.
  destruct o; cbn; case_bool_decide; case_decide;
    cbn [length]; try done; lia.
Qed.

Lemma fold_bucket_sum acts s :
  Forall (fun a => exists o, owned o a) acts ->
  bucket_sum (foldl count_action s acts) = bucket_sum s + Z.of_nat (length acts).
Proof.
  intros H. revert s. induction H as [|a acts [o Ho] _ IH]; intros s; cbn [foldl]; [cbn; lia|].
  rewrite IH. cbn [length]. unfold bucket_sum, count_action. rewrite Ho.
  destruct o; cbn [ownership_str]; repeat (case_bool_decide; simplify_eq); cbn; lia.
Qed.

Lemma fold_one_source src acts s n :
  Forall (fun a => ra_recovery_source a = src) acts -> by_source s = [(src, n)] ->
  by_source (foldl count_action s acts) = [(src, n + Z.of_nat (length acts))].
Proof.
  intros H. revert s n. induction H as [|a acts Ha _ IH]; intros s n Hs; cbn [foldl].
  - by rewrite Hs, Z.add_0_r.
  - rewrite (IH _ (n + 1)).
    + by rewrite length_cons, Nat2Z.inj_succ, <- Z.add_1_l, Z.add_assoc.
    + cbn. rewrite Ha, Hs. cbn. by rewrite !decide_True by done.
Qed.

Section ledger.
Context (fromisoformat : string -> result exc datetime) (q : ledger_request) (generated_at : string).

Let source := infer_recovery_source (rq_startup_timestamp q) (rq_recovery_source q).

Lemma recovery_actions_Ok now items acts :
  recovery_actions fromisoformat q generated_at now items = Ok acts ->
  exists src, (items <> [] -> source = Ok src) /\
    acts = ownership_action fromisoformat q generated_at now src <$> items.
Proof.
  revert acts. induction items as [|it items IH]; intros acts; [intros [= <-]; by exists ""|].
  cbn. unfold recovery_action. fold source. destruct source as [src|] eqn:Hsrc; cbn; [|done].
  intros (acts' & (src' & Hsrc' & ->)%IH & [= <-])%bind_Ok. exists src. split; [done|].
  destruct items; [done|]. by injection (Hsrc' ltac:(done)) as ->.
Qed.

Lemma recovery_actions_total now items src :
  source = Ok src -> exists acts, recovery_actions fromisoformat q generated_at now items = Ok acts.
Proof.
  intros Hsrc. induction items as [|it items [acts IH]]; [by eexists|].
  cbn. unfold recovery_action. fold source. rewrite Hsrc. cbn. rewrite IH. by eexists.
Qed.

Lemma source_raises : (exists e, source = Raise e) <->
  exists s, rq_recovery_source q = Some s /\ s ∉ RECOVERY_SOURCES.
Proof.
  unfold source, infer_recovery_source. destruct (rq_recovery_source q) as [s|]; [|naive_solver].
  destruct (elem s RECOVERY_SOURCES) eqn:He; cbn; [apply elem_true in He|apply elem_false in He];
    naive_solver.
Qed.

Lemma ledger_raises items :
  (exists e, build_startup_recovery_ledger fromisoformat q generated_at items = Raise e) <->
  (exists e, parse_as_utc fromisoformat generated_at = Raise e) \/
  (items <> [] /\ exists s, rq_recovery_source q = Some s /\ s ∉ RECOVERY_SOURCES).
Proof.
  rewrite <- source_raises. unfold build_startup_recovery_ledger.
  destruct (parse_as_utc fromisoformat generated_at) as [now|]; cbn; [|naive_solver].
  destruct source as [src|e] eqn:Hsrc.
  - destruct (recovery_actions_total (dt_instant now) items src Hsrc) as [acts ->]. naive_solver.
  - destruct items as [|it items]; cbn; [naive_solver|].
    unfold recovery_action. fold source. rewrite Hsrc. cbn. naive_solver.
Qed.
End ledger.

(** The number of items with one of the labels [ls]. *)
Definition labelled fromisoformat (q : ledger_request) (now : instant) (ls : list label)
    (items : list outbox_snapshot) : Z :=
  Z.of_nat (length (filter (fun it =>
    (classify_startup_reclamation fromisoformat it (rq_known_event_ids q) now
       (resolved_grace q)).1 ∈ ls) items)).

Definition ownership_labels (o : RecoveryOwnershipStatus) : list label :=
  match o with
  | RECOVERABLE => [CLASS_IMMEDIATELY_CLAIMABLE]
  | CLAIMED_FOR_RECOVERY => [CLASS_STALE]
  | SKIPPED => [CLASS_RETRY_ELIGIBLE]
  | UNRECOVERABLE => [CLASS_ORPHANED; CLASS_TERMINAL; CLASS_INCONSISTENT]
  | RECLAIMED | ABANDONED => []
  end.

Lemma ownership_of_label l o :
  CLASSIFICATION_TO_OWNERSHIP l = ownership_str o <-> l ∈ ownership_labels o.
Proof.
  split; [|rewrite <- (elem_true (A := label))]; destruct l, o; cbn; try done; intros; set_solver.
Qed.

Lemma owned_actions fromisoformat q g now src items o :
  Z.of_nat (length (filter (owned o) (ownership_action fromisoformat q g now src <$> items))) =
  labelled fromisoformat q now (ownership_labels o) items.
Proof.
  unfold labelled. f_equal. induction items as [|it items IH]; [done|].
  rewrite fmap_cons, !filter_cons. pose proof (ownership_of_label
    (classify_startup_reclamation fromisoformat it (rq_known_event_ids q) now (resolved_grace q)).1 o)
    as Hiff.
  case_decide as H1; case_decide as H2; cbn [length]; rewrite ?IH; [done|exfalso..|done];
    unfold owned in H1; naive_solver.
Qed.

Lemma summary_of_actions fromisoformat q g now src items l :
  rl_actions l ≡ₚ (ownership_action fromisoformat q g now src <$> items) ->
  let s := build_recovery_summary l in
  consistency_valid s = true /\ total_items s = Z.of_nat (length items) /\
  (forall o, bucket o s = labelled fromisoformat q now (ownership_labels o) items) /\
  (items <> [] -> by_source s = [(src, Z.of_nat (length items))]).
Proof.
  intros Hp s.
  assert (Hlen : length (rl_actions l) = length items) by by rewrite Hp, length_fmap.
  split_and!.
  - cbn. apply Z.eqb_eq. rewrite fold_bucket_sum; [done|]. rewrite Hp. apply Forall_fmap, Forall_true.
    intros it. cbn. by eexists.
  - cbn. by rewrite Hlen.
  - intros o. rewrite <- (owned_actions _ _ g _ src), <- Hp.
    transitivity (bucket o (foldl count_action (summary_zero (rl_recovery_run_id l)) (rl_actions l)));
      [by destruct o|]. rewrite fold_bucket. by destruct o.
  - intros Hne. cbn. rewrite <- Hlen.
    assert (Hsrc : Forall (fun a => ra_recovery_source a = src) (rl_actions l))
      by (rewrite Hp; apply Forall_fmap, Forall_true; done).
    destruct Hsrc as [|a acts Ha Hsrc]; [by destruct items|]. cbn [foldl].
    erewrite fold_one_source; [|done|cbn; by rewrite Ha].
    cbn [length]. rewrite Nat2Z.inj_succ, <- Z.add_1_l. reflexivity.
Qed.

(** A ledger is produced unless the clock text does not parse or, with at
    least one item, the requested source is unknown.  It holds one action per
    item in the order of outbox id and timestamp; its summary is consistent,
    every bucket counts exactly the items whose classification maps to it (so
    none is ever reported as reclaimed or abandoned), and all items are
    attributed to the one inferred source. *)
Theorem recovery_ledger_accounts fromisoformat q generated_at items :
  (forall l, build_startup_recovery_ledger fromisoformat q generated_at items = Ok l ->
   exists now, parse_as_utc fromisoformat generated_at = Ok now /\
   (ra_outbox_id <$> rl_actions l) ≡ₚ ((fun it => to_str (oi_outbox_id it)) <$> items) /\
   StronglySorted (fun a b => action_order a b = true) (rl_actions l) /\
   let s := build_recovery_summary l in
   consistency_valid s = true /\ total_items s = Z.of_nat (length items) /\
   (forall o, bucket o s =
      labelled fromisoformat q (dt_instant now) (ownership_labels o) items) /\
   (items <> [] -> exists src,
      infer_recovery_source (rq_startup_timestamp q) (rq_recovery_source q) = Ok src /\
      by_source s = [(src, Z.of_nat (length items))])) /\
  ((exists e, build_startup_recovery_ledger fromisoformat q generated_at items = Raise e) <->
   (exists e, parse_as_utc fromisoformat generated_at = Raise e) \/
   (items <> [] /\ exists s, rq_recovery_source q = Some s /\ s ∉ RECOVERY_SOURCES)).
Proof.
  split; [|apply ledger_raises].
  intros l (now & Hnow & (acts & Hacts & [= <-])%bind_Ok)%bind_Ok. exists now.
  apply recovery_actions_Ok in Hacts as (src & Hsrc & ->).
  split_and!; [done| |apply sorted_by_sorted, _|].
  - cbn [rl_actions]. by rewrite sorted_by_perm, <- list_fmap_compose.
  - edestruct (summary_of_actions fromisoformat q generated_at (dt_instant now) src items)
      as (? & ? & ? & ?); [|split_and!; [done..|eauto]].
    cbn [rl_actions]. apply sorted_by_perm.
Qed.

Module RecoveryExamples.

Definition utc_reader (s : string) : result exc datetime :=
  match IsoTime.fromisoformat s with
  | Some c => Ok {| dt_wall := instant_of c; dt_utcoffset := Some 0 |}
  | None => Raise (ValueError "Invalid isoformat string")
  end.

Lemma utc_reader_reads : reads_stored_text utc_reader.
Proof. intros c Hc. unfold utc_reader. by rewrite fromisoformat_isoformat. Qed.

(** A queued row last touched at [newyear]. *)
Definition queued_row : Row :=
  mkRow {| outbox_id := "o1"; event_id := "e1"; route_id := "r1"; delivery_plan_id := "p1";
           target_adapter := "mesh"; target_channel := None; target_address := None;
           created_at := instant_of newyear; payload_hash := None; parent_receipt_id := None;
           replay_run_id := None; metadata := [] |}
        {| attempt_number := 1; active_attempt := None; status := Queued; failure_kind := None;
           failure_kind_detail := None; next_attempt_at := None; updated_at := instant_of newyear;
           last_attempt_at := None; locked_at := None; lease_until := None; worker_id := None;
           receipt_id := None; error_summary := None; dispatch_source := "live" |}.

Definition one_row : db := set_outbox empty_db [queued_row].

Definition queued_item : outbox_snapshot :=
  {| oi_status := Some "queued"; oi_event_id := Some "e1"; oi_outbox_id := Some "o1";
     oi_delivery_plan_id := Some "p1"; oi_worker_id := None; oi_replay_run_id := None;
     oi_next_attempt_at := None; oi_lease_until := None; oi_updated_at := Some (isoformat newyear) |}.

Lemma queued_item_snapshot : snapshot_of queued_item queued_row.
Proof. split; try done. by exists newyear. Qed.

Definition grace_boundary : instant := instant_of newyear + seconds STALE_QUEUED_GRACE_SECONDS.

(** At the grace boundary the statement claims what recovery calls not yet
    eligible. *)
Lemma recovery_agrees_with_claims_witness :
  claim_predicate all_work grace_boundary one_row queued_row = true /\
  (classify_startup_reclamation utc_reader queued_item None grace_boundary
     (seconds STALE_QUEUED_GRACE_SECONDS)).1 = CLASS_RETRY_ELIGIBLE.
Proof.
  split; [|vm_compute; reflexivity].
  apply (recovery_agrees_with_claims utc_reader queued_item one_row queued_row None
           grace_boundary utc_reader_reads queued_item_snapshot eq_refl eq_refl).
  split_and!; [right; right; split|..]; reflexivity.
Defined.

Definition request : ledger_request :=
  {| rq_startup_timestamp := None; rq_recovery_run_id := Some "run"; rq_recovery_source := None;
     rq_known_event_ids := Some ["e1"]; rq_stale_queued_grace := None |}.

Definition orphan_item : outbox_snapshot :=
  {| oi_status := Some "PENDING"; oi_event_id := Some "e2"; oi_outbox_id := Some "o0";
     oi_delivery_plan_id := Some "p1"; oi_worker_id := None; oi_replay_run_id := None;
     oi_next_attempt_at := None; oi_lease_until := None; oi_updated_at := None |}.

Definition example_ledger : result exc StartupRecoveryLedger :=
  build_startup_recovery_ledger utc_reader request (isoformat newyear) [queued_item; orphan_item].

Lemma recovery_ledger_accounts_witness : exists l, example_ledger = Ok l /\
  consistency_valid (build_recovery_summary l) = true /\
  bucket SKIPPED (build_recovery_summary l) = 1 /\
  bucket UNRECOVERABLE (build_recovery_summary l) = 1.
Proof.
  destruct example_ledger as [l|e] eqn:Hl; [|by vm_compute in Hl].
  destruct (proj1 (recovery_ledger_accounts utc_reader request (isoformat newyear)
                     [queued_item; orphan_item]) l Hl) as (now & Hnow & _ & _ & Hc & _ & Hb & _).
  assert (Hn : Ok now = Ok {| dt_wall := instant_of newyear; dt_utcoffset := Some 0 |})
    by (rewrite <- Hnow; vm_compute; reflexivity).
  injection Hn as ->.
  exists l. split_and!; [done|exact Hc|..]; rewrite Hb; vm_compute; reflexivity.
Defined.

End RecoveryExamples.
