(* ===== verification/Capacity.v ===== *)
(** * Capacity control

    [src/src/medre/core/supervision/capacity.py]: the delivery and replay
    semaphores and the source-fair inbound admission queue.  Each definition
    is one lock-protected section (or one loop-thread section between awaits)
    of the source, so sequences of them are the interleavings asyncio allows.
    A waiter's future is its identifier; [resolved] maps the identifiers of
    futures that have a result to that result. *)

From S2P Require Import Prelude.

Open Scope string_scope.
Open Scope list_scope.
Open Scope Z_scope.

(** ** Inbound admission *)

Definition ANONYMOUS_INBOUND_SOURCE : string := "<anonymous>".

Record InboundAdmissionResult : Set := { granted : bool; reason : option string }.

Definition admitted : InboundAdmissionResult := {| granted := true; reason := None |}.
Definition refused (why : string) : InboundAdmissionResult :=
  {| granted := false; reason := Some why |}.

Record waiter : Set := { wt_source : string; wt_id : Z }.

#[export] Instance waiter_eq_dec : EqDecision waiter.
Proof. solve_decision. Defined.

Record inbound : Type := {
  inbound_limit : Z;
  inbound_sources : list string;
  inbound_sources_configured : bool;
  inbound_waiters : list (string * list waiter);
  inbound_rr_sources : list string;
  inbound_waiting_total : Z;
  inbound_current : Z;
  inbound_current_by_source : list (string * Z);
  inbound_rejections : Z;
  inbound_rejections_by_source : list (string * Z);
  inbound_timeouts : Z;
  inbound_timeouts_by_source : list (string * Z);
  inbound_accepting : bool;
  granted_waiters : list Z;
  resolved : list (Z * InboundAdmissionResult)
}.

Definition inbound_init (limit : Z) : inbound :=
  {| inbound_limit := limit; inbound_sources := []; inbound_sources_configured := false;
     inbound_waiters := []; inbound_rr_sources := []; inbound_waiting_total := 0;
     inbound_current := 0; inbound_current_by_source := []; inbound_rejections := 0;
     inbound_rejections_by_source := []; inbound_timeouts := 0;
     inbound_timeouts_by_source := []; inbound_accepting := true; granted_waiters := [];
     resolved := [] |}.

(** [d.setdefault(k, 0)] and [d[k] += n]; the key of an increment is always
    present because [_ensure_inbound_source] ran for it. *)
Definition setdefault0 (k : string) (d : list (string * Z)) : list (string * Z) :=
  match od_get k d with Some _ => d | None => od_set k 0 d end.
Definition bump (k : string) (n : Z) (d : list (string * Z)) : list (string * Z) :=
  od_set k (default 0 (od_get k d) + n) d.

Definition normalize_inbound_source (source_id : option string) : string :=
  match source_id with
  | Some s => if truthy (py_strip s) then py_strip s else ANONYMOUS_INBOUND_SOURCE
  | None => ANONYMOUS_INBOUND_SOURCE
  end.

Definition ensure_inbound_source (source : string) (s : inbound) : inbound :=
  {| inbound_limit := inbound_limit s; inbound_sources := inbound_sources s;
     inbound_sources_configured := inbound_sources_configured s;
     inbound_waiters := inbound_waiters s; inbound_rr_sources := inbound_rr_sources s;
     inbound_waiting_total := inbound_waiting_total s; inbound_current := inbound_current s;
     inbound_current_by_source := setdefault0 source (inbound_current_by_source s);
     inbound_rejections := inbound_rejections s;
     inbound_rejections_by_source := setdefault0 source (inbound_rejections_by_source s);
     inbound_timeouts := inbound_timeouts s;
     inbound_timeouts_by_source := setdefault0 source (inbound_timeouts_by_source s);
     inbound_accepting := inbound_accepting s; granted_waiters := granted_waiters s;
     resolved := resolved s |}.

Definition inbound_source_wait_limit (s : inbound) (source : string) : Z :=
  let configured := Z.of_nat (length (inbound_sources s)) in
  let source_count :=
    if configured =? 0 then Z.max 1 (Z.of_nat (length (inbound_current_by_source s)))
    else configured + (if elem source (inbound_sources s) then 0 else 1) in
  Z.max 1 ((inbound_limit s + source_count - 1) / source_count).

Definition set_slots (s : inbound) (current : Z) (by_source : list (string * Z))
    (granted : list Z) (res : list (Z * InboundAdmissionResult)) : inbound :=
  {| inbound_limit := inbound_limit s; inbound_sources := inbound_sources s;
     inbound_sources_configured := inbound_sources_configured s;
     inbound_waiters := inbound_waiters s; inbound_rr_sources := inbound_rr_sources s;
     inbound_waiting_total := inbound_waiting_total s; inbound_current := current;
     inbound_current_by_source := by_source; inbound_rejections := inbound_rejections s;
     inbound_rejections_by_source := inbound_rejections_by_source s;
     inbound_timeouts := inbound_timeouts s;
     inbound_timeouts_by_source := inbound_timeouts_by_source s;
     inbound_accepting := inbound_accepting s; granted_waiters := granted; resolved := res |}.

Definition set_queue (s : inbound) (waiters : list (string * list waiter)) (rr : list string)
    (total : Z) : inbound :=
  {| inbound_limit := inbound_limit s; inbound_sources := inbound_sources s;
     inbound_sources_configured := inbound_sources_configured s;
     inbound_waiters := waiters; inbound_rr_sources := rr; inbound_waiting_total := total;
     inbound_current := inbound_current s;
     inbound_current_by_source := inbound_current_by_source s;
     inbound_rejections := inbound_rejections s;
     inbound_rejections_by_source := inbound_rejections_by_source s;
     inbound_timeouts := inbound_timeouts s;
     inbound_timeouts_by_source := inbound_timeouts_by_source s;
     inbound_accepting := inbound_accepting s; granted_waiters := granted_waiters s;
     resolved := resolved s |}.

(** [_record_inbound_grant_locked]. *)
Definition record_inbound_grant (source : string) (s : inbound) : inbound :=
  set_slots s (inbound_current s + 1) (bump source 1 (inbound_current_by_source s))
    (granted_waiters s) (resolved s).

(** [_record_inbound_rejection_locked]. *)
Definition record_inbound_rejection (source : string) (s : inbound) : inbound :=
  {| inbound_limit := inbound_limit s; inbound_sources := inbound_sources s;
     inbound_sources_configured := inbound_sources_configured s;
     inbound_waiters := inbound_waiters s; inbound_rr_sources := inbound_rr_sources s;
     inbound_waiting_total := inbound_waiting_total s; inbound_current := inbound_current s;
     inbound_current_by_source := inbound_current_by_source s;
     inbound_rejections := inbound_rejections s + 1;
     inbound_rejections_by_source := bump source 1 (inbound_rejections_by_source s);
     inbound_timeouts := inbound_timeouts s;
     inbound_timeouts_by_source := inbound_timeouts_by_source s;
     inbound_accepting := inbound_accepting s; granted_waiters := granted_waiters s;
     resolved := resolved s |}.

Definition record_inbound_timeout (source : string) (s : inbound) : inbound :=
  {| inbound_limit := inbound_limit s; inbound_sources := inbound_sources s;
     inbound_sources_configured := inbound_sources_configured s;
     inbound_waiters := inbound_waiters s; inbound_rr_sources := inbound_rr_sources s;
     inbound_waiting_total := inbound_waiting_total s; inbound_current := inbound_current s;
     inbound_current_by_source := inbound_current_by_source s;
     inbound_rejections := inbound_rejections s;
     inbound_rejections_by_source := inbound_rejections_by_source s;
     inbound_timeouts := inbound_timeouts s + 1;
     inbound_timeouts_by_source := bump source 1 (inbound_timeouts_by_source s);
     inbound_accepting := inbound_accepting s; granted_waiters := granted_waiters s;
     resolved := resolved s |}.

(** [_release_inbound_slot_locked]. *)
Definition release_inbound_slot (source : string) (s : inbound) : inbound :=
  set_slots s (Z.max 0 (inbound_current s - 1))
    (od_set source (Z.max 0 (default 0 (od_get source (inbound_current_by_source s)) - 1))
       (inbound_current_by_source s))
    (granted_waiters s) (resolved s).

(** [list.remove]: the first equal element. *)
Fixpoint remove_first (w : waiter) (q : list waiter) : option (list waiter) :=
  match q with
  | [] => None
  | x :: q' => if bool_decide (x = w) then Some q' else (fun r => x :: r) <$> remove_first w q'
  end.

(** [_remove_inbound_waiter_locked]. *)
Definition remove_inbound_waiter (w : waiter) (s : inbound) : bool * inbound :=
  match od_get (wt_source w) (inbound_waiters s) with
  | None => (false, s)
  | Some queue =>
      match remove_first w queue with
      | None => (false, s)
      | Some queue' =>
          let total := Z.max 0 (inbound_waiting_total s - 1) in
          if nonempty queue'
          then (true, set_queue s (od_set (wt_source w) queue' (inbound_waiters s))
                        (inbound_rr_sources s) total)
          else (true, set_queue s (od_del (wt_source w) (inbound_waiters s))
                        (filter (fun x => x <> wt_source w) (inbound_rr_sources s)) total)
      end
  end.

(** Setting the result of a future that has none yet. *)
Definition resolve (w : waiter) (r : InboundAdmissionResult)
    (res : list (Z * InboundAdmissionResult)) : list (Z * InboundAdmissionResult) :=
  match od_get (wt_id w) res with Some _ => res | None => od_set (wt_id w) r res end.

(** The loop condition and one iteration of [_grant_inbound_waiters_locked]. *)
Definition can_grant (s : inbound) : bool :=
  (inbound_current s <? inbound_limit s) && (0 <? inbound_waiting_total s) &&
  nonempty (inbound_rr_sources s).

Definition grant_iteration (s : inbound) : inbound :=
  match inbound_rr_sources s with
  | [] => s
  | source :: rr =>
      match od_get source (inbound_waiters s) with
      | None | Some [] => set_queue s (inbound_waiters s) rr (inbound_waiting_total s)
      | Some (w :: queue) =>
          let total := Z.max 0 (inbound_waiting_total s - 1) in
          let s1 := if nonempty queue
                    then set_queue s (od_set source queue (inbound_waiters s)) (rr ++ [source]) total
                    else set_queue s (od_del source (inbound_waiters s)) rr total in
          if negb (inbound_accepting s1)
          then let s2 := record_inbound_rejection source s1 in
               set_slots s2 (inbound_current s2) (inbound_current_by_source s2)
                 (granted_waiters s2) (resolve w (refused "closed") (resolved s2))
          else let s2 := record_inbound_grant source s1 in
               set_slots s2 (inbound_current s2) (inbound_current_by_source s2)
                 (wt_id w :: granted_waiters s2) (resolve w admitted (resolved s2))
      end
  end.

Definition queued_waiters (s : inbound) : list waiter := concat (od_values (inbound_waiters s)).

(** Every iteration removes a waiter or an entry of the rotation. *)
Definition grant_fuel (s : inbound) : nat :=
  length (inbound_rr_sources s) + length (queued_waiters s).

Fixpoint grant_loop (fuel : nat) (s : inbound) : inbound :=
  match fuel with
  | O => s
  | S fuel' => if can_grant s then grant_loop fuel' (grant_iteration s) else s
  end.

Definition grant_inbound_waiters (s : inbound) : inbound := grant_loop (grant_fuel s) s.

Inductive acquire_outcome : Set :=
| Decided (r : InboundAdmissionResult)
| Waiting.

(** [acquire_inbound] up to the await: [id] is the new waiter's future. *)
Definition acquire_inbound (source_id : option string) (id : Z) (s : inbound)
    : acquire_outcome * inbound :=
  let source := normalize_inbound_source source_id in
  let s := ensure_inbound_source source s in
  if negb (inbound_accepting s)
  then (Decided (refused "closed"), record_inbound_rejection source s)
  else if (inbound_current s <? inbound_limit s) && (inbound_waiting_total s =? 0)
  then (Decided admitted, record_inbound_grant source s)
  else
    let source_queue := od_get source (inbound_waiters s) in
    let source_waiting := Z.of_nat (length (default [] source_queue)) in
    if (inbound_limit s <=? inbound_waiting_total s) ||
       (inbound_source_wait_limit s source <=? source_waiting)
    then (Decided (refused "queue_full"), record_inbound_rejection source s)
    else
      let queue := default [] source_queue in
      let w := {| wt_source := source; wt_id := id |} in
      let s1 := set_queue s (od_set source (queue ++ [w]) (inbound_waiters s))
                  (if nonempty queue then inbound_rr_sources s else inbound_rr_sources s ++ [source])
                  (inbound_waiting_total s + 1) in
      let s2 := grant_inbound_waiters s1 in
      if elem id (granted_waiters s2) then (Decided admitted, s2) else (Waiting, s2).

(** The TimeoutError branch. *)
Definition acquire_timeout (w : waiter) (s : inbound) : InboundAdmissionResult * inbound :=
  if elem (wt_id w) (granted_waiters s) then (admitted, s)
  else match remove_inbound_waiter w s with
  | (true, s') => (refused "timeout", record_inbound_timeout (wt_source w) s')
  | (false, s') =>
      match od_get (wt_id w) (resolved s') with
      | Some r => (r, s')
      | None => (refused "timeout", s')
      end
  end.

(** The CancelledError branch. *)
Definition acquire_cancelled (w : waiter) (s : inbound) : inbound :=
  if elem (wt_id w) (granted_waiters s)
  then
    let s1 := set_slots s (inbound_current s) (inbound_current_by_source s)
                (filter (fun i => i <> wt_id w) (granted_waiters s)) (resolved s) in
    grant_inbound_waiters (release_inbound_slot (wt_source w) s1)
  else (remove_inbound_waiter w s).2.

Definition release_inbound (source_id : option string) (s : inbound) : inbound :=
  let source := normalize_inbound_source source_id in
  let s := ensure_inbound_source source s in
  if default 0 (od_get source (inbound_current_by_source s)) <=? 0 then s
  else grant_inbound_waiters (release_inbound_slot source s).

Definition stop_accepting_inbound (s : inbound) : inbound :=
  {| inbound_limit := inbound_limit s; inbound_sources := inbound_sources s;
     inbound_sources_configured := inbound_sources_configured s;
     inbound_waiters := inbound_waiters s; inbound_rr_sources := inbound_rr_sources s;
     inbound_waiting_total := inbound_waiting_total s; inbound_current := inbound_current s;
     inbound_current_by_source := inbound_current_by_source s;
     inbound_rejections := inbound_rejections s;
     inbound_rejections_by_source := inbound_rejections_by_source s;
     inbound_timeouts := inbound_timeouts s;
     inbound_timeouts_by_source := inbound_timeouts_by_source s; inbound_accepting := false;
     granted_waiters := granted_waiters s; resolved := resolved s |}.

(** [sorted({s.strip() for s in source_ids if s.strip()})]. *)
Definition normalize_sources (source_ids : list string) : list string :=
  sorted_by String.leb (remove_dups (filter (fun s => s <> "") (py_strip <$> source_ids))).

(** The assignments to [_inbound_sources] and [_inbound_sources_configured]. *)
Definition set_sources (s : inbound) (sources : list string) : inbound :=
  {| inbound_limit := inbound_limit s; inbound_sources := sources;
     inbound_sources_configured := true; inbound_waiters := inbound_waiters s;
     inbound_rr_sources := inbound_rr_sources s;
     inbound_waiting_total := inbound_waiting_total s; inbound_current := inbound_current s;
     inbound_current_by_source := inbound_current_by_source s;
     inbound_rejections := inbound_rejections s;
     inbound_rejections_by_source := inbound_rejections_by_source s;
     inbound_timeouts := inbound_timeouts s;
     inbound_timeouts_by_source := inbound_timeouts_by_source s;
     inbound_accepting := inbound_accepting s; granted_waiters := granted_waiters s;
     resolved := resolved s |}.

Inductive capacity_error : Set := SourcesFixed | WorkStarted.

Definition configure_inbound_sources (source_ids : list string) (s : inbound)
    : result capacity_error unit * inbound :=
  let normalized := normalize_sources source_ids in
  if inbound_sources_configured s
  then (if bool_decide (normalized = inbound_sources s) then Ok tt else Raise SourcesFixed, s)
  else if negb (inbound_current s =? 0) || negb (inbound_waiting_total s =? 0)
  then (Raise WorkStarted, s)
  else (Ok tt,
        foldl (fun s source => ensure_inbound_source source s)
          (set_sources s normalized) normalized).

(** ** Dictionaries by position *)

Section od_split.
Context {K V : Type} `{EqDecision K}.

Lemma od_split (k : K) (v : V) d :
  od_get k d = Some v -> exists l1 l2, d = l1 ++ (k, v) :: l2 /\ k ∉ l1.*1 /\
    (forall v', od_set k v' d = l1 ++ (k, v') :: l2) /\ od_del k d = l1 ++ l2.
Proof.
  induction d as [|[k0 v0] d IH]; simpl; [done|]. destruct (decide (k = k0)) as [->|Hne].
  - intros [= ->]. exists [], d. split_and!; [done|set_solver|done|done].
  - intros Hg. destruct (IH Hg) as (l1 & l2 & -> & Hni & Hs & Hd).
    exists ((k0, v0) :: l1), l2. split_and!; [done|set_solver| |by rewrite Hd].
    intros v'. by rewrite Hs.
Qed.
End od_split.

Definition od_sum (d : list (string * Z)) : Z := foldr Z.add 0 (od_values d).

Lemma od_sum_app a b : od_sum (a ++ b) = od_sum a + od_sum b.
Proof.
  unfold od_sum, od_values. rewrite fmap_app. induction (a.*2) as [|x l IH]; cbn; [done|].
  rewrite IH. lia.
Qed.

Lemma od_sum_set k v d : od_sum (od_set k v d) = od_sum d - default 0 (od_get k d) + v.
Proof.
  destruct (od_get k d) as [v0|] eqn:Hg.
  - destruct (od_split k v0 d Hg) as (l1 & l2 & -> & _ & Hs & _).
    rewrite Hs, !od_sum_app. cbn. fold (od_values l2). lia.
  - rewrite od_set_new by (by apply od_get_None). rewrite od_sum_app. cbn. lia.
Qed.

(** ** Queues *)

(** The dictionary after the queue of [source] became [queue]. *)
Definition requeue (source : string) (queue : list waiter) (d : list (string * list waiter)) :=
  if nonempty queue then od_set source queue d else od_del source d.

Definition all_waiters (d : list (string * list waiter)) : list waiter := concat (od_values d).

Lemma all_waiters_split l1 k (q : list waiter) l2 :
  all_waiters (l1 ++ (k, q) :: l2) ≡ₚ q ++ all_waiters (l1 ++ l2).
Proof.
  unfold all_waiters, od_values. rewrite !fmap_app. cbn. rewrite !concat_app. cbn.
  rewrite !(assoc (++)). apply Permutation_app; [|done]. apply Permutation_app_comm.
Qed.

Lemma requeue_split source queue queue' d :
  od_get source d = Some queue ->
  exists rest, all_waiters d ≡ₚ queue ++ rest /\
    all_waiters (requeue source queue' d) ≡ₚ queue' ++ rest /\
    od_keys d ≡ₚ source :: od_keys (od_del source d).
Proof.
  intros (l1 & l2 & -> & _ & Hs & Hd)%od_split. exists (all_waiters (l1 ++ l2)).
  split; [apply all_waiters_split|]. split.
  - unfold requeue. destruct queue' as [|w q']; simpl; [by rewrite Hd|].
    rewrite Hs. apply (all_waiters_split l1 source (w :: q') l2).
  - rewrite Hd. unfold od_keys. rewrite !fmap_app. cbn. symmetry. apply Permutation_middle.
Qed.

Lemma requeue_wf source queue d : od_wf d -> od_wf (requeue source queue d).
Proof. intros. unfold requeue. case_match; auto with medre. Qed.

Lemma requeue_In source queue d k q :
  od_wf d -> (k, q) ∈ requeue source queue d ->
  (k = source /\ q = queue /\ queue <> []) \/ (k <> source /\ (k, q) ∈ d).
Proof.
  intros Hwf. unfold requeue. destruct (nonempty queue) eqn:Hn.
  - apply nonempty_true in Hn. intros Hin.
    assert (od_get k (od_set source queue d) = Some q) as Hg by (by apply od_In_get, Hin; auto with medre).
    destruct (decide (k = source)) as [->|Hne].
    + rewrite od_get_set_eq in Hg. by simplify_eq; left.
    + rewrite od_get_set_ne in Hg by done. right. split; [done|]. by apply od_get_In.
  - intros Hin. right. split; [|by eapply od_del_In]. intros ->.
    assert (od_get source (od_del source d) = Some q) as Hg by (by apply od_In_get, Hin; auto with medre).
    by rewrite od_get_del_eq in Hg.
Qed.

Lemma requeue_keys source queue d :
  source ∈ od_keys d ->
  od_keys (requeue source queue d) =
    if nonempty queue then od_keys d else od_keys (od_del source d).
Proof.
  intros Hin. unfold requeue. case_match; [|done]. rewrite od_keys_set. by rewrite decide_True.
Qed.

(** ** The queue invariant *)

Record queue_ok (s : inbound) : Prop := {
  q_wf : od_wf (inbound_waiters s);
  q_nonempty : forall k q, (k, q) ∈ inbound_waiters s -> q <> [];
  q_source : forall k q w, (k, q) ∈ inbound_waiters s -> w ∈ q -> wt_source w = k;
  q_rotation : inbound_rr_sources s ≡ₚ od_keys (inbound_waiters s);
  q_total : inbound_waiting_total s = Z.of_nat (length (queued_waiters s))
}.

Lemma queue_ok_set_slots s c b g r : queue_ok s -> queue_ok (set_slots s c b g r).
Proof. by intros []. Qed.

Lemma elem_of_queued s w :
  queue_ok s -> w ∈ queued_waiters s <->
  exists q, od_get (wt_source w) (inbound_waiters s) = Some q /\ w ∈ q.
Proof.
  intros Hq. unfold queued_waiters, od_values. rewrite list_elem_of_In, in_concat. split.
  - intros (q & Hin & Hw%list_elem_of_In). apply list_elem_of_In, list_elem_of_fmap in Hin as ([k q'] & -> & Hin).
    exists q'. split; [|done]. rewrite (q_source s Hq _ _ _ Hin Hw).
    apply od_In_get; [apply Hq|done].
  - intros (q & Hg & Hw). exists q. split; [|by apply list_elem_of_In].
    apply list_elem_of_In, list_elem_of_fmap. exists (wt_source w, q). split; [done|]. by apply od_get_In.
Qed.

(** Popping one waiter of the first source of the rotation, which goes to the
    back if it still has waiters. *)
Lemma queue_ok_pop s source rr w queue :
  queue_ok s -> inbound_rr_sources s = source :: rr ->
  od_get source (inbound_waiters s) = Some (w :: queue) ->
  queue_ok (set_queue s (requeue source queue (inbound_waiters s))
              (if nonempty queue then rr ++ [source] else rr)
              (Z.max 0 (inbound_waiting_total s - 1))) /\
  queued_waiters s ≡ₚ w :: all_waiters (requeue source queue (inbound_waiters s)).
Proof.
  intros [Hwf Hne Hsrc Hrr Htot] Hrs Hg.
  destruct (requeue_split source (w :: queue) queue _ Hg) as (rest & H1 & H2 & H3).
  assert (queued_waiters s ≡ₚ w :: all_waiters (requeue source queue (inbound_waiters s))) as Hp.
  { unfold queued_waiters. fold (all_waiters (inbound_waiters s)). rewrite H1, H2. done. }
  split; [|done]. split; simpl.
  - by apply requeue_wf.
  - intros k q [(-> & -> & ?)|[_ ?]]%requeue_In; [done|by eapply Hne|done].
  - intros k q x [(-> & -> & _)|[_ ?]]%requeue_In Hx; [|by eapply Hsrc|done].
    eapply Hsrc; [by apply od_get_In|]. set_solver.
  - assert (source ∈ od_keys (inbound_waiters s)) as Hin by (rewrite <- Hrr, Hrs; set_solver).
    rewrite requeue_keys by done. rewrite Hrs in Hrr. case_match.
    + rewrite <- Hrr. apply Permutation_app_comm.
    + rewrite H3 in Hrr. by apply Permutation_cons_inv in Hrr.
  - unfold queued_waiters; simpl. fold (all_waiters (requeue source queue (inbound_waiters s))).
    rewrite Htot, Hp. simpl. lia.
Qed.

(** ** Slots and their owners

    A slot is owned by a caller that was admitted and has not released yet
    ([held], by source) or by a suspended [acquire_inbound] call whose waiter
    the grant loop has already granted ([pending] and granted). *)

Definition slots (G : list Z) (pending : list waiter) (held : list string) (source : string) : Z :=
  Z.of_nat (length (filter (fun x => x = source) held)) +
  Z.of_nat (length (filter (fun w => wt_source w = source /\ wt_id w ∈ G) pending)).

Record core_ok (s : inbound) (pending : list waiter) (held : list string) : Prop := {
  c_queue : queue_ok s;
  c_limit : inbound_current s <= inbound_limit s;
  c_total : inbound_waiting_total s <= inbound_limit s;
  c_sum : inbound_current s = od_sum (inbound_current_by_source s);
  c_by_wf : od_wf (inbound_current_by_source s);
  c_by : forall source, default 0 (od_get source (inbound_current_by_source s)) =
                        slots (granted_waiters s) pending held source;
  c_pending : NoDup (wt_id <$> pending);
  c_queued_ids : NoDup (wt_id <$> queued_waiters s);
  c_queued : forall w, w ∈ queued_waiters s ->
    w ∈ pending /\ wt_id w ∉ granted_waiters s /\ od_get (wt_id w) (resolved s) = None;
  c_resolved : forall w r, w ∈ pending -> od_get (wt_id w) (resolved s) = Some r ->
    (granted r = true <-> wt_id w ∈ granted_waiters s)
}.

(** No slot idles while somebody waits. *)
Definition conserving (s : inbound) : Prop :=
  inbound_waiting_total s = 0 \/ inbound_limit s <= inbound_current s.

Lemma slots_grant G p1 w p2 held source :
  wt_id w ∉ G -> wt_id w ∉ (wt_id <$> p1 ++ p2) ->
  slots (wt_id w :: G) (p1 ++ w :: p2) held source =
  slots G (p1 ++ w :: p2) held source + (if decide (source = wt_source w) then 1 else 0).
Proof.
  intros Hni Hnp. unfold slots.
  assert (Hsame : forall p : list waiter, (forall x, x ∈ p -> wt_id x <> wt_id w) ->
    filter (fun x => wt_source x = source /\ wt_id x ∈ wt_id w :: G) p =
    filter (fun x => wt_source x = source /\ wt_id x ∈ G) p).
  { intros p Hp. apply filter_ext_on. intros x Hx.
    specialize (Hp x Hx). set_solver. }
  rewrite fmap_app, not_elem_of_app in Hnp. destruct Hnp as [Hn1 Hn2].
  rewrite !filter_app, !filter_cons.
  rewrite (Hsame p1) by (intros x Hx Heq; apply Hn1; rewrite <- Heq; by apply list_elem_of_fmap_2).
  rewrite (Hsame p2) by (intros x Hx Heq; apply Hn2; rewrite <- Heq; by apply list_elem_of_fmap_2).
  rewrite !length_app. destruct (decide (source = wt_source w)) as [->|Hne].
  - rewrite decide_True by (split; [done|set_solver]). rewrite decide_False by tauto. simpl. lia.
  - rewrite !decide_False by (intros [? _]; congruence). lia.
Qed.

Lemma slots_drop G p1 w p2 held source :
  slots G (p1 ++ w :: p2) held source =
  slots G (p1 ++ p2) held source +
  (if decide (wt_source w = source /\ wt_id w ∈ G) then 1 else 0).
Proof.
  unfold slots. rewrite !filter_app, filter_cons, !length_app. case_decide; simpl; lia.
Qed.

Lemma slots_hold G p held1 x held2 source :
  slots G p (held1 ++ x :: held2) source =
  slots G p (held1 ++ held2) source + (if decide (x = source) then 1 else 0).
Proof.
  unfold slots. rewrite !filter_app, filter_cons, !length_app. case_decide; simpl; lia.
Qed.

Lemma slots_nonneg G p held source : 0 <= slots G p held source.
Proof. unfold slots. lia. Qed.

Lemma bump_get k n d j :
  default 0 (od_get j (bump k n d)) = default 0 (od_get j d) + (if decide (j = k) then n else 0).
Proof.
  unfold bump. destruct (decide (j = k)) as [->|Hne].
  - by rewrite od_get_set_eq.
  - rewrite od_get_set_ne by done. lia.
Qed.

Lemma bump_wf k n d : od_wf d -> od_wf (bump k n d).
Proof. apply od_set_wf. Qed.
#[local] Hint Resolve bump_wf : medre.

Lemma bump_sum k n d : od_sum (bump k n d) = od_sum d + n.
Proof. unfold bump. rewrite od_sum_set. lia. Qed.

(** ** The grant loop *)

Definition pop_state (s : inbound) (source : string) (rr : list string) (queue : list waiter)
    : inbound :=
  set_queue s (requeue source queue (inbound_waiters s))
    (if nonempty queue then rr ++ [source] else rr) (Z.max 0 (inbound_waiting_total s - 1)).

(** In a well-formed state an iteration always serves the waiter at the front
    of the first source of the rotation. *)
Lemma grant_iteration_eq s :
  queue_ok s -> can_grant s = true ->
  exists source rr w queue, inbound_rr_sources s = source :: rr /\
    od_get source (inbound_waiters s) = Some (w :: queue) /\ wt_source w = source /\
    grant_iteration s =
      (if inbound_accepting s
       then set_slots (pop_state s source rr queue) (inbound_current s + 1)
              (bump source 1 (inbound_current_by_source s))
              (wt_id w :: granted_waiters s) (resolve w admitted (resolved s))
       else set_slots (record_inbound_rejection source (pop_state s source rr queue))
              (inbound_current s) (inbound_current_by_source s)
              (granted_waiters s) (resolve w (refused "closed") (resolved s))).
Proof.
  intros Hq Hc. unfold can_grant in Hc. breflect. destruct Hc as [_ Hne].
  destruct (inbound_rr_sources s) as [|source rr] eqn:Hrr; [done|].
  assert (source ∈ od_keys (inbound_waiters s)) as Hin by (rewrite <- (q_rotation s Hq), Hrr; set_solver).
  destruct (od_get source (inbound_waiters s)) as [[|w queue]|] eqn:Hg.
  - apply od_get_In in Hg. by apply (q_nonempty s Hq) in Hg.
  - exists source, rr, w, queue. split_and!; [done|done| |].
    { apply od_get_In in Hg. apply (q_source s Hq _ _ w Hg). set_solver. }
    unfold grant_iteration. rewrite Hrr, Hg. unfold pop_state, requeue.
    destruct (nonempty queue), (inbound_accepting s) eqn:Ha; simpl; by rewrite ?Ha.
  - by apply od_get_None in Hg.
Qed.

Lemma resolve_get w r res i :
  od_get (wt_id w) res = None ->
  od_get i (resolve w r res) = if decide (i = wt_id w) then Some r else od_get i res.
Proof.
  intros Hn. unfold resolve. rewrite Hn. case_decide; subst.
  - by rewrite od_get_set_eq.
  - by rewrite od_get_set_ne.
Qed.

(** The waiter an iteration serves, and those it leaves. *)
Lemma grant_pop s pending held source rr w queue :
  core_ok s pending held -> inbound_rr_sources s = source :: rr ->
  od_get source (inbound_waiters s) = Some (w :: queue) ->
  let s' := pop_state s source rr queue in
  queue_ok s' /\ queued_waiters s ≡ₚ w :: queued_waiters s' /\
  w ∈ pending /\ wt_id w ∉ granted_waiters s /\ od_get (wt_id w) (resolved s) = None /\
  NoDup (wt_id <$> queued_waiters s') /\
  forall x, x ∈ queued_waiters s' ->
    x ∈ pending /\ wt_id x ∉ granted_waiters s /\ od_get (wt_id x) (resolved s) = None /\
    wt_id x <> wt_id w.
Proof.
  intros [Hq Hl Ht Hs Hbw Hb Hp Hqi Hqd Hr] Hrr Hg s'.
  destruct (queue_ok_pop s source rr w queue Hq Hrr Hg) as [Hq' Hperm].
  assert (w ∈ queued_waiters s) as Hw by (rewrite Hperm; set_solver).
  destruct (Hqd w Hw) as (Hwp & Hwg & Hwr).
  assert (NoDup (wt_id w :: (wt_id <$> queued_waiters s'))) as [Hwid Hids]%NoDup_cons
    by (rewrite Hperm in Hqi; done).
  split_and!; try done. intros x Hx.
  destruct (Hqd x) as (? & ? & ?); [rewrite Hperm; by right|].
  split_and!; try done. intros Heq. apply Hwid. rewrite <- Heq. by apply list_elem_of_fmap_2.
Qed.

Lemma grant_iteration_ok s pending held :
  core_ok s pending held -> can_grant s = true ->
  core_ok (grant_iteration s) pending held /\
  (grant_fuel (grant_iteration s) < grant_fuel s)%nat.
Proof.
  intros Hok Hc. destruct (grant_iteration_eq s (c_queue _ _ _ Hok) Hc)
    as (source & rr & w & queue & Hrr & Hg & Hsrc & ->).
  destruct (grant_pop s pending held source rr w queue Hok Hrr Hg)
    as (Hq' & Hperm & Hwp & Hwg & Hwr & Hids & Hrest).
  destruct Hok as [Hq Hl Ht Hs Hbw Hb Hp Hqi Hqd Hr].
  unfold can_grant in Hc. rewrite !andb_true_iff, !Z.ltb_lt in Hc. destruct Hc as [[Hlt Hpos] _].
  assert (Hfuel : (length (inbound_rr_sources (pop_state s source rr queue)) +
    length (queued_waiters (pop_state s source rr queue)) < grant_fuel s)%nat).
  { unfold grant_fuel. rewrite Hrr, Hperm. simpl. case_match; rewrite ?length_app; simpl; lia. }
  split; [|by destruct (inbound_accepting s)].
  destruct (inbound_accepting s); split; simpl; try done; try lia.
  - by apply queue_ok_set_slots.
  - rewrite bump_sum. lia.
  - auto with medre.
  - intros src. rewrite bump_get, Hb. apply list_elem_of_split in Hwp as (p1 & p2 & ->).
    rewrite slots_grant; [by rewrite Hsrc|done|].
    rewrite fmap_app, fmap_cons, Permutation_app_comm in Hp. simpl in Hp.
    apply NoDup_cons in Hp as [Hp _]. by rewrite fmap_app, Permutation_app_comm.
  - intros x Hx. destruct (Hrest x Hx) as (? & ? & ? & ?). split_and!; [done|set_solver|].
    rewrite resolve_get by done. by rewrite decide_False.
  - intros x r Hx. rewrite resolve_get by done. case_decide as Heq.
    + intros [= <-]. rewrite Heq. split; [set_solver|done].
    + intros Hg'. rewrite (Hr x r Hx Hg'). set_solver.
  - destruct Hq'; by split.
  - intros x Hx. destruct (Hrest x Hx) as (? & ? & ? & ?). split_and!; [done..|].
    rewrite resolve_get by done. by rewrite decide_False.
  - intros x r Hx. rewrite resolve_get by done. case_decide as Heq.
    + intros [= <-]. assert (x = w) as -> by (by apply (NoDup_fmap_inj_on wt_id pending)). simpl.
      split; [done|intros; done].
    + apply (Hr x r Hx).
Qed.

Lemma cannot_grant_conserving s : queue_ok s -> can_grant s = false -> conserving s.
Proof.
  intros Hq. unfold can_grant, conserving. rewrite !andb_false_iff, !Z.ltb_ge.
  intros [[?|?]|Hn]; [by right|left|left].
  - rewrite (q_total s Hq) in *. lia.
  - apply nonempty_false in Hn. pose proof (q_rotation s Hq) as Hrr. rewrite Hn in Hrr.
    apply Permutation_nil_l in Hrr. rewrite (q_total s Hq). unfold queued_waiters, od_values.
    unfold od_keys in Hrr. by destruct (inbound_waiters s).
Qed.

(** The fuel is enough: the loop ends because its condition fails. *)
Lemma grant_loop_ok fuel s pending held :
  core_ok s pending held -> (grant_fuel s <= fuel)%nat ->
  core_ok (grant_loop fuel s) pending held /\ can_grant (grant_loop fuel s) = false.
Proof.
  revert s. induction fuel as [|fuel IH]; intros s Hok Hf; simpl.
  - split; [done|]. unfold grant_fuel in Hf. unfold can_grant.
    destruct (inbound_rr_sources s); simpl in *; [by rewrite andb_false_r|lia].
  - destruct (can_grant s) eqn:Hc; [|done].
    destruct (grant_iteration_ok s pending held Hok Hc) as [Hok' Hlt]. apply IH; [done|lia].
Qed.

Lemma grant_ok s pending held :
  core_ok s pending held ->
  core_ok (grant_inbound_waiters s) pending held /\ conserving (grant_inbound_waiters s).
Proof.
  intros Hok. destruct (grant_loop_ok (grant_fuel s) s pending held Hok) as [Hok' Hc]; [done|].
  split; [done|]. by apply cannot_grant_conserving; [apply Hok'|].
Qed.

(** ** The admission system

    The controller together with its callers: suspended [acquire_inbound]
    calls and admitted callers that will release once. *)

Record system : Type := {
  sys : inbound;
  pending : list waiter;
  held : list string
}.

Definition keep_if_granted (r : InboundAdmissionResult) (source : string) (h : list string) :=
  if granted r then source :: h else h.

Definition fresh (i : Z) (y : system) : Prop :=
  i ∉ (wt_id <$> pending y) /\ i ∉ granted_waiters (sys y) /\ od_get i (resolved (sys y)) = None.

Inductive sys_step : system -> system -> Prop :=
| step_decided y source_id i r s' :
    fresh i y -> acquire_inbound source_id i (sys y) = (Decided r, s') ->
    sys_step y {| sys := s'; pending := pending y;
                  held := keep_if_granted r (normalize_inbound_source source_id) (held y) |}
| step_waiting y source_id i s' :
    fresh i y -> acquire_inbound source_id i (sys y) = (Waiting, s') ->
    sys_step y {| sys := s';
                  pending := {| wt_source := normalize_inbound_source source_id; wt_id := i |} :: pending y;
                  held := held y |}
| step_wake y p1 w p2 r :
    pending y = p1 ++ w :: p2 -> od_get (wt_id w) (resolved (sys y)) = Some r ->
    sys_step y {| sys := sys y; pending := p1 ++ p2;
                  held := keep_if_granted r (wt_source w) (held y) |}
| step_timeout y p1 w p2 r s' :
    pending y = p1 ++ w :: p2 -> acquire_timeout w (sys y) = (r, s') ->
    sys_step y {| sys := s'; pending := p1 ++ p2;
                  held := keep_if_granted r (wt_source w) (held y) |}
| step_cancel y p1 w p2 :
    pending y = p1 ++ w :: p2 ->
    sys_step y {| sys := acquire_cancelled w (sys y); pending := p1 ++ p2; held := held y |}
| step_release y h1 h2 source_id :
    held y = h1 ++ normalize_inbound_source source_id :: h2 ->
    sys_step y {| sys := release_inbound source_id (sys y); pending := pending y; held := h1 ++ h2 |}
| step_configure y ids :
    sys_step y {| sys := (configure_inbound_sources ids (sys y)).2; pending := pending y;
                  held := held y |}
| step_stop y :
    sys_step y {| sys := stop_accepting_inbound (sys y); pending := pending y; held := held y |}.

Definition system_init (limit : Z) : system :=
  {| sys := inbound_init limit; pending := []; held := [] |}.

Definition sys_ok (y : system) : Prop :=
  core_ok (sys y) (pending y) (held y) /\ conserving (sys y).

(** ** Preservation *)

Lemma setdefault0_get k d j : default 0 (od_get j (setdefault0 k d)) = default 0 (od_get j d).
Proof.
  unfold setdefault0. destruct (od_get k d) eqn:E; [done|].
  destruct (decide (k = j)) as [->|Hne]; [by rewrite od_get_set_eq, E|by rewrite od_get_set_ne].
Qed.

Lemma setdefault0_sum k d : od_sum (setdefault0 k d) = od_sum d.
Proof.
  unfold setdefault0. destruct (od_get k d) eqn:E; [done|]. rewrite od_sum_set, E. simpl. lia.
Qed.

Lemma ensure_ok source s p h : core_ok s p h -> core_ok (ensure_inbound_source source s) p h.
Proof.
  intros [Hq Hl Ht Hs Hbw Hb Hp Hqi Hqd Hr]. split; simpl; try done.
  - by destruct Hq.
  - by rewrite setdefault0_sum.
  - unfold setdefault0. case_match; auto with medre.
  - intros src. by rewrite setdefault0_get.
Qed.

Lemma rejection_ok source s p h : core_ok s p h -> core_ok (record_inbound_rejection source s) p h.
Proof. intros [[] Hl Ht Hs Hbw Hb Hp Hqi Hqd Hr]. by split. Qed.

Lemma timeout_ok source s p h : core_ok s p h -> core_ok (record_inbound_timeout source s) p h.
Proof. intros [[] Hl Ht Hs Hbw Hb Hp Hqi Hqd Hr]. by split. Qed.

Lemma fast_grant_ok source s p h :
  core_ok s p h -> inbound_current s < inbound_limit s ->
  core_ok (record_inbound_grant source s) p (source :: h).
Proof.
  intros [Hq Hl Ht Hs Hbw Hb Hp Hqi Hqd Hr] Hlt. split; simpl; try done; try lia.
  - by apply queue_ok_set_slots.
  - rewrite bump_sum. lia.
  - auto with medre.
  - intros src. rewrite bump_get, Hb. change (source :: h) with ([] ++ source :: h).
    rewrite slots_hold. simpl. do 2 case_decide; try lia; congruence.
Qed.

Lemma NoDup_ids_drop p1 w p2 :
  NoDup (wt_id <$> p1 ++ w :: p2) -> NoDup (wt_id <$> p1 ++ p2).
Proof. rewrite <- Permutation_middle. simpl. by intros [_ ?]%NoDup_cons. Qed.

(** A granted suspended call returns: its slot becomes the caller's. *)
Lemma settle_granted s p1 w p2 h :
  core_ok s (p1 ++ w :: p2) h -> wt_id w ∈ granted_waiters s ->
  core_ok s (p1 ++ p2) (wt_source w :: h).
Proof.
  intros [Hq Hl Ht Hs Hbw Hb Hp Hqi Hqd Hr] Hg. split; try done.
  - intros src. rewrite Hb, slots_drop. change (wt_source w :: h) with ([] ++ wt_source w :: h).
    rewrite slots_hold. simpl. repeat case_decide; try lia; tauto.
  - by apply NoDup_ids_drop in Hp.
  - intros x Hx. destruct (Hqd x Hx) as (Hin & Hng & ?). split_and!; [|done..].
    assert (x <> w) by congruence. set_solver.
  - intros x r Hx. apply Hr. set_solver.
Qed.

(** A suspended call that is neither granted nor queued leaves. *)
Lemma drop_pending s p1 w p2 h :
  core_ok s (p1 ++ w :: p2) h -> wt_id w ∉ granted_waiters s -> w ∉ queued_waiters s ->
  core_ok s (p1 ++ p2) h.
Proof.
  intros [Hq Hl Ht Hs Hbw Hb Hp Hqi Hqd Hr] Hg Hnq. split; try done.
  - intros src. rewrite Hb, slots_drop, decide_False by tauto. lia.
  - by apply NoDup_ids_drop in Hp.
  - intros x Hx. destruct (Hqd x Hx) as (Hin & Hng & ?). split_and!; [|done..].
    assert (x <> w) by congruence. set_solver.
  - intros x r Hx. apply Hr. set_solver.
Qed.

Lemma remove_first_Some w q q' : remove_first w q = Some q' -> q ≡ₚ w :: q'.
Proof.
  revert q'. induction q as [|x q IH]; intros q'; simpl; [done|].
  case_bool_decide as Hx; [intros [= <-]; by subst|].
  intros (r & Hr & ->)%fmap_Some. rewrite (IH r Hr). apply perm_swap.
Qed.

Lemma remove_first_None w q : remove_first w q = None -> w ∉ q.
Proof.
  induction q as [|x q IH]; simpl; [set_solver|].
  case_bool_decide as Hx; [done|]. intros Hn%fmap_None. set_solver.
Qed.

Definition removed_state (w : waiter) (queue : list waiter) (s : inbound) : inbound :=
  set_queue s (requeue (wt_source w) queue (inbound_waiters s))
    (if nonempty queue then inbound_rr_sources s
     else filter (fun x => x <> wt_source w) (inbound_rr_sources s))
    (Z.max 0 (inbound_waiting_total s - 1)).

Lemma remove_inbound_waiter_eq w s :
  (exists queue queue', od_get (wt_source w) (inbound_waiters s) = Some queue /\
     queue ≡ₚ w :: queue' /\ remove_inbound_waiter w s = (true, removed_state w queue' s)) \/
  (remove_inbound_waiter w s = (false, s) /\
   forall q, od_get (wt_source w) (inbound_waiters s) = Some q -> w ∉ q).
Proof.
  unfold remove_inbound_waiter.
  destruct (od_get (wt_source w) (inbound_waiters s)) as [queue|]; [|by right].
  destruct (remove_first w queue) as [queue'|] eqn:Hr.
  - left. exists queue, queue'. split_and!; [done|by apply remove_first_Some|].
    unfold removed_state, requeue. by destruct (nonempty queue').
  - right. split; [done|]. intros q [= <-]. by apply remove_first_None.
Qed.

Lemma filter_rotation (source : string) rr keys :
  NoDup keys -> rr ≡ₚ source :: keys -> source ∉ keys -> filter (fun x => x <> source) rr ≡ₚ keys.
Proof.
  intros Hnd Hp Hni. rewrite Hp, filter_cons, decide_False by tauto.
  rewrite filter_id_on; [done|]. set_solver.
Qed.

Lemma queue_ok_remove s w queue queue' :
  queue_ok s -> od_get (wt_source w) (inbound_waiters s) = Some queue -> queue ≡ₚ w :: queue' ->
  queue_ok (removed_state w queue' s) /\
  queued_waiters s ≡ₚ w :: queued_waiters (removed_state w queue' s).
Proof.
  intros [Hwf Hne Hsrc Hrr Htot] Hg Hperm.
  destruct (requeue_split _ _ queue' _ Hg) as (rest & H1 & H2 & H3).
  assert (queued_waiters s ≡ₚ w :: all_waiters (requeue (wt_source w) queue' (inbound_waiters s))) as Hp.
  { unfold queued_waiters. fold (all_waiters (inbound_waiters s)). by rewrite H1, H2, Hperm. }
  split; [|done]. split; simpl.
  - by apply requeue_wf.
  - intros k q [(-> & -> & ?)|[_ ?]]%requeue_In; [done|by eapply Hne|done].
  - intros k q x [(-> & -> & _)|[_ ?]]%requeue_In Hx; [|by eapply Hsrc|done].
    eapply Hsrc; [by apply od_get_In|]. rewrite Hperm. set_solver.
  - assert (wt_source w ∈ od_keys (inbound_waiters s)) as Hin by (rewrite H3; set_solver).
    rewrite requeue_keys by done. case_match; [done|].
    rewrite H3 in Hrr. apply (od_del_wf (wt_source w)) in Hwf as Hwf'.
    apply filter_rotation; [done|done|]. unfold od_wf in Hwf. rewrite H3 in Hwf.
    by apply NoDup_cons in Hwf as [? _].
  - unfold queued_waiters; simpl. fold (all_waiters (requeue (wt_source w) queue' (inbound_waiters s))).
    rewrite Htot, Hp. simpl. lia.
Qed.

Lemma remove_ok s p h w :
  core_ok s p h -> w ∈ p ->
  let '(b, s') := remove_inbound_waiter w s in
  core_ok s' p h /\ w ∉ queued_waiters s' /\ granted_waiters s' = granted_waiters s /\
  resolved s' = resolved s /\ (conserving s -> conserving s').
Proof.
  intros Hok Hin. pose proof Hok as [Hq Hl Ht Hs Hbw Hb Hp Hqi Hqd Hr].
  destruct (remove_inbound_waiter_eq w s) as [(queue & queue' & Hg & Hperm & ->)|[-> Hno]].
  - destruct (queue_ok_remove s w queue queue' Hq Hg Hperm) as [Hq' Hp'].
    rewrite Hp' in Hqi. simpl in Hqi. apply NoDup_cons in Hqi as [Hwid Hqi].
    assert (Hsub : forall x, x ∈ queued_waiters (removed_state w queue' s) -> x ∈ queued_waiters s)
      by (intros x Hx; rewrite Hp'; set_solver).
    split_and!; [|intros Hx; by apply Hwid, list_elem_of_fmap_2|done|done|].
    + pose proof (q_total s Hq).
      split; simpl; try done; try lia. intros x Hx. apply Hqd. by apply Hsub.
    + unfold conserving. simpl. rewrite (q_total s Hq). intros [?|?]; [left; lia|by right].
  - split_and!; try done. intros (q & Hg & Hw)%elem_of_queued; [by eapply Hno|done].
Qed.

(** ** Releasing a slot *)

Lemma release_slot_by G p h source by_source :
  (forall src, default 0 (od_get src by_source) =
     slots G p h src + (if decide (source = src) then 1 else 0)) ->
  forall src, default 0 (od_get src
    (od_set source (Z.max 0 (default 0 (od_get source by_source) - 1)) by_source)) =
    slots G p h src.
Proof.
  intros Hby src. destruct (decide (src = source)) as [->|Hne].
  - rewrite od_get_set_eq, Hby, decide_True by done. simpl.
    pose proof (slots_nonneg G p h source). lia.
  - rewrite od_get_set_ne, Hby, decide_False by congruence. lia.
Qed.

Lemma od_sum_ge d k : (forall j, 0 <= default 0 (od_get j d)) -> od_wf d -> default 0 (od_get k d) <= od_sum d.
Proof.
  intros Hnn Hwf. assert (forall l : list (string * Z), (forall kv, kv ∈ l -> 0 <= kv.2) -> 0 <= od_sum l) as Hsum.
  { induction l as [|[j v] l IH]; intros Hl; [done|]. unfold od_sum, od_values in *. cbn.
    pose proof (Hl (j, v) ltac:(set_solver)). simpl in *. specialize (IH ltac:(set_solver)). lia. }
  assert (Hall : forall kv, kv ∈ d -> 0 <= kv.2).
  { intros [j v] Hin. pose proof (Hnn j) as Hj. rewrite (od_In_get j v d Hwf Hin) in Hj. done. }
  destruct (od_get k d) as [v|] eqn:Hg; simpl; [|by apply Hsum].
  destruct (od_split k v d Hg) as (l1 & l2 & -> & _). rewrite od_sum_app. cbn. fold (od_values l2).
  pose proof (Hsum l1 ltac:(set_solver)). pose proof (Hsum l2 ltac:(set_solver)).
  unfold od_sum in *. lia.
Qed.

(** A slot owned once more than [p] and [h] account for is given back. *)
Lemma release_slot_ok s G p h source :
  (forall src, default 0 (od_get src (inbound_current_by_source s)) =
     slots G p h src + (if decide (source = src) then 1 else 0)) ->
  queue_ok s -> inbound_current s <= inbound_limit s ->
  inbound_waiting_total s <= inbound_limit s ->
  inbound_current s = od_sum (inbound_current_by_source s) ->
  od_wf (inbound_current_by_source s) ->
  NoDup (wt_id <$> p) -> NoDup (wt_id <$> queued_waiters s) ->
  (forall w, w ∈ queued_waiters s -> w ∈ p /\ wt_id w ∉ G /\ od_get (wt_id w) (resolved s) = None) ->
  (forall w r, w ∈ p -> od_get (wt_id w) (resolved s) = Some r -> (granted r = true <-> wt_id w ∈ G)) ->
  granted_waiters s = G -> core_ok (release_inbound_slot source s) p h.
Proof.
  intros Hby Hq Hl Ht Hs Hbw Hp Hqi Hqd Hr <-.
  assert (0 < inbound_current s).
  { pose proof (od_sum_ge (inbound_current_by_source s) source) as Hge.
    rewrite Hby, decide_True in Hge by done.
    pose proof (slots_nonneg (granted_waiters s) p h source). rewrite Hs.
    enough (slots (granted_waiters s) p h source + 1 <= od_sum (inbound_current_by_source s)) by lia.
    apply Hge; [|done]. intros j. rewrite Hby.
    pose proof (slots_nonneg (granted_waiters s) p h j). case_decide; lia. }
  split; simpl; try done; try lia; auto with medre.
  - by apply queue_ok_set_slots.
  - rewrite od_sum_set, Hby, decide_True by done.
    pose proof (slots_nonneg (granted_waiters s) p h source). lia.
  - by apply release_slot_by.
Qed.


(** ** Enqueueing *)

Definition enqueued_state (source : string) (i : Z) (s : inbound) : inbound :=
  let queue := default [] (od_get source (inbound_waiters s)) in
  set_queue s (od_set source (queue ++ [{| wt_source := source; wt_id := i |}]) (inbound_waiters s))
    (if nonempty queue then inbound_rr_sources s else inbound_rr_sources s ++ [source])
    (inbound_waiting_total s + 1).

Lemma enqueue_waiters source i s :
  queue_ok s ->
  queued_waiters (enqueued_state source i s) ≡ₚ {| wt_source := source; wt_id := i |} :: queued_waiters s.
Proof.
  intros Hq. unfold queued_waiters. simpl. unfold enqueued_state.
  destruct (od_get source (inbound_waiters s)) as [queue|] eqn:Hg; simpl.
  - destruct (od_split source queue _ Hg) as (l1 & l2 & Hd & _ & Hs & _). rewrite Hs, Hd.
    fold (all_waiters (l1 ++ (source, queue ++ [{| wt_source := source; wt_id := i |}]) :: l2)).
    fold (all_waiters (l1 ++ (source, queue) :: l2)). rewrite !all_waiters_split.
    rewrite <- (assoc (++)). symmetry. apply (Permutation_middle queue).
  - rewrite od_set_new by (by apply od_get_None). unfold od_values. rewrite fmap_app, concat_app. simpl.
    rewrite Permutation_app_comm. done.
Qed.

Lemma enqueue_ok source i s :
  queue_ok s -> queue_ok (enqueued_state source i s).
Proof.
  intros Hq. pose proof (enqueue_waiters source i s Hq) as Hperm. destruct Hq as [Hwf Hne Hsrc Hrr Htot].
  assert (Hel : forall k q, (k, q) ∈ inbound_waiters (enqueued_state source i s) ->
    (k = source /\ q = default [] (od_get source (inbound_waiters s)) ++ [{| wt_source := source; wt_id := i |}])
    \/ (k, q) ∈ inbound_waiters s) by (intros k q; apply od_set_In).
  split.
  - simpl. auto with medre.
  - intros k q [[-> ->]|Hin]%Hel; [by destruct (default [] _)|by eapply Hne].
  - intros k q w [[-> ->]|Hin]%Hel Hw; [|by eapply Hsrc].
    apply elem_of_app in Hw as [Hw|Hw]; [|by apply list_elem_of_singleton in Hw as ->].
    destruct (od_get source (inbound_waiters s)) as [q0|] eqn:Hg; [|set_solver].
    eapply Hsrc; [by apply od_get_In|done].
  - simpl. rewrite od_keys_set.
    destruct (od_get source (inbound_waiters s)) as [q0|] eqn:Hg; simpl.
    + apply od_get_In in Hg as Hin. apply Hne in Hin as Hn.
      apply nonempty_true in Hn as ->. rewrite decide_True; [done|].
      apply list_elem_of_fmap. by exists (source, q0).
    + rewrite decide_False by (by apply od_get_None). by rewrite Hrr.
  - rewrite Hperm. simpl. lia.
Qed.

Lemma enqueue_core source i s p h :
  core_ok s p h -> inbound_waiting_total s < inbound_limit s ->
  i ∉ (wt_id <$> p) -> i ∉ granted_waiters s -> od_get i (resolved s) = None ->
  core_ok (enqueued_state source i s) ({| wt_source := source; wt_id := i |} :: p) h.
Proof.
  intros [Hq Hl Ht Hs Hbw Hb Hp Hqi Hqd Hr] Hlt Hfp Hfg Hfr.
  pose proof (enqueue_waiters source i s Hq) as Hperm.
  split; simpl; try done; try lia.
  - by apply enqueue_ok.
  - intros src. rewrite Hb. change (?x :: p) with ([] ++ x :: p). rewrite slots_drop, decide_False.
    + simpl. lia.
    + intros [_ ?]. done.
  - by apply NoDup_cons.
  - rewrite Hperm. simpl. apply NoDup_cons. split; [|done].
    intros (w & Heq & Hw)%list_elem_of_fmap. apply Hfp. destruct (Hqd w Hw) as [? _].
    rewrite Heq. by apply list_elem_of_fmap_2.
  - intros w Hw. rewrite Hperm in Hw. apply elem_of_cons in Hw as [->|Hw]; [set_solver|].
    destruct (Hqd w Hw) as (? & ? & ?). split_and!; [set_solver|done..].
  - intros w r [->|Hw]%elem_of_cons; [simpl; congruence|]. by apply Hr.
Qed.

(** ** Every step preserves the invariant *)

Lemma acquire_inbound_ok source_id i y out s' :
  sys_ok y -> fresh i y -> acquire_inbound source_id i (sys y) = (out, s') ->
  let source := normalize_inbound_source source_id in
  let w := {| wt_source := source; wt_id := i |} in
  match out with
  | Decided r => core_ok s' (pending y) (keep_if_granted r source (held y))
  | Waiting => core_ok s' (w :: pending y) (held y)
  end /\ conserving s'.
Proof.
  intros [Hok Hcons] (Hfp & Hfg & Hfr) H source w. revert H. unfold acquire_inbound. cbv zeta.
  fold source. set (s := ensure_inbound_source source (sys y)).
  assert (core_ok s (pending y) (held y)) as Hs by (by apply ensure_ok).
  assert (conserving s) as Hcs by exact Hcons.
  destruct (inbound_accepting s) eqn:Hacc; simpl.
  2: { intros [= <- <-]. split; [by apply rejection_ok|done]. }
  case_match eqn:Hfast.
  { intros [= <- <-]. breflect. rewrite Z.ltb_lt, Z.eqb_eq in Hfast. destruct Hfast as [Hlt Hz].
    split; [by apply fast_grant_ok|]. by left. }
  case_match eqn:Hfull.
  { intros [= <- <-]. split; [by apply rejection_ok|done]. }
  rewrite orb_false_iff, !Z.leb_gt in Hfull. destruct Hfull as [Htot _].
  pose proof (enqueue_core source i s (pending y) (held y) Hs Htot Hfp Hfg Hfr) as Henq.
  apply grant_ok in Henq as [Hgr Hcons']. fold w in Hgr.
  change (set_queue s _ _ _) with (enqueued_state source i s).
  set (s2 := grant_inbound_waiters (enqueued_state source i s)) in *.
  destruct (elem i (granted_waiters s2)) eqn:Hg; intros [= <- <-]; (split; [|exact Hcons']); [|exact Hgr].
  apply elem_true in Hg. by apply (settle_granted s2 [] w (pending y) (held y)).
Qed.

Lemma acquire_timeout_ok y p1 w p2 r s' :
  sys_ok y -> pending y = p1 ++ w :: p2 -> acquire_timeout w (sys y) = (r, s') ->
  core_ok s' (p1 ++ p2) (keep_if_granted r (wt_source w) (held y)) /\ conserving s'.
Proof.
  intros [Hok Hcons] Hp. rewrite Hp in Hok. unfold acquire_timeout.
  destruct (elem (wt_id w) (granted_waiters (sys y))) eqn:Hg.
  { intros [= <- <-]. apply elem_true in Hg. split; [by apply settle_granted|done]. }
  apply elem_false in Hg.
  pose proof (remove_ok (sys y) _ _ w Hok ltac:(set_solver)) as Hrm.
  destruct (remove_inbound_waiter w (sys y)) as [b s1].
  destruct Hrm as (Hok1 & Hnq & HG & HR & Hc1).
  assert (core_ok s1 (p1 ++ p2) (held y)) as Hd by (eapply drop_pending; [done|by rewrite HG|done]).
  destruct b.
  - intros [= <- <-]. split; [by apply timeout_ok|]. by apply Hc1.
  - destruct (od_get (wt_id w) (resolved s1)) as [r1|] eqn:Hres.
    + intros [= <- <-]. split; [|by apply Hc1].
      assert (granted r1 = false) as Hgf.
      { apply not_true_iff_false. rewrite (c_resolved _ _ _ Hok1 w r1); [by rewrite HG|set_solver|done]. }
      unfold keep_if_granted. by rewrite Hgf.
    + intros [= <- <-]. split; [done|by apply Hc1].
Qed.

(** A cancelled call whose waiter was granted gives the slot back. *)
Lemma cancelled_slot_ok y p1 w p2 :
  sys_ok y -> pending y = p1 ++ w :: p2 -> wt_id w ∈ granted_waiters (sys y) ->
  core_ok (release_inbound_slot (wt_source w)
    (set_slots (sys y) (inbound_current (sys y)) (inbound_current_by_source (sys y))
       (filter (fun i => i <> wt_id w) (granted_waiters (sys y))) (resolved (sys y))))
    (p1 ++ p2) (held y).
Proof.
  intros [Hok Hcons] Hp Hg. rewrite Hp in Hok.
  pose proof Hok as [Hq Hl Ht Hs Hbw Hb Hpn Hqi Hqd Hr].
  assert (Hids : forall x, x ∈ p1 ++ p2 -> wt_id x <> wt_id w).
  { intros x Hx Heq. rewrite <- Permutation_middle in Hpn. simpl in Hpn.
    apply NoDup_cons in Hpn as [Hni _]. apply Hni. rewrite <- Heq. by apply list_elem_of_fmap_2. }
  apply (release_slot_ok _ (filter (fun i => i <> wt_id w) (granted_waiters (sys y)))); simpl; try done.
  - intros src. rewrite Hb, slots_drop. f_equal.
    + unfold slots. do 2 f_equal. f_equal. apply filter_ext_on. intros x Hx.
      rewrite list_elem_of_filter. specialize (Hids x Hx). tauto.
    + repeat case_decide; tauto.
  - by apply queue_ok_set_slots.
  - by apply NoDup_ids_drop in Hpn.
  - intros x Hx. destruct (Hqd x Hx) as (Hin & Hng & ?).
    assert (x <> w) by congruence. split_and!; [set_solver| |done].
    rewrite list_elem_of_filter. tauto.
  - intros x r Hx Hrx. rewrite list_elem_of_filter, (Hr x r); [|set_solver|done].
    specialize (Hids x Hx). tauto.
Qed.

Lemma acquire_cancelled_ok y p1 w p2 :
  sys_ok y -> pending y = p1 ++ w :: p2 ->
  core_ok (acquire_cancelled w (sys y)) (p1 ++ p2) (held y) /\ conserving (acquire_cancelled w (sys y)).
Proof.
  intros Hy Hp. unfold acquire_cancelled.
  destruct (elem (wt_id w) (granted_waiters (sys y))) eqn:Hg.
  { apply elem_true in Hg. apply grant_ok. by apply cancelled_slot_ok. }
  destruct Hy as [Hok Hcons]. rewrite Hp in Hok. apply elem_false in Hg.
  pose proof (remove_ok (sys y) _ _ w Hok ltac:(set_solver)) as Hrm.
  destruct (remove_inbound_waiter w (sys y)) as [b s1]. simpl.
  destruct Hrm as (Hok1 & Hnq & HG & HR & Hc1).
  split; [eapply drop_pending; [done|by rewrite HG|done]|by apply Hc1].
Qed.

(** An owner gives its slot back. *)
Lemma released_slot_ok y h1 h2 source_id :
  sys_ok y -> held y = h1 ++ normalize_inbound_source source_id :: h2 ->
  let source := normalize_inbound_source source_id in
  let s := ensure_inbound_source source (sys y) in
  release_inbound source_id (sys y) = grant_inbound_waiters (release_inbound_slot source s) /\
  core_ok (release_inbound_slot source s) (pending y) (h1 ++ h2) /\
  inbound_current (release_inbound_slot source s) = inbound_current (sys y) - 1.
Proof.
  intros [Hok Hcons] Hh source. rewrite Hh in Hok. unfold release_inbound. cbv zeta. fold source.
  apply (ensure_ok source) in Hok as [Hq Hl Ht Hs Hbw Hb Hpn Hqi Hqd Hr].
  pose proof (slots_nonneg (granted_waiters (sys y)) (pending y) (h1 ++ h2) source).
  assert (Hby : forall src, default 0 (od_get src (inbound_current_by_source
      (ensure_inbound_source source (sys y)))) =
    slots (granted_waiters (sys y)) (pending y) (h1 ++ h2) src + (if decide (source = src) then 1 else 0))
    by (intros src; by rewrite Hb, slots_hold).
  assert (Hpos : 0 < default 0 (od_get source (inbound_current_by_source (ensure_inbound_source source (sys y))))).
  { rewrite Hby, decide_True by done. lia. }
  split; [|split].
  - case_match; [lia|done].
  - by apply (release_slot_ok _ (granted_waiters (sys y))).
  - pose proof (od_sum_ge (inbound_current_by_source (ensure_inbound_source source (sys y))) source) as Hge.
    enough (0 < inbound_current (sys y)) by (cbn [release_inbound_slot set_slots inbound_current
      ensure_inbound_source]; lia).
    eapply Z.lt_le_trans; [exact Hpos|].
    change (inbound_current (sys y)) with (inbound_current (ensure_inbound_source source (sys y))).
    rewrite Hs. apply Hge; [|done]. intros j. rewrite Hb. apply slots_nonneg.
Qed.

Lemma release_inbound_ok y h1 h2 source_id :
  sys_ok y -> held y = h1 ++ normalize_inbound_source source_id :: h2 ->
  core_ok (release_inbound source_id (sys y)) (pending y) (h1 ++ h2) /\
  conserving (release_inbound source_id (sys y)).
Proof.
  intros Hy Hh. destruct (released_slot_ok y h1 h2 source_id Hy Hh) as (-> & Hok & _).
  by apply grant_ok.
Qed.

Lemma ensure_all_ok sources s p h :
  core_ok s p h -> core_ok (foldl (fun s source => ensure_inbound_source source s) s sources) p h.
Proof. revert s. induction sources as [|x l IH]; intros s Hs; simpl; [done|]. by apply IH, ensure_ok. Qed.

Lemma ensure_all_frame sources s :
  let s' := foldl (fun s source => ensure_inbound_source source s) s sources in
  inbound_waiters s' = inbound_waiters s /\ inbound_sources s' = inbound_sources s /\
  inbound_limit s' = inbound_limit s /\ inbound_waiting_total s' = inbound_waiting_total s /\
  inbound_current s' = inbound_current s /\ inbound_rr_sources s' = inbound_rr_sources s.
Proof. revert s. induction sources as [|x l IH]; intros s; [done|]. exact (IH (ensure_inbound_source x s)). Qed.

Lemma configure_ok ids y :
  sys_ok y ->
  core_ok (configure_inbound_sources ids (sys y)).2 (pending y) (held y) /\
  conserving (configure_inbound_sources ids (sys y)).2.
Proof.
  intros [Hok Hcons]. unfold configure_inbound_sources. repeat case_match; simpl; try done.
  split.
  - apply ensure_all_ok. destruct Hok as [[]]. by split.
  - unfold conserving in *. destruct (ensure_all_frame (normalize_sources ids)
      (set_sources (sys y) (normalize_sources ids)))
      as (_ & _ & Hl & Ht & Hc & _). cbv zeta in *. rewrite Hl, Ht, Hc. done.
Qed.

(** A suspended call whose future has a result returns it. *)
Lemma wake_ok y p1 w p2 r :
  sys_ok y -> pending y = p1 ++ w :: p2 -> od_get (wt_id w) (resolved (sys y)) = Some r ->
  core_ok (sys y) (p1 ++ p2) (keep_if_granted r (wt_source w) (held y)).
Proof.
  intros [Hok _] Hp Hr. rewrite Hp in Hok.
  pose proof (c_resolved _ _ _ Hok w r ltac:(set_solver) Hr) as Hg.
  unfold keep_if_granted. destruct (granted r).
  - apply settle_granted; [done|]. by rewrite <- Hg.
  - eapply drop_pending; [done|by rewrite <- Hg|]. intros Hq. apply (c_queued _ _ _ Hok) in Hq.
    destruct Hq as (_ & _ & ?). congruence.
Qed.

Lemma sys_step_ok y y' : sys_step y y' -> sys_ok y -> sys_ok y'.
Proof.
  intros Hstep Hok. destruct Hstep; unfold sys_ok; simpl.
  - by eapply (acquire_inbound_ok source_id i y (Decided r)).
  - by eapply (acquire_inbound_ok source_id i y Waiting).
  - split; [by eapply wake_ok|apply Hok].
  - by eapply acquire_timeout_ok.
  - by eapply acquire_cancelled_ok.
  - by eapply release_inbound_ok.
  - by apply configure_ok.
  - destruct Hok as [Hc ?]. split; [|done]. destruct Hc as [[]]. by split.
Qed.

Lemma system_init_ok limit : 0 <= limit -> sys_ok (system_init limit).
Proof.
  intros Hl. split; [|by left]. split; simpl; try done; try set_solver.
  - split; simpl; try done; try set_solver. constructor.
  - constructor.
  - constructor.
  - constructor.
Qed.

Lemma reachable_sys_ok limit y : 0 <= limit -> rtc sys_step (system_init limit) y -> sys_ok y.
Proof.
  intros Hl. apply (rtc_ind_r sys_ok); [by apply system_init_ok|].
  intros a b _ Hs Ha. by eapply sys_step_ok.
Qed.

(** ** Fairness *)

(** How many sources are served before [x]. *)
Fixpoint position (x : string) (l : list string) : nat :=
  match l with
  | [] => 0%nat
  | y :: l' => if bool_decide (x = y) then 0%nat else S (position x l')
  end.

Lemma position_app x l l' : x ∈ l -> position x (l ++ l') = position x l.
Proof.
  induction l as [|y l IH]; [set_solver|]. intros Hin. simpl. case_bool_decide; [done|].
  f_equal. apply IH. set_solver.
Qed.

Lemma position_filter x y l :
  x <> y -> (position x (filter (fun z => z <> y) l) <= position x l)%nat.
Proof.
  intros Hne. induction l as [|z l IH]; [done|]. rewrite filter_cons. simpl.
  destruct (decide (z <> y)); simpl; repeat case_bool_decide; try lia; subst; tauto.
Qed.

Lemma position_rotate x y l l' :
  x <> y -> x ∈ l -> (position x (l ++ l') < position x (y :: l))%nat.
Proof. intros Hne Hin. rewrite position_app by done. simpl. case_bool_decide; [done|lia]. Qed.

(** What serving and abandoning waiters may do to the queues: no queue grows,
    and the waiter at the head of its queue either leaves or stays at the
    head with no more sources in front of its own. *)
Record dequeues (s s' : inbound) : Prop := {
  d_sources : inbound_sources s' = inbound_sources s;
  d_limit : inbound_limit s' = inbound_limit s;
  d_shrink : forall k q', od_get k (inbound_waiters s') = Some q' ->
    exists q, od_get k (inbound_waiters s) = Some q /\ (length q' <= length q)%nat;
  d_subset : forall w, w ∈ queued_waiters s' -> w ∈ queued_waiters s;
  d_head : forall k w q, od_get k (inbound_waiters s) = Some (w :: q) ->
    w ∈ queued_waiters s' -> exists q', od_get k (inbound_waiters s') = Some (w :: q') /\
      (position k (inbound_rr_sources s') <= position k (inbound_rr_sources s))%nat
}.

#[local] Instance dequeues_refl : Reflexive dequeues.
Proof. intros s. split; try done; naive_solver. Qed.

#[local] Instance dequeues_trans : Transitive dequeues.
Proof.
  intros a b c [A1 A2 A3 A4 A5] [B1 B2 B3 B4 B5]. split; [congruence..| | |].
  - intros k q Hq. destruct (B3 k q Hq) as (q1 & Hq1 & ?). destruct (A3 k q1 Hq1) as (q2 & ? & ?).
    exists q2. split; [done|lia].
  - naive_solver.
  - intros k w q Hq Hw. destruct (A5 k w q Hq (B4 w Hw)) as (q1 & Hq1 & ?).
    destruct (B5 k w q1 Hq1 Hw) as (q2 & ? & ?). exists q2. split; [done|lia].
Qed.

(** Operations that touch neither queue nor rotation. *)
Lemma dequeues_frame s s' :
  inbound_sources s' = inbound_sources s -> inbound_limit s' = inbound_limit s ->
  inbound_waiters s' = inbound_waiters s -> inbound_rr_sources s' = inbound_rr_sources s ->
  dequeues s s'.
Proof.
  intros Hs Hl Hw Hr. split; [done|done| | |]; unfold queued_waiters; rewrite ?Hw, ?Hr; naive_solver.
Qed.

Lemma requeue_get source queue d k :
  od_wf d -> od_get k (requeue source queue d) =
    if decide (k = source) then (if nonempty queue then Some queue else None) else od_get k d.
Proof.
  intros Hwf. unfold requeue. destruct (decide (k = source)) as [->|Hne].
  - destruct (nonempty queue); [by rewrite od_get_set_eq|by rewrite od_get_del_eq].
  - destruct (nonempty queue); [by rewrite od_get_set_ne|by rewrite od_get_del_ne].
Qed.

(** Taking one waiter out of the queue of [source]. *)
Lemma dequeues_requeue s s' source w0 queue queue' :
  queue_ok s -> od_get source (inbound_waiters s) = Some queue -> queue ≡ₚ w0 :: queue' ->
  NoDup (wt_id <$> queued_waiters s) ->
  queued_waiters s ≡ₚ w0 :: queued_waiters s' ->
  inbound_sources s' = inbound_sources s -> inbound_limit s' = inbound_limit s ->
  inbound_waiters s' = requeue source queue' (inbound_waiters s) ->
  (forall w q, queue = w :: q -> w = w0 \/ exists q', queue' = w :: q') ->
  (forall k q, od_get k (inbound_waiters s) = Some q -> k <> source \/ head queue <> Some w0 ->
     (position k (inbound_rr_sources s') <= position k (inbound_rr_sources s))%nat) ->
  dequeues s s'.
Proof.
  intros Hq Hg Hperm Hnd Hqw Hs Hl Hw Hhead Hpos.
  rewrite Hqw in Hnd. simpl in Hnd. apply NoDup_cons in Hnd as [Hni _].
  split; [done|done| | |]; rewrite ?Hw.
  - intros k q'. rewrite requeue_get by apply Hq. case_decide; [subst|by eauto].
    case_match; intros [= <-]. exists queue. split; [done|]. rewrite Hperm. simpl. lia.
  - intros w Hin. rewrite Hqw. by right.
  - intros k w q Hk Hin. assert (w <> w0) as Hne.
    { intros ->. apply Hni. by apply list_elem_of_fmap_2. }
    rewrite requeue_get by apply Hq. case_decide as Hks; [subst k|].
    + assert (queue = w :: q) as -> by congruence.
      destruct (Hhead w q eq_refl) as [?|(q' & ->)]; [done|]. exists q'. split; [done|].
      eapply Hpos; [done|]. right. simpl. congruence.
    + exists q. split; [done|]. eapply Hpos; [done|by left].
Qed.

Lemma grant_iteration_dequeues s p h :
  core_ok s p h -> can_grant s = true -> dequeues s (grant_iteration s).
Proof.
  intros Hok Hc. pose proof (c_queue _ _ _ Hok) as Hq.
  destruct (grant_iteration_eq s Hq Hc) as (source & rr & w & queue & Hrr & Hg & Hsrc & ->).
  destruct (queue_ok_pop s source rr w queue Hq Hrr Hg) as [_ Hperm].
  transitivity (pop_state s source rr queue); [|destruct (inbound_accepting s); by apply dequeues_frame].
  apply (dequeues_requeue s _ source w (w :: queue) queue); try done; [apply Hok|intros ?? [= -> ->]; by left|].
  intros k q Hk [Hne|Hd]; [|done]. rewrite Hrr.
  change (inbound_rr_sources (pop_state s source rr queue))
    with (if nonempty queue then rr ++ [source] else rr).
  assert (k ∈ rr) as Hin.
  { apply od_get_In in Hk. assert (k ∈ od_keys (inbound_waiters s)) as Hkk by (apply list_elem_of_fmap; by exists (k, q)).
    rewrite <- (q_rotation s Hq), Hrr in Hkk. set_solver. }
  pose proof (position_rotate k source rr [source] Hne Hin) as H1.
  pose proof (position_rotate k source rr [] Hne Hin) as H2. rewrite app_nil_r in H2.
  destruct (nonempty queue); lia.
Qed.

Lemma grant_dequeues s p h : core_ok s p h -> dequeues s (grant_inbound_waiters s).
Proof.
  unfold grant_inbound_waiters. generalize (grant_fuel s) as fuel. intros fuel. revert s.
  induction fuel as [|fuel IH]; intros s Hok; simpl; [done|].
  destruct (can_grant s) eqn:Hc; [|done].
  transitivity (grant_iteration s); [by eapply grant_iteration_dequeues|].
  apply IH. by apply grant_iteration_ok.
Qed.

Lemma remove_first_head w x q q' :
  remove_first w (x :: q) = Some q' -> x = w \/ exists q'', q' = x :: q''.
Proof.
  simpl. case_bool_decide as Hx; [by left|]. intros (r & _ & ->)%fmap_Some. right. by exists r.
Qed.

Lemma remove_dequeues w s p h :
  core_ok s p h -> dequeues s (remove_inbound_waiter w s).2.
Proof.
  intros Hok. pose proof (c_queue _ _ _ Hok) as Hq. unfold remove_inbound_waiter.
  destruct (od_get (wt_source w) (inbound_waiters s)) as [queue|] eqn:Hg; [|done].
  destruct (remove_first w queue) as [queue'|] eqn:Hr; [|done].
  apply remove_first_Some in Hr as Hp.
  assert (dequeues s (removed_state w queue' s)) as Hd.
  { apply (dequeues_requeue s _ (wt_source w) w queue queue'); try done; [apply Hok|..].
    - by apply (queue_ok_remove s w queue queue').
    - intros x q ->. by eapply remove_first_head.
    - intros k q Hk Hor. simpl. destruct (nonempty queue') eqn:Hn; [done|].
      destruct (decide (k = wt_source w)) as [->|Hne]; [|by apply position_filter].
      destruct Hor as [?|Hh]; [done|]. apply nonempty_false in Hn as ->.
      exfalso. apply Hh. apply Permutation_singleton_r in Hp as ->. done. }
  unfold removed_state, requeue in Hd. by destruct (nonempty queue').
Qed.

Lemma timeout_dequeues w s p h r s' :
  core_ok s p h -> acquire_timeout w s = (r, s') -> dequeues s s'.
Proof.
  intros Hok. pose proof (remove_dequeues w s p h Hok) as Hd. unfold acquire_timeout.
  case_match; [intros [= <- <-]; done|].
  destruct (remove_inbound_waiter w s) as [[] s1]; simpl in Hd.
  - intros [= <- <-]. transitivity s1; [done|by apply dequeues_frame].
  - case_match; intros [= <- <-]; done.
Qed.

Lemma cancelled_dequeues y p1 w p2 :
  sys_ok y -> pending y = p1 ++ w :: p2 -> dequeues (sys y) (acquire_cancelled w (sys y)).
Proof.
  intros Hy Hp. unfold acquire_cancelled. case_match eqn:Hg.
  - apply elem_true in Hg. eapply transitivity; [|eapply grant_dequeues, cancelled_slot_ok; done].
    by apply dequeues_frame.
  - eapply remove_dequeues, Hy.
Qed.

Lemma release_dequeues y h1 h2 source_id :
  sys_ok y -> held y = h1 ++ normalize_inbound_source source_id :: h2 ->
  dequeues (sys y) (release_inbound source_id (sys y)).
Proof.
  intros Hy Hh. destruct (released_slot_ok y h1 h2 source_id Hy Hh) as (-> & Hok & _).
  eapply transitivity; [|by eapply grant_dequeues]. by apply dequeues_frame.
Qed.

(** ** Arrivals

    In a conserving state no arrival finds a free slot behind a queue: either
    it is served at once, or refused, or it joins the end of its queue. *)
Lemma grant_idle s : can_grant s = false -> grant_inbound_waiters s = s.
Proof.
  intros Hc. unfold grant_inbound_waiters. destruct (grant_fuel s); simpl; [done|]. by rewrite Hc.
Qed.

Lemma acquire_inbound_cases source_id i s :
  conserving s ->
  let source := normalize_inbound_source source_id in
  let s0 := ensure_inbound_source source s in
  let waiting := Z.of_nat (length (default [] (od_get source (inbound_waiters s)))) in
  acquire_inbound source_id i s =
    if negb (inbound_accepting s)
    then (Decided (refused "closed"), record_inbound_rejection source s0)
    else if (inbound_current s <? inbound_limit s) && (inbound_waiting_total s =? 0)
    then (Decided admitted, record_inbound_grant source s0)
    else if (inbound_limit s <=? inbound_waiting_total s) ||
            (inbound_source_wait_limit s0 source <=? waiting)
    then (Decided (refused "queue_full"), record_inbound_rejection source s0)
    else if elem i (granted_waiters s) then (Decided admitted, enqueued_state source i s0)
    else (Waiting, enqueued_state source i s0).
Proof.
  intros Hcons source s0 waiting. unfold acquire_inbound. cbv zeta. fold source s0.
  change (inbound_accepting s0) with (inbound_accepting s).
  change (inbound_current s0) with (inbound_current s).
  change (inbound_limit s0) with (inbound_limit s).
  change (inbound_waiting_total s0) with (inbound_waiting_total s).
  case_match; [done|]. case_match eqn:Hfast; [done|].
  change (inbound_waiters s0) with (inbound_waiters s). fold waiting.
  case_match; [done|]. change (inbound_rr_sources s0) with (inbound_rr_sources s).
  fold (enqueued_state source i s0).
  rewrite grant_idle; [done|]. unfold can_grant. simpl.
  rewrite andb_false_iff, Z.ltb_ge, Z.eqb_neq in Hfast.
  destruct Hcons as [Hz|Hge]; rewrite !andb_false_iff, !Z.ltb_ge; left; left; [lia|done].
Qed.

(** Every step serves or abandons waiters, or enqueues one arrival under the
    bounds, or fixes the sources while nobody waits. *)
Lemma sys_step_shape y y' :
  sys_ok y -> sys_step y y' ->
  dequeues (sys y) (sys y') \/
  (exists source i, let s0 := ensure_inbound_source source (sys y) in
     sys y' = enqueued_state source i s0 /\
     Z.of_nat (length (default [] (od_get source (inbound_waiters (sys y))))) <
       inbound_source_wait_limit s0 source) \/
  (inbound_waiting_total (sys y) = 0 /\ inbound_waiters (sys y') = inbound_waiters (sys y)).
Proof.
  intros Hy Hstep.
  assert (Harr : forall source_id i out s', fresh i y -> acquire_inbound source_id i (sys y) = (out, s') ->
    dequeues (sys y) s' \/ (exists source i, let s0 := ensure_inbound_source source (sys y) in
     s' = enqueued_state source i s0 /\
     Z.of_nat (length (default [] (od_get source (inbound_waiters (sys y))))) <
       inbound_source_wait_limit s0 source)).
  { intros source_id i out s' (_ & Hfg & _). rewrite acquire_inbound_cases by apply Hy.
    apply elem_false in Hfg. rewrite Hfg.
    case_match; [intros [= <- <-]; left; by apply dequeues_frame|].
    case_match; [intros [= <- <-]; left; by apply dequeues_frame|].
    case_match eqn:Hfull; [intros [= <- <-]; left; by apply dequeues_frame|].
    rewrite orb_false_iff, !Z.leb_gt in Hfull.
    intros [= <- <-]. right. exists (normalize_inbound_source source_id), i. cbv zeta. split; [done|apply Hfull]. }
  destruct Hstep; simpl.
  - edestruct Harr; eauto.
  - edestruct Harr; eauto.
  - by left.
  - left. eapply timeout_dequeues; [apply Hy|done].
  - left. by eapply cancelled_dequeues.
  - left. by eapply release_dequeues.
  - unfold configure_inbound_sources. repeat case_match; simpl; try (by left).
    right; right. breflect. split; [lia|]. apply (ensure_all_frame _ (set_sources (sys y) _)).
  - left. by apply dequeues_frame.
Qed.

(** Every source keeps to its share of the wait queue once sources are fixed. *)
Definition share_ok (s : inbound) : Prop :=
  inbound_sources s <> [] -> forall k q, od_get k (inbound_waiters s) = Some q ->
  Z.of_nat (length q) <= inbound_source_wait_limit s k.

Lemma wait_limit_configured s s' k :
  inbound_sources s <> [] -> inbound_sources s' = inbound_sources s ->
  inbound_limit s' = inbound_limit s ->
  inbound_source_wait_limit s' k = inbound_source_wait_limit s k.
Proof.
  intros Hne Hs Hl. unfold inbound_source_wait_limit. rewrite Hs, Hl. cbv zeta.
  destruct (inbound_sources s) as [|x l]; [done|]. by rewrite (proj2 (Z.eqb_neq _ _)) by (simpl; lia).
Qed.

Lemma no_waiters s : queue_ok s -> inbound_waiting_total s = 0 -> inbound_waiters s = [].
Proof.
  intros Hq Hz. rewrite (q_total s Hq) in Hz. unfold queued_waiters, od_values in Hz.
  pose proof (q_nonempty s Hq) as Hne. revert Hz Hne.
  destruct (inbound_waiters s) as [|[k [|w q]] l]; intros Hz Hne; [done| |simpl in Hz; lia].
  by destruct (Hne k []); [set_solver|].
Qed.

Lemma share_step y y' : sys_ok y -> sys_step y y' -> share_ok (sys y) -> share_ok (sys y').
Proof.
  intros Hy Hstep Hs. destruct (sys_step_shape y y' Hy Hstep) as [Hd|[(source & i & -> & Hlt)|[Hz Hw]]].
  - intros Hne k q Hk. destruct Hd as [Hsrc Hl Hsh _ _]. destruct (Hsh k q Hk) as (q0 & Hq0 & ?).
    rewrite Hsrc in Hne. specialize (Hs Hne k q0 Hq0).
    rewrite (wait_limit_configured (sys y)) by done. lia.
  - intros Hne k q. simpl in Hne.
    rewrite (wait_limit_configured (sys y)) by done.
    rewrite (wait_limit_configured (sys y)) in Hlt by done.
    destruct (decide (k = source)) as [->|Hks].
    + simpl. rewrite od_get_set_eq. intros [= <-]. rewrite length_app. simpl. lia.
    + simpl. rewrite od_get_set_ne by done. by apply Hs.
  - intros _ k q. rewrite Hw, (no_waiters (sys y)); [done|apply Hy|done].
Qed.

Lemma reachable_share limit y :
  0 <= limit -> rtc sys_step (system_init limit) y -> share_ok (sys y).
Proof.
  intros Hl Hr. assert (sys_ok y /\ share_ok (sys y)) as [_ ?]; [|done].
  revert Hr. apply (rtc_ind_r (fun y => sys_ok y /\ share_ok (sys y))).
  - split; [by apply system_init_ok|]. by intros ?.
  - intros a b _ Hs [Ha Hsh]. split; [by eapply sys_step_ok|by eapply share_step].
Qed.

Lemma head_step y y' k w q :
  sys_ok y -> sys_step y y' -> od_get k (inbound_waiters (sys y)) = Some (w :: q) ->
  w ∈ queued_waiters (sys y') ->
  exists q', od_get k (inbound_waiters (sys y')) = Some (w :: q') /\
    (position k (inbound_rr_sources (sys y')) <= position k (inbound_rr_sources (sys y)))%nat.
Proof.
  intros Hy Hstep Hk Hw. pose proof (c_queue _ _ _ (proj1 Hy)) as Hq.
  destruct (sys_step_shape y y' Hy Hstep) as [Hd|[(source & i & Heq & _)|[Hz _]]].
  - by eapply (d_head _ _ Hd).
  - rewrite Heq. simpl.
    assert (k ∈ inbound_rr_sources (sys y)) as Hin.
    { rewrite (q_rotation _ Hq). apply od_get_In in Hk. apply list_elem_of_fmap. by exists (k, w :: q). }
    split_and?. destruct (decide (k = source)) as [->|Hks].
    + rewrite od_get_set_eq, Hk. simpl. by eexists.
    + rewrite od_get_set_ne by done. exists q. split; [done|].
      case_match; [done|]. by rewrite position_app.
  - rewrite (no_waiters (sys y)) in Hk by done. done.
Qed.

(** ** Who owns the slots *)

(** Admitted callers and granted suspended calls, by source. *)
Definition owners (y : system) : list string :=
  held y ++ (wt_source <$> filter (fun w => wt_id w ∈ granted_waiters (sys y)) (pending y)).

Definition count_of (source : string) (l : list string) : Z :=
  Z.of_nat (length (filter (fun x => x = source) l)).

Lemma slots_owners y source :
  slots (granted_waiters (sys y)) (pending y) (held y) source = count_of source (owners y).
Proof.
  unfold slots, count_of, owners. rewrite filter_app, length_app.
  enough (length (filter (fun w => wt_source w = source /\ wt_id w ∈ granted_waiters (sys y)) (pending y)) =
    length (filter (fun x => x = source)
      (wt_source <$> filter (fun w => wt_id w ∈ granted_waiters (sys y)) (pending y)))) as -> by lia.
  induction (pending y) as [|w l IH]; [done|]. rewrite !filter_cons.
  destruct (decide (wt_id w ∈ granted_waiters (sys y))).
  - rewrite fmap_cons, filter_cons. destruct (decide (wt_source w = source)).
    + rewrite decide_True by done. by rewrite !length_cons, IH.
    + by rewrite decide_False by tauto.
  - by rewrite decide_False by tauto.
Qed.

Lemma od_sum_zero d : od_wf d -> (forall k, default 0 (od_get k d) = 0) -> od_sum d = 0.
Proof.
  intros Hwf Hz. assert (forall kv, kv ∈ d -> kv.2 = 0) as Hall.
  { intros [k v] Hin. pose proof (Hz k) as Hk. by rewrite (od_In_get k v d Hwf Hin) in Hk. }
  clear Hwf Hz. induction d as [|[k v] d IH]; [done|]. unfold od_sum, od_values in *. cbn.
  pose proof (Hall (k, v) ltac:(set_solver)) as Hv. simpl in Hv. specialize (IH ltac:(set_solver)). lia.
Qed.

Lemma od_sum_count l d :
  od_wf d -> (forall k, default 0 (od_get k d) = count_of k l) -> od_sum d = Z.of_nat (length l).
Proof.
  revert d. induction l as [|x l IH]; intros d Hwf Hd; [by apply od_sum_zero|].
  assert (default 0 (od_get x d) = count_of x l + 1) as Hx.
  { rewrite Hd. unfold count_of. rewrite filter_cons, decide_True by done. simpl. lia. }
  specialize (IH (od_set x (count_of x l) d) ltac:(auto with medre)).
  rewrite od_sum_set, Hx in IH. simpl. rewrite Nat2Z.inj_succ, <- IH; [lia|].
  intros k. destruct (decide (k = x)) as [->|Hne]; [by rewrite od_get_set_eq|].
  rewrite od_get_set_ne, Hd by done. unfold count_of. by rewrite filter_cons, decide_False by congruence.
Qed.

(** C38: In every reachable state of the admission system, whatever the
    interleaving of arrivals, wake-ups, timeouts, cancellations, releases,
    configuration and shutdown: at most [limit] admissions are in flight and
    at most [limit] arrivals wait; the counters equal what they count, so no
    slot is leaked or released twice ([inbound_current] is the number of
    admitted callers and granted suspended calls, per source too); and no slot
    is free while an arrival waits. *)
Theorem inbound_admission_safe (limit : Z) (y : system) :
  0 <= limit -> rtc sys_step (system_init limit) y ->
  inbound_current (sys y) <= inbound_limit (sys y) /\
  inbound_waiting_total (sys y) <= inbound_limit (sys y) /\
  inbound_waiting_total (sys y) = Z.of_nat (length (queued_waiters (sys y))) /\
  inbound_current (sys y) = Z.of_nat (length (owners y)) /\
  (forall source, default 0 (od_get source (inbound_current_by_source (sys y))) =
                  count_of source (owners y)) /\
  (inbound_waiting_total (sys y) = 0 \/ inbound_current (sys y) = inbound_limit (sys y)).
Proof.
  intros Hl Hr. destruct (reachable_sys_ok limit y Hl Hr) as [[Hq Hc Ht Hs Hbw Hb _ _ _ _] Hcons].
  assert (Hby : forall source, default 0 (od_get source (inbound_current_by_source (sys y))) =
    count_of source (owners y)) by (intros source; by rewrite Hb, slots_owners).
  split_and!; try done.
  - apply Hq.
  - rewrite Hs. by apply od_sum_count.
  - destruct Hcons; [by left|right; lia].
Qed.

(** With one free slot the loop runs exactly once. *)
Lemma grant_one s source rr w q :
  queue_ok s -> can_grant s = true -> inbound_accepting s = true ->
  inbound_current s + 1 = inbound_limit s -> inbound_rr_sources s = source :: rr ->
  od_get source (inbound_waiters s) = Some (w :: q) ->
  grant_inbound_waiters s =
    set_slots (pop_state s source rr q) (inbound_current s + 1)
      (bump source 1 (inbound_current_by_source s))
      (wt_id w :: granted_waiters s) (resolve w admitted (resolved s)).
Proof.
  intros Hq Hc Hacc Hone Hrr Hg.
  destruct (grant_iteration_eq s Hq Hc) as (src & rr' & w' & q' & E1 & E2 & _ & E4).
  rewrite Hrr in E1. injection E1 as <- <-. rewrite Hg in E2. injection E2 as <- <-.
  rewrite Hacc in E4. unfold grant_inbound_waiters. destruct (grant_fuel s) as [|fuel] eqn:Hfuel.
  { unfold grant_fuel in Hfuel. rewrite Hrr in Hfuel. simpl in Hfuel. lia. }
  cbn [grant_loop]. rewrite Hc, E4. destruct fuel; cbn [grant_loop]; [done|].
  match goal with |- (if ?b then _ else _) = _ => destruct b eqn:Hc2 end; [|done].
  unfold can_grant in Hc2. rewrite !andb_true_iff, !Z.ltb_lt in Hc2. destruct Hc2 as [[Hlt _] _].
  cbn [set_slots inbound_current inbound_limit pop_state set_queue] in Hlt. lia.
Qed.

(** A release hands the freed slot over in round-robin order: while
    admission is open and arrivals wait, releasing a slot grants exactly the
    oldest waiter of the first source of the rotation, moves that source to
    the back if it has more waiters and out of the rotation otherwise, and
    leaves the occupancy at the limit. *)
Theorem release_serves_front (limit : Z) (y : system) (h1 h2 : list string)
    (source_id : option string) (source : string) (rr : list string) (w : waiter) (q : list waiter) :
  0 <= limit -> rtc sys_step (system_init limit) y ->
  held y = h1 ++ normalize_inbound_source source_id :: h2 ->
  inbound_accepting (sys y) = true ->
  inbound_rr_sources (sys y) = source :: rr ->
  od_get source (inbound_waiters (sys y)) = Some (w :: q) ->
  let s' := release_inbound source_id (sys y) in
  granted_waiters s' = wt_id w :: granted_waiters (sys y) /\
  od_get (wt_id w) (resolved s') = Some admitted /\
  inbound_rr_sources s' = (if nonempty q then rr ++ [source] else rr) /\
  od_get source (inbound_waiters s') = (if nonempty q then Some q else None) /\
  (forall k, k <> source -> od_get k (inbound_waiters s') = od_get k (inbound_waiters (sys y))) /\
  inbound_current s' = inbound_limit s'.
Proof.
  intros Hl Hr Hh Hacc Hrr Hg s'. pose proof (reachable_sys_ok limit y Hl Hr) as Hy.
  pose proof Hy as [Hok Hcons]. pose proof (c_queue _ _ _ Hok) as Hq.
  destruct (released_slot_ok y h1 h2 source_id Hy Hh) as (Heq & Hrel & Hcur).
  unfold s'. rewrite Heq. clear s' Heq.
  set (s := release_inbound_slot (normalize_inbound_source source_id)
              (ensure_inbound_source (normalize_inbound_source source_id) (sys y))) in *.
  assert (w ∈ queued_waiters (sys y)) as Hw.
  { apply elem_of_queued; [done|]. exists (w :: q). split; [|set_solver].
    apply od_get_In in Hg as Hin. by rewrite (q_source _ Hq _ _ w Hin) by set_solver. }
  assert (0 < inbound_waiting_total (sys y)) as Hpos.
  { rewrite (q_total _ Hq). destruct (queued_waiters (sys y)); [set_solver|simpl; lia]. }
  assert (inbound_current (sys y) = inbound_limit (sys y)) as Hfull.
  { pose proof (c_limit _ _ _ Hok). destruct Hcons; lia. }
  assert (can_grant s = true) as Hc.
  { unfold can_grant. rewrite Hcur. simpl. rewrite Hrr. simpl.
    rewrite !andb_true_iff, !Z.ltb_lt. split_and!; [lia|done|done]. }
  rewrite (grant_one s source rr w q); try done; [|apply Hrel|].
  2: { rewrite Hcur. change (inbound_limit s) with (inbound_limit (sys y)). lia. }
  destruct (c_queued _ _ _ Hok w Hw) as (_ & _ & Hres).
  split_and!.
  - done.
  - simpl. rewrite resolve_get by done. by rewrite decide_True.
  - done.
  - simpl. rewrite requeue_get by apply Hq. by rewrite decide_True.
  - intros k Hk. simpl. rewrite requeue_get by apply Hq. by rewrite decide_False.
  - cbn [set_slots inbound_current inbound_limit pop_state set_queue]. rewrite Hcur.
    change (inbound_limit s) with (inbound_limit (sys y)). lia.
Qed.

(** Nobody overtakes: take the oldest waiter of a source.  Whatever step
    the system makes, that waiter either leaves the queue (served, refused,
    timed out or cancelled) or is still the oldest of its source with no more
    sources in front of its own.  With [release_serves_front], where the
    position drops by one per release, a waiting source is served after at
    most as many releases as there are sources ahead of it. *)
Theorem inbound_no_overtaking (limit : Z) (y y' : system) (source : string) (w : waiter)
    (q : list waiter) :
  0 <= limit -> rtc sys_step (system_init limit) y -> sys_step y y' ->
  od_get source (inbound_waiters (sys y)) = Some (w :: q) ->
  w ∉ queued_waiters (sys y') \/
  exists q', od_get source (inbound_waiters (sys y')) = Some (w :: q') /\
    (position source (inbound_rr_sources (sys y')) <=
     position source (inbound_rr_sources (sys y)))%nat.
Proof.
  intros Hl Hr Hs Hg. destruct (decide (w ∈ queued_waiters (sys y'))); [right|by left].
  eapply head_step; try done. by eapply reachable_sys_ok.
Qed.

(** Once the runtime has declared its adapters, no source ever holds more
    of the wait queue than its fair share, the ceiling of the limit divided by
    the number of sources (one more for an undeclared source), and at least
    one. *)
Theorem inbound_fair_share (limit : Z) (y : system) (source : string) (q : list waiter) :
  0 <= limit -> rtc sys_step (system_init limit) y -> inbound_sources (sys y) <> [] ->
  od_get source (inbound_waiters (sys y)) = Some q ->
  let n := Z.of_nat (length (inbound_sources (sys y))) +
           (if elem source (inbound_sources (sys y)) then 0 else 1) in
  Z.of_nat (length q) <= Z.max 1 ((inbound_limit (sys y) + n - 1) / n).
Proof.
  intros Hl Hr Hne Hg n. pose proof (reachable_share limit y Hl Hr Hne source q Hg) as Hs.
  unfold inbound_source_wait_limit in Hs. rewrite (proj2 (Z.eqb_neq _ _)) in Hs; [exact Hs|].
  destruct (inbound_sources (sys y)); [done|simpl; lia].
Qed.

(** ** A run

    Two declared sources share two slots: "a" takes both, then "a" and "b"
    queue. *)
Module CapacityExamples.

Definition run_acquire (source : string) (i : Z) (y : system) : system :=
  match acquire_inbound (Some source) i (sys y) with
  | (Decided r, s') =>
      {| sys := s'; pending := pending y; held := keep_if_granted r source (held y) |}
  | (Waiting, s') =>
      {| sys := s'; pending := {| wt_source := source; wt_id := i |} :: pending y; held := held y |}
  end.

Definition y0 : system :=
  {| sys := (configure_inbound_sources ["b"; " a "] (inbound_init 2)).2; pending := []; held := [] |}.
Definition y1 : system := run_acquire "a" 1 y0.
Definition y2 : system := run_acquire "a" 2 y1.
Definition y3 : system := run_acquire "a" 3 y2.
Definition y4 : system := run_acquire "b" 4 y3.
Definition y5 : system :=
  {| sys := release_inbound (Some "a") (sys y4); pending := pending y4; held := ["a"] |}.

Lemma fresh_dec (i : Z) (y : system) :
  elem i (wt_id <$> pending y) || elem i (granted_waiters (sys y)) ||
  nonempty (option_list (od_get i (resolved (sys y)))) = false -> fresh i y.
Proof.
  rewrite !orb_false_iff, !elem_false. unfold fresh. intros [[? ?] Hr].
  by destruct (od_get i (resolved (sys y))).
Qed.

Lemma step01 : rtc sys_step (system_init 2) y4.
Proof.
  eapply rtc_l; [exact (step_configure (system_init 2) ["b"; " a "])|].
  eapply rtc_l; [apply (step_decided y0 (Some "a") 1 admitted); [by apply fresh_dec|vm_compute; reflexivity]|].
  eapply rtc_l; [apply (step_decided y1 (Some "a") 2 admitted); [by apply fresh_dec|vm_compute; reflexivity]|].
  eapply rtc_l; [apply (step_waiting y2 (Some "a") 3); [by apply fresh_dec|vm_compute; reflexivity]|].
  eapply rtc_l; [apply (step_waiting y3 (Some "b") 4); [by apply fresh_dec|vm_compute; reflexivity]|].
  apply rtc_refl.
Qed.

Lemma step_y5 : sys_step y4 y5.
Proof. exact (step_release y4 [] ["a"] (Some "a") eq_refl). Qed.

(** The hypotheses of [inbound_admission_safe] hold after four arrivals. *)
Lemma inbound_admission_safe_witness :
  rtc sys_step (system_init 2) y4 /\ inbound_current (sys y4) <= inbound_limit (sys y4).
Proof. split; [exact step01|]. apply (inbound_admission_safe 2 y4); [lia|exact step01]. Defined.

(** The release of one of the two slots of "a" serves the third arrival. *)
Lemma release_serves_front_witness :
  granted_waiters (release_inbound (Some "a") (sys y4)) = [3] /\
  inbound_rr_sources (release_inbound (Some "a") (sys y4)) = ["b"].
Proof.
  destruct (release_serves_front 2 y4 [] ["a"] (Some "a") "a" ["b"] {| wt_source := "a"; wt_id := 3 |} [])
    as (Hg & _ & Hr & _); [lia|exact step01|vm_compute; reflexivity..|].
  split; [exact Hg|exact Hr].
Defined.

(** "b" advances when "a" is served. *)
Lemma inbound_no_overtaking_witness :
  position "b" (inbound_rr_sources (sys y4)) = 1%nat /\
  ({| wt_source := "b"; wt_id := 4 |} ∉ queued_waiters (sys y5) \/
   exists q', od_get "b" (inbound_waiters (sys y5)) = Some ({| wt_source := "b"; wt_id := 4 |} :: q') /\
     (position "b" (inbound_rr_sources (sys y5)) <= position "b" (inbound_rr_sources (sys y4)))%nat).
Proof.
  split; [vm_compute; reflexivity|].
  apply (inbound_no_overtaking 2 y4 y5 "b" {| wt_source := "b"; wt_id := 4 |} []);
    [lia|exact step01|exact step_y5|vm_compute; reflexivity].
Defined.

(** Each of the two sources may keep one of the two places. *)
Lemma inbound_fair_share_witness :
  inbound_sources (sys y4) = ["a"; "b"] /\
  Z.of_nat (length [{| wt_source := "b"; wt_id := 4 |}]) <= 1.
Proof.
  split; [vm_compute; reflexivity|].
  apply (inbound_fair_share 2 y4 "b" [{| wt_source := "b"; wt_id := 4 |}]);
    [lia|exact step01|vm_compute; discriminate|vm_compute; reflexivity].
Defined.

End CapacityExamples.

(** ** The delivery and replay gates

    [acquire_delivery]/[release_delivery] and [acquire_replay]/[release_replay]
    are the same code over two semaphores and one shared [_accepting_work]
    flag.  A call is split at its suspension points: entry, the semaphore
    handing over a permit, the lock-protected re-check, and the timeout.  No
    section holding [_lock] suspends, so [release] is one step. *)

Inductive lane : Set := DeliveryLane | ReplayLane.

#[export] Instance lane_eq_dec : EqDecision lane.
Proof. solve_decision. Defined.

Record gate : Set := {
  g_limit : Z; g_permits : Z; g_current : Z; g_rejections : Z; g_timeouts : Z
}.

Record gates : Type := { accepting_work : bool; gate_of : lane -> gate }.

Definition gate_init (limit : Z) : gate :=
  {| g_limit := limit; g_permits := limit; g_current := 0; g_rejections := 0; g_timeouts := 0 |}.

Definition gates_init (max_inflight_deliveries max_inflight_replay_events : Z) : gates :=
  {| accepting_work := true;
     gate_of := fun l => match l with
                         | DeliveryLane => gate_init max_inflight_deliveries
                         | ReplayLane => gate_init max_inflight_replay_events
                         end |}.

Definition set_gate (l : lane) (g : gate) (c : gates) : gates :=
  {| accepting_work := accepting_work c;
     gate_of := fun l' => if bool_decide (l' = l) then g else gate_of c l' |}.

Definition gate_reject (permits : Z) (g : gate) : gate :=
  {| g_limit := g_limit g; g_permits := permits; g_current := g_current g;
     g_rejections := g_rejections g + 1; g_timeouts := g_timeouts g |}.

(** Entry: [Some false] is the immediate refusal, [None] waits on the semaphore. *)
Definition acquire_enter (l : lane) (c : gates) : option bool * gates :=
  if negb (accepting_work c)
  then (Some false, set_gate l (gate_reject (g_permits (gate_of c l)) (gate_of c l)) c)
  else (None, c).

(** [Semaphore.acquire] completing: only with a permit left. *)
Definition semaphore_take (l : lane) (c : gates) : option gates :=
  let g := gate_of c l in
  if 0 <? g_permits g
  then Some (set_gate l {| g_limit := g_limit g; g_permits := g_permits g - 1;
               g_current := g_current g; g_rejections := g_rejections g;
               g_timeouts := g_timeouts g |} c)
  else None.

(** The re-check under the lock. *)
Definition acquire_commit (l : lane) (c : gates) : bool * gates :=
  let g := gate_of c l in
  if negb (accepting_work c)
  then (false, set_gate l (gate_reject (g_permits g + 1) g) c)
  else (true, set_gate l {| g_limit := g_limit g; g_permits := g_permits g;
                g_current := g_current g + 1; g_rejections := g_rejections g;
                g_timeouts := g_timeouts g |} c).

Definition acquire_timed_out (l : lane) (c : gates) : bool * gates :=
  let g := gate_of c l in
  (false, set_gate l {| g_limit := g_limit g; g_permits := g_permits g; g_current := g_current g;
            g_rejections := g_rejections g; g_timeouts := g_timeouts g + 1 |} c).

Definition gate_release (l : lane) (c : gates) : gates :=
  let g := gate_of c l in
  set_gate l {| g_limit := g_limit g; g_permits := g_permits g + 1;
    g_current := Z.max 0 (g_current g - 1); g_rejections := g_rejections g;
    g_timeouts := g_timeouts g |} c.

Definition stop_accepting (c : gates) : gates :=
  {| accepting_work := false; gate_of := gate_of c |}.

(** The gates with their callers: blocked on the semaphore, holding a permit
    before the re-check, and admitted, per lane. *)
Record gate_system : Type := {
  gs : gates;
  blocked : lane -> Z;
  permitted : lane -> Z;
  inflight : lane -> Z
}.

Definition add_to (l : lane) (n : Z) (f : lane -> Z) : lane -> Z :=
  fun l' => if bool_decide (l' = l) then f l' + n else f l'.

Inductive gate_step : gate_system -> gate_system -> Prop :=
| gstep_refused y l c' :
    acquire_enter l (gs y) = (Some false, c') ->
    gate_step y {| gs := c'; blocked := blocked y; permitted := permitted y; inflight := inflight y |}
| gstep_blocked y l c' :
    acquire_enter l (gs y) = (None, c') ->
    gate_step y {| gs := c'; blocked := add_to l 1 (blocked y); permitted := permitted y;
                   inflight := inflight y |}
| gstep_take y l c' :
    0 < blocked y l -> semaphore_take l (gs y) = Some c' ->
    gate_step y {| gs := c'; blocked := add_to l (-1) (blocked y);
                   permitted := add_to l 1 (permitted y); inflight := inflight y |}
| gstep_commit y l b c' :
    0 < permitted y l -> acquire_commit l (gs y) = (b, c') ->
    gate_step y {| gs := c'; blocked := blocked y; permitted := add_to l (-1) (permitted y);
                   inflight := if b then add_to l 1 (inflight y) else inflight y |}
| gstep_timeout y l :
    0 < blocked y l ->
    gate_step y {| gs := (acquire_timed_out l (gs y)).2; blocked := add_to l (-1) (blocked y);
                   permitted := permitted y; inflight := inflight y |}
| gstep_cancel y l :
    0 < blocked y l ->
    gate_step y {| gs := gs y; blocked := add_to l (-1) (blocked y); permitted := permitted y;
                   inflight := inflight y |}
| gstep_release y l :
    0 < inflight y l ->
    gate_step y {| gs := gate_release l (gs y); blocked := blocked y; permitted := permitted y;
                   inflight := add_to l (-1) (inflight y) |}
| gstep_stop y :
    gate_step y {| gs := stop_accepting (gs y); blocked := blocked y; permitted := permitted y;
                   inflight := inflight y |}.

Definition gate_system_init (deliveries replays : Z) : gate_system :=
  {| gs := gates_init deliveries replays; blocked := fun _ => 0; permitted := fun _ => 0;
     inflight := fun _ => 0 |}.

(** Permits are conserved and the counter is the number of admitted callers. *)
Definition gate_ok (y : gate_system) : Prop := forall l,
  let g := gate_of (gs y) l in
  0 <= g_permits g /\ 0 <= permitted y l /\ 0 <= inflight y l /\
  g_permits g + permitted y l + inflight y l = g_limit g /\ g_current g = inflight y l.

Lemma gate_step_ok y y' : gate_step y y' -> gate_ok y -> gate_ok y'.
Proof.
  intros Hstep Hok l'. pose proof (Hok l') as Hl. cbv zeta in Hl.
  destruct Hstep; try (pose proof (Hok l) as Hl0; cbv zeta in Hl0);
    unfold acquire_enter, semaphore_take, acquire_commit in *;
    repeat (case_match; simplify_eq); simpl; unfold add_to;
    try (case_bool_decide; subst); simpl; rewrite ?Z.ltb_lt in *; lia.
Qed.

Lemma gate_step_limit y y' l : gate_step y y' -> g_limit (gate_of (gs y') l) = g_limit (gate_of (gs y) l).
Proof.
  intros Hstep. destruct Hstep; unfold acquire_enter, semaphore_take, acquire_commit in *;
    repeat (case_match; simplify_eq); simpl; try case_bool_decide; by subst.
Qed.

Lemma gate_reachable_ok deliveries replays y :
  0 <= deliveries -> 0 <= replays -> rtc gate_step (gate_system_init deliveries replays) y ->
  gate_ok y /\ (forall l, g_limit (gate_of (gs y) l) =
    match l with DeliveryLane => deliveries | ReplayLane => replays end).
Proof.
  intros Hd Hr. apply (rtc_ind_r (fun y => gate_ok y /\ (forall l, g_limit (gate_of (gs y) l) =
    match l with DeliveryLane => deliveries | ReplayLane => replays end))).
  - split; [intros []; simpl; lia|by intros []].
  - intros a b _ Hs [Ha Hlim]. split; [by eapply gate_step_ok|].
    intros l. by rewrite (gate_step_limit a b).
Qed.

(** The delivery and replay gates bound concurrency: in every reachable
    state the in-flight counter of a lane is the number of admitted callers
    and never exceeds the configured maximum, permits are neither lost nor
    duplicated, and once [stop_accepting] was called no step admits another
    caller, even one that was already waiting on the semaphore. *)
Theorem delivery_gate_safe (deliveries replays : Z) (y y' : gate_system) (l : lane) :
  0 <= deliveries -> 0 <= replays ->
  rtc gate_step (gate_system_init deliveries replays) y -> gate_step y y' ->
  g_current (gate_of (gs y) l) = inflight y l /\
  0 <= inflight y l <= match l with DeliveryLane => deliveries | ReplayLane => replays end /\
  g_permits (gate_of (gs y) l) + permitted y l + inflight y l =
    match l with DeliveryLane => deliveries | ReplayLane => replays end /\
  (accepting_work (gs y) = false -> accepting_work (gs y') = false /\ inflight y' l <= inflight y l).
Proof.
  intros Hd Hr Hreach Hstep. destruct (gate_reachable_ok deliveries replays y Hd Hr Hreach) as [Hok Hlim].
  specialize (Hok l). cbv zeta in Hok. specialize (Hlim l). rewrite Hlim in Hok.
  split_and!; try lia; intros Hacc; destruct Hstep;
    unfold acquire_enter, semaphore_take, acquire_commit in *; rewrite ?Hacc in *;
    repeat (case_match; simplify_eq); simpl; try done; unfold add_to; (split; [done|]);
    try case_bool_decide; lia.
Qed.

Module GateExamples.

Definition entered : gate_system :=
  {| gs := gates_init 1 0; blocked := add_to DeliveryLane 1 (fun _ => 0);
     permitted := fun _ => 0; inflight := fun _ => 0 |}.
Definition taken : gate_system :=
  {| gs := default (gates_init 1 0) (semaphore_take DeliveryLane (gs entered));
     blocked := add_to DeliveryLane (-1) (blocked entered);
     permitted := add_to DeliveryLane 1 (permitted entered); inflight := inflight entered |}.
Definition admitted_delivery : gate_system :=
  {| gs := (acquire_commit DeliveryLane (gs taken)).2; blocked := blocked taken;
     permitted := add_to DeliveryLane (-1) (permitted taken);
     inflight := add_to DeliveryLane 1 (inflight taken) |}.

Lemma delivery_admitted : rtc gate_step (gate_system_init 1 0) admitted_delivery.
Proof.
  eapply rtc_l; [exact (gstep_blocked (gate_system_init 1 0) DeliveryLane (gates_init 1 0) eq_refl)|].
  eapply rtc_l; [exact (gstep_take entered DeliveryLane _ eq_refl eq_refl)|].
  eapply rtc_l; [exact (gstep_commit taken DeliveryLane true _ eq_refl eq_refl)|]. apply rtc_refl.
Qed.

(** One delivery is in flight through a gate of one permit. *)
Lemma delivery_gate_safe_witness :
  inflight admitted_delivery DeliveryLane = 1 /\
  g_current (gate_of (gs admitted_delivery) DeliveryLane) = 1.
Proof.
  split; [reflexivity|].
  apply (delivery_gate_safe 1 0 admitted_delivery
    {| gs := stop_accepting (gs admitted_delivery); blocked := blocked admitted_delivery;
       permitted := permitted admitted_delivery; inflight := inflight admitted_delivery |} DeliveryLane);
    [lia|lia|exact delivery_admitted|apply gstep_stop].
Defined.

End GateExamples.
