(* ===== verification/Attachments.v ===== *)
(** * The canonical attachment descriptor

    [src/src/medre/core/events/attachments.py]: the typed descriptor a
    [message.file] event carries in its payload, its retained, unavailable and
    declared forms, strict parsing and serialisation.  A payload mapping is an
    ordered dictionary of JSON values. *)

From S2P Require Import Prelude.
From S2P Require Import Json.
From S2P Require Import Delivery.

Open Scope string_scope.
Open Scope list_scope.
Open Scope Z_scope.

Definition ATTACHMENT_PAYLOAD_KEY : string := "attachment".

Definition ATTACHMENT_KINDS : list string := ["image"; "audio"; "video"; "file"].

Definition ATTACHMENT_UNAVAILABLE_REASONS : list string :=
  ["policy_disabled"; "history_suppressed"; "oversized"; "malformed_source"; "integrity_failed";
   "unsupported_source"; "quota_exceeded"; "not_retained"; "content_missing"; "fetch_exhausted"].

(** The allowed fields, in the order [sorted] gives them. *)
Definition DESCRIPTOR_FIELDS : list string :=
  ["content_ref"; "duration_ms"; "filename"; "height"; "kind"; "mime_type"; "size_bytes";
   "unavailable_reason"; "width"].

Definition DECLARED_FIELDS : list string :=
  ["duration_ms"; "filename"; "height"; "kind"; "mime_type"; "size_bytes"; "width"].

Definition STRING_FIELDS : list string :=
  ["filename"; "mime_type"; "content_ref"; "unavailable_reason"].

(** [CONTENT_REF_PATTERN.fullmatch]. *)
Definition is_lower_hex (c : Ascii.ascii) : bool :=
  let n := Z.of_N (Ascii.N_of_ascii c) in
  ((48 <=? n) && (n <=? 57)) || ((97 <=? n) && (n <=? 102)).

Fixpoint hex_digits (k : nat) (s : string) : bool :=
  match k, s with
  | O, EmptyString => true
  | S k', String c rest => is_lower_hex c && hex_digits k' rest
  | _, _ => false
  end.

Definition content_ref_ok (s : string) : bool :=
  String.prefix "sha256:" s && hex_digits 64 (String.substring 7 (String.length s - 7) s).

Definition optional_int (j : json) : option Z :=
  match j with JInt n => if n <? 0 then None else Some n | _ => None end.

Definition optional_str (j : json) : option string :=
  match j with JStr s => or_none s | _ => None end.

Record AttachmentDescriptor : Set := {
  ad_kind : string;
  ad_filename : option string;
  ad_mime_type : option string;
  ad_size_bytes : option Z;
  ad_width : option Z;
  ad_height : option Z;
  ad_duration_ms : option Z;
  ad_content_ref : option string;
  ad_unavailable_reason : option string
}.

(** [AttachmentDescriptorError] is a [ValueError]. *)
Definition descriptor_error (what : string) : exc := ValueError ("attachment " +:+ what).

Definition check (b : bool) (what : string) : result exc unit :=
  if b then Ok tt else Raise (descriptor_error what).

Definition validate_kind (d : AttachmentDescriptor) : result exc unit :=
  check (elem (ad_kind d) ATTACHMENT_KINDS) "kind".

Definition number_ok (v : option Z) : bool := match v with None => true | Some n => 0 <=? n end.
Definition text_ok (v : option string) : bool := match v with None => true | Some s => truthy s end.

Definition validate_numbers (d : AttachmentDescriptor) : result exc unit :=
  check (number_ok (ad_size_bytes d) && number_ok (ad_width d) && number_ok (ad_height d) &&
         number_ok (ad_duration_ms d)) "number".

Definition validate_optional_strings (d : AttachmentDescriptor) : result exc unit :=
  check (text_ok (ad_filename d) && text_ok (ad_mime_type d)) "text".

Definition validate_declared (d : AttachmentDescriptor) : result exc unit :=
  validate_kind d ≫= fun _ => validate_optional_strings d ≫= fun _ => validate_numbers d.

Definition validate (d : AttachmentDescriptor) : result exc unit :=
  validate_kind d ≫= fun _ =>
  check (negb (bool_decide (ad_content_ref d <> None) &&
               bool_decide (ad_unavailable_reason d <> None))) "both retained and unavailable"
  ≫= fun _ =>
  check (negb (bool_decide (ad_content_ref d = None) &&
               bool_decide (ad_unavailable_reason d = None))) "neither retained nor unavailable"
  ≫= fun _ =>
  check (match ad_content_ref d with None => true | Some r => content_ref_ok r end) "content_ref"
  ≫= fun _ =>
  check (match ad_unavailable_reason d with
         | None => true
         | Some r => elem r ATTACHMENT_UNAVAILABLE_REASONS
         end) "unavailable_reason" ≫= fun _ =>
  validate_optional_strings d ≫= fun _ => validate_numbers d.

Definition retained (d : AttachmentDescriptor) : bool := bool_decide (ad_content_ref d <> None).

Definition with_retained_content (d : AttachmentDescriptor) (ref : string) (measured : Z)
    : AttachmentDescriptor :=
  {| ad_kind := ad_kind d; ad_filename := ad_filename d; ad_mime_type := ad_mime_type d;
     ad_size_bytes := Some measured; ad_width := ad_width d; ad_height := ad_height d;
     ad_duration_ms := ad_duration_ms d; ad_content_ref := Some ref;
     ad_unavailable_reason := None |}.

Definition with_unavailable (d : AttachmentDescriptor) (reason : string)
    : result exc AttachmentDescriptor :=
  if negb (elem reason ATTACHMENT_UNAVAILABLE_REASONS)
  then Raise (descriptor_error "unknown unavailable reason")
  else Ok {| ad_kind := ad_kind d; ad_filename := ad_filename d; ad_mime_type := ad_mime_type d;
             ad_size_bytes := ad_size_bytes d; ad_width := ad_width d; ad_height := ad_height d;
             ad_duration_ms := ad_duration_ms d; ad_content_ref := None;
             ad_unavailable_reason := Some reason |}.

(** ** Payload form *)

Definition present (optional : list (string * option json)) : list (string * json) :=
  omap (fun kv => pair kv.1 <$> kv.2) optional.

Definition declared_entries (d : AttachmentDescriptor) : list (string * option json) :=
  [("filename", JStr <$> ad_filename d); ("mime_type", JStr <$> ad_mime_type d);
   ("size_bytes", JInt <$> ad_size_bytes d); ("width", JInt <$> ad_width d);
   ("height", JInt <$> ad_height d); ("duration_ms", JInt <$> ad_duration_ms d)].

Definition retention_entries (d : AttachmentDescriptor) : list (string * option json) :=
  [("content_ref", JStr <$> ad_content_ref d);
   ("unavailable_reason", JStr <$> ad_unavailable_reason d)].

Definition to_payload (d : AttachmentDescriptor) : result exc (list (string * json)) :=
  validate d ≫= fun _ =>
  Ok (("kind", JStr (ad_kind d)) :: present (declared_entries d ++ retention_entries d)).

Definition to_declared_payload (d : AttachmentDescriptor) : result exc (list (string * json)) :=
  validate_declared d ≫= fun _ =>
  Ok (("kind", JStr (ad_kind d)) :: present (declared_entries d)).

(** One iteration of the coercion loop. *)
Definition strict_field (value : list (string * json)) (key : string)
    : result exc (option (string * json)) :=
  match od_get key value with
  | None | Some JNull => Ok None
  | Some raw =>
      if bool_decide (key = "kind") then Ok (Some (key, raw))
      else if elem key STRING_FIELDS then
        match optional_str raw with
        | Some s => Ok (Some (key, JStr s))
        | None => Raise (descriptor_error "must be a non-empty string")
        end
      else
        match optional_int raw with
        | Some n => Ok (Some (key, JInt n))
        | None => Raise (descriptor_error "must be a nonnegative integer")
        end
  end.

Fixpoint strict_loop (value : list (string * json)) (keys : list string)
    : result exc (list (string * json)) :=
  match keys with
  | [] => Ok []
  | key :: rest =>
      entry ← strict_field value key;
      strict ← strict_loop value rest;
      Ok (match entry with Some kv => kv :: strict | None => strict end)
  end.

Definition strict_fields (value : list (string * json)) (allowed : list string)
    : result exc (list (string * json)) :=
  if negb (forallb (fun k => elem k allowed) (od_keys value))
  then Raise (descriptor_error "field outside the allowed set")
  else strict_loop value allowed.

Definition strict_str (strict : list (string * json)) (key : string) : option string :=
  match od_get key strict with Some (JStr s) => Some s | _ => None end.
Definition strict_int (strict : list (string * json)) (key : string) : option Z :=
  match od_get key strict with Some (JInt n) => Some n | _ => None end.

(** [str(strict.get("kind", ""))]: the text of a value that is not a string is
    none of the kinds; it is read as the empty text, which is none either. *)
Definition strict_kind (strict : list (string * json)) : string :=
  default "" (strict_str strict "kind").

Definition declared_of (strict : list (string * json)) : AttachmentDescriptor :=
  {| ad_kind := strict_kind strict; ad_filename := strict_str strict "filename";
     ad_mime_type := strict_str strict "mime_type"; ad_size_bytes := strict_int strict "size_bytes";
     ad_width := strict_int strict "width"; ad_height := strict_int strict "height";
     ad_duration_ms := strict_int strict "duration_ms"; ad_content_ref := None;
     ad_unavailable_reason := None |}.

Definition descriptor_of (strict : list (string * json)) : AttachmentDescriptor :=
  {| ad_kind := strict_kind strict; ad_filename := strict_str strict "filename";
     ad_mime_type := strict_str strict "mime_type"; ad_size_bytes := strict_int strict "size_bytes";
     ad_width := strict_int strict "width"; ad_height := strict_int strict "height";
     ad_duration_ms := strict_int strict "duration_ms";
     ad_content_ref := strict_str strict "content_ref";
     ad_unavailable_reason := strict_str strict "unavailable_reason" |}.

Definition from_payload (value : json) : result exc AttachmentDescriptor :=
  match value with
  | JObj kvs =>
      strict ← strict_fields kvs DESCRIPTOR_FIELDS;
      validate (descriptor_of strict) ≫= fun _ => Ok (descriptor_of strict)
  | _ => Raise (descriptor_error "descriptor must be a mapping")
  end.

Definition attachment_descriptor_from_event_payload (payload : list (string * json))
    : result exc (option AttachmentDescriptor) :=
  match od_get ATTACHMENT_PAYLOAD_KEY payload with
  | None | Some JNull => Ok None
  | Some raw => Some <$> from_payload raw
  end.

Definition declared_descriptor_from_event_payload (payload : list (string * json))
    : result exc (option AttachmentDescriptor) :=
  match od_get ATTACHMENT_PAYLOAD_KEY payload with
  | None | Some JNull => Ok None
  | Some (JObj kvs) =>
      strict ← strict_fields kvs DECLARED_FIELDS;
      validate_declared (declared_of strict) ≫= fun _ => Ok (Some (declared_of strict))
  | Some _ => Raise (descriptor_error "descriptor must be a mapping")
  end.

(** ** Lemmas on present fields *)

Lemma od_keys_present o k : k ∈ od_keys (present o) -> k ∈ o.*1.
Proof.
  unfold od_keys, present. intros (kv & -> & Hkv)%list_elem_of_fmap.
  apply list_elem_of_omap in Hkv as ([k' v] & Hin & Heq). cbn in Heq.
  destruct v; [|done]. injection Heq as <-. apply list_elem_of_fmap. by exists (k', Some j).
Qed.

Lemma od_get_present k o : NoDup o.*1 -> od_get k (present o) = mjoin (od_get k o).
Proof.
  induction o as [|[k' v] o IH]; [done|]. cbn [fmap list_fmap fst]. intros [Hk Hnd]%NoDup_cons.
  cbn. case_decide as Heq.
  - subst k'. destruct v as [v|]; cbn; [by rewrite decide_True|].
    apply od_get_None. intros Hin. by apply Hk, od_keys_present.
  - destruct v as [v|]; cbn; [rewrite decide_False by done|]; by apply IH.
Qed.

Lemma strict_loop_present value o :
  Forall (fun kv => strict_field value kv.1 = Ok (pair kv.1 <$> kv.2)) o ->
  strict_loop value o.*1 = Ok (present o).
Proof.
  induction 1 as [|[k v] o Hkv _ IH]; [done|]. cbn in *. rewrite Hkv, IH. by destruct v.
Qed.

Lemma strict_field_text value key v :
  bool_decide (key = "kind") = false -> elem key STRING_FIELDS = true ->
  od_get key value = JStr <$> v -> text_ok v = true ->
  strict_field value key = Ok (pair key <$> (JStr <$> v)).
Proof.
  intros Hk Hs Hg Ht. unfold strict_field. rewrite Hg. destruct v as [s|]; [|done]. cbn.
  rewrite Hk, Hs. cbn in Ht. unfold or_none. by rewrite Ht.
Qed.

Lemma strict_field_number value key v :
  bool_decide (key = "kind") = false -> elem key STRING_FIELDS = false ->
  od_get key value = JInt <$> v -> number_ok v = true ->
  strict_field value key = Ok (pair key <$> (JInt <$> v)).
Proof.
  intros Hk Hs Hg Hn. unfold strict_field. rewrite Hg. destruct v as [n|]; [|done]. cbn in *.
  rewrite Hk, Hs. by rewrite Z.ltb_antisym, Hn.
Qed.

Lemma check_Ok b what : check b what = Ok tt <-> b = true.
Proof. unfold check. by destruct b. Qed.

Lemma bind_check b what {A} (k : result exc A) a :
  (check b what ≫= fun _ => k) = Ok a <-> b = true /\ k = Ok a.
Proof. unfold check. destruct b; cbn; naive_solver. Qed.

Lemma Ok_bind {A B} (a : A) (k : A -> result exc B) : (Ok a ≫= k) = k a.
Proof. reflexivity. Qed.

Record descriptor_ok (d : AttachmentDescriptor) : Prop := {
  do_kind : ad_kind d ∈ ATTACHMENT_KINDS;
  do_one : is_Some (ad_content_ref d) <-> ad_unavailable_reason d = None;
  do_ref : forall r, ad_content_ref d = Some r -> content_ref_ok r = true;
  do_reason : forall r, ad_unavailable_reason d = Some r -> r ∈ ATTACHMENT_UNAVAILABLE_REASONS;
  do_text : text_ok (ad_filename d) = true /\ text_ok (ad_mime_type d) = true;
  do_number : number_ok (ad_size_bytes d) = true /\ number_ok (ad_width d) = true /\
              number_ok (ad_height d) = true /\ number_ok (ad_duration_ms d) = true
}.

Lemma validate_iff d : validate d = Ok tt <-> descriptor_ok d.
Proof.
  unfold validate, validate_kind, validate_optional_strings, validate_numbers.
  rewrite !bind_check, check_Ok, !andb_true_iff, elem_true. split.
  - intros (Hk & H1 & H2 & Hr & Hu & [? ?] & [[[? ?] ?] ?]). split; try done.
    + destruct (ad_content_ref d), (ad_unavailable_reason d); try done; split; try done;
        by intros [].
    + intros r E. by rewrite E in Hr.
    + intros r E. rewrite E in Hu. by apply elem_true.
  - intros [Hk H1 Hr Hu [? ?] (? & ? & ? & ?)]. split_and!; try done.
    + destruct (ad_content_ref d), (ad_unavailable_reason d); try done.
      destruct H1 as [H1 _]. by specialize (H1 ltac:(eauto)).
    + destruct (ad_content_ref d), (ad_unavailable_reason d); try done.
      destruct H1 as [_ H1]. by destruct (H1 eq_refl).
    + destruct (ad_content_ref d); [by apply Hr|done].
    + destruct (ad_unavailable_reason d); [by apply elem_true, Hu|done].
Qed.

(** The lookups of a serialised descriptor. *)
Lemma payload_unknown_keys kind o allowed :
  elem "kind" allowed = true -> Forall (fun k => elem k allowed = true) o.*1 ->
  forallb (fun k => elem k allowed) (od_keys (("kind", kind) :: present o)) = true.
Proof.
  intros Hkind Ho. apply forallb_forall. intros k [<-|Hin%list_elem_of_In]%in_inv; [done|].
  rewrite Forall_forall in Ho. apply Ho. by apply od_keys_present.
Qed.

Lemma strict_fields_sorted value allowed o :
  forallb (fun k => elem k allowed) (od_keys value) = true -> o.*1 = allowed ->
  Forall (fun kv => strict_field value kv.1 = Ok (pair kv.1 <$> kv.2)) o ->
  strict_fields value allowed = Ok (present o).
Proof.
  intros Hk <- Ho. unfold strict_fields. rewrite Hk. cbn [negb]. by apply strict_loop_present.
Qed.

Definition sorted_declared (d : AttachmentDescriptor) : list (string * option json) :=
  [("duration_ms", JInt <$> ad_duration_ms d); ("filename", JStr <$> ad_filename d);
   ("height", JInt <$> ad_height d); ("kind", Some (JStr (ad_kind d)));
   ("mime_type", JStr <$> ad_mime_type d); ("size_bytes", JInt <$> ad_size_bytes d);
   ("width", JInt <$> ad_width d)].

Definition sorted_entries (d : AttachmentDescriptor) : list (string * option json) :=
  [("content_ref", JStr <$> ad_content_ref d); ("duration_ms", JInt <$> ad_duration_ms d);
   ("filename", JStr <$> ad_filename d); ("height", JInt <$> ad_height d);
   ("kind", Some (JStr (ad_kind d))); ("mime_type", JStr <$> ad_mime_type d);
   ("size_bytes", JInt <$> ad_size_bytes d);
   ("unavailable_reason", JStr <$> ad_unavailable_reason d); ("width", JInt <$> ad_width d)].

Ltac solve_nodup_keys := apply (bool_decide_unpack _); vm_compute; exact I.

Ltac strict_field_tac :=
  first [ apply strict_field_text | apply strict_field_number | reflexivity ];
  first [ reflexivity
        | done
        | cbn [od_get]; rewrite ?decide_False by done; rewrite od_get_present by solve_nodup_keys;
          reflexivity ].

Lemma strict_fields_payload d : descriptor_ok d ->
  strict_fields (("kind", JStr (ad_kind d)) :: present (declared_entries d ++ retention_entries d))
    DESCRIPTOR_FIELDS = Ok (present (sorted_entries d)).
Proof.
  intros [_ _ Hr Hu [? ?] (? & ? & ? & ?)]. apply strict_fields_sorted; [|reflexivity|].
  - apply payload_unknown_keys; [reflexivity|]. repeat constructor.
  - assert (text_ok (ad_content_ref d) = true).
    { destruct (ad_content_ref d) as [[|]|]; try done. by specialize (Hr _ eq_refl). }
    assert (text_ok (ad_unavailable_reason d) = true).
    { destruct (ad_unavailable_reason d) as [[|]|]; try done. specialize (Hu _ eq_refl).
      apply elem_true in Hu. done. }
    repeat constructor; cbn [fst snd]; strict_field_tac.
Qed.

Lemma strict_fields_declared d : validate_declared d = Ok tt ->
  strict_fields (("kind", JStr (ad_kind d)) :: present (declared_entries d)) DECLARED_FIELDS =
  Ok (present (sorted_declared d)).
Proof.
  unfold validate_declared, validate_kind, validate_optional_strings, validate_numbers.
  rewrite !bind_check, check_Ok, !andb_true_iff. intros (_ & [? ?] & [[[? ?] ?] ?]).
  apply strict_fields_sorted; [|reflexivity|].
  - apply payload_unknown_keys; [reflexivity|]. repeat constructor.
  - repeat constructor; cbn [fst snd]; strict_field_tac.
Qed.

Lemma strict_str_present o k v :
  bool_decide (NoDup o.*1) = true -> mjoin (od_get k o) = JStr <$> v ->
  strict_str (present o) k = v.
Proof.
  intros Hn Hg. unfold strict_str.
  rewrite od_get_present, Hg by (by apply bool_decide_eq_true in Hn). by destruct v.
Qed.

Lemma strict_int_present o k v :
  bool_decide (NoDup o.*1) = true -> mjoin (od_get k o) = JInt <$> v ->
  strict_int (present o) k = v.
Proof.
  intros Hn Hg. unfold strict_int.
  rewrite od_get_present, Hg by (by apply bool_decide_eq_true in Hn). by destruct v.
Qed.

Lemma strict_kind_present o k :
  bool_decide (NoDup o.*1) = true -> mjoin (od_get "kind" o) = Some (JStr k) ->
  strict_kind (present o) = k.
Proof. intros. unfold strict_kind. by rewrite (strict_str_present _ _ (Some k)). Qed.

Lemma descriptor_of_sorted d : descriptor_of (present (sorted_entries d)) = d.
Proof.
  destruct d. unfold descriptor_of. f_equal;
    (apply strict_kind_present || apply strict_str_present || apply strict_int_present); reflexivity.
Qed.

(** What remains of a descriptor in its declared form. *)
Definition undecided (d : AttachmentDescriptor) : AttachmentDescriptor :=
  {| ad_kind := ad_kind d; ad_filename := ad_filename d; ad_mime_type := ad_mime_type d;
     ad_size_bytes := ad_size_bytes d; ad_width := ad_width d; ad_height := ad_height d;
     ad_duration_ms := ad_duration_ms d; ad_content_ref := None; ad_unavailable_reason := None |}.

Lemma declared_of_sorted d : declared_of (present (sorted_declared d)) = undecided d.
Proof.
  unfold declared_of, undecided. f_equal;
    (apply strict_kind_present || apply strict_str_present || apply strict_int_present); reflexivity.
Qed.

Lemma strict_fields_allowed value allowed strict k :
  strict_fields value allowed = Ok strict -> k ∈ od_keys value -> k ∈ allowed.
Proof.
  unfold strict_fields. destruct (forallb _ _) eqn:E; [|done]. intros _ Hk.
  rewrite forallb_forall in E. apply elem_true, E. by apply list_elem_of_In.
Qed.

(** Serialising a descriptor and parsing it back gives the same
    descriptor, in the persisted and in the declared form; every parsed
    persisted descriptor is valid, so it is retained or unavailable and never
    both; and a declared payload that names a content reference or an
    unavailability reason is refused. *)
Theorem attachment_descriptor_roundtrip d :
  (forall kvs, to_payload d = Ok kvs -> from_payload (JObj kvs) = Ok d) /\
  (forall kvs payload, to_declared_payload d = Ok kvs ->
     od_get ATTACHMENT_PAYLOAD_KEY payload = Some (JObj kvs) ->
     declared_descriptor_from_event_payload payload = Ok (Some (undecided d))) /\
  (forall j d', from_payload j = Ok d' -> descriptor_ok d') /\
  (forall kvs payload r, od_get ATTACHMENT_PAYLOAD_KEY payload = Some (JObj kvs) ->
     "content_ref" ∈ od_keys kvs \/ "unavailable_reason" ∈ od_keys kvs ->
     declared_descriptor_from_event_payload payload <> Ok r).
Proof.
  split_and!.
  - intros kvs. unfold to_payload. destruct (validate d) as [[]|] eqn:Hv; [|done].
    intros [= <-]. unfold from_payload. rewrite strict_fields_payload by by apply validate_iff.
    rewrite Ok_bind, descriptor_of_sorted. by rewrite Hv.
  - intros kvs payload. unfold to_declared_payload.
    destruct (validate_declared d) as [[]|] eqn:Hv; [|done]. intros [= <-] Hp.
    unfold declared_descriptor_from_event_payload. rewrite Hp, strict_fields_declared by done.
    rewrite Ok_bind, declared_of_sorted.
    change (validate_declared (undecided d)) with (validate_declared d). by rewrite Hv.
  - intros [| | | | |kvs] d'; try done. cbn.
    intros (strict & _ & ([] & Hv & [= <-])%bind_Ok)%bind_Ok. by apply validate_iff.
  - intros kvs payload r Hp Hk. unfold declared_descriptor_from_event_payload. rewrite Hp.
    intros (strict & Hs & _)%bind_Ok.
    destruct Hk as [Hk|Hk]; apply (strict_fields_allowed _ _ _ _ Hs), elem_true in Hk; done.
Qed.

Module AttachmentExamples.

Definition photo : AttachmentDescriptor :=
  {| ad_kind := "image"; ad_filename := Some "a.png"; ad_mime_type := None;
     ad_size_bytes := Some 12; ad_width := Some 3; ad_height := None; ad_duration_ms := None;
     ad_content_ref := None; ad_unavailable_reason := Some "oversized" |}.

Lemma attachment_descriptor_roundtrip_witness :
  exists kvs, to_payload photo = Ok kvs /\ from_payload (JObj kvs) = Ok photo.
Proof.
  eexists. split; [reflexivity|]. apply (proj1 (attachment_descriptor_roundtrip photo)). reflexivity.
Defined.

End AttachmentExamples.
