(* ===== verification/Events.v ===== *)
(** * Canonical events

    [src/src/medre/core/events/]: the event kinds ([kinds.py]), native
    references, relations and the canonical event with its construction checks
    ([canonical.py]), the schema-version checks ([schema.py]), routing and
    opaque metadata ([metadata.py]), and the row mappings of
    [storage/sqlite/serde.py] and [_content_identity.py].

    Payload and metadata documents are ordered dictionaries of JSON values.
    A typed metadata namespace is kept as its JSON object
    ([msgspec.to_builtins]); only routing is opened.  [target_fact] of a
    relation is never persisted and left out. *)

From S2P Require Import Prelude.
From S2P Require Import Json.
From S2P Require Import Delivery.

Open Scope string_scope.
Open Scope list_scope.
Open Scope Z_scope.

(** ** Kinds *)

Definition MESSAGE_CREATED : string := "message.created".
Definition MESSAGE_TEXT : string := "message.text".
Definition MESSAGE_REACTED : string := "message.reacted".
Definition MESSAGE_EDITED : string := "message.edited".
Definition MESSAGE_DELETED : string := "message.deleted".
Definition MESSAGE_FILE : string := "message.file".
Definition TELEMETRY_RECEIVED : string := "telemetry.received".
Definition TELEMETRY_POSITION : string := "telemetry.position".
Definition PRESENCE_CHANGED : string := "presence.changed".
Definition IDENTITY_UPDATED : string := "identity.updated".
Definition DELIVERY_QUEUED : string := "delivery.queued".
Definition DELIVERY_SENT : string := "delivery.sent".
Definition DELIVERY_FAILED : string := "delivery.failed".
Definition SYSTEM_AUDIT : string := "system.audit".
Definition SYSTEM_LIFECYCLE : string := "system.lifecycle".
Definition PLUGIN_CUSTOM : string := "plugin.custom".

Definition KNOWN_KINDS : list string :=
  [MESSAGE_CREATED; MESSAGE_TEXT; MESSAGE_REACTED; MESSAGE_EDITED; MESSAGE_DELETED; MESSAGE_FILE;
   TELEMETRY_RECEIVED; TELEMETRY_POSITION; PRESENCE_CHANGED; IDENTITY_UPDATED; DELIVERY_QUEUED;
   DELIVERY_SENT; DELIVERY_FAILED; SYSTEM_AUDIT; SYSTEM_LIFECYCLE; PLUGIN_CUSTOM].

Definition is_registered (kind : string) : bool := elem kind KNOWN_KINDS.

(** ** Value types *)

Definition VALID_RELATION_TYPES : list string := ["reply"; "reaction"; "edit"; "delete"; "thread"].

Record NativeRef : Set := {
  nf_adapter : string;
  nf_channel : option string;
  nf_message : string;
  nf_thread : option string
}.

Record EventRelation : Type := {
  rl_type : string;
  rl_target_event : option string;
  rl_target_native : option NativeRef;
  rl_key : option string;
  rl_fallback_text : option string;
  rl_metadata : list (string * json)
}.

Definition EventRelation_init (r : EventRelation) : result exc EventRelation :=
  if negb (elem (rl_type r) VALID_RELATION_TYPES) then Raise (ValueError "relation_type")
  else Ok r.

Record RoutingMetadata : Set := {
  rm_matched_routes : list string;
  rm_fanout_group : option string;
  rm_route_trace : list string
}.

Record EventMetadata : Type := {
  em_transport : option (list (string * json));
  em_routing : option RoutingMetadata;
  em_radio : option (list (string * json));
  em_telemetry : option (list (string * json));
  em_native : option (list (string * json));
  em_custom : list (string * json)
}.

(** The scalar fields an event shares with its row. *)
Record EventColumns : Set := {
  ev_event_id : string;
  ev_event_kind : string;
  ev_schema_version : Z;
  ev_timestamp : instant;
  ev_source_adapter : string;
  ev_source_transport_id : string;
  ev_source_channel_id : option string;
  ev_parent_event_id : option string;
  ev_lineage : list string;
  ev_depth : Z;
  ev_trace_id : option string;
  ev_root_event_id : option string;
  ev_conversation_id : option string
}.

Record CanonicalEvent : Type := {
  ev_columns :> EventColumns;
  ev_relations : list EventRelation;
  ev_payload : list (string * json);
  ev_metadata : EventMetadata;
  ev_source_native_ref : option NativeRef
}.

Definition text_when_set (o : option string) : bool :=
  match o with Some s => truthy s | None => true end.

(** The invariant checks of [__post_init__], in order. *)
Definition columns_ok (e : EventColumns) : result exc unit :=
  if negb (truthy (ev_event_id e)) then Raise (ValueError "event_id must be a non-empty string")
  else if negb (truthy (ev_event_kind e))
  then Raise (ValueError "event_kind must be a non-empty string")
  else if ev_schema_version e <? 1
  then Raise (ValueError "schema_version must be a positive integer")
  else if ev_depth e <? 0 then Raise (ValueError "depth must be >= 0")
  else if negb (text_when_set (ev_root_event_id e)) then Raise (ValueError "root_event_id")
  else if negb (text_when_set (ev_conversation_id e)) then Raise (ValueError "conversation_id")
  else if negb (forallb truthy (ev_lineage e)) then Raise (ValueError "lineage")
  else Ok tt.

Definition CanonicalEvent_init (e : CanonicalEvent) : result exc CanonicalEvent :=
  columns_ok e ≫= fun _ => Ok e.

(** ** Schema versions *)

Definition CURRENT_SCHEMA_VERSION : Z := 1.

Definition schema_version_from_event (payload : list (string * json)) : result exc Z :=
  match od_get "schema_version" payload with
  | None => Ok CURRENT_SCHEMA_VERSION
  | Some (JInt n) => if 1 <=? n then Ok n
                     else Raise (ValueError "schema_version must be a positive integer")
  | Some _ => Raise (ValueError "schema_version must be a positive integer")
  end.

(** ** Separated text *)

Definition is_str (j : option json) : bool :=
  match j with Some (JStr _) => true | _ => false end.

(** [body] is text, or [body] is absent and [text] is text. *)
Definition body_present (payload : list (string * json)) : bool :=
  is_str (od_get "body" payload) ||
  (bool_decide (od_get "body" payload = None) && is_str (od_get "text" payload)).

Definition BODY_FIELDS : list string := ["body"; "text"].

Definition body_texts (payload : list (string * json)) : list (string * string) :=
  omap (fun key => match od_get key payload with Some (JStr s) => Some (key, s) | _ => None end)
    BODY_FIELDS.

Definition envelope_payload (payload : list (string * json)) : list (string * json) :=
  filter (fun kv => negb (elem kv.1 BODY_FIELDS) || negb (is_str (Some kv.2)) = true) payload.

(** ** Metadata documents *)

Definition serialize_metadata (m : EventMetadata) : list (string * json) :=
  omap (fun kv => pair kv.1 <$> kv.2)
    [("transport", JObj <$> em_transport m); ("radio", JObj <$> em_radio m);
     ("telemetry", JObj <$> em_telemetry m); ("native", JObj <$> em_native m);
     ("custom", if nonempty (em_custom m) then Some (JObj (em_custom m)) else None)].

Definition json_opt_str (o : option string) : json := match o with Some s => JStr s | None => JNull end.

Definition routing_json (r : RoutingMetadata) : json :=
  JObj [("matched_routes", JArr (JStr <$> rm_matched_routes r));
        ("fanout_group", json_opt_str (rm_fanout_group r));
        ("route_trace", JArr (JStr <$> rm_route_trace r))].

Definition decode_str (j : json) : result exc string :=
  match j with JStr s => Ok s | _ => Raise (ValueError "expected str") end.

Fixpoint decode_all {A B} (f : A -> result exc B) (xs : list A) : result exc (list B) :=
  match xs with
  | [] => Ok []
  | x :: rest => y ← f x; ys ← decode_all f rest; Ok (y :: ys)
  end.

Definition decode_strs (j : option json) : result exc (list string) :=
  match j with
  | None => Ok []
  | Some (JArr xs) => decode_all decode_str xs
  | Some _ => Raise (ValueError "expected array")
  end.

Definition decode_opt_str (j : option json) : result exc (option string) :=
  match j with
  | None | Some JNull => Ok None
  | Some (JStr s) => Ok (Some s)
  | Some _ => Raise (ValueError "expected str or null")
  end.

Definition decode_namespace (j : option json) : result exc (option (list (string * json))) :=
  match j with
  | None | Some JNull => Ok None
  | Some (JObj kvs) => Ok (Some kvs)
  | Some _ => Raise (ValueError "expected object")
  end.

Definition decode_routing (j : option json) : result exc (option RoutingMetadata) :=
  match j with
  | None | Some JNull => Ok None
  | Some (JObj kvs) =>
      matched ← decode_strs (od_get "matched_routes" kvs);
      group ← decode_opt_str (od_get "fanout_group" kvs);
      trace ← decode_strs (od_get "route_trace" kvs);
      Ok (Some {| rm_matched_routes := matched; rm_fanout_group := group;
                  rm_route_trace := trace |})
  | Some _ => Raise (ValueError "expected object")
  end.

Definition deserialize_metadata (doc : list (string * json)) : result exc EventMetadata :=
  transport ← decode_namespace (od_get "transport" doc);
  routing ← decode_routing (od_get "routing" doc);
  radio ← decode_namespace (od_get "radio" doc);
  telemetry ← decode_namespace (od_get "telemetry" doc);
  native ← decode_namespace (od_get "native" doc);
  custom ← match od_get "custom" doc with
           | None => Ok []
           | Some (JObj kvs) => Ok kvs
           | Some _ => Raise (ValueError "expected object")
           end;
  Ok {| em_transport := transport; em_routing := routing; em_radio := radio;
        em_telemetry := telemetry; em_native := native; em_custom := custom |}.

(** ** Rows *)

(** Native references are split over four nullable columns. *)
Record NativeColumns : Set := {
  nc_adapter : option string;
  nc_channel : option string;
  nc_message : option string;
  nc_thread : option string
}.

Definition split_native (n : option NativeRef) : NativeColumns :=
  {| nc_adapter := nf_adapter <$> n; nc_channel := n ≫= nf_channel;
     nc_message := nf_message <$> n; nc_thread := n ≫= nf_thread |}.

Definition join_native (c : NativeColumns) : option NativeRef :=
  match nc_adapter c, nc_message c with
  | Some a, Some m =>
      if truthy a && truthy m
      then Some {| nf_adapter := a; nf_channel := nc_channel c; nf_message := m;
                   nf_thread := nc_thread c |}
      else None
  | _, _ => None
  end.

Record EventRow : Type := {
  ew_columns :> EventColumns;
  ew_payload : list (string * json);
  ew_metadata : list (string * json);
  ew_native : NativeColumns;
  ew_created_at : instant
}.

Record RelationRow : Type := {
  rw_id : Z;
  rw_event_id : string;
  rw_type : string;
  rw_target_event : option string;
  rw_native : NativeColumns;
  rw_key : option string;
  rw_metadata : list (string * json);
  rw_created_at : instant
}.

(** [_INSERT_EVENT] and its parameters. *)
Definition event_row (e : CanonicalEvent) (now : instant) : EventRow :=
  {| ew_columns := e; ew_payload := envelope_payload (ev_payload e);
     ew_metadata := serialize_metadata (ev_metadata e);
     ew_native := split_native (ev_source_native_ref e); ew_created_at := now |}.

Definition relation_row (id : Z) (event : string) (r : EventRelation) (now : instant) : RelationRow :=
  {| rw_id := id; rw_event_id := event; rw_type := rl_type r;
     rw_target_event := rl_target_event r; rw_native := split_native (rl_target_native r);
     rw_key := rl_key r; rw_metadata := rl_metadata r; rw_created_at := now |}.

Definition row_to_relation (w : RelationRow) (excerpt : option string) : result exc EventRelation :=
  EventRelation_init
    {| rl_type := rw_type w; rl_target_event := rw_target_event w;
       rl_target_native := join_native (rw_native w); rl_key := rw_key w;
       rl_fallback_text := excerpt; rl_metadata := rw_metadata w |}.

(** [_row_to_event] on a projected row: the payload and metadata documents the
    projection selected. *)
Definition row_to_event (w : EventRow) (payload metadata : list (string * json))
    (relations : list EventRelation) : result exc CanonicalEvent :=
  decoded ← deserialize_metadata metadata;
  CanonicalEvent_init
    {| ev_columns := w; ev_relations := relations; ev_payload := payload;
       ev_metadata := decoded; ev_source_native_ref := join_native (ew_native w) |}.
