(* ===== verification/ContentStore.v ===== *)
(** * The event and content tables

    [src/src/medre/core/storage/sqlite/]: canonical events with their separated
    text, routing facts, relations and excerpts ([schema.py], [_event.py],
    [_relation.py], [_content_identity.py], [_projections.py]), and the tables
    durable ingress and content access work on.  A [cdb] extends the delivery
    database [db] of [Store]: [canonical_events] of the core is the key column
    of [event_rows], and [access_policies] of the core holds the ceiling
    column of the policies whose other columns are [policy_terms].

    Statements that only read the clock for a [created_at] column use the
    operation's own clock reading. *)

From S2P Require Import Prelude.
From S2P Require Import Json.
From S2P Require Import DeliveryState.
From S2P Require Import Delivery.
From S2P Require Import Store.
From S2P Require Import Events.

Open Scope string_scope.
Open Scope list_scope.
Open Scope Z_scope.

(** ** Tables *)

Record BodyRow : Set := { bd_event_id : string; bd_field : string; bd_body : string }.

Inductive WorkStatus : Set :=
| WPending | WProcessing | WSuppressedHistory | WCompleted | WFailed.

#[export] Instance WorkStatus_eq_dec : EqDecision WorkStatus.
Proof. solve_decision. Defined.

Record WorkRow : Set := {
  wk_event_id : string;
  wk_provenance : string;
  wk_status : WorkStatus;
  wk_attempts : Z;
  wk_last_error : option string;
  wk_created_at : instant;
  wk_updated_at : instant;
  wk_locked_at : option instant;
  wk_lease_until : option instant;
  wk_worker_id : option string
}.

Record Checkpoint : Set := {
  ck_adapter_id : string;
  ck_stream : string;
  ck_cursor : string;
  ck_metadata : string;
  ck_updated_at : instant
}.

Record Blob : Set := {
  bl_content_ref : string;
  bl_size_bytes : Z;
  bl_media_kind : option string;
  bl_mime_type : option string;
  bl_created_at : instant;
  bl_data : string
}.

Record PolicyTerms : Set := { pt_allowed_consumers : list string; pt_max_optional_hold : Z }.

Record Grant : Set := {
  gr_event_id : string;
  gr_consumer : string;
  gr_issued_at : instant;
  gr_expires_at : instant;
  gr_revoked_at : option instant;
  gr_expired_at : option instant
}.

#[export] Instance PolicyTerms_eq_dec : EqDecision PolicyTerms.
Proof. solve_decision. Defined.

(** The immutable record of one logical collection. *)
Record CollectionRecord : Set := {
  cl_event_id : string;
  cl_collected_at : instant;
  cl_rows_removed : Z;
  cl_bytes_removed : Z
}.

(** [content_retention_epochs]; the mode is always relay-only. *)
Record RetentionEpoch : Set := {
  ep_epoch : Z;
  ep_activated_at : instant;
  ep_watermark : option instant;
  ep_last_observed : option instant;
  ep_activated_by : string
}.

Record cdb : Type := {
  core : db;
  event_rows : list EventRow;
  routing_facts : list (string * RoutingMetadata);
  body_identity : list (string * bool);
  body_content : list BodyRow;
  relation_rows : list RelationRow;
  relation_excerpts : list (Z * string);
  ingress_work : list WorkRow;
  checkpoints : list Checkpoint;
  blobs : list Blob;
  associations : list (string * string);
  policy_terms : list (string * PolicyTerms);
  grants : list Grant;
  collection_log : list CollectionRecord;
  retention_epochs : list RetentionEpoch
}.

(** A table is assigned whole; the others are kept. *)
Definition set_core (c : cdb) (x : db) : cdb :=
  {| core := x; event_rows := event_rows c; routing_facts := routing_facts c; body_identity :=
     body_identity c; body_content := body_content c; relation_rows := relation_rows c;
     relation_excerpts := relation_excerpts c; ingress_work := ingress_work c; checkpoints :=
     checkpoints c; blobs := blobs c; associations := associations c; policy_terms := policy_terms
     c; grants := grants c; collection_log := collection_log c; retention_epochs :=
     retention_epochs c |}.
Definition set_event_rows (c : cdb) (x : list EventRow) : cdb :=
  {| core := core c; event_rows := x; routing_facts := routing_facts c; body_identity :=
     body_identity c; body_content := body_content c; relation_rows := relation_rows c;
     relation_excerpts := relation_excerpts c; ingress_work := ingress_work c; checkpoints :=
     checkpoints c; blobs := blobs c; associations := associations c; policy_terms := policy_terms
     c; grants := grants c; collection_log := collection_log c; retention_epochs :=
     retention_epochs c |}.
Definition set_routing_facts (c : cdb) (x : list (string * RoutingMetadata)) : cdb :=
  {| core := core c; event_rows := event_rows c; routing_facts := x; body_identity :=
     body_identity c; body_content := body_content c; relation_rows := relation_rows c;
     relation_excerpts := relation_excerpts c; ingress_work := ingress_work c; checkpoints :=
     checkpoints c; blobs := blobs c; associations := associations c; policy_terms := policy_terms
     c; grants := grants c; collection_log := collection_log c; retention_epochs :=
     retention_epochs c |}.
Definition set_body_identity (c : cdb) (x : list (string * bool)) : cdb :=
  {| core := core c; event_rows := event_rows c; routing_facts := routing_facts c; body_identity
     := x; body_content := body_content c; relation_rows := relation_rows c; relation_excerpts :=
     relation_excerpts c; ingress_work := ingress_work c; checkpoints := checkpoints c; blobs :=
     blobs c; associations := associations c; policy_terms := policy_terms c; grants := grants c;
     collection_log := collection_log c; retention_epochs := retention_epochs c |}.
Definition set_body_content (c : cdb) (x : list BodyRow) : cdb :=
  {| core := core c; event_rows := event_rows c; routing_facts := routing_facts c; body_identity
     := body_identity c; body_content := x; relation_rows := relation_rows c; relation_excerpts :=
     relation_excerpts c; ingress_work := ingress_work c; checkpoints := checkpoints c; blobs :=
     blobs c; associations := associations c; policy_terms := policy_terms c; grants := grants c;
     collection_log := collection_log c; retention_epochs := retention_epochs c |}.
Definition set_relation_rows (c : cdb) (x : list RelationRow) : cdb :=
  {| core := core c; event_rows := event_rows c; routing_facts := routing_facts c; body_identity
     := body_identity c; body_content := body_content c; relation_rows := x; relation_excerpts :=
     relation_excerpts c; ingress_work := ingress_work c; checkpoints := checkpoints c; blobs :=
     blobs c; associations := associations c; policy_terms := policy_terms c; grants := grants c;
     collection_log := collection_log c; retention_epochs := retention_epochs c |}.
Definition set_relation_excerpts (c : cdb) (x : list (Z * string)) : cdb :=
  {| core := core c; event_rows := event_rows c; routing_facts := routing_facts c; body_identity
     := body_identity c; body_content := body_content c; relation_rows := relation_rows c;
     relation_excerpts := x; ingress_work := ingress_work c; checkpoints := checkpoints c; blobs :=
     blobs c; associations := associations c; policy_terms := policy_terms c; grants := grants c;
     collection_log := collection_log c; retention_epochs := retention_epochs c |}.
Definition set_ingress_work (c : cdb) (x : list WorkRow) : cdb :=
  {| core := core c; event_rows := event_rows c; routing_facts := routing_facts c; body_identity
     := body_identity c; body_content := body_content c; relation_rows := relation_rows c;
     relation_excerpts := relation_excerpts c; ingress_work := x; checkpoints := checkpoints c;
     blobs := blobs c; associations := associations c; policy_terms := policy_terms c; grants :=
     grants c; collection_log := collection_log c; retention_epochs := retention_epochs c |}.
Definition set_checkpoints (c : cdb) (x : list Checkpoint) : cdb :=
  {| core := core c; event_rows := event_rows c; routing_facts := routing_facts c; body_identity
     := body_identity c; body_content := body_content c; relation_rows := relation_rows c;
     relation_excerpts := relation_excerpts c; ingress_work := ingress_work c; checkpoints := x;
     blobs := blobs c; associations := associations c; policy_terms := policy_terms c; grants :=
     grants c; collection_log := collection_log c; retention_epochs := retention_epochs c |}.
Definition set_blobs (c : cdb) (x : list Blob) : cdb :=
  {| core := core c; event_rows := event_rows c; routing_facts := routing_facts c; body_identity
     := body_identity c; body_content := body_content c; relation_rows := relation_rows c;
     relation_excerpts := relation_excerpts c; ingress_work := ingress_work c; checkpoints :=
     checkpoints c; blobs := x; associations := associations c; policy_terms := policy_terms c;
     grants := grants c; collection_log := collection_log c; retention_epochs := retention_epochs c
     |}.
Definition set_associations (c : cdb) (x : list (string * string)) : cdb :=
  {| core := core c; event_rows := event_rows c; routing_facts := routing_facts c; body_identity
     := body_identity c; body_content := body_content c; relation_rows := relation_rows c;
     relation_excerpts := relation_excerpts c; ingress_work := ingress_work c; checkpoints :=
     checkpoints c; blobs := blobs c; associations := x; policy_terms := policy_terms c; grants :=
     grants c; collection_log := collection_log c; retention_epochs := retention_epochs c |}.
Definition set_policy_terms (c : cdb) (x : list (string * PolicyTerms)) : cdb :=
  {| core := core c; event_rows := event_rows c; routing_facts := routing_facts c; body_identity
     := body_identity c; body_content := body_content c; relation_rows := relation_rows c;
     relation_excerpts := relation_excerpts c; ingress_work := ingress_work c; checkpoints :=
     checkpoints c; blobs := blobs c; associations := associations c; policy_terms := x; grants :=
     grants c; collection_log := collection_log c; retention_epochs := retention_epochs c |}.
Definition set_grants (c : cdb) (x : list Grant) : cdb :=
  {| core := core c; event_rows := event_rows c; routing_facts := routing_facts c; body_identity
     := body_identity c; body_content := body_content c; relation_rows := relation_rows c;
     relation_excerpts := relation_excerpts c; ingress_work := ingress_work c; checkpoints :=
     checkpoints c; blobs := blobs c; associations := associations c; policy_terms := policy_terms
     c; grants := x; collection_log := collection_log c; retention_epochs := retention_epochs c |}.
Definition set_collection_log (c : cdb) (x : list CollectionRecord) : cdb :=
  {| core := core c; event_rows := event_rows c; routing_facts := routing_facts c; body_identity
     := body_identity c; body_content := body_content c; relation_rows := relation_rows c;
     relation_excerpts := relation_excerpts c; ingress_work := ingress_work c; checkpoints :=
     checkpoints c; blobs := blobs c; associations := associations c; policy_terms := policy_terms
     c; grants := grants c; collection_log := x; retention_epochs := retention_epochs c |}.
Definition set_retention_epochs (c : cdb) (x : list RetentionEpoch) : cdb :=
  {| core := core c; event_rows := event_rows c; routing_facts := routing_facts c; body_identity
     := body_identity c; body_content := body_content c; relation_rows := relation_rows c;
     relation_excerpts := relation_excerpts c; ingress_work := ingress_work c; checkpoints :=
     checkpoints c; blobs := blobs c; associations := associations c; policy_terms := policy_terms
     c; grants := grants c; collection_log := collection_log c; retention_epochs := x |}.

Definition empty_cdb : cdb :=
  {| core := empty_db; event_rows := []; routing_facts := []; body_identity := []; body_content := [];
     relation_rows := []; relation_excerpts := []; ingress_work := []; checkpoints := []; blobs := [];
     associations := []; policy_terms := []; grants := []; collection_log := [];
     retention_epochs := [] |}.

(** ** Transactions *)

Definition ctx (A : Type) : Type := cdb -> result exc (A * cdb).

#[export] Instance ctx_ret : MRet ctx := fun A a c => Ok (a, c).
#[export] Instance ctx_bind : MBind ctx :=
  fun A B k m c => match m c with Ok (a, c') => k a c' | Raise e => Raise e end.

Definition craise {A} (e : exc) : ctx A := fun _ => Raise e.
Definition cget {A} (f : cdb -> A) : ctx A := fun c => Ok (f c, c).
Definition cmodify (f : cdb -> cdb) : ctx unit := fun c => Ok (tt, f c).
Definition cwhen (b : bool) (m : ctx unit) : ctx unit := if b then m else mret tt.

(** A statement on the delivery tables. *)
Definition on_core {A} (m : tx A) : ctx A := fun c =>
  match m (core c) with
  | Ok (a, d) => Ok (a, set_core c d)
  | Raise e => Raise e
  end.

Definition catomically {A} (m : ctx A) (c : cdb) : result exc A * cdb :=
  match m c with
  | Ok (a, c') => (Ok a, c')
  | Raise e => (Raise e, c)
  end.

(** ** Statements *)

Definition event_exists (c : cdb) (id : string) : bool := elem id (canonical_events (core c)).

Definition add_event_id (d : db) (id : string) : db :=
  {| canonical_events := canonical_events d ++ [id]; outbox := outbox d; snapshots := snapshots d;
     diagnostics := diagnostics d; dependencies := dependencies d;
     access_policies := access_policies d; receipts := receipts d; native_refs := native_refs d |}.

(** [_INSERT_EVENT]. *)
Definition insert_event (w : EventRow) : ctx unit := fun c =>
  if event_exists c (ev_event_id w) then Raise EventKeyError
  else Ok (tt, set_event_rows (set_core c (add_event_id (core c) (ev_event_id w)))
                 (event_rows c ++ [w])).

(** [body_admission_op] . *)
Definition insert_body_identity (id : string) (present : bool) : ctx unit := fun c =>
  if elem id (od_keys (body_identity c)) then Raise IntegrityError
  else if negb (event_exists c id) then Raise ForeignKeyError
  else Ok (tt, set_body_identity c (body_identity c ++ [(id, present)])).

(** [body_content_ops]: one row per text field. *)
Definition insert_body_content (id : string) (field : string) (body : string) : ctx unit := fun c =>
  if existsb (fun b => bool_decide (bd_event_id b = id) && bool_decide (bd_field b = field))
       (body_content c) || negb (elem field BODY_FIELDS) then Raise IntegrityError
  else if negb (event_exists c id) then Raise ForeignKeyError
  else Ok (tt, set_body_content c
             (body_content c ++ [{| bd_event_id := id; bd_field := field; bd_body := body |}])).

(** [_ROUTING_FACTS_INSERT] with the bound on the trace. *)
Definition insert_routing_facts (id : string) (r : RoutingMetadata) : ctx unit := fun c =>
  if elem id (od_keys (routing_facts c)) || (16 <? Z.of_nat (length (rm_route_trace r)))
  then Raise IntegrityError
  else if negb (event_exists c id) then Raise ForeignKeyError
  else Ok (tt, set_routing_facts c (routing_facts c ++ [(id, r)])).

(** [_INSERT_RELATION] and its [last_insert_rowid()]: no statement deletes a
    relation, so the AUTOINCREMENT key is the row's position. *)
Definition insert_relation (id : string) (r : EventRelation) (now : instant) : ctx Z := fun c =>
  let key := Z.of_nat (length (relation_rows c)) + 1 in
  if negb (event_exists c id) then Raise ForeignKeyError
  else Ok (key, set_relation_rows c (relation_rows c ++ [relation_row key id r now])).

(** [_relation_excerpt_op]. *)
Definition insert_excerpt (key : Z) (text : option string) : ctx unit := fun c =>
  match text with
  | None => Ok (tt, c)
  | Some s => if elem key (od_keys (relation_excerpts c)) then Raise IntegrityError
              else Ok (tt, set_relation_excerpts c (relation_excerpts c ++ [(key, s)]))
  end.

Definition store_relation_ops (id : string) (r : EventRelation) (now : instant) : ctx unit :=
  key ← insert_relation id r now; insert_excerpt key (rl_fallback_text r).

Fixpoint run_all {A} (f : A -> ctx unit) (xs : list A) : ctx unit :=
  match xs with [] => mret tt | x :: rest => f x ;; run_all f rest end.

(** [ingress_dependency_op]. *)
Definition source_dependency (id kind : string) (now : instant) (deadline : option instant)
    : Dependency :=
  {| dp_event_id := id; dp_owner_kind := kind; dp_owner_id := id; dp_acquired_at := now;
     dp_deadline := deadline; dp_released_at := None |}.

(** The statements one admission runs for the event itself. *)
Definition event_admission_ops (e : CanonicalEvent) (owner_kind : string) (now : instant)
    (deadline : option instant) : ctx unit :=
  let id := ev_event_id e in
  insert_event (event_row e now) ;;
  insert_body_identity id (body_present (ev_payload e)) ;;
  run_all (fun fb => insert_body_content id fb.1 fb.2) (body_texts (ev_payload e)) ;;
  match em_routing (ev_metadata e) with
  | Some r => insert_routing_facts id r
  | None => mret tt
  end ;;
  run_all (fun r => store_relation_ops id r now) (ev_relations e) ;;
  on_core (insert_dependency (source_dependency id owner_kind now deadline)).

(** The [except] clauses of [_write_batch] and of admission. *)
Definition wrap_event_error {A} (r : result exc A * cdb) : result exc A * cdb :=
  match r with
  | (Raise EventKeyError, c) => (Raise DuplicateEventError, c)
  | (Raise IntegrityError, c) | (Raise ForeignKeyError, c) =>
      (Raise (StorageError "Database write failed"), c)
  | _ => r
  end.

(** [append]. *)
Definition append_event (e : CanonicalEvent) (now : instant) (c : cdb) : result exc unit * cdb :=
  wrap_event_error (catomically (event_admission_ops e "append" now None) c).

(** [store_relation]. *)
Definition store_relation (id : string) (r : EventRelation) (now : instant) (c : cdb)
    : result exc unit * cdb :=
  wrap_event_error (catomically (store_relation_ops id r now) c).

(** ** Reads *)

Definition find_event (c : cdb) (id : string) : option EventRow :=
  List.find (fun w : EventRow => bool_decide (ev_event_id w = id)) (event_rows c).

(** The routing namespace of a row: the typed facts win over the inline
    value. *)
Definition composed_routing (c : cdb) (w : EventRow) : json :=
  match od_get (ev_event_id w) (routing_facts c) with
  | Some r => routing_json r
  | None => default JNull (od_get "routing" (ew_metadata w))
  end.

Definition relations_of (c : cdb) (id : string) : list RelationRow :=
  filter (fun w => rw_event_id w = id) (relation_rows c).

(** [RELATION_COLUMNS]: no key, no metadata, no excerpt. *)
Definition bare_relation (w : RelationRow) : RelationRow :=
  {| rw_id := rw_id w; rw_event_id := rw_event_id w; rw_type := rw_type w;
     rw_target_event := rw_target_event w; rw_native := rw_native w; rw_key := None;
     rw_metadata := []; rw_created_at := rw_created_at w |}.

(** [get_envelope]: the metadata-only projection. *)
Definition get_envelope (c : cdb) (id : string) : result exc (option CanonicalEvent) :=
  match find_event c id with
  | None => Ok None
  | Some w =>
      rels ← decode_all (fun r => row_to_relation (bare_relation r) None) (relations_of c id);
      Some <$> row_to_event w [] [("routing", composed_routing c w)] rels
  end.

(** Distinct sources in the order of their first relation row. *)
Definition list_relation_sources (c : cdb) (target : string) : list string :=
  reverse (remove_dups (reverse
    (rw_event_id <$> filter (fun w => rw_target_event w = Some target) (relation_rows c)))).


(** [list_event_ids_page]: one lexicographic page after a key. *)
Definition list_event_ids_page (c : cdb) (after : option string) (limit : Z)
    : result exc (list string) :=
  if limit <? 1 then Raise (ValueError "event ID page limit must be positive")
  else Ok (take (Z.to_nat limit)
             (sorted_by String.leb
                (filter (fun id => match after with
                                   | None => true
                                   | Some a => String.ltb a id
                                   end = true) (canonical_events (core c))))).

(** [get_body_presence_at_admission]. *)
Definition get_body_presence_at_admission (c : cdb) (id : string) : result exc (option bool) :=
  if negb (truthy id) then Raise (ValueError "A non-empty event identifier is required")
  else if negb (event_exists c id) then Ok None
  else match od_get id (body_identity c) with
       | Some present => Ok (Some present)
       | None => Raise (StorageError "Admitted event has no valid body identity")
       end.
