(* ===== verification/Ingress.v ===== *)
(** * Durable ingress storage

    [src/src/medre/core/storage/sqlite/_ingress.py], its statements
    ([ingress_sql.py]) and transactions ([connection.py]), the value types of
    [core/ingress/types.py] and the byte bounds of [core/ingress/content.py]:
    admission of an event with its native identity, its attachment bytes and
    its work marker in one transaction, the claims on that work, and the
    adapter checkpoints.  The clock reading is the argument [now]; leases are
    microseconds.

    [hashlib.sha256(...).hexdigest] and [json.loads] are arguments. *)

From S2P Require Import Prelude.
From S2P Require Import Json.
From S2P Require Import DeliveryState.
From S2P Require Import Delivery.
From S2P Require Import Store.
From S2P Require Import Attachments.
From S2P Require Import Events.
From S2P Require Import ContentStore.

Open Scope string_scope.
Open Scope list_scope.
Open Scope Z_scope.

(** ** Values *)

Definition INGRESS_PROVENANCE_VALUES : list string := ["live"; "recovered"; "history"].

Definition work_status_str (s : WorkStatus) : string :=
  match s with
  | WPending => "pending"
  | WProcessing => "processing"
  | WSuppressedHistory => "suppressed_history"
  | WCompleted => "completed"
  | WFailed => "failed"
  end.

Definition all_work_statuses : list WorkStatus :=
  [WPending; WProcessing; WSuppressedHistory; WCompleted; WFailed].

Record AttachmentAdmissionFact : Set := {
  af_retained : bool;
  af_content_ref : option string;
  af_size_bytes : option Z;
  af_reason : option string
}.

Record AdmissionResult : Set := {
  ar_event_id : string;
  ar_created : bool;
  ar_provenance : string;
  ar_work_status : WorkStatus;
  ar_attachment : option AttachmentAdmissionFact
}.

Record AttachmentLimits : Set := { max_attachment_bytes : Z; max_retained_bytes : Z }.

Definition default_limits : AttachmentLimits :=
  {| max_attachment_bytes := 10485760; max_retained_bytes := 268435456 |}.

Definition AttachmentLimits_init (l : AttachmentLimits) : result exc AttachmentLimits :=
  if (max_attachment_bytes l <=? 0) || (max_retained_bytes l <=? 0)
  then Raise (ValueError "must be a positive integer") else Ok l.

(** ** Statements *)

Definition find_work (c : cdb) (id : string) : option WorkRow :=
  List.find (fun w => bool_decide (wk_event_id w = id)) (ingress_work c).

(** [INSERT_INGRESS_WORK]. *)
Definition insert_ingress_work (id provenance : string) (status : WorkStatus) (now : instant)
    : ctx unit := fun c =>
  if elem id (wk_event_id <$> ingress_work c) then Raise IntegrityError
  else if negb (event_exists c id) then Raise ForeignKeyError
  else Ok (tt, set_ingress_work c (ingress_work c ++
         [{| wk_event_id := id; wk_provenance := provenance; wk_status := status; wk_attempts := 0;
             wk_last_error := None; wk_created_at := now; wk_updated_at := now;
             wk_locked_at := None; wk_lease_until := None; wk_worker_id := None |}])).

(** UPDATE durable_ingress_work SET ... WHERE ...; returns the rowcount. *)
Definition update_work (where_ : WorkRow -> bool) (set_ : WorkRow -> WorkRow) : ctx Z := fun c =>
  Ok (Z.of_nat (length (filter (fun w => where_ w = true) (ingress_work c))),
      set_ingress_work c ((fun w => if where_ w then set_ w else w) <$> ingress_work c)).

(** The guard of every owner statement. *)
Definition work_owned_by (id worker : string) (w : WorkRow) : bool :=
  bool_decide (wk_event_id w = id) && bool_decide (wk_status w = WProcessing) &&
  bool_decide (wk_worker_id w = Some worker).

(** The row an owner statement leaves: unlocked, with a new status. *)
Definition unlock_work (status : WorkStatus) (attempts : Z) (last_error : option string)
    (now : instant) (w : WorkRow) : WorkRow :=
  {| wk_event_id := wk_event_id w; wk_provenance := wk_provenance w; wk_status := status;
     wk_attempts := attempts; wk_last_error := last_error; wk_created_at := wk_created_at w;
     wk_updated_at := now; wk_locked_at := None; wk_lease_until := None; wk_worker_id := None |}.

(** [_INSERT_INGRESS_DIAGNOSTIC]: keyed by the committed attempt count. *)
Definition insert_ingress_diagnostic (error : string) (now : instant) (id : string) : ctx unit :=
  fun c => match find_work c id with
           | None => Ok (tt, c)
           | Some w => on_core (insert_diagnostic
               {| dg_family := "ingress"; dg_row_id := id; dg_attempt := wk_attempts w;
                  dg_field := "last_error"; dg_text := error; dg_created_at := now |}) c
           end.

(** ** Attachments of an admission *)

Definition insert_blob (b : Blob) : ctx unit := fun c =>
  if elem (bl_content_ref b) (bl_content_ref <$> blobs c) then Ok (tt, c)
  else Ok (tt, set_blobs c (blobs c ++ [b])).

Definition insert_association (id ref : string) : ctx unit := fun c =>
  if elem id (od_keys (associations c)) then Raise IntegrityError
  else if negb (event_exists c id) || negb (elem ref (bl_content_ref <$> blobs c))
  then Raise ForeignKeyError
  else Ok (tt, set_associations c (associations c ++ [(id, ref)])).

Definition retained_bytes (c : cdb) : Z := foldr Z.add 0 (bl_size_bytes <$> blobs c).

Record AttachmentAdmissionPlan : Type := {
  ap_content_ref : string;
  ap_size_bytes : Z;
  ap_max_retained_bytes : Z;
  ap_retained_event : CanonicalEvent;
  ap_unavailable_event : CanonicalEvent;
  ap_retain : option Blob;
  ap_forced_unavailable_reason : option string
}.

Definition make_fact (p : AttachmentAdmissionPlan) (kept : bool) (why : option string)
    : AttachmentAdmissionFact :=
  {| af_retained := kept; af_content_ref := if kept then Some (ap_content_ref p) else None;
     af_size_bytes := Some (ap_size_bytes p); af_reason := if kept then None else why |}.

(** [_existing_attachment_fact] and [_attachment_fact_for_event]. *)
Definition existing_attachment_fact (c : cdb) (id : string) : option AttachmentAdmissionFact :=
  ref ← od_get id (associations c);
  b ← List.find (fun b => bool_decide (bl_content_ref b = ref)) (blobs c);
  Some {| af_retained := true; af_content_ref := Some ref;
          af_size_bytes := Some (bl_size_bytes b); af_reason := None |}.

Definition with_payload (e : CanonicalEvent) (payload : list (string * json)) : CanonicalEvent :=
  {| ev_columns := e; ev_relations := ev_relations e; ev_payload := payload;
     ev_metadata := ev_metadata e; ev_source_native_ref := ev_source_native_ref e |}.

Definition event_with_attachment_descriptor (e : CanonicalEvent) (d : AttachmentDescriptor)
    : result exc CanonicalEvent :=
  payload ← to_payload d;
  Ok (with_payload e (od_set ATTACHMENT_PAYLOAD_KEY (JObj payload) (ev_payload e))).

Section hashing.
Context (sha256 : string -> string).

Definition content_ref_of (data : string) : string := "sha256:" +:+ sha256 data.

Definition build_attachment_plan (e : CanonicalEvent) (data : string) (limits : AttachmentLimits)
    (now : instant) : result exc AttachmentAdmissionPlan :=
  declared ← declared_descriptor_from_event_payload (ev_payload e);
  match declared with
  | None => Raise (ValueError "attachment bytes supplied for an event without a declared descriptor")
  | Some d =>
      let measured := Z.of_nat (String.length data) in
      let ref := content_ref_of data in
      if max_attachment_bytes limits <? measured then
        unavailable ← with_unavailable d "oversized";
        e' ← event_with_attachment_descriptor e unavailable;
        Ok {| ap_content_ref := ref; ap_size_bytes := measured;
              ap_max_retained_bytes := max_retained_bytes limits; ap_retained_event := e';
              ap_unavailable_event := e'; ap_retain := None;
              ap_forced_unavailable_reason := Some "oversized" |}
      else
        kept ← event_with_attachment_descriptor e (with_retained_content d ref measured);
        over ← with_unavailable d "quota_exceeded";
        quota ← event_with_attachment_descriptor e over;
        Ok {| ap_content_ref := ref; ap_size_bytes := measured;
              ap_max_retained_bytes := max_retained_bytes limits; ap_retained_event := kept;
              ap_unavailable_event := quota;
              ap_retain := Some {| bl_content_ref := ref; bl_size_bytes := measured;
                                   bl_media_kind := Some (ad_kind d);
                                   bl_mime_type := ad_mime_type d; bl_created_at := now;
                                   bl_data := data |};
              ap_forced_unavailable_reason := None |}
  end.

(** ** Admission *)

(** The retention decision taken inside the transaction. *)
Definition retention_decision (p : AttachmentAdmissionPlan) (c : cdb) : bool * option string :=
  match ap_forced_unavailable_reason p with
  | Some why => (false, Some why)
  | None =>
      if elem (ap_content_ref p) (bl_content_ref <$> blobs c) then (true, None)
      else if ap_max_retained_bytes p <? retained_bytes c + ap_size_bytes p
      then (false, Some "quota_exceeded") else (true, None)
  end.

Definition existing_event (c : cdb) (native : option NativeMessageRef) (id : string)
    : option string :=
  match native with
  | Some n => resolve_native_ref (core c) (native_ref_identity n)
  | None => if event_exists c id then Some id else None
  end.

Definition add_policy (d : db) (id : string) (ceiling : instant) : db :=
  {| canonical_events := canonical_events d; outbox := outbox d; snapshots := snapshots d;
     diagnostics := diagnostics d; dependencies := dependencies d;
     access_policies := access_policies d ++ [(id, ceiling)]; receipts := receipts d;
     native_refs := native_refs d |}.

(** INSERT INTO event_content_access_policies. *)
Definition insert_policy (id : string) (ceiling : instant) (terms : PolicyTerms) : ctx unit := fun c =>
  if elem id (od_keys (access_policies (core c))) || (pt_max_optional_hold terms <=? 0)
  then Raise IntegrityError
  else if negb (event_exists c id) then Raise ForeignKeyError
  else Ok (tt, set_policy_terms (set_core c (add_policy (core c) id ceiling))
                 (policy_terms c ++ [(id, terms)])).

(** The ceiling row to install, unless the same ceiling is installed already. *)
Definition ceiling_to_install (id : string) (ceiling : option (instant * Z))
    : ctx (option (instant * Z)) :=
  match ceiling with
  | None => mret None
  | Some (at_, hold) =>
      installed ← cget (fun c => od_get id (access_policies (core c)));
      match installed with
      | Some existing => if existing =? at_ then mret None else craise ContentCeilingMismatchError
      | None => mret (Some (at_, hold))
      end
  end.

Definition chosen_event (e : CanonicalEvent) (plan : option AttachmentAdmissionPlan)
    (decision : bool * option string) : CanonicalEvent :=
  match plan with
  | None => e
  | Some p => if decision.1 then ap_retained_event p else ap_unavailable_event p
  end.

Definition retain_ops (id : string) (b : Blob) : ctx unit :=
  insert_blob b ;; insert_association id (bl_content_ref b).

Definition optionally {A} (o : option A) (f : A -> ctx unit) : ctx unit :=
  match o with Some a => f a | None => mret tt end.

Definition admit_new (e : CanonicalEvent) (native : option NativeMessageRef) (provenance : string)
    (status : WorkStatus) (now : instant) (deadline : option instant)
    (plan : option AttachmentAdmissionPlan) (ceiling : option (instant * Z))
    : ctx (string * bool * option AttachmentAdmissionFact) :=
  let id := ev_event_id e in
  install ← ceiling_to_install id ceiling;
  decision ← cget (fun c => match plan with
                            | Some p => retention_decision p c
                            | None => (false, None)
                            end);
  event_admission_ops (chosen_event e plan decision) "ingress" now deadline ;;
  optionally install (fun at_hold =>
    insert_policy id at_hold.1 {| pt_allowed_consumers := []; pt_max_optional_hold := at_hold.2 |}) ;;
  cwhen decision.1 (optionally (plan ≫= ap_retain) (retain_ops id)) ;;
  optionally native (fun n => on_core (insert_native_ref n)) ;;
  insert_ingress_work id provenance status now ;;
  mret (id, true, (fun p => make_fact p decision.1 decision.2) <$> plan).

(** [sync_admit_ingress]. *)
Definition sync_admit_ingress (e : CanonicalEvent) (native : option NativeMessageRef)
    (provenance : string) (status : WorkStatus) (now : instant) (deadline : option instant)
    (plan : option AttachmentAdmissionPlan) (ceiling : option (instant * Z))
    : ctx (string * bool * option AttachmentAdmissionFact) :=
  found ← cget (fun c => existing_event c native (ev_event_id e));
  match found with
  | Some id =>
      work ← cget (fun c => find_work c id);
      (match work with
       | None => insert_ingress_work id provenance status now
       | Some _ => mret tt
       end) ;;
      fact ← cget (fun c => existing_attachment_fact c id);
      mret (id, false, fact)
  | None => admit_new e native provenance status now deadline plan ceiling
  end.

(** [_admission_result_for_existing]. *)
Definition admission_result_for_existing (c : cdb) (id : string)
    (fact : option AttachmentAdmissionFact) : result exc AdmissionResult :=
  match find_work c id with
  | None => Raise (StorageError "durable ingress work missing")
  | Some w =>
      if negb (elem (wk_provenance w) INGRESS_PROVENANCE_VALUES)
      then Raise (StorageError "invalid durable ingress provenance")
      else Ok {| ar_event_id := id; ar_created := false; ar_provenance := wk_provenance w;
                 ar_work_status := wk_status w;
                 ar_attachment := match fact with
                                  | Some f => Some f
                                  | None => existing_attachment_fact c id
                                  end |}
  end.

Record admission : Type := {
  ad_event : CanonicalEvent;
  ad_native : option NativeMessageRef;
  ad_provenance : string;
  ad_suppress_routing : bool;
  ad_attachment : option string;
  ad_limits : option AttachmentLimits;
  ad_deadline : option instant
}.

Definition admission_status (a : admission) : WorkStatus :=
  if ad_suppress_routing a || bool_decide (ad_provenance a = "history")
  then WSuppressedHistory else WPending.

Definition admission_checks (a : admission) (now : instant) : result exc unit :=
  if negb (elem (ad_provenance a) INGRESS_PROVENANCE_VALUES)
  then Raise (ValueError "unsupported ingress provenance")
  else if match ad_native a with
          | Some n => negb (bool_decide (nr_event_id n = ev_event_id (ad_event a)))
          | None => false
          end
  then Raise (ValueError "inbound_ref.event_id must match event.event_id")
  else if match ad_deadline a with Some t => t <=? now | None => false end
  then Raise (ValueError "Content deadline must be after admission time")
  else Ok tt.

Definition admission_plan (a : admission) (now : instant)
    : result exc (option AttachmentAdmissionPlan) :=
  match ad_attachment a with
  | None => Ok None
  | Some data =>
      Some <$> build_attachment_plan (ad_event a) data (default default_limits (ad_limits a)) now
  end.

(** [admit_ingress]. *)
Definition admit_ingress (a : admission) (now : instant) (c : cdb) : result exc AdmissionResult * cdb :=
  match admission_checks a now ≫= fun _ => admission_plan a now with
  | Raise err => (Raise err, c)
  | Ok plan =>
      let status := admission_status a in
      match wrap_event_error (catomically
              (sync_admit_ingress (ad_event a) (ad_native a) (ad_provenance a) status now
                 (ad_deadline a) plan ((fun t => (t, t - now)) <$> ad_deadline a)) c) with
      | (Raise err, c') => (Raise err, c')
      | (Ok (id, created, fact), c') =>
          (if negb created then admission_result_for_existing c' id fact
           else Ok {| ar_event_id := id; ar_created := true; ar_provenance := ad_provenance a;
                      ar_work_status := status; ar_attachment := fact |}, c')
      end
  end.
End hashing.

(** ** Work claims *)

(** [CLAIM_INGRESS_SELECT]. *)
Definition claimable_work (now : instant) (w : WorkRow) : bool :=
  bool_decide (wk_status w = WPending) ||
  (bool_decide (wk_status w = WProcessing) && opt_le (wk_lease_until w) now).

Definition work_order : WorkRow -> WorkRow -> bool :=
  on_key (fun w => (wk_created_at w, wk_event_id w)) (lex_leb Z.leb String.leb).

Definition claim_ingress_select (now : instant) (limit : Z) (c : cdb) : list WorkRow :=
  sql_limit limit 0
    (sorted_by work_order (filter (fun w => claimable_work now w = true) (ingress_work c))).

(** The latest separated error text, else the legacy column. *)
Definition work_last_error (c : cdb) (w : WorkRow) : option string :=
  match last (filter (fun g => dg_family g = "ingress" /\ dg_row_id g = wk_event_id w /\
                               dg_field g = "last_error") (diagnostics (core c))) with
  | Some g => or_none (dg_text g)
  | None => opt_or_none (wk_last_error w)
  end.

(** [CLAIM_INGRESS_UPDATE]. *)
Definition claim_work (now lease : instant) (worker : string) (w : WorkRow) : WorkRow :=
  {| wk_event_id := wk_event_id w; wk_provenance := wk_provenance w; wk_status := WProcessing;
     wk_attempts := wk_attempts w + 1; wk_last_error := wk_last_error w;
     wk_created_at := wk_created_at w; wk_updated_at := now; wk_locked_at := Some now;
     wk_lease_until := Some lease; wk_worker_id := Some worker |}.

(** [claimed_ingress_row]: the row with the error text as read. *)
Definition claimed_ingress_row (c : cdb) (now lease : instant) (worker : string) (w : WorkRow)
    : WorkRow :=
  let w' := claim_work now lease worker w in
  {| wk_event_id := wk_event_id w'; wk_provenance := wk_provenance w'; wk_status := wk_status w';
     wk_attempts := wk_attempts w'; wk_last_error := work_last_error c w;
     wk_created_at := wk_created_at w'; wk_updated_at := wk_updated_at w';
     wk_locked_at := wk_locked_at w'; wk_lease_until := wk_lease_until w';
     wk_worker_id := wk_worker_id w' |}.

Definition sync_claim_ingress_work (now lease : instant) (worker : string) (limit : Z)
    : ctx (list WorkRow) :=
  rows ← cget (claim_ingress_select now limit);
  c0 ← cget (fun c => c);
  run_all (fun w => update_work (fun v => bool_decide (wk_event_id v = wk_event_id w))
                      (claim_work now lease worker) ≫= fun _ => mret tt) rows ;;
  mret (claimed_ingress_row c0 now lease worker <$> rows).

Definition claim_ingress_work (now : instant) (worker : string) (limit lease_us : Z) (c : cdb)
    : result exc (list WorkRow) * cdb :=
  wrap_event_error (catomically (sync_claim_ingress_work now (now + lease_us) worker limit) c).

(** [sync_complete_ingress_and_settle]. *)
Definition release_ingress_dependency (id : string) (now : instant) : tx unit :=
  modify (fun d => set_dependencies d
    ((fun p => if bool_decide (dp_event_id p = id) && bool_decide (dp_owner_kind p = "ingress") &&
                  bool_decide (dp_owner_id p = id) && bool_decide (dp_released_at p = None)
               then release_dependency now p else p) <$> dependencies d)).

Definition complete_ingress_work (id worker : string) (now : instant) (c : cdb)
    : result exc bool * cdb :=
  wrap_event_error (catomically (
    n ← update_work (work_owned_by id worker) (fun w => unlock_work WCompleted (wk_attempts w) None now w);
    cwhen (n =? 1) (on_core (release_ingress_dependency id now)) ;;
    mret (n =? 1)) c).

(** [_write_rowcount_with_followups] on a work row with its error text. *)
Definition return_work (id worker error : string) (now : instant) (set_ : WorkRow -> WorkRow)
    (c : cdb) : result exc bool * cdb :=
  wrap_event_error (catomically (
    n ← update_work (work_owned_by id worker) set_;
    cwhen (0 <? n) (insert_ingress_diagnostic (String.substring 0 1000 error) now id) ;;
    mret (n =? 1)) c).

Definition release_ingress_work (id worker error : string) (now : instant) (c : cdb)
    : result exc bool * cdb :=
  return_work id worker error now
    (fun w => unlock_work WPending (wk_attempts w) (wk_last_error w) now w) c.

Definition defer_ingress_work (id worker error : string) (now : instant) (c : cdb)
    : result exc bool * cdb :=
  return_work id worker error now
    (fun w => unlock_work WPending (if 0 <? wk_attempts w then wk_attempts w - 1 else 0)
                (wk_last_error w) now w) c.

Definition fail_ingress_work (id worker error : string) (now : instant) (c : cdb)
    : result exc bool * cdb :=
  return_work id worker error now
    (fun w => unlock_work WFailed (wk_attempts w) (wk_last_error w) now w) c.

Definition renew_work (now lease : instant) (w : WorkRow) : WorkRow :=
  {| wk_event_id := wk_event_id w; wk_provenance := wk_provenance w; wk_status := wk_status w;
     wk_attempts := wk_attempts w; wk_last_error := wk_last_error w;
     wk_created_at := wk_created_at w; wk_updated_at := now; wk_locked_at := wk_locked_at w;
     wk_lease_until := Some lease; wk_worker_id := wk_worker_id w |}.

Definition renew_ingress_work_lease (id worker : string) (now lease_us : Z) (c : cdb)
    : result exc bool * cdb :=
  if lease_us <=? 0 then (Raise (ValueError "lease_seconds must be positive"), c)
  else wrap_event_error (catomically (
    n ← update_work (work_owned_by id worker) (renew_work now (now + lease_us));
    mret (n =? 1)) c).

(** GROUP BY status, in the order the statuses are listed. *)
Definition count_ingress_work_by_status (c : cdb) : list (string * Z) :=
  filter (fun kv => kv.2 <> 0)
    ((fun st => (work_status_str st,
                 Z.of_nat (length (filter (fun w => wk_status w = st) (ingress_work c)))))
       <$> all_work_statuses).

(** ** Checkpoints *)

Definition checkpoint_key (k : Checkpoint) : string * string := (ck_adapter_id k, ck_stream k).

(** INSERT ... ON CONFLICT DO UPDATE. *)
Definition upsert_checkpoint (k : Checkpoint) (ks : list Checkpoint) : list Checkpoint :=
  if elem (checkpoint_key k) (checkpoint_key <$> ks)
  then (fun k' => if bool_decide (checkpoint_key k' = checkpoint_key k) then k else k') <$> ks
  else ks ++ [k].

Definition put_adapter_checkpoint (json_loads : string -> option json) (k : Checkpoint) (c : cdb)
    : result exc unit * cdb :=
  match json_loads (ck_metadata k) with
  | None => (Raise (ValueError "metadata_json must contain valid JSON"), c)
  | Some (JObj _) => (Ok tt, set_checkpoints c (upsert_checkpoint k (checkpoints c)))
  | Some _ => (Raise (ValueError "metadata_json must encode a JSON object"), c)
  end.

Definition get_adapter_checkpoint (c : cdb) (adapter stream : string) : option Checkpoint :=
  List.find (fun k => bool_decide (checkpoint_key k = (adapter, stream))) (checkpoints c).
