(* ===== verification/IngressProofs.v ===== *)
(** * What admission and work claims do to the tables

    The effect of a committed admission written out table by table, the steps
    of the content database (ingress operations and the delivery side, whose
    operations never touch events, policies or a source dependency except to
    release it), and the invariant every reachable database satisfies. *)

From S2P Require Import Prelude.
From S2P Require Import Json.
From S2P Require Import DeliveryState.
From S2P Require Import Delivery.
From S2P Require Import Store.
From S2P Require Import Outbox.
From S2P Require Import OutboxProofs.
From S2P Require Import Attachments.
From S2P Require Import Events.
From S2P Require Import ContentStore.
From S2P Require Import Ingress.

Open Scope string_scope.
Open Scope list_scope.
Open Scope Z_scope.

(** ** Transactions *)

(** The statement passed its guards. *)
Ltac pass_guards H :=
  repeat match type of H with
         | (if ?b then _ else _) = _ => destruct b eqn:?; [discriminate H|]
         end.

Lemma ctx_bind_Ok {A B} (m : ctx A) (k : A -> ctx B) c b c' :
  (m ≫= k) c = Ok (b, c') <-> exists a c1, m c = Ok (a, c1) /\ k a c1 = Ok (b, c').
Proof.
  unfold mbind, ctx_bind. destruct (m c) as [[a c1]|e]; split; try naive_solver.
Qed.

Lemma on_core_Ok {A} (m : tx A) c a c' :
  on_core m c = Ok (a, c') <-> exists d, m (core c) = Ok (a, d) /\ c' = set_core c d.
Proof. unfold on_core. destruct (m (core c)) as [[b d]|e]; split; naive_solver. Qed.

Lemma catomically_wrap {A} (m : ctx A) c :
  (exists a c', m c = Ok (a, c') /\ wrap_event_error (catomically m c) = (Ok a, c')) \/
  (exists e, wrap_event_error (catomically m c) = (Raise e, c)).
Proof.
  unfold catomically. destruct (m c) as [[a c']|e]; [left; eauto|right].
  destruct e; cbn; eauto.
Qed.

(** ** The effect of an event's admission *)

Definition new_bodies (e : CanonicalEvent) : list BodyRow :=
  (fun fb => {| bd_event_id := ev_event_id e; bd_field := fb.1; bd_body := fb.2 |})
    <$> body_texts (ev_payload e).

Fixpoint new_relations (id : string) (key : Z) (now : instant) (rs : list EventRelation)
    : list RelationRow :=
  match rs with
  | [] => []
  | r :: rest => relation_row key id r now :: new_relations id (key + 1) now rest
  end.

Fixpoint new_excerpts (key : Z) (rs : list EventRelation) : list (Z * string) :=
  match rs with
  | [] => []
  | r :: rest => option_list (pair key <$> rl_fallback_text r) ++ new_excerpts (key + 1) rest
  end.

Definition admitted_core (e : CanonicalEvent) (kind : string) (now : instant)
    (deadline : option instant) (d : db) : db :=
  let d' := add_event_id d (ev_event_id e) in
  set_dependencies d' (dependencies d' ++ [source_dependency (ev_event_id e) kind now deadline]).

Definition admitted (e : CanonicalEvent) (kind : string) (now : instant)
    (deadline : option instant) (c : cdb) : cdb :=
  let id := ev_event_id e in
  {| core := admitted_core e kind now deadline (core c);
     event_rows := event_rows c ++ [event_row e now];
     routing_facts := routing_facts c ++ option_list (pair id <$> em_routing (ev_metadata e));
     body_identity := body_identity c ++ [(id, body_present (ev_payload e))];
     body_content := body_content c ++ new_bodies e;
     relation_rows := relation_rows c ++
       new_relations id (Z.of_nat (length (relation_rows c)) + 1) now (ev_relations e);
     relation_excerpts := relation_excerpts c ++
       new_excerpts (Z.of_nat (length (relation_rows c)) + 1) (ev_relations e);
     ingress_work := ingress_work c; checkpoints := checkpoints c; blobs := blobs c;
     associations := associations c; policy_terms := policy_terms c; grants := grants c;
     collection_log := collection_log c; retention_epochs := retention_epochs c |}.

Lemma insert_bodies_Ok id fbs c u c' :
  run_all (fun fb => insert_body_content id fb.1 fb.2) fbs c = Ok (u, c') ->
  c' = set_body_content c (body_content c ++
         ((fun fb => {| bd_event_id := id; bd_field := fb.1; bd_body := fb.2 |}) <$> fbs)).
Proof.
  revert c. induction fbs as [|fb fbs IH]; intros c; cbn [run_all].
  - intros [= _ <-]. destruct c. cbn. unfold set_body_content. cbn. by rewrite app_nil_r.
  - intros (a & c1 & H1 & H2)%ctx_bind_Ok. unfold insert_body_content in H1.
    repeat case_match; simplify_eq. apply IH in H2 as ->. destruct c. unfold set_body_content. cbn.
    by rewrite <- app_assoc.
Qed.

Lemma insert_relations_Ok id now rs c u c' :
  run_all (fun r => store_relation_ops id r now) rs c = Ok (u, c') ->
  c' = set_relation_excerpts
         (set_relation_rows c (relation_rows c ++
            new_relations id (Z.of_nat (length (relation_rows c)) + 1) now rs))
         (relation_excerpts c ++ new_excerpts (Z.of_nat (length (relation_rows c)) + 1) rs).
Proof.
  revert c. induction rs as [|r rs IH]; intros c; cbn [run_all new_relations new_excerpts].
  - intros [= _ <-]. destruct c. unfold set_relation_excerpts, set_relation_rows. cbn.
    by rewrite !app_nil_r.
  - intros (a & c1 & H1 & H2)%ctx_bind_Ok. apply IH in H2 as ->. clear IH.
    apply ctx_bind_Ok in H1 as (key & c2 & H1 & H2). unfold insert_relation in H1.
    case_match; simplify_eq. unfold insert_excerpt in H2.
    destruct (rl_fallback_text r) as [s|]; [case_match|]; simplify_eq; destruct c;
      unfold set_relation_excerpts, set_relation_rows; cbn;
      rewrite length_app, Nat2Z.inj_add; cbn; f_equal; by rewrite <- ?app_assoc.
Qed.

(** The event's statements commit exactly when its keys are fresh; the result
    is [admitted]. *)
Lemma event_admission_Ok e kind now deadline c u c' :
  event_admission_ops e kind now deadline c = Ok (u, c') ->
  c' = admitted e kind now deadline c /\ event_exists c (ev_event_id e) = false.
Proof.
  unfold event_admission_ops.
  intros (u1 & c1 & H1 & (u2 & c2 & H2 & (u3 & c3 & H3 & (u4 & c4 & H4 & (u5 & c5 & H5 & H6)
    %ctx_bind_Ok)%ctx_bind_Ok)%ctx_bind_Ok)%ctx_bind_Ok)%ctx_bind_Ok.
  unfold insert_event in H1. cbn in H1.
  destruct (event_exists c (ev_event_id e)) eqn:Hex; [done|]. injection H1 as _ <-. split; [|done].
  unfold insert_body_identity in H2. pass_guards H2. injection H2 as _ <-.
  apply insert_bodies_Ok in H3 as ->.
  apply insert_relations_Ok in H5 as ->.
  apply on_core_Ok in H6 as (d & H6 & ->). unfold insert_dependency in H6. pass_guards H6.
  injection H6 as _ <-.
  destruct (em_routing (ev_metadata e)) as [rm|] eqn:Hr.
  - unfold insert_routing_facts in H4. pass_guards H4. injection H4 as _ <-.
    unfold admitted. rewrite Hr. destruct c. reflexivity.
  - injection H4 as _ <-. unfold admitted. rewrite Hr. destruct c. cbn. by rewrite app_nil_r.
Qed.

(** ** The effect of an admission *)

Definition new_work (id provenance : string) (status : WorkStatus) (now : instant) : WorkRow :=
  {| wk_event_id := id; wk_provenance := provenance; wk_status := status; wk_attempts := 0;
     wk_last_error := None; wk_created_at := now; wk_updated_at := now; wk_locked_at := None;
     wk_lease_until := None; wk_worker_id := None |}.

Definition blob_added (b : Blob) (bs : list Blob) : list Blob :=
  if elem (bl_content_ref b) (bl_content_ref <$> bs) then bs else bs ++ [b].

(** The database after a new admission of [e] that installs [install] and
    retains [keep]. *)
Definition admission_db (e : CanonicalEvent) (native : option NativeMessageRef)
    (provenance : string) (status : WorkStatus) (now : instant) (deadline : option instant)
    (install : option (instant * Z)) (keep : option Blob) (c : cdb) : cdb :=
  let id := ev_event_id e in
  let c1 := admitted e "ingress" now deadline c in
  let d := core c1 in
  {| core :=
       {| canonical_events := canonical_events d; outbox := outbox d; snapshots := snapshots d;
          diagnostics := diagnostics d; dependencies := dependencies d;
          access_policies := access_policies d ++ option_list ((fun p => (id, p.1)) <$> install);
          receipts := receipts d; native_refs := native_refs d ++ option_list native |};
     event_rows := event_rows c1; routing_facts := routing_facts c1;
     body_identity := body_identity c1; body_content := body_content c1;
     relation_rows := relation_rows c1; relation_excerpts := relation_excerpts c1;
     ingress_work := ingress_work c ++ [new_work id provenance status now];
     checkpoints := checkpoints c;
     blobs := match keep with Some b => blob_added b (blobs c) | None => blobs c end;
     associations := associations c ++ option_list ((fun b => (id, bl_content_ref b)) <$> keep);
     policy_terms := policy_terms c ++ option_list ((fun p =>
       (id, {| pt_allowed_consumers := []; pt_max_optional_hold := p.2 |})) <$> install);
     grants := grants c;
     collection_log := collection_log c; retention_epochs := retention_epochs c |}.

(** Both variants of a plan describe the same event up to its payload. *)
Definition same_envelope (e e' : CanonicalEvent) : Prop :=
  ev_columns e' = ev_columns e /\ ev_relations e' = ev_relations e /\
  ev_metadata e' = ev_metadata e /\ ev_source_native_ref e' = ev_source_native_ref e.

Definition plan_of (e : CanonicalEvent) (p : AttachmentAdmissionPlan) : Prop :=
  same_envelope e (ap_retained_event p) /\ same_envelope e (ap_unavailable_event p).

Lemma chosen_event_envelope e plan decision :
  (forall p, plan = Some p -> plan_of e p) -> same_envelope e (chosen_event e plan decision).
Proof.
  intros H. destruct plan as [p|]; cbn; [|done]. destruct (H p eq_refl). by destruct decision.1.
Qed.

Lemma ceiling_to_install_Ok id ceiling c install c' :
  ceiling_to_install id ceiling c = Ok (install, c') ->
  c' = c /\ (install = None \/
    install = ceiling /\ od_get id (access_policies (core c)) = None) /\
  (forall t h, ceiling = Some (t, h) -> install = None ->
     od_get id (access_policies (core c)) = Some t).
Proof.
  unfold ceiling_to_install. destruct ceiling as [[t h]|].
  - intros (installed & c1 & [= <- <-] & H)%ctx_bind_Ok.
    destruct (od_get id (access_policies (core c))) as [x|] eqn:E.
    + destruct (Z.eqb_spec x t); [|done]. subst. injection H as <- <-. naive_solver.
    + injection H as <- <-. naive_solver.
  - intros [= <- <-]. naive_solver.
Qed.

Lemma insert_policies_Ok id install c u c' :
  optionally install (fun at_hold => insert_policy id at_hold.1
    {| pt_allowed_consumers := []; pt_max_optional_hold := at_hold.2 |}) c = Ok (u, c') ->
  c' = set_policy_terms (set_core c
         {| canonical_events := canonical_events (core c); outbox := outbox (core c);
            snapshots := snapshots (core c); diagnostics := diagnostics (core c);
            dependencies := dependencies (core c);
            access_policies := access_policies (core c) ++
              option_list ((fun p => (id, p.1)) <$> install);
            receipts := receipts (core c); native_refs := native_refs (core c) |})
         (policy_terms c ++ option_list ((fun p =>
           (id, {| pt_allowed_consumers := []; pt_max_optional_hold := p.2 |})) <$> install)).
Proof.
  destruct install as [[t h]|]; cbn.
  - unfold insert_policy. intros H. pass_guards H. injection H as _ <-. by destruct c as [[]].
  - intros [= _ <-]. destruct c as [[]]. cbn. unfold set_policy_terms. cbn. by rewrite !app_nil_r.
Qed.

Lemma retain_Ok id keep c u c' :
  optionally keep (retain_ops id) c = Ok (u, c') ->
  c' = set_associations
         (set_blobs c (match keep with Some b => blob_added b (blobs c) | None => blobs c end))
         (associations c ++ option_list ((fun b => (id, bl_content_ref b)) <$> keep)).
Proof.
  destruct keep as [b|]; cbn.
  - intros (a & c1 & H1 & H2)%ctx_bind_Ok. unfold insert_association in H2. pass_guards H2.
    injection H2 as _ <-. unfold insert_blob in H1. unfold blob_added.
    destruct (elem (bl_content_ref b) _); injection H1 as _ <-; by destruct c.
  - intros [= _ <-]. destruct c. unfold set_associations, set_blobs. cbn. by rewrite app_nil_r.
Qed.

Lemma cwhen_optionally {A} b (o : option A) f :
  cwhen b (optionally o f) = optionally (if b then o else None) f.
Proof. by destruct b. Qed.

Lemma insert_native_Ok native c u c' :
  optionally native (fun n => on_core (insert_native_ref n)) c = Ok (u, c') ->
  c' = set_core c (set_native_refs (core c) (native_refs (core c) ++ option_list native)).
Proof.
  destruct native as [n|]; cbn.
  - intros (d & H & ->)%on_core_Ok. unfold insert_native_ref in H. pass_guards H. by injection H as _ <-.
  - intros [= _ <-]. destruct c as [[]]. unfold set_core, set_native_refs. cbn. by rewrite app_nil_r.
Qed.

Lemma insert_work_Ok id provenance status now c u c' :
  insert_ingress_work id provenance status now c = Ok (u, c') ->
  c' = set_ingress_work c (ingress_work c ++ [new_work id provenance status now]) /\
  id ∉ wk_event_id <$> ingress_work c /\ event_exists c id = true.
Proof.
  unfold insert_ingress_work. destruct (elem id _) eqn:H1; [done|].
  destruct (event_exists c id) eqn:H2; [|done]. intros [= _ <-].
  split_and!; [done|by apply elem_false|done].
Qed.

Lemma admit_new_Ok e native provenance status now deadline plan ceiling c id created fact c' :
  (forall p, plan = Some p -> plan_of e p) ->
  admit_new e native provenance status now deadline plan ceiling c = Ok ((id, created, fact), c') ->
  exists decision install e',
    id = ev_event_id e /\ created = true /\
    decision = match plan with Some p => retention_decision p c | None => (false, None) end /\
    fact = (fun p => make_fact p decision.1 decision.2) <$> plan /\
    e' = chosen_event e plan decision /\ same_envelope e e' /\
    event_exists c (ev_event_id e) = false /\
    (install = None \/ install = ceiling /\ od_get id (access_policies (core c)) = None) /\
    (forall t h, ceiling = Some (t, h) -> install = None ->
       od_get id (access_policies (core c)) = Some t) /\
    id ∉ wk_event_id <$> ingress_work c /\
    c' = admission_db e' native provenance status now deadline install
           (if decision.1 then plan ≫= ap_retain else None) c.
Proof.
  intros Hplan. unfold admit_new.
  intros (install & c1 & H1 & (decision & c2 & [= <- <-] & (u3 & c3 & H3 & (u4 & c4 & H4 &
    (u5 & c5 & H5 & (u6 & c6 & H6 & (u7 & c7 & H7 & H8)%ctx_bind_Ok)%ctx_bind_Ok)%ctx_bind_Ok)
    %ctx_bind_Ok)%ctx_bind_Ok)%ctx_bind_Ok)%ctx_bind_Ok.
  apply ceiling_to_install_Ok in H1 as (-> & Hi1 & Hi2).
  set (decision := match plan with Some p => retention_decision p c | None => (false, None) end) in *.
  pose proof (chosen_event_envelope e plan decision Hplan) as Henv.
  apply event_admission_Ok in H3 as (-> & Hex).
  assert (Hid : ev_event_id (chosen_event e plan decision) = ev_event_id e)
    by (by destruct Henv as [-> _]).
  rewrite Hid in Hex. apply insert_policies_Ok in H4 as ->.
  rewrite cwhen_optionally in H5. apply retain_Ok in H5 as ->. apply insert_native_Ok in H6 as ->.
  apply insert_work_Ok in H7 as (-> & Hw & _). injection H8 as <- <- <- <-.
  exists decision, install, (chosen_event e plan decision).
  split_and!; try done. unfold admission_db. rewrite !Hid. unfold set_ingress_work. f_equal.
  cbn. by rewrite !Hid.
Qed.
