(* ===== verification/ContentGrants.v ===== *)
(** * Content access

    [src/src/medre/core/storage/sqlite/_content_grants.py] with the value types
    of [content_availability.py], [read_contracts.py] and [dispatch_bound.py]:
    the expiry observations, optional body holds, the reads scoped to an
    owner, and the fence before a native submission.  The clock reading is the
    argument [now]; every function runs in one transaction and returns the
    database it leaves. *)

From S2P Require Import Prelude.
From S2P Require Import Json.
From S2P Require Import IsoTime.
From S2P Require Import DeliveryState.
From S2P Require Import Delivery.
From S2P Require Import Store.
From S2P Require Import Outbox.
From S2P Require Import Events.
From S2P Require Import ContentStore.
From S2P Require Import Ingress.

Open Scope string_scope.
Open Scope list_scope.
Open Scope Z_scope.

(** ** Values *)

Record ContentHold : Set := {
  ch_consumer : string;
  ch_scope : string;
  ch_expires_at : instant;
  ch_mandatory : bool;
  ch_issued_at : option instant
}.

Definition bounded_identity (s : string) : bool :=
  truthy (py_strip s) && (Z.of_nat (String.length s) <=? 128).

Definition ContentHold_init (h : ContentHold) : result exc ContentHold :=
  if negb (bounded_identity (ch_consumer h))
  then Raise (ValueError "A bounded consumer identity is required")
  else if negb (elem (ch_scope h) ["body"; "reply_excerpt"; "attachment"])
  then Raise (ValueError "Unsupported content scope")
  else if match ch_issued_at h with Some t => ch_expires_at h <=? t | None => false end
  then Raise (ValueError "Hold issue time must precede expiry")
  else Ok h.

Record AvailabilityPolicy : Set := {
  vp_hard_ceiling : instant;
  vp_max_optional_hold : Z;
  vp_allowed_consumers : list string
}.

Definition MAX_HOLD : Z := 30 * 24 * 3600 * 1000000.

Definition AvailabilityPolicy_init (p : AvailabilityPolicy) : result exc AvailabilityPolicy :=
  if negb (forallb bounded_identity (vp_allowed_consumers p))
  then Raise (ValueError "Optional consumers must be bounded non-empty identities")
  else if (vp_max_optional_hold p <=? 0) || (MAX_HOLD <? vp_max_optional_hold p)
  then Raise (ValueError "Optional hold limit must be in (0,30 days]")
  else Ok p.

Inductive ContentBodyRead : Set :=
| BodyRetained (body : string) | BodyUnavailable | BodyDenied.

(** [AuthorizedEventRead] and [ReplyContextRead]. *)
Inductive AuthorizedEventRead : Type := EventRetained (e : CanonicalEvent) | EventDenied.
Inductive ReplyContextRead : Type :=
| ReplyRetained (e : CanonicalEvent) | ReplyUnavailable (e : CanonicalEvent) | ReplyDenied.

Inductive owner_kind : Set := OwnerIngress | OwnerOutbox | OwnerReplay | OwnerReply.

#[export] Instance owner_kind_eq_dec : EqDecision owner_kind.
Proof. solve_decision. Defined.

(** ** Expiry *)

(** A dependency whose deadline has passed. *)
Definition expired_dependency (id : string) (now : instant) (p : Dependency) : bool :=
  bool_decide (dp_event_id p = id) && elem (dp_owner_kind p) ["ingress"; "append"; "outbox"] &&
  bool_decide (dp_released_at p = None) && opt_le (dp_deadline p) now.

Definition observe_mandatory_expiry (id : string) (now : instant) (c : cdb) : cdb :=
  set_core c (set_dependencies (core c)
    ((fun p => if expired_dependency id now p then release_dependency now p else p)
       <$> dependencies (core c))).

Definition source_dependency_live (c : cdb) (id : string) : bool :=
  existsb (fun p => bool_decide (dp_event_id p = id) && source_owner p &&
                    bool_decide (dp_released_at p = None)) (dependencies (core c)).

Definition expire_grant (now : instant) (g : Grant) : Grant :=
  {| gr_event_id := gr_event_id g; gr_consumer := gr_consumer g; gr_issued_at := gr_issued_at g;
     gr_expires_at := gr_expires_at g; gr_revoked_at := gr_revoked_at g;
     gr_expired_at := Some now |}.

Definition revoke_grant (now : instant) (g : Grant) : Grant :=
  {| gr_event_id := gr_event_id g; gr_consumer := gr_consumer g; gr_issued_at := gr_issued_at g;
     gr_expires_at := gr_expires_at g; gr_revoked_at := Some now;
     gr_expired_at := gr_expired_at g |}.

Definition grant_open (g : Grant) : bool :=
  bool_decide (gr_revoked_at g = None) && bool_decide (gr_expired_at g = None).

Definition observe_optional_expiry (id : string) (now : instant) (c : cdb) : cdb :=
  set_grants c ((fun g => if bool_decide (gr_event_id g = id) && grant_open g &&
                             (gr_expires_at g <=? now)
                          then expire_grant now g else g) <$> grants c).

(** ** Authority *)

(** A grant that admits a read now, under its policy's ceiling. *)
Definition grant_live (c : cdb) (id consumer : string) (now : instant) : bool :=
  match od_get id (access_policies (core c)) with
  | None => false
  | Some ceiling =>
      existsb (fun g => bool_decide (gr_event_id g = id) && bool_decide (gr_consumer g = consumer) &&
                        grant_open g && (gr_issued_at g <=? now) && (now <? gr_expires_at g))
        (grants c) && (now <? ceiling)
  end.

Definition reply_quote_grant_live (c : cdb) (id : string) (now : instant) : bool :=
  grant_live c id "reply_quotes" now.

(** A dependency that admits a read now. *)
Definition dependency_grants (id kind owner : string) (now : instant) (p : Dependency) : bool :=
  bool_decide (dp_event_id p = id) && bool_decide (dp_owner_kind p = kind) &&
  bool_decide (dp_owner_id p = owner) && bool_decide (dp_released_at p = None) &&
  (dp_acquired_at p <=? now) &&
  match dp_deadline p with None => true | Some t => now <? t end.

Definition outbox_content_authority (c : cdb) (id outbox_id_ : string) (now : instant) : bool :=
  existsb (dependency_grants id "outbox" outbox_id_ now) (dependencies (core c)) ||
  (existsb (fun r : Row => bool_decide (outbox_id r = outbox_id_) && bool_decide (event_id r = id) &&
                           bool_decide (dispatch_source r = "replay")) (outbox (core c)) &&
   source_dependency_live c id).

Definition outbox_dispatchable (c : cdb) (id outbox_id_ : string) : bool :=
  existsb (fun r : Row => bool_decide (outbox_id r = outbox_id_) && bool_decide (event_id r = id) &&
                          elem (status r) [Pending; InProgress; RetryWait]) (outbox (core c)).

(** ** Optional holds *)

Definition hold_checks (h : ContentHold) (p : AvailabilityPolicy) (now : instant)
    : result exc instant :=
  if negb (bool_decide (ch_scope h = "body")) || ch_mandatory h
  then Raise (ValueError "Only optional body holds are available in this slice")
  else match ch_issued_at h with
  | None => Raise (ValueError "Hold must be issued by now and live at issue time")
  | Some issued =>
      if (now <? issued) || (ch_expires_at h <=? now) || (ch_expires_at h <=? issued)
      then Raise (ValueError "Hold must be issued by now and live at issue time")
      else if negb (elem (ch_consumer h) (vp_allowed_consumers p))
      then Raise (ValueError "Consumer not allowed by content policy")
      else if vp_hard_ceiling p <? ch_expires_at h
      then Raise (ValueError "Hold cannot outlive the hard ceiling")
      else if vp_max_optional_hold p <? ch_expires_at h - issued
      then Raise (ValueError "Hold exceeds the bounded optional duration")
      else if vp_hard_ceiling p <=? now
      then Raise (ValueError "Cannot issue a hold after the hard ceiling")
      else Ok issued
  end.

Definition policy_row (p : AvailabilityPolicy) : PolicyTerms :=
  {| pt_allowed_consumers := sorted_by String.leb (vp_allowed_consumers p);
     pt_max_optional_hold := vp_max_optional_hold p |}.

Definition find_grant (c : cdb) (id consumer : string) : option Grant :=
  List.find (fun g => bool_decide (gr_event_id g = id) && bool_decide (gr_consumer g = consumer))
    (grants c).

(** The part inside the savepoint. *)
Definition hold_mutation (id : string) (h : ContentHold) (p : AvailabilityPolicy) (issued : instant)
    : ctx unit :=
  live ← cget (fun c => source_dependency_live c id);
  owners ← cget (fun c =>
    existsb (fun q => bool_decide (dp_event_id q = id) && source_owner q) (dependencies (core c)) ||
    event_exists c id);
  if owners && negb live
  then craise (ValueError "Expired mandatory content cannot gain new optional holds")
  else
    ceiling ← cget (fun c => od_get id (access_policies (core c)));
    terms ← cget (fun c => od_get id (policy_terms c));
    (match ceiling with
     | Some at_ =>
         if bool_decide (at_ = vp_hard_ceiling p) && bool_decide (terms = Some (policy_row p))
         then mret tt else craise (ValueError "Content policy is immutable for this event")
     | None => insert_policy id (vp_hard_ceiling p) (policy_row p)
     end) ;;
    old ← cget (fun c => find_grant c id (ch_consumer h));
    match old with
    | Some g =>
        if bool_decide (gr_issued_at g = issued) && bool_decide (gr_expires_at g = ch_expires_at h) &&
           grant_open g
        then mret tt else craise (ValueError "Content hold cannot be replaced or resurrected")
    | None => cmodify (fun c => set_grants c (grants c ++
        [{| gr_event_id := id; gr_consumer := ch_consumer h; gr_issued_at := issued;
            gr_expires_at := ch_expires_at h; gr_revoked_at := None; gr_expired_at := None |}]))
    end.

(** [sync_issue_body_hold]: a refused mutation keeps the observed expiries. *)
Definition issue_body_hold (id : string) (h : ContentHold) (p : AvailabilityPolicy) (now : instant)
    (c : cdb) : result exc unit * cdb :=
  match hold_checks h p now with
  | Raise e => (Raise e, c)
  | Ok issued =>
      if negb (elem id (od_keys (body_identity c)))
      then (Raise (ValueError "Content policy requires an admitted event"), c)
      else
        let c1 := observe_optional_expiry id now (observe_mandatory_expiry id now c) in
        match hold_mutation id h p issued c1 with
        | Ok (u, c2) => (Ok u, c2)
        | Raise (ValueError what) => (Raise (ValueError what), c1)
        | Raise _ => (Raise (StorageError "Content grant operation failed"), c)
        end
  end.

Definition revocable (id consumer : string) (g : Grant) : bool :=
  bool_decide (gr_event_id g = id) && bool_decide (gr_consumer g = consumer) && grant_open g.

(** [sync_revoke_body_hold]. *)
Definition revoke_body_hold (id consumer : string) (now : instant) (c : cdb) : bool * cdb :=
  let c1 := observe_optional_expiry id now c in
  (bool_decide (length (filter (fun g => revocable id consumer g = true) (grants c1)) = 1%nat),
   set_grants c1 ((fun g => if revocable id consumer g then revoke_grant now g else g)
                    <$> grants c1)).

(** ** Reads *)

Definition bodies_of (c : cdb) (id : string) : list (string * string) :=
  (fun b => (bd_field b, bd_body b)) <$> filter (fun b => bd_event_id b = id) (body_content c).

(** ORDER BY field='body' DESC LIMIT 1. *)
Definition canonical_body (c : cdb) (id : string) : option string :=
  match od_get "body" (bodies_of c id) with
  | Some s => Some s
  | None => snd <$> head (bodies_of c id)
  end.

Definition body_read (c : cdb) (id : string) : result exc ContentBodyRead :=
  match od_get id (body_identity c) with
  | None => Raise (StorageError "Admitted event has no valid body identity")
  | Some false => Ok BodyUnavailable
  | Some true => match canonical_body c id with
                 | Some s => Ok (BodyRetained s)
                 | None => Raise (StorageError "Admitted body is missing from separated content")
                 end
  end.

(** [sync_read_authorized_body]. *)
Definition read_authorized_body (id consumer : string) (now : instant) (c : cdb)
    : result exc ContentBodyRead * cdb :=
  let c1 := observe_optional_expiry id now (observe_mandatory_expiry id now c) in
  (if event_exists c1 id && grant_live c1 id consumer now then body_read c1 id else Ok BodyDenied,
   c1).

(** [sync_read_outbox_body]. *)
Definition read_outbox_body (id outbox_id_ : string) (now : instant) (c : cdb)
    : result exc ContentBodyRead * cdb :=
  let c1 := observe_mandatory_expiry id now c in
  (if outbox_dispatchable c1 id outbox_id_ && outbox_content_authority c1 id outbox_id_ now &&
      elem id (od_keys (body_identity c1))
   then body_read c1 id else Ok BodyDenied, c1).

(** Whether the caller's owner exists, and whether it may see content. *)
Definition owner_admitted (c : cdb) (id : string) (kind : owner_kind) (owner : string) : bool :=
  match kind with
  | OwnerOutbox => outbox_dispatchable c id owner
  | OwnerIngress => existsb (fun w => bool_decide (wk_event_id w = id) &&
                                      elem (wk_status w) [WPending; WProcessing]) (ingress_work c)
  | OwnerReplay | OwnerReply => event_exists c id
  end.

Definition owner_authorized (c : cdb) (id : string) (kind : owner_kind) (owner : string)
    (now : instant) : bool :=
  negb (event_exists c id) ||
  match kind with
  | OwnerReplay => source_dependency_live c id
  | OwnerReply => source_dependency_live c id || reply_quote_grant_live c id now
  | OwnerOutbox => outbox_content_authority c id owner now
  | OwnerIngress => existsb (dependency_grants id "ingress" owner now) (dependencies (core c))
  end.

(** The projected payload and metadata documents of a row. *)
Definition projected_payload (kind : owner_kind) (w : EventRow) : list (string * json) :=
  match kind with
  | OwnerReply => match od_get "formatting" (ew_payload w) with
                  | Some _ => [("formatting", JObj [])]
                  | None => []
                  end
  | _ => ew_payload w
  end.

Definition projected_metadata (c : cdb) (kind : owner_kind) (quote_only : bool) (w : EventRow)
    : list (string * json) :=
  if bool_decide (kind = OwnerReply) && quote_only then []
  else od_set "routing" (composed_routing c w) (ew_metadata w).

Definition projected_relations (c : cdb) (kind : owner_kind) (id : string)
    : result exc (list EventRelation) :=
  match kind with
  | OwnerReply => Ok []
  | _ => decode_all (fun w => row_to_relation w (od_get (rw_id w) (relation_excerpts c)))
           (relations_of c id)
  end.

(** The event assembled from its row and the separated text. *)
Definition compose_event (c : cdb) (id : string) (kind : owner_kind) (quote_only : bool)
    (w : EventRow) : result exc CanonicalEvent :=
  rels ← projected_relations c kind id;
  e ← row_to_event w (projected_payload kind w) (projected_metadata c kind quote_only w) rels;
  if existsb (fun f => is_str (od_get f (ev_payload e))) BODY_FIELDS
  then Raise (StorageError "Canonical envelope contains separated body content")
  else match od_get id (body_identity c) with
  | None => Raise (StorageError "Admitted event has no valid body identity")
  | Some present =>
      let bodies := if bool_decide (kind = OwnerReply) && negb present then [] else bodies_of c id in
      let payload := foldl (fun d fb => od_set fb.1 (JStr fb.2) d) (ev_payload e) bodies in
      if negb (bool_decide (present = body_present payload))
      then Raise (StorageError "Body admission fact disagrees with separate text content")
      else Ok (with_payload e payload)
  end.

(** [sync_read_owned_event]: the expiry observation commits with the read and
    is rolled back when the read raises. *)
Definition read_owned_event (id : string) (kind : owner_kind) (owner : string) (now : instant)
    (c : cdb) : result exc AuthorizedEventRead * cdb :=
  let c0 := observe_mandatory_expiry id now c in
  let c1 := if bool_decide (kind = OwnerReply) then observe_optional_expiry id now c0 else c0 in
  if negb (owner_admitted c1 id kind owner) || negb (owner_authorized c1 id kind owner now)
  then (Ok EventDenied, c1)
  else match find_event c1 id with
  | None => (Ok EventDenied, c1)
  | Some w =>
      match compose_event c1 id kind (negb (source_dependency_live c1 id)) w with
      | Ok e => (Ok (EventRetained e), c1)
      | Raise err => (Raise err, c)
      end
  end.

Definition read_event_for_ingress (id : string) (now : instant) (c : cdb)
    : result exc AuthorizedEventRead * cdb :=
  if negb (truthy id) then (Raise (ValueError "An event identity is required"), c)
  else read_owned_event id OwnerIngress id now c.

Definition read_event_for_outbox (id outbox_id_ : string) (now : instant) (c : cdb)
    : result exc AuthorizedEventRead * cdb :=
  if negb (truthy id) || negb (truthy outbox_id_)
  then (Raise (ValueError "An event and outbox identity are required"), c)
  else read_owned_event id OwnerOutbox outbox_id_ now c.

Definition read_event_for_replay (id : string) (now : instant) (c : cdb)
    : result exc AuthorizedEventRead * cdb :=
  if negb (truthy id) then (Raise (ValueError "An exact event ID is required"), c)
  else read_owned_event id OwnerReplay id now c.

(** [sync_read_reply_context]. *)
Definition read_reply_context (id : string) (now : instant) (c : cdb)
    : result exc ReplyContextRead * cdb :=
  match read_owned_event id OwnerReply id now c with
  | (Raise e, c') => (Raise e, c')
  | (Ok EventDenied, c') => (Ok ReplyDenied, c')
  | (Ok (EventRetained e), c') =>
      (Ok (if existsb (fun f => is_str (od_get f (ev_payload e))) BODY_FIELDS
           then ReplyRetained e else ReplyUnavailable e), c')
  end.

(** ** The native submission fence *)

(** The bounds on a dispatch start, with their sources; a malformed bound
    raises. *)
Definition effective_dispatch_bounds (c : cdb) (id outbox_id_ : string)
    : result exc (list (instant * string)) :=
  let d := core c in
  let context := match List.find (fun s => bool_decide (sn_outbox_id s = outbox_id_)) (snapshots d) with
                 | Some s => sn_context s
                 | None => default [] ((fun r : Row => metadata r) <$> find_outbox d outbox_id_)
                 end in
  frozen ← frozen_plan_deadline context;
  plan ← match frozen with
         | None => Ok None
         | Some s => match instant_of_text s with
                     | Some t => Ok (Some t)
                     | None => Raise (ValueError "Effective deadline bound")
                     end
         end;
  let dependency := List.find (fun p =>
    bool_decide (dp_event_id p = id) && bool_decide (dp_owner_kind p = "outbox") &&
    bool_decide (dp_owner_id p = outbox_id_) && bool_decide (dp_released_at p = None))
    (dependencies d) in
  Ok (option_list ((fun t => (t, "event_content_ceiling")) <$> od_get id (access_policies d)) ++
      option_list ((fun t => (t, "frozen_plan_deadline")) <$> plan) ++
      option_list ((fun t => (t, "adopted_target_dependency_deadline"))
                     <$> (dependency ≫= dp_deadline))).

(** The first of the earliest bounds. *)
Definition observe_effective_dispatch_bound (c : cdb) (id outbox_id_ : string)
    : result exc (option (instant * string)) :=
  bounds ← effective_dispatch_bounds c id outbox_id_;
  Ok (head (sorted_by (on_key fst Z.leb) bounds)).

Definition effective_deadline_elapsed (c : cdb) (id outbox_id_ : string) (now : instant) : bool :=
  match effective_dispatch_bounds c id outbox_id_ with
  | Raise _ => true
  | Ok bounds => existsb (fun b => b.1 <=? now) bounds
  end.

(** [worker_id LIKE 'pipeline:%']. *)
Definition pipeline_worker (worker : string) : bool := String.prefix "pipeline:" (py_lower worker).

Definition submission_owner (c : cdb) (id outbox_id_ worker : string) (attempt : Z) (r : Row) : bool :=
  bool_decide (outbox_id r = outbox_id_) && bool_decide (event_id r = id) &&
  bool_decide (status r = InProgress) && bool_decide (worker_id r = Some worker) &&
  (bool_decide (active_attempt r = Some attempt) ||
   (bool_decide (active_attempt r = None) && pipeline_worker worker &&
    (attempt_number r =? attempt))) &&
  no_newer_generation (core c) r.

(** [_native_submission_authorized], after the expiry observation. *)
Definition native_submission_authorized (c : cdb) (id outbox_id_ worker : string) (attempt : Z)
    (now : instant) : bool :=
  match List.find (submission_owner c id outbox_id_ worker attempt) (outbox (core c)) with
  | None => false
  | Some r =>
      match lease_until r with
      | None => false
      | Some lease =>
          (now <? lease) && negb (effective_deadline_elapsed c id outbox_id_ now) &&
          event_exists c id && outbox_content_authority c id outbox_id_ now
      end
  end.

Definition authorize_native_submission (id outbox_id_ worker : string) (attempt : Z) (now : instant)
    (c : cdb) : result exc bool * cdb :=
  if negb (truthy id) || negb (truthy outbox_id_)
  then (Raise (ValueError "An event and outbox identity are required"), c)
  else if negb (truthy worker) then (Raise (ValueError "A concrete outbox worker is required"), c)
  else if attempt <? 1
  then (Raise (ValueError "A positive reserved attempt number is required"), c)
  else
    let c1 := observe_mandatory_expiry id now c in
    (Ok (native_submission_authorized c1 id outbox_id_ worker attempt now), c1).

(** [sync_inspect_content_dependencies]. *)
Definition inspect_content_dependencies (c : cdb) (id : string)
    : list (string * string * option instant * bool) :=
  (fun p => (dp_owner_kind p, dp_owner_id p, dp_deadline p, bool_decide (dp_released_at p <> None)))
    <$> sorted_by (on_key (fun p => (dp_owner_kind p, dp_owner_id p)) (lex_leb String.leb String.leb))
          (filter (fun p => dp_event_id p = id) (dependencies (core c))).
