(* ===== verification/Retention.v ===== *)
(** * Content retention

    [src/src/medre/core/storage/sqlite/_retention.py] (activation epochs, their
    heartbeat, candidate pages, the aggregate preview), [_collection.py] (the
    guarded collector) and the blocker probes of [_count.py] with the columns
    [classification.py] declares content-potential.  Timestamps compare as
    instants ([IsoTime]); a clock reading is the argument [now].

    The radio progress, operator decision and delivery observation tables are
    not part of the content database: what the probes see of them for an event
    is the argument [elsewhere]. *)

From S2P Require Import Prelude.
From S2P Require Import Json.
From S2P Require Import DeliveryState.
From S2P Require Import Delivery.
From S2P Require Import Store.
From S2P Require Import Events.
From S2P Require Import ContentStore.
From S2P Require Import Ingress.
From S2P Require Import ContentGrants.

Open Scope string_scope.
Open Scope list_scope.
Open Scope Z_scope.

(** ** Epochs *)

Definition RETENTION_EPOCH_ACTIVATORS : list string := ["runtime-first-start"; "operator"].
Definition RETENTION_BATCH_MIN : Z := 1.
Definition RETENTION_BATCH_MAX : Z := 100.

(** SELECT MAX(created_at) FROM canonical_events. *)
Definition max_admission (c : cdb) : option instant :=
  match ew_created_at <$> event_rows c with
  | [] => None
  | t :: ts => Some (foldr Z.max t ts)
  end.

(** ORDER BY epoch DESC LIMIT 1: epochs are appended with the next number. *)
Definition latest_retention_epoch (c : cdb) : option RetentionEpoch := last (retention_epochs c).

(** The boundary never moves backward. *)
Definition next_watermark (observed previous : option instant) : option instant :=
  match previous with
  | None => observed
  | Some p => match observed with
              | None => Some p
              | Some t => if t <? p then Some p else Some t
              end
  end.

Definition open_retention_epoch (activated_by : string) (now : instant) (c : cdb)
    : result exc RetentionEpoch * cdb :=
  if negb (elem activated_by RETENTION_EPOCH_ACTIVATORS)
  then (Raise (ValueError "Unknown retention epoch activator"), c)
  else
    let e := {| ep_epoch := Z.of_nat (length (retention_epochs c)) + 1; ep_activated_at := now;
                ep_watermark := next_watermark (max_admission c)
                                  (latest_retention_epoch c ≫= ep_watermark);
                ep_last_observed := None; ep_activated_by := activated_by |} in
    (Ok e, set_retention_epochs c (retention_epochs c ++ [e])).

Definition heartbeat_epoch (now : instant) (e : RetentionEpoch) : RetentionEpoch :=
  {| ep_epoch := ep_epoch e; ep_activated_at := ep_activated_at e; ep_watermark := ep_watermark e;
     ep_last_observed := Some now; ep_activated_by := ep_activated_by e |}.

Definition observe_retention_heartbeat (epoch : Z) (now : instant) (c : cdb)
    : result exc unit * cdb :=
  if epoch <? 1 then (Raise (ValueError "A retention epoch number must be a positive integer"), c)
  else match latest_retention_epoch c with
  | None => (Raise ContentCollectionEpochChanged, c)
  | Some latest =>
      if negb (ep_epoch latest =? epoch) then (Raise ContentCollectionEpochChanged, c)
      else (Ok tt, set_retention_epochs c
              ((fun e => if (ep_epoch e =? epoch) &&
                            match ep_last_observed e with None => true | Some t => t <? now end
                         then heartbeat_epoch now e else e) <$> retention_epochs c))
  end.

(** ** Blockers *)

(** What the probes on the tables outside the content database find. *)
Record elsewhere_probe : Set := {
  el_radio_plans : bool;
  el_operator_decisions : bool;
  el_observation_content : bool
}.

Section collection.
Context (elsewhere : string -> elsewhere_probe).

Definition excerpts_of_event (c : cdb) (id : string) : list (Z * string) :=
  filter (fun x => existsb (fun w => bool_decide (rw_id w = x.1) && bool_decide (rw_event_id w = id))
                     (relation_rows c) = true) (relation_excerpts c).

Definition bodies_of_event (c : cdb) (id : string) : list BodyRow :=
  filter (fun b => bd_event_id b = id) (body_content c).

Definition collected_before (c : cdb) (id : string) : option CollectionRecord :=
  List.find (fun l => bool_decide (cl_event_id l = id)) (collection_log c).

Definition inconsistent_admission_identity (c : cdb) (id : string) : bool :=
  let bodies := nonempty (bodies_of_event c id) in
  let logged := bool_decide (collected_before c id <> None) in
  match od_get id (body_identity c) with
  | None => true
  | Some present => (negb present && bodies) || (present && negb bodies && negb logged)
  end || (logged && (bodies || nonempty (excerpts_of_event c id))).

(** A relation of another event that quotes this one. *)
Definition points_at (c : cdb) (id : string) (w : RelationRow) : bool :=
  negb (bool_decide (rw_event_id w = id)) &&
  (bool_decide (rw_target_event w = Some id) ||
   existsb (fun n => bool_decide (nr_event_id n = id) &&
                     bool_decide (Some (nr_adapter n) = nc_adapter (rw_native w)) &&
                     bool_decide (nr_native_channel_id n = nc_channel (rw_native w)) &&
                     bool_decide (Some (nr_native_message_id n) = nc_message (rw_native w)))
     (native_refs (core c))).

Definition incoming_relation_excerpts (c : cdb) (id : string) : bool :=
  existsb (fun x => existsb (fun w => bool_decide (rw_id w = x.1) && points_at c id w)
                      (relation_rows c)) (relation_excerpts c).

Definition opaque_envelope (c : cdb) (id : string) : bool :=
  existsb (fun w : EventRow => bool_decide (ev_event_id w = id) &&
                               (nonempty (ew_payload w) || nonempty (ew_metadata w))) (event_rows c).

Definition opaque_relation_records (c : cdb) (id : string) : bool :=
  existsb (fun w => bool_decide (rw_event_id w = id) &&
                    (bool_decide (rw_key w <> None) || nonempty (rw_metadata w) ||
                     negb (elem (rw_type w) VALID_RELATION_TYPES))) (relation_rows c).

Definition active_ingress (c : cdb) (id : string) : bool :=
  existsb (fun w => bool_decide (wk_event_id w = id) &&
                    negb (elem (wk_status w) [WCompleted; WFailed])) (ingress_work c).

Definition active_outbox (c : cdb) (id : string) : bool :=
  existsb (fun r : Row => bool_decide (event_id r = id) &&
                          negb (elem (status r) [Sent; Cancelled; DeadLettered; Abandoned]))
    (outbox (core c)).

Definition unsettled_mandatory_owners (c : cdb) (id : string) : bool :=
  existsb (fun p => bool_decide (dp_event_id p = id) && bool_decide (dp_released_at p = None))
    (dependencies (core c)).

Definition unretired_outbox_snapshots (c : cdb) (id : string) : bool :=
  existsb (fun s => existsb (fun r : Row => bool_decide (outbox_id r = sn_outbox_id s) &&
                                            bool_decide (event_id r = id)) (outbox (core c)))
    (snapshots (core c)).

Definition unrevoked_optional_grants (c : cdb) (id : string) : bool :=
  existsb (fun g => bool_decide (gr_event_id g = id) && grant_open g) (grants c).

(** The content-potential columns of the retained evidence. *)
Definition receipt_content (c : cdb) (id : string) : bool :=
  existsb (fun r => bool_decide (rc_event_id r = id) &&
                    (bool_decide (rc_error r <> None) || bool_decide (rc_capability_reason r <> None) ||
                     bool_decide (rc_rendering_evidence r <> None))) (receipts (core c)).

Definition outbox_content (c : cdb) (id : string) : bool :=
  existsb (fun r : Row => bool_decide (event_id r = id) &&
                          (bool_decide (failure_kind_detail r <> None) ||
                           bool_decide (error_summary r <> None) || nonempty (metadata r)))
    (outbox (core c)).

Definition native_ref_content (c : cdb) (id : string) : bool :=
  existsb (fun n => bool_decide (nr_event_id n = id) && nonempty (nr_metadata n))
    (native_refs (core c)).

Definition ingress_work_content (c : cdb) (id : string) : bool :=
  existsb (fun w => bool_decide (wk_event_id w = id) && bool_decide (wk_last_error w <> None))
    (ingress_work c).

(** [_release_blockers]: live owners, integrity, then the policy families and
    the evidence families in the order of their names. *)
Definition release_blockers (c : cdb) (id : string) : list string :=
  omap (fun np : string * bool => if np.2 then Some np.1 else None)
    [("active_ingress", active_ingress c id); ("active_outbox", active_outbox c id);
     ("unsettled_mandatory_owners", unsettled_mandatory_owners c id);
     ("unretired_outbox_snapshots", unretired_outbox_snapshots c id);
     ("unrevoked_optional_grants", unrevoked_optional_grants c id);
     ("inconsistent_admission_identity", inconsistent_admission_identity c id);
     ("attachment_associations", elem id (od_keys (associations c)));
     ("incoming_relation_excerpts", incoming_relation_excerpts c id);
     ("opaque_envelope", opaque_envelope c id);
     ("opaque_relation_records", opaque_relation_records c id);
     ("operator_decisions", el_operator_decisions (elsewhere id));
     ("radio_plans", el_radio_plans (elsewhere id));
     ("delivery_observations", el_observation_content (elsewhere id));
     ("delivery_receipts", receipt_content c id);
     ("ingress_work", ingress_work_content c id);
     ("native_references", native_ref_content c id);
     ("outbox_records", outbox_content c id)].

(** ** The guarded collector *)

(** length(CAST(text AS BLOB)): the UTF-8 bytes. *)
Fixpoint utf8_length (s : string) : Z :=
  match s with
  | EmptyString => 0
  | String a rest => (if (Ascii.nat_of_ascii a <? 128)%nat then 1 else 2) + utf8_length rest
  end.

Inductive collection_state : Set := AlreadyCollected | Blocked | NothingToCollect | Eligible.

Definition candidate_rows (c : cdb) (id : string) : Z :=
  Z.of_nat (length (bodies_of_event c id)) + Z.of_nat (length (excerpts_of_event c id)).

Definition candidate_bytes (c : cdb) (id : string) : Z :=
  foldr Z.add 0 ((fun b => utf8_length (bd_body b)) <$> bodies_of_event c id) +
  foldr Z.add 0 ((fun x => utf8_length x.2) <$> excerpts_of_event c id).

(** [_read_collection_state]. *)
Definition read_collection_state (c : cdb) (id : string)
    : result exc (collection_state * list string * Z * Z) :=
  if negb (event_exists c id)
  then Raise (StorageError "Content collection requires an admitted event")
  else
    let blockers := release_blockers c id in
    let previous := collected_before c id in
    let bodies := bodies_of_event c id in
    let rows := candidate_rows c id in
    match od_get id (body_identity c) with
    | None => Raise (StorageError "Collection requires a valid admission identity")
    | Some present =>
        if bool_decide (previous <> None) && negb (rows =? 0)
        then Raise (StorageError "Collected content was unexpectedly recreated")
        else if bool_decide (previous = None) && negb present && nonempty bodies
        then Raise (StorageError "Body row exists but admission recorded no body")
        else if bool_decide (previous = None) && present && negb (nonempty bodies)
        then Raise (StorageError "Admission body is missing without collection record")
        else
          let state :=
            if bool_decide (previous <> None) then AlreadyCollected
            else if nonempty blockers then Blocked
            else if rows =? 0 then NothingToCollect
            else Eligible in
          Ok (state, blockers, rows, candidate_bytes c id)
    end.

(** The deletion and its receipt. *)
Definition collected (id : string) (record : CollectionRecord) (c : cdb) : cdb :=
  set_collection_log
    (set_body_content
       (set_relation_excerpts c
          (filter (fun x => negb (existsb (fun w => bool_decide (rw_id w = x.1) &&
                                                    bool_decide (rw_event_id w = id))
                                    (relation_rows c)) = true) (relation_excerpts c)))
       (filter (fun b => bd_event_id b <> id) (body_content c)))
    (collection_log c ++ [record]).

(** The check that the runtime's epoch is still the current one and the event
    was admitted after its boundary. *)
Definition epoch_authorizes (c : cdb) (id : string) (epoch : Z) : bool :=
  match latest_retention_epoch c, find_event c id with
  | Some e, Some w =>
      (ep_epoch e =? epoch) &&
      match ep_watermark e with None => true | Some t => t <? ew_created_at w end
  | _, _ => false
  end.

Inductive collection_status : Set := SCollected | SDryRun | SBlocked | SEmpty | SAlready.

#[export] Instance collection_status_eq_dec : EqDecision collection_status.
Proof. solve_decision. Defined.

(** The result document (its fixed entries apart). *)
Record CollectionResult : Set := {
  co_status : collection_status;
  co_blockers : list string;
  co_candidate_rows : Z;
  co_candidate_bytes : Z;
  co_rows_removed : Z;
  co_bytes_removed : Z
}.

Definition collection_result (status : collection_status) (blockers : list string) (rows bytes : Z)
    : CollectionResult :=
  let removed := bool_decide (status = SCollected) in
  {| co_status := status; co_blockers := blockers; co_candidate_rows := rows;
     co_candidate_bytes := bytes; co_rows_removed := if removed then rows else 0;
     co_bytes_removed := if removed then bytes else 0 |}.

Definition collect_event_content (id : string) (dry_run : bool) (epoch : option Z) (now : instant)
    (c : cdb) : result exc CollectionResult * cdb :=
  if match epoch with Some n => n <? 1 | None => false end
  then (Raise (ValueError "Retention epoch must be a positive integer"), c)
  else if negb (truthy id) then (Raise (ValueError "A bounded event ID is required"), c)
  else if match epoch with Some n => negb (epoch_authorizes c id n) | None => false end
  then (Raise ContentCollectionEpochChanged, c)
  else match read_collection_state c id with
  | Raise e => (Raise e, c)
  | Ok (state, blockers, rows, bytes) =>
      let done status := Ok (collection_result status blockers rows bytes) in
      match state with
      | AlreadyCollected => (done SAlready, c)
      | Blocked => (done SBlocked, c)
      | NothingToCollect => (done SEmpty, c)
      | Eligible =>
          if dry_run then (done SDryRun, c)
          else (done SCollected,
                collected id {| cl_event_id := id; cl_collected_at := now; cl_rows_removed := rows;
                                cl_bytes_removed := bytes |} c)
      end
  end.

(** [sync_preview_event_collection_state]: [None] is [inconsistent]. *)
Definition preview_event_collection_state (c : cdb) (id : string) : option collection_state :=
  match read_collection_state c id with
  | Ok (state, _, _, _) => Some state
  | Raise _ => None
  end.
End collection.

(** ** Candidate pages *)

Definition admission_key (w : EventRow) : instant * string := (ew_created_at w, ev_event_id w).

Definition key_leb : instant * string -> instant * string -> bool := lex_leb Z.leb String.leb.
Definition key_ltb (a b : instant * string) : bool := negb (key_leb b a).

Record CandidatePage : Set := {
  cp_event_ids : list string;
  cp_next_after : option (instant * string);
  cp_has_more : bool
}.

(** The WHERE clause: the cursor inside the epoch, else its boundary. *)
Definition candidate_where (after : option (instant * string)) (watermark : option instant)
    (w : EventRow) : bool :=
  match after, watermark with
  | None, None => true
  | None, Some t => t <? ew_created_at w
  | Some k, None => key_ltb k (admission_key w)
  | Some k, Some t => if t <? k.1 then key_ltb k (admission_key w) else t <? ew_created_at w
  end.

Definition candidate_rows_after (c : cdb) (after : option (instant * string))
    (watermark : option instant) : list EventRow :=
  sorted_by (on_key admission_key key_leb)
    (filter (fun w => candidate_where after watermark w = true) (event_rows c)).

Definition page_collection_candidates (c : cdb) (after : option (instant * string)) (limit : Z)
    (watermark : option instant) : result exc CandidatePage :=
  if (limit <? RETENTION_BATCH_MIN) || (RETENTION_BATCH_MAX <? limit)
  then Raise (ValueError "A collection candidate page limit must be an integer in [1, 100]")
  else if match after with Some k => negb (truthy k.2) | None => false end
  then Raise (ValueError "A collection candidate cursor must be a non-empty pair")
  else
    let rows := take (Z.to_nat (limit + 1)) (candidate_rows_after c after watermark) in
    if match after, head rows with
       | Some k, Some w => key_leb (admission_key w) k
       | _, _ => false
       end
    then Raise (RuntimeError "collection candidate scan did not advance its keyset")
    else
      let page := take (Z.to_nat limit) rows in
      Ok {| cp_event_ids := (fun w : EventRow => ev_event_id w) <$> page;
            cp_next_after := admission_key <$> last page;
            cp_has_more := limit <? Z.of_nat (length rows) |}.
