(* ===== verification/ContentSteps.v ===== *)
(** * Steps of the content database

    Every operation that touches the event, content, ingress or delivery
    tables as one atomic step, and how a step may change each table.  The
    delivery operations ([OutboxProofs.step]) run on the delivery tables of a
    content database; they never add an event or a policy and only add
    dependencies owned by an outbox row.

    [hashlib.sha256] and [json.loads] are arguments. *)

From S2P Require Import Prelude.
From S2P Require Import Json.
From S2P Require Import DeliveryState.
From S2P Require Import Delivery.
From S2P Require Import Store.
From S2P Require Import Outbox.
From S2P Require Import OutboxMaintenance.
From S2P Require Import OutboxProofs.
From S2P Require Import Attachments.
From S2P Require Import Events.
From S2P Require Import ContentStore.
From S2P Require Import Ingress.
From S2P Require Import IngressProofs.
From S2P Require Import ContentGrants.
From S2P Require Import Retention.

Open Scope string_scope.
Open Scope list_scope.
Open Scope Z_scope.

(** ** Tables whose rows evolve in place and which only grow *)

Definition list_evolves {A} (P : A -> A -> Prop) (l l' : list A) : Prop :=
  exists l1 new, Forall2 P l l1 /\ l' = l1 ++ new.

Section list_evolves.
Context {A : Type} (P : A -> A -> Prop) `{!PreOrder P}.

#[export] Instance list_evolves_preorder : PreOrder (list_evolves P).
Proof.
  split.
  - intros l. exists l, []. rewrite app_nil_r. split; [|done]. done.
  - intros a b c (b1 & nb & H1 & ->) (c1 & nc & H2 & ->).
    apply Forall2_app_inv_l in H2 as (x & y & Hx & Hy & ->).
    exists x, (y ++ nc). rewrite app_assoc. split; [|done].
    by etrans.
Qed.

Lemma list_evolves_app l new : list_evolves P l (l ++ new).
Proof. exists l, new. by split. Qed.

Lemma list_evolves_map (f : A -> A) l : (forall x, P x (f x)) -> list_evolves P l (f <$> l).
Proof.
  intros Hf. exists (f <$> l), []. rewrite app_nil_r. split; [|done].
  apply Forall2_fmap_r, Forall_Forall2_diag, Forall_true. apply Hf.
Qed.

Lemma list_evolves_elem l l' x :
  list_evolves P l l' -> x ∈ l -> exists x', x' ∈ l' /\ P x x'.
Proof.
  intros (l1 & new & H & ->) (i & Hi)%list_elem_of_lookup.
  destruct (Forall2_lookup_l _ _ _ _ _ H Hi) as (x' & Hx' & ?).
  exists x'. split; [|done]. apply elem_of_app. left. by eapply list_elem_of_lookup_2.
Qed.
End list_evolves.

(** ** Dependencies *)

Definition dp_key (p : Dependency) : string * string * string :=
  (dp_event_id p, dp_owner_kind p, dp_owner_id p).

(** The owner, the acquisition and the deadline are fixed; a release is
    final. *)
Record dep_evolves (p p' : Dependency) : Prop := {
  de_key : dp_key p' = dp_key p;
  de_acquired : dp_acquired_at p' = dp_acquired_at p;
  de_deadline : dp_deadline p' = dp_deadline p;
  de_released : dp_released_at p <> None -> p' = p
}.

#[export] Instance dep_evolves_preorder : PreOrder dep_evolves.
Proof.
  split; [done|]. intros a b c [K1 A1 D1 R1] [K2 A2 D2 R2]. split; [congruence..|].
  intros Ha. specialize (R1 Ha). subst b. auto.
Qed.

Lemma release_evolves (g : Dependency -> bool) now p :
  (g p = true -> dp_released_at p = None) ->
  dep_evolves p (if g p then release_dependency now p else p).
Proof. intros Hg. destruct (g p); [|done]. split; try done. intros []. auto. Qed.

Definition source_deps_kept (l l' : list Dependency) : Prop :=
  forall p', p' ∈ l' -> source_owner p' = true -> exists p, p ∈ l /\ dep_evolves p p'.

(** A change of the dependency table by delivery or by an expiry
    observation. *)
Record deps_change (l l' : list Dependency) : Prop := {
  dc_evolves : list_evolves dep_evolves l l';
  dc_keys : NoDup (dp_key <$> l) -> NoDup (dp_key <$> l');
  dc_sources : source_deps_kept l l'
}.

#[export] Instance deps_change_preorder : PreOrder deps_change.
Proof.
  split.
  - intros l. split; [done|done|]. intros p' Hp' _. by exists p'.
  - intros a b c [E1 K1 S1] [E2 K2 S2]. split; [by etrans|auto|].
    intros p' Hp' Hs. destruct (S2 p' Hp' Hs) as (q & Hq & Hqp).
    destruct (S1 q Hq) as (p & Hp & Hpq).
    { revert Hs. unfold source_owner. destruct Hqp as [[= _ -> _] _ _ _]. done. }
    exists p. split; [done|by etrans].
Qed.

Lemma deps_change_release (g : Dependency -> bool) now l :
  (forall p, g p = true -> dp_released_at p = None) ->
  deps_change l ((fun p => if g p then release_dependency now p else p) <$> l).
Proof.
  intros Hg. split.
  - apply list_evolves_map. intros p. apply release_evolves, Hg.
  - rewrite <- list_fmap_compose. intros H.
    erewrite list_fmap_ext; [exact H|]. intros i p _. simpl. by destruct (g p).
  - intros p' (p & -> & Hp)%list_elem_of_fmap _. exists p. split; [done|].
    apply release_evolves, Hg.
Qed.

Lemma deps_change_insert p l :
  (forall q, q ∈ l -> dp_key q <> dp_key p) -> source_owner p = false -> deps_change l (l ++ [p]).
Proof.
  intros Hfresh Hs. split.
  - apply list_evolves_app; apply _.
  - intros H. rewrite fmap_app. apply NoDup_app. split_and!; [done| |apply NoDup_singleton].
    intros k (q & -> & Hq)%list_elem_of_fmap Hk. apply (Hfresh q Hq).
    by apply list_elem_of_singleton in Hk.
  - intros p' [Hp'|Hp']%elem_of_app Hs'; [by exists p'|]. apply list_elem_of_singleton in Hp' as ->. congruence.
Qed.

Lemma insert_dependency_Ok p d u d' :
  insert_dependency p d = Ok (u, d') ->
  d' = set_dependencies d (dependencies d ++ [p]) /\
  (forall q, q ∈ dependencies d -> dp_key q <> dp_key p) /\
  opt_le (dp_deadline p) (dp_acquired_at p) = false.
Proof.
  unfold insert_dependency. case_match eqn:E; [done|]. intros [= _ <-]. split; [done|].
  breflect. destruct E as [[E _] E2]. split; [|done].
  intros q Hq Hk. unfold dp_key in Hk. simplify_eq.
  assert (existsb (fun q => bool_decide (dp_event_id q = dp_event_id p) &&
    bool_decide (dp_owner_kind q = dp_owner_kind p) && bool_decide (dp_owner_id q = dp_owner_id p))
    (dependencies d) = true); [|congruence].
  apply existsb_exists. exists q. split; [by apply list_elem_of_In|].
  rewrite !bool_decide_eq_true_2 by congruence. done.
Qed.

(** ** What a delivery operation changes outside the outbox *)

Record core_change (d d' : db) : Prop := {
  cc_events : canonical_events d' = canonical_events d;
  cc_policies : access_policies d' = access_policies d;
  cc_deps : deps_change (dependencies d) (dependencies d');
  cc_natives : native_refs d `prefix_of` native_refs d';
  cc_native_events :
    (forall n, n ∈ native_refs d' -> n ∈ native_refs d \/ nr_event_id n ∈ canonical_events d)
}.

#[export] Instance core_change_preorder : PreOrder core_change.
Proof.
  split; [intros d; by split; auto|]. intros a b c [E1 P1 D1 N1 F1] [E2 P2 D2 N2 F2].
  split; [congruence..|by etrans|by etrans|]. intros n [Hn|Hn]%F2; [auto|right; congruence].
Qed.

#[export] Hint Extern 1 (core_change _ _) => (by split; simpl; auto) : keeps.

Lemma core_change_update w s : tx_rel core_change (update_outbox w s).
Proof. intros d n d'. unfold update_outbox. case_match; [|done]. intros [= _ <-]. auto with keeps. Qed.

Lemma core_change_insert_outbox r : tx_rel core_change (insert_outbox r).
Proof.
  intros d u d'. unfold insert_outbox. repeat (case_match; [done|]). intros [= _ <-]. auto with keeps.
Qed.

Lemma core_change_deps d l : deps_change (dependencies d) l -> core_change d (set_dependencies d l).
Proof. intros H. by split; simpl; auto. Qed.

Lemma core_change_settle i e t : tx_rel core_change (settle_outbox_content_dependency i e t).
Proof.
  apply tx_rel_modify. intros d. apply core_change_deps, deps_change_release.
  intros p. breflect. tauto.
Qed.

Lemma core_change_outbox_dependency i e now dl :
  tx_rel core_change (insert_outbox_dependency i e now dl).
Proof.
  unfold insert_outbox_dependency. apply tx_rel_bind; [apply _|auto with keeps|]. intros plan.
  apply tx_rel_bind; [apply _| |].
  { apply tx_rel_modify. intros d. apply core_change_deps, deps_change_release.
    intros p. breflect. tauto. }
  intros _. apply tx_rel_bind; [apply _|auto with keeps|]. intros src.
  apply tx_rel_bind; [apply _|auto with keeps|]. intros pol.
  destruct src as [src|]; [|auto with keeps]. case_match; [auto with keeps|]. case_match; [auto with keeps|].
  intros d u d' (-> & Hf & _)%insert_dependency_Ok. apply core_change_deps, deps_change_insert; done.
Qed.

Lemma core_change_add_native n d :
  elem (nr_event_id n) (canonical_events d) = true ->
  core_change d (set_native_refs d (native_refs d ++ [n])).
Proof.
  intros Hn%elem_true. split; simpl; [done|done|done|by apply prefix_app_r|].
  intros m [Hm|Hm]%elem_of_app; [auto|]. apply list_elem_of_singleton in Hm as ->. auto.
Qed.

Lemma core_change_native n : tx_rel core_change (insert_native_ref n).
Proof.
  intros d u d'. unfold insert_native_ref. case_match; [done|]. case_match eqn:E; [done|].
  intros [= _ <-]. apply core_change_add_native. by apply negb_false_iff in E.
Qed.

Lemma core_change_receipt_ops r : Forall (tx_rel core_change) (receipt_diagnostic_ops r).
Proof. unfold receipt_diagnostic_ops. auto with keeps. Qed.

Lemma core_change_post_ops item s now :
  Forall (tx_rel core_change) (create_post_insert_ops item s now).
Proof.
  unfold create_post_insert_ops. apply Forall_app_2; [auto with keeps|].
  destruct s; [|auto with keeps]. unfold snapshot_op. auto with keeps.
Qed.

#[export] Hint Resolve core_change_update core_change_insert_outbox core_change_settle
  core_change_outbox_dependency core_change_native core_change_receipt_ops
  core_change_post_ops : keeps.

(** The transaction, or its rollback, changes the tables that way. *)
Lemma core_change_atomically {A} (m : tx A) d :
  tx_rel core_change m -> core_change d (atomically m d).2.
Proof.
  intros Hm. unfold atomically. destruct (m d) as [[a d']|e] eqn:E; simpl; [by eapply Hm|done].
Qed.

Lemma wrap_db_error_2 {A} (r : result exc A * db) : (wrap_db_error r).2 = r.2.
Proof. by destruct r as [[|[]] d]. Qed.

(** The database of a result that is only inspected. *)
Ltac core_change_cases :=
  repeat match goal with
         | |- core_change ?d (match wrap_db_error (atomically ?m ?d) with _ => _ end).2 =>
             let H := fresh in
             assert (core_change d (wrap_db_error (atomically m d)).2) as H;
             [rewrite wrap_db_error_2; apply core_change_atomically
             |revert H; destruct (wrap_db_error (atomically m d)) as [[] ?]; try done]
         end.

Lemma core_change_create now item alloc snap d :
  core_change d (create_outbox_item now item alloc snap d).2.
Proof.
  unfold create_outbox_item. destruct (create_checks item alloc snap) as [[st source]|]; [|done].
  destruct (snapshot_deadline snap) as [dl|]; [|done]. cbv zeta.
  assert (tx_rel core_change (sync_atomic_create_outbox_generation item st source now
            (create_post_insert_ops item snap now) dl)) as H1
    by (unfold sync_atomic_create_outbox_generation; auto 12 with keeps).
  assert (tx_rel core_change (sync_atomic_create_outbox item st source now
            (create_post_insert_ops item snap now) dl)) as H2
    by (unfold sync_atomic_create_outbox; auto 12 with keeps).
  destruct alloc.
  - case_match; [done|]. apply (core_change_atomically _ d) in H1.
    destruct (atomically _ d) as [[[]|[]] d']; done.
  - apply (core_change_atomically _ d) in H2.
    destruct (atomically _ d) as [[[]|[]] d']; try done. by case_match.
Qed.

Lemma core_change_transition now i s a d : core_change d (update_outbox_status now i s a d).2.
Proof.
  unfold update_outbox_status. case_match; [|done]. case_match; [done|]. cbv zeta.
  core_change_cases. unfold sync_transition_outbox_and_settle, sync_write_with_followups.
  case_match; auto 12 with keeps.
Qed.

Lemma core_change_handoff c d : core_change d (finalize_deferred_handoff c d).2.
Proof.
  unfold finalize_deferred_handoff. case_match; [|done]. case_match; [|done].
  core_change_cases; [|by case_match; case_match].
  intros d0 x d'. unfold sync_finalize_deferred_handoff.
  match goal with |- match ?x with _ => _ end = _ -> _ => destruct x end; [by intros [= _ <-]|].
  destruct (update_outbox _ _ d0) as [[n d1]|] eqn:Hu; [|done].
  apply core_change_update in Hu. case_match; [by intros [= _ <-]|]. intros H'. etrans; [exact Hu|].
  revert H'. match goal with |- ?m d1 = _ -> _ => assert (tx_rel core_change m) as Hm end.
  { auto 12 with keeps. }
  apply Hm.
Qed.

Lemma core_change_terminal c d : core_change d (finalize_outbox_terminal c d).2.
Proof.
  unfold finalize_outbox_terminal. repeat (case_match; try done).
  rewrite wrap_db_error_2. apply core_change_atomically.
  intros d0 x d'. unfold sync_finalize_outbox_terminal.
  destruct (update_outbox _ _ d0) as [[n d1]|] eqn:Hu; [|done].
  apply core_change_update in Hu. case_match; [by intros [= _ <-]|]. intros H'. etrans; [exact Hu|].
  revert H'. match goal with |- ?m d1 = _ -> _ => assert (tx_rel core_change m) as Hm end.
  { auto 12 with keeps. }
  apply Hm.
Qed.

(** Admission and policy changes are the content database's own steps. *)
Definition is_environment (op : outbox_op) : bool :=
  match op with OpEnvironment _ _ _ => true | _ => false end.

Lemma step_core_change op d : is_environment op = false -> core_change d (step op d).
Proof.
  destruct op; intros Hop; try done; simpl;
    first [apply core_change_create | apply core_change_transition | apply core_change_handoff
          | apply core_change_terminal | idtac].
  - unfold claim_update. rewrite wrap_db_error_2. apply core_change_atomically. auto with keeps.
  - unfold reserve_outbox_attempt. core_change_cases. auto with keeps.
  - unfold renew_outbox_lease. core_change_cases. auto with keeps.
  - unfold release_outbox_claim. case_match; [done|]. case_match; [|done]. core_change_cases.
    auto with keeps.
  - unfold append_receipt. case_match; [|done]. rewrite wrap_db_error_2.
    apply core_change_atomically. auto with keeps.
  - unfold store_native_ref. repeat (case_match; try done).
    apply core_change_add_native. by apply negb_false_iff.
  - case_match; [|done]. rewrite wrap_db_error_2. apply core_change_atomically. unfold retire_row.
    auto 12 with keeps.
  - unfold cancel_unstarted_delivery. case_match; [|done]. unfold decide_once. simpl.
    assert (core_change d (wrap_db_error (atomically (cancel_unstarted now n ;; record_decision n) d)).2) as Hc.
    { rewrite wrap_db_error_2. apply core_change_atomically. apply tx_rel_bind; [apply _| |].
      - unfold cancel_unstarted. auto 12 with keeps.
      - intros _ x u y ->%record_decision_Ok. done. }
    revert Hc. by destruct (wrap_db_error _) as [[] ?].
Qed.

(** ** Work rows and grants *)

Definition work_terminal (s : WorkStatus) : bool := elem s [WSuppressedHistory; WCompleted; WFailed].

(** The lock columns are set exactly while the row is being processed, and
    history is never routed. *)
Record work_ok (w : WorkRow) : Prop := {
  wo_locked : wk_status w = WProcessing ->
    wk_locked_at w <> None /\ wk_lease_until w <> None /\ wk_worker_id w <> None;
  wo_unlocked : wk_status w <> WProcessing ->
    wk_locked_at w = None /\ wk_lease_until w = None /\ wk_worker_id w = None;
  wo_attempts : 0 <= wk_attempts w;
  wo_provenance : wk_provenance w ∈ INGRESS_PROVENANCE_VALUES;
  wo_history : wk_provenance w = "history" -> wk_status w = WSuppressedHistory
}.

Record work_evolves (w w' : WorkRow) : Prop := {
  we_id : wk_event_id w' = wk_event_id w;
  we_provenance : wk_provenance w' = wk_provenance w;
  we_created : wk_created_at w' = wk_created_at w;
  we_terminal : work_terminal (wk_status w) = true -> w' = w;
  we_ok : work_ok w -> work_ok w'
}.

#[export] Instance work_evolves_preorder : PreOrder work_evolves.
Proof.
  split; [done|]. intros a b c [I1 P1 C1 T1 O1] [I2 P2 C2 T2 O2]. split; [congruence..| |auto].
  intros Ha. specialize (T1 Ha). subst b. auto.
Qed.

Record grant_evolves (g g' : Grant) : Prop := {
  ge_event : gr_event_id g' = gr_event_id g;
  ge_consumer : gr_consumer g' = gr_consumer g;
  ge_issued : gr_issued_at g' = gr_issued_at g;
  ge_expires : gr_expires_at g' = gr_expires_at g;
  ge_closed : grant_open g = false -> g' = g
}.

#[export] Instance grant_evolves_preorder : PreOrder grant_evolves.
Proof.
  split; [done|]. intros a b c [I1 P1 C1 T1 O1] [I2 P2 C2 T2 O2]. split; [congruence..|].
  intros Ha. specialize (O1 Ha). subst b. auto.
Qed.

(** An epoch's number, activation and boundary are fixed when it opens; its
    heartbeat moves forward. *)
Record epoch_evolves (e e' : RetentionEpoch) : Prop := {
  ee_epoch : ep_epoch e' = ep_epoch e;
  ee_activated : ep_activated_at e' = ep_activated_at e;
  ee_watermark : ep_watermark e' = ep_watermark e;
  ee_by : ep_activated_by e' = ep_activated_by e;
  ee_observed : forall t, ep_last_observed e = Some t ->
    exists t', ep_last_observed e' = Some t' /\ t <= t'
}.

#[export] Instance epoch_evolves_preorder : PreOrder epoch_evolves.
Proof.
  split; [intros e; split; eauto; intros t Ht; exists t; split; [done|lia]|].
  intros a b c [] []. split; try congruence. intros t Ht.
  destruct (ee_observed0 t Ht) as (t1 & H1 & Hle). destruct (ee_observed1 t1 H1) as (t2 & H2 & Hle2).
  exists t2. split; [done|lia].
Qed.

(** The admission boundary: nothing, or an instant. *)
Definition boundary_le (a b : option instant) : Prop :=
  forall t, a = Some t -> exists t', b = Some t' /\ t <= t'.

#[export] Instance boundary_le_preorder : PreOrder boundary_le.
Proof.
  split; [intros a t ->; exists t; split; [done|lia]|]. intros a b c H1 H2 t Ht.
  destruct (H1 t Ht) as (t1 & Ht1 & ?), (H2 t1 Ht1) as (t2 & Ht2 & ?). exists t2. split; [done|lia].
Qed.

Definition boundary (c : cdb) : option instant := latest_retention_epoch c ≫= ep_watermark.

Lemma next_watermark_ge observed previous :
  boundary_le previous (next_watermark observed previous) /\
  boundary_le observed (next_watermark observed previous).
Proof.
  destruct previous as [p|], observed as [t|]; simpl; try (destruct (t <? p) eqn:E; breflect);
    split; intros x [= <-]; eexists; (split; [done|lia]).
Qed.

(** ** Elementary changes *)

Section steps.
(** [strict] asks that no excerpt of a collected event is left, which a
    relation stored on its own may break ([store_relation]); every other part
    of the invariant holds without it. *)
Context {strict : bool} (sha256 : string -> string).

Inductive content_step (c : cdb) : cdb -> Prop :=
| cs_core d : core_change (core c) d -> content_step c (set_core c d)
| cs_event (e : CanonicalEvent) kind now deadline :
    kind ∈ ["ingress"; "append"] -> event_exists c (ev_event_id e) = false ->
    content_step c (admitted e kind now deadline c)
| cs_policy id ceiling terms :
    id ∉ od_keys (access_policies (core c)) -> event_exists c id = true ->
    content_step c (set_policy_terms (set_core c (add_policy (core c) id ceiling))
                      (policy_terms c ++ [(id, terms)]))
| cs_blob b :
    bl_content_ref b ∉ bl_content_ref <$> blobs c ->
    bl_content_ref b = content_ref_of sha256 (bl_data b) ->
    bl_size_bytes b = Z.of_nat (String.length (bl_data b)) ->
    content_step c (set_blobs c (blobs c ++ [b]))
| cs_association id ref :
    id ∉ od_keys (associations c) -> event_exists c id = true ->
    ref ∈ bl_content_ref <$> blobs c ->
    content_step c (set_associations c (associations c ++ [(id, ref)]))
| cs_work w :
    wk_event_id w ∉ wk_event_id <$> ingress_work c -> event_exists c (wk_event_id w) = true ->
    work_ok w ->
    content_step c (set_ingress_work c (ingress_work c ++ [w]))
| cs_work_update f :
    (forall w, w ∈ ingress_work c -> work_evolves w (f w)) ->
    content_step c (set_ingress_work c (f <$> ingress_work c))
| cs_checkpoints ks : content_step c (set_checkpoints c ks)
| cs_grant g ceiling :
    find_grant c (gr_event_id g) (gr_consumer g) = None ->
    od_get (gr_event_id g) (access_policies (core c)) = Some ceiling ->
    gr_issued_at g < gr_expires_at g -> gr_expires_at g <= ceiling ->
    content_step c (set_grants c (grants c ++ [g]))
| cs_grants f :
    (forall g, grant_evolves g (f g)) -> content_step c (set_grants c (f <$> grants c))
| cs_epoch e :
    ep_epoch e = Z.of_nat (length (retention_epochs c)) + 1 ->
    ep_watermark e = next_watermark (max_admission c) (latest_retention_epoch c ≫= ep_watermark) ->
    content_step c (set_retention_epochs c (retention_epochs c ++ [e]))
| cs_heartbeat f :
    (forall e, epoch_evolves e (f e)) ->
    content_step c (set_retention_epochs c (f <$> retention_epochs c))
| cs_collect record :
    event_exists c (cl_event_id record) = true ->
    unsettled_mandatory_owners c (cl_event_id record) = false ->
    collected_before c (cl_event_id record) = None ->
    content_step c (collected (cl_event_id record) record c).

(** ** The invariant *)

Definition in_events (c : cdb) (id : string) : Prop := id ∈ canonical_events (core c).

(** The body rows of an event agree with its admission fact; a text beside a
    "body" that is not a string is the one exception, and that "body" stays in
    the envelope. *)
Definition presence_ok (c : cdb) (id : string) (present : bool) : Prop :=
  (present = true -> bodies_of_event c id <> [] \/ collected_before c id <> None) /\
  (present = false -> bodies_of_event c id <> [] ->
   exists w : EventRow, w ∈ event_rows c /\ ev_event_id w = id /\ ew_payload w <> []) /\
  (collected_before c id <> None ->
   bodies_of_event c id = [] /\ (strict = true -> excerpts_of_event c id = [])).

Record content_inv (c : cdb) : Prop := {
  ok_events : (fun w : EventRow => ev_event_id w) <$> event_rows c = canonical_events (core c);
  ok_unique : NoDup (canonical_events (core c));
  ok_identity : od_keys (body_identity c) = canonical_events (core c);
  ok_bodies : Forall (fun b => in_events c (bd_event_id b)) (body_content c);
  ok_routing : Forall (fun kv => in_events c kv.1) (routing_facts c);
  ok_relations : Forall (fun w => in_events c (rw_event_id w)) (relation_rows c);
  ok_relation_ids : rw_id <$> relation_rows c = seqZ 1 (Z.of_nat (length (relation_rows c)));
  ok_excerpts : Forall (fun kv => 1 <= kv.1 <= Z.of_nat (length (relation_rows c)))
                  (relation_excerpts c);
  ok_natives : Forall (fun n => in_events c (nr_event_id n)) (native_refs (core c));
  ok_work_unique : NoDup (wk_event_id <$> ingress_work c);
  ok_work : Forall (fun w => in_events c (wk_event_id w) /\ work_ok w) (ingress_work c);
  ok_deps : NoDup (dp_key <$> dependencies (core c));
  ok_sources : Forall (fun p => source_owner p = true ->
                 in_events c (dp_event_id p) /\ dp_owner_id p = dp_event_id p)
                 (dependencies (core c));
  ok_source_of : forall id, in_events c id ->
    exists p, p ∈ dependencies (core c) /\ dp_event_id p = id /\ source_owner p = true;
  ok_policies : NoDup (od_keys (access_policies (core c)));
  ok_policy_events : Forall (fun kv => in_events c kv.1) (access_policies (core c));
  ok_policy_terms : od_keys (policy_terms c) = od_keys (access_policies (core c));
  ok_grants_unique : NoDup ((fun g => (gr_event_id g, gr_consumer g)) <$> grants c);
  ok_grants : Forall (fun g => gr_issued_at g < gr_expires_at g /\ exists ceiling,
                od_get (gr_event_id g) (access_policies (core c)) = Some ceiling /\
                gr_expires_at g <= ceiling) (grants c);
  ok_blobs : NoDup (bl_content_ref <$> blobs c);
  ok_blob_data : Forall (fun b => bl_content_ref b = content_ref_of sha256 (bl_data b) /\
                   bl_size_bytes b = Z.of_nat (String.length (bl_data b))) (blobs c);
  ok_associations : NoDup (od_keys (associations c));
  ok_association_refs : Forall (fun kv => in_events c kv.1 /\ kv.2 ∈ bl_content_ref <$> blobs c)
                          (associations c);
  (** what was admitted with a body has one, or a record of its collection *)
  ok_presence : forall id present, od_get id (body_identity c) = Some present ->
    presence_ok c id present;
  ok_collected : Forall (fun l => in_events c (cl_event_id l)) (collection_log c);
  ok_collected_once : NoDup (cl_event_id <$> collection_log c);
  ok_epochs : ep_epoch <$> retention_epochs c = seqZ 1 (Z.of_nat (length (retention_epochs c)))
}.

Lemma empty_content_ok : content_inv empty_cdb.
Proof. split; simpl; try (by constructor); try done. intros id Hid. by apply not_elem_of_nil in Hid. Qed.

Lemma event_exists_true c id : event_exists c id = true <-> in_events c id.
Proof. apply elem_true. Qed.
Lemma event_exists_false c id : event_exists c id = false <-> ~ in_events c id.
Proof. apply elem_false. Qed.

Lemma content_ok_core c d : core_change (core c) d -> content_inv c -> content_inv (set_core c d).
Proof.
  intros [E P [De Dk Ds] N F] [].
  assert (forall id, in_events (set_core c d) id <-> in_events c id) as Hin
    by (intros id; unfold in_events; simpl; by rewrite E).
  split; simpl; rewrite ?E, ?P; auto; try (eapply Forall_impl; [eassumption|]; simpl; intros ?;
    rewrite Hin; auto; fail).
  - apply Forall_forall. intros n Hn. rewrite Hin. destruct (F n Hn) as [H|H]; [|done].
    by apply (proj1 (Forall_forall _ _) ok_natives0).
  - apply Forall_forall. intros p' Hp' Hs. destruct (Ds p' Hp' Hs) as (p & Hp & [[= Ke Kk Ko] _ _ _]).
    rewrite Hin, Ke, Ko. apply (proj1 (Forall_forall _ _) ok_sources0 p Hp).
    revert Hs. unfold source_owner. by rewrite Kk.
  - intros id (p & Hp & Hid & Hs)%Hin%ok_source_of0.
    destruct (list_evolves_elem _ _ _ p De Hp) as (p' & Hp' & [[= Ke Kk _] _ _ _]).
    exists p'. split; [done|]. unfold source_owner. by rewrite Ke, Kk.
Qed.

(** An in-place change keeps every key column. *)
Lemma fmap_evolves {A B} (P : A -> A -> Prop) (key : A -> B) (f : A -> A) (l : list A) :
  (forall x y, P x y -> key y = key x) -> (forall x, x ∈ l -> P x (f x)) ->
  key <$> (f <$> l) = key <$> l.
Proof.
  intros Hk Hf. rewrite <- list_fmap_compose. apply list_fmap_ext. intros i x Hx. simpl.
  apply Hk, Hf. by eapply list_elem_of_lookup_2.
Qed.

Lemma new_relations_events id key now rs :
  Forall (fun w => rw_event_id w = id) (new_relations id key now rs).
Proof. revert key. induction rs; intros key; simpl; constructor; auto. Qed.

Lemma new_relations_length id key now rs : length (new_relations id key now rs) = length rs.
Proof. revert key. induction rs; intros key; simpl; auto. Qed.

Lemma new_relations_ids id key now rs :
  rw_id <$> new_relations id key now rs = seqZ key (Z.of_nat (length rs)).
Proof.
  revert key. induction rs as [|r rs IH]; intros key; simpl; [done|].
  rewrite IH, (seqZ_cons key) by lia. f_equal. f_equal; lia.
Qed.

Lemma new_excerpts_keys key rs :
  Forall (fun kv => key <= kv.1 < key + Z.of_nat (length rs)) (new_excerpts key rs).
Proof.
  revert key. induction rs as [|r rs IH]; intros key; simpl; [constructor|].
  apply Forall_app_2.
  - destruct (rl_fallback_text r); simpl; repeat constructor; simpl; lia.
  - eapply Forall_impl; [apply IH|]. simpl. lia.
Qed.

(** *** The admission fact *)

Lemma filter_id {A} (P : A -> Prop) `{!forall x, Decision (P x)} (l : list A) :
  (forall x, x ∈ l -> P x) -> filter P l = l.
Proof.
  induction l as [|x l IH]; intros Hl; [done|]. rewrite filter_cons_True by (apply Hl; set_solver).
  f_equal. apply IH. set_solver.
Qed.

Lemma collected_before_None c id :
  collected_before c id = None <-> id ∉ cl_event_id <$> collection_log c.
Proof.
  unfold collected_before. rewrite find_None_elem, list_elem_of_fmap. split.
  - intros H (l & -> & Hl). apply H in Hl. by rewrite bool_decide_eq_true_2 in Hl.
  - intros H l Hl. apply bool_decide_eq_false_2. intros E. apply H. eauto.
Qed.

Lemma excerpts_of_event_nil c id :
  excerpts_of_event c id = [] <->
  forall x w, x ∈ relation_excerpts c -> w ∈ relation_rows c -> rw_id w = x.1 -> rw_event_id w <> id.
Proof.
  unfold excerpts_of_event. rewrite filter_nil_iff. split.
  - intros H x w Hx Hw Hk He. apply (H x Hx), existsb_exists. exists w.
    rewrite list_elem_of_In in Hw. split; [done|]. by rewrite !bool_decide_eq_true_2.
  - intros H x Hx Hex. apply existsb_exists in Hex as (w & Hw & Hb). rewrite <- list_elem_of_In in Hw.
    breflect. destruct Hb. by eapply H.
Qed.

Lemma bodies_of_event_nil c id :
  bodies_of_event c id = [] <-> forall b, b ∈ body_content c -> bd_event_id b <> id.
Proof. unfold bodies_of_event. apply filter_nil_iff. Qed.

Lemma body_texts_present payload :
  body_present payload = true -> body_texts payload <> [].
Proof.
  unfold body_present, body_texts, is_str. simpl.
  destruct (od_get "body" payload) as [[]|], (od_get "text" payload) as [[]|]; simpl; done.
Qed.

Lemma body_texts_absent payload :
  body_present payload = false -> body_texts payload <> [] ->
  envelope_payload payload <> [].
Proof.
  intros Hp Ht He. assert (exists v, od_get "body" payload = Some v /\ is_str (Some v) = false)
    as (v & Hv & Hs).
  { revert Hp Ht. unfold body_present, body_texts, is_str. simpl.
    destruct (od_get "body" payload) as [v|], (od_get "text" payload) as [[]|]; simpl; try done;
      destruct v; simpl; try done; eauto. }
  apply od_get_In in Hv. unfold envelope_payload in He.
  eapply (proj1 (filter_nil_iff _ _) He); [exact Hv|]. cbn [fst snd]. rewrite Hs. apply orb_true_r.
Qed.

Lemma bodies_admitted (e : CanonicalEvent) kind now deadline c id :
  bodies_of_event (admitted e kind now deadline c) id =
  bodies_of_event c id ++ filter (fun b => bd_event_id b = id) (new_bodies e).
Proof. unfold bodies_of_event. simpl. apply filter_app. Qed.

(** New relations and excerpts belong to the admitted event. *)
Lemma excerpts_admitted (e : CanonicalEvent) kind now deadline c id :
  content_inv c -> id <> ev_event_id e -> excerpts_of_event c id = [] ->
  excerpts_of_event (admitted e kind now deadline c) id = [].
Proof.
  intros Hok Hne H. apply excerpts_of_event_nil. intros x w Hx Hw Hk He. simpl in Hx, Hw.
  apply elem_of_app in Hw as [Hw|Hw]; cycle 1.
  { by apply Hne; rewrite <- He; apply (proj1 (Forall_forall _ _) (new_relations_events _ _ _ _) w Hw). }
  apply elem_of_app in Hx as [Hx|Hx].
  - by eapply (proj1 (excerpts_of_event_nil c id) H x w).
  - pose proof (proj1 (Forall_forall _ _) (new_excerpts_keys _ _) x Hx) as Hb. simpl in Hb.
    assert (rw_id w ∈ rw_id <$> relation_rows c) as Hin by (by apply list_elem_of_fmap_2).
    rewrite (ok_relation_ids _ Hok) in Hin. apply elem_of_seqZ in Hin. lia.
Qed.

Lemma presence_admitted (e : CanonicalEvent) kind now deadline c id present :
  content_inv c -> ~ in_events c (ev_event_id e) ->
  od_get id (body_identity (admitted e kind now deadline c)) = Some present ->
  presence_ok (admitted e kind now deadline c) id present.
Proof.
  intros Hok Hnew Hg. simpl in Hg. destruct (od_get id (body_identity c)) as [b|] eqn:Hb.
  - rewrite (od_get_app_Some _ _ _ _ Hb) in Hg. injection Hg as <-.
    assert (id <> ev_event_id e) as Hne.
    { intros ->. apply Hnew. unfold in_events. rewrite <- (ok_identity _ Hok).
      apply od_get_In in Hb. by apply (list_elem_of_fmap_2 fst _ (_, b)). }
    assert (bodies_of_event (admitted e kind now deadline c) id = bodies_of_event c id) as Hbd.
    { rewrite bodies_admitted, (proj2 (filter_nil_iff _ (new_bodies e))); [apply app_nil_r|].
      intros x (fb & -> & _)%list_elem_of_fmap. simpl. congruence. }
    destruct (ok_presence _ Hok id b Hb) as (H1 & H2 & H3). unfold presence_ok. rewrite Hbd.
    split_and!; [done| |].
    + intros Hp Hn. destruct (H2 Hp Hn) as (w & ? & ?). exists w. simpl. set_solver.
    + intros Hl. destruct (H3 Hl). split; [done|]. intros Hs. apply excerpts_admitted; auto.
  - rewrite od_get_app_None in Hg by done. simpl in Hg. case_decide as Hid; [|done].
    injection Hg as <-. subst id.
    assert (collected_before (admitted e kind now deadline c) (ev_event_id e) = None) as Hl.
    { apply collected_before_None. simpl. intros (l & Hl & Hin)%list_elem_of_fmap.
      apply Hnew. rewrite Hl. apply (proj1 (Forall_forall _ _) (ok_collected _ Hok) l Hin). }
    assert (bodies_of_event (admitted e kind now deadline c) (ev_event_id e) = new_bodies e) as Hbd.
    { rewrite bodies_admitted, (proj2 (bodies_of_event_nil c _)).
      - apply filter_id. intros x (fb & -> & _)%list_elem_of_fmap. done.
      - intros b Hin He. apply Hnew. rewrite <- He. apply (proj1 (Forall_forall _ _) (ok_bodies _ Hok) b Hin). }
    unfold presence_ok. rewrite Hl, Hbd. unfold new_bodies. split_and!; [| |done].
    + intros Hp. left. intros E%fmap_nil_inv. by apply (body_texts_present _ Hp).
    + intros Hp Hn. exists (event_row e now). simpl. split_and!; [set_solver|done|].
      apply body_texts_absent; [done|]. intros E. by rewrite E in Hn.
Qed.

Lemma content_ok_admitted (e : CanonicalEvent) kind now deadline c :
  kind ∈ ["ingress"; "append"] -> event_exists c (ev_event_id e) = false ->
  content_inv c -> content_inv (admitted e kind now deadline c).
Proof.
  intros Hkind Hnew%event_exists_false Hok.
  pose proof (fun id present => presence_admitted e kind now deadline c id present Hok Hnew) as Hpres.
  destruct Hok. set (id := ev_event_id e) in *. set (c' := admitted e kind now deadline c).
  assert (forall i, in_events c i -> in_events c' i) as Hmono
    by (intros i Hi; unfold in_events; simpl; set_solver).
  assert (in_events c' id) as Hid by (unfold in_events; simpl; set_solver).
  split; simpl; auto.
  - rewrite fmap_app, ok_events0. done.
  - by apply NoDup_snoc.
  - unfold od_keys in *. rewrite fmap_app, ok_identity0. done.
  - apply Forall_app_2; [eapply Forall_impl; [exact ok_bodies0|simpl; auto]|].
    unfold new_bodies. apply Forall_fmap, Forall_true. done.
  - apply Forall_app_2; [eapply Forall_impl; [exact ok_routing0|simpl; auto]|].
    destruct (em_routing _); simpl; auto.
  - apply Forall_app_2; [eapply Forall_impl; [exact ok_relations0|simpl; auto]|].
    eapply Forall_impl; [apply new_relations_events|]. simpl. intros w ->. done.
  - rewrite fmap_app, ok_relation_ids0, new_relations_ids, length_app, new_relations_length,
      Nat2Z.inj_add. rewrite seqZ_app by lia. f_equal. f_equal. lia.
  - apply Forall_app_2.
    + eapply Forall_impl; [exact ok_excerpts0|]. intros [k t]. simpl. rewrite length_app. lia.
    + eapply Forall_impl; [apply new_excerpts_keys|]. intros [k t]. simpl.
      rewrite length_app, new_relations_length. lia.
  - eapply Forall_impl; [exact ok_natives0|simpl; auto].
  - eapply Forall_impl; [exact ok_work0|]. simpl. intros w []. auto.
  - rewrite fmap_app. apply NoDup_snoc; [done|]. intros (p & Hk & Hp)%list_elem_of_fmap.
    apply Hnew. assert (source_owner p = true) as Hs.
    { unfold source_owner. unfold dp_key in Hk. simpl in Hk. simplify_eq. apply elem_true. congruence. }
    destruct (proj1 (Forall_forall _ _) ok_sources0 p Hp Hs) as [H _].
    unfold dp_key in Hk. simpl in Hk. simplify_eq. unfold id. congruence.
  - apply Forall_app_2.
    + eapply Forall_impl; [exact ok_sources0|]. simpl. intros p H Hs. destruct (H Hs). auto.
    + repeat constructor. done.
  - intros i [Hi|Hi]%elem_of_app.
    + destruct (ok_source_of0 i Hi) as (p & ? & ?). exists p. set_solver.
    + apply list_elem_of_singleton in Hi as ->.
      exists (source_dependency id kind now deadline). split; [set_solver|].
      split; [done|]. unfold source_owner. simpl. by apply elem_true.
  - eapply Forall_impl; [exact ok_policy_events0|simpl; auto].
  - eapply Forall_impl; [exact ok_association_refs0|]. simpl. intros kv []. auto.
  - eapply Forall_impl; [exact ok_collected0|simpl; auto].
Qed.

(** *** Collection *)

Lemma excerpts_collected c id id' record :
  excerpts_of_event c id = [] \/ id' = id -> excerpts_of_event (collected id' record c) id = [].
Proof.
  intros H. apply excerpts_of_event_nil. intros x w Hx Hw Hk He. simpl in Hx, Hw.
  apply list_elem_of_filter in Hx as [Hneg Hx]. destruct H as [H| ->].
  - by eapply (proj1 (excerpts_of_event_nil c id) H x w).
  - apply negb_true_iff, not_true_iff_false in Hneg. apply Hneg, existsb_exists. exists w.
    rewrite <- list_elem_of_In. split; [done|]. by rewrite !bool_decide_eq_true_2.
Qed.

Lemma bodies_collected_ne c id id' record :
  id' <> id -> bodies_of_event (collected id' record c) id = bodies_of_event c id.
Proof.
  intros Hne. unfold bodies_of_event. simpl. rewrite list_filter_filter. apply list_filter_iff.
  intros b. naive_solver.
Qed.

Lemma bodies_collected c id record : bodies_of_event (collected id record c) id = [].
Proof. apply bodies_of_event_nil. simpl. intros b [? _]%list_elem_of_filter. done. Qed.

Lemma presence_collected c record id present :
  presence_ok c id present -> presence_ok (collected (cl_event_id record) record c) id present.
Proof.
  intros (H1 & H2 & H3). destruct (decide (cl_event_id record = id)) as [E|E].
  - assert (collected_before (collected (cl_event_id record) record c) id <> None) as Hl.
    { rewrite collected_before_None. simpl. rewrite fmap_app. intros Hn. apply Hn. set_solver. }
    unfold presence_ok. rewrite <- E in *. rewrite bodies_collected, excerpts_collected by auto. tauto.
  - unfold presence_ok. rewrite bodies_collected_ne by done.
    assert (collected_before c id <> None <->
            collected_before (collected (cl_event_id record) record c) id <> None) as Hl.
    { rewrite !collected_before_None. simpl. rewrite fmap_app. set_solver. }
    rewrite <- Hl. split_and!; [done|done|]. intros Hc. destruct (H3 Hc).
    split; [done|]. intros Hs. apply excerpts_collected. auto.
Qed.

Lemma Forall_filter {A} (P Q : A -> Prop) `{!forall x, Decision (Q x)} (l : list A) :
  Forall P l -> Forall P (filter Q l).
Proof. rewrite !Forall_forall. intros Hl x [_ Hx]%list_elem_of_filter. auto. Qed.

Lemma content_ok_collected c record :
  event_exists c (cl_event_id record) = true -> collected_before c (cl_event_id record) = None ->
  content_inv c -> content_inv (collected (cl_event_id record) record c).
Proof.
  intros Hid%event_exists_true Hn%collected_before_None [].
  split; simpl; auto.
  - by apply Forall_filter.
  - by apply Forall_filter.
  - intros id present Hg. apply presence_collected. by apply ok_presence0.
  - by apply Forall_snoc.
  - rewrite fmap_app. by apply NoDup_snoc.
Qed.

Lemma boundary_map f c :
  (forall e, epoch_evolves e (f e)) ->
  boundary (set_retention_epochs c (f <$> retention_epochs c)) = boundary c.
Proof.
  intros Hf. unfold boundary, latest_retention_epoch. simpl. rewrite fmap_last.
  destruct (last (retention_epochs c)) as [e|]; [|done]. simpl. by destruct (Hf e).
Qed.

Lemma content_ok_policy c id ceiling terms :
  id ∉ od_keys (access_policies (core c)) -> event_exists c id = true -> content_inv c ->
  content_inv (set_policy_terms (set_core c (add_policy (core c) id ceiling))
                (policy_terms c ++ [(id, terms)])).
Proof.
  intros Hnew Hid%event_exists_true []. split; simpl; auto; unfold od_keys in *; rewrite ?fmap_app.
  - by apply NoDup_snoc.
  - by apply Forall_snoc.
  - by rewrite ok_policy_terms0.
  - eapply Forall_impl; [exact ok_grants0|]. simpl. intros g (Hi & t & Ht & Hle).
    split; [done|]. exists t. split; [by apply od_get_app_Some|done].
Qed.

Lemma find_grant_None c id consumer :
  find_grant c id consumer = None <->
  (id, consumer) ∉ (fun g => (gr_event_id g, gr_consumer g)) <$> grants c.
Proof.
  unfold find_grant. split.
  - intros H (g & Hg & Hin)%list_elem_of_fmap. simplify_eq.
    apply (proj1 (find_None_elem _ _) H) in Hin. simpl in Hin. breflect. tauto.
  - intros H. apply find_None_elem. intros g Hin. apply not_true_iff_false. intros Hg.
    breflect. destruct Hg. subst. apply H, list_elem_of_fmap. eauto.
Qed.

Lemma content_step_ok c c' : content_step c c' -> content_inv c -> content_inv c'.
Proof.
  destruct 1 as [d Hd|e kind now dl Hk Hn|id t terms Hn Hid|b Hn Hr Hs|id ref Hn Hid Hr|w Hn Hid Hw
                |f Hf|ks|g t Hn Ht Hi Hle|f Hf|e Hn Hw|f Hf|rec Hid Hu Hn]; intros Hok.
  - by apply content_ok_core.
  - by apply content_ok_admitted.
  - by apply content_ok_policy.
  - destruct Hok. split; simpl; auto.
    + rewrite fmap_app. by apply NoDup_snoc.
    + by apply Forall_snoc.
    + eapply Forall_impl; [exact ok_association_refs0|]. simpl. intros kv []. set_solver.
  - apply event_exists_true in Hid. destruct Hok. split; simpl; auto.
    + unfold od_keys in *. rewrite fmap_app. by apply NoDup_snoc.
    + by apply Forall_snoc.
  - apply event_exists_true in Hid. destruct Hok. split; simpl; auto.
    + rewrite fmap_app. by apply NoDup_snoc.
    + by apply Forall_snoc.
  - destruct Hok. split; simpl; auto.
    + erewrite fmap_evolves; [done|exact we_id|done].
    + apply Forall_fmap, Forall_forall. intros w Hw.
      destruct (proj1 (Forall_forall _ _) ok_work0 w Hw), (Hf w Hw) as [E]. simpl.
      rewrite E. auto.
  - destruct Hok. split; simpl; auto.
  - destruct Hok. split; simpl; auto.
    + rewrite fmap_app. apply NoDup_snoc; [done|]. by apply find_grant_None.
    + apply Forall_snoc; eauto.
  - destruct Hok. split; simpl; auto.
    + erewrite (fmap_evolves grant_evolves); [done| |auto]. intros x y []. congruence.
    + apply Forall_fmap. eapply Forall_impl; [exact ok_grants0|]. intros g.
      destruct (Hf g) as [E1 E2 E3 E4 _]. simpl. by rewrite E1, E3, E4.
  - destruct Hok. split; simpl; auto. rewrite fmap_app, ok_epochs0, length_app, Nat2Z.inj_add.
    rewrite seqZ_app by lia. f_equal. rewrite fmap_cons, Hn. cbv [seqZ]. simpl. f_equal. lia.
  - destruct Hok. split; simpl; auto. rewrite (fmap_evolves epoch_evolves); [|by intros x y []|auto].
    by rewrite length_fmap.
  - by apply content_ok_collected.
Qed.

Lemma content_steps_ok c c' : rtc content_step c c' -> content_inv c -> content_inv c'.
Proof. induction 1 as [|? ? ? H _ IH]; [done|]. intros Hok. by eapply IH, content_step_ok. Qed.

(** ** What no sequence of steps undoes *)

Record content_evolves (c c' : cdb) : Prop := {
  ce_events : canonical_events (core c) `prefix_of` canonical_events (core c');
  ce_event_rows : event_rows c `prefix_of` event_rows c';
  ce_identity : body_identity c `prefix_of` body_identity c';
  ce_policies : access_policies (core c) `prefix_of` access_policies (core c');
  ce_natives : native_refs (core c) `prefix_of` native_refs (core c');
  ce_deps : list_evolves dep_evolves (dependencies (core c)) (dependencies (core c'));
  ce_work : list_evolves work_evolves (ingress_work c) (ingress_work c');
  ce_grants : list_evolves grant_evolves (grants c) (grants c');
  ce_blobs : blobs c `prefix_of` blobs c';
  ce_associations : associations c `prefix_of` associations c';
  ce_epochs : list_evolves epoch_evolves (retention_epochs c) (retention_epochs c');
  ce_boundary : boundary_le (boundary c) (boundary c');
  ce_collected : collection_log c `prefix_of` collection_log c';
  (** a stored event never gains a source dependency *)
  ce_sources : forall p', p' ∈ dependencies (core c') -> source_owner p' = true ->
    in_events c (dp_event_id p') -> exists p, p ∈ dependencies (core c) /\ dep_evolves p p'
}.

#[export] Instance content_evolves_preorder : PreOrder content_evolves.
Proof.
  split; [intros c; split; [done..|]; intros p' Hp' _ _; by exists p'|]. intros a b c H1 H2.
  split; try (destruct H1, H2; by etrans).
  intros p' Hp' Hs Hin. assert (in_events b (dp_event_id p')) as Hb.
  { destruct (ce_events _ _ H1) as [k Hk]. unfold in_events in *. rewrite Hk. set_solver. }
  destruct (ce_sources _ _ H2 p' Hp' Hs Hb) as (q & Hq & Hqp).
  pose proof (de_key _ _ Hqp) as [= Ke Kk _].
  destruct (ce_sources _ _ H1 q Hq) as (p & Hp & Hpq).
  - revert Hs. unfold source_owner. by rewrite Kk.
  - congruence.
  - exists p. split; [done|by etrans].
Qed.

Lemma list_evolves_map_on {A} (P : A -> A -> Prop) (f : A -> A) l :
  (forall x, x ∈ l -> P x (f x)) -> list_evolves P l (f <$> l).
Proof.
  intros Hf. exists (f <$> l), []. rewrite app_nil_r. split; [|done].
  apply Forall2_fmap_r, Forall_Forall2_diag, Forall_forall. exact Hf.
Qed.

Lemma content_step_evolves c c' : content_step c c' -> content_evolves c c'.
Proof.
  destruct 1 as [d [E P [De Dk Ds] N F]|e kind now dl Hk Hn|id t terms Hn Hid|b Hn Hr Hs|id ref Hn Hid Hr
                |w Hn Hid Hw|f Hf|ks|g t Hn Ht Hi Hle|f Hf|e Hn Hw|f Hf|rec Hid Hu Hn];
    split; simpl; rewrite ?E, ?P; try done; try (by apply prefix_app_r);
    try (by apply list_evolves_app; apply _); try (by apply list_evolves_map_on);
    try (intros p' Hp' Hs' _; by exists p').
  - intros p' Hp' Hs' _. by apply Ds.
  - intros p' [Hp'|Hp']%elem_of_app Hs' Hin; [by exists p'|].
    apply list_elem_of_singleton in Hp' as ->. simpl in Hin. by apply event_exists_false in Hn.
  - unfold boundary at 2. unfold latest_retention_epoch. simpl. rewrite last_snoc. simpl. rewrite Hw.
    apply next_watermark_ge.
  - by rewrite boundary_map.
Qed.

Lemma content_steps_evolves c c' : rtc content_step c c' -> content_evolves c c'.
Proof. induction 1 as [|? ? ? H]; [done|]. etrans; [by apply content_step_evolves|done]. Qed.
End steps.

(** The whole invariant. *)
Abbreviation content_ok := (@content_inv true).
