(* ===== verification/ContentSafety.v ===== *)
(** * Safety of ingress and content access

    Every operation of durable ingress and content access, and every delivery
    operation, is a sequence of elementary changes ([content_step]); so every
    database reachable from the empty one satisfies [content_ok], events and
    policies are never rewritten, and an authority that was released, revoked
    or expired stays so. *)

From S2P Require Import Prelude.
From S2P Require Import Json.
From S2P Require Import DeliveryState.
From S2P Require Import Delivery.
From S2P Require Import Store.
From S2P Require Import Outbox.
From S2P Require Import OutboxProofs.
From S2P Require Import Attachments.
From S2P Require Import Events.
From S2P Require Import ContentStore.
From S2P Require Import Ingress.
From S2P Require Import IngressProofs.
From S2P Require Import ContentGrants.
From S2P Require Import Retention.
From S2P Require Import ContentSteps.

Open Scope string_scope.
Open Scope list_scope.
Open Scope Z_scope.

(** ** Operations *)

Inductive content_op : Type :=
(** Any delivery operation but the environment's. *)
| CDelivery (op : outbox_op)
| CAppend (e : CanonicalEvent) (now : instant)
| CAdmit (a : admission) (now : instant)
| CClaim (now : instant) (worker : string) (limit lease_us : Z)
| CComplete (id worker : string) (now : instant)
| CRelease (id worker error : string) (now : instant)
| CDefer (id worker error : string) (now : instant)
| CFail (id worker error : string) (now : instant)
| CRenew (id worker : string) (now lease_us : Z)
| CCheckpoint (k : Checkpoint)
| CIssueHold (id : string) (h : ContentHold) (p : AvailabilityPolicy) (now : instant)
| CRevokeHold (id consumer : string) (now : instant)
| CReadBody (id consumer : string) (now : instant)
| CReadOutboxBody (id outbox_id_ : string) (now : instant)
| CReadEvent (id : string) (kind : owner_kind) (owner : string) (now : instant)
| CAuthorize (id outbox_id_ worker : string) (attempt : Z) (now : instant)
| COpenEpoch (activated_by : string) (now : instant)
| CHeartbeat (epoch : Z) (now : instant)
(** [elsewhere] is what the other tables hold for the event at that moment. *)
| CCollect (elsewhere : string -> elsewhere_probe) (id : string) (dry_run : bool)
    (epoch : option Z) (now : instant).

(** ** How one row changes *)

Lemma claim_work_evolves now lease worker w :
  claimable_work now w = true -> work_evolves w (claim_work now lease worker w).
Proof.
  intros Hc. assert (wk_status w = WPending \/ wk_status w = WProcessing) as Hs
    by (revert Hc; unfold claimable_work; breflect; tauto).
  split; try done; simpl.
  - intros Ht. destruct Hs as [Hs|Hs]; by rewrite Hs in Ht.
  - intros [? ? ? ? Hh]. split; simpl; try done; [lia|]. intros Hp. specialize (Hh Hp).
    destruct Hs; congruence.
Qed.

Lemma unlock_work_evolves status attempts error now w :
  wk_status w = WProcessing -> (work_ok w -> 0 <= attempts) -> status <> WProcessing ->
  work_evolves w (unlock_work status attempts error now w).
Proof.
  intros Hs Ha Hst. split; try done; simpl; [by rewrite Hs|].
  intros Hok. destruct (Hok) as [? ? ? ? Hh]. split; simpl; auto; try done.
  intros Hp. specialize (Hh Hp). congruence.
Qed.

Lemma renew_work_evolves now lease w :
  wk_status w = WProcessing -> work_evolves w (renew_work now lease w).
Proof.
  intros Hs. split; try done; simpl; [by rewrite Hs|]. intros [Hl Hu ? ? Hh]. split; simpl; try done.
  intros H. destruct (Hl H) as (? & ? & ?). done.
Qed.

Lemma work_owned_by_true id worker w :
  work_owned_by id worker w = true <->
  wk_event_id w = id /\ wk_status w = WProcessing /\ wk_worker_id w = Some worker.
Proof. unfold work_owned_by. breflect. tauto. Qed.

(** The claim updates the selected rows and no others. *)
Definition claimed_table (now lease : instant) (worker : string) (ids : list string)
    (work : list WorkRow) : list WorkRow :=
  (fun w => if elem (wk_event_id w) ids then claim_work now lease worker w else w) <$> work.

Lemma run_claims_Ok now lease worker rows c u c' :
  NoDup (wk_event_id <$> rows) ->
  run_all (fun w => update_work (fun v => bool_decide (wk_event_id v = wk_event_id w))
                      (claim_work now lease worker) ≫= fun _ => mret tt) rows c = Ok (u, c') ->
  c' = set_ingress_work c
         (claimed_table now lease worker (wk_event_id <$> rows) (ingress_work c)).
Proof.
  revert c. induction rows as [|w rows IH]; intros c Hn; simpl.
  - intros [= _ <-]. destruct c. unfold set_ingress_work, claimed_table. simpl. f_equal.
    symmetry. apply list_fmap_id.
  - apply NoDup_cons in Hn as [Hw Hn]. intros (a & c1 & H1 & H2)%ctx_bind_Ok.
    apply ctx_bind_Ok in H1 as (n & c2 & H1 & [= _ <-]). injection H1 as _ <-.
    apply IH in H2 as ->; [|done]. destruct c. unfold set_ingress_work, claimed_table. simpl.
    f_equal. rewrite <- list_fmap_compose. apply list_fmap_ext. intros i v _. simpl.
    unfold elem. destruct (decide (wk_event_id v = wk_event_id w)) as [E|E].
    + rewrite (bool_decide_eq_true_2 _ E). simpl. rewrite E.
      rewrite bool_decide_eq_false_2 by done. rewrite bool_decide_eq_true_2 by set_solver. done.
    + rewrite (bool_decide_eq_false_2 _ E). erewrite bool_decide_ext; [done|]. set_solver.
Qed.

Lemma ingress_select_elem now limit c w :
  w ∈ claim_ingress_select now limit c -> w ∈ ingress_work c /\ claimable_work now w = true.
Proof.
  unfold claim_ingress_select. intros Hw.
  assert (w ∈ sorted_by work_order (filter (fun w => claimable_work now w = true) (ingress_work c)))
    as [? ?]%elem_of_sorted_by%list_elem_of_filter; [|done].
  eapply elem_of_sublist; [exact Hw|apply sql_limit_sublist].
Qed.

Lemma claim_select_NoDup now limit c :
  NoDup (wk_event_id <$> ingress_work c) -> NoDup (wk_event_id <$> claim_ingress_select now limit c).
Proof.
  intros H. eapply sublist_NoDup; [|apply fmap_sublist, sql_limit_sublist].
  rewrite sorted_by_perm. by apply NoDup_fmap_filter.
Qed.

Lemma sync_claim_Ok now lease worker limit c rows c' :
  NoDup (wk_event_id <$> ingress_work c) ->
  sync_claim_ingress_work now lease worker limit c = Ok (rows, c') ->
  rows = claimed_ingress_row c now lease worker <$> claim_ingress_select now limit c /\
  c' = set_ingress_work c (claimed_table now lease worker
         (wk_event_id <$> claim_ingress_select now limit c) (ingress_work c)).
Proof.
  intros Hn. unfold sync_claim_ingress_work.
  intros (rs & c1 & [= <- <-] & (c2 & c3 & [= <- <-] & (u & c4 & H & [= <- <-])%ctx_bind_Ok)
    %ctx_bind_Ok)%ctx_bind_Ok.
  apply run_claims_Ok in H as ->; [done|by apply claim_select_NoDup].
Qed.

(** A selected identifier belongs to a claimable row. *)
Lemma claim_ids_claimable now limit c w :
  NoDup (wk_event_id <$> ingress_work c) -> w ∈ ingress_work c ->
  wk_event_id w ∈ wk_event_id <$> claim_ingress_select now limit c -> claimable_work now w = true.
Proof.
  intros Hn Hw (v & Hv & [Hin Hc]%ingress_select_elem)%list_elem_of_fmap.
  by rewrite (NoDup_fmap_inj_on wk_event_id (ingress_work c) w v).
Qed.

Lemma close_grant_evolves (b : bool) x y :
  gr_event_id y = gr_event_id x -> gr_consumer y = gr_consumer x ->
  gr_issued_at y = gr_issued_at x -> gr_expires_at y = gr_expires_at x ->
  (b = true -> grant_open x = true) -> grant_evolves x (if b then y else x).
Proof. intros ? ? ? ? Hb. destruct b; [|done]. split; try done. intros Ho. rewrite Hb in Ho; done. Qed.

(** ** The collector's decision *)

(** What the collector found when it deletes. *)
Lemma read_collection_eligible elsewhere c id blockers rows bytes :
  read_collection_state elsewhere c id = Ok (Eligible, blockers, rows, bytes) ->
  event_exists c id = true /\ release_blockers elsewhere c id = [] /\ blockers = [] /\
  collected_before c id = None.
Proof.
  unfold read_collection_state. cbv zeta. destruct (negb (event_exists c id)) eqn:Hid; [done|].
  destruct (od_get id (body_identity c)); [|done]. do 3 (case_match; [done|]). intros [= E <- _ _].
  destruct (bool_decide (collected_before c id <> None)) eqn:Ec; [done|].
  apply bool_decide_eq_false in Ec. destruct (release_blockers elsewhere c id) eqn:Eb; [|done].
  split_and!; try done; [by apply negb_false_iff|]. by apply dec_stable.
Qed.

Lemma raised_flags_nil (l : list (string * bool)) :
  omap (fun np : string * bool => if np.2 then Some np.1 else None) l = [] ->
  Forall (fun np => np.2 = false) l.
Proof. induction l as [|[n []] l IH]; simpl; [constructor|done|]. intros H. constructor; auto. Qed.

Lemma no_blockers_settled elsewhere c id :
  release_blockers elsewhere c id = [] ->
  active_ingress c id = false /\ active_outbox c id = false /\
  unsettled_mandatory_owners c id = false /\ unretired_outbox_snapshots c id = false /\
  unrevoked_optional_grants c id = false /\ inconsistent_admission_identity c id = false /\
  incoming_relation_excerpts c id = false /\ opaque_envelope c id = false.
Proof.
  intros H%raised_flags_nil. rewrite !Forall_cons in H. simpl in H. tauto.
Qed.

Lemma collect_eligible elsewhere id dry_run epoch now c r c' :
  collect_event_content elsewhere id dry_run epoch now c = (r, c') ->
  (c' = c /\ forall x, r = Ok x -> co_status x <> SCollected) \/
  (exists record, cl_event_id record = id /\
     r = Ok (collection_result SCollected [] (cl_rows_removed record) (cl_bytes_removed record)) /\
     event_exists c id = true /\ release_blockers elsewhere c id = [] /\
     collected_before c id = None /\ dry_run = false /\
     (forall n, epoch = Some n -> epoch_authorizes c id n = true) /\
     c' = collected id record c).
Proof.
  unfold collect_event_content.
  destruct (match epoch with Some n => n <? 1 | None => false end); [by intros [= <- <-]; left|].
  destruct (negb (truthy id)); [by intros [= <- <-]; left|].
  destruct (match epoch with Some _ => _ | None => _ end) eqn:Ee; [by intros [= <- <-]; left|].
  destruct (read_collection_state elsewhere c id) as [[[[state blockers] rows] bytes]|e] eqn:E;
    [|by intros [= <- <-]; left].
  destruct state; try (by intros [= <- <-]; left; split; [|intros x [= <-]]).
  destruct dry_run; intros [= <- <-]; [by left; split; [|intros x [= <-]]|]. right.
  apply read_collection_eligible in E as (? & ? & -> & ?).
  exists {| cl_event_id := id; cl_collected_at := now; cl_rows_removed := rows;
            cl_bytes_removed := bytes |}.
  split_and!; try done. intros n ->. by apply negb_false_iff.
Qed.

Section safety.
Context {strict : bool} (sha256 : string -> string).

Abbreviation content_steps := (rtc (content_step sha256)).

(** ** Statements as elementary changes *)

Definition ctx_steps {A} (m : ctx A) : Prop := forall c a c', m c = Ok (a, c') -> content_steps c c'.

Lemma ctx_steps_bind {A B} (m : ctx A) (k : A -> ctx B) :
  ctx_steps m -> (forall a, ctx_steps (k a)) -> ctx_steps (m ≫= k).
Proof.
  intros Hm Hk c b c' (a & c1 & H1 & H2)%ctx_bind_Ok.
  etrans; [by eapply Hm|by eapply Hk].
Qed.

Lemma ctx_steps_ret {A} (a : A) : ctx_steps (mret a).
Proof. intros c b c' [= _ <-]. done. Qed.
Lemma ctx_steps_get {A} (f : cdb -> A) : ctx_steps (cget f).
Proof. intros c b c' [= _ <-]. done. Qed.
Lemma ctx_steps_raise {A} (e : exc) : ctx_steps (craise (A := A) e).
Proof. done. Qed.
Lemma ctx_steps_optionally {A} (o : option A) f :
  (forall a, ctx_steps (f a)) -> ctx_steps (optionally o f).
Proof. intros Hf. destruct o; [apply Hf|apply ctx_steps_ret]. Qed.
Lemma ctx_steps_when b m : ctx_steps m -> ctx_steps (cwhen b m).
Proof. destruct b; [done|intros _; apply ctx_steps_ret]. Qed.

Lemma ctx_steps_core {A} (m : tx A) : tx_rel core_change m -> ctx_steps (on_core m).
Proof.
  intros Hm c a c' (d & H & ->)%on_core_Ok. apply rtc_once, cs_core. by eapply Hm.
Qed.

(** A transaction that raises is rolled back. *)
Lemma ctx_steps_catomically {A} (m : ctx A) c :
  ctx_steps m -> content_steps c (wrap_event_error (catomically m c)).2.
Proof.
  intros Hm. destruct (catomically_wrap m c) as [(a & c' & H & ->)|(e & ->)]; [|done].
  by eapply Hm.
Qed.

Lemma ctx_steps_event e kind now deadline :
  kind ∈ ["ingress"; "append"] -> ctx_steps (event_admission_ops e kind now deadline).
Proof.
  intros Hk c u c' (-> & Hn)%event_admission_Ok. by apply rtc_once, cs_event.
Qed.

Lemma ctx_steps_policy id ceiling terms : ctx_steps (insert_policy id ceiling terms).
Proof.
  intros c u c' H. unfold insert_policy in H. destruct (_ || _) eqn:E; [done|].
  destruct (event_exists c id) eqn:Hid; [|done]. injection H as _ <-. breflect. destruct E as [E _].
  by apply rtc_once, cs_policy.
Qed.

Definition blob_ok (b : Blob) : Prop :=
  bl_content_ref b = content_ref_of sha256 (bl_data b) /\
  bl_size_bytes b = Z.of_nat (String.length (bl_data b)).

Lemma ctx_steps_retain id b : blob_ok b -> ctx_steps (retain_ops id b).
Proof.
  intros [Hr Hs]. apply ctx_steps_bind.
  - intros c u c' H. unfold insert_blob in H. destruct (elem _ _) eqn:E; injection H as _ <-; [done|].
    apply elem_false in E. by apply rtc_once, cs_blob.
  - intros _ c u c' H. unfold insert_association in H. pass_guards H. injection H as _ <-.
    breflect. apply rtc_once, cs_association; tauto.
Qed.

Lemma ctx_steps_work id provenance status now :
  work_ok (new_work id provenance status now) ->
  ctx_steps (insert_ingress_work id provenance status now).
Proof. intros Hok c u c' (-> & Hn & Hid)%insert_work_Ok. by apply rtc_once, cs_work. Qed.

Lemma ctx_steps_update g f :
  (forall w, g w = true -> work_evolves w (f w)) -> ctx_steps (update_work g f).
Proof.
  intros Hf c n c' [= _ <-]. apply rtc_once, cs_work_update. intros w _.
  destruct (g w) eqn:E; [by apply Hf|done].
Qed.

Create HintDb csteps.
Hint Resolve ctx_steps_bind ctx_steps_ret ctx_steps_get ctx_steps_raise ctx_steps_optionally
  ctx_steps_when ctx_steps_core ctx_steps_event ctx_steps_policy ctx_steps_retain ctx_steps_work
  ctx_steps_update core_change_native : csteps.
Hint Extern 1 (ctx_steps (match ?x with _ => _ end)) => (destruct x) : csteps.

(** ** Admission *)

Record plan_ok (e : CanonicalEvent) (p : AttachmentAdmissionPlan) : Prop := {
  po_events : plan_of e p;
  po_blob : forall b, ap_retain p = Some b -> blob_ok b /\
    bl_content_ref b = ap_content_ref p /\ bl_size_bytes b = ap_size_bytes p;
  po_size : 0 <= ap_size_bytes p;
  po_forced : ap_forced_unavailable_reason p = None -> ap_retain p <> None
}.

Lemma descriptor_envelope e d e' :
  event_with_attachment_descriptor e d = Ok e' -> same_envelope e e'.
Proof.
  unfold event_with_attachment_descriptor. intros (x & _ & [= <-])%bind_Ok. done.
Qed.

Lemma build_attachment_plan_Ok e data limits now p :
  build_attachment_plan sha256 e data limits now = Ok p -> plan_ok e p.
Proof.
  unfold build_attachment_plan. intros (declared & _ & H)%bind_Ok. destruct declared as [d|]; [|done].
  case_match.
  - apply bind_Ok in H as (u & _ & H). apply bind_Ok in H as (e' & He & [= <-]).
    apply descriptor_envelope in He. split; [by split|done|simpl; lia|done].
  - apply bind_Ok in H as (kept & Hk & H). apply bind_Ok in H as (o & _ & H).
    apply bind_Ok in H as (quota & Hq & [= <-]).
    apply descriptor_envelope in Hk, Hq. split; [by split| |simpl; lia|done].
    intros b [= <-]. done.
Qed.

Lemma admission_plan_Ok a now plan p :
  admission_plan sha256 a now = Ok plan -> plan = Some p -> plan_ok (ad_event a) p.
Proof.
  unfold admission_plan. intros H ->. destruct (ad_attachment a) as [data|]; [|done].
  destruct (build_attachment_plan _ _ _ _ _) as [q|] eqn:E; [|done]. injection H as ->.
  by eapply build_attachment_plan_Ok.
Qed.

Lemma ceiling_steps id ceiling : ctx_steps (ceiling_to_install id ceiling).
Proof. intros c i c' (-> & _)%ceiling_to_install_Ok. done. Qed.

Lemma admit_new_steps e native provenance status now deadline plan ceiling :
  (forall p, plan = Some p -> plan_ok e p) ->
  work_ok (new_work (ev_event_id e) provenance status now) ->
  ctx_steps (admit_new e native provenance status now deadline plan ceiling).
Proof.
  intros Hp Hw. unfold admit_new.
  apply ctx_steps_bind; [apply ceiling_steps|]. intros install.
  apply ctx_steps_bind; [auto with csteps|]. intros decision.
  apply ctx_steps_bind; [apply ctx_steps_event; set_solver|]. intros _.
  apply ctx_steps_bind; [auto with csteps|]. intros _.
  apply ctx_steps_bind; [|intros _; auto 10 with csteps].
  apply ctx_steps_when. destruct plan as [p|]; simpl; [|auto with csteps].
  destruct (ap_retain p) as [b|] eqn:Hb; [|apply ctx_steps_ret].
  apply ctx_steps_retain. by apply (po_blob _ _ (Hp p eq_refl)).
Qed.

Lemma new_work_ok id provenance status now :
  provenance ∈ INGRESS_PROVENANCE_VALUES -> (provenance = "history" -> status = WSuppressedHistory) ->
  status <> WProcessing -> work_ok (new_work id provenance status now).
Proof. intros. by split. Qed.

Lemma admission_work_ok a now id :
  admission_checks a now = Ok tt -> work_ok (new_work id (ad_provenance a) (admission_status a) now).
Proof.
  unfold admission_checks. case_match eqn:E; [done|]. intros _. apply negb_false_iff, elem_true in E.
  apply new_work_ok; [done| |]; unfold admission_status.
  - intros ->. by rewrite bool_decide_eq_true_2, orb_true_r.
  - by case_match.
Qed.

Lemma sync_admit_steps e native provenance status now deadline plan ceiling :
  (forall p, plan = Some p -> plan_ok e p) ->
  (forall id, work_ok (new_work id provenance status now)) ->
  ctx_steps (sync_admit_ingress e native provenance status now deadline plan ceiling).
Proof.
  intros Hp Hw. unfold sync_admit_ingress. apply ctx_steps_bind; [auto with csteps|].
  intros [id|]; [|by apply admit_new_steps].
  apply ctx_steps_bind; [auto with csteps|]. intros work.
  apply ctx_steps_bind; [destruct work; auto with csteps|]. auto with csteps.
Qed.

Lemma admit_ingress_steps a now c : content_steps c (admit_ingress sha256 a now c).2.
Proof.
  unfold admit_ingress. destruct (admission_checks a now) as [[]|] eqn:Hc; [|done]. simpl.
  destruct (admission_plan sha256 a now) as [plan|] eqn:Hp; [|done].
  match goal with |- content_steps c (match wrap_event_error (catomically ?m c) with _ => _ end).2 =>
    assert (content_steps c (wrap_event_error (catomically m c)).2) as H end.
  - apply ctx_steps_catomically, sync_admit_steps.
    + intros p. by apply (admission_plan_Ok a now).
    + intros id. by apply admission_work_ok.
  - revert H. destruct (wrap_event_error _) as [[[[? ?] ?]|] c']; done.
Qed.

(** ** Work *)

Lemma claim_steps now worker limit lease_us c :
  content_inv (strict := strict) sha256 c -> content_steps c (claim_ingress_work now worker limit lease_us c).2.
Proof.
  intros Hok. unfold claim_ingress_work.
  destruct (catomically_wrap (sync_claim_ingress_work now (now + lease_us) worker limit) c)
    as [(rows & c' & H & ->)|(e & ->)]; [|done].
  pose proof (ok_work_unique _ _ Hok) as Hn.
  apply sync_claim_Ok in H as [_ ->]; [|done]. simpl. apply rtc_once, cs_work_update.
  intros w Hw. destruct (elem _ _) eqn:E; [|done]. apply elem_true in E.
  apply claim_work_evolves. by eapply claim_ids_claimable.
Qed.

Lemma owner_update_steps id worker f :
  (forall w, wk_status w = WProcessing -> work_evolves w (f w)) ->
  ctx_steps (update_work (work_owned_by id worker) f).
Proof. intros Hf. apply ctx_steps_update. intros w (_ & Hs & _)%work_owned_by_true. auto. Qed.

Lemma ingress_diagnostic_steps error now id : ctx_steps (insert_ingress_diagnostic error now id).
Proof.
  intros c u c'. unfold insert_ingress_diagnostic. destruct (find_work c id) as [w|].
  - intros (d & H & ->)%on_core_Ok. apply rtc_once, cs_core.
    eapply (keeps_insert_diagnostic core_change); [|exact H]. auto with keeps.
  - by intros [= _ <-].
Qed.

Lemma return_work_steps id worker error now f c :
  (forall w, wk_status w = WProcessing -> work_evolves w (f w)) ->
  content_steps c (return_work id worker error now f c).2.
Proof.
  intros Hf. apply ctx_steps_catomically. apply ctx_steps_bind; [by apply owner_update_steps|].
  intros n. apply ctx_steps_bind; [|auto with csteps].
  apply ctx_steps_when, ingress_diagnostic_steps.
Qed.

Lemma complete_steps id worker now c : content_steps c (complete_ingress_work id worker now c).2.
Proof.
  apply ctx_steps_catomically. apply ctx_steps_bind.
  { apply owner_update_steps. intros w Hw. apply unlock_work_evolves; [done|by intros []|done]. }
  intros n. apply ctx_steps_bind; [|auto with csteps]. apply ctx_steps_when, ctx_steps_core.
  apply tx_rel_modify. intros d. apply core_change_deps, deps_change_release.
  intros p. breflect. tauto.
Qed.

(** ** Grants and reads *)

Lemma observe_mandatory_steps id now c : content_steps c (observe_mandatory_expiry id now c).
Proof.
  apply rtc_once, cs_core, core_change_deps, deps_change_release.
  intros p. unfold expired_dependency. breflect. tauto.
Qed.

Lemma observe_optional_steps id now c : content_steps c (observe_optional_expiry id now c).
Proof.
  apply rtc_once, cs_grants. intros x.
  apply close_grant_evolves; [done..|].
  intros [[_ H]%andb_true_iff _]%andb_true_iff. done.
Qed.

Lemma hold_mutation_steps id h p issued :
  issued < ch_expires_at h -> ch_expires_at h <= vp_hard_ceiling p ->
  ctx_steps (hold_mutation id h p issued).
Proof.
  intros Hi He. unfold hold_mutation.
  apply ctx_steps_bind; [auto with csteps|]. intros live.
  apply ctx_steps_bind; [auto with csteps|]. intros owners.
  case_match; [auto with csteps|].
  intros c u c' (ceiling & c1 & [= <- <-] & (terms & c2 & [= <- <-] & (u1 & c3 & H3 & H4)
    %ctx_bind_Ok)%ctx_bind_Ok)%ctx_bind_Ok.
  apply ctx_bind_Ok in H4 as (old & c4 & [= <- <-] & H4).
  assert (content_steps c c3 /\ od_get id (access_policies (core c3)) = Some (vp_hard_ceiling p))
    as [Hs Hc].
  { destruct (od_get id (access_policies (core c))) as [t|] eqn:Et.
    - destruct (bool_decide (t = _)) eqn:Eb; [|done]. destruct (bool_decide (_ = Some (policy_row p)));
        [|done]. injection H3 as _ <-. apply bool_decide_eq_true in Eb as <-. done.
    - split; [by eapply ctx_steps_policy|]. unfold insert_policy in H3. pass_guards H3.
      injection H3 as _ <-. simpl. rewrite od_get_app_None by done. simpl. by rewrite decide_True. }
  etrans; [exact Hs|]. destruct (find_grant c3 id (ch_consumer h)) as [g|] eqn:Eg.
  - destruct (_ && grant_open g); [|done]. by injection H4 as _ <-.
  - injection H4 as _ <-. by eapply rtc_once, cs_grant.
Qed.

Lemma issue_body_hold_steps id h p now c : content_steps c (issue_body_hold id h p now c).2.
Proof.
  unfold issue_body_hold. destruct (hold_checks h p now) as [issued|] eqn:Hc; [|done].
  case_match; [done|]. cbv zeta.
  assert (issued < ch_expires_at h /\ ch_expires_at h <= vp_hard_ceiling p) as [Hi He].
  { revert Hc. unfold hold_checks. case_match; [done|]. case_match; [|done].
    repeat (case_match; [done|]). intros [= <-]. breflect. lia. }
  set (c1 := observe_optional_expiry _ _ _).
  assert (content_steps c c1) as H1
    by (etrans; [apply observe_mandatory_steps|apply observe_optional_steps]).
  destruct (hold_mutation id h p issued c1) as [[u c2]|e] eqn:Hm.
  - simpl. etrans; [exact H1|]. by eapply hold_mutation_steps.
  - by destruct e.
Qed.

Lemma revoke_body_hold_steps id consumer now c : content_steps c (revoke_body_hold id consumer now c).2.
Proof.
  simpl. etrans; [apply observe_optional_steps|]. apply rtc_once, cs_grants. intros x.
  apply close_grant_evolves; [done..|]. unfold revocable. intros [_ H]%andb_true_iff. done.
Qed.

Lemma read_owned_event_steps id kind owner now c :
  content_steps c (read_owned_event id kind owner now c).2.
Proof.
  unfold read_owned_event. cbv zeta. set (c1 := if bool_decide _ then _ else _).
  assert (content_steps c c1) as H1.
  { unfold c1. case_match; [etrans; [|apply observe_optional_steps]|]; apply observe_mandatory_steps. }
  repeat (case_match; try done).
Qed.

(** ** Retention *)

Lemma open_epoch_steps activated_by now c : content_steps c (open_retention_epoch activated_by now c).2.
Proof. unfold open_retention_epoch. case_match; [done|]. by apply rtc_once, cs_epoch. Qed.

Lemma heartbeat_steps epoch now c : content_steps c (observe_retention_heartbeat epoch now c).2.
Proof.
  unfold observe_retention_heartbeat. repeat (case_match; try done). apply rtc_once, cs_heartbeat.
  intros e. case_match eqn:E; [|done]. split; try done. simpl. intros t Ht. rewrite Ht in E.
  exists now. split; [done|]. breflect. lia.
Qed.

Lemma collect_steps elsewhere id dry_run epoch now c :
  content_steps c (collect_event_content elsewhere id dry_run epoch now c).2.
Proof.
  destruct (collect_event_content elsewhere id dry_run epoch now c) as [r c'] eqn:E.
  apply collect_eligible in E as [[-> _]|(rec & <- & _ & He & Hb & Hn & _ & _ & ->)]; [done|].
  apply rtc_once, cs_collect; try done. by apply no_blockers_settled in Hb as (_ & _ & ? & _).
Qed.

(** ** Executions *)

Context (json_loads : string -> option json).

Definition cstep (op : content_op) (c : cdb) : cdb :=
  match op with
  | CDelivery op => if is_environment op then c else set_core c (step op (core c))
  | CAppend e now => (append_event e now c).2
  | CAdmit a now => (admit_ingress sha256 a now c).2
  | CClaim now worker limit lease_us => (claim_ingress_work now worker limit lease_us c).2
  | CComplete id worker now => (complete_ingress_work id worker now c).2
  | CRelease id worker error now => (release_ingress_work id worker error now c).2
  | CDefer id worker error now => (defer_ingress_work id worker error now c).2
  | CFail id worker error now => (fail_ingress_work id worker error now c).2
  | CRenew id worker now lease_us => (renew_ingress_work_lease id worker now lease_us c).2
  | CCheckpoint k => (put_adapter_checkpoint json_loads k c).2
  | CIssueHold id h p now => (issue_body_hold id h p now c).2
  | CRevokeHold id consumer now => (revoke_body_hold id consumer now c).2
  | CReadBody id consumer now => (read_authorized_body id consumer now c).2
  | CReadOutboxBody id outbox_id_ now => (read_outbox_body id outbox_id_ now c).2
  | CReadEvent id kind owner now => (read_owned_event id kind owner now c).2
  | CAuthorize id outbox_id_ worker attempt now =>
      (authorize_native_submission id outbox_id_ worker attempt now c).2
  | COpenEpoch activated_by now => (open_retention_epoch activated_by now c).2
  | CHeartbeat epoch now => (observe_retention_heartbeat epoch now c).2
  | CCollect elsewhere id dry_run epoch now =>
      (collect_event_content elsewhere id dry_run epoch now c).2
  end.

Definition cexec (ops : list content_op) (c : cdb) : cdb := foldl (fun c op => cstep op c) c ops.

Lemma cstep_steps op c : content_inv (strict := strict) sha256 c -> content_steps c (cstep op c).
Proof.
  intros Hok. destruct op; simpl.
  - case_match eqn:E; [done|]. by apply rtc_once, cs_core, step_core_change.
  - apply ctx_steps_catomically, ctx_steps_event. set_solver.
  - apply admit_ingress_steps.
  - by apply claim_steps.
  - apply complete_steps.
  - apply return_work_steps. intros w Hw. apply unlock_work_evolves; [done|by intros []|done].
  - apply return_work_steps. intros w Hw. apply unlock_work_evolves; [done| |done].
    intros _. case_match; [|done]. breflect. lia.
  - apply return_work_steps. intros w Hw. apply unlock_work_evolves; [done|by intros []|done].
  - unfold renew_ingress_work_lease. case_match; [done|]. apply ctx_steps_catomically.
    apply ctx_steps_bind; [|auto with csteps]. apply owner_update_steps. intros w Hw.
    by apply renew_work_evolves.
  - unfold put_adapter_checkpoint. repeat (case_match; try done). apply rtc_once, cs_checkpoints.
  - apply issue_body_hold_steps.
  - apply revoke_body_hold_steps.
  - etrans; [apply observe_mandatory_steps|apply observe_optional_steps].
  - apply observe_mandatory_steps.
  - apply read_owned_event_steps.
  - unfold authorize_native_submission. repeat (case_match; try done). apply observe_mandatory_steps.
  - apply open_epoch_steps.
  - apply heartbeat_steps.
  - apply collect_steps.
Qed.

Lemma cexec_steps ops c : content_inv (strict := strict) sha256 c -> content_steps c (cexec ops c).
Proof.
  revert c. induction ops as [|op ops IH]; intros c Hok; simpl; [done|].
  pose proof (cstep_steps op c Hok) as Hs. etrans; [exact Hs|]. apply IH. by eapply content_steps_ok.
Qed.

Lemma cexec_ok ops c : content_inv (strict := strict) sha256 c -> content_inv (strict := strict) sha256 (cexec ops c).
Proof. intros Hok. by eapply content_steps_ok; [apply cexec_steps|]. Qed.

Lemma cexec_evolves ops c : content_inv (strict := strict) sha256 c -> content_evolves c (cexec ops c).
Proof. intros Hok. by eapply content_steps_evolves, cexec_steps. Qed.

(** ** Relations stored on their own *)

Lemma store_relation_Ok id r now c u c' :
  store_relation_ops id r now c = Ok (u, c') ->
  event_exists c id = true /\
  let key := Z.of_nat (length (relation_rows c)) + 1 in
  c' = set_relation_excerpts (set_relation_rows c (relation_rows c ++ [relation_row key id r now]))
         (relation_excerpts c ++ match rl_fallback_text r with Some s => [(key, s)] | None => [] end).
Proof.
  unfold store_relation_ops. intros (key & c1 & H1 & H2)%ctx_bind_Ok.
  unfold insert_relation in H1. destruct (event_exists c id); [|done]. injection H1 as <- <-.
  split; [done|]. unfold insert_excerpt in H2. destruct (rl_fallback_text r) as [t|].
  - by case_match; [done|]; injection H2 as _ <-.
  - injection H2 as _ <-. unfold set_relation_excerpts. simpl. by rewrite app_nil_r.
Qed.

(** The new excerpt belongs to the relation's own event. *)
Lemma excerpts_related id r now c u c' i :
  content_inv (strict := strict) sha256 c -> store_relation_ops id r now c = Ok (u, c') ->
  i <> id \/ rl_fallback_text r = None ->
  excerpts_of_event c i = [] -> excerpts_of_event c' i = [].
Proof.
  intros Hok (_ & ->)%store_relation_Ok Hi H. apply excerpts_of_event_nil.
  intros x w Hx Hw Hk He. simpl in Hx, Hw.
  assert (Hold : forall v, v ∈ relation_rows c -> 1 <= rw_id v <= Z.of_nat (length (relation_rows c))).
  { intros v Hv. assert (rw_id v ∈ rw_id <$> relation_rows c) as Hin by (by apply list_elem_of_fmap_2).
    rewrite (ok_relation_ids _ _ Hok) in Hin. apply elem_of_seqZ in Hin. lia. }
  apply elem_of_app in Hw as [Hw|Hw], Hx as [Hx|Hx].
  - by eapply (proj1 (excerpts_of_event_nil c i) H x w).
  - destruct (rl_fallback_text r); [|by apply not_elem_of_nil in Hx].
    apply list_elem_of_singleton in Hx as ->. simpl in Hk. apply Hold in Hw. lia.
  - apply list_elem_of_singleton in Hw as ->. simpl in Hk.
    pose proof (proj1 (Forall_forall _ _) (ok_excerpts _ _ Hok) x Hx) as Hb. simpl in Hb. lia.
  - apply list_elem_of_singleton in Hw as ->. simpl in He. subst i. destruct Hi as [Hi|Hi]; [done|].
    rewrite Hi in Hx. by apply not_elem_of_nil in Hx.
Qed.

(** Storing a relation keeps the invariant; in its strict form, when it
    brings no text to an event already collected. *)
Lemma store_relation_ok id r now c :
  (strict = true -> collected_before c id <> None -> rl_fallback_text r = None) ->
  content_inv (strict := strict) sha256 c ->
  content_inv (strict := strict) sha256 (store_relation id r now c).2.
Proof.
  intros Htext Hok. unfold store_relation.
  destruct (catomically_wrap (store_relation_ops id r now) c) as [(u & c' & H & ->)|(e & ->)]; [|done].
  simpl. pose proof (fun i => excerpts_related id r now c u c' i Hok H) as Hex.
  pose proof Hok as Hok0. apply store_relation_Ok in H as (Hid%event_exists_true & ->).
  destruct Hok. split; simpl; auto.
  - by apply Forall_snoc.
  - rewrite fmap_app, ok_relation_ids, length_app, Nat2Z.inj_add, seqZ_app by lia.
    f_equal. cbv [seqZ]. simpl. f_equal. lia.
  - rewrite length_app. cbn [length]. apply Forall_app_2.
    + eapply Forall_impl; [exact ok_excerpts|]. intros [k t]. simpl. lia.
    + destruct (rl_fallback_text r); repeat constructor; simpl; lia.
  - intros i present Hp. destruct (ok_presence i present Hp) as (H1 & H2 & H3).
    split_and!; [done|done|]. intros Hc. destruct (H3 Hc) as [Hb He]. split; [done|].
    intros Hs. apply Hex; [|by apply He]. destruct (decide (i = id)) as [->|]; auto.
Qed.

(** ** The whole store *)

(** Every operation of the content store: those above, and a relation stored
    for an event that exists already. *)
Inductive store_op : Type :=
| SContent (op : content_op)
| SRelation (id : string) (r : EventRelation) (now : instant).

Definition sstep (op : store_op) (c : cdb) : cdb :=
  match op with
  | SContent op => cstep op c
  | SRelation id r now => (store_relation id r now c).2
  end.

Fixpoint sexec (ops : list store_op) (c : cdb) : cdb :=
  match ops with [] => c | op :: rest => sexec rest (sstep op c) end.

(** No relation of the history brings text to an event already collected. *)
Fixpoint relations_timely (ops : list store_op) (c : cdb) : Prop :=
  match ops with
  | [] => True
  | op :: rest =>
      match op with
      | SContent _ => True
      | SRelation id r _ => collected_before c id <> None -> rl_fallback_text r = None
      end /\ relations_timely rest (sstep op c)
  end.

Lemma sexec_ok ops c :
  (strict = true -> relations_timely ops c) ->
  content_inv (strict := strict) sha256 c -> content_inv (strict := strict) sha256 (sexec ops c).
Proof.
  revert c. induction ops as [|op ops IH]; intros c Ht Hok; simpl; [done|]. apply IH.
  - intros Hs. by destruct (Ht Hs).
  - destruct op as [op|id r now]; simpl.
    + eapply content_steps_ok; [by apply cstep_steps|done].
    + apply store_relation_ok; [|done]. intros Hs. by destruct (Ht Hs).
Qed.
End safety.

(** C24: whatever sequence of admissions, claims, deliveries, holds, reads,
    collections and relations stored on their own is run from the empty database
    (in any interleaving of workers and with any clock readings), the tables
    satisfy the invariant: events, body facts and rows agree one to one, every
    event has a source dependency, native references, work rows, policies,
    grants, attachments and relations refer to events that exist, keys are
    unique, a work row is locked exactly while it is processed, history is never
    routed, no grant outlives its event's ceiling, retained bytes are stored
    under their digest and length, and an event admitted with text still has it
    or has exactly one record of its collection and no body row.  When moreover
    no relation with a quoted text was stored for an event already collected, a
    collected event has no excerpt left either. *)
Theorem content_reachable_ok sha256 json_loads ops :
  let c := sexec sha256 json_loads ops empty_cdb in
  content_inv (strict := false) sha256 c /\
  (relations_timely sha256 json_loads ops empty_cdb -> content_ok sha256 c).
Proof.
  split; [apply sexec_ok; [done|apply empty_content_ok]|].
  intros Ht. apply sexec_ok; [done|apply empty_content_ok].
Qed.

(** ** Examples *)

Module ContentExamples.

(** A stand-in digest of 64 hexadecimal digits (the low half of each byte,
    padded) and a parser that accepts nothing. *)
Fixpoint low_digits (s : string) : string :=
  match s with
  | EmptyString => ""
  | String a rest =>
      String.substring (Ascii.nat_of_ascii a mod 16) 1 "0123456789abcdef" +:+ low_digits rest
  end.
Definition digest (s : string) : string :=
  String.substring 0 64 (low_digits s +:+
    "0000000000000000000000000000000000000000000000000000000000000000").
Definition loads (_ : string) : option json := None.

Definition greeting : CanonicalEvent :=
  {| ev_columns :=
       {| ev_event_id := "e1"; ev_event_kind := MESSAGE_CREATED; ev_schema_version := 1;
          ev_timestamp := 5; ev_source_adapter := "mesh"; ev_source_transport_id := "node-1";
          ev_source_channel_id := Some "0"; ev_parent_event_id := None; ev_lineage := [];
          ev_depth := 0; ev_trace_id := None; ev_root_event_id := None;
          ev_conversation_id := None |};
     ev_relations :=
       [{| rl_type := "reply"; rl_target_event := Some "e0";
           rl_target_native := Some {| nf_adapter := "mesh"; nf_channel := Some "0";
                                       nf_message := "76"; nf_thread := None |};
           rl_key := None; rl_fallback_text := Some "earlier"; rl_metadata := [] |}];
     ev_payload :=
       [("body", JStr "hello"); (ATTACHMENT_PAYLOAD_KEY, JObj [("kind", JStr "image")])];
     ev_metadata :=
       {| em_transport := None;
          em_routing := Some {| rm_matched_routes := ["r1"]; rm_fanout_group := None;
                                rm_route_trace := ["mesh"] |};
          em_radio := None; em_telemetry := None; em_native := None; em_custom := [] |};
     ev_source_native_ref := Some {| nf_adapter := "mesh"; nf_channel := Some "0";
                                     nf_message := "77"; nf_thread := None |} |}.

Definition greeting_ref : NativeMessageRef :=
  {| nr_id := "n1"; nr_event_id := "e1"; nr_adapter := "mesh"; nr_native_channel_id := Some "0";
     nr_native_message_id := "77"; nr_native_thread_id := None; nr_native_relation_id := None;
     nr_direction := "inbound"; nr_metadata := []; nr_created_at := 10 |}.

(** A live message with an attachment of four bytes and a deadline. *)
Definition admit_greeting : admission :=
  {| ad_event := greeting; ad_native := Some greeting_ref; ad_provenance := "live";
     ad_suppress_routing := false; ad_attachment := Some "data";
     ad_limits := Some {| max_attachment_bytes := 8; max_retained_bytes := 16 |};
     ad_deadline := Some 1000 |}.

Definition session : list content_op :=
  [CAdmit admit_greeting 10; CClaim 20 "worker-1" 5 100; CReadEvent "e1" OwnerIngress "e1" 30;
   CComplete "e1" "worker-1" 40].

Definition session_db : cdb := cexec digest loads session empty_cdb.

(** The session admits, claims and completes the event. *)
Example session_completed :
  (wk_status <$> ingress_work session_db, canonical_events (core session_db), retained_bytes session_db)
  = ([WCompleted], ["e1"], 4).
Proof. vm_compute. reflexivity. Qed.

(** A reply is attached to the completed event, which is not collected. *)
Definition annotated : list store_op :=
  (SContent <$> session) ++
  [SRelation "e1" {| rl_type := "reply"; rl_target_event := Some "e0"; rl_target_native := None;
                     rl_key := None; rl_fallback_text := Some "earlier"; rl_metadata := [] |} 50].

Lemma content_reachable_ok_witness :
  length (relation_rows (sexec digest loads annotated empty_cdb)) = 2%nat /\
  content_ok digest (sexec digest loads annotated empty_cdb).
Proof.
  split; [vm_compute; reflexivity|].
  apply (content_reachable_ok digest loads annotated).
  cbn [annotated session fmap list_fmap app relations_timely]. split_and!; try exact I.
  intros H. exfalso. apply H. vm_compute. reflexivity.
Defined.

End ContentExamples.
