(* ===== verification/IngressSafety.v ===== *)
(** * Admission is idempotent and bounded, claims are exclusive

    What an admission does on every branch, its retention quota over every
    execution, and the lease of a claimed work row. *)

From S2P Require Import Prelude.
From S2P Require Import Json.
From S2P Require Import DeliveryState.
From S2P Require Import Delivery.
From S2P Require Import Store.
From S2P Require Import Outbox.
From S2P Require Import OutboxProofs.
From S2P Require Import Attachments.
From S2P Require Import Events.
From S2P Require Import ContentStore.
From S2P Require Import Ingress.
From S2P Require Import IngressProofs.
From S2P Require Import ContentGrants.
From S2P Require Import Retention.
From S2P Require Import ContentSteps.
From S2P Require Import ContentSafety.

Open Scope string_scope.
Open Scope list_scope.
Open Scope Z_scope.

(** ** What an operation leaves alone *)

Section ctx_same.
Context {T : Type} (f : cdb -> T).

Definition ctx_same {A} (m : ctx A) : Prop := forall c a c', m c = Ok (a, c') -> f c' = f c.

Lemma ctx_same_bind {A B} (m : ctx A) (k : A -> ctx B) :
  ctx_same m -> (forall a, ctx_same (k a)) -> ctx_same (m ≫= k).
Proof.
  intros Hm Hk c b c' (a & c1 & H1 & H2)%ctx_bind_Ok. apply Hk in H2 as ->. by eapply Hm.
Qed.

Lemma ctx_same_ret {A} (a : A) : ctx_same (mret a).
Proof. by intros c b c' [= _ <-]. Qed.
Lemma ctx_same_when b m : ctx_same m -> ctx_same (cwhen b m).
Proof. destruct b; [done|intros _; apply ctx_same_ret]. Qed.
Lemma ctx_same_core {A} (m : tx A) : (forall c d, f (set_core c d) = f c) -> ctx_same (on_core m).
Proof. intros Hf c a c' (d & H & ->)%on_core_Ok. apply Hf. Qed.
Lemma ctx_same_diagnostic error now id :
  (forall c d, f (set_core c d) = f c) -> ctx_same (insert_ingress_diagnostic error now id).
Proof.
  intros Hf c u c'. unfold insert_ingress_diagnostic. case_match; [|by intros [= _ <-]].
  by apply ctx_same_core.
Qed.
Lemma ctx_same_catomically {A} (m : ctx A) c :
  ctx_same m -> f (wrap_event_error (catomically m c)).2 = f c.
Proof.
  intros Hm. destruct (catomically_wrap m c) as [(a & c' & H & ->)|(e & ->)]; [|done]. by eapply Hm.
Qed.
End ctx_same.

Section safety.
Context (sha256 : string -> string).

(** ** Admission on every branch *)

Definition limits_of (a : admission) : AttachmentLimits := default default_limits (ad_limits a).

(** A transaction's result after the [except] clauses. *)
Lemma wrap_Ok {A} (m : ctx A) c a c' :
  wrap_event_error (catomically m c) = (Ok a, c') <-> m c = Ok (a, c').
Proof.
  unfold catomically. destruct (m c) as [[b c1]|e]; simpl; [split; congruence|].
  destruct e; simpl; split; congruence.
Qed.

Lemma wrap_Raise {A} (m : ctx A) c e c' :
  wrap_event_error (catomically m c) = (Raise e, c') -> c' = c.
Proof.
  intros H. destruct (catomically_wrap m c) as [(a & c1 & _ & E)|(e' & E)]; rewrite E in H; congruence.
Qed.

Lemma find_work_elem c id w : find_work c id = Some w -> w ∈ ingress_work c /\ wk_event_id w = id.
Proof.
  unfold find_work. intros [Hin H]%find_Some_elem. by apply bool_decide_eq_true in H.
Qed.

Lemma find_work_None c id : find_work c id = None <-> id ∉ wk_event_id <$> ingress_work c.
Proof.
  unfold find_work. rewrite find_None_elem. split.
  - intros H (w & -> & Hw)%list_elem_of_fmap. apply H in Hw. by apply bool_decide_eq_false in Hw.
  - intros H w Hw. apply bool_decide_eq_false. intros <-. apply H. by apply list_elem_of_fmap_2.
Qed.

Lemma find_work_unique c w :
  NoDup (wk_event_id <$> ingress_work c) -> w ∈ ingress_work c -> find_work c (wk_event_id w) = Some w.
Proof.
  intros Hn Hw. destruct (find_work c (wk_event_id w)) as [v|] eqn:E.
  - apply find_work_elem in E as [Hv Hid]. f_equal. by eapply NoDup_fmap_inj_on.
  - apply find_work_None in E. exfalso. apply E. by apply list_elem_of_fmap_2.
Qed.

(** An event that is stored already: at most its missing work row is added. *)
Lemma admit_existing_run (e : CanonicalEvent) native provenance status now deadline plan ceiling id c :
  existing_event c native (ev_event_id e) = Some id -> in_events c id ->
  sync_admit_ingress e native provenance status now deadline plan ceiling c =
  let c' := match find_work c id with
            | Some _ => c
            | None => set_ingress_work c (ingress_work c ++ [new_work id provenance status now])
            end in
  Ok ((id, false, existing_attachment_fact c id), c').
Proof.
  intros He Hin. unfold sync_admit_ingress. unfold mbind, ctx_bind, cget. rewrite He. simpl.
  destruct (find_work c id) as [w|] eqn:Hw; [done|].
  unfold insert_ingress_work. apply find_work_None, elem_false in Hw. rewrite Hw.
  apply event_exists_true in Hin. rewrite Hin. done.
Qed.

Lemma existing_event_in c native id found :
  content_ok sha256 c -> existing_event c native id = Some found -> in_events c found.
Proof.
  intros Hok. destruct native as [n|]; simpl.
  - unfold resolve_native_ref. destruct (List.find _ _) as [m|] eqn:E; [|done]. intros [= <-].
    apply find_Some_elem in E as [Hm _].
    apply (proj1 (Forall_forall _ _) (ok_natives _ _ Hok) m Hm).
  - case_match eqn:E; [|done]. intros [= <-]. by apply event_exists_true.
Qed.

Lemma existing_result_Ok c id fact w :
  content_ok sha256 c -> find_work c id = Some w ->
  exists r, admission_result_for_existing c id fact = Ok r /\ ar_created r = false /\
    ar_event_id r = id /\ ar_work_status r = wk_status w.
Proof.
  intros Hok Hw. unfold admission_result_for_existing. rewrite Hw.
  apply find_work_elem in Hw as [Hin _].
  destruct (proj1 (Forall_forall _ _) (ok_work _ _ Hok) w Hin) as [_ Hwk].
  rewrite (proj2 (elem_true _ _) (wo_provenance _ Hwk)). simpl. eauto 10.
Qed.

(** The table with its missing work row added, for an event stored already. *)
Definition repaired (a : admission) (now : instant) (id : string) (c : cdb) : cdb :=
  match find_work c id with
  | Some _ => c
  | None => set_ingress_work c
              (ingress_work c ++ [new_work id (ad_provenance a) (admission_status a) now])
  end.

Lemma repaired_ok a now id c :
  admission_checks a now = Ok tt -> content_ok sha256 c -> in_events c id ->
  content_ok sha256 (repaired a now id c) /\ exists w, find_work (repaired a now id c) id = Some w.
Proof.
  intros Hc Hok Hin. unfold repaired. destruct (find_work c id) as [w|] eqn:Hw; [eauto|].
  set (w := new_work id (ad_provenance a) (admission_status a) now).
  assert (content_ok sha256 (set_ingress_work c (ingress_work c ++ [w]))) as Hok'.
  { eapply content_step_ok; [|exact Hok]. apply cs_work; [by apply find_work_None| |].
    - by apply event_exists_true.
    - by apply admission_work_ok. }
  split; [done|]. exists w.
  apply (find_work_unique (set_ingress_work c (ingress_work c ++ [w])) w).
  - apply (ok_work_unique _ _ Hok').
  - simpl. set_solver.
Qed.

Definition admission_ceiling (a : admission) (now : instant) : option (instant * Z) :=
  (fun t => (t, t - now)) <$> ad_deadline a.

(** The bytes an admission keeps. *)
Definition admission_keep (a : admission) (now : instant) (plan : option AttachmentAdmissionPlan)
    (c : cdb) : option Blob :=
  match plan with
  | Some p => if (retention_decision p c).1 then ap_retain p else None
  | None => None
  end.

Definition admission_event (a : admission) (plan : option AttachmentAdmissionPlan) (c : cdb)
    : CanonicalEvent :=
  chosen_event (ad_event a) plan
    (match plan with Some p => retention_decision p c | None => (false, None) end).

(** ** The three outcomes of an admission *)
Inductive admission_outcome (a : admission) (now : instant) (c : cdb)
    : result exc AdmissionResult -> cdb -> Prop :=
(** rejected: nothing changes *)
| outcome_rejected e : admission_outcome a now c (Raise e) c
(** stored already: at most its missing work row is added *)
| outcome_known r :
    ar_created r = false -> in_events c (ar_event_id r) ->
    existing_event c (ad_native a) (ev_event_id (ad_event a)) = Some (ar_event_id r) ->
    admission_outcome a now c (Ok r) (repaired a now (ar_event_id r) c)
(** new: the event, its policy, bytes, native reference and work row together *)
| outcome_new r plan :
    ar_created r = true -> ar_event_id r = ev_event_id (ad_event a) ->
    ar_work_status r = admission_status a ->
    existing_event c (ad_native a) (ev_event_id (ad_event a)) = None ->
    ~ in_events c (ev_event_id (ad_event a)) ->
    admission_plan sha256 a now = Ok plan ->
    same_envelope (ad_event a) (admission_event a plan c) ->
    admission_outcome a now c (Ok r)
      (admission_db (admission_event a plan c) (ad_native a) (ad_provenance a) (admission_status a)
         now (ad_deadline a) (admission_ceiling a now) (admission_keep a now plan c) c).

Lemma policy_absent c id :
  content_ok sha256 c -> ~ in_events c id -> od_get id (access_policies (core c)) = None.
Proof.
  intros Hok Hn. apply od_get_None. intros (kv & -> & Hkv)%list_elem_of_fmap. apply Hn.
  apply (proj1 (Forall_forall _ _) (ok_policy_events _ _ Hok) kv Hkv).
Qed.

Lemma admit_new_outcome a now c plan id created fact c' :
  content_ok sha256 c -> admission_plan sha256 a now = Ok plan ->
  admit_new (ad_event a) (ad_native a) (ad_provenance a) (admission_status a) now (ad_deadline a)
    plan (admission_ceiling a now) c = Ok ((id, created, fact), c') ->
  id = ev_event_id (ad_event a) /\ created = true /\ ~ in_events c id /\
  same_envelope (ad_event a) (admission_event a plan c) /\
  c' = admission_db (admission_event a plan c) (ad_native a) (ad_provenance a) (admission_status a)
         now (ad_deadline a) (admission_ceiling a now) (admission_keep a now plan c) c.
Proof.
  intros Hok Hp H. apply admit_new_Ok in H
    as (decision & install & e' & -> & -> & -> & -> & -> & Henv & Hex%event_exists_false & Hi & Hi' & _ & ->).
  - split_and!; try done. f_equal.
    + destruct Hi as [-> |[-> _]]; [|done]. unfold admission_ceiling in *.
      destruct (ad_deadline a) as [t|]; [|done]. simpl in *.
      specialize (Hi' t (t - now) eq_refl eq_refl). by rewrite policy_absent in Hi'.
    + destruct plan as [p|]; [done|]. done.
  - intros p ->. by apply (po_events sha256), (admission_plan_Ok sha256 a now (Some p)).
Qed.

(** An admission has exactly three outcomes. Rejected: nothing changes at
    all. The event (found by its native identity, or by its id) is stored
    already: the answer names it and at most its missing work row is added.
    New: the event row, its separated text, routing facts, relations,
    source dependency, access ceiling, native reference, retained bytes and
    work row are committed together, and the caller is told the work status. *)
Theorem admit_ingress_outcomes a now c :
  content_ok sha256 c ->
  admission_outcome a now c (admit_ingress sha256 a now c).1 (admit_ingress sha256 a now c).2.
Proof.
  intros Hok. unfold admit_ingress.
  destruct (admission_checks a now) as [[]|e] eqn:Hc; [|apply outcome_rejected].
  cbn [mbind result_bind]. destruct (admission_plan sha256 a now) as [plan|e] eqn:Hp; [|apply outcome_rejected].
  destruct (existing_event c (ad_native a) (ev_event_id (ad_event a))) as [id|] eqn:He.
  - pose proof (existing_event_in _ _ _ _ Hok He) as Hin.
    destruct (repaired_ok a now id c Hc Hok Hin) as [Hok' [w Hw]].
    rewrite (proj2 (wrap_Ok _ _ _ _) (admit_existing_run _ _ _ _ _ _ _ _ id c He Hin)). simpl.
    destruct (existing_result_Ok _ id (existing_attachment_fact c id) w Hok' Hw) as (r & Hr & Hcr & Hid & _).
    unfold repaired in Hr. rewrite Hr. rewrite <- Hid in *. by apply outcome_known.
  - destruct (wrap_event_error _) as [[[[id created] fact]|e] c'] eqn:Hrun.
    + apply wrap_Ok in Hrun. unfold sync_admit_ingress in Hrun.
      apply ctx_bind_Ok in Hrun as (found & c1 & [= <- <-] & Hrun). rewrite He in Hrun.
      destruct (admit_new_outcome _ _ _ _ _ _ _ _ Hok Hp Hrun) as (-> & -> & Hn & Henv & ->).
      simpl. by apply outcome_new.
    + apply wrap_Raise in Hrun as ->. apply outcome_rejected.
Qed.

(** ** Admitting again *)

Context (json_loads : string -> option json).

(** The same message: the same native identity, or the same event id where
    neither admission carries one. *)
Definition same_message (a b : admission) : Prop :=
  match ad_native a, ad_native b with
  | Some n, Some m => native_ref_identity n = native_ref_identity m
  | None, None => ev_event_id (ad_event a) = ev_event_id (ad_event b)
  | _, _ => False
  end.

(** The second admission's arguments are accepted. *)
Definition acceptable (a : admission) (now : instant) : bool :=
  isOk (admission_checks a now) && isOk (admission_plan sha256 a now).

Lemma find_prefix {A} (f : A -> bool) l l' x :
  l `prefix_of` l' -> List.find f l = Some x -> List.find f l' = Some x.
Proof. intros [k ->]. induction l as [|y l IH]; simpl; [done|]. by destruct (f y). Qed.

Lemma find_app_last {A} (f : A -> bool) l x :
  List.find f l = None -> f x = true -> List.find f (l ++ [x]) = Some x.
Proof. intros Hn Hx. induction l as [|y l IH]; simpl in *; [by rewrite Hx|]. destruct (f y); auto. done. Qed.

Lemma admission_native a now n :
  admission_checks a now = Ok tt -> ad_native a = Some n -> nr_event_id n = ev_event_id (ad_event a).
Proof.
  unfold admission_checks. intros H Hn. rewrite Hn in H. case_match; [done|].
  case_match eqn:E; [done|]. by apply negb_false_iff, bool_decide_eq_true in E.
Qed.

Lemma admitted_findable a b now c plan :
  admission_checks a now = Ok tt -> same_message a b ->
  existing_event c (ad_native a) (ev_event_id (ad_event a)) = None ->
  same_envelope (ad_event a) (admission_event a plan c) ->
  forall c', content_evolves (admission_db (admission_event a plan c) (ad_native a) (ad_provenance a)
      (admission_status a) now (ad_deadline a) (admission_ceiling a now)
      (admission_keep a now plan c) c) c' ->
  existing_event c' (ad_native b) (ev_event_id (ad_event b)) = Some (ev_event_id (ad_event a)).
Proof.
  unfold same_message. intros Hc Hs He [Hcol _] c' Hev.
  destruct (ad_native a) as [n|] eqn:Hn, (ad_native b) as [m|]; try done.
  - simpl. unfold resolve_native_ref. simpl in He. unfold resolve_native_ref in He.
    apply ce_natives in Hev. simpl in Hev. rewrite (find_prefix _ _ _ n Hev).
    + simpl. f_equal. by eapply admission_native.
    + destruct (List.find _ _) eqn:E; [done|]. rewrite <- Hs. apply find_app_last; [|by apply bool_decide_eq_true].
      done.
  - simpl. rewrite <- Hs. replace (event_exists c' _) with true; [done|]. symmetry.
    apply event_exists_true. apply ce_events in Hev. simpl in Hev. rewrite Hcol in Hev.
    destruct Hev as [k Hev]. unfold in_events. rewrite Hev. set_solver.
Qed.

(** The work row of an admitted event is still there. *)
Lemma work_kept c c' w :
  content_ok sha256 c' -> content_evolves c c' -> w ∈ ingress_work c ->
  exists w', find_work c' (wk_event_id w) = Some w' /\ work_evolves w w'.
Proof.
  intros Hok Hev Hw. destruct (list_evolves_elem _ _ _ w (ce_work _ _ Hev) Hw) as (w' & Hw' & He).
  exists w'. split; [|done]. rewrite <- (we_id _ _ He). by apply find_work_unique; [apply (ok_work_unique _ _ Hok)|].
Qed.

Lemma admit_accepted a now c r c' :
  admit_ingress sha256 a now c = (Ok r, c') -> admission_checks a now = Ok tt.
Proof. unfold admit_ingress. by destruct (admission_checks a now) as [[]|]. Qed.

(** C25: once an admission has created an event, admitting the same message
    again, after any sequence of operations, with any payload, provenance,
    deadline or attachment that passes validation, and at any clock reading,
    creates nothing: the answer names the first event and the database is left exactly as it was. *)
Theorem admission_idempotent a b now now' c r c1 ops :
  content_ok sha256 c -> admit_ingress sha256 a now c = (Ok r, c1) -> ar_created r = true ->
  same_message a b -> acceptable b now' = true ->
  let c2 := cexec sha256 json_loads ops c1 in
  exists r', admit_ingress sha256 b now' c2 = (Ok r', c2) /\ ar_created r' = false /\
    ar_event_id r' = ar_event_id r.
Proof.
  intros Hok Hr Hcreated Hsame Hacc c2.
  pose proof (admit_accepted _ _ _ _ _ Hr) as Hchecks.
  pose proof (admit_ingress_outcomes a now c Hok) as Hout. rewrite Hr in Hout. simpl in Hout.
  assert (content_ok sha256 c1) as Hok1.
  { pose proof (admit_ingress_steps sha256 a now c) as Hs. rewrite Hr in Hs. by eapply content_steps_ok. }
  pose proof (cexec_ok sha256 json_loads ops c1 Hok1) as Hok2. fold c2 in Hok2.
  pose proof (cexec_evolves sha256 json_loads ops c1 Hok1) as Hev. fold c2 in Hev.
  inversion Hout as [|r0 Hcr|r0 plan Hcr Hid Hst Hnone Hnin Hplan Henv]; subst; [congruence|].
  pose proof (admitted_findable _ b _ _ _ Hchecks Hsame Hnone Henv c2 Hev) as Hfound.
  destruct (work_kept _ c2 (new_work (ev_event_id (ad_event a)) (ad_provenance a) (admission_status a) now)
    Hok2 Hev) as (w & Hw & _).
  { simpl. destruct Henv as [-> _]. set_solver. }
  simpl in Hw. unfold acceptable in Hacc. apply andb_true_iff in Hacc as [Hb1 Hb2].
  unfold admit_ingress. destruct (admission_checks b now') as [[]|]; [|done]. cbn [mbind result_bind].
  destruct (admission_plan sha256 b now') as [plan'|]; [|done].
  pose proof (existing_event_in _ _ _ _ Hok2 Hfound) as Hin.
  rewrite (proj2 (wrap_Ok _ _ _ _) (admit_existing_run _ _ _ _ _ _ _ _ _ c2 Hfound Hin)). rewrite Hw. simpl.
  destruct (existing_result_Ok c2 _ (existing_attachment_fact c2 (ev_event_id (ad_event a))) w Hok2 Hw)
    as (r' & -> & ? & ? & _). exists r'. rewrite Hid. done.
Qed.

(** ** Operations that neither admit through ingress nor claim work *)

Definition passive (op : content_op) : bool :=
  match op with
  | CDelivery _ | CAppend _ _ | CCheckpoint _ | CIssueHold _ _ _ _ | CRevokeHold _ _ _
  | CReadBody _ _ _ | CReadOutboxBody _ _ _ | CReadEvent _ _ _ _ | CAuthorize _ _ _ _ _
  | COpenEpoch _ _ | CHeartbeat _ _ => true
  | _ => false
  end.

Section passive.
Context {T : Type} (f : cdb -> T).
Context (f_core : forall c d, f (set_core c d) = f c)
        (f_grants : forall c g, f (set_grants c g) = f c)
        (f_policies : forall c p, f (set_policy_terms c p) = f c)
        (f_checkpoints : forall c k, f (set_checkpoints c k) = f c)
        (f_admitted : forall e kind now dl c, f (admitted e kind now dl c) = f c)
        (f_epochs : forall c es, f (set_retention_epochs c es) = f c).

Lemma hold_mutation_same id h p issued : ctx_same f (hold_mutation id h p issued).
Proof.
  unfold hold_mutation. apply ctx_same_bind; [by intros c a c' [= _ <-]|]. intros live.
  apply ctx_same_bind; [by intros c a c' [= _ <-]|]. intros owners. case_match; [done|].
  apply ctx_same_bind; [by intros c a c' [= _ <-]|]. intros ceiling.
  apply ctx_same_bind; [by intros c a c' [= _ <-]|]. intros terms.
  apply ctx_same_bind.
  - destruct ceiling; [case_match; [apply ctx_same_ret|done]|].
    intros c u c' H'. unfold insert_policy in H'. pass_guards H'. injection H' as _ <-.
    by rewrite f_policies, f_core.
  - intros _. apply ctx_same_bind; [by intros c a c' [= _ <-]|]. intros [g|].
    + case_match; [apply ctx_same_ret|done].
    + intros c u c' [= _ <-]. apply f_grants.
Qed.

Lemma observe_optional_same id now c : f (observe_optional_expiry id now c) = f c.
Proof. apply f_grants. Qed.
Lemma observe_mandatory_same id now c : f (observe_mandatory_expiry id now c) = f c.
Proof. apply f_core. Qed.

Lemma passive_same op c : passive op = true -> f (cstep sha256 json_loads op c) = f c.
Proof.
  destruct op; try done; intros _; simpl.
  - case_match; auto.
  - apply ctx_same_catomically. intros c1 u c' (-> & _)%event_admission_Ok. auto.
  - unfold put_adapter_checkpoint. repeat (case_match; simpl; auto).
  - unfold issue_body_hold. case_match; [|done]. case_match; [done|]. cbv zeta.
    set (c1 := observe_optional_expiry _ _ _).
    assert (f c1 = f c) as H1 by (unfold c1; by rewrite observe_optional_same, observe_mandatory_same).
    destruct (hold_mutation id h p a c1) as [[u c2]|e] eqn:Hm; [|by destruct e].
    apply hold_mutation_same in Hm. simpl. congruence.
  - by rewrite f_grants, observe_optional_same.
  - by rewrite observe_optional_same, observe_mandatory_same.
  - apply observe_mandatory_same.
  - unfold read_owned_event. cbv zeta. set (c1 := if bool_decide _ then _ else _).
    assert (f c1 = f c) as H1 by (unfold c1; case_match; by rewrite ?observe_optional_same, observe_mandatory_same).
    repeat (case_match; simpl; auto).
  - unfold authorize_native_submission. repeat (case_match; simpl; auto using observe_mandatory_same).
  - unfold open_retention_epoch. case_match; simpl; auto.
  - unfold observe_retention_heartbeat. repeat (case_match; simpl; auto).
Qed.
End passive.

Lemma collect_same {T} (f : cdb -> T) elsewhere id dry_run epoch now c :
  (forall id l c, f (collected id l c) = f c) ->
  f (collect_event_content elsewhere id dry_run epoch now c).2 = f c.
Proof.
  intros Hf. destruct (collect_event_content _ _ _ _ _ _) as [r c'] eqn:E.
  apply collect_eligible in E as [[-> _]|(? & _ & _ & _ & _ & _ & _ & _ & ->)]; simpl; auto.
Qed.

(** ** Operations that neither admit through ingress nor collect *)

Definition storing (op : content_op) : bool :=
  match op with CAdmit _ _ | CCollect _ _ _ _ _ => true | _ => false end.

Section unchanged.
Context {T : Type} (f : cdb -> T).
Context (f_core : forall c d, f (set_core c d) = f c)
        (f_grants : forall c g, f (set_grants c g) = f c)
        (f_policies : forall c p, f (set_policy_terms c p) = f c)
        (f_checkpoints : forall c k, f (set_checkpoints c k) = f c)
        (f_admitted : forall e kind now dl c, f (admitted e kind now dl c) = f c)
        (f_epochs : forall c es, f (set_retention_epochs c es) = f c)
        (f_work : forall c ws, f (set_ingress_work c ws) = f c).

Lemma owner_update_same id worker g : ctx_same f (update_work (work_owned_by id worker) g).
Proof. intros c n c' [= _ <-]. apply f_work. Qed.

Lemma return_work_same id worker error now g c : f (return_work id worker error now g c).2 = f c.
Proof.
  apply ctx_same_catomically, ctx_same_bind; [apply owner_update_same|]. intros n.
  apply ctx_same_bind; [|intros _; apply ctx_same_ret]. by apply ctx_same_when, ctx_same_diagnostic.
Qed.

Lemma step_same op c :
  content_ok sha256 c -> storing op = false -> f (cstep sha256 json_loads op c) = f c.
Proof.
  intros Hok Hop. destruct (passive op) eqn:Hp; [by apply passive_same|].
  destruct op; try done; simpl; try apply return_work_same.
  - unfold claim_ingress_work. destruct (wrap_event_error _) as [[rows|e] c'] eqn:H.
    + apply wrap_Ok in H. apply sync_claim_Ok in H as [_ ->]; [by apply f_work|].
      apply (ok_work_unique _ _ Hok).
    + by apply wrap_Raise in H as ->.
  - apply ctx_same_catomically, ctx_same_bind; [apply owner_update_same|]. intros n.
    apply ctx_same_bind; [|intros _; apply ctx_same_ret]. by apply ctx_same_when, ctx_same_core.
  - unfold renew_ingress_work_lease. case_match; [done|].
    apply ctx_same_catomically, ctx_same_bind; [apply owner_update_same|intros n; apply ctx_same_ret].
Qed.
End unchanged.

(** ** The retention quota *)

Definition admits_within (quota : Z) (op : content_op) : Prop :=
  match op with
  | CAdmit a _ => max_retained_bytes (limits_of a) <= quota
  | _ => True
  end.

Lemma retained_bytes_snoc c b :
  retained_bytes (set_blobs c (blobs c ++ [b])) = retained_bytes c + bl_size_bytes b.
Proof.
  unfold retained_bytes. simpl. rewrite fmap_app. simpl.
  generalize (bl_size_bytes <$> blobs c). intros l. induction l; simpl; lia.
Qed.

Lemma plan_quota a now plan p :
  admission_plan sha256 a now = Ok plan -> plan = Some p ->
  ap_max_retained_bytes p = max_retained_bytes (limits_of a).
Proof.
  unfold admission_plan. intros H ->. destruct (ad_attachment a) as [data|]; [|done].
  destruct (build_attachment_plan _ _ _ _ _) as [q|] eqn:E; [|done]. injection H as ->.
  revert E. unfold build_attachment_plan. intros (d & _ & H)%bind_Ok. destruct d; [|done].
  case_match.
  - apply bind_Ok in H as (u & _ & H). apply bind_Ok in H as (e & _ & [= <-]). done.
  - apply bind_Ok in H as (u & _ & H). apply bind_Ok in H as (e & _ & H).
    apply bind_Ok in H as (q & _ & [= <-]). done.
Qed.

(** What an admission adds is within its quota. *)
Lemma admission_blobs a now plan c :
  admission_plan sha256 a now = Ok plan ->
  let bs := match admission_keep a now plan c with Some b => blob_added b (blobs c) | None => blobs c end in
  retained_bytes (set_blobs c bs) = retained_bytes c \/
  retained_bytes (set_blobs c bs) <= max_retained_bytes (limits_of a).
Proof.
  intros Hp. destruct plan as [p|]; simpl; [|auto].
  pose proof (admission_plan_Ok sha256 a now _ p Hp eq_refl) as Hok.
  pose proof (plan_quota _ _ _ p Hp eq_refl) as Hq. unfold retention_decision.
  destruct (ap_forced_unavailable_reason p); [by left|].
  destruct (ap_retain p) as [b|] eqn:Hb; [|left; by repeat case_match].
  destruct (po_blob _ _ _ Hok b Hb) as (_ & Hr & Hs). rewrite <- Hr. unfold blob_added.
  destruct (elem (bl_content_ref b) (bl_content_ref <$> blobs c)) eqn:E; [simpl; rewrite E; by left|].
  destruct (_ <? _) eqn:Hlt; simpl; [by left|]. rewrite E.
  right. rewrite retained_bytes_snoc. breflect. lia.
Qed.

Lemma cstep_blobs op c :
  content_ok sha256 c -> (forall a now, op <> CAdmit a now) ->
  blobs (cstep sha256 json_loads op c) = blobs c.
Proof.
  intros Hok Hop. destruct (storing op) eqn:Hp; [|by apply (step_same blobs)].
  destruct op; try done; simpl; [by destruct (Hop a now)|]. by apply collect_same.
Qed.

Lemma retained_bytes_blobs c c' : blobs c' = blobs c -> retained_bytes c' = retained_bytes c.
Proof. unfold retained_bytes. by intros ->. Qed.

Lemma cstep_quota quota op c :
  content_ok sha256 c -> admits_within quota op -> retained_bytes c <= quota ->
  retained_bytes (cstep sha256 json_loads op c) <= quota.
Proof.
  intros Hok Hop Hc. destruct op as [|?|a now|?|?|?|?|?|?|?|?|?|?|?|?|?|?|?|?];
    try (erewrite retained_bytes_blobs; [done|by apply cstep_blobs]).
  simpl in *. destruct (admit_ingress_outcomes a now c Hok) as [e|r Hr Hin He|r plan ? ? ? ? ? Hplan ?].
  - done.
  - erewrite retained_bytes_blobs; [done|]. unfold repaired. by case_match.
  - destruct (admission_blobs a now plan c Hplan) as [H'|H'];
      (erewrite retained_bytes_blobs; [|reflexivity]); cbv zeta in H';
      unfold admission_db; unfold retained_bytes in *; simpl in *; lia.
Qed.

(** C34: when every admission runs under a limit of at most [quota] retained
    bytes, the bytes kept for attachments never exceed [quota], whatever
    else happens and however admissions interleave: the total is measured inside the
    transaction that adds to it. *)
Theorem retention_quota quota ops :
  0 <= quota -> Forall (admits_within quota) ops ->
  retained_bytes (cexec sha256 json_loads ops empty_cdb) <= quota.
Proof.
  intros Hq Hops.
  assert (forall c, content_ok sha256 c -> retained_bytes c <= quota ->
            retained_bytes (cexec sha256 json_loads ops c) <= quota) as H.
  { induction Hops as [|op ops Hop Hops IH]; intros c Hok Hc; [done|]. simpl. apply IH.
    - eapply content_steps_ok; [by apply (cstep_steps (strict := true))|done].
    - by apply cstep_quota. }
  apply H; [apply empty_content_ok|done].
Qed.

(** ** The lease of a claimed row *)

(** A row held by [worker] until [until]. *)
Definition held (worker : string) (until : instant) (w : WorkRow) : Prop :=
  wk_status w = WProcessing /\ wk_worker_id w = Some worker /\ wk_lease_until w = Some until.

(** Anything but the owner's own statements and claims after the lease. *)
Definition leaves_claim (id worker : string) (until : instant) (op : content_op) : Prop :=
  match op with
  | CClaim now _ _ _ => now < until
  | CComplete i w _ | CRelease i w _ _ | CDefer i w _ _ | CFail i w _ _ | CRenew i w _ _ =>
      i = id -> w <> worker
  | _ => True
  end.

Lemma find_work_work c c' id : ingress_work c' = ingress_work c -> find_work c' id = find_work c id.
Proof. unfold find_work. by intros ->. Qed.

(** A guarded UPDATE that does not meet the row leaves it. *)
Lemma find_work_update c id (g : WorkRow -> WorkRow) w :
  find_work c id = Some w -> g w = w -> (forall v, wk_event_id (g v) = wk_event_id v) ->
  find_work (set_ingress_work c (g <$> ingress_work c)) id = Some w.
Proof.
  unfold find_work. simpl. intros H Hw Hg. induction (ingress_work c) as [|v l IH]; [done|].
  simpl in *. rewrite Hg. case_match; [|by apply IH]. congruence.
Qed.

Lemma held_not_owned id i worker worker' until w :
  held worker until w -> wk_event_id w = id -> (i = id -> worker' <> worker) ->
  work_owned_by i worker' w = false.
Proof.
  intros (Hs & Hw & _) Hid Hne. apply not_true_iff_false. intros (Hi & _ & Hw')%work_owned_by_true.
  apply Hne; congruence.
Qed.

Lemma owner_update_held id i worker worker' until g c w {A} (k : Z -> ctx A) :
  find_work c id = Some w -> held worker until w -> (i = id -> worker' <> worker) ->
  (forall v, wk_event_id (g v) = wk_event_id v) -> (forall n, ctx_same ingress_work (k n)) ->
  find_work (wrap_event_error (catomically (update_work (work_owned_by i worker') g ≫= k) c)).2 id = Some w.
Proof.
  intros Hf Hh Hne Hg Hk. destruct (wrap_event_error _) as [[a|e] c'] eqn:H.
  - apply wrap_Ok, ctx_bind_Ok in H as (n & c1 & [= _ <-] & H%Hk). simpl.
    rewrite (find_work_work _ _ _ H). apply find_work_update; [done| |].
    + apply find_work_elem in Hf as [_ Hid]. by erewrite held_not_owned.
    + intros v. case_match; auto.
  - by apply wrap_Raise in H as ->.
Qed.

Lemma return_work_held id i worker worker' until error now g c w :
  find_work c id = Some w -> held worker until w -> (i = id -> worker' <> worker) ->
  (forall v, wk_event_id (g v) = wk_event_id v) ->
  find_work (return_work i worker' error now g c).2 id = Some w.
Proof.
  intros Hf Hh Hne Hg. eapply owner_update_held; [done..|]. intros n.
  apply ctx_same_bind; [|intros _; apply ctx_same_ret]. by apply ctx_same_when, ctx_same_diagnostic.
Qed.

Lemma find_work_app c id w new :
  find_work c id = Some w -> find_work (set_ingress_work c (ingress_work c ++ new)) id = Some w.
Proof. unfold find_work. simpl. intros H. eapply find_prefix; [|exact H]. by apply prefix_app_r. Qed.

Lemma held_not_claimable worker until now w : held worker until w -> now < until -> claimable_work now w = false.
Proof.
  intros (Hs & _ & Hl) Hlt. unfold claimable_work. rewrite Hs, Hl. simpl. by apply Z.leb_gt.
Qed.

Lemma claim_held id worker until now worker' limit lease c w :
  content_ok sha256 c -> find_work c id = Some w -> held worker until w -> now < until ->
  find_work (claim_ingress_work now worker' limit lease c).2 id = Some w /\
  (forall rows c', claim_ingress_work now worker' limit lease c = (Ok rows, c') ->
     id ∉ wk_event_id <$> rows).
Proof.
  intros Hok Hf Hh Hlt. pose proof (ok_work_unique _ _ Hok) as Hn.
  pose proof (find_work_elem _ _ _ Hf) as [Hw Hid]. subst id.
  assert (wk_event_id w ∉ wk_event_id <$> claim_ingress_select now limit c) as Hni.
  { intros Hin. apply claim_ids_claimable in Hin; [|done..].
    by rewrite (held_not_claimable _ _ _ _ Hh Hlt) in Hin. }
  unfold claim_ingress_work. split.
  - destruct (wrap_event_error _) as [[rows|e] c'] eqn:H; [|by apply wrap_Raise in H as ->].
    apply wrap_Ok in H. apply sync_claim_Ok in H as [_ ->]; [|done]. simpl.
    apply find_work_update; [done| |]; [by rewrite (proj2 (elem_false _ _) Hni)|].
    intros v. by case_match.
  - intros rows c' H. apply wrap_Ok in H. apply sync_claim_Ok in H as [-> _]; [|done].
    by rewrite <- list_fmap_compose.
Qed.

Lemma cstep_held id worker until op c w :
  content_ok sha256 c -> find_work c id = Some w -> held worker until w ->
  leaves_claim id worker until op -> find_work (cstep sha256 json_loads op c) id = Some w.
Proof.
  intros Hok Hf Hh Hop. destruct (passive op) eqn:Hp.
  { rewrite (find_work_work c); [done|]. by apply (passive_same ingress_work). }
  destruct op; try done; simpl in *; try (by eapply return_work_held).
  - destruct (admit_ingress_outcomes a now c Hok) as [e|r Hr Hin He|r plan]; [done| |].
    + unfold repaired. case_match; [done|]. by apply find_work_app.
    + rewrite <- (find_work_app c id w [new_work (ev_event_id (admission_event a plan c))
        (ad_provenance a) (admission_status a) now] Hf). by apply find_work_work.
  - by eapply claim_held.
  - eapply owner_update_held; [done..|]. intros n.
    apply ctx_same_bind; [|intros _; apply ctx_same_ret]. by apply ctx_same_when, ctx_same_core.
  - unfold renew_ingress_work_lease. case_match; [done|].
    eapply owner_update_held; [done..|]. intros n. apply ctx_same_ret.
  - rewrite (find_work_work c); [done|]. by apply (collect_same ingress_work).
Qed.

Lemma cexec_held id worker until ops c w :
  content_ok sha256 c -> find_work c id = Some w -> held worker until w ->
  Forall (leaves_claim id worker until) ops -> find_work (cexec sha256 json_loads ops c) id = Some w.
Proof.
  intros Hok Hf Hh Hops. revert c Hok Hf. induction Hops as [|op ops Hop Hops IH]; intros c Hok Hf; [done|].
  simpl. apply IH.
  - eapply content_steps_ok; [by apply (cstep_steps (strict := true))|done].
  - by eapply cstep_held.
Qed.

Lemma claimed_row_found now lease worker limit c rows c' w :
  content_ok sha256 c -> claim_ingress_work now worker limit lease c = (Ok rows, c') -> w ∈ rows ->
  exists v, find_work c (wk_event_id w) = Some v /\ claimable_work now v = true /\
    find_work c' (wk_event_id w) = Some (claim_work now (now + lease) worker v).
Proof.
  intros Hok H Hw. pose proof (ok_work_unique _ _ Hok) as Hn.
  apply wrap_Ok in H. apply sync_claim_Ok in H as [-> ->]; [|done].
  apply list_elem_of_fmap in Hw as (v & -> & Hv). pose proof (ingress_select_elem _ _ _ _ Hv) as [Hin Hc].
  exists v. simpl. split; [by apply find_work_unique|]. split; [done|].
  set (t := claimed_table _ _ _ _ _).
  assert (NoDup (wk_event_id <$> t)) as Hnt.
  { unfold t, claimed_table. rewrite <- list_fmap_compose.
    erewrite list_fmap_ext; [exact Hn|]. intros i x _. simpl. by case_match. }
  apply (find_work_unique (set_ingress_work c t) (claim_work now (now + lease) worker v)); [done|].
  simpl. apply list_elem_of_fmap. exists v. split; [|done].
  by rewrite (proj2 (elem_true _ _) (list_elem_of_fmap_2 _ _ _ Hv)).
Qed.

(** ** A worker that does not own the row *)

Lemma not_owner id worker worker' until c w :
  NoDup (wk_event_id <$> ingress_work c) -> find_work c id = Some w -> held worker until w ->
  worker' <> worker ->
  forall x, x ∈ ingress_work c -> work_owned_by id worker' x = false.
Proof.
  intros Hn Hf (_ & Hw & _) Hne x Hx. apply not_true_iff_false. intros (Hi & _ & Hw')%work_owned_by_true.
  apply find_work_elem in Hf as [Hin Hid].
  assert (x = w) as -> by (eapply (NoDup_fmap_inj_on wk_event_id); [done..|congruence]). congruence.
Qed.

Lemma update_work_none g f c :
  (forall x, x ∈ ingress_work c -> g x = false) -> update_work g f c = Ok (0, c).
Proof.
  intros Hg. unfold update_work. repeat f_equal.
  - rewrite (proj2 (length_filter_0 _ _)); [done|]. intros x Hx. by rewrite Hg.
  - destruct c. unfold set_ingress_work. simpl in *. f_equal.
    induction ingress_work as [|x l IH]; [done|]. rewrite fmap_cons, Hg by set_solver.
    f_equal. apply IH. set_solver.
Qed.

(** Its statement changes nothing and reports that. *)
Lemma stranger_run id worker f c (k : Z -> ctx bool) :
  (forall x, x ∈ ingress_work c -> work_owned_by id worker x = false) -> k 0 c = Ok (false, c) ->
  wrap_event_error (catomically (update_work (work_owned_by id worker) f ≫= k) c) = (Ok false, c).
Proof.
  intros Hg Hk. apply wrap_Ok, ctx_bind_Ok. exists 0, c. split; [by apply update_work_none|done].
Qed.

Lemma return_work_stranger id worker error now f c :
  (forall x, x ∈ ingress_work c -> work_owned_by id worker x = false) ->
  return_work id worker error now f c = (Ok false, c).
Proof. intros Hg. by apply stranger_run. Qed.

(** C27: a claimed work row was pending or its lease had run out, and it now
    counts one more attempt; until the new lease runs out nobody but its owner changes the row,
    takes it in a claim, or succeeds in completing, releasing, deferring,
    failing or renewing it, whatever else is run. *)
Theorem ingress_claim_exclusive now worker limit lease c rows c1 w ops :
  content_ok sha256 c -> claim_ingress_work now worker limit lease c = (Ok rows, c1) -> w ∈ rows ->
  Forall (leaves_claim (wk_event_id w) worker (now + lease)) ops ->
  let id := wk_event_id w in let c2 := cexec sha256 json_loads ops c1 in
  exists v,
    find_work c id = Some v /\ claimable_work now v = true /\
    find_work c2 id = Some (claim_work now (now + lease) worker v) /\
    (forall now' worker' limit' lease' rows' c3, now' < now + lease ->
       claim_ingress_work now' worker' limit' lease' c2 = (Ok rows', c3) ->
       id ∉ wk_event_id <$> rows') /\
    (forall worker' error now', worker' <> worker ->
       complete_ingress_work id worker' now' c2 = (Ok false, c2) /\
       release_ingress_work id worker' error now' c2 = (Ok false, c2) /\
       defer_ingress_work id worker' error now' c2 = (Ok false, c2) /\
       fail_ingress_work id worker' error now' c2 = (Ok false, c2) /\
       (forall lease', 0 < lease' -> renew_ingress_work_lease id worker' now' lease' c2 = (Ok false, c2))).
Proof.
  intros Hok H Hw Hops id c2.
  assert (content_ok sha256 c1) as Hok1.
  { pose proof (claim_steps sha256 now worker limit lease c Hok) as Hs. rewrite H in Hs.
    by eapply content_steps_ok. }
  destruct (claimed_row_found _ _ _ _ _ _ _ _ Hok H Hw) as (v & Hv & Hc & Hf).
  assert (held worker (now + lease) (claim_work now (now + lease) worker v)) as Hh by done.
  pose proof (cexec_ok sha256 json_loads ops c1 Hok1) as Hok2.
  pose proof (cexec_held _ _ _ _ _ _ Hok1 Hf Hh Hops) as Hf2.
  exists v. split_and!; [done..| |].
  - intros now' worker' limit' lease' rows' c3 Hlt H3. by eapply claim_held.
  - intros worker' error now' Hne.
    assert (forall x, x ∈ ingress_work c2 -> work_owned_by (wk_event_id w) worker' x = false) as Hno
      by (eapply not_owner; [apply (ok_work_unique _ _ Hok2)|exact Hf2|exact Hh|done]).
    split_and!; try (by apply return_work_stranger).
    + unfold complete_ingress_work. by apply stranger_run.
    + intros lease' Hl. unfold renew_ingress_work_lease. rewrite (proj2 (Z.leb_gt _ _) Hl).
      by apply stranger_run.
Qed.
End safety.

(** ** Examples *)

Module IngressExamples.
Import ContentExamples.

Definition admitted_db : cdb := cexec digest loads [CAdmit admit_greeting 10] empty_cdb.

Lemma admit_ingress_outcomes_witness :
  isOk (admit_ingress digest admit_greeting 10 empty_cdb).1 = true /\
  admission_outcome digest admit_greeting 10 empty_cdb
    (admit_ingress digest admit_greeting 10 empty_cdb).1
    (admit_ingress digest admit_greeting 10 empty_cdb).2.
Proof.
  split; [vm_compute; reflexivity|].
  apply (admit_ingress_outcomes digest admit_greeting 10 empty_cdb (empty_content_ok digest)).
Defined.

(** The same message again, with other content and as history. *)
Definition admit_again : admission :=
  {| ad_event := with_payload greeting [("body", JStr "changed")]; ad_native := Some greeting_ref;
     ad_provenance := "history"; ad_suppress_routing := false; ad_attachment := None;
     ad_limits := None; ad_deadline := None |}.

Definition later : list content_op :=
  [CClaim 20 "worker-1" 5 100; CComplete "e1" "worker-1" 40].

Lemma admission_idempotent_witness :
  let c2 := cexec digest loads later admitted_db in
  exists r', admit_ingress digest admit_again 50 c2 = (Ok r', c2) /\ ar_created r' = false /\
    ar_event_id r' = "e1".
Proof.
  refine (admission_idempotent digest loads admit_greeting admit_again 10 50 empty_cdb
    {| ar_event_id := "e1"; ar_created := true; ar_provenance := "live"; ar_work_status := WPending;
       ar_attachment := Some {| af_retained := true; af_content_ref := Some (content_ref_of digest "data");
                                af_size_bytes := Some 4; af_reason := None |} |}
    admitted_db later (empty_content_ok digest) _ _ _ _); vm_compute; reflexivity.
Defined.

(** The second attachment would exceed the quota of five bytes. *)
Definition admit_over (id data : string) : admission :=
  {| ad_event := {| ev_columns := {| ev_event_id := id; ev_event_kind := MESSAGE_CREATED;
          ev_schema_version := 1; ev_timestamp := 5; ev_source_adapter := "mesh";
          ev_source_transport_id := "node-1"; ev_source_channel_id := Some "0";
          ev_parent_event_id := None; ev_lineage := []; ev_depth := 0; ev_trace_id := None;
          ev_root_event_id := None; ev_conversation_id := None |};
       ev_relations := []; ev_payload := ev_payload greeting; ev_metadata := ev_metadata greeting;
       ev_source_native_ref := None |};
     ad_native := None; ad_provenance := "live"; ad_suppress_routing := false;
     ad_attachment := Some data;
     ad_limits := Some {| max_attachment_bytes := 8; max_retained_bytes := 5 |};
     ad_deadline := None |}.

Definition two_uploads : list content_op := [CAdmit (admit_over "e2" "abcd") 10; CAdmit (admit_over "e3" "efgh") 11].

Lemma retention_quota_witness :
  retained_bytes (cexec digest loads two_uploads empty_cdb) = 4 /\
  retained_bytes (cexec digest loads two_uploads empty_cdb) <= 5.
Proof.
  split; [vm_compute; reflexivity|].
  apply (retention_quota digest loads 5 two_uploads); [lia|]. repeat constructor; vm_compute; discriminate.
Defined.

Definition claim_run : result exc (list WorkRow) * cdb := claim_ingress_work 20 "worker-1" 5 100 admitted_db.

Definition claimed_greeting : WorkRow :=
  claim_work 20 120 "worker-1" (new_work "e1" "live" WPending 10).

Lemma ingress_claim_exclusive_witness :
  let c2 := cexec digest loads [CClaim 50 "worker-2" 5 100; CRelease "e1" "worker-2" "x" 60] claim_run.2 in
  find_work c2 "e1" = Some claimed_greeting /\
  (forall now' worker' limit' lease' rows' c3, now' < 120 ->
     claim_ingress_work now' worker' limit' lease' c2 = (Ok rows', c3) ->
     "e1" ∉ wk_event_id <$> rows').
Proof.
  assert (content_ok digest admitted_db) as Hok
    by (apply (cexec_ok digest loads [CAdmit admit_greeting 10]), empty_content_ok).
  assert (claim_run = (Ok [claimed_greeting], claim_run.2)) as Hrun by (vm_compute; reflexivity).
  destruct (ingress_claim_exclusive digest loads 20 "worker-1" 5 100 admitted_db [claimed_greeting]
    claim_run.2 claimed_greeting
    [CClaim 50 "worker-2" 5 100; CRelease "e1" "worker-2" "x" 60] Hok Hrun) as (v & Hv & _ & Hf & Hex & _).
  - by apply list_elem_of_singleton.
  - repeat constructor. simpl. by intros _.
  - split; [|exact Hex]. vm_compute in Hv. injection Hv as <-. exact Hf.
Defined.

End IngressExamples.
