(* ===== verification/ContentAuthority.v ===== *)
(** * Content authority ends for good

    A source dependency that was released, a deadline that was observed and
    an optional hold that was closed never admit a read again, whatever
    operations follow and even if the clock is set back; and at most one
    worker and attempt is authorised to submit a delivery. *)

From S2P Require Import Prelude.
From S2P Require Import Json.
From S2P Require Import DeliveryState.
From S2P Require Import Delivery.
From S2P Require Import Store.
From S2P Require Import Outbox.
From S2P Require Import OutboxProofs.
From S2P Require Import OutboxSafety.
From S2P Require Import Events.
From S2P Require Import ContentStore.
From S2P Require Import Ingress.
From S2P Require Import IngressProofs.
From S2P Require Import ContentGrants.
From S2P Require Import ContentSteps.
From S2P Require Import ContentSafety.

Open Scope string_scope.
Open Scope list_scope.
Open Scope Z_scope.

(** ** Source dependencies *)

(** Every source dependency of the event is released. *)
Definition source_dead (c : cdb) (id : string) : Prop :=
  in_events c id /\
  forall p, p ∈ dependencies (core c) -> dp_event_id p = id -> source_owner p = true ->
    dp_released_at p <> None.

Lemma source_dead_live c id : source_dead c id -> source_dependency_live c id = false.
Proof.
  intros [_ H]. apply not_true_iff_false. unfold source_dependency_live.
  rewrite existsb_exists. intros (p & Hp%list_elem_of_In & Hb). breflect.
  destruct Hb as [[He Hs] Hr]. by apply (H p).
Qed.

Lemma source_dead_evolves c c' id : content_evolves c c' -> source_dead c id -> source_dead c' id.
Proof.
  intros Hev [Hin H]. split.
  - destruct (ce_events _ _ Hev) as [k Hk]. unfold in_events in *. rewrite Hk. set_solver.
  - intros p' Hp' He Hs. destruct (ce_sources _ _ Hev p' Hp' Hs) as (p & Hp & Hpp).
    { by rewrite He. }
    pose proof (de_key _ _ Hpp) as [= Ke Kk _].
    assert (dp_released_at p <> None) as Hr.
    { apply H; [done|congruence|]. revert Hs. unfold source_owner. by rewrite Kk. }
    by rewrite (de_released _ _ Hpp Hr).
Qed.

Section authority.
Context (sha256 : string -> string).

Lemma source_dead_steps c c' id :
  rtc (content_step sha256) c c' -> source_dead c id -> source_dead c' id.
Proof. intros H. apply source_dead_evolves. by eapply content_steps_evolves. Qed.

Lemma source_dead_unauthorized c id kind now :
  source_dead c id -> kind = OwnerIngress \/ kind = OwnerReplay ->
  owner_authorized c id kind id now = false.
Proof.
  intros Hd Hk. unfold owner_authorized. rewrite (proj2 (event_exists_true c id) (proj1 Hd)). simpl.
  destruct Hk as [-> | ->]; [|by apply source_dead_live].
  apply not_true_iff_false. rewrite existsb_exists. intros (p & Hp%list_elem_of_In & Hb).
  unfold dependency_grants in Hb. breflect. destruct Hb as [[[[[He Hkd] _] Hr] _] _].
  apply (proj2 Hd p Hp He); [|done]. unfold source_owner. rewrite Hkd. done.
Qed.

(** No owner whose authority is a source dependency reads the event. *)
Lemma source_dead_observed c id kind now :
  source_dead (observe_mandatory_expiry id now c) id -> kind = OwnerIngress \/ kind = OwnerReplay ->
  read_owned_event id kind id now c = (Ok EventDenied, observe_mandatory_expiry id now c).
Proof.
  intros Hd Hk. unfold read_owned_event. cbv zeta.
  rewrite bool_decide_eq_false_2 by (by destruct Hk as [-> | ->]).
  by rewrite source_dead_unauthorized, orb_true_r by done.
Qed.

Lemma source_dead_read c id kind now :
  source_dead c id -> kind = OwnerIngress \/ kind = OwnerReplay ->
  (read_owned_event id kind id now c).1 = Ok EventDenied.
Proof.
  intros Hd Hk. rewrite source_dead_observed; [done| |done].
  by eapply source_dead_steps; [apply observe_mandatory_steps|].
Qed.

(** Nor does anybody obtain an optional hold. *)
Lemma source_dead_hold c id h p now :
  source_dead c id -> isOk (issue_body_hold id h p now c).1 = false.
Proof.
  intros Hd. unfold issue_body_hold. destruct (hold_checks h p now) as [issued|]; [|done].
  case_match; [done|]. cbv zeta. set (c1 := observe_optional_expiry _ _ _).
  assert (source_dead c1 id) as [Hin Hd1].
  { eapply source_dead_steps; [|exact Hd].
    etrans; [apply observe_mandatory_steps|apply observe_optional_steps]. }
  replace (hold_mutation id h p issued c1) with (Raise (A := unit * cdb)
    (ValueError "Expired mandatory content cannot gain new optional holds")); [done|].
  unfold hold_mutation, mbind, ctx_bind, cget. rewrite (source_dead_live c1 id) by done.
  rewrite (proj2 (event_exists_true c1 id) Hin), orb_true_r. done.
Qed.

(** Every source dependency is released or its deadline has passed. *)
Definition source_due (c : cdb) (id : string) (now : instant) : Prop :=
  in_events c id /\
  forall p, p ∈ dependencies (core c) -> dp_event_id p = id -> source_owner p = true ->
    dp_released_at p <> None \/ opt_le (dp_deadline p) now = true.

Lemma observe_source_due c id now :
  source_due c id now -> source_dead (observe_mandatory_expiry id now c) id.
Proof.
  intros [Hin H]. split; [exact Hin|]. simpl. intros p (q & -> & Hq)%list_elem_of_fmap.
  destruct (expired_dependency id now q) eqn:E; [done|]. intros He Hs Hr.
  destruct (H q Hq He Hs) as [?|Hle]; [done|].
  unfold expired_dependency in E. rewrite !bool_decide_eq_true_2, Hle in E by done.
  unfold source_owner in Hs. apply elem_true in Hs. simpl in E. rewrite andb_true_r in E.
  rewrite (proj2 (elem_true _ _)) in E; [done|]. set_solver.
Qed.

Context (json_loads : string -> option json).

(** C32: when a read meets an event whose deadline has passed (or whose
    source was released), the event is gone for ingress and replay for good:
    this read and every later one, after any operations and at any clock reading,
    even an earlier one, is denied, and no new optional hold can be issued on it. *)
Theorem content_deadline_final c id now ops now' :
  content_ok sha256 c -> id <> "" -> source_due c id now ->
  let c1 := (read_event_for_ingress id now c).2 in
  let c2 := cexec sha256 json_loads ops c1 in
  (read_event_for_ingress id now c).1 = Ok EventDenied /\
  (read_event_for_ingress id now' c2).1 = Ok EventDenied /\
  (read_event_for_replay id now' c2).1 = Ok EventDenied /\
  (forall h p, isOk (issue_body_hold id h p now' c2).1 = false).
Proof.
  intros Hok Hid Hdue c1 c2. apply truthy_true in Hid.
  pose proof (observe_source_due _ _ _ Hdue) as Hd.
  assert (read_event_for_ingress id now c = (Ok EventDenied, observe_mandatory_expiry id now c)) as Hr.
  { unfold read_event_for_ingress. rewrite Hid. simpl. apply source_dead_observed; auto. }
  assert (content_ok sha256 c1) as Hok1.
  { unfold c1. rewrite Hr. eapply content_steps_ok; [apply observe_mandatory_steps|done]. }
  assert (source_dead c2 id) as Hd2.
  { eapply source_dead_steps; [by apply (cexec_steps (strict := true))|]. unfold c1. by rewrite Hr. }
  rewrite Hr. unfold read_event_for_ingress, read_event_for_replay. rewrite Hid. simpl.
  split_and!; [done|apply source_dead_read; auto..|]. intros h p. by apply source_dead_hold.
Qed.

(** ** Optional holds *)

Definition hold_closed (c : cdb) (id consumer : string) : Prop :=
  exists g, g ∈ grants c /\ gr_event_id g = id /\ gr_consumer g = consumer /\ grant_open g = false.

Lemma hold_closed_evolves c c' id consumer :
  content_evolves c c' -> hold_closed c id consumer -> hold_closed c' id consumer.
Proof.
  intros Hev (g & Hg & He & Hc & Ho).
  destruct (list_evolves_elem _ _ _ g (ce_grants _ _ Hev) Hg) as (g' & Hg' & Hgg).
  rewrite (ge_closed _ _ Hgg Ho) in Hg'. by exists g.
Qed.

Lemma hold_closed_steps c c' id consumer :
  rtc (content_step sha256) c c' -> hold_closed c id consumer -> hold_closed c' id consumer.
Proof. intros H. apply hold_closed_evolves. by eapply content_steps_evolves. Qed.

(** One grant per event and consumer: a closed one is the one found. *)
Lemma hold_closed_only c id consumer g :
  content_ok sha256 c -> hold_closed c id consumer -> g ∈ grants c -> gr_event_id g = id ->
  gr_consumer g = consumer -> grant_open g = false.
Proof.
  intros Hok (g' & Hg' & He & Hc & Ho) Hg He2 Hc2.
  assert (g = g') as ->; [|done].
  eapply (NoDup_fmap_inj_on (fun g => (gr_event_id g, gr_consumer g))); [apply (ok_grants_unique _ _ Hok)|done..|].
  congruence.
Qed.

Lemma hold_closed_not_live c id consumer now :
  content_ok sha256 c -> hold_closed c id consumer -> grant_live c id consumer now = false.
Proof.
  intros Hok Hc. unfold grant_live. case_match; [|done]. apply andb_false_iff. left.
  apply not_true_iff_false. rewrite existsb_exists. intros (g & Hg%list_elem_of_In & Hb).
  breflect. destruct Hb as [[[[He Hcs] Ho] _] _].
  by rewrite (hold_closed_only _ _ _ _ Hok Hc Hg He Hcs) in Ho.
Qed.

Lemma hold_closed_reissue c id h p now :
  content_ok sha256 c -> hold_closed c id (ch_consumer h) ->
  isOk (issue_body_hold id h p now c).1 = false.
Proof.
  intros Hok Hc. unfold issue_body_hold. destruct (hold_checks h p now) as [issued|]; [|done].
  case_match; [done|]. cbv zeta. set (c1 := observe_optional_expiry _ _ _).
  assert (rtc (content_step sha256) c c1) as Hs
    by (etrans; [apply observe_mandatory_steps|apply observe_optional_steps]).
  destruct (hold_mutation id h p issued c1) as [[u c2]|e] eqn:Hm; [|by destruct e].
  exfalso. revert Hm. unfold hold_mutation.
  intros (live & c3 & [= <- <-] & (owners & c4 & [= <- <-] & Hm)%ctx_bind_Ok)%ctx_bind_Ok.
  case_match; [done|].
  apply ctx_bind_Ok in Hm as (ceiling & c5 & [= <- <-] & Hm).
  apply ctx_bind_Ok in Hm as (terms & c6 & [= <- <-] & Hm).
  apply ctx_bind_Ok in Hm as (u1 & c7 & Hp & Hm).
  apply ctx_bind_Ok in Hm as (old & c8 & [= <- <-] & Hm).
  assert (rtc (content_step sha256) c1 c7) as Hs7.
  { destruct (od_get id (access_policies (core c))) as [t|].
    - destruct (bool_decide (t = _)); [|done].
      destruct (bool_decide (_ = Some (policy_row p))); [|done]. by injection Hp as _ <-.
    - by eapply ctx_steps_policy. }
  pose proof (hold_closed_steps _ _ _ _ Hs7 (hold_closed_steps _ _ _ _ Hs Hc)) as Hc7.
  assert (content_ok sha256 c7) as Hok7 by (eapply content_steps_ok; [etrans; [exact Hs|exact Hs7]|done]).
  destruct (find_grant c7 id (ch_consumer h)) as [g|] eqn:Hg.
  - unfold find_grant in Hg. apply find_Some_elem in Hg as [Hin Hb]. breflect. destruct Hb as [He Hcs].
    rewrite (hold_closed_only _ _ _ _ Hok7 Hc7 Hin He Hcs), andb_false_r in Hm. done.
  - apply find_grant_None in Hg. destruct Hc7 as (g & Hin & <- & Hcs & _). apply Hg.
    rewrite <- Hcs. by apply (list_elem_of_fmap_2 (fun g => (gr_event_id g, gr_consumer g))).
Qed.

Lemma revoke_closes c id consumer now c1 :
  revoke_body_hold id consumer now c = (true, c1) -> hold_closed c1 id consumer.
Proof.
  unfold revoke_body_hold. cbv zeta. set (c0 := observe_optional_expiry id now c). intros Hrun.
  pose proof (f_equal fst Hrun) as Hl. pose proof (f_equal snd Hrun) as Hc1. clear Hrun.
  cbn [fst snd] in Hl, Hc1. subst c1. apply bool_decide_eq_true in Hl.
  destruct (filter (fun g => revocable id consumer g = true) (grants c0)) as [|g l] eqn:Ef; [done|].
  assert (g ∈ filter (fun g => revocable id consumer g = true) (grants c0)) as [Hr Hg]%list_elem_of_filter
    by (rewrite Ef; set_solver).
  exists (revoke_grant now g). simpl. split.
  - apply list_elem_of_fmap. exists g. by rewrite Hr.
  - unfold revocable in Hr. breflect. destruct Hr as [[? ?] ?]. done.
Qed.

(** After a hold was revoked, the consumer never reads the body again
    and the hold is never issued again, whatever operations follow and at
    any clock reading. *)
Theorem hold_revocation_final c id consumer now c1 ops now' :
  content_ok sha256 c -> revoke_body_hold id consumer now c = (true, c1) ->
  let c2 := cexec sha256 json_loads ops c1 in
  (read_authorized_body id consumer now' c2).1 = Ok BodyDenied /\
  (forall h p, ch_consumer h = consumer -> isOk (issue_body_hold id h p now' c2).1 = false).
Proof.
  intros Hok Hr c2. pose proof (revoke_closes _ _ _ _ _ Hr) as Hc.
  assert (content_ok sha256 c1) as Hok1.
  { pose proof (revoke_body_hold_steps sha256 id consumer now c) as Hs. rewrite Hr in Hs.
    by eapply content_steps_ok. }
  pose proof (cexec_ok sha256 json_loads ops c1 Hok1) as Hok2.
  assert (hold_closed c2 id consumer) as Hc2 by (by eapply hold_closed_steps; [apply (cexec_steps (strict := true))|]).
  split.
  - unfold read_authorized_body. cbv zeta. set (c3 := observe_optional_expiry _ _ _).
    assert (rtc (content_step sha256) c2 c3) as Hs
      by (etrans; [apply observe_mandatory_steps|apply observe_optional_steps]).
    simpl. rewrite hold_closed_not_live, andb_false_r; [done| |].
    + by eapply content_steps_ok.
    + by eapply hold_closed_steps.
  - intros h p <-. by apply hold_closed_reissue.
Qed.
End authority.

(** ** The native submission fence *)

Lemma submission_owner_true c id ob worker attempt r :
  submission_owner c id ob worker attempt r = true ->
  outbox_id r = ob /\ event_id r = id /\ status r = InProgress /\ worker_id r = Some worker /\
  attempt = default (attempt_number r) (active_attempt r) /\ no_newer_generation (core c) r = true.
Proof.
  unfold submission_owner. breflect. intros [[[[[? ?] ?] ?] Ha] ?]. split_and!; try done.
  destruct Ha as [-> |[[-> _] Ha]]; [done|]. simpl. lia.
Qed.

Lemma authorized_row c id ob worker attempt now :
  (authorize_native_submission id ob worker attempt now c).1 = Ok true ->
  exists (r : Row) lease, r ∈ outbox (core c) /\ outbox_id r = ob /\ event_id r = id /\
    status r = InProgress /\ worker_id r = Some worker /\
    attempt = default (attempt_number r) (active_attempt r) /\
    no_newer_generation (core c) r = true /\ lease_until r = Some lease /\ now < lease /\
    effective_deadline_elapsed (observe_mandatory_expiry id now c) id ob now = false.
Proof.
  unfold authorize_native_submission. repeat (case_match; [done|]). intros [= Ha].
  unfold native_submission_authorized in Ha.
  destruct (List.find _ _) as [r|] eqn:Hf; [|done]. apply find_Some_elem in Hf as [Hr Ho].
  apply submission_owner_true in Ho as (? & ? & ? & ? & ? & ?).
  destruct (lease_until r) as [lease|] eqn:El; [|done]. breflect. destruct Ha as [[[? ?] ?] ?].
  exists r, lease. split_and!; first [done|lia].
Qed.

(** C33: a native submission is authorised for at most one worker and one
    attempt of an outbox row: the row is in progress and held by exactly that
    worker under a lease that has not run out, no newer generation of the
    same target exists, and neither the event's ceiling, the frozen plan
    deadline nor the row's content deadline has passed; asking again for another worker or attempt
    is refused at any clock reading. *)
Theorem native_submission_fence c id ob worker attempt now worker' attempt' now' :
  outbox_constraints (outbox (core c)) = true ->
  (authorize_native_submission id ob worker attempt now c).1 = Ok true ->
  let c1 := (authorize_native_submission id ob worker attempt now c).2 in
  (exists (r : Row) lease, r ∈ outbox (core c) /\ outbox_id r = ob /\ event_id r = id /\
     status r = InProgress /\ worker_id r = Some worker /\ lease_until r = Some lease /\ now < lease /\
     no_newer_generation (core c) r = true) /\
  (forall bounds b, effective_dispatch_bounds c1 id ob = Ok bounds -> b ∈ bounds -> now < b.1) /\
  ((authorize_native_submission id ob worker' attempt' now' c1).1 = Ok true ->
     worker' = worker /\ attempt' = attempt).
Proof.
  intros Hc Ha c1. destruct (authorized_row _ _ _ _ _ _ Ha)
    as (r & lease & Hr & Hid & He & Hs & Hw & Hat & Hn & Hl & Hlt & Hel).
  assert (c1 = observe_mandatory_expiry id now c) as Hc1.
  { unfold c1. revert Ha. unfold authorize_native_submission. by repeat (case_match; [done|]). }
  split_and!.
  - exists r, lease. split_and!; done.
  - intros bounds b Hb Hin. rewrite Hc1 in Hb. unfold effective_deadline_elapsed in Hel. rewrite Hb in Hel.
    apply not_true_iff_false in Hel. apply Z.nle_gt. intros Hle. apply Hel, existsb_exists.
    exists b. split; [by apply list_elem_of_In|by apply Z.leb_le].
  - intros (r' & lease' & Hr' & Hid' & _ & _ & Hw' & Hat' & _)%authorized_row.
    assert (r' = r) as ->; [|split; congruence].
    rewrite Hc1 in Hr'. simpl in Hr'. eapply (unique_row (core c)); [done..|congruence].
Qed.

(** ** Examples *)

Module AuthorityExamples.
Import ContentExamples.

Definition admitted_greeting : cdb := cexec digest loads [CAdmit admit_greeting 10] empty_cdb.

(** Read after the deadline of 1000, then again with the clock at 20. *)
Lemma content_deadline_final_witness :
  (read_event_for_ingress "e1" 1000 admitted_greeting).1 = Ok EventDenied /\
  (read_event_for_ingress "e1" 20 (read_event_for_ingress "e1" 1000 admitted_greeting).2).1
    = Ok EventDenied.
Proof.
  destruct (content_deadline_final digest loads admitted_greeting "e1" 1000 [] 20) as (H1 & H2 & _).
  - apply (cexec_ok digest loads [CAdmit admit_greeting 10]), empty_content_ok.
  - discriminate.
  - split; [vm_compute; apply elem_of_cons; auto|].
    replace (dependencies (core admitted_greeting)) with
      [source_dependency "e1" "ingress" 10 (Some 1000)] by (vm_compute; reflexivity).
    intros p ->%list_elem_of_singleton _ _. right. reflexivity.
  - split; [exact H1|exact H2].
Defined.

Definition quote_hold : ContentHold :=
  {| ch_consumer := "reply_quotes"; ch_scope := "body"; ch_expires_at := 500; ch_mandatory := false;
     ch_issued_at := Some 15 |}.
Definition quote_policy : AvailabilityPolicy :=
  {| vp_hard_ceiling := 900; vp_max_optional_hold := 600; vp_allowed_consumers := ["reply_quotes"] |}.

Definition quotable : list content_op :=
  [CAppend greeting 10; CIssueHold "e1" quote_hold quote_policy 20].

(** The hold admits a read until it is revoked. *)
Example quotable_read :
  (read_authorized_body "e1" "reply_quotes" 30 (cexec digest loads quotable empty_cdb)).1
  = Ok (BodyRetained "hello").
Proof. vm_compute. reflexivity. Qed.

Lemma hold_revocation_final_witness :
  (read_authorized_body "e1" "reply_quotes" 30
     (revoke_body_hold "e1" "reply_quotes" 40 (cexec digest loads quotable empty_cdb)).2).1
  = Ok BodyDenied.
Proof.
  apply (hold_revocation_final digest loads (cexec digest loads quotable empty_cdb) "e1" "reply_quotes"
    40 (revoke_body_hold "e1" "reply_quotes" 40 (cexec digest loads quotable empty_cdb)).2 [] 30).
  - apply cexec_ok, empty_content_ok.
  - vm_compute. reflexivity.
Defined.

Definition outbox_item : DeliveryOutboxItem :=
  {| it_outbox_id := "ob-1"; it_event_id := "e1"; it_route_id := "route-1";
     it_delivery_plan_id := "plan-1"; it_target_adapter := "matrix";
     it_target_channel := Some "0"; it_target_address := None; it_attempt_number := 0;
     it_active_attempt := None; it_status := Some "pending"; it_failure_kind := None;
     it_failure_kind_detail := None; it_next_attempt_at := None; it_created_at := None;
     it_updated_at := None; it_last_attempt_at := None; it_locked_at := None;
     it_lease_until := None; it_worker_id := None; it_payload_hash := None;
     it_receipt_id := None; it_parent_receipt_id := None; it_error_summary := None;
     it_dispatch_source := None; it_replay_run_id := None; it_metadata := None |}.

Definition dispatching : cdb :=
  cexec digest loads
    [CAdmit admit_greeting 10; CDelivery (OpCreate 20 outbox_item false None);
     CDelivery (OpClaim Examples.all_work 30 400 "w1" ["ob-1"]);
     CDelivery (OpReserve 40 "ob-1" "w1" 0)] empty_cdb.

Lemma native_submission_fence_witness :
  (authorize_native_submission "e1" "ob-1" "w1" 1 50 dispatching).1 = Ok true /\
  (exists (r : Row) lease, r ∈ outbox (core dispatching) /\ outbox_id r = "ob-1" /\ event_id r = "e1" /\
     status r = InProgress /\ worker_id r = Some "w1" /\ lease_until r = Some lease /\ 50 < lease /\
     no_newer_generation (core dispatching) r = true).
Proof.
  assert ((authorize_native_submission "e1" "ob-1" "w1" 1 50 dispatching).1 = Ok true) as H
    by (vm_compute; reflexivity).
  split; [exact H|].
  refine (proj1 (native_submission_fence dispatching "e1" "ob-1" "w1" 1 50 "w2" 1 60 _ H)).
  vm_compute. reflexivity.
Defined.

End AuthorityExamples.
