(* ===== verification/ContentRoundtrip.v ===== *)
(** * Reading back what was admitted

    The stored form of an event (its row, separated text, typed routing facts,
    relations and excerpts) is never disturbed, and composing it gives the
    event back. *)

From S2P Require Import Prelude.
From S2P Require Import Json.
From S2P Require Import DeliveryState.
From S2P Require Import Delivery.
From S2P Require Import Store.
From S2P Require Import Attachments.
From S2P Require Import Events.
From S2P Require Import ContentStore.
From S2P Require Import Ingress.
From S2P Require Import IngressProofs.
From S2P Require Import ContentGrants.
From S2P Require Import Retention.
From S2P Require Import ContentSteps.
From S2P Require Import ContentSafety.
From S2P Require Import IngressSafety.

Open Scope string_scope.
Open Scope list_scope.
Open Scope Z_scope.

(** ** Values that survive the columns *)

(** The two required columns of a native reference are read by truth value. *)
Definition native_storable (n : option NativeRef) : bool :=
  match n with Some r => truthy (nf_adapter r) && truthy (nf_message r) | None => true end.

Definition relation_storable (r : EventRelation) : bool :=
  elem (rl_type r) VALID_RELATION_TYPES && native_storable (rl_target_native r).

Record storable (e : CanonicalEvent) : Prop := {
  so_columns : columns_ok e = Ok tt;
  so_payload : od_wf (ev_payload e);
  so_native : native_storable (ev_source_native_ref e) = true;
  so_relations : forallb relation_storable (ev_relations e) = true
}.

Lemma join_split_native n : native_storable n = true -> join_native (split_native n) = n.
Proof.
  destruct n as [[a ch m th]|]; [|done]. unfold join_native, split_native. simpl. by intros ->.
Qed.

Lemma row_to_relation_roundtrip key id r now :
  relation_storable r = true ->
  row_to_relation (relation_row key id r now) (rl_fallback_text r) = Ok r.
Proof.
  intros [Ht Hn]%andb_true_iff. unfold row_to_relation, EventRelation_init. simpl.
  rewrite Ht, join_split_native by done. by destruct r.
Qed.

Lemma decode_strs_strs l : decode_strs (Some (JArr (JStr <$> l))) = Ok l.
Proof.
  unfold decode_strs. induction l as [|s l IH]; [done|]. rewrite fmap_cons. cbn [decode_all decode_str].
  by rewrite IH.
Qed.

Lemma decode_routing_json r : decode_routing (Some (routing_json r)) = Ok (Some r).
Proof.
  destruct r as [ms g tr]. unfold decode_routing, routing_json.
  change (od_get "matched_routes" _) with (Some (JArr (JStr <$> ms))).
  rewrite decode_strs_strs. cbn [mbind result_bind].
  change (od_get "fanout_group" _) with (Some (json_opt_str g)).
  change (od_get "route_trace" _) with (Some (JArr (JStr <$> tr))).
  rewrite decode_strs_strs. by destruct g.
Qed.

(** The composed metadata document decodes to the metadata. *)
Lemma metadata_roundtrip m :
  deserialize_metadata
    (od_set "routing" (match em_routing m with Some r => routing_json r | None => JNull end)
       (serialize_metadata m)) = Ok m.
Proof.
  set (j := match em_routing m with Some r => routing_json r | None => JNull end).
  assert (decode_routing (Some j) = Ok (em_routing m)) as Hj
    by (unfold j; destruct (em_routing m); [apply decode_routing_json|done]).
  clearbody j. destruct m as [tr ro ra te na cu]. unfold deserialize_metadata, serialize_metadata.
  destruct tr, ra, te, na, cu as [|kv cu]; cbv -[decode_routing]; cbn [em_routing] in Hj;
    rewrite Hj; done.
Qed.

(** ** Separated text *)

Definition set_text (d : list (string * json)) (fb : string * string) : list (string * json) :=
  od_set fb.1 (JStr fb.2) d.

Lemma od_get_filter {V} (f : string * V -> bool) k (d : list (string * V)) :
  od_wf d ->
  od_get k (filter (fun kv => f kv = true) d) =
  match od_get k d with
  | Some v => if f (k, v) then Some v else None
  | None => None
  end.
Proof.
  unfold od_wf, od_keys. induction d as [|[k' v] d IH]; intros Hn; [done|].
  rewrite fmap_cons in Hn. apply NoDup_cons in Hn as [Hk Hn]. rewrite filter_cons.
  cbn [od_get]. destruct (decide (k = k')) as [->|Hne].
  - destruct (f (k', v)) eqn:E.
    + rewrite decide_True by done. cbn [od_get]. by rewrite decide_True.
    + rewrite decide_False by done. rewrite IH by done. by rewrite (proj2 (od_get_None k' d)).
  - rewrite <- IH by done. destruct (f (k', v)) eqn:E.
    + rewrite decide_True by done. cbn [od_get]. by rewrite decide_False.
    + by rewrite decide_False.
Qed.

Lemma od_get_envelope k payload :
  od_wf payload ->
  od_get k (envelope_payload payload) =
  match od_get k payload with
  | Some (JStr s) => if elem k BODY_FIELDS then None else Some (JStr s)
  | x => x
  end.
Proof.
  intros Hw. unfold envelope_payload.
  rewrite (od_get_filter (fun kv => negb (elem kv.1 BODY_FIELDS) || negb (is_str (Some kv.2)))) by done.
  destruct (od_get k payload) as [[]|]; cbn [fst snd is_str]; rewrite ?orb_true_r; try done.
  by destruct (elem k BODY_FIELDS).
Qed.

Lemma text_payload_get payload k :
  od_wf payload ->
  od_get k (foldl set_text (envelope_payload payload) (body_texts payload)) = od_get k payload.
Proof.
  intros Hw. unfold body_texts, BODY_FIELDS, set_text. simpl.
  pose proof (od_get_envelope k payload Hw) as He.
  destruct (decide (k = "body")) as [->|Hb].
  { destruct (od_get "body" payload) as [[]|] eqn:E1; destruct (od_get "text" payload) as [[]|] eqn:E2;
      simpl; rewrite ?(od_get_set_ne "text" "body") by done; rewrite ?od_get_set_eq; by rewrite ?He. }
  destruct (decide (k = "text")) as [->|Ht].
  { destruct (od_get "body" payload) as [[]|] eqn:E1; destruct (od_get "text" payload) as [[]|] eqn:E2;
      simpl; rewrite ?od_get_set_eq; rewrite ?(od_get_set_ne "body" "text") by done; by rewrite ?He. }
  assert (elem k BODY_FIELDS = false) as Hk by (apply elem_false; unfold BODY_FIELDS; set_solver).
  assert (od_get k (envelope_payload payload) = od_get k payload) as He'.
  { rewrite He, Hk. by destruct (od_get k payload) as [[]|]. }
  destruct (od_get "body" payload) as [[]|]; destruct (od_get "text" payload) as [[]|];
    simpl; rewrite ?od_get_set_ne by done; done.
Qed.

(** ** The stored form of an event *)

Definition excerpts_of (c : cdb) (rows : list RelationRow) : list (option string) :=
  (fun w => od_get (rw_id w) (relation_excerpts c)) <$> rows.

Record stored (e : CanonicalEvent) (now : instant) (c : cdb) : Prop := {
  sd_row : find_event c (ev_event_id e) = Some (event_row e now);
  sd_identity : od_get (ev_event_id e) (body_identity c) = Some (body_present (ev_payload e));
  sd_bodies : bodies_of c (ev_event_id e) = body_texts (ev_payload e);
  sd_routing : od_get (ev_event_id e) (routing_facts c) = em_routing (ev_metadata e);
  sd_relations : exists key,
    relations_of c (ev_event_id e) = new_relations (ev_event_id e) key now (ev_relations e);
  sd_excerpts : excerpts_of c (relations_of c (ev_event_id e)) = rl_fallback_text <$> ev_relations e
}.

Lemma filter_none {A} (P : A -> Prop) `{!forall x, Decision (P x)} (l : list A) :
  (forall x, x ∈ l -> ~ P x) -> filter P l = [].
Proof. apply filter_nil_iff. Qed.

Lemma od_get_absent {V} k (d : list (string * V)) (P : string -> Prop) :
  Forall (fun kv => P kv.1) d -> ~ P k -> od_get k d = None.
Proof.
  intros Hd Hk. apply od_get_None. intros (kv & -> & Hkv)%list_elem_of_fmap.
  by apply Hk, (proj1 (Forall_forall _ _) Hd kv Hkv).
Qed.

Lemma new_relations_filter id key now rs :
  filter (fun w => rw_event_id w = id) (new_relations id key now rs) = new_relations id key now rs.
Proof. apply filter_id_on. apply Forall_forall, new_relations_events. Qed.

Lemma od_get_keys_above (k b : Z) (d : list (Z * string)) :
  Forall (fun kv => b <= kv.1) d -> k < b -> od_get k d = None.
Proof.
  intros Hd Hk. apply od_get_None. intros (kv & -> & Hkv)%list_elem_of_fmap.
  pose proof (proj1 (Forall_forall _ _) Hd kv Hkv) as H. simpl in H. lia.
Qed.

Lemma new_excerpts_above key rs : Forall (fun kv => key <= kv.1) (new_excerpts key rs).
Proof. eapply Forall_impl; [apply new_excerpts_keys|]. simpl. lia. Qed.

Lemma new_excerpts_get id key now rs :
  (fun w => od_get (rw_id w) (new_excerpts key rs)) <$> new_relations id key now rs =
  rl_fallback_text <$> rs.
Proof.
  revert key. induction rs as [|r rs IH]; intros key; [done|]. cbn [new_relations new_excerpts].
  rewrite !fmap_cons. f_equal.
  - simpl. destruct (rl_fallback_text r) as [s|]; simpl; [by rewrite decide_True|].
    eapply od_get_keys_above; [apply new_excerpts_above|]. lia.
  - rewrite <- (IH (key + 1)). apply list_fmap_ext. intros i w Hw.
    assert (key + 1 <= rw_id w) as Hid.
    { assert (rw_id w ∈ rw_id <$> new_relations id (key + 1) now rs) as Hin
        by (by eapply list_elem_of_fmap_2, list_elem_of_lookup_2).
      rewrite new_relations_ids in Hin. apply elem_of_seqZ in Hin. lia. }
    destruct (rl_fallback_text r) as [s|]; simpl; [|done]. rewrite decide_False by lia. done.
Qed.

Section roundtrip.
Context (sha256 : string -> string).

(** A committed admission stores its event. *)
Lemma admitted_stored (e : CanonicalEvent) kind now dl c :
  content_ok sha256 c -> ~ in_events c (ev_event_id e) -> stored e now (admitted e kind now dl c).
Proof.
  intros Hok Hn. set (id := ev_event_id e) in *.
  assert (relations_of (admitted e kind now dl c) id =
    new_relations id (Z.of_nat (length (relation_rows c)) + 1) now (ev_relations e)) as Hrel.
  { unfold relations_of. simpl. rewrite filter_app, filter_none; [apply new_relations_filter|].
    intros w Hw <-. apply Hn, (proj1 (Forall_forall _ _) (ok_relations _ _ Hok) w Hw). }
  split; fold id; [| | | | |].
  - unfold find_event. simpl. apply find_app_last; [|by apply bool_decide_eq_true].
    apply find_None_elem. intros w Hw. apply bool_decide_eq_false. intros Heq. apply Hn.
    unfold in_events. rewrite <- (ok_events _ _ Hok), <- Heq.
    by apply (list_elem_of_fmap_2 (fun w : EventRow => ev_event_id w)).
  - simpl. rewrite od_get_app_None; [simpl; by rewrite decide_True|].
    apply od_get_None. by rewrite (ok_identity _ _ Hok).
  - unfold bodies_of. simpl. rewrite filter_app, filter_none.
    + simpl. rewrite filter_id_on.
      * unfold new_bodies. rewrite <- list_fmap_compose.
        rewrite <- (list_fmap_id (body_texts (ev_payload e))) at 2. apply list_fmap_ext. by intros i [].
      * intros b (fb & -> & _)%list_elem_of_fmap. done.
    + intros b Hb <-. apply Hn, (proj1 (Forall_forall _ _) (ok_bodies _ _ Hok) b Hb).
  - simpl. rewrite od_get_app_None.
    + destruct (em_routing (ev_metadata e)); simpl; [by rewrite decide_True|done].
    + by eapply od_get_absent; [apply (ok_routing _ _ Hok)|].
  - eauto.
  - rewrite Hrel. unfold excerpts_of. rewrite <- (new_excerpts_get id (Z.of_nat (length (relation_rows c)) + 1) now).
    apply list_fmap_ext. intros i w Hw. simpl. apply od_get_app_None, od_get_None.
    intros (kv & Hkv & Hin)%list_elem_of_fmap.
    pose proof (proj1 (Forall_forall _ _) (ok_excerpts _ _ Hok) kv Hin) as Hb. simpl in Hb.
    assert (rw_id w ∈ rw_id <$> new_relations id (Z.of_nat (length (relation_rows c)) + 1) now (ev_relations e)) as Hin'
      by (by eapply list_elem_of_fmap_2, list_elem_of_lookup_2).
    rewrite new_relations_ids in Hin'. apply elem_of_seqZ in Hin'. lia.
Qed.

(** [stored] only looks at the tables events are admitted to. *)
Lemma stored_same e now c c' :
  event_rows c' = event_rows c -> body_identity c' = body_identity c ->
  body_content c' = body_content c -> routing_facts c' = routing_facts c ->
  relation_rows c' = relation_rows c -> relation_excerpts c' = relation_excerpts c ->
  stored e now c -> stored e now c'.
Proof.
  intros E1 E2 E3 E4 E5 E6 []. unfold find_event, bodies_of, relations_of, excerpts_of in *.
  split; unfold find_event, bodies_of, relations_of, excerpts_of; by rewrite ?E1, ?E2, ?E3, ?E4, ?E5, ?E6.
Qed.

(** Another event's admission leaves it alone. *)
Lemma stored_admitted (e : CanonicalEvent) now c (e' : CanonicalEvent) kind now' dl :
  content_ok sha256 c -> in_events c (ev_event_id e) -> ~ in_events c (ev_event_id e') ->
  stored e now c -> stored e now (admitted e' kind now' dl c).
Proof.
  intros Hok Hin Hn [Hrow Hid Hb Hr [key Hrel] Hex].
  assert (ev_event_id e' <> ev_event_id e) as Hne by congruence.
  assert (relations_of (admitted e' kind now' dl c) (ev_event_id e) = relations_of c (ev_event_id e)) as Hsame.
  { unfold relations_of. simpl. rewrite filter_app, (filter_none _ (new_relations _ _ _ _)); [apply app_nil_r|].
    intros w Hw. rewrite (proj1 (Forall_forall _ _) (new_relations_events _ _ _ _) w Hw). done. }
  split.
  - unfold find_event in *. simpl. by eapply find_prefix; [apply prefix_app_r|].
  - simpl. by apply od_get_app_Some.
  - unfold bodies_of in *. simpl. rewrite filter_app, (filter_none _ (new_bodies e')); [by rewrite app_nil_r|].
    intros b (fb & -> & _)%list_elem_of_fmap. done.
  - simpl. destruct (od_get (ev_event_id e) (routing_facts c)) as [r|] eqn:E.
    + rewrite <- Hr. by apply od_get_app_Some.
    + rewrite od_get_app_None by done. rewrite <- Hr.
      destruct (em_routing (ev_metadata e')); simpl; [|done]. by rewrite decide_False.
  - rewrite Hsame. eauto.
  - rewrite Hsame, <- Hex. unfold excerpts_of. apply list_fmap_ext. intros i w Hw. simpl.
    assert (rw_id w <= Z.of_nat (length (relation_rows c))) as Hle.
    { assert (rw_id w ∈ rw_id <$> relation_rows c) as Hin'.
      { apply list_elem_of_fmap_2. apply list_elem_of_lookup_2, list_elem_of_filter in Hw. tauto. }
      rewrite (ok_relation_ids _ _ Hok) in Hin'. apply elem_of_seqZ in Hin'. lia. }
    destruct (od_get (rw_id w) (relation_excerpts c)) as [s|] eqn:E; [by apply od_get_app_Some|].
    rewrite od_get_app_None by done. eapply od_get_keys_above; [apply new_excerpts_above|]. lia.
Qed.

(** The event's source dependency is not released. *)
Definition source_live (c : cdb) (id : string) : Prop :=
  exists p, p ∈ dependencies (core c) /\ dp_event_id p = id /\ source_owner p = true /\
    dp_released_at p = None.

Lemma source_live_unsettled c id : source_live c id -> unsettled_mandatory_owners c id = true.
Proof.
  intros (p & Hp & He & _ & Hr). apply existsb_exists. exists p. rewrite <- list_elem_of_In.
  split; [done|]. by rewrite !bool_decide_eq_true_2.
Qed.

(** A dependency that is live now was live before: releases are final. *)
Lemma source_live_back c c' id :
  content_evolves c c' -> in_events c id -> source_live c' id -> source_live c id.
Proof.
  intros Hev Hin (p' & Hp' & He & Hs & Hr).
  destruct (ce_sources _ _ Hev p' Hp' Hs) as (p & Hp & Hpp); [by rewrite He|].
  destruct Hpp as [[= Ke Kk _] _ _ Hrel]. exists p. split_and!; [done|congruence| |].
  - revert Hs. unfold source_owner. by rewrite Kk.
  - destruct (dp_released_at p) as [t|] eqn:E; [|done]. rewrite Hrel in Hr by done. congruence.
Qed.

(** Collecting another event leaves it alone. *)
Lemma stored_collected (e : CanonicalEvent) now c id record :
  content_ok sha256 c -> id <> ev_event_id e -> stored e now c -> stored e now (collected id record c).
Proof.
  intros Hok Hne [Hrow Hid Hb Hr Hrel Hex]. split; try done.
  - rewrite <- Hb. unfold bodies_of. simpl. rewrite list_filter_filter. f_equal. apply list_filter_iff.
    intros b. naive_solver.
  - rewrite <- Hex. unfold excerpts_of. apply list_fmap_ext. intros i w Hw. simpl.
    apply list_elem_of_lookup_2 in Hw. unfold relations_of in Hw. apply list_elem_of_filter in Hw as [He Hw].
    simpl in Hw. apply od_get_filter_keep. intros x _ Hk. apply negb_true_iff, not_true_iff_false.
    intros (v & Hv & Hvb)%existsb_exists. rewrite <- list_elem_of_In in Hv. breflect. destruct Hvb as [Hvk Hve].
    apply Hne. rewrite <- Hve, <- He. f_equal.
    apply (NoDup_fmap_inj_on rw_id (relation_rows c)); [|done..|congruence].
    rewrite (ok_relation_ids _ _ Hok). apply NoDup_seqZ.
Qed.

Lemma stored_step (e : CanonicalEvent) now c c' :
  content_ok sha256 c -> in_events c (ev_event_id e) -> source_live c (ev_event_id e) ->
  content_step sha256 c c' -> stored e now c -> stored e now c'.
Proof.
  intros Hok Hin Hl Hs. destruct Hs as [| | | | | | | | | | | |record Hid Hu Hn]; try (by apply stored_same).
  - apply stored_admitted; [done..|]. by apply event_exists_false.
  - apply stored_collected; [done|]. intros E. rewrite E in Hu.
    by rewrite source_live_unsettled in Hu.
Qed.

Lemma in_events_evolves c c' id : content_evolves c c' -> in_events c id -> in_events c' id.
Proof. intros Hev Hin. destruct (ce_events _ _ Hev) as [k Hk]. unfold in_events in *. rewrite Hk. set_solver. Qed.

Lemma stored_steps (e : CanonicalEvent) now c c' :
  content_ok sha256 c -> in_events c (ev_event_id e) -> source_live c' (ev_event_id e) ->
  rtc (content_step sha256) c c' -> stored e now c -> stored e now c'.
Proof.
  intros Hok Hin Hl Hs. revert Hok Hin. induction Hs as [|a b d H Hs IH]; intros Hok Hin Hst; [done|].
  assert (in_events b (ev_event_id e)) as Hb
    by (eapply in_events_evolves; [by eapply content_step_evolves|done]).
  apply IH; [done|by eapply content_step_ok|done|].
  eapply stored_step; [done..| |exact H|done].
  eapply source_live_back; [by eapply content_step_evolves|done|].
  eapply source_live_back; [by eapply content_steps_evolves|done..].
Qed.

(** ** Composing the stored form *)

(** The same event; the payload is compared as a mapping. *)
Definition same_event (e e' : CanonicalEvent) : Prop :=
  same_envelope e e' /\ forall k, od_get k (ev_payload e') = od_get k (ev_payload e).

Lemma decode_relations c id key now rs :
  forallb relation_storable rs = true ->
  excerpts_of c (new_relations id key now rs) = rl_fallback_text <$> rs ->
  decode_all (fun w => row_to_relation w (od_get (rw_id w) (relation_excerpts c)))
    (new_relations id key now rs) = Ok rs.
Proof.
  revert key. induction rs as [|r rs IH]; intros key; [done|].
  cbn [forallb new_relations decode_all]. intros [Hr Hrs]%andb_true_iff.
  unfold excerpts_of. rewrite !fmap_cons. intros [= He Hes]. simpl in He. cbn [rw_id relation_row].
  simpl. rewrite He. rewrite row_to_relation_roundtrip by done. cbn [mbind result_bind].
  by rewrite IH.
Qed.

Lemma body_present_ext p p' :
  (forall k, od_get k p' = od_get k p) -> body_present p' = body_present p.
Proof.
  intros H. unfold body_present. by rewrite !H.
Qed.

Lemma envelope_no_text payload :
  od_wf payload ->
  existsb (fun f => is_str (od_get f (envelope_payload payload))) BODY_FIELDS = false.
Proof.
  intros Hw. simpl. rewrite !od_get_envelope by done.
  destruct (od_get "body" payload) as [[]|], (od_get "text" payload) as [[]|]; done.
Qed.

Lemma compose_stored (e : CanonicalEvent) now c kind q :
  storable e -> stored e now c -> kind <> OwnerReply ->
  exists e', compose_event c (ev_event_id e) kind q (event_row e now) = Ok e' /\ same_event e e'.
Proof.
  intros [Hcol Hw Hnat Hrels] [Hrow Hid Hb Hr [key Hrel] Hex] Hk.
  unfold compose_event, projected_relations, projected_payload, projected_metadata.
  rewrite (bool_decide_eq_false_2 (kind = OwnerReply)) by done. rewrite Hrel in *.
  assert (composed_routing c (event_row e now) =
    match em_routing (ev_metadata e) with Some r => routing_json r | None => JNull end) as Hcr.
  { unfold composed_routing. simpl. rewrite Hr. destruct (em_routing (ev_metadata e)); [done|].
    simpl. unfold serialize_metadata. by destruct (em_transport _), (em_radio _), (em_telemetry _),
      (em_native _), (nonempty (em_custom (ev_metadata e))). }
  replace (match kind with OwnerReply => Ok [] | _ => decode_all _ _ end) with (Ok (E := exc) (ev_relations e))
    by (symmetry; destruct kind; try done; by eapply decode_relations).
  cbn [mbind result_bind]. rewrite Hcr. unfold row_to_event.
  replace (match kind with OwnerReply => _ | _ => ew_payload (event_row e now) end)
    with (envelope_payload (ev_payload e)) by (by destruct kind).
  cbn [ew_metadata event_row andb]. rewrite metadata_roundtrip. cbn [mbind result_bind].
  unfold CanonicalEvent_init. cbn [ew_columns event_row ev_columns]. rewrite Hcol. cbn [mbind result_bind].
  cbn [ev_payload]. rewrite envelope_no_text by done. rewrite Hid, Hb. cbn [andb].
  pose proof (fun k => text_payload_get (ev_payload e) k Hw) as Hget. unfold set_text in Hget.
  rewrite (body_present_ext (ev_payload e) (foldl _ _ _)) by done. rewrite bool_decide_eq_true_2 by done. cbn [negb].
  eexists. split; [done|]. split; [|exact Hget]. split_and!; simpl; [done..|].
  by apply join_split_native.
Qed.

(** ** Admission, any operations, read *)

(** A plan settles the attachment descriptor and nothing else. *)
Definition same_but_attachment (e e' : CanonicalEvent) : Prop :=
  same_envelope e e' /\
  forall k, k <> ATTACHMENT_PAYLOAD_KEY -> od_get k (ev_payload e') = od_get k (ev_payload e).

Lemma descriptor_payload e d e' :
  event_with_attachment_descriptor e d = Ok e' ->
  same_but_attachment e e' /\ (od_wf (ev_payload e) -> od_wf (ev_payload e')).
Proof.
  unfold event_with_attachment_descriptor. intros (x & _ & [= <-])%bind_Ok. split; [split; [done|]|]; simpl.
  - intros k Hk. by apply od_get_set_ne.
  - apply od_set_wf.
Qed.

Lemma admission_event_payload a now plan c :
  admission_plan sha256 a now = Ok plan ->
  same_but_attachment (ad_event a) (admission_event a plan c) /\
  (od_wf (ev_payload (ad_event a)) -> od_wf (ev_payload (admission_event a plan c))).
Proof.
  unfold admission_plan, admission_event. destruct (ad_attachment a) as [data|]; [|by intros [= <-]].
  destruct (build_attachment_plan _ _ _ _ _) as [p|] eqn:E; [|done]. intros [= <-]. simpl.
  revert E. unfold build_attachment_plan. intros (d & _ & H)%bind_Ok. destruct d as [d|]; [|done].
  case_match.
  - apply bind_Ok in H as (u & _ & H). apply bind_Ok in H as (e' & He & [= <-]). simpl.
    by apply descriptor_payload in He.
  - apply bind_Ok in H as (kept & Hk & H). apply bind_Ok in H as (o & _ & H).
    apply bind_Ok in H as (quota & Hq & [= <-]). simpl.
    apply descriptor_payload in Hk, Hq. by case_match.
Qed.

Lemma storable_envelope e e' :
  same_envelope e e' -> od_wf (ev_payload e') -> storable e -> storable e'.
Proof. intros (E1 & E2 & E3 & E4) Hw []. split; rewrite ?E1, ?E2, ?E4; done. Qed.

(** The ingress dependency of an event after any steps is the one its admission
    acquired. *)
Lemma ingress_dependency_kept c c' p p' :
  content_ok sha256 c' -> content_evolves c c' -> p ∈ dependencies (core c) ->
  p' ∈ dependencies (core c') -> dp_key p' = dp_key p -> dep_evolves p p'.
Proof.
  intros Hok Hev Hp Hp' Hk. destruct (list_evolves_elem _ _ _ p (ce_deps _ _ Hev) Hp) as (q & Hq & Hpq).
  assert (p' = q) as ->; [|done].
  eapply (NoDup_fmap_inj_on dp_key); [apply (ok_deps _ _ Hok)|done..|]. rewrite (de_key _ _ Hpq). done.
Qed.

Lemma read_authorized c id now p :
  in_events c id -> p ∈ dependencies (core c) -> dp_key p = (id, "ingress", id) ->
  dp_released_at p = None -> dp_acquired_at p <= now ->
  (forall t, dp_deadline p = Some t -> now < t) ->
  owner_authorized (observe_mandatory_expiry id now c) id OwnerIngress id now = true.
Proof.
  intros Hin Hp [= He Hk Ho] Hr Ha Hd. unfold owner_authorized. apply orb_true_iff. right.
  apply existsb_exists. exists p. split.
  - apply list_elem_of_In. simpl. apply list_elem_of_fmap. exists p. split; [|done].
    unfold expired_dependency. replace (opt_le (dp_deadline p) now) with false; [by rewrite andb_false_r|].
    symmetry. destruct (dp_deadline p) as [t|]; [|done]. simpl. apply Z.leb_gt. by apply Hd.
  - unfold dependency_grants. rewrite !bool_decide_eq_true_2 by done. simpl.
    rewrite (proj2 (Z.leb_le _ _) Ha). destruct (dp_deadline p) as [t|]; [|done]. simpl.
    apply Z.ltb_lt. by apply Hd.
Qed.

(** What a created admission leaves behind. *)
Record created (a : admission) (now : instant) (e : CanonicalEvent) (c1 : cdb) : Prop := {
  cr_ok : content_ok sha256 c1;
  cr_id : ev_event_id e = ev_event_id (ad_event a);
  cr_same : same_but_attachment (ad_event a) e;
  cr_plain : ad_attachment a = None -> e = ad_event a;
  cr_storable : storable (ad_event a) -> storable e;
  cr_stored : stored e now c1;
  cr_event : in_events c1 (ev_event_id e);
  cr_dependency :
    source_dependency (ev_event_id e) "ingress" now (ad_deadline a) ∈ dependencies (core c1)
}.

Lemma admission_created a now c r c1 :
  content_ok sha256 c -> admit_ingress sha256 a now c = (Ok r, c1) -> ar_created r = true ->
  exists e, created a now e c1.
Proof.
  intros Hok Hr Hcreated.
  pose proof (admit_ingress_outcomes sha256 a now c Hok) as Hout. rewrite Hr in Hout. simpl in Hout.
  assert (content_ok sha256 c1) as Hok1.
  { pose proof (admit_ingress_steps sha256 a now c) as Hs. rewrite Hr in Hs. by eapply content_steps_ok. }
  inversion Hout as [|r0 Hcr|r0 plan Hcr Hid Hws Hnone Hnin Hplan Henv Hr0 Hc1]; subst r0; [congruence|].
  set (e := admission_event a plan c) in *.
  destruct (admission_event_payload a now plan c Hplan) as [Hsame Hwf]. fold e in Hsame, Hwf.
  assert (ev_event_id e = ev_event_id (ad_event a)) as He by (by destruct Henv as [-> _]).
  exists e. rewrite <- Hc1 in *. split; try done.
  - intros Hno. unfold e, admission_event. unfold admission_plan in Hplan. rewrite Hno in Hplan.
    injection Hplan as <-. done.
  - intros Hst. eapply storable_envelope; [exact Henv|by apply Hwf, so_payload|done].
  - apply (stored_same e now (admitted e "ingress" now (ad_deadline a) c)); [done..|].
    apply (admitted_stored e "ingress" now (ad_deadline a) c Hok). by rewrite He.
  - unfold in_events. simpl. set_solver.
  - simpl. set_solver.
Qed.

Context (json_loads : string -> option json).

End roundtrip.

(** ** Examples *)

Module RoundtripExamples.
Import ContentExamples.

Definition claimed_db : cdb := cexec digest loads [CClaim 20 "worker-1" 5 100] IngressExamples.admitted_db.

Lemma greeting_storable : storable greeting.
Proof. split; [reflexivity| |reflexivity|reflexivity]. apply (bool_decide_unpack _). vm_compute. exact I. Qed.


End RoundtripExamples.
