(* ===== verification/IngressWorker.v ===== *)
(** * The ingress worker

    [src/src/medre/core/ingress/worker.py]: one claim cycle ([run_once]), the
    loop around it ([_run]), the retry budget and the worker's counters.  What
    asyncio decides is an argument: for every turn of the loop an oracle gives
    the clock readings, the operations other tasks ran while the event was
    being processed (the lease heartbeat included), how the processing ended,
    and whether the stop signal was seen.  Task handles and the grace period of [stop]
    are not modelled. *)

From S2P Require Import Prelude.
From S2P Require Import Json.
From S2P Require Import DeliveryState.
From S2P Require Import Delivery.
From S2P Require Import Store.
From S2P Require Import Outbox.
From S2P Require Import OutboxProofs.
From S2P Require Import Attachments.
From S2P Require Import Events.
From S2P Require Import ContentStore.
From S2P Require Import Ingress.
From S2P Require Import IngressProofs.
From S2P Require Import ContentGrants.
From S2P Require Import ContentSteps.
From S2P Require Import ContentSafety.
From S2P Require Import IngressSafety.

Open Scope string_scope.
Open Scope list_scope.
Open Scope Z_scope.

(** ** Configuration and state *)

Record worker_config : Set := {
  wc_batch_size : Z;
  wc_lease_us : Z;
  wc_max_attempts : Z;
  wc_worker_id : string
}.

(** The checks of [__init__]. *)
Definition worker_config_init (k : worker_config) : result exc worker_config :=
  if wc_lease_us k <=? 0 then Raise (ValueError "lease_seconds must be positive")
  else if wc_batch_size k <=? 0 then Raise (ValueError "batch_size must be positive")
  else if wc_max_attempts k <=? 0 then Raise (ValueError "max_attempts must be positive")
  else Ok k.

Record worker_state : Set := {
  ws_processed : Z;
  ws_failures : Z;
  ws_lost_leases : Z;
  ws_terminal_failures : Z;
  ws_deferrals : Z;
  ws_deferred_this_cycle : bool
}.

Definition worker_start : worker_state :=
  {| ws_processed := 0; ws_failures := 0; ws_lost_leases := 0; ws_terminal_failures := 0;
     ws_deferrals := 0; ws_deferred_this_cycle := false |}.

Definition bump (processed failures lost terminal deferrals : Z) (w : worker_state) : worker_state :=
  {| ws_processed := ws_processed w + processed; ws_failures := ws_failures w + failures;
     ws_lost_leases := ws_lost_leases w + lost;
     ws_terminal_failures := ws_terminal_failures w + terminal;
     ws_deferrals := ws_deferrals w + deferrals;
     ws_deferred_this_cycle := ws_deferred_this_cycle w |}.

Definition set_deferred (b : bool) (w : worker_state) : worker_state :=
  {| ws_processed := ws_processed w; ws_failures := ws_failures w;
     ws_lost_leases := ws_lost_leases w; ws_terminal_failures := ws_terminal_failures w;
     ws_deferrals := ws_deferrals w; ws_deferred_this_cycle := b |}.

(** How [_process_with_lease] ends. *)
Inductive processing : Set :=
| Routed | LeaseLost | DeferredWork (error : string) | Crashed (error : string) | CancelledTask.

(** One turn of the loop. *)
Record turn : Type := {
  tn_stopped : bool;
  tn_claim_at : instant;
  tn_meanwhile : list content_op;
  tn_outcome : processing;
  tn_finish_at : instant;
  tn_stopped_after : bool
}.

(** How a turn leaves the loop. *)
Inductive turn_end : Set := Continue | Break | Propagate (e : option exc).

Definition counted (b : bool) : Z := if b then 1 else 0.

Section worker.
Context (sha256 : string -> string) (json_loads : string -> option json) (k : worker_config).

(** The body of [try] ... [else] after the processing ended: the owner's
    statement and the counters. *)
Definition settle_item (item : WorkRow) (t : turn) (w : worker_state) (c : cdb)
    : result (option exc) Z * worker_state * cdb :=
  let id := wk_event_id item in
  let me := wc_worker_id k in
  let now := tn_finish_at t in
  match tn_outcome t with
  | CancelledTask => (Raise None, w, c)
  | LeaseLost => (Ok 0, bump 0 1 1 0 0 w, c)
  | DeferredWork error =>
      match defer_ingress_work id me error now c with
      | (Ok changed, c') => (Ok 0, bump 0 0 (counted (negb changed)) 0 1 w, c')
      | (Raise e, c') => (Raise (Some e), bump 0 0 0 0 1 w, c')
      end
  | Crashed error =>
      if wc_max_attempts k <=? wk_attempts item then
        match fail_ingress_work id me error now c with
        | (Ok changed, c') =>
            (Ok 0, bump 0 1 (counted (negb changed)) (counted changed) 0 w, c')
        | (Raise e, c') => (Raise (Some e), bump 0 1 0 0 0 w, c')
        end
      else
        match release_ingress_work id me error now c with
        | (Ok changed, c') => (Ok 0, bump 0 1 (counted (negb changed)) 0 0 w, c')
        | (Raise e, c') => (Raise (Some e), bump 0 1 0 0 0 w, c')
        end
  | Routed =>
      match complete_ingress_work id me now c with
      | (Ok changed, c') =>
          (Ok (counted changed), bump (counted changed) 0 (counted (negb changed)) 0 0 w, c')
      | (Raise e, c') => (Raise (Some e), w, c')
      end
  end.

Definition is_deferred (p : processing) : bool :=
  match p with DeferredWork _ => true | _ => false end.

(** One iteration of the [for] loop of [run_once]: what it adds to the
    completed count and how it goes on. *)
Definition run_turn (t : turn) (w : worker_state) (c : cdb) : Z * turn_end * worker_state * cdb :=
  if tn_stopped t then (0, Break, w, c)
  else match claim_ingress_work (tn_claim_at t) (wc_worker_id k) 1 (wc_lease_us k) c with
  | (Raise e, c1) => (0, Propagate (Some e), w, c1)
  | (Ok [], c1) => (0, Break, w, c1)
  | (Ok (item :: _), c1) =>
      let c2 := cexec sha256 json_loads (tn_meanwhile t) c1 in
      match settle_item item t w c2 with
      | (Raise e, w', c3) => (0, Propagate e, w', c3)
      | (Ok n, w', c3) =>
          if is_deferred (tn_outcome t) then (n, Break, set_deferred true w', c3)
          else (n, if tn_stopped_after t then Break else Continue, w', c3)
      end
  end.

Fixpoint run_turns (n : nat) (oracle : nat -> turn) (completed : Z) (w : worker_state) (c : cdb)
    : result (option exc) Z * worker_state * cdb :=
  match n with
  | O => (Ok completed, w, c)
  | S n' =>
      match run_turn (oracle O) w c with
      | (m, Continue, w', c') => run_turns n' (fun i => oracle (S i)) (completed + m) w' c'
      | (m, Break, w', c') => (Ok (completed + m), w', c')
      | (_, Propagate e, w', c') => (Raise e, w', c')
      end
  end.

(** [run_once]. *)
Definition run_once (oracle : nat -> turn) (w : worker_state) (c : cdb)
    : result (option exc) Z * worker_state * cdb :=
  run_turns (Z.to_nat (wc_batch_size k)) oracle 0 (set_deferred false w) c.

(** [n] iterations of [_run]: a cycle that raises counts one failure, a
    cancellation ends the loop. *)
Fixpoint run_cycles (n : nat) (oracle : nat -> nat -> turn) (w : worker_state) (c : cdb)
    : worker_state * cdb :=
  match n with
  | O => (w, c)
  | S n' =>
      match run_once (oracle O) w c with
      | (Ok _, w', c') => run_cycles n' (fun i => oracle (S i)) w' c'
      | (Raise (Some _), w', c') => run_cycles n' (fun i => oracle (S i)) (bump 0 1 0 0 0 w') c'
      | (Raise None, w', c') => (w', c')
      end
  end.

(** ** The retry budget *)

(** What may run while an event is processed: everything but new ingress work
    and other owners' statements about it.  So the processing reads the event
    and stages its deliveries, receipts, references and snapshots, the lease
    heartbeat renews the worker's own lease, and reads, holds, collections,
    checkpoints and retention epochs go on beside it. *)
Definition beside_work (op : content_op) : bool :=
  match op with
  | CAdmit _ _ | CClaim _ _ _ _ | CComplete _ _ _ | CRelease _ _ _ _ | CDefer _ _ _ _
  | CFail _ _ _ _ => false
  | CRenew _ worker _ _ => bool_decide (worker = wc_worker_id k)
  | _ => true
  end.

(** An undisturbed turn: no stop signal, nobody else admits or handles ingress
    work meanwhile, and the processing ends by itself. *)
Definition undisturbed (start : instant) (t : turn) : Prop :=
  tn_stopped t = false /\ tn_stopped_after t = false /\
  Forall (fun op => beside_work op = true) (tn_meanwhile t) /\
  start <= tn_claim_at t /\ (tn_outcome t = Routed \/ exists error, tn_outcome t = Crashed error).

(** The work table: unique named rows, counted attempts, no row owned under
    this worker's own (random) identifier, and every row is finished or can be
    claimed from [start] on. *)
Record drainable (start : instant) (work : list WorkRow) : Prop := {
  dr_unique : NoDup (wk_event_id <$> work);
  dr_rows : forall w, w ∈ work -> truthy (wk_event_id w) = true /\ 0 <= wk_attempts w;
  dr_claimable : forall w, w ∈ work ->
    work_terminal (wk_status w) = true \/ claimable_work start w = true;
  dr_owner : forall w, w ∈ work -> wk_worker_id w <> Some (wc_worker_id k)
}.

(** The turns a row can still take. *)
Definition row_turns (w : WorkRow) : Z :=
  if work_terminal (wk_status w) then 0 else Z.max 1 (wc_max_attempts k - wk_attempts w).

Definition turns_left (work : list WorkRow) : Z := foldr Z.add 0 (row_turns <$> work).

Definition all_finished (work : list WorkRow) : Prop :=
  forall w, w ∈ work -> work_terminal (wk_status w) = true.

(** A row failed since the table was [work] has used its whole budget. *)
Definition budget_spent (work work' : list WorkRow) : Prop :=
  forall w, w ∈ work' -> wk_status w = WFailed -> w ∈ work \/ wc_max_attempts k <= wk_attempts w.

Lemma claimable_later start now w : claimable_work start w = true -> start <= now -> claimable_work now w = true.
Proof.
  unfold claimable_work. intros [Hp|[Hp Hl]%andb_true_iff]%orb_true_iff Hle; apply orb_true_iff; [by left|right].
  rewrite Hp. destruct (wk_lease_until w) as [u|]; [|done]. simpl in *. breflect. lia.
Qed.

Lemma claimable_status now w : claimable_work now w = true -> work_terminal (wk_status w) = false.
Proof.
  unfold claimable_work. breflect. intros [-> |[-> _]]; reflexivity.
Qed.

Lemma sql_limit_one {A} (l : list A) : sql_limit 1 0 l = option_list (head l).
Proof. by destruct l as [|x [|y l]]. Qed.

(** The one row a turn claims. *)
Lemma claim_select_one now c :
  (claim_ingress_select now 1 c = [] /\ forall w, w ∈ ingress_work c -> claimable_work now w = false) \/
  (exists v, claim_ingress_select now 1 c = [v] /\ v ∈ ingress_work c /\ claimable_work now v = true).
Proof.
  destruct (claim_ingress_select now 1 c) as [|v l] eqn:E.
  - left. split; [done|]. intros w Hw. apply not_true_iff_false. intros Hc.
    unfold claim_ingress_select in E. rewrite sql_limit_one in E.
    assert (w ∈ sorted_by work_order (filter (fun w => claimable_work now w = true) (ingress_work c))) as Hin.
    { apply elem_of_sorted_by, list_elem_of_filter. done. }
    destruct (sorted_by _ _); [by apply not_elem_of_nil in Hin|done].
  - right. assert (v ∈ claim_ingress_select now 1 c) as [Hv Hc]%ingress_select_elem by (rewrite E; set_solver).
    exists v. split_and!; [|done..]. unfold claim_ingress_select in E. rewrite sql_limit_one in E.
    destruct (head _); [|done]. by injection E as <- <-.
Qed.

(** ** The row a turn leaves *)

Definition settled_row (t : turn) (w : WorkRow) : WorkRow :=
  let w1 := claim_work (tn_claim_at t) (tn_claim_at t + wc_lease_us k) (wc_worker_id k) w in
  match tn_outcome t with
  | Crashed _ =>
      unlock_work (if wc_max_attempts k <=? wk_attempts w + 1 then WFailed else WPending)
        (wk_attempts w + 1) (wk_last_error w) (tn_finish_at t) w1
  | _ => unlock_work WCompleted (wk_attempts w + 1) None (tn_finish_at t) w1
  end.

Definition settled_table (t : turn) (v : WorkRow) (work : list WorkRow) : list WorkRow :=
  (fun w => if decide (wk_event_id w = wk_event_id v) then settled_row t w else w) <$> work.

(** The claimed row, its lease renewed last at [u]. *)
Definition held_work (now u lease : instant) (me : string) (w : WorkRow) : WorkRow :=
  renew_work u lease (claim_work now lease me w).

Definition held_table (now u lease : instant) (me id : string) (work : list WorkRow) : list WorkRow :=
  (fun w => if decide (wk_event_id w = id) then held_work now u lease me w else w) <$> work.

Lemma elem_singleton (x y : string) : elem x [y] = bool_decide (x = y).
Proof. unfold elem. apply bool_decide_ext. apply list_elem_of_singleton. Qed.

Lemma claimed_held now lease me id work :
  claimed_table now lease me [id] work = held_table now now lease me id work.
Proof.
  unfold claimed_table, held_table. apply list_fmap_ext. intros i w _. rewrite elem_singleton.
  by destruct (decide (wk_event_id w = id)) as [E|E];
    [rewrite bool_decide_eq_true_2|rewrite bool_decide_eq_false_2].
Qed.

Lemma owned_held now u lease me (id : string) w :
  work_owned_by id me (if decide (wk_event_id w = id) then held_work now u lease me w else w) =
  bool_decide (wk_event_id w = id).
Proof.
  destruct (decide (wk_event_id w = id)) as [E|E].
  - rewrite (bool_decide_eq_true_2 (_ = id)) by done. unfold work_owned_by. simpl.
    by rewrite !bool_decide_eq_true_2.
  - unfold work_owned_by. by rewrite bool_decide_eq_false_2.
Qed.

(** The heartbeat renews the held row only. *)
Lemma renew_held now u lease me id i u' l' (work : list WorkRow) :
  (forall w, w ∈ work -> wk_worker_id w <> Some me) ->
  exists u2 l2,
    (fun w => if work_owned_by i me w then renew_work u' l' w else w) <$> held_table now u lease me id work =
    held_table now u2 l2 me id work.
Proof.
  intros Hw. exists (if decide (i = id) then u' else u), (if decide (i = id) then l' else lease).
  unfold held_table. rewrite <- list_fmap_compose. apply list_fmap_ext. intros j w Hj. cbn [compose].
  apply list_elem_of_lookup_2, Hw in Hj. destruct (decide (wk_event_id w = id)) as [E|E].
  - destruct (decide (i = id)) as [->|Hi].
    + unfold work_owned_by at 1. simpl. by rewrite !bool_decide_eq_true_2.
    + unfold work_owned_by at 1. simpl. rewrite bool_decide_eq_false_2; [done|congruence].
  - assert (work_owned_by i me w = false) as ->; [|done].
    apply not_true_iff_false. by intros (_ & _ & ?)%work_owned_by_true.
Qed.

(** Nothing that runs beside the work takes the held row away. *)
Lemma beside_held now me id work ops c u lease :
  me = wc_worker_id k -> (forall w, w ∈ work -> wk_worker_id w <> Some me) ->
  Forall (fun op => beside_work op = true) ops ->
  ingress_work c = held_table now u lease me id work ->
  exists u' lease', ingress_work (cexec sha256 json_loads ops c) = held_table now u' lease' me id work.
Proof.
  intros Hme Hw Hops. revert c u lease. induction Hops as [|op ops Hop _ IH]; intros c u lease Hc.
  { by exists u, lease. }
  simpl. assert (exists u' lease', ingress_work (cstep sha256 json_loads op c) = held_table now u' lease' me id work)
    as (u' & lease' & Hc'); [|by eapply IH].
  destruct (passive op) eqn:Hp.
  { exists u, lease. rewrite <- Hc. by apply (passive_same sha256 json_loads ingress_work). }
  destruct op; try done; simpl in *.
  - apply bool_decide_eq_true in Hop as ->. rewrite <- Hme. unfold renew_ingress_work_lease.
    case_match; [by exists u, lease|]. unfold update_work, mbind, ctx_bind. simpl. rewrite Hc.
    by apply renew_held.
  - exists u, lease. rewrite <- Hc. by apply (collect_same ingress_work).
Qed.

Lemma count_key (id : string) (work : list WorkRow) :
  NoDup (wk_event_id <$> work) -> id ∈ wk_event_id <$> work ->
  length (filter (fun w => wk_event_id w = id) work) = 1%nat.
Proof.
  induction work as [|w work IH]; [by intros _ H%not_elem_of_nil|].
  rewrite fmap_cons. intros [Hw Hn]%NoDup_cons [->|Hin]%elem_of_cons.
  - rewrite filter_cons_True by done. simpl. f_equal. apply length_filter_0.
    intros x Hx E. apply Hw. rewrite <- E. by apply list_elem_of_fmap_2.
  - rewrite filter_cons_False by (intros E; by rewrite E in Hw). by apply IH.
Qed.

(** The owner statement meets exactly the held row. *)
Lemma owner_update_run now u lease me f (v : WorkRow) c :
  NoDup (wk_event_id <$> ingress_work c) -> v ∈ ingress_work c ->
  update_work (work_owned_by (wk_event_id v) me) f
    (set_ingress_work c (held_table now u lease me (wk_event_id v) (ingress_work c))) =
  Ok (1, set_ingress_work c
    ((fun w => if decide (wk_event_id w = wk_event_id v) then f (held_work now u lease me w) else w)
       <$> ingress_work c)).
Proof.
  intros Hn Hv. unfold update_work. simpl. unfold held_table. f_equal. f_equal.
  - replace 1 with (Z.of_nat 1) by done. f_equal. rewrite <- (count_key (wk_event_id v) (ingress_work c) Hn)
      by (by apply list_elem_of_fmap_2).
    clear. induction (ingress_work c) as [|w l IH]; [done|]. rewrite fmap_cons, !filter_cons.
    rewrite (decide_ext (work_owned_by _ _ _ = true) (wk_event_id w = wk_event_id v)).
    + case_decide; simpl; by rewrite IH.
    + rewrite owned_held. apply bool_decide_eq_true.
  - destruct c. unfold set_ingress_work. simpl. f_equal. rewrite <- list_fmap_compose.
    apply list_fmap_ext. intros i w _. cbn [compose]. rewrite owned_held.
    by destruct (decide (wk_event_id w = wk_event_id v)) as [E|E];
      [rewrite bool_decide_eq_true_2|rewrite bool_decide_eq_false_2].
Qed.

Lemma run_all_total {A} (f : A -> ctx unit) xs c :
  (forall x c, exists c', f x c = Ok (tt, c')) -> exists c', run_all f xs c = Ok (tt, c').
Proof.
  intros Hf. revert c. induction xs as [|x xs IH]; intros c; simpl; [by eexists|].
  destruct (Hf x c) as [c1 H1]. destruct (IH c1) as [c2 H2]. exists c2.
  unfold mbind, ctx_bind. by rewrite H1.
Qed.

Lemma claim_run now lease_us me c :
  NoDup (wk_event_id <$> ingress_work c) ->
  claim_ingress_work now me 1 lease_us c =
  (Ok (claimed_ingress_row c now (now + lease_us) me <$> claim_ingress_select now 1 c),
   set_ingress_work c (claimed_table now (now + lease_us) me
     (wk_event_id <$> claim_ingress_select now 1 c) (ingress_work c))).
Proof.
  intros Hn. apply wrap_Ok.
  assert (exists x, sync_claim_ingress_work now (now + lease_us) me 1 c = Ok x) as [[rows c'] H].
  { unfold sync_claim_ingress_work, mbind, ctx_bind, cget.
    match goal with |- context [run_all ?f ?xs c] => destruct (run_all_total f xs c) as [c' ->] end.
    - intros x c0. by eexists.
    - by eexists. }
  rewrite H. apply sync_claim_Ok in H as [-> ->]; done.
Qed.

Lemma drainable_work_ids start c v :
  drainable start (ingress_work c) -> v ∈ ingress_work c -> truthy (wk_event_id v) = true.
Proof. intros [_ H _] Hv. by apply H. Qed.

(** [return_work] of a held row succeeds. *)
Lemma return_run now u lease me f (v : WorkRow) c error at_ :
  NoDup (wk_event_id <$> ingress_work c) -> v ∈ ingress_work c ->
  truthy (wk_event_id v) = true -> (forall w, wk_event_id (f w) = wk_event_id w) ->
  (forall w, 0 <= wk_attempts w -> 0 <= wk_attempts (f (held_work now u lease me w))) ->
  (forall w, w ∈ ingress_work c -> 0 <= wk_attempts w) ->
  exists d,
    return_work (wk_event_id v) me error at_ f
      (set_ingress_work c (held_table now u lease me (wk_event_id v) (ingress_work c))) =
    (Ok true, set_core (set_ingress_work c
       ((fun w => if decide (wk_event_id w = wk_event_id v) then f (held_work now u lease me w) else w)
          <$> ingress_work c)) d).
Proof.
  intros Hn Hv Ht Hf Hfa Ha. set (c' := set_ingress_work c (_ <$> ingress_work c)).
  assert (exists w, find_work c' (wk_event_id v) = Some w /\ 0 <= wk_attempts w) as (w & Hw & Haw).
  { destruct (find_work c' (wk_event_id v)) as [w|] eqn:E.
    - exists w. split; [done|]. apply find_work_elem in E as [(x & -> & Hx)%list_elem_of_fmap _].
      case_decide; auto.
    - apply find_work_None in E. exfalso. apply E, list_elem_of_fmap.
      exists (f (held_work now u lease me v)). simpl. split; [by rewrite Hf|].
      apply list_elem_of_fmap. exists v. by rewrite decide_True. }
  eexists. apply wrap_Ok, ctx_bind_Ok. exists 1, c'. split; [by apply owner_update_run|].
  cbn [cwhen]. replace (0 <? 1) with true by done. unfold mbind, ctx_bind, cwhen.
  unfold insert_ingress_diagnostic. rewrite Hw. unfold on_core, insert_diagnostic. simpl.
  rewrite Ht, (proj2 (Z.leb_le _ _) Haw). simpl. reflexivity.
Qed.

Lemma complete_run now u lease me (v : WorkRow) c at_ :
  NoDup (wk_event_id <$> ingress_work c) -> v ∈ ingress_work c ->
  exists d,
    complete_ingress_work (wk_event_id v) me at_
      (set_ingress_work c (held_table now u lease me (wk_event_id v) (ingress_work c))) =
    (Ok true, set_core (set_ingress_work c
       ((fun w => if decide (wk_event_id w = wk_event_id v)
                  then unlock_work WCompleted (wk_attempts w + 1) None at_ (held_work now u lease me w)
                  else w) <$> ingress_work c)) d).
Proof.
  intros Hn Hv. eexists. apply wrap_Ok, ctx_bind_Ok. eexists 1, _.
  split; [by apply owner_update_run|]. reflexivity.
Qed.

(** So does the statement after a crash, which is the same for both verdicts. *)
Lemma crash_run now u lease me (failed : bool) (v : WorkRow) c error at_ :
  NoDup (wk_event_id <$> ingress_work c) -> v ∈ ingress_work c ->
  truthy (wk_event_id v) = true -> (forall w, w ∈ ingress_work c -> 0 <= wk_attempts w) ->
  exists d,
    (if failed then fail_ingress_work else release_ingress_work) (wk_event_id v) me error at_
      (set_ingress_work c (held_table now u lease me (wk_event_id v) (ingress_work c))) =
    (Ok true, set_core (set_ingress_work c
       ((fun w => if decide (wk_event_id w = wk_event_id v)
                  then unlock_work (if failed then WFailed else WPending) (wk_attempts w + 1)
                         (wk_last_error w) at_ (held_work now u lease me w)
                  else w) <$> ingress_work c)) d).
Proof. intros Hn Hv Ht Ha. destruct failed; apply return_run; try done; simpl; lia. Qed.

(** The verdict depends on the claimed row only. *)
Lemma crash_table t v work error failed :
  NoDup (wk_event_id <$> work) -> v ∈ work -> tn_outcome t = Crashed error ->
  (wc_max_attempts k <=? wk_attempts v + 1) = failed ->
  (fun w => if decide (wk_event_id w = wk_event_id v)
            then unlock_work (if failed then WFailed else WPending) (wk_attempts w + 1)
                   (wk_last_error w) (tn_finish_at t)
                   (claim_work (tn_claim_at t) (tn_claim_at t + wc_lease_us k) (wc_worker_id k) w)
            else w) <$> work = settled_table t v work.
Proof.
  intros Hn Hv Ho E. unfold settled_table, settled_row. rewrite Ho. apply list_fmap_ext.
  intros i x Hx. simpl. case_decide as Hd; [|done].
  assert (x = v) as -> by
    (eapply (NoDup_fmap_inj_on wk_event_id); [done|by eapply list_elem_of_lookup_2|done..]).
  by rewrite E.
Qed.

(** One undisturbed turn settles one row, or there is nothing left to do. *)
Lemma run_turn_undisturbed start t w c :
  drainable start (ingress_work c) -> undisturbed start t ->
  (all_finished (ingress_work c) /\ run_turn t w c = (0, Break, w, c)) \/
  (exists v n w' c', v ∈ ingress_work c /\ work_terminal (wk_status v) = false /\
     run_turn t w c = (n, Continue, w', c') /\
     ingress_work c' = settled_table t v (ingress_work c)).
Proof.
  intros [Hn Hr Hc Hown] (Hs & Hsa & Hm & Hstart & Ho). unfold run_turn. rewrite Hs, claim_run by done.
  destruct (claim_select_one (tn_claim_at t) c) as [[-> Hnone]|(v & -> & Hv & Hcl)].
  { left. split.
    - intros x Hx. destruct (Hc x Hx) as [?|Hx']; [done|].
      apply (claimable_later _ (tn_claim_at t)) in Hx'; [|done]. by rewrite Hnone in Hx'.
    - simpl. destruct c. unfold set_ingress_work, claimed_table. simpl. repeat f_equal. apply list_fmap_id. }
  right. destruct (Hr v Hv) as [Ht Ha]. cbn [fmap list_fmap]. cbv zeta.
  match goal with |- context [cexec _ _ _ ?x] => set (c1 := x) end.
  destruct (beside_held (tn_claim_at t) (wc_worker_id k) (wk_event_id v) (ingress_work c) (tn_meanwhile t) c1
    (tn_claim_at t) (tn_claim_at t + wc_lease_us k) eq_refl Hown Hm (claimed_held _ _ _ _ _)) as (u & lease & Hw2).
  revert Hw2. generalize (cexec sha256 json_loads (tn_meanwhile t) c1). intros c2 Hw2.
  assert (exists c0, ingress_work c0 = ingress_work c /\
    c2 = set_ingress_work c0 (held_table (tn_claim_at t) u lease (wc_worker_id k) (wk_event_id v)
      (ingress_work c0))) as (c0 & Hc0 & ->).
  { exists (set_ingress_work c2 (ingress_work c)). split; [done|]. simpl. rewrite <- Hw2. by destruct c2. }
  clear Hw2 c1. rewrite <- Hc0 in *.
  exists v. unfold settle_item. cbn [wk_event_id claimed_ingress_row]. rewrite Hsa.
  destruct Ho as [Ho|[error Ho]]; rewrite Ho; cbn [is_deferred].
  - destruct (complete_run (tn_claim_at t) u lease (wc_worker_id k) v c0 (tn_finish_at t) Hn Hv) as [d H].
    cbn [wk_event_id claim_work] in *. rewrite H. eexists _, _, _.
    split_and!; [done|by eapply claimable_status|done|]. unfold settled_table, settled_row. by rewrite Ho.
  - cbn [wk_attempts claimed_ingress_row claim_work wk_event_id].
    destruct (wc_max_attempts k <=? wk_attempts v + 1) eqn:E;
      destruct (crash_run (tn_claim_at t) u lease (wc_worker_id k)
        (wc_max_attempts k <=? wk_attempts v + 1) v c0 error (tn_finish_at t) Hn Hv Ht) as [d H];
      try (intros x Hx; by apply Hr); rewrite E in H; cbn [wk_event_id claim_work] in *; rewrite H;
      eexists _, _, _; (split_and!; [done|by eapply claimable_status|done|]);
      exact (crash_table t v (ingress_work c0) error _ Hn Hv Ho E).
Qed.

(** ** Progress *)

Lemma sum_le {A} (f g : A -> Z) l :
  (forall x, x ∈ l -> f x <= g x) -> foldr Z.add 0 (f <$> l) <= foldr Z.add 0 (g <$> l).
Proof.
  induction l as [|x l IH]; intros H; [done|]. rewrite !fmap_cons. simpl.
  pose proof (H x ltac:(set_solver)). specialize (IH ltac:(set_solver)). lia.
Qed.

Lemma sum_lt {A} (f g : A -> Z) l x :
  (forall y, y ∈ l -> f y <= g y) -> x ∈ l -> f x < g x ->
  foldr Z.add 0 (f <$> l) < foldr Z.add 0 (g <$> l).
Proof.
  induction l as [|y l IH]; [by intros _ H%not_elem_of_nil|]. rewrite !fmap_cons. simpl.
  intros H [->|Hx]%elem_of_cons Hlt.
  - pose proof (sum_le f g l ltac:(set_solver)). lia.
  - pose proof (H y ltac:(set_solver)). specialize (IH ltac:(set_solver) Hx Hlt). lia.
Qed.

Lemma row_turns_nonneg w : 0 <= row_turns w.
Proof. unfold row_turns. case_match; lia. Qed.

Lemma turns_left_nonneg work : 0 <= turns_left work.
Proof.
  unfold turns_left. induction work as [|w l IH]; [done|]. rewrite fmap_cons. simpl.
  pose proof (row_turns_nonneg w). lia.
Qed.

(** A settled row has fewer turns left. *)
Lemma settled_row_turns start t v :
  undisturbed start t -> work_terminal (wk_status v) = false -> row_turns (settled_row t v) < row_turns v.
Proof.
  intros (_ & _ & _ & _ & Ho) Hv. unfold row_turns at 2. rewrite Hv. unfold settled_row.
  destruct Ho as [-> |[error ->]]; [unfold row_turns; simpl; lia|].
  destruct (wc_max_attempts k <=? wk_attempts v + 1) eqn:E; unfold row_turns; simpl; [lia|].
  breflect. lia.
Qed.

Lemma settled_progress start t v work :
  NoDup (wk_event_id <$> work) -> undisturbed start t -> v ∈ work ->
  work_terminal (wk_status v) = false -> turns_left (settled_table t v work) < turns_left work.
Proof.
  intros Hn Hu Hv Ht. unfold turns_left, settled_table. rewrite <- list_fmap_compose.
  apply (sum_lt _ _ _ v); [|done|].
  - intros x Hx. simpl. case_decide as Hd; [|lia].
    assert (x = v) as -> by (by eapply (NoDup_fmap_inj_on wk_event_id)).
    pose proof (settled_row_turns start t v Hu Ht). lia.
  - simpl. rewrite decide_True by done. by eapply settled_row_turns.
Qed.

Lemma settled_row_id t w : wk_event_id (settled_row t w) = wk_event_id w.
Proof. unfold settled_row. by destruct (tn_outcome t). Qed.

Lemma settled_drainable start t v work :
  drainable start work -> undisturbed start t -> drainable start (settled_table t v work).
Proof.
  intros [Hn Hr Hc Hown] (_ & _ & _ & _ & Ho). unfold settled_table. split.
  - rewrite <- list_fmap_compose. erewrite list_fmap_ext; [exact Hn|]. intros i x _. simpl.
    case_decide; [apply settled_row_id|done].
  - intros x (y & -> & Hy)%list_elem_of_fmap. destruct (Hr y Hy). case_decide; [|done].
    rewrite settled_row_id. split; [done|]. unfold settled_row. destruct (tn_outcome t); simpl; lia.
  - intros x (y & -> & Hy)%list_elem_of_fmap. case_decide; [|by apply Hc].
    unfold settled_row. destruct Ho as [-> |[error ->]]; [by left|]. simpl.
    case_match; [by left|right]. reflexivity.
  - intros x (y & -> & Hy)%list_elem_of_fmap. case_decide; [|by apply Hown].
    unfold settled_row. by destruct (tn_outcome t).
Qed.

Lemma settled_budget t v work :
  budget_spent work (settled_table t v work).
Proof.
  intros x (y & -> & Hy)%list_elem_of_fmap. case_decide; [|by left]. intros Hf. right.
  revert Hf. unfold settled_row. destruct (tn_outcome t); simpl; try done.
  case_match eqn:E; [|done]. intros _. breflect. lia.
Qed.

Lemma budget_spent_trans a b c : budget_spent a b -> budget_spent b c -> budget_spent a c.
Proof. intros H1 H2 w Hw Hf. destruct (H2 w Hw Hf) as [Hb|?]; [by apply H1|by right]. Qed.

Lemma budget_spent_refl a : budget_spent a a.
Proof. intros w Hw _. by left. Qed.

(** What a cycle of [n > 0] undisturbed turns achieves. *)
Lemma run_turns_undisturbed start n oracle m w c :
  drainable start (ingress_work c) -> (forall i, undisturbed start (oracle i)) ->
  exists r w' c', run_turns n oracle m w c = (Ok r, w', c') /\ drainable start (ingress_work c') /\
    budget_spent (ingress_work c) (ingress_work c') /\
    turns_left (ingress_work c') <= turns_left (ingress_work c) /\
    (n = 0%nat \/ all_finished (ingress_work c') \/
     turns_left (ingress_work c') < turns_left (ingress_work c)).
Proof.
  revert oracle m w c. induction n as [|n IH]; intros oracle m w c Hd Hu.
  { eexists _, _, _. split_and!; [done|done|apply budget_spent_refl|lia|by left]. }
  simpl. destruct (run_turn_undisturbed start (oracle 0%nat) w c Hd (Hu 0%nat))
    as [[Hf ->]|(v & r & w' & c' & Hv & Ht & -> & Hw)].
  { eexists _, _, _. split_and!; [done|done|apply budget_spent_refl|lia|auto]. }
  assert (drainable start (ingress_work c')) as Hd' by (rewrite Hw; by apply settled_drainable).
  destruct (IH (fun i => oracle (S i)) (m + r) w' c' Hd' (fun i => Hu (S i)))
    as (r' & w2 & c2 & H & Hd2 & Hb2 & Hl2 & _).
  pose proof (settled_progress start (oracle 0%nat) v (ingress_work c) (dr_unique _ _ Hd) (Hu 0%nat) Hv Ht) as Hlt.
  rewrite <- Hw in Hlt. exists r', w2, c2. split_and!; [done|done| |lia|right; right; lia].
  eapply budget_spent_trans; [|exact Hb2]. rewrite Hw. apply settled_budget.
Qed.

Lemma turns_left_zero work : turns_left work <= 0 -> all_finished work.
Proof.
  unfold turns_left. induction work as [|w l IH]; intros H x Hx; [by apply not_elem_of_nil in Hx|].
  rewrite fmap_cons in H. simpl in H.
  pose proof (row_turns_nonneg w). pose proof (turns_left_nonneg l) as Hl. unfold turns_left in Hl.
  apply elem_of_cons in Hx as [->|Hx].
  - assert (row_turns w = 0) as Hz by lia. revert Hz. unfold row_turns. case_match; [done|]. lia.
  - apply IH; [lia|done].
Qed.

Lemma run_cycles_undisturbed start n oracle w c :
  0 < wc_batch_size k -> drainable start (ingress_work c) ->
  (forall i j, undisturbed start (oracle i j)) ->
  let c' := (run_cycles n oracle w c).2 in
  drainable start (ingress_work c') /\ budget_spent (ingress_work c) (ingress_work c') /\
  (turns_left (ingress_work c) <= Z.of_nat n \/ all_finished (ingress_work c) -> all_finished (ingress_work c')).
Proof.
  intros Hb. revert oracle w c. induction n as [|n IH]; intros oracle w c Hd Hu.
  { simpl. split_and!; [done|apply budget_spent_refl|]. intros [H|H]; [|done]. by apply turns_left_zero. }
  simpl. unfold run_once. destruct (run_turns_undisturbed start (Z.to_nat (wc_batch_size k)) (oracle 0%nat) 0
    (set_deferred false w) c Hd (Hu 0%nat)) as (r & w1 & c1 & -> & Hd1 & Hb1 & Hl1 & Hp).
  destruct (IH (fun i => oracle (S i)) w1 c1 Hd1 (fun i => Hu (S i))) as (Hd2 & Hb2 & Hf2).
  split_and!; [done|by eapply budget_spent_trans|]. intros H. apply Hf2.
  destruct Hp as [Hp|[Hp|Hp]]; [lia|by right|]. destruct H as [H|H]; [left; lia|].
  exfalso. assert (turns_left (ingress_work c) = 0) as Hz.
  { unfold turns_left. clear -H. induction (ingress_work c) as [|x l IHl]; [done|].
    rewrite fmap_cons. simpl. rewrite IHl by set_solver. unfold row_turns. by rewrite (H x) by set_solver. }
  pose proof (turns_left_nonneg (ingress_work c1)). lia.
Qed.

Definition unfinished (work : list WorkRow) : list WorkRow :=
  filter (fun w => work_terminal (wk_status w) = false) work.

Lemma turns_left_bound work :
  1 <= wc_max_attempts k -> (forall w, w ∈ work -> 0 <= wk_attempts w) ->
  turns_left work <= wc_max_attempts k * Z.of_nat (length (unfinished work)).
Proof.
  intros Hm. unfold turns_left, unfinished. induction work as [|w l IH]; intros Ha; [simpl; lia|].
  rewrite fmap_cons, filter_cons. cbn [foldr].
  pose proof (Ha w ltac:(set_solver)). specialize (IH ltac:(set_solver)).
  unfold row_turns at 1. case_decide as E; [rewrite E; cbn [length]; nia|].
  apply not_false_iff_true in E. rewrite E. lia.
Qed.

(** C28: the worker drains its work.  If processing each event either
    succeeds or fails (in any pattern) and nobody else admits or handles ingress
    work meanwhile, then [max_attempts] cycles per unfinished row are enough:
    every row is then finished, rows left over by a crashed worker included; and
    a row is only ever given up after it was tried [max_attempts] times.
    Everything the processing itself does may happen during a turn (it reads the
    event, stages outbox rows, appends receipts and references, renews the
    lease), and so may every other operation that leaves the work table alone.
    Every unfinished row must be claimable when the worker starts, and no row be
    owned under its random identifier. *)
Theorem ingress_worker_drains start n oracle w c :
  worker_config_init k = Ok k -> drainable start (ingress_work c) ->
  (forall i j, undisturbed start (oracle i j)) ->
  wc_max_attempts k * Z.of_nat (length (unfinished (ingress_work c))) <= Z.of_nat n ->
  let c' := (run_cycles n oracle w c).2 in
  all_finished (ingress_work c') /\ budget_spent (ingress_work c) (ingress_work c').
Proof.
  intros Hk Hd Hu Hn c'. unfold worker_config_init in Hk.
  repeat (case_match; [done|]). breflect.
  destruct (run_cycles_undisturbed start n oracle w c) as (_ & Hb & Hf); [lia|done|done|].
  split; [|done]. apply Hf. left.
  pose proof (turns_left_bound (ingress_work c) ltac:(lia) (fun w Hw => proj2 (dr_rows _ _ Hd w Hw))). lia.
Qed.
End worker.

(** ** Examples *)

Module WorkerExamples.
Import ContentExamples.

Definition config : worker_config :=
  {| wc_batch_size := 2; wc_lease_us := 100; wc_max_attempts := 3; wc_worker_id := "w" |}.

Definition backlog : cdb := IngressExamples.admitted_db.

(** The delivery the processing stages. *)
Definition staged_item : DeliveryOutboxItem :=
  {| it_outbox_id := "o1"; it_event_id := "e1"; it_route_id := "r1";
     it_delivery_plan_id := "p1"; it_target_adapter := "mesh";
     it_target_channel := Some "0"; it_target_address := None; it_attempt_number := 0;
     it_active_attempt := None; it_status := Some "pending"; it_failure_kind := None;
     it_failure_kind_detail := None; it_next_attempt_at := None; it_created_at := None;
     it_updated_at := None; it_last_attempt_at := None; it_locked_at := None;
     it_lease_until := None; it_worker_id := None; it_payload_hash := None;
     it_receipt_id := None; it_parent_receipt_id := None; it_error_summary := None;
     it_dispatch_source := None; it_replay_run_id := None; it_metadata := None |}.

(** The first processing raises after a renewal; the second reads the event,
    stages a delivery, renews the lease and succeeds. *)
Definition second_try (i j : nat) : turn :=
  {| tn_stopped := false; tn_claim_at := 200;
     tn_meanwhile :=
       match (i + j)%nat with
       | O => [CRenew "e1" "w" 201 100]
       | _ => [CReadEvent "e1" OwnerIngress "e1" 202; CDelivery (OpCreate 203 staged_item false None);
               CRenew "e1" "w" 204 100]
       end;
     tn_outcome := match (i + j)%nat with O => Crashed "boom" | _ => Routed end;
     tn_finish_at := 205; tn_stopped_after := false |}.

Definition drained : cdb := (run_cycles digest loads config 3 second_try worker_start backlog).2.

(** The row is completed at the second attempt and its delivery is staged. *)
Lemma ingress_worker_drains_witness :
  all_finished (ingress_work drained) /\
  (fun w => (wk_status w, wk_attempts w)) <$> ingress_work drained = [(WCompleted, 2)] /\
  (fun r : Row => (outbox_id r, status r)) <$> outbox (core drained) = [("o1", Pending)].
Proof.
  split; [|split; vm_compute; reflexivity].
  destruct (ingress_worker_drains digest loads config 200 3 second_try worker_start backlog) as [H _].
  - reflexivity.
  - replace (ingress_work backlog) with [new_work "e1" "live" WPending 10] by (vm_compute; reflexivity).
    split; [apply NoDup_singleton|intros w ->%list_elem_of_singleton..];
      [split; [reflexivity|simpl; lia]|right; reflexivity|discriminate].
  - intros i j. split; [reflexivity|]. split; [reflexivity|]. split; [|split].
    + destruct i, j; repeat constructor.
    + simpl. lia.
    + destruct i, j; [right; eexists; reflexivity|left; reflexivity..].
  - vm_compute. discriminate.
  - exact H.
Defined.

End WorkerExamples.
