(* ===== verification/RetentionSafety.v ===== *)
(** * Safety of content retention

    What the guarded collector removes and when, that a collection is final,
    that an activation epoch protects everything admitted before it, that a
    stored event can always be assessed, and that paging visits every
    candidate once. *)

From S2P Require Import Prelude.
From S2P Require Import Json.
From S2P Require Import DeliveryState.
From S2P Require Import Delivery.
From S2P Require Import Store.
From S2P Require Import Events.
From S2P Require Import ContentStore.
From S2P Require Import Ingress.
From S2P Require Import IngressProofs.
From S2P Require Import ContentGrants.
From S2P Require Import Retention.
From S2P Require Import ContentSteps.
From S2P Require Import ContentSafety.

Open Scope string_scope.
Open Scope list_scope.
Open Scope Z_scope.

Section retention.
Context (sha256 : string -> string).

(** ** What the collector finds *)

Lemma in_events_identity {strict} c id :
  content_inv (strict := strict) sha256 c -> in_events c id -> exists present, od_get id (body_identity c) = Some present.
Proof.
  intros Hok Hin. destruct (od_get id (body_identity c)) eqn:E; [eauto|].
  apply od_get_None in E. by rewrite (ok_identity _ _ Hok) in E.
Qed.

(** The event still carries text beside a "body" that is not text. *)
Definition malformed_body (c : cdb) (id : string) : bool :=
  match od_get id (body_identity c) with
  | Some false => nonempty (bodies_of_event c id)
  | _ => false
  end.

Lemma malformed_opaque {strict} c id :
  content_inv (strict := strict) sha256 c -> malformed_body c id = true -> opaque_envelope c id = true.
Proof.
  intros Hok. unfold malformed_body. destruct (od_get id (body_identity c)) as [[]|] eqn:E; try done.
  intros Hn. destruct (ok_presence _ _ Hok id false E) as (_ & H & _).
  destruct H as (w & Hw & Hid & Hp); [done|by destruct (bodies_of_event c id)|].
  apply existsb_exists. exists w. rewrite <- list_elem_of_In. split; [done|].
  rewrite bool_decide_eq_true_2 by done. by destruct (ew_payload w).
Qed.

(** The collector's assessment of a stored event. *)
Lemma read_collection_state_ok elsewhere c id :
  content_ok sha256 c -> event_exists c id = true -> malformed_body c id = false ->
  read_collection_state elsewhere c id =
    Ok (if bool_decide (collected_before c id <> None) then AlreadyCollected
        else if nonempty (release_blockers elsewhere c id) then Blocked
        else if candidate_rows c id =? 0 then NothingToCollect else Eligible,
        release_blockers elsewhere c id, candidate_rows c id, candidate_bytes c id).
Proof.
  intros Hok Hid Hm. unfold read_collection_state. rewrite Hid. cbn [negb].
  destruct (in_events_identity c id Hok (proj1 (event_exists_true _ _) Hid)) as (present & Hp).
  destruct (ok_presence _ _ Hok id present Hp) as (H1 & H2 & H3). unfold malformed_body in Hm.
  rewrite Hp in *. cbv zeta.
  replace (bool_decide (collected_before c id <> None) && negb (candidate_rows c id =? 0)) with false.
  2:{ destruct (bool_decide _) eqn:E; [|done]. apply bool_decide_eq_true in E.
      unfold candidate_rows. destruct (H3 E) as [-> He]. by rewrite He. }
  replace (bool_decide (collected_before c id = None) && negb present && nonempty (bodies_of_event c id))
    with false.
  2:{ symmetry. apply andb_false_iff. destruct present; [left; apply andb_false_r|right; done]. }
  replace (bool_decide (collected_before c id = None) && present && negb (nonempty (bodies_of_event c id)))
    with false; [done|].
  symmetry. destruct (bool_decide (collected_before c id = None)) eqn:E; [|done].
  apply bool_decide_eq_true in E. destruct present; [|done].
  destruct (H1 eq_refl) as [H|H]; [by destruct (bodies_of_event c id)|done].
Qed.

(** ** Collection *)

(** The text of one event and nothing else: every table but the bodies, the
    excerpts and the collection log is as it was, and these two lose exactly the
    event's rows. *)
Record only_text_removed (id : string) (c c' : cdb) : Prop := {
  tr_core : core c' = core c;
  tr_events : event_rows c' = event_rows c;
  tr_routing : routing_facts c' = routing_facts c;
  tr_identity : body_identity c' = body_identity c;
  tr_relations : relation_rows c' = relation_rows c;
  tr_work : ingress_work c' = ingress_work c;
  tr_checkpoints : checkpoints c' = checkpoints c;
  tr_grants : grants c' = grants c;
  tr_policies : policy_terms c' = policy_terms c;
  tr_blobs : blobs c' = blobs c /\ associations c' = associations c;
  tr_epochs : retention_epochs c' = retention_epochs c;
  tr_bodies : bodies_of_event c' id = [] /\ excerpts_of_event c' id = [];
  tr_body_rows : forall b, b ∈ body_content c' <-> b ∈ body_content c /\ bd_event_id b <> id;
  tr_excerpt_rows : forall x, x ∈ relation_excerpts c' <->
    x ∈ relation_excerpts c /\ x ∉ excerpts_of_event c id;
  tr_other_bodies : forall i, i <> id -> bodies_of_event c' i = bodies_of_event c i;
  tr_other_excerpts : forall i, i <> id -> excerpts_of_event c' i = excerpts_of_event c i
}.

Lemma excerpts_collected_ne {strict} c id i record :
  content_inv (strict := strict) sha256 c -> i <> id -> excerpts_of_event (collected id record c) i = excerpts_of_event c i.
Proof.
  intros Hok Hne. unfold excerpts_of_event. simpl. rewrite list_filter_filter. apply list_filter_iff.
  intros x. rewrite negb_true_iff, <- not_true_iff_false, !existsb_exists.
  setoid_rewrite andb_true_iff. setoid_rewrite bool_decide_eq_true.
  split; [tauto|]. intros (w & Hw & Hk & He). split; [by exists w|].
  intros (v & Hv & Hvk & Hve). rewrite <- list_elem_of_In in Hw, Hv.
  apply Hne. rewrite <- He, <- Hve. f_equal.
  apply (NoDup_fmap_inj_on rw_id (relation_rows c)); [|done..|congruence].
  rewrite (ok_relation_ids _ _ Hok). apply NoDup_seqZ.
Qed.

Lemma collected_only_text {strict} c id record :
  content_inv (strict := strict) sha256 c -> only_text_removed id c (collected id record c).
Proof.
  intros Hok. split; try done.
  - split; [apply bodies_collected|apply excerpts_collected; auto].
  - intros b. simpl. rewrite list_elem_of_filter. tauto.
  - intros x. unfold excerpts_of_event. simpl. rewrite !list_elem_of_filter, negb_true_iff.
    rewrite <- not_true_iff_false. tauto.
  - intros i Hi. by apply bodies_collected_ne.
  - intros i Hi. by apply (excerpts_collected_ne (strict := strict)).
Qed.

(** Nothing may need the text any more. *)
Record settled (c : cdb) (id : string) : Prop := {
  se_owners : forall p, p ∈ dependencies (core c) -> dp_event_id p = id -> dp_released_at p <> None;
  se_outbox : forall r : Row, r ∈ outbox (core c) -> event_id r = id ->
    status r ∈ [Sent; Cancelled; DeadLettered; Abandoned];
  se_work : forall w, w ∈ ingress_work c -> wk_event_id w = id -> wk_status w ∈ [WCompleted; WFailed];
  se_grants : forall g, g ∈ grants c -> gr_event_id g = id -> grant_open g = false
}.

Lemma existsb_false_elem {A} (f : A -> bool) l : existsb f l = false -> forall x, x ∈ l -> f x = false.
Proof.
  intros H x Hx. destruct (f x) eqn:E; [|done]. apply not_true_iff_false in H. destruct H.
  apply existsb_exists. exists x. by rewrite <- list_elem_of_In.
Qed.

Lemma no_blockers_are_settled elsewhere c id : release_blockers elsewhere c id = [] -> settled c id.
Proof.
  intros (Hi & Ho & Hu & _ & Hg & _)%no_blockers_settled. split.
  - intros p Hp He Hr. apply (existsb_false_elem _ _ Hu) in Hp. by rewrite !bool_decide_eq_true_2 in Hp.
  - intros r Hr He. apply (existsb_false_elem _ _ Ho) in Hr. rewrite bool_decide_eq_true_2 in Hr by done.
    simpl in Hr. by apply negb_false_iff, elem_true in Hr.
  - intros w Hw He. apply (existsb_false_elem _ _ Hi) in Hw. rewrite bool_decide_eq_true_2 in Hw by done.
    simpl in Hw. by apply negb_false_iff, elem_true in Hw.
  - intros g Hin He. apply (existsb_false_elem _ _ Hg) in Hin.
    by rewrite bool_decide_eq_true_2 in Hin.
Qed.

Lemma no_blockers_elsewhere elsewhere c id : release_blockers elsewhere c id = [] ->
  elsewhere id = {| el_radio_plans := false; el_operator_decisions := false;
                    el_observation_content := false |}.
Proof.
  intros H%raised_flags_nil. rewrite !Forall_cons in H. simpl in H.
  destruct (elsewhere id); simpl in *. f_equal; tauto.
Qed.

(** C29: the collector deletes text only when nothing needs it.  In every
    database the store's invariant holds of, a call that does not report a
    collection changes nothing at all; one that does was no dry run, found every
    mandatory owner of the event released, its outbox rows and ingress work
    terminal and no grant on it open, met no radio plan, operator decision or
    observation that keeps the text, is the first collection of the event,
    removes exactly that event's body rows and excerpts, and appends one record;
    every other row of these two tables, every earlier record and every other
    table stay as they were. *)
Theorem collection_guarded {strict} elsewhere id dry_run epoch now c r c' :
  content_inv (strict := strict) sha256 c ->
  collect_event_content elsewhere id dry_run epoch now c = (r, c') ->
  (c' = c /\ forall x, r = Ok x -> co_status x <> SCollected) \/
  (dry_run = false /\ settled c id /\
   elsewhere id = {| el_radio_plans := false; el_operator_decisions := false;
                     el_observation_content := false |} /\
   collected_before c id = None /\ only_text_removed id c c' /\
   exists record, cl_event_id record = id /\ collection_log c' = collection_log c ++ [record] /\
     r = Ok (collection_result SCollected [] (cl_rows_removed record) (cl_bytes_removed record))).
Proof.
  intros Hok H. apply collect_eligible in H as
    [?|(rec & <- & -> & _ & Hb & Hn & Hd & _ & ->)]; [by left|right].
  split_and!; try done.
  - by eapply no_blockers_are_settled.
  - by apply no_blockers_elsewhere in Hb.
  - by apply (collected_only_text (strict := strict)).
  - by exists rec.
Qed.

Context (json_loads : string -> option json).

(** A collection is final: after it, whatever operations follow, the
    event's text never comes back and collecting it again reports
    [already_collected] and changes nothing. *)
Theorem collection_final elsewhere id dry_run epoch now c x c1 ops :
  content_ok sha256 c ->
  collect_event_content elsewhere id dry_run epoch now c = (Ok x, c1) -> co_status x = SCollected ->
  let c2 := cexec sha256 json_loads ops c1 in
  bodies_of_event c2 id = [] /\ excerpts_of_event c2 id = [] /\
  forall elsewhere' dry_run' now', exists x',
    collect_event_content elsewhere' id dry_run' None now' c2 = (Ok x', c2) /\ co_status x' = SAlready.
Proof.
  intros Hok H Hx c2.
  assert (event_exists c id = true /\ truthy id = true /\ exists rec, cl_event_id rec = id /\ c1 = collected id rec c)
    as (Hid & Ht & rec & Hrid & Hc1).
  { split_and!.
    - by apply collect_eligible in H as [[_ []%(fun H => H x)]|(rec & _ & _ & He & _)].
    - revert H. unfold collect_event_content. case_match; [done|]. by destruct (truthy id).
    - apply collect_eligible in H as [[_ []%(fun H => H x)]|(rec & Hr & _ & _ & _ & _ & _ & _ & ->)];
        [done..|by exists rec]. }
  pose proof (collect_steps sha256 elsewhere id dry_run epoch now c) as Hs. rewrite H in Hs. simpl in Hs.
  assert (content_ok sha256 c1) as Hok1 by (by eapply content_steps_ok).
  pose proof (cexec_ok sha256 json_loads ops c1 Hok1) as Hok2. fold c2 in Hok2.
  pose proof (cexec_evolves sha256 json_loads ops c1 Hok1) as Hev. fold c2 in Hev.
  assert (in_events c2 id) as Hin2.
  { apply event_exists_true in Hid. destruct (ce_events _ _ Hev) as [k Hk].
    unfold in_events in *. rewrite Hk, Hc1. simpl. set_solver. }
  assert (collected_before c2 id <> None) as Hl.
  { rewrite collected_before_None. destruct (ce_collected _ _ Hev) as [k ->].
    rewrite Hc1, <- Hrid. simpl. rewrite !fmap_app. set_solver. }
  destruct (in_events_identity c2 id Hok2 Hin2) as (present & Hp).
  destruct (ok_presence _ _ Hok2 id present Hp) as (_ & _ & Hgone). destruct (Hgone Hl) as [Hb He].
  specialize (He eq_refl). split_and!; [done..|]. intros elsewhere' dry_run' now'. unfold collect_event_content.
  rewrite Ht. cbn [negb]. rewrite read_collection_state_ok; [|done|by apply event_exists_true|].
  - rewrite bool_decide_eq_true_2 by done. eauto.
  - unfold malformed_body. rewrite Hp, Hb. by destruct present.
Qed.

Lemma max_admission_ge c (w : EventRow) :
  w ∈ event_rows c -> exists m, max_admission c = Some m /\ ew_created_at w <= m.
Proof.
  intros Hw. unfold max_admission. apply (list_elem_of_fmap_2 ew_created_at) in Hw. revert Hw.
  generalize (ew_created_at w). destruct (ew_created_at <$> event_rows c) as [|t ts];
    [intros x []%not_elem_of_nil|]. intros x Hx. exists (foldr Z.max t ts). split; [done|]. revert x Hx.
  induction ts as [|u ts IH]; intros x Hx; simpl; [apply list_elem_of_singleton in Hx; lia|].
  apply elem_of_cons in Hx as [->|[->|Hx]%elem_of_cons]; [|lia|].
  - pose proof (IH t ltac:(set_solver)). lia.
  - pose proof (IH x ltac:(set_solver)). lia.
Qed.

Lemma find_event_kept c c' (w : EventRow) :
  content_ok sha256 c' -> content_evolves c c' -> w ∈ event_rows c ->
  find_event c' (ev_event_id w) = Some w.
Proof.
  intros Hok Hev Hw. assert (w ∈ event_rows c') as Hw'.
  { destruct (ce_event_rows _ _ Hev) as [k ->]. set_solver. }
  unfold find_event. destruct (List.find _ (event_rows c')) as [v|] eqn:E.
  - apply find_Some_elem in E as [Hv He]. apply bool_decide_eq_true in He. f_equal.
    apply (NoDup_fmap_inj_on (fun w : EventRow => ev_event_id w) (event_rows c')); try done.
    rewrite (ok_events _ _ Hok). apply (ok_unique _ _ Hok).
  - apply (proj1 (find_None_elem _ _) E) in Hw'. by rewrite bool_decide_eq_true_2 in Hw'.
Qed.

(** The runtime never collects what was there when its retention epoch
    was opened: an event stored when an epoch opens is refused by every later
    collection that acts for an epoch, that one or any later one, whatever
    operations happen in between. *)
Theorem epoch_protects_history by_ now c e c1 ops (w : EventRow) elsewhere dry_run n now' :
  content_ok sha256 c -> open_retention_epoch by_ now c = (Ok e, c1) -> w ∈ event_rows c ->
  let c2 := cexec sha256 json_loads ops c1 in
  exists x, collect_event_content elsewhere (ev_event_id w) dry_run (Some n) now' c2 = (Raise x, c2).
Proof.
  intros Hok Ho Hw c2.
  pose proof (open_epoch_steps sha256 by_ now c) as Hs. rewrite Ho in Hs. simpl in Hs.
  assert (content_ok sha256 c1) as Hok1 by (by eapply content_steps_ok).
  pose proof (cexec_ok sha256 json_loads ops c1 Hok1) as Hok2. fold c2 in Hok2.
  pose proof (cexec_evolves sha256 json_loads ops c1 Hok1) as Hev. fold c2 in Hev.
  assert (exists t, boundary c1 = Some t /\ ew_created_at w <= t) as (t & Ht & Hle).
  { unfold open_retention_epoch in Ho. case_match; [done|]. injection Ho as <- <-.
    unfold boundary, latest_retention_epoch. simpl. rewrite last_snoc. simpl.
    destruct (max_admission_ge c w Hw) as (m & Hm & Hmle).
    destruct (next_watermark_ge (max_admission c) (last (retention_epochs c) ≫= ep_watermark)) as [_ Hnw].
    destruct (Hnw m Hm) as (t & Ht & ?). exists t. split; [exact Ht|lia]. }
  destruct (ce_boundary _ _ Hev t Ht) as (t2 & Ht2 & Hle2).
  assert (epoch_authorizes c2 (ev_event_id w) n = false) as Hauth.
  { unfold epoch_authorizes. unfold boundary in Ht2.
    destruct (latest_retention_epoch c2) as [e2|]; [|done]. simpl in Ht2. rewrite Ht2.
    rewrite (find_event_kept c1 c2 w Hok2 Hev).
    - apply andb_false_iff. right. apply Z.ltb_ge. lia.
    - unfold open_retention_epoch in Ho. case_match; [done|]. by injection Ho as _ <-. }
  unfold collect_event_content. case_match; [eauto|]. case_match; [eauto|]. rewrite Hauth. simpl. eauto.
Qed.
End retention.

(** ** Examples *)

Module RetentionExamples.
Import ContentExamples.

(** A message without metadata, whose payload is given. *)
Definition note (id : string) (payload : list (string * json)) : CanonicalEvent :=
  {| ev_columns :=
       {| ev_event_id := id; ev_event_kind := MESSAGE_CREATED; ev_schema_version := 1;
          ev_timestamp := 5; ev_source_adapter := "mesh"; ev_source_transport_id := "node-1";
          ev_source_channel_id := Some "0"; ev_parent_event_id := None; ev_lineage := [];
          ev_depth := 0; ev_trace_id := None; ev_root_event_id := None;
          ev_conversation_id := None |};
     ev_relations := []; ev_payload := payload;
     ev_metadata := {| em_transport := None; em_routing := None; em_radio := None;
                       em_telemetry := None; em_native := None; em_custom := [] |};
     ev_source_native_ref := None |}.

Definition admit_note (id : string) (payload : list (string * json)) : admission :=
  {| ad_event := note id payload; ad_native := None; ad_provenance := "live";
     ad_suppress_routing := false; ad_attachment := None; ad_limits := None; ad_deadline := None |}.

(** Admitted, routed and completed at the given time. *)
Definition handled (id : string) (payload : list (string * json)) (now : instant) : list content_op :=
  [CAdmit (admit_note id payload) now; CClaim (now + 1) "worker-1" 5 100;
   CComplete id "worker-1" (now + 2)].

Definition hello : list (string * json) := [("body", JStr "hello")].

Definition nothing_elsewhere (_ : string) : elsewhere_probe :=
  {| el_radio_plans := false; el_operator_decisions := false; el_observation_content := false |}.

Definition note_db : cdb := cexec digest loads (handled "e1" hello 10) empty_cdb.

Lemma note_db_ok : content_ok digest note_db.
Proof. apply cexec_ok, empty_content_ok. Qed.

Definition collected_db : cdb := (collect_event_content nothing_elsewhere "e1" false None 50 note_db).2.

(** The completed message is collected: five bytes of text in one row. *)
Definition hello_result : CollectionResult := collection_result SCollected [] 1 5.

Lemma collection_guarded_witness :
  settled note_db "e1" /\ collected_before note_db "e1" = None /\
  only_text_removed "e1" note_db collected_db.
Proof.
  destruct (collection_guarded (strict := true) digest nothing_elsewhere "e1" false None 50 note_db (Ok hello_result)
    collected_db) as [[_ H]|(_ & H1 & _ & H2 & H3 & _)].
  - exact note_db_ok.
  - vm_compute. reflexivity.
  - exfalso. exact (H hello_result eq_refl eq_refl).
  - split; [exact H1|split; [exact H2|exact H3]].
Defined.

(** While the work is pending the ingress owner blocks it. *)
Example pending_blocked :
  (collect_event_content nothing_elsewhere "e1" false None 50
     (cexec digest loads [CAdmit (admit_note "e1" hello) 10] empty_cdb)).1 =
  Ok (collection_result SBlocked ["active_ingress"; "unsettled_mandatory_owners"] 1 5).
Proof. vm_compute. reflexivity. Qed.

Lemma collection_final_witness :
  bodies_of_event (cexec digest loads (handled "e2" hello 60) collected_db) "e1" = [].
Proof.
  destruct (collection_final digest loads nothing_elsewhere "e1" false None 50 note_db hello_result
    collected_db (handled "e2" hello 60)) as [H _].
  - exact note_db_ok.
  - vm_compute. reflexivity.
  - reflexivity.
  - exact H.
Defined.

Definition first_epoch : RetentionEpoch :=
  {| ep_epoch := 1; ep_activated_at := 50; ep_watermark := Some 10; ep_last_observed := None;
     ep_activated_by := "operator" |}.

Definition epoch_db : cdb := (open_retention_epoch "operator" 50 note_db).2.

Lemma epoch_protects_history_witness :
  exists x, collect_event_content nothing_elsewhere "e1" false (Some 1) 90
    (cexec digest loads (handled "e2" hello 60) epoch_db) =
    (Raise x, cexec digest loads (handled "e2" hello 60) epoch_db).
Proof.
  apply (epoch_protects_history digest loads "operator" 50 note_db first_epoch epoch_db
    (handled "e2" hello 60) (event_row (note "e1" hello) 10) nothing_elsewhere false 1 90).
  - exact note_db_ok.
  - vm_compute. reflexivity.
  - replace (event_rows note_db) with [event_row (note "e1" hello) 10] by (vm_compute; reflexivity).
    by apply list_elem_of_singleton.
Defined.

(** The event admitted after the epoch is collected under it. *)
Example later_collected :
  (collect_event_content nothing_elsewhere "e2" false (Some 1) 90
     (cexec digest loads (handled "e2" hello 60) epoch_db)).1 = Ok hello_result.
Proof. vm_compute. reflexivity. Qed.

(** *** A text beside a "body" that is not text *)

Definition odd : list (string * json) := [("body", JNull); ("text", JStr "hello")].

(** The admission records that there is no body and stores the text as a
    body row, which the collector refuses as corrupt. *)
Example malformed_refused :
  let c := cexec digest loads (handled "e1" odd 10) empty_cdb in
  od_get "e1" (body_identity c) = Some false /\ malformed_body c "e1" = true /\
  (collect_event_content nothing_elsewhere "e1" false None 50 c).1 =
  Raise (StorageError "Body row exists but admission recorded no body").
Proof. vm_compute. done. Qed.

(** *** A relation stored after its event was collected *)

Definition reply_to : EventRelation :=
  {| rl_type := "reply"; rl_target_event := Some "e0"; rl_target_native := None; rl_key := None;
     rl_fallback_text := Some "earlier"; rl_metadata := [] |}.

(** [store_relation] brings text back to a collected event, which every later
    assessment refuses. *)
Example relation_recreates_text :
  match store_relation_ops "e1" reply_to 70 collected_db with
  | Ok (_, c) =>
      (collect_event_content nothing_elsewhere "e1" false None 80 c).1 =
      Raise (StorageError "Collected content was unexpectedly recreated")
  | Raise _ => False
  end.
Proof. vm_compute. reflexivity. Qed.

End RetentionExamples.
