(* ===== verification/RetentionPaging.v ===== *)
(** * Paging over collection candidates

    [sync_page_collection_candidates]: each page continues exactly where the
    previous one ended, so following the cursor visits every candidate once, in
    admission order. *)

From S2P Require Import Prelude.
From S2P Require Import Delivery.
From S2P Require Import Store.
From S2P Require Import Receipts.
From S2P Require Import Events.
From S2P Require Import ContentStore.
From S2P Require Import Retention.
From S2P Require Import ContentSteps.

Open Scope string_scope.
Open Scope list_scope.
Open Scope Z_scope.

(** ** Sorting and filtering *)

Section sorting.
Context {A K : Type} (key : A -> K) (leb : K -> K -> bool) `{!TotalLe leb, !AntisymLe leb}.

Lemma sorted_by_filter (P : A -> Prop) `{!forall x, Decision (P x)} (l : list A) :
  (forall a b, a ∈ l -> b ∈ l -> key a = key b -> a = b) ->
  sorted_by (on_key key leb) (filter P l) = filter P (sorted_by (on_key key leb) l).
Proof.
  intros Hinj. apply (sorted_perm_unique (on_key key leb)).
  - intros a b. rewrite !elem_of_sorted_by, !list_elem_of_filter. unfold on_key.
    intros [_ Ha] [_ Hb] H1 H2. apply Hinj; [done..|]. by apply leb_antisym_eq.
  - apply sorted_by_sorted, _.
  - apply StronglySorted_filter, sorted_by_sorted, _.
  - rewrite sorted_by_perm. by rewrite (sorted_by_perm _ l).
Qed.

(** In a sorted list with distinct keys, what exceeds the [n]-th key is what
    follows it. *)
Lemma filter_above_drop (l : list A) n x :
  StronglySorted (fun a b => on_key key leb a b = true) l -> NoDup (key <$> l) -> l !! n = Some x ->
  filter (fun a => negb (leb (key a) (key x)) = true) l = drop (S n) l.
Proof.
  intros Hs Hn. revert n. induction Hs as [|y l Hs IH Hy]; intros n Hx; [done|].
  apply NoDup_cons in Hn as [Hny Hn]. rewrite Forall_forall in Hy. destruct n as [|n]; simpl in Hx.
  - injection Hx as ->. rewrite filter_cons_False.
    + simpl. apply filter_id. intros z Hz. apply negb_true_iff, not_true_iff_false. intros Hle.
      apply Hny. rewrite (leb_antisym_eq (key x) (key z)); [by apply list_elem_of_fmap_2| |done].
      by apply Hy.
    + destruct (leb_total_or (key x) (key x)) as [->| ->]; done.
  - rewrite filter_cons_False; [by apply IH|].
    apply list_elem_of_lookup_2 in Hx. apply Hy in Hx. unfold on_key in Hx. by rewrite Hx.
Qed.
End sorting.

(** ** Candidates *)

Section paging.
Context (c : cdb) (unique_ids : NoDup ((fun w : EventRow => ev_event_id w) <$> event_rows c)).

#[local] Instance key_leb_total : TotalLe key_leb.
Proof. unfold key_leb. apply _. Qed.
#[local] Instance key_leb_antisym : AntisymLe key_leb.
Proof. unfold key_leb. apply _. Qed.

Lemma admission_key_inj (a b : EventRow) :
  a ∈ event_rows c -> b ∈ event_rows c -> admission_key a = admission_key b -> a = b.
Proof.
  intros Ha Hb [= _ He]. by apply (NoDup_fmap_inj_on (fun w : EventRow => ev_event_id w) (event_rows c)).
Qed.

Lemma key_leb_fst k k' : key_leb k k' = true -> k.1 <= k'.1.
Proof. unfold key_leb, lex_leb. intros [H _]%andb_true_iff. by apply Z.leb_le. Qed.

Lemma key_ltb_trans k1 k2 k3 : key_ltb k1 k2 = true -> key_leb k2 k3 = true -> key_ltb k1 k3 = true.
Proof.
  unfold key_ltb. rewrite !negb_true_iff, <- !not_true_iff_false. intros H1 H2 H3. apply H1.
  by eapply leb_trans_le.
Qed.

Lemma key_ltb_le k1 k2 : key_ltb k1 k2 = true -> key_leb k1 k2 = true.
Proof. unfold key_ltb. intros H%negb_true_iff. destruct (leb_total_or (leb:=key_leb) k1 k2); congruence. Qed.

(** The clause is upward closed, and its rows lie after the boundary and the
    cursor. *)
Lemma candidate_where_up after wm (w w' : EventRow) :
  candidate_where after wm w = true -> key_leb (admission_key w) (admission_key w') = true ->
  candidate_where after wm w' = true.
Proof.
  intros Hw Hle. pose proof (key_leb_fst _ _ Hle) as Hf. simpl in Hf. unfold candidate_where in *.
  destruct after as [k|], wm as [t|]; try (case_match); breflect; eauto using key_ltb_trans; lia.
Qed.

Lemma candidate_where_scope after wm (w : EventRow) :
  candidate_where after wm w = true ->
  match wm with None => True | Some t => t < ew_created_at w end /\
  match after with None => True | Some k => key_leb (admission_key w) k = false end.
Proof.
  unfold candidate_where. destruct after as [k|], wm as [t|]; try done.
  - case_match eqn:E.
    + intros H. pose proof (key_leb_fst _ _ (key_ltb_le _ _ H)) as Hf. simpl in Hf. breflect.
      split; [lia|]. by apply negb_true_iff in H.
    + intros H. breflect. split; [lia|]. apply not_true_iff_false. intros Hle%key_leb_fst. simpl in Hle. lia.
  - intros H. split; [done|]. by apply negb_true_iff in H.
  - intros H. breflect. split; [lia|done].
Qed.

(** After a candidate, the clause keeps what follows it. *)
Lemma candidate_where_next after wm (v w : EventRow) :
  candidate_where after wm v = true ->
  (candidate_where (Some (admission_key v)) wm w = true <->
   key_ltb (admission_key v) (admission_key w) = true /\ candidate_where after wm w = true).
Proof.
  intros Hv. assert (candidate_where (Some (admission_key v)) wm w = key_ltb (admission_key v) (admission_key w))
    as ->.
  { unfold candidate_where. destruct wm as [t|]; [|done]. destruct (candidate_where_scope _ _ _ Hv) as [Ht _].
    simpl. rewrite (proj2 (Z.ltb_lt _ _) Ht). done. }
  split; [|tauto]. intros H. split; [done|]. eapply candidate_where_up; [exact Hv|by apply key_ltb_le].
Qed.

Lemma candidate_sorted_elem after wm (w : EventRow) :
  w ∈ candidate_rows_after c after wm <-> w ∈ event_rows c /\ candidate_where after wm w = true.
Proof. unfold candidate_rows_after. rewrite elem_of_sorted_by, list_elem_of_filter. tauto. Qed.

Lemma candidate_keys_NoDup after wm : NoDup (admission_key <$> candidate_rows_after c after wm).
Proof.
  unfold candidate_rows_after. rewrite sorted_by_perm. apply (NoDup_fmap_1 snd).
  rewrite <- list_fmap_compose. by apply (NoDup_fmap_filter (fun w : EventRow => ev_event_id w)).
Qed.

(** The rows after the [n]-th candidate are the ones that follow it. *)
Lemma candidate_rows_continue after wm n (v : EventRow) :
  candidate_rows_after c after wm !! n = Some v ->
  candidate_rows_after c (Some (admission_key v)) wm = drop (S n) (candidate_rows_after c after wm).
Proof.
  intros Hv. assert (candidate_where after wm v = true) as Hw
    by (apply list_elem_of_lookup_2, candidate_sorted_elem in Hv; tauto).
  rewrite <- (filter_above_drop admission_key key_leb _ n v);
    [|apply sorted_by_sorted, _|apply candidate_keys_NoDup|done].
  unfold candidate_rows_after at 2. rewrite <- (sorted_by_filter admission_key key_leb).
  - rewrite list_filter_filter. unfold candidate_rows_after. f_equal. apply list_filter_iff.
    intros w. by rewrite (candidate_where_next after wm v w Hw).
  - intros a b [_ Ha]%list_elem_of_filter [_ Hb]%list_elem_of_filter. by apply admission_key_inj.
Qed.

(** A page never fails to advance, holds the first [limit] remaining
    candidates, and the next one starts after them. *)
Lemma page_candidates_Ok after limit wm :
  1 <= limit <= 100 -> match after with Some k => truthy k.2 = true | None => True end ->
  let rows := candidate_rows_after c after wm in
  page_collection_candidates c after limit wm =
    Ok {| cp_event_ids := (fun w : EventRow => ev_event_id w) <$> take (Z.to_nat limit) rows;
          cp_next_after := admission_key <$> last (take (Z.to_nat limit) rows);
          cp_has_more := limit <? Z.of_nat (length rows) |}.
Proof.
  intros Hl Ha rows. unfold page_collection_candidates, RETENTION_BATCH_MIN, RETENTION_BATCH_MAX.
  rewrite (proj2 (Z.ltb_ge limit 1)), (proj2 (Z.ltb_ge 100 limit)) by lia. cbn [orb].
  replace (match after with Some k => negb (truthy k.2) | None => false end) with false
    by (destruct after; [by rewrite Ha|done]). fold rows. cbv zeta.
  assert (match after, head (take (Z.to_nat (limit + 1)) rows) with
          | Some k, Some w => key_leb (admission_key w) k | _, _ => false end = false) as ->.
  { destruct after as [k|]; [|done]. destruct (head _) as [w|] eqn:E; [|done].
    assert (w ∈ rows) as Hw.
    { eapply elem_of_sublist; [|apply (sublist_take rows (Z.to_nat (limit + 1)))].
      destruct (take _ rows); [done|]. injection E as ->. set_solver. }
    apply candidate_sorted_elem in Hw as [_ Hw]. apply (candidate_where_scope _ _ _ Hw). }
  rewrite take_take, length_take. replace (Z.to_nat limit `min` Z.to_nat (limit + 1))%nat with (Z.to_nat limit) by lia.
  do 2 f_equal. destruct (decide (limit < Z.of_nat (length rows))).
  - rewrite !(proj2 (Z.ltb_lt _ _)) by lia. done.
  - rewrite !(proj2 (Z.ltb_ge _ _)) by lia. done.
Qed.

Lemma page_next after limit wm :
  1 <= limit ->
  let rows := candidate_rows_after c after wm in
  limit < Z.of_nat (length rows) ->
  exists v, last (take (Z.to_nat limit) rows) = Some v /\ v ∈ event_rows c /\
    candidate_rows_after c (Some (admission_key v)) wm = drop (Z.to_nat limit) rows.
Proof.
  intros Hl rows Hlt. rewrite last_lookup, length_take.
  replace (Nat.pred (Z.to_nat limit `min` length rows)) with (Z.to_nat limit - 1)%nat by lia.
  rewrite lookup_take_lt by lia.
  destruct (rows !! (Z.to_nat limit - 1)%nat) as [v|] eqn:E; [|apply lookup_ge_None in E; lia].
  exists v. split_and!; [done| |].
  - apply list_elem_of_lookup_2 in E. apply candidate_sorted_elem in E. tauto.
  - rewrite (candidate_rows_continue after wm _ v E). f_equal. lia.
Qed.
End paging.
