(* ===== verification/CollectionWorker.v ===== *)
(** * The content collection worker

    [src/src/medre/runtime/collection.py]: one bounded sweep (activation gate,
    heartbeat, page, guarded collection of each candidate, bookkeeping), the
    transient backoff and one iteration of the loop around it, with the policy
    and freshness rules of [core/storage/content_retention.py].

    Every storage call is one atomic operation on the content database; what
    the rest of the program does to the database just before a call, whether
    SQLite is busy then, the clock and the shutdown flag are the surroundings
    of a sweep.  The asyncio task, its two-stage stop and the log are not
    modelled. *)

From S2P Require Import Prelude.
From S2P Require Import Json.
From S2P Require Import Delivery.
From S2P Require Import Store.
From S2P Require Import Attachments.
From S2P Require Import Events.
From S2P Require Import ContentStore.
From S2P Require Import Ingress.
From S2P Require Import IngressProofs.
From S2P Require Import ContentGrants.
From S2P Require Import Retention.
From S2P Require Import ContentSteps.
From S2P Require Import ContentSafety.
From S2P Require Import RetentionSafety.
From S2P Require Import RetentionPaging.

Open Scope string_scope.
Open Scope list_scope.
Open Scope Z_scope.

(** ** Policy *)

Definition RETENTION_POLICY_MODES : list string := ["retain"; "relay-only"].
Definition RETENTION_INTERVAL_MIN : Z := 1.
Definition RETENTION_INTERVAL_MAX : Z := 86400.

Record ContentRetentionPolicy : Set := {
  rp_version : Z;
  rp_mode : string;
  rp_interval_seconds : Z;
  rp_batch_limit : Z
}.

Definition ContentRetentionPolicy_post_init (p : ContentRetentionPolicy)
    : result exc ContentRetentionPolicy :=
  if negb (rp_version p =? 1) then Raise (ValueError "version must be the integer 1")
  else if negb (elem (rp_mode p) RETENTION_POLICY_MODES) then Raise (ValueError "mode")
  else if (rp_interval_seconds p <? RETENTION_INTERVAL_MIN) ||
          (RETENTION_INTERVAL_MAX <? rp_interval_seconds p)
  then Raise (ValueError "interval_seconds")
  else if (rp_batch_limit p <? RETENTION_BATCH_MIN) || (RETENTION_BATCH_MAX <? rp_batch_limit p)
  then Raise (ValueError "batch_limit")
  else Ok p.

Definition retained (p : ContentRetentionPolicy) : bool := bool_decide (rp_mode p = "retain").

Definition SECOND : Z := 1000000.

Definition retention_epoch_grace_seconds (interval : Z) : Z := Z.max 3600 (10 * interval).

(** In microseconds; [None] for an observation from the future. *)
Definition retention_epoch_observation_age (e : RetentionEpoch) (now : instant) : option Z :=
  let age := now - default (ep_activated_at e) (ep_last_observed e) in
  if 0 <=? age then Some age else None.

(** ** State *)

Record tally : Set := {
  ta_examined : Z;
  ta_collected : Z;
  ta_already : Z;
  ta_blocked : Z;
  ta_empty : Z;
  ta_failed : Z
}.

Definition no_tally : tally :=
  {| ta_examined := 0; ta_collected := 0; ta_already := 0; ta_blocked := 0; ta_empty := 0;
     ta_failed := 0 |}.

Inductive worker_event : Set :=
| collection_deferred (id : option string) (backoff_seconds consecutive : Z)
| collection_failed (id : string)
| collection_restricted (epoch : Z) (id : string) (refusals : Z)
| collection_epoch_awaited (epoch threshold : Z)
| collection_swept (epoch : Z) (complete : bool) (outcome : tally)
| collection_started (interval_seconds batch_limit : Z)
| collection_start_refused (reason : string).

(** [ContentCollectionWorkerState] with the worker's own cursor, startup flag
    and backoff; the outcome counters of the process are one [tally]. *)
Record Worker : Set := {
  ws_enabled : bool;
  ws_restricted : bool;
  ws_abandoned : bool;
  ws_awaiting : bool;
  ws_degraded : bool;
  ws_last_sweep_at : option instant;
  ws_tally : tally;
  ws_rows_removed : Z;
  ws_bytes_removed : Z;
  ws_epoch : option Z;
  ws_last_outcome : option tally;
  ws_recent_errors : list (instant * string * option string);
  wk_cursor : option (instant * string);
  wk_cursor_epoch : option Z;
  wk_startup_checked : bool;
  wk_not_before : option instant;
  wk_transient : Z;
  wk_emitted : list worker_event
}.

Definition set_ws_enabled (w : Worker) (x : bool) : Worker :=
  {| ws_enabled := x; ws_restricted := ws_restricted w; ws_abandoned := ws_abandoned w;
    ws_awaiting := ws_awaiting w; ws_degraded := ws_degraded w; ws_last_sweep_at :=
    ws_last_sweep_at w; ws_tally := ws_tally w; ws_rows_removed := ws_rows_removed w;
    ws_bytes_removed := ws_bytes_removed w; ws_epoch := ws_epoch w; ws_last_outcome :=
    ws_last_outcome w; ws_recent_errors := ws_recent_errors w; wk_cursor := wk_cursor w;
    wk_cursor_epoch := wk_cursor_epoch w; wk_startup_checked := wk_startup_checked w;
    wk_not_before := wk_not_before w; wk_transient := wk_transient w; wk_emitted := wk_emitted w |}.
Definition set_ws_restricted (w : Worker) (x : bool) : Worker :=
  {| ws_enabled := ws_enabled w; ws_restricted := x; ws_abandoned := ws_abandoned w; ws_awaiting
    := ws_awaiting w; ws_degraded := ws_degraded w; ws_last_sweep_at := ws_last_sweep_at w;
    ws_tally := ws_tally w; ws_rows_removed := ws_rows_removed w; ws_bytes_removed :=
    ws_bytes_removed w; ws_epoch := ws_epoch w; ws_last_outcome := ws_last_outcome w;
    ws_recent_errors := ws_recent_errors w; wk_cursor := wk_cursor w; wk_cursor_epoch :=
    wk_cursor_epoch w; wk_startup_checked := wk_startup_checked w; wk_not_before := wk_not_before
    w; wk_transient := wk_transient w; wk_emitted := wk_emitted w |}.
Definition set_ws_abandoned (w : Worker) (x : bool) : Worker :=
  {| ws_enabled := ws_enabled w; ws_restricted := ws_restricted w; ws_abandoned := x; ws_awaiting
    := ws_awaiting w; ws_degraded := ws_degraded w; ws_last_sweep_at := ws_last_sweep_at w;
    ws_tally := ws_tally w; ws_rows_removed := ws_rows_removed w; ws_bytes_removed :=
    ws_bytes_removed w; ws_epoch := ws_epoch w; ws_last_outcome := ws_last_outcome w;
    ws_recent_errors := ws_recent_errors w; wk_cursor := wk_cursor w; wk_cursor_epoch :=
    wk_cursor_epoch w; wk_startup_checked := wk_startup_checked w; wk_not_before := wk_not_before
    w; wk_transient := wk_transient w; wk_emitted := wk_emitted w |}.
Definition set_ws_awaiting (w : Worker) (x : bool) : Worker :=
  {| ws_enabled := ws_enabled w; ws_restricted := ws_restricted w; ws_abandoned := ws_abandoned w;
    ws_awaiting := x; ws_degraded := ws_degraded w; ws_last_sweep_at := ws_last_sweep_at w;
    ws_tally := ws_tally w; ws_rows_removed := ws_rows_removed w; ws_bytes_removed :=
    ws_bytes_removed w; ws_epoch := ws_epoch w; ws_last_outcome := ws_last_outcome w;
    ws_recent_errors := ws_recent_errors w; wk_cursor := wk_cursor w; wk_cursor_epoch :=
    wk_cursor_epoch w; wk_startup_checked := wk_startup_checked w; wk_not_before := wk_not_before
    w; wk_transient := wk_transient w; wk_emitted := wk_emitted w |}.
Definition set_ws_degraded (w : Worker) (x : bool) : Worker :=
  {| ws_enabled := ws_enabled w; ws_restricted := ws_restricted w; ws_abandoned := ws_abandoned w;
    ws_awaiting := ws_awaiting w; ws_degraded := x; ws_last_sweep_at := ws_last_sweep_at w;
    ws_tally := ws_tally w; ws_rows_removed := ws_rows_removed w; ws_bytes_removed :=
    ws_bytes_removed w; ws_epoch := ws_epoch w; ws_last_outcome := ws_last_outcome w;
    ws_recent_errors := ws_recent_errors w; wk_cursor := wk_cursor w; wk_cursor_epoch :=
    wk_cursor_epoch w; wk_startup_checked := wk_startup_checked w; wk_not_before := wk_not_before
    w; wk_transient := wk_transient w; wk_emitted := wk_emitted w |}.
Definition set_ws_last_sweep_at (w : Worker) (x : option instant) : Worker :=
  {| ws_enabled := ws_enabled w; ws_restricted := ws_restricted w; ws_abandoned := ws_abandoned w;
    ws_awaiting := ws_awaiting w; ws_degraded := ws_degraded w; ws_last_sweep_at := x; ws_tally :=
    ws_tally w; ws_rows_removed := ws_rows_removed w; ws_bytes_removed := ws_bytes_removed w;
    ws_epoch := ws_epoch w; ws_last_outcome := ws_last_outcome w; ws_recent_errors :=
    ws_recent_errors w; wk_cursor := wk_cursor w; wk_cursor_epoch := wk_cursor_epoch w;
    wk_startup_checked := wk_startup_checked w; wk_not_before := wk_not_before w; wk_transient :=
    wk_transient w; wk_emitted := wk_emitted w |}.
Definition set_ws_tally (w : Worker) (x : tally) : Worker :=
  {| ws_enabled := ws_enabled w; ws_restricted := ws_restricted w; ws_abandoned := ws_abandoned w;
    ws_awaiting := ws_awaiting w; ws_degraded := ws_degraded w; ws_last_sweep_at :=
    ws_last_sweep_at w; ws_tally := x; ws_rows_removed := ws_rows_removed w; ws_bytes_removed :=
    ws_bytes_removed w; ws_epoch := ws_epoch w; ws_last_outcome := ws_last_outcome w;
    ws_recent_errors := ws_recent_errors w; wk_cursor := wk_cursor w; wk_cursor_epoch :=
    wk_cursor_epoch w; wk_startup_checked := wk_startup_checked w; wk_not_before := wk_not_before
    w; wk_transient := wk_transient w; wk_emitted := wk_emitted w |}.
Definition set_ws_rows_removed (w : Worker) (x : Z) : Worker :=
  {| ws_enabled := ws_enabled w; ws_restricted := ws_restricted w; ws_abandoned := ws_abandoned w;
    ws_awaiting := ws_awaiting w; ws_degraded := ws_degraded w; ws_last_sweep_at :=
    ws_last_sweep_at w; ws_tally := ws_tally w; ws_rows_removed := x; ws_bytes_removed :=
    ws_bytes_removed w; ws_epoch := ws_epoch w; ws_last_outcome := ws_last_outcome w;
    ws_recent_errors := ws_recent_errors w; wk_cursor := wk_cursor w; wk_cursor_epoch :=
    wk_cursor_epoch w; wk_startup_checked := wk_startup_checked w; wk_not_before := wk_not_before
    w; wk_transient := wk_transient w; wk_emitted := wk_emitted w |}.
Definition set_ws_bytes_removed (w : Worker) (x : Z) : Worker :=
  {| ws_enabled := ws_enabled w; ws_restricted := ws_restricted w; ws_abandoned := ws_abandoned w;
    ws_awaiting := ws_awaiting w; ws_degraded := ws_degraded w; ws_last_sweep_at :=
    ws_last_sweep_at w; ws_tally := ws_tally w; ws_rows_removed := ws_rows_removed w;
    ws_bytes_removed := x; ws_epoch := ws_epoch w; ws_last_outcome := ws_last_outcome w;
    ws_recent_errors := ws_recent_errors w; wk_cursor := wk_cursor w; wk_cursor_epoch :=
    wk_cursor_epoch w; wk_startup_checked := wk_startup_checked w; wk_not_before := wk_not_before
    w; wk_transient := wk_transient w; wk_emitted := wk_emitted w |}.
Definition set_ws_epoch (w : Worker) (x : option Z) : Worker :=
  {| ws_enabled := ws_enabled w; ws_restricted := ws_restricted w; ws_abandoned := ws_abandoned w;
    ws_awaiting := ws_awaiting w; ws_degraded := ws_degraded w; ws_last_sweep_at :=
    ws_last_sweep_at w; ws_tally := ws_tally w; ws_rows_removed := ws_rows_removed w;
    ws_bytes_removed := ws_bytes_removed w; ws_epoch := x; ws_last_outcome := ws_last_outcome w;
    ws_recent_errors := ws_recent_errors w; wk_cursor := wk_cursor w; wk_cursor_epoch :=
    wk_cursor_epoch w; wk_startup_checked := wk_startup_checked w; wk_not_before := wk_not_before
    w; wk_transient := wk_transient w; wk_emitted := wk_emitted w |}.
Definition set_ws_last_outcome (w : Worker) (x : option tally) : Worker :=
  {| ws_enabled := ws_enabled w; ws_restricted := ws_restricted w; ws_abandoned := ws_abandoned w;
    ws_awaiting := ws_awaiting w; ws_degraded := ws_degraded w; ws_last_sweep_at :=
    ws_last_sweep_at w; ws_tally := ws_tally w; ws_rows_removed := ws_rows_removed w;
    ws_bytes_removed := ws_bytes_removed w; ws_epoch := ws_epoch w; ws_last_outcome := x;
    ws_recent_errors := ws_recent_errors w; wk_cursor := wk_cursor w; wk_cursor_epoch :=
    wk_cursor_epoch w; wk_startup_checked := wk_startup_checked w; wk_not_before := wk_not_before
    w; wk_transient := wk_transient w; wk_emitted := wk_emitted w |}.
Definition set_ws_recent_errors (w : Worker) (x : list (instant * string * option string)) : Worker :=
  {| ws_enabled := ws_enabled w; ws_restricted := ws_restricted w; ws_abandoned := ws_abandoned w;
    ws_awaiting := ws_awaiting w; ws_degraded := ws_degraded w; ws_last_sweep_at :=
    ws_last_sweep_at w; ws_tally := ws_tally w; ws_rows_removed := ws_rows_removed w;
    ws_bytes_removed := ws_bytes_removed w; ws_epoch := ws_epoch w; ws_last_outcome :=
    ws_last_outcome w; ws_recent_errors := x; wk_cursor := wk_cursor w; wk_cursor_epoch :=
    wk_cursor_epoch w; wk_startup_checked := wk_startup_checked w; wk_not_before := wk_not_before
    w; wk_transient := wk_transient w; wk_emitted := wk_emitted w |}.
Definition set_wk_cursor (w : Worker) (x : option (instant * string)) : Worker :=
  {| ws_enabled := ws_enabled w; ws_restricted := ws_restricted w; ws_abandoned := ws_abandoned w;
    ws_awaiting := ws_awaiting w; ws_degraded := ws_degraded w; ws_last_sweep_at :=
    ws_last_sweep_at w; ws_tally := ws_tally w; ws_rows_removed := ws_rows_removed w;
    ws_bytes_removed := ws_bytes_removed w; ws_epoch := ws_epoch w; ws_last_outcome :=
    ws_last_outcome w; ws_recent_errors := ws_recent_errors w; wk_cursor := x; wk_cursor_epoch :=
    wk_cursor_epoch w; wk_startup_checked := wk_startup_checked w; wk_not_before := wk_not_before
    w; wk_transient := wk_transient w; wk_emitted := wk_emitted w |}.
Definition set_wk_cursor_epoch (w : Worker) (x : option Z) : Worker :=
  {| ws_enabled := ws_enabled w; ws_restricted := ws_restricted w; ws_abandoned := ws_abandoned w;
    ws_awaiting := ws_awaiting w; ws_degraded := ws_degraded w; ws_last_sweep_at :=
    ws_last_sweep_at w; ws_tally := ws_tally w; ws_rows_removed := ws_rows_removed w;
    ws_bytes_removed := ws_bytes_removed w; ws_epoch := ws_epoch w; ws_last_outcome :=
    ws_last_outcome w; ws_recent_errors := ws_recent_errors w; wk_cursor := wk_cursor w;
    wk_cursor_epoch := x; wk_startup_checked := wk_startup_checked w; wk_not_before :=
    wk_not_before w; wk_transient := wk_transient w; wk_emitted := wk_emitted w |}.
Definition set_wk_startup_checked (w : Worker) (x : bool) : Worker :=
  {| ws_enabled := ws_enabled w; ws_restricted := ws_restricted w; ws_abandoned := ws_abandoned w;
    ws_awaiting := ws_awaiting w; ws_degraded := ws_degraded w; ws_last_sweep_at :=
    ws_last_sweep_at w; ws_tally := ws_tally w; ws_rows_removed := ws_rows_removed w;
    ws_bytes_removed := ws_bytes_removed w; ws_epoch := ws_epoch w; ws_last_outcome :=
    ws_last_outcome w; ws_recent_errors := ws_recent_errors w; wk_cursor := wk_cursor w;
    wk_cursor_epoch := wk_cursor_epoch w; wk_startup_checked := x; wk_not_before := wk_not_before
    w; wk_transient := wk_transient w; wk_emitted := wk_emitted w |}.
Definition set_wk_not_before (w : Worker) (x : option instant) : Worker :=
  {| ws_enabled := ws_enabled w; ws_restricted := ws_restricted w; ws_abandoned := ws_abandoned w;
    ws_awaiting := ws_awaiting w; ws_degraded := ws_degraded w; ws_last_sweep_at :=
    ws_last_sweep_at w; ws_tally := ws_tally w; ws_rows_removed := ws_rows_removed w;
    ws_bytes_removed := ws_bytes_removed w; ws_epoch := ws_epoch w; ws_last_outcome :=
    ws_last_outcome w; ws_recent_errors := ws_recent_errors w; wk_cursor := wk_cursor w;
    wk_cursor_epoch := wk_cursor_epoch w; wk_startup_checked := wk_startup_checked w;
    wk_not_before := x; wk_transient := wk_transient w; wk_emitted := wk_emitted w |}.
Definition set_wk_transient (w : Worker) (x : Z) : Worker :=
  {| ws_enabled := ws_enabled w; ws_restricted := ws_restricted w; ws_abandoned := ws_abandoned w;
    ws_awaiting := ws_awaiting w; ws_degraded := ws_degraded w; ws_last_sweep_at :=
    ws_last_sweep_at w; ws_tally := ws_tally w; ws_rows_removed := ws_rows_removed w;
    ws_bytes_removed := ws_bytes_removed w; ws_epoch := ws_epoch w; ws_last_outcome :=
    ws_last_outcome w; ws_recent_errors := ws_recent_errors w; wk_cursor := wk_cursor w;
    wk_cursor_epoch := wk_cursor_epoch w; wk_startup_checked := wk_startup_checked w;
    wk_not_before := wk_not_before w; wk_transient := x; wk_emitted := wk_emitted w |}.
Definition set_wk_emitted (w : Worker) (x : list worker_event) : Worker :=
  {| ws_enabled := ws_enabled w; ws_restricted := ws_restricted w; ws_abandoned := ws_abandoned w;
    ws_awaiting := ws_awaiting w; ws_degraded := ws_degraded w; ws_last_sweep_at :=
    ws_last_sweep_at w; ws_tally := ws_tally w; ws_rows_removed := ws_rows_removed w;
    ws_bytes_removed := ws_bytes_removed w; ws_epoch := ws_epoch w; ws_last_outcome :=
    ws_last_outcome w; ws_recent_errors := ws_recent_errors w; wk_cursor := wk_cursor w;
    wk_cursor_epoch := wk_cursor_epoch w; wk_startup_checked := wk_startup_checked w;
    wk_not_before := wk_not_before w; wk_transient := wk_transient w; wk_emitted := x |}.

Definition INTEGRITY_REFUSAL_RESTRICTION_THRESHOLD : Z := 3.
Definition TRANSIENT_BACKOFF_CAP_MULTIPLIER : Z := 10.
Definition RECENT_ERROR_LIMIT : nat := 8.

(** A worker under a policy, before its first start. *)
Definition new_worker (p : ContentRetentionPolicy) : Worker :=
  {| ws_enabled := negb (retained p); ws_restricted := false; ws_abandoned := false;
     ws_awaiting := false; ws_degraded := false; ws_last_sweep_at := None; ws_tally := no_tally;
     ws_rows_removed := 0; ws_bytes_removed := 0; ws_epoch := None; ws_last_outcome := None;
     ws_recent_errors := []; wk_cursor := None; wk_cursor_epoch := None; wk_startup_checked := false;
     wk_not_before := None; wk_transient := 0; wk_emitted := [] |}.

(** [deque(maxlen=8).append]. *)
Definition record_worker_error (kind : string) (id : option string) (now : instant) (w : Worker)
    : Worker :=
  let journal := ws_recent_errors w ++ [(now, kind, id)] in
  set_ws_recent_errors w (drop (length journal - RECENT_ERROR_LIMIT) journal).

Definition emit (e : worker_event) (w : Worker) : Worker := set_wk_emitted w (wk_emitted w ++ [e]).

Definition tally_add (examined collected already blocked empty failed : Z) (t : tally) : tally :=
  {| ta_examined := ta_examined t + examined; ta_collected := ta_collected t + collected;
     ta_already := ta_already t + already; ta_blocked := ta_blocked t + blocked;
     ta_empty := ta_empty t + empty; ta_failed := ta_failed t + failed |}.

Definition tally_examined : tally -> tally := tally_add 1 0 0 0 0 0.
Definition tally_failed : tally -> tally := tally_add 0 0 0 0 0 1.

(** [_classify_outcome]: the counters one status moves ([dry_run] never
    occurs and counts as failed). *)
Definition tally_status (s : collection_status) : tally -> tally :=
  match s with
  | SCollected => tally_add 0 1 0 0 0 0
  | SAlready => tally_add 0 0 1 0 0 0
  | SBlocked => tally_add 0 0 0 1 0 0
  | SEmpty => tally_add 0 0 0 0 1 0
  | SDryRun => tally_failed
  end.

Definition classify_outcome (id : string) (x : CollectionResult) (now : instant) (w : Worker) : Worker :=
  let w := set_ws_tally w (tally_status (co_status x) (ws_tally w)) in
  match co_status x with
  | SCollected =>
      set_ws_bytes_removed (set_ws_rows_removed w (ws_rows_removed w + co_rows_removed x))
        (ws_bytes_removed w + co_bytes_removed x)
  | SDryRun => record_worker_error "unexpected_status" (Some id) now w
  | _ => w
  end.

(** ** Storage calls and their surroundings *)

Inductive storage_call : Set := LatestEpoch | OpenEpoch | Heartbeat | CandidatesPage | CollectEvent (id : string).

Record surroundings : Type := {
  sr_now : instant;
  sr_clock : storage_call -> instant;
  sr_busy : storage_call -> bool;
  sr_others : storage_call -> list content_op;
  sr_elsewhere : string -> elsewhere_probe;
  sr_shutdown : string -> bool
}.

(** [ContentCollectionTransientError], or any other exception. *)
Inductive fault : Set := Transient | Raised (e : exc).

Section worker.
Context (sha256 : string -> string) (json_loads : string -> option json).
Context (policy : ContentRetentionPolicy).

Definition call {A} (env : surroundings) (k : storage_call) (f : cdb -> result exc A * cdb) (c : cdb)
    : result fault A * cdb :=
  let c := cexec sha256 json_loads (sr_others env k) c in
  if sr_busy env k then (Raise Transient, c)
  else match f c with
       | (Ok a, c') => (Ok a, c')
       | (Raise e, c') => (Raise (Raised e), c')
       end.

(** ** Backoff and freshness *)

Definition epoch_staleness_threshold : Z := retention_epoch_grace_seconds (rp_interval_seconds policy).

Definition epoch_is_stale (e : RetentionEpoch) (now : instant) : bool :=
  match retention_epoch_observation_age e now with
  | None => true
  | Some age => epoch_staleness_threshold * SECOND <? age
  end.

Definition backoff_seconds (consecutive : Z) : Z :=
  Z.min (rp_interval_seconds policy * 2 ^ consecutive)
    (Z.min (rp_interval_seconds policy * TRANSIENT_BACKOFF_CAP_MULTIPLIER)
       (epoch_staleness_threshold - rp_interval_seconds policy)).

Definition defer_transient (id : option string) (now : instant) (w : Worker) : Worker :=
  let n := wk_transient w + 1 in
  let backoff := backoff_seconds n in
  emit (collection_deferred id backoff n)
    (record_worker_error "transient" id now
       (set_wk_not_before (set_wk_transient (set_ws_degraded w true) n) (Some (now + backoff * SECOND)))).

(** Microseconds to idle before the next sweep. *)
Definition idle_timeout (now : instant) (w : Worker) : Z :=
  let timeout := rp_interval_seconds policy * SECOND in
  match wk_not_before w with
  | None => timeout
  | Some t => Z.max timeout (t - now)
  end.

(** ** The activation gate *)

Definition ensure_activation_epoch (env : surroundings) (w : Worker) (c : cdb)
    : result fault (option RetentionEpoch) * Worker * cdb :=
  let now := sr_now env in
  let open := call env OpenEpoch (open_retention_epoch "runtime-first-start" now) in
  (* what follows once the epoch to judge is known *)
  let judge w c (e : RetentionEpoch) :=
    let w := set_ws_epoch w (Some (ep_epoch e)) in
    if epoch_is_stale e now
    then
      let w := if ws_awaiting w then w
               else emit (collection_epoch_awaited (ep_epoch e) epoch_staleness_threshold)
                      (set_ws_awaiting w true) in
      (Ok None, w, c)
    else (Ok (Some e), set_ws_awaiting w false, c) in
  match call env LatestEpoch (fun c => (Ok (latest_retention_epoch c), c)) c with
  | (Raise x, c) => (Raise x, w, c)
  | (Ok None, c) =>
      match open c with
      | (Raise x, c) => (Raise x, w, c)
      | (Ok e, c) =>
          (Ok (Some e),
           set_ws_awaiting (set_ws_epoch (set_wk_startup_checked w true) (Some (ep_epoch e))) false, c)
      end
  | (Ok (Some e), c) =>
      if wk_startup_checked w then judge w c e
      else if epoch_is_stale e now then judge (set_wk_startup_checked w true) c e
      else match open c with
           | (Raise x, c) => (Raise x, w, c)
           | (Ok e', c) => judge (set_wk_startup_checked w true) c e'
           end
  end.

(** ** The sweep *)

(** How the pass over the page ended. *)
Inductive page_end : Set :=
| PageDone        (** every candidate was examined *)
| PageRestricted  (** too many refusals *)
| PageLeft        (** shutdown, a changed epoch or a busy database: the sweep returned *)
| PageRaised (e : exc).

Fixpoint examine (env : surroundings) (epoch : Z) (ids : list string) (refusals : Z) (outcome : tally)
    (w : Worker) (c : cdb) : page_end * tally * Worker * cdb :=
  match ids with
  | [] => (PageDone, outcome, w, c)
  | id :: ids =>
      if sr_shutdown env id then (PageLeft, outcome, w, c)
      else
        let w := set_ws_tally w (tally_examined (ws_tally w)) in
        let outcome := tally_examined outcome in
        let now := sr_clock env (CollectEvent id) in
        match call env (CollectEvent id)
                (collect_event_content (sr_elsewhere env) id false (Some epoch) now) c with
        | (Raise (Raised ContentCollectionEpochChanged), c) =>
            (PageLeft, outcome, set_wk_cursor_epoch (set_wk_cursor w None) None, c)
        | (Raise Transient, c) => (PageLeft, outcome, defer_transient (Some id) now w, c)
        | (Raise (Raised (StorageError _)), c) =>
            let refusals := refusals + 1 in
            let w := emit (collection_failed id)
                       (record_worker_error "integrity_refused" (Some id) now
                          (set_ws_tally w (tally_failed (ws_tally w)))) in
            let outcome := tally_failed outcome in
            if INTEGRITY_REFUSAL_RESTRICTION_THRESHOLD <=? refusals
            then (PageRestricted, outcome,
                  emit (collection_restricted epoch id refusals) (set_ws_restricted w true), c)
            else examine env epoch ids refusals outcome w c
        | (Raise (Raised e), c) => (PageRaised e, outcome, w, c)
        | (Ok x, c) =>
            examine env epoch ids 0 (tally_status (co_status x) outcome) (classify_outcome id x now w) c
        end
  end.

(** The sweep under a fresh epoch: heartbeat, page, candidates, bookkeeping. *)
Definition sweep_epoch (env : surroundings) (e : RetentionEpoch) (w : Worker) (c : cdb)
    : result fault unit * Worker * cdb :=
  let n := ep_epoch e in
  let w := if bool_decide (wk_cursor_epoch w = Some n) then w
           else set_wk_cursor_epoch (set_wk_cursor w None) (Some n) in
  match call env Heartbeat (observe_retention_heartbeat n (sr_now env)) c with
  | (Raise (Raised ContentCollectionEpochChanged), c) =>
      (Ok tt, set_wk_cursor_epoch (set_wk_cursor w None) None, c)
  | (Raise x, c) => (Raise x, w, c)
  | (Ok _, c) =>
      match call env CandidatesPage
              (fun c => (page_collection_candidates c (wk_cursor w) (rp_batch_limit policy)
                           (ep_watermark e), c)) c with
      | (Raise x, c) => (Raise x, w, c)
      | (Ok page, c) =>
          match examine env n (cp_event_ids page) 0 no_tally w c with
          | (PageLeft, _, w, c) => (Ok tt, w, c)
          | (PageRaised x, _, w, c) => (Raise (Raised x), w, c)
          | (ended, outcome, w, c) =>
              let w := set_ws_last_outcome (set_ws_last_sweep_at w (Some (sr_now env))) (Some outcome) in
              match ended with
              | PageRestricted => (Ok tt, w, c)
              | _ =>
                  let w := set_wk_cursor w (if cp_has_more page then cp_next_after page else None) in
                  let w := set_ws_degraded (set_wk_not_before (set_wk_transient w 0) None) false in
                  (Ok tt, emit (collection_swept n (negb (cp_has_more page)) outcome) w, c)
              end
          end
      end
  end.

Definition sweep (env : surroundings) (w : Worker) (c : cdb) : result fault unit * Worker * cdb :=
  if negb (ws_enabled w) || ws_restricted w || ws_abandoned w then (Ok tt, w, c)
  else match ensure_activation_epoch env w c with
  | (Raise x, w, c) => (Raise x, w, c)
  | (Ok None, w, c) => (Ok tt, w, c)
  | (Ok (Some e), w, c) => sweep_epoch env e w c
  end.

(** One iteration of [_run_loop]: the sweep with its exceptions handled. *)
Definition loop_iteration (env : surroundings) (w : Worker) (c : cdb) : Worker * cdb :=
  match sweep env w c with
  | (Ok _, w, c) => (w, c)
  | (Raise Transient, w, c) => (defer_transient None (sr_now env) w, c)
  | (Raise (Raised _), w, c) => (set_ws_degraded (record_worker_error "cycle" None (sr_now env) w) true, c)
  end.

(** [start]: what a new loop begins with; nothing for a policy that retains or
    while a loop task exists, refused while abandoned or restricted. *)
Definition start (has_task : bool) (w : Worker) : Worker :=
  if negb (ws_enabled w) then w
  else if ws_abandoned w then emit (collection_start_refused "abandoned") w
  else if ws_restricted w then emit (collection_start_refused "restricted") w
  else if has_task then w
  else emit (collection_started (rp_interval_seconds policy) (rp_batch_limit policy))
         (set_ws_awaiting (set_ws_degraded (set_wk_not_before (set_wk_transient
            (set_wk_cursor (set_wk_cursor_epoch (set_wk_startup_checked w false) None) None) 0) None)
            false) false).
End worker.
