(* ===== verification/CollectionWorkerSafety.v ===== *)
(** * Safety and progress of the content collection worker

    Every sweep is a sequence of database operations; a worker that passed its
    startup gate never collects what was stored before; a completed sweep
    accounts for every candidate of its page; and on a quiet database one
    cycle of sweeps collects every event that nothing retains. *)

From S2P Require Import Prelude.
From S2P Require Import Json.
From S2P Require Import Delivery.
From S2P Require Import Store.
From S2P Require Import Attachments.
From S2P Require Import Events.
From S2P Require Import ContentStore.
From S2P Require Import Ingress.
From S2P Require Import IngressProofs.
From S2P Require Import ContentGrants.
From S2P Require Import Retention.
From S2P Require Import ContentSteps.
From S2P Require Import ContentSafety.
From S2P Require Import IngressSafety.
From S2P Require Import RetentionSafety.
From S2P Require Import RetentionPaging.
From S2P Require Import CollectionWorker.

Open Scope string_scope.
Open Scope list_scope.
Open Scope Z_scope.

(** A record that is not looked for does not change what is found. *)
Lemma find_app_other {A} (f : A -> bool) l x : f x = false -> List.find f (l ++ [x]) = List.find f l.
Proof. intros Hx. induction l as [|y l IH]; simpl; [by rewrite Hx|]. by rewrite IH. Qed.

Section safety.
Context (sha256 : string -> string) (json_loads : string -> option json).
Context (policy : ContentRetentionPolicy).

Abbreviation content_steps := (rtc (content_step sha256)).
Abbreviation call := (call sha256 json_loads).
Abbreviation ensure := (ensure_activation_epoch sha256 json_loads policy).
Abbreviation examine := (examine sha256 json_loads policy).
Abbreviation sweep_epoch := (sweep_epoch sha256 json_loads policy).
Abbreviation sweep := (sweep sha256 json_loads policy).
Abbreviation iteration := (loop_iteration sha256 json_loads policy).

(** ** Sweeps are sequences of operations *)

Lemma call_steps {A} env k (f : cdb -> result exc A * cdb) c :
  content_ok sha256 c -> (forall c, content_ok sha256 c -> content_steps c (f c).2) ->
  content_steps c (call env k f c).2.
Proof.
  intros Hok Hf. pose proof (cexec_steps sha256 json_loads (sr_others env k) c Hok) as Hs.
  unfold CollectionWorker.call. cbv zeta. case_match; [exact Hs|].
  etrans; [exact Hs|]. specialize (Hf _ (content_steps_ok _ _ _ Hs Hok)).
  by destruct (f _) as [[a|e] c'].
Qed.

(** What a call leaves behind, for a destructed call. *)
Lemma call_steps' {A} env k (f : cdb -> result exc A * cdb) c r c' :
  call env k f c = (r, c') -> content_ok sha256 c ->
  (forall c, content_ok sha256 c -> content_steps c (f c).2) -> content_steps c c'.
Proof. intros H Hok Hf. pose proof (call_steps env k f c Hok Hf) as Hs. by rewrite H in Hs. Qed.

Lemma ensure_steps env w c : content_ok sha256 c -> content_steps c (ensure env w c).2.
Proof.
  intros Hok. unfold ensure_activation_epoch. cbv zeta.
  destruct (call env LatestEpoch _ c) as [[[e|]|x] c1] eqn:E1;
    (assert (content_steps c c1) as H1 by (eapply call_steps'; [exact E1|done|done]));
    [| |exact H1].
  - destruct (wk_startup_checked w); [by repeat case_match|]. case_match; [done|].
    destruct (call env OpenEpoch _ c1) as [[e'|x] c2] eqn:E2;
      (assert (content_steps c1 c2) as H2
        by (eapply call_steps'; [exact E2|by eapply content_steps_ok|intros; apply open_epoch_steps]));
      [repeat case_match|]; simpl; by etrans.
  - destruct (call env OpenEpoch _ c1) as [[e'|x] c2] eqn:E2;
      (assert (content_steps c1 c2) as H2
        by (eapply call_steps'; [exact E2|by eapply content_steps_ok|intros; apply open_epoch_steps]));
      simpl; by etrans.
Qed.

Lemma examine_steps env n ids refusals outcome w c :
  content_ok sha256 c -> content_steps c (examine env n ids refusals outcome w c).2.
Proof.
  revert refusals outcome w c. induction ids as [|id ids IH]; intros refusals outcome w c Hok; [done|].
  simpl. case_match; [done|].
  destruct (call env (CollectEvent id) _ c) as [r c1] eqn:E.
  assert (content_steps c c1) as H1
    by (eapply call_steps'; [exact E|done|intros; apply collect_steps]).
  assert (content_ok sha256 c1) as Hok1 by (by eapply content_steps_ok).
  destruct r as [x|[|[]]]; simpl; try exact H1; [by etrans; [|apply IH]|].
  case_match; simpl; [exact H1|]. by etrans; [|apply IH].
Qed.

Lemma sweep_epoch_steps env e w c : content_ok sha256 c -> content_steps c (sweep_epoch env e w c).2.
Proof.
  intros Hok. unfold CollectionWorker.sweep_epoch. cbv zeta.
  destruct (call env Heartbeat _ c) as [r2 c2] eqn:E2.
  assert (content_steps c c2) as H2
    by (eapply call_steps'; [exact E2|done|intros; apply heartbeat_steps]).
  destruct r2 as [[]|[|[]]]; simpl; try exact H2.
  destruct (call env CandidatesPage _ c2) as [r3 c3] eqn:E3.
  assert (content_ok sha256 c2) as Hok2 by (by eapply content_steps_ok).
  assert (content_steps c2 c3) as H3 by (eapply call_steps'; [exact E3|done|done]).
  assert (content_steps c c3) as H13 by (by etrans).
  destruct r3 as [page|x]; simpl; [|exact H13].
  assert (content_ok sha256 c3) as Hok3 by (by eapply content_steps_ok).
  match goal with |- context [examine env ?n ?ids ?r ?o ?w2 c3] =>
    pose proof (examine_steps env n ids r o w2 c3 Hok3) as H4;
    destruct (examine env n ids r o w2 c3) as [[[[] o4] w4] c4] end; simpl in *; by etrans.
Qed.

Lemma sweep_steps env w c : content_ok sha256 c -> content_steps c (sweep env w c).2.
Proof.
  intros Hok. unfold CollectionWorker.sweep. case_match; [done|].
  pose proof (ensure_steps env w c Hok) as H1.
  destruct (ensure env w c) as [[[[e|]|x] w1] c1]; simpl in *; try exact H1.
  etrans; [exact H1|]. apply sweep_epoch_steps. by eapply content_steps_ok.
Qed.

Lemma iteration_steps env w c : content_ok sha256 c -> content_steps c (iteration env w c).2.
Proof.
  intros Hok. pose proof (sweep_steps env w c Hok) as H. unfold loop_iteration.
  by destruct (sweep env w c) as [[[[]|[|]] ?] ?].
Qed.

(** ** Nothing that is protected is collected *)

Definition not_collecting (op : content_op) : bool :=
  match op with CCollect _ _ _ _ _ => false | _ => true end.

(** Nothing but the worker collects. *)
Definition sole_collector (env : surroundings) : Prop :=
  forall k, Forall (fun op => not_collecting op = true) (sr_others env k).

Lemma cexec_log ops c :
  content_ok sha256 c -> Forall (fun op => not_collecting op = true) ops ->
  collection_log (cexec sha256 json_loads ops c) = collection_log c.
Proof.
  intros Hok Hops. revert c Hok. induction Hops as [|op ops Hop Hops IH]; intros c Hok; [done|].
  simpl. rewrite IH by (by eapply content_steps_ok; [apply (cstep_steps (strict := true))|]).
  destruct (storing op) eqn:Es; [|by apply (step_same sha256 json_loads collection_log)].
  destruct op; try done. simpl.
  destruct (admit_ingress_outcomes sha256 a now c Hok) as [e|r Hr Hin He|r plan]; try done.
  unfold repaired. by case_match.
Qed.

(** An instant at or before the current admission boundary. *)
Definition protected (c : cdb) (t : instant) : Prop := boundary_le (Some t) (boundary c).

Lemma protected_steps c c' t : content_steps c c' -> protected c t -> protected c' t.
Proof. unfold protected. intros H Hp. etrans; [exact Hp|]. apply ce_boundary. by eapply content_steps_evolves. Qed.

Lemma event_row_steps c c' (r : EventRow) :
  content_steps c c' -> r ∈ event_rows c -> r ∈ event_rows c'.
Proof.
  intros H Hr. destruct (ce_event_rows _ _ (content_steps_evolves _ _ _ H)) as [k ->]. set_solver.
Qed.

Lemma open_protects by_ now c e c' (r : EventRow) :
  open_retention_epoch by_ now c = (Ok e, c') -> r ∈ event_rows c -> protected c' (ew_created_at r).
Proof.
  unfold open_retention_epoch. case_match; [done|]. intros [= <- <-] Hr t [= <-].
  destruct (max_admission_ge c r Hr) as (m & Hm & Hle).
  destruct (next_watermark_ge (max_admission c) (latest_retention_epoch c ≫= ep_watermark)) as [_ Hw].
  destruct (Hw m Hm) as (b & Hb & Hle'). exists b. unfold boundary, latest_retention_epoch at 1. simpl.
  rewrite last_snoc. simpl. split; [exact Hb|lia].
Qed.

(** The collector, acting for an epoch, spares it. *)
Lemma collect_spares elsewhere id n now c (r : EventRow) :
  content_ok sha256 c -> r ∈ event_rows c -> protected c (ew_created_at r) ->
  collected_before (collect_event_content elsewhere id false (Some n) now c).2 (ev_event_id r) =
  collected_before c (ev_event_id r).
Proof.
  intros Hok Hr Hp. destruct (collect_event_content _ _ _ _ _ _) as [x c'] eqn:E.
  apply collect_eligible in E as [[-> _]|(rec & Hid & _ & _ & _ & _ & _ & Ha & ->)]; [done|]. simpl.
  specialize (Ha n eq_refl). unfold epoch_authorizes in Ha.
  destruct (decide (id = ev_event_id r)) as [E|E].
  - exfalso. subst id. destruct (Hp _ eq_refl) as (b & Hb & Hle). unfold boundary in Hb.
    destruct (latest_retention_epoch c) as [e|]; [|done]. simpl in Hb. rewrite Hb in Ha.
    rewrite E, (find_event_kept sha256 c c r Hok) in Ha by done. breflect. lia.
  - unfold collected_before. simpl. rewrite find_app_other; [done|]. apply bool_decide_eq_false. congruence.
Qed.

Lemma call_spares {A} env k (f : cdb -> result exc A * cdb) c x c' (r : EventRow) :
  sole_collector env -> content_ok sha256 c -> r ∈ event_rows c -> protected c (ew_created_at r) ->
  (forall c, content_ok sha256 c -> r ∈ event_rows c -> protected c (ew_created_at r) ->
     collected_before (f c).2 (ev_event_id r) = collected_before c (ev_event_id r)) ->
  call env k f c = (x, c') ->
  collected_before c' (ev_event_id r) = collected_before c (ev_event_id r).
Proof.
  intros Hs Hok Hr Hp Hf. unfold CollectionWorker.call. cbv zeta.
  pose proof (cexec_steps sha256 json_loads (sr_others env k) c Hok) as Hst.
  assert (collected_before (cexec sha256 json_loads (sr_others env k) c) (ev_event_id r) =
          collected_before c (ev_event_id r)) as Hlog
    by (unfold collected_before; by rewrite cexec_log).
  case_match; [by intros [= _ <-]|]. specialize (Hf _ (content_steps_ok _ _ _ Hst Hok)
    (event_row_steps _ _ _ Hst Hr) (protected_steps _ _ _ Hst Hp)).
  destruct (f _) as [[a|e] c1]; intros [= _ <-]; simpl in *; congruence.
Qed.

(** One sweep spares what is protected when it starts. *)
Section spare.
Context (env : surroundings) (r : EventRow).
Context (sole : sole_collector env).

Abbreviation spared c c' :=
  (collected_before c' (ev_event_id r) = collected_before c (ev_event_id r)).

(** The database is sound, stores the row and protects it. *)
Record guarded (c : cdb) : Prop := {
  gd_ok : content_ok sha256 c;
  gd_row : r ∈ event_rows c;
  gd_protected : protected c (ew_created_at r)
}.

Lemma guarded_steps c c' : content_steps c c' -> guarded c -> guarded c'.
Proof.
  intros H [Hok Hr Hp]. split; [by eapply content_steps_ok|by eapply event_row_steps|by eapply protected_steps].
Qed.

Lemma call_guarded {A} k (f : cdb -> result exc A * cdb) c x c' :
  guarded c -> call env k f c = (x, c') ->
  (forall c, content_ok sha256 c -> content_steps c (f c).2) ->
  (forall c, guarded c -> spared c (f c).2) -> guarded c' /\ spared c c'.
Proof.
  intros Hg E Hs Hf. split.
  - eapply guarded_steps; [|exact Hg]. eapply call_steps'; [exact E|apply Hg|done].
  - destruct Hg as [Hok Hr Hp]. eapply call_spares; [exact sole|done..| |exact E].
    intros d Hd Hdr Hdp. by apply Hf.
Qed.

Lemma open_spares by_ now c : spared c (open_retention_epoch by_ now c).2.
Proof. unfold open_retention_epoch. by case_match. Qed.

Lemma heartbeat_spares n now c : spared c (observe_retention_heartbeat n now c).2.
Proof. unfold observe_retention_heartbeat. by repeat case_match. Qed.

Lemma ensure_guarded w c : guarded c -> guarded (ensure env w c).2 /\ spared c (ensure env w c).2.
Proof.
  intros Hg. split; [eapply guarded_steps; [apply ensure_steps|]; apply Hg|].
  unfold ensure_activation_epoch. cbv zeta.
  destruct (call env LatestEpoch _ c) as [x1 c1] eqn:E1.
  destruct (call_guarded _ _ _ _ _ Hg E1) as [G1 S1]; [done..|].
  assert (forall x2 c2, call env OpenEpoch (open_retention_epoch "runtime-first-start" (sr_now env)) c1 =
    (x2, c2) -> spared c c2) as Hopen.
  { intros x2 c2 E2. destruct (call_guarded _ _ _ _ _ G1 E2) as [_ S2];
      [intros; apply open_epoch_steps|intros; apply open_spares|congruence]. }
  destruct x1 as [[e|]|x]; [| |done].
  - destruct (wk_startup_checked w); [by repeat case_match|]. case_match; [done|].
    destruct (call env OpenEpoch _ c1) as [[e'|x] c2]; [repeat case_match|]; by eapply Hopen.
  - destruct (call env OpenEpoch _ c1) as [[e'|x] c2]; by eapply Hopen.
Qed.

Lemma examine_guarded n ids refusals outcome w c :
  guarded c -> spared c (examine env n ids refusals outcome w c).2.
Proof.
  revert refusals outcome w c. induction ids as [|id ids IH]; intros refusals outcome w c Hg; [done|].
  simpl. case_match; [done|].
  destruct (call env (CollectEvent id) _ c) as [x c1] eqn:E.
  destruct (call_guarded _ _ _ _ _ Hg E) as [G1 S1].
  { intros; apply collect_steps. }
  { intros d [Hok Hr Hp]. by apply collect_spares. }
  destruct x as [x|[|[]]]; simpl; try exact S1; [by rewrite IH|].
  case_match; simpl; [exact S1|]. by rewrite IH.
Qed.

Lemma sweep_epoch_guarded e w c : guarded c -> spared c (sweep_epoch env e w c).2.
Proof.
  intros Hg. unfold CollectionWorker.sweep_epoch. cbv zeta.
  destruct (call env Heartbeat _ c) as [r2 c2] eqn:E2.
  destruct (call_guarded _ _ _ _ _ Hg E2) as [G2 S2];
    [intros; apply heartbeat_steps|intros; apply heartbeat_spares|].
  destruct r2 as [[]|[|[]]]; simpl; try exact S2.
  destruct (call env CandidatesPage _ c2) as [r3 c3] eqn:E3.
  destruct (call_guarded _ _ _ _ _ G2 E3) as [G3 S3]; [done..|].
  destruct r3 as [page|x]; simpl; [|congruence].
  match goal with |- context [examine env ?n ?ids ?r ?o ?w2 c3] =>
    pose proof (examine_guarded n ids r o w2 c3 G3) as H4;
    destruct (examine env n ids r o w2 c3) as [[[[] o4] w4] c4] end; simpl in *; congruence.
Qed.

Lemma iteration_guarded w c : guarded c -> guarded (iteration env w c).2 /\ spared c (iteration env w c).2.
Proof.
  intros Hg. split; [eapply guarded_steps; [apply iteration_steps|]; apply Hg|].
  assert (spared c (sweep env w c).2) as H; [|unfold loop_iteration;
    by destruct (sweep env w c) as [[[[]|[|]] ?] ?]].
  unfold CollectionWorker.sweep. case_match; [done|].
  destruct (ensure_guarded w c Hg) as [G1 S1].
  destruct (ensure env w c) as [[[[e|]|x] w1] c1]; simpl in *; try exact S1.
  rewrite sweep_epoch_guarded; done.
Qed.
End spare.

(** ** Startup *)

Lemma call_log {A} env k (f : cdb -> result exc A * cdb) c x c' :
  sole_collector env -> content_ok sha256 c ->
  (forall c, collection_log (f c).2 = collection_log c) ->
  call env k f c = (x, c') -> collection_log c' = collection_log c.
Proof.
  intros Hs Hok Hf. unfold CollectionWorker.call. cbv zeta.
  pose proof (cexec_log (sr_others env k) c Hok (Hs k)) as Hl.
  case_match; [by intros [= _ <-]|]. specialize (Hf (cexec sha256 json_loads (sr_others env k) c)).
  destruct (f _) as [[a|e] c1]; intros [= _ <-]; simpl in *; congruence.
Qed.

(** The gate collects nothing. *)
Lemma ensure_log env w c :
  sole_collector env -> content_ok sha256 c -> collection_log (ensure env w c).2 = collection_log c.
Proof.
  intros Hs Hok. unfold ensure_activation_epoch. cbv zeta.
  destruct (call env LatestEpoch _ c) as [x1 c1] eqn:E1.
  assert (content_ok sha256 c1) as Hok1
    by (eapply content_steps_ok; [eapply call_steps'; [exact E1|done|done]|done]).
  apply call_log in E1; [|done..].
  assert (forall x2 c2, call env OpenEpoch (open_retention_epoch "runtime-first-start" (sr_now env)) c1 =
    (x2, c2) -> collection_log c2 = collection_log c) as Hopen.
  { intros x2 c2 E2. apply call_log in E2; [congruence|done..|].
    intros d. unfold open_retention_epoch. by case_match. }
  destruct x1 as [[e|]|x]; [| |done].
  - destruct (wk_startup_checked w); [by repeat case_match|]. case_match; [done|].
    destruct (call env OpenEpoch _ c1) as [[e'|x] c2]; [repeat case_match|]; by eapply Hopen.
  - destruct (call env OpenEpoch _ c1) as [[e'|x] c2]; by eapply Hopen.
Qed.

(** The gate of a worker that has not passed it yet. *)
Lemma ensure_startup env w c :
  content_ok sha256 c -> wk_startup_checked w = false ->
  match ensure env w c with
  | (Raise _, w', _) => w' = w
  | (Ok None, w', _) => ws_awaiting w' = true
  | (Ok (Some e), _, c') => forall r : EventRow, r ∈ event_rows c -> protected c' (ew_created_at r)
  end.
Proof.
  intros Hok Hw. unfold ensure_activation_epoch. cbv zeta. rewrite Hw.
  destruct (call env LatestEpoch _ c) as [x1 c1] eqn:E1.
  assert (content_steps c c1) as H1 by (eapply call_steps'; [exact E1|done|done]).
  assert (forall e c2, call env OpenEpoch (open_retention_epoch "runtime-first-start" (sr_now env)) c1 =
    (Ok e, c2) -> forall r : EventRow, r ∈ event_rows c -> protected c2 (ew_created_at r)) as Hopen.
  { intros e c2 E2 r Hr. unfold CollectionWorker.call in E2. cbv zeta in E2. case_match; [done|].
    match type of E2 with context [open_retention_epoch _ _ ?d] => set (d0 := d) in * end.
    assert (content_steps c1 d0) as H2.
    { unfold d0. apply (cexec_steps (strict := true)). by eapply content_steps_ok. }
    eapply open_protects; [|by eapply event_row_steps; [exact H2|eapply event_row_steps]].
    destruct (open_retention_epoch _ _ d0) as [[]] eqn:E; [|done]. injection E2 as <- <-. exact E. }
  destruct x1 as [[e|]|x]; [| |done].
  - destruct (epoch_is_stale policy e (sr_now env)) eqn:Es.
    + case_match; [done|]. done.
    + destruct (call env OpenEpoch _ c1) as [[e'|x] c2]; [|done]. destruct (epoch_is_stale policy e' (sr_now env)); [by case_match|simpl; by eauto].
  - destruct (call env OpenEpoch _ c1) as [[e'|x] c2]; [|done]. eauto.
Qed.

(** Text that was not collected is as it was admitted. *)
Lemma text_kept c c' id :
  content_ok sha256 c -> in_events c id -> content_steps c c' -> collected_before c' id = None ->
  bodies_of_event c' id = bodies_of_event c id.
Proof.
  intros Hok Hin Hs. revert Hok Hin. induction Hs as [|a b d H Hs IH]; intros Hok Hin Hn; [done|].
  pose proof (content_step_evolves _ _ _ H) as Hev.
  rewrite IH; [|by eapply content_step_ok| |done].
  2:{ destruct (ce_events _ _ Hev) as [k Hk]. unfold in_events in *. rewrite Hk. set_solver. }
  destruct H as [|e kind now dl Hk He| | | | | | | | | | |rec]; try done.
  - rewrite bodies_admitted, (proj2 (filter_nil_iff _ (new_bodies e))); [apply app_nil_r|].
    apply event_exists_false in He. intros x (fb & -> & _)%list_elem_of_fmap. simpl. congruence.
  - apply (bodies_collected_ne sha256). intros Heq. apply collected_before_None in Hn. apply Hn. rewrite <- Heq.
    destruct (ce_collected _ _ (content_steps_evolves _ _ _ Hs)) as [k ->]. simpl.
    rewrite !fmap_app. set_solver.
Qed.

Definition worker_run (envs : list surroundings) (wc : Worker * cdb) : Worker * cdb :=
  foldl (fun wc env => iteration env wc.1 wc.2) wc envs.

Lemma run_guarded r envs w c :
  Forall sole_collector envs -> guarded r c ->
  content_steps c (worker_run envs (w, c)).2 /\
  collected_before (worker_run envs (w, c)).2 (ev_event_id r) = collected_before c (ev_event_id r).
Proof.
  intros He. revert w c. induction He as [|env envs Hs He IH]; intros w c Hg; [done|]. simpl.
  destruct (iteration_guarded env r Hs w c Hg) as [G1 S1].
  pose proof (iteration_steps env w c (gd_ok _ _ Hg)) as H1.
  destruct (iteration env w c) as [w1 c1]. simpl in *. destruct (IH w1 c1 G1) as [H2 S2].
  split; [by etrans|congruence].
Qed.

(** C30: a worker that passed its startup gate never collects what was
    stored before: once an iteration of the loop has checked the activation
    epoch without having to wait for an operator, every event stored when
    that iteration began keeps its text through any number of sweeps, under
    any clock readings, busy databases, shutdowns and operations of the rest
    of the program (other collectors apart). *)
Theorem startup_spares_history env envs w c w1 c1 (r : EventRow) :
  content_ok sha256 c -> r ∈ event_rows c -> collected_before c (ev_event_id r) = None ->
  wk_startup_checked w = false -> iteration env w c = (w1, c1) ->
  wk_startup_checked w1 = true -> ws_awaiting w1 = false ->
  Forall sole_collector (env :: envs) ->
  let c2 := (worker_run envs (w1, c1)).2 in
  collected_before c2 (ev_event_id r) = None /\
  bodies_of_event c2 (ev_event_id r) = bodies_of_event c (ev_event_id r).
Proof.
  intros Hok Hr Hn Hw Hit Hw1 Ha1 [Hs Hse]%Forall_cons c2.
  pose proof (iteration_steps env w c Hok) as H1. rewrite Hit in H1. simpl in H1.
  assert (guarded r c1 /\ collected_before c1 (ev_event_id r) = None) as [G1 S1].
  { revert Hit. unfold loop_iteration, CollectionWorker.sweep. destruct (negb (ws_enabled w) || ws_restricted w || ws_abandoned w); [intros [= <- <-]; congruence|].
    pose proof (ensure_startup env w c Hok Hw) as Hst. pose proof (ensure_steps env w c Hok) as Hes.
    pose proof (ensure_log env w c Hs Hok) as Hlog.
    destruct (ensure env w c) as [[[[e|]|x] w'] c']; simpl in *.
    - intros Hit. assert (guarded r c') as G.
      { split; [by eapply content_steps_ok|by eapply event_row_steps|by apply Hst]. }
      pose proof (sweep_epoch_guarded env r Hs e w' c' G) as S'.
      pose proof (sweep_epoch_steps env e w' c' (gd_ok _ _ G)) as Hss.
      assert (c1 = (sweep_epoch env e w' c').2) as ->
        by (destruct (sweep_epoch env e w' c') as [[[[]|[|]] ?] ?]; by injection Hit as _ <-).
      split; [by eapply guarded_steps|]. rewrite S'. unfold collected_before in *. by rewrite Hlog.
    - intros [= <- <-]. congruence.
    - subst w'. destruct x; intros [= <- <-]; simpl in Hw1; congruence. }
  destruct (run_guarded r envs w1 c1 Hse G1) as [H2 S2]. fold c2 in H2, S2.
  assert (collected_before c2 (ev_event_id r) = None) as Hn2 by congruence.
  split; [done|]. apply text_kept; [done| |by etrans|done].
  unfold in_events. rewrite <- (ok_events _ _ Hok).
  by apply (list_elem_of_fmap_2 (fun w : EventRow => ev_event_id w)).
Qed.
End safety.
