(* ===== verification/CollectionProgress.v ===== *)
(** * Progress of the content collection worker

    The backoff bounds, and the theorem that on a quiet database one cycle of
    sweeps collects every event that nothing retains. *)

From S2P Require Import Prelude.
From S2P Require Import Json.
From S2P Require Import Delivery.
From S2P Require Import Store.
From S2P Require Import Attachments.
From S2P Require Import Events.
From S2P Require Import ContentStore.
From S2P Require Import Ingress.
From S2P Require Import IngressProofs.
From S2P Require Import ContentGrants.
From S2P Require Import Retention.
From S2P Require Import ContentSteps.
From S2P Require Import ContentSafety.
From S2P Require Import RetentionSafety.
From S2P Require Import RetentionPaging.
From S2P Require Import CollectionWorker.
From S2P Require Import CollectionWorkerSafety.

Open Scope string_scope.
Open Scope list_scope.
Open Scope Z_scope.

(** ** Bounds *)

(** A validated policy gives a backoff that never spins and never
    outlasts the activation epoch: after any number of consecutive transient
    failures it is between two and ten intervals, and one more interval still
    fits in the epoch's grace period. *)
Theorem transient_backoff_bounds p q n :
  ContentRetentionPolicy_post_init p = Ok q -> 1 <= n ->
  let i := rp_interval_seconds q in
  2 * i <= backoff_seconds q n <= 10 * i /\
  backoff_seconds q n + i <= retention_epoch_grace_seconds i.
Proof.
  unfold ContentRetentionPolicy_post_init. do 4 (case_match; [done|]). intros [= <-] Hn. set (i := rp_interval_seconds p).
  assert (1 <= i) as Hi.
  { breflect. unfold RETENTION_INTERVAL_MIN in *. unfold i. lia. }
  assert (2 * i <= i * 2 ^ n) as Hp.
  { replace n with (1 + (n - 1)) by lia. rewrite Z.pow_add_r by lia.
    pose proof (Z.pow_pos_nonneg 2 (n - 1)). nia. }
  unfold backoff_seconds, epoch_staleness_threshold, retention_epoch_grace_seconds,
    TRANSIENT_BACKOFF_CAP_MULTIPLIER. fold i. lia.
Qed.

(** ** What a collection leaves collectable *)

Section progress.
Context (sha256 : string -> string) (json_loads : string -> option json).
Context (policy : ContentRetentionPolicy) (elsewhere : string -> elsewhere_probe).

Abbreviation content_steps := (rtc (content_step sha256)).

Lemma raised_flags_none (l : list (string * bool)) :
  Forall (fun np => np.2 = false) l ->
  omap (fun np : string * bool => if np.2 then Some np.1 else None) l = [].
Proof. induction 1 as [|[n b] l H Hl IH]; [done|]. simpl in *. by subst b. Qed.

Lemma incoming_collected c id id' record :
  incoming_relation_excerpts c id = false ->
  incoming_relation_excerpts (collected id' record c) id = false.
Proof.
  unfold incoming_relation_excerpts. rewrite <- !not_true_iff_false, !existsb_exists. simpl.
  intros H (x & Hx & Hr). apply H. exists x. split; [|done].
  rewrite <- list_elem_of_In in *. by apply list_elem_of_filter in Hx as [_ Hx].
Qed.

Lemma log_collected_ne c id record :
  cl_event_id record <> id ->
  collected_before (collected (cl_event_id record) record c) id = collected_before c id.
Proof. intros Hne. unfold collected_before. simpl. apply find_app_other. by apply bool_decide_eq_false. Qed.

Lemma inconsistent_collected c id record :
  content_ok sha256 c -> cl_event_id record <> id ->
  inconsistent_admission_identity (collected (cl_event_id record) record c) id =
  inconsistent_admission_identity c id.
Proof.
  intros Hok Hne. unfold inconsistent_admission_identity.
  rewrite log_collected_ne, (bodies_collected_ne sha256), (excerpts_collected_ne sha256) by done. done.
Qed.

Lemma release_blockers_collected c id record :
  content_ok sha256 c -> cl_event_id record <> id -> release_blockers elsewhere c id = [] ->
  release_blockers elsewhere (collected (cl_event_id record) record c) id = [].
Proof.
  intros Hok Hne H. apply raised_flags_nil in H. apply raised_flags_none.
  rewrite !Forall_cons in *. simpl in *.
  rewrite inconsistent_collected by done.
  assert (incoming_relation_excerpts (collected (cl_event_id record) record c) id = false)
    by (apply incoming_collected; tauto).
  tauto.
Qed.

(** The event was collected, or nothing retains it. *)
Definition collectable (c : cdb) (id : string) : Prop :=
  collected_before c id <> None \/
  (release_blockers elsewhere c id = [] /\ candidate_rows c id <> 0).

Lemma collected_stays c c' id : content_steps c c' -> collected_before c id <> None -> collected_before c' id <> None.
Proof.
  intros Hs. rewrite !collected_before_None.
  destruct (ce_collected _ _ (content_steps_evolves _ _ _ Hs)) as [k ->]. rewrite fmap_app. set_solver.
Qed.

Lemma collectable_collected c id record :
  content_ok sha256 c -> collectable c id -> collectable (collected (cl_event_id record) record c) id.
Proof.
  intros Hok Hc. destruct (decide (cl_event_id record = id)) as [E|E].
  - left. rewrite collected_before_None. simpl. rewrite fmap_app. set_solver.
  - destruct Hc as [H|[Hb Hr]]; [left; by rewrite log_collected_ne|right].
    split; [by apply release_blockers_collected|]. unfold candidate_rows in *.
    by rewrite (bodies_collected_ne sha256), (excerpts_collected_ne (strict := true) sha256).
Qed.

(** ** A quiet pass over a page *)

(** Every stored event can be assessed. *)
Record tidy (c : cdb) : Prop := {
  ti_ok : content_ok sha256 c;
  ti_ids : forall r : EventRow, r ∈ event_rows c -> truthy (ev_event_id r) = true;
  ti_bodies : forall r : EventRow, r ∈ event_rows c -> malformed_body c (ev_event_id r) = false
}.

Lemma tidy_collected c record :
  event_exists c (cl_event_id record) = true -> collected_before c (cl_event_id record) = None ->
  tidy c -> tidy (collected (cl_event_id record) record c).
Proof.
  intros He Hn [Hok Hi Hb]. split; [by apply content_ok_collected|done|].
  intros r Hr. specialize (Hb r Hr). unfold malformed_body in *. simpl.
  destruct (decide (cl_event_id record = ev_event_id r)) as [E|E].
  - rewrite <- E, bodies_collected by done. by repeat case_match.
  - by rewrite (bodies_collected_ne sha256).
Qed.

(** The latest epoch has number [n] and boundary [wm]. *)
Definition epoch_at (n : Z) (wm : option instant) (c : cdb) : Prop :=
  exists e, latest_retention_epoch c = Some e /\ ep_epoch e = n /\ ep_watermark e = wm.

(** What an examined candidate turns into: decided, and collected when
    nothing retained it. *)
Lemma collect_decides n wm now c (r : EventRow) :
  1 <= n -> tidy c -> epoch_at n wm c -> r ∈ event_rows c ->
  match wm with None => True | Some t => t < ew_created_at r end ->
  exists x c', collect_event_content elsewhere (ev_event_id r) false (Some n) now c = (Ok x, c') /\
    tidy c' /\ epoch_at n wm c' /\ event_rows c' = event_rows c /\
    retention_epochs c' = retention_epochs c /\
    (forall id, collectable c id -> collectable c' id) /\
    (collectable c (ev_event_id r) -> collected_before c' (ev_event_id r) <> None).
Proof.
  intros Hn Ht (e & He & Hen & Hew) Hr Hwm. pose proof (ti_ok _ Ht) as Hok.
  assert (event_exists c (ev_event_id r) = true) as Hex.
  { apply event_exists_true. unfold in_events. rewrite <- (ok_events _ _ Hok).
    by apply (list_elem_of_fmap_2 (fun w : EventRow => ev_event_id w)). }
  assert (epoch_authorizes c (ev_event_id r) n = true) as Ha.
  { unfold epoch_authorizes. rewrite He, (find_event_kept sha256 c c r Hok) by done.
    rewrite Hen, Hew, Z.eqb_refl. simpl. destruct wm; [|done]. by apply Z.ltb_lt. }
  unfold collect_event_content. rewrite (proj2 (Z.ltb_ge n 1)), (ti_ids _ Ht r Hr), Ha by lia. cbn [negb].
  rewrite (read_collection_state_ok sha256) by (try done; by apply ti_bodies).
  destruct (bool_decide (collected_before c (ev_event_id r) <> None)) eqn:El.
  { apply bool_decide_eq_true in El. do 2 eexists. split; [done|]. by split_and!; try (by exists e). }
  apply bool_decide_eq_false in El.
  destruct (nonempty (release_blockers elsewhere c (ev_event_id r))) eqn:Eb.
  { do 2 eexists. split; [done|]. split_and!; try done; [by exists e|].
    intros [H|[H _]]; [done|]. by rewrite H in Eb. }
  destruct (candidate_rows c (ev_event_id r) =? 0) eqn:Er.
  { do 2 eexists. split; [done|]. split_and!; try done; [by exists e|].
    intros [H|[_ H]]; [done|]. apply Z.eqb_eq in Er. done. }
  set (rec := {| cl_event_id := ev_event_id r; cl_collected_at := now;
                 cl_rows_removed := _; cl_bytes_removed := _ |}).
  exists (collection_result SCollected (release_blockers elsewhere c (ev_event_id r))
            (candidate_rows c (ev_event_id r)) (candidate_bytes c (ev_event_id r))),
    (collected (cl_event_id rec) rec c). split; [done|]. split_and!.
  - apply tidy_collected; [done|by apply dec_stable|done].
  - by exists e.
  - done.
  - done.
  - intros id. by apply collectable_collected.
  - intros _. rewrite collected_before_None. simpl. rewrite fmap_app. set_solver.
Qed.

Abbreviation call := (call sha256 json_loads).
Abbreviation examine := (examine sha256 json_loads policy).
Abbreviation iteration := (loop_iteration sha256 json_loads policy).

(** Nobody else writes, SQLite is not busy and no shutdown is asked for. *)
Record quiet (env : surroundings) : Prop := {
  qu_busy : forall k, sr_busy env k = false;
  qu_others : forall k, sr_others env k = [];
  qu_shutdown : forall id, sr_shutdown env id = false;
  qu_elsewhere : sr_elsewhere env = elsewhere
}.

Lemma call_quiet {A} env k (f : cdb -> result exc A * cdb) c a c' :
  quiet env -> f c = (Ok a, c') -> call env k f c = (Ok a, c').
Proof. intros [Hb Ho _ _] Hf. unfold CollectionWorker.call. rewrite Ho, Hb. simpl. by rewrite Hf. Qed.

(** The fields the gates of a sweep look at, with the cursor. *)
Definition gates (w : Worker) : bool * bool * bool * bool * option (instant * string) * option Z :=
  (ws_enabled w, ws_restricted w, ws_abandoned w, wk_startup_checked w, wk_cursor w, wk_cursor_epoch w).

Lemma classify_gates id x now w : gates (classify_outcome id x now w) = gates w.
Proof. unfold classify_outcome. by destruct (co_status x). Qed.

Lemma examine_quiet env n wm rows refusals outcome w c :
  1 <= n -> quiet env -> tidy c -> epoch_at n wm c ->
  Forall (fun r : EventRow => r ∈ event_rows c /\
            match wm with None => True | Some t => t < ew_created_at r end) rows ->
  exists o w' c',
    examine env n ((fun r : EventRow => ev_event_id r) <$> rows) refusals outcome w c =
      (PageDone, o, w', c') /\
    gates w' = gates w /\ tidy c' /\ event_rows c' = event_rows c /\
    retention_epochs c' = retention_epochs c /\
    (forall id, collectable c id -> collectable c' id) /\
    Forall (fun r : EventRow => collectable c (ev_event_id r) ->
              collected_before c' (ev_event_id r) <> None) rows.
Proof.
  intros Hn Hq. revert refusals outcome w c.
  induction rows as [|r rows IH]; intros refusals outcome w c Ht He Hr.
  { exists outcome, w, c. split_and!; try done. }
  apply Forall_cons in Hr as [[Hin Hs] Hr]. cbn [fmap list_fmap CollectionWorker.examine].
  rewrite (qu_shutdown _ Hq), (qu_elsewhere _ Hq).
  destruct (collect_decides n wm (sr_clock env (CollectEvent (ev_event_id r))) c r Hn Ht He Hin Hs)
    as (x & c1 & Hx & T1 & E1 & R1 & P1 & K1 & D1).
  cbv zeta. rewrite (call_quiet _ _ _ _ _ _ Hq Hx).
  destruct (IH 0 (tally_status (co_status x) (tally_examined outcome))
    (classify_outcome (ev_event_id r) x (sr_clock env (CollectEvent (ev_event_id r)))
      (set_ws_tally w (tally_examined (ws_tally w)))) c1 T1 E1) as (o & w' & c' & H & G & T & R & P & K & D).
  { rewrite R1. exact Hr. }
  pose proof (examine_steps sha256 json_loads policy env n ((fun r : EventRow => ev_event_id r) <$> rows) 0
    (tally_status (co_status x) (tally_examined outcome))
    (classify_outcome (ev_event_id r) x (sr_clock env (CollectEvent (ev_event_id r)))
      (set_ws_tally w (tally_examined (ws_tally w)))) c1 (ti_ok _ T1)) as Hst. rewrite H in Hst.
  exists o, w', c'. split_and!; try done; try congruence.
  - rewrite G, classify_gates. done.
  - auto.
  - constructor.
    + intros Hc. eapply collected_stays; [exact Hst|auto].
    + eapply Forall_impl; [exact D|]. simpl. auto.
Qed.

(** ** A quiet iteration *)

Definition ready (w : Worker) : Prop :=
  ws_enabled w = true /\ ws_restricted w = false /\ ws_abandoned w = false /\ wk_startup_checked w = true.

(** The candidates the next sweep of epoch [n] starts from. *)
Definition remaining (n : Z) (wm : option instant) (w : Worker) (c : cdb) : list EventRow :=
  candidate_rows_after c (if bool_decide (wk_cursor_epoch w = Some n) then wk_cursor w else None) wm.

Definition cursor_ok (w : Worker) : Prop :=
  match wk_cursor w with Some k => truthy k.2 = true | None => True end.

Definition observed (e : RetentionEpoch) : instant := default (ep_activated_at e) (ep_last_observed e).

Lemma not_stale e now :
  observed e <= now -> now - observed e <= epoch_staleness_threshold policy * SECOND ->
  epoch_is_stale policy e now = false.
Proof.
  intros H1 H2. unfold epoch_is_stale, retention_epoch_observation_age. fold (observed e). cbv zeta.
  rewrite (proj2 (Z.leb_le _ _)) by lia. apply Z.ltb_ge. lia.
Qed.

(** The database after the heartbeat of the latest epoch. *)
Lemma heartbeat_latest c e now :
  content_ok sha256 c -> latest_retention_epoch c = Some e -> observed e <= now ->
  exists c', observe_retention_heartbeat (ep_epoch e) now c = (Ok tt, c') /\ content_steps c c' /\
    c' = set_retention_epochs c (retention_epochs c') /\
    exists e', latest_retention_epoch c' = Some e' /\ ep_epoch e' = ep_epoch e /\
      ep_watermark e' = ep_watermark e /\ observed e' = now.
Proof.
  intros Hok He Ho. pose proof (heartbeat_steps sha256 (ep_epoch e) now c) as Hs. revert Hs.
  assert (1 <= ep_epoch e) as H1.
  { assert (ep_epoch e ∈ ep_epoch <$> retention_epochs c) as Hin.
    { apply list_elem_of_fmap_2. unfold latest_retention_epoch in He. by apply last_Some_elem_of. }
    rewrite (ok_epochs _ _ Hok) in Hin. apply elem_of_seqZ in Hin. lia. }
  unfold observe_retention_heartbeat. rewrite (proj2 (Z.ltb_ge _ _)), He, Z.eqb_refl by lia. simpl. intros Hs.
  eexists. split; [done|]. split; [exact Hs|]. split; [by destruct c|]. simpl.
  unfold latest_retention_epoch in *. simpl. rewrite fmap_last, He. simpl. rewrite Z.eqb_refl. simpl.
  eexists. split; [done|]. unfold observed in *. destruct (ep_last_observed e) as [t|] eqn:El; simpl in *.
  - destruct (t <? now) eqn:Et; simpl; [done|]. rewrite El. simpl. split_and!; try done.
    apply Z.ltb_ge in Et. lia.
  - done.
Qed.

(** A heartbeat changes nothing the collector looks at. *)
Lemma collectable_epochs c es id : collectable c id -> collectable (set_retention_epochs c es) id.
Proof.
  assert (release_blockers elsewhere (set_retention_epochs c es) id = release_blockers elsewhere c id) as E
    by (unfold release_blockers; by destruct c).
  unfold collectable. rewrite E. done.
Qed.

Lemma tidy_epochs c es : content_ok sha256 (set_retention_epochs c es) -> tidy c -> tidy (set_retention_epochs c es).
Proof. intros Hok [_ Hi Hb]. by split. Qed.

(** Between sweeps: the worker is ready and the latest epoch, number [n] with
    boundary [wm], was last observed at [t]. *)
Record between (n : Z) (wm : option instant) (t : instant) (w : Worker) (c : cdb) : Prop := {
  bt_ready : ready w;
  bt_cursor : cursor_ok w;
  bt_tidy : tidy c;
  bt_epoch : exists e, latest_retention_epoch c = Some e /\ ep_epoch e = n /\ ep_watermark e = wm /\
    observed e = t
}.

Lemma ensure_quiet env w c e :
  quiet env -> ready w -> latest_retention_epoch c = Some e ->
  observed e <= sr_now env -> sr_now env - observed e <= epoch_staleness_threshold policy * SECOND ->
  exists w', ensure_activation_epoch sha256 json_loads policy env w c = (Ok (Some e), w', c) /\
    gates w' = gates w.
Proof.
  intros Hq (_ & _ & _ & Hw) He H1 H2. unfold ensure_activation_epoch. cbv zeta.
  rewrite (call_quiet env LatestEpoch (fun c => (Ok (latest_retention_epoch c), c)) c (Some e) c Hq)
    by (by rewrite He).
  rewrite Hw, not_stale by done. by eexists.
Qed.

Context (batch_ok : RETENTION_BATCH_MIN <= rp_batch_limit policy <= RETENTION_BATCH_MAX).

(** The page and the candidates of a quiet sweep. *)
Lemma sweep_epoch_quiet env w c e :
  quiet env -> tidy c -> latest_retention_epoch c = Some e -> observed e <= sr_now env ->
  cursor_ok w ->
  let n := ep_epoch e in
  let wm := ep_watermark e in
  let rows := remaining n wm w c in
  let limit := rp_batch_limit policy in
  exists w' c', sweep_epoch sha256 json_loads policy env e w c = (Ok tt, w', c') /\
    (gates w').1.1 = (gates w).1.1 /\ wk_cursor_epoch w' = Some n /\
    wk_cursor w' = (if limit <? Z.of_nat (length rows)
                    then admission_key <$> last (take (Z.to_nat limit) rows) else None) /\
    tidy c' /\ event_rows c' = event_rows c /\
    (exists e', latest_retention_epoch c' = Some e' /\ ep_epoch e' = n /\ ep_watermark e' = wm /\
       observed e' = sr_now env) /\
    (forall id, collectable c id -> collectable c' id) /\
    Forall (fun r : EventRow => collectable c (ev_event_id r) ->
              collected_before c' (ev_event_id r) <> None) (take (Z.to_nat limit) rows).
Proof.
  intros Hq Ht He Ho Hcur n wm rows limit. unfold sweep_epoch. cbv zeta.
  destruct (heartbeat_latest c e (sr_now env) (ti_ok _ Ht) He Ho) as (c1 & Hh & Hs & Hc1 & e1 & He1 & Hn1 & Hw1 & Ho1).
  rewrite (call_quiet _ _ _ _ _ _ Hq Hh). fold n wm limit.
  set (w1 := if bool_decide (wk_cursor_epoch w = Some n) then w
             else set_wk_cursor_epoch (set_wk_cursor w None) (Some n)).
  assert ((gates w1).1.1 = (gates w).1.1 /\ wk_cursor_epoch w1 = Some n /\ cursor_ok w1 /\
    remaining n wm w c = candidate_rows_after c (wk_cursor w1) wm) as (G1 & E1 & K1 & R1).
  { unfold w1, remaining. destruct (bool_decide (wk_cursor_epoch w = Some n)) eqn:E; [|done].
    by apply bool_decide_eq_true in E. }
  assert (tidy c1) as T1.
  { rewrite Hc1. apply tidy_epochs; [|done]. rewrite <- Hc1. by eapply content_steps_ok; [|apply Ht]. }
  assert (event_rows c1 = event_rows c) as X1 by (by rewrite Hc1).
  assert (forall after, candidate_rows_after c1 after wm = candidate_rows_after c after wm) as Y1
    by (intros; unfold candidate_rows_after; by rewrite X1).
  assert (NoDup ((fun w : EventRow => ev_event_id w) <$> event_rows c1)) as Hu
    by (rewrite (ok_events _ _ (ti_ok _ T1)); apply (ok_unique _ _ (ti_ok _ T1))).
  erewrite (call_quiet env CandidatesPage
    (fun c => (page_collection_candidates c (wk_cursor w1) limit wm, c)) c1 _ c1 Hq)
    by (by rewrite (page_candidates_Ok c1 Hu (wk_cursor w1) limit wm batch_ok K1)).
  rewrite Y1, <- R1. fold rows. cbn [cp_event_ids cp_has_more cp_next_after].
  destruct (examine_quiet env n wm (take (Z.to_nat limit) rows) 0 no_tally w1 c1) as
    (o & w2 & c2 & Hx & G2 & T2 & X2 & P2 & C2 & D2); [|done..| | |].
  - assert (ep_epoch e1 ∈ ep_epoch <$> retention_epochs c1) as Hin.
    { apply list_elem_of_fmap_2. by apply last_Some_elem_of. }
    rewrite (ok_epochs _ _ (ti_ok _ T1)) in Hin. apply elem_of_seqZ in Hin. lia.
  - exists e1. done.
  - apply Forall_take, Forall_forall. intros r Hr. unfold rows in Hr. rewrite R1 in Hr.
    apply candidate_sorted_elem in Hr as [Hr Hc]. rewrite X1. split; [done|].
    apply (candidate_where_scope _ _ _ Hc).
  - rewrite Hx. do 2 eexists. split; [done|]. simpl. split_and!.
    + transitivity ((gates w2).1.1); [done|]. by rewrite G2.
    + injection G2 as _ _ _ _ _ G. simpl. by rewrite G.
    + done.
    + done.
    + congruence.
    + exists e1. unfold latest_retention_epoch in *. by rewrite P2.
    + intros id Hc. apply C2. rewrite Hc1. by apply collectable_epochs.
    + eapply Forall_impl; [exact D2|]. intros r H Hc. apply H. rewrite Hc1. by apply collectable_epochs.
Qed.

Lemma iteration_quiet env n wm t w c :
  quiet env -> between n wm t w c -> t <= sr_now env ->
  sr_now env - t <= epoch_staleness_threshold policy * SECOND ->
  let rows := remaining n wm w c in
  let limit := rp_batch_limit policy in
  exists w' c', iteration env w c = (w', c') /\ between n wm (sr_now env) w' c' /\
    (forall id, collectable c id -> collectable c' id) /\
    Forall (fun r : EventRow => collectable c (ev_event_id r) ->
              collected_before c' (ev_event_id r) <> None) (take (Z.to_nat limit) rows) /\
    (limit < Z.of_nat (length rows) -> remaining n wm w' c' = drop (Z.to_nat limit) rows).
Proof.
  intros Hq [Hr Hk Ht (e & He & Hen & Hew & Heo)] H1 H2 rows limit. rewrite <- Heo in H1, H2.
  destruct (ensure_quiet env w c e Hq Hr He H1 H2) as (w1 & Hen1 & G1).
  injection G1 as G1a G1b G1c G1d G1e G1f.
  assert (cursor_ok w1) as Hk1 by (unfold cursor_ok; by rewrite G1e).
  assert (remaining (ep_epoch e) (ep_watermark e) w1 c = rows) as Hrows
    by (unfold rows, remaining; by rewrite G1e, G1f, Hen, Hew).
  destruct (sweep_epoch_quiet env w1 c e Hq Ht He H1 Hk1) as
    (w' & c' & Hsw & G & E & K & T & X & L & C & D). rewrite Hrows, ?Hen, ?Hew in *. fold limit in K, D.
  destruct Hr as (R1 & R2 & R3 & R4). injection G as Ga Gb Gc Gd.
  assert (limit < Z.of_nat (length rows) -> exists v, v ∈ event_rows c /\
    wk_cursor w' = Some (admission_key v) /\
    candidate_rows_after c (Some (admission_key v)) wm = drop (Z.to_nat limit) rows) as Hnext.
  { intros Hlt. destruct (page_next c) with (after := if bool_decide (wk_cursor_epoch w = Some n)
      then wk_cursor w else None) (limit := limit) (wm := wm) as (v & Hv & Hin & Hd).
    - rewrite (ok_events _ _ (ti_ok _ Ht)). apply (ok_unique _ _ (ti_ok _ Ht)).
    - unfold limit. unfold RETENTION_BATCH_MIN in batch_ok. lia.
    - exact Hlt.
    - exists v. split; [done|]. split; [|exact Hd]. rewrite K, (proj2 (Z.ltb_lt _ _) Hlt).
      unfold rows, remaining. by rewrite Hv. }
  exists w', c'. split_and!.
  - unfold loop_iteration, sweep. rewrite R1, R2, R3. simpl. by rewrite Hen1, Hsw.
  - split; [split_and!; congruence| |done|done].
    unfold cursor_ok. destruct (Z.ltb_spec limit (Z.of_nat (length rows))) as [Hlt|Hge].
    + destruct (Hnext Hlt) as (v & Hv & -> & _). by apply (ti_ids _ Ht).
    + by rewrite K.
  - done.
  - done.
  - intros Hlt. destruct (Hnext Hlt) as (v & Hv & Hc & Hd). unfold remaining.
    rewrite E, bool_decide_eq_true_2, Hc by done. rewrite <- Hd.
    unfold candidate_rows_after. by rewrite X.
Qed.

(** The clock between sweeps moves forward, by at most the grace period. *)
Fixpoint ticking (t : instant) (envs : list surroundings) : Prop :=
  match envs with
  | [] => True
  | env :: envs => t <= sr_now env /\
      sr_now env - t <= epoch_staleness_threshold policy * SECOND /\ ticking (sr_now env) envs
  end.

Abbreviation worker_run := (worker_run sha256 json_loads policy).

Lemma worker_run_steps envs w c : content_ok sha256 c -> content_steps c (worker_run envs (w, c)).2.
Proof.
  revert w c. induction envs as [|env envs IH]; intros w c Hok; [done|]. simpl.
  pose proof (iteration_steps sha256 json_loads policy env w c Hok) as H.
  destruct (iteration env w c) as [w1 c1]. simpl in *. etrans; [exact H|]. apply IH.
  by eapply content_steps_ok.
Qed.

Lemma cycle_collects envs n wm t w c :
  Forall quiet envs -> ticking t envs -> between n wm t w c ->
  Z.of_nat (length (remaining n wm w c)) <= rp_batch_limit policy * Z.of_nat (length envs) ->
  Forall (fun r : EventRow => collectable c (ev_event_id r) ->
            collected_before (worker_run envs (w, c)).2 (ev_event_id r) <> None) (remaining n wm w c).
Proof.
  intros Hq. revert t w c. induction Hq as [|env envs He Hq IH]; intros t w c Htick Hb Hlen.
  { simpl in Hlen. rewrite Z.mul_0_r in Hlen. destruct (remaining n wm w c); [constructor|simpl in Hlen; lia]. }
  destruct Htick as (T1 & T2 & T3).
  destruct (iteration_quiet env n wm t w c He Hb T1 T2) as (w1 & c1 & Hit & B1 & C1 & D1 & N1).
  simpl. rewrite Hit. set (rows := remaining n wm w c) in *. set (limit := rp_batch_limit policy) in *.
  pose proof (worker_run_steps envs w1 c1 (ti_ok _ (bt_tidy _ _ _ _ _ B1))) as Hrest.
  rewrite <- (take_drop (Z.to_nat limit) rows). apply Forall_app_2.
  - eapply Forall_impl; [exact D1|]. intros r H Hc. eapply collected_stays; [exact Hrest|auto].
  - destruct (Z.ltb_spec limit (Z.of_nat (length rows))) as [Hlt|Hge].
    + rewrite <- (N1 Hlt). eapply Forall_impl; [eapply IH; [exact T3|exact B1|]|].
      * rewrite (N1 Hlt), length_drop. simpl in Hlen. lia.
      * intros r H Hc. by apply H, C1.
    + rewrite drop_ge by lia. constructor.
Qed.

End progress.

(** ** Examples *)

Module CollectionExamples.
Import ContentExamples RetentionExamples.

Definition relay : ContentRetentionPolicy :=
  {| rp_version := 1; rp_mode := "relay-only"; rp_interval_seconds := 300; rp_batch_limit := 5 |}.

(** An undisturbed sweep at a time, and one just before which others act. *)
Definition with_others (now : instant) (ops : list content_op) : surroundings :=
  {| sr_now := now; sr_clock := fun _ => now; sr_busy := fun _ => false;
     sr_others := fun k => match k with LatestEpoch => ops | _ => [] end;
     sr_elsewhere := nothing_elsewhere; sr_shutdown := fun _ => false |}.
Definition calm (now : instant) : surroundings := with_others now [].

Lemma calm_quiet now : quiet nothing_elsewhere (calm now).
Proof. split; try done. by intros []. Qed.

Lemma transient_backoff_bounds_witness : 2 * 300 <= backoff_seconds relay 3 <= 10 * 300.
Proof. apply (transient_backoff_bounds relay relay 3); [reflexivity|lia]. Defined.

Definition fresh : Worker := start relay false (new_worker relay).

Definition started : Worker * cdb := loop_iteration digest loads relay (calm 100) fresh note_db.

Lemma others_sole now ops :
  Forall (fun op => not_collecting op = true) ops -> sole_collector (with_others now ops).
Proof. intros H [] *; try constructor. exact H. Qed.

Definition first_row : EventRow := event_row (note "e1" hello) 10.
Definition second_row : EventRow := event_row (note "e2" hello) 60.

(** The message that was there at startup stays, while later ones come and go. *)
Lemma startup_spares_history_witness :
  bodies_of_event (worker_run digest loads relay
    [with_others 200 (handled "e2" hello 150); calm 300] (started.1, started.2)).2 (ev_event_id first_row) =
  bodies_of_event note_db (ev_event_id first_row).
Proof.
  destruct (startup_spares_history digest loads relay (calm 100)
    [with_others 200 (handled "e2" hello 150); calm 300] fresh note_db started.1 started.2
    first_row) as [_ H].
  - exact note_db_ok.
  - replace (event_rows note_db) with [first_row] by (vm_compute; reflexivity).
    by apply list_elem_of_singleton.
  - vm_compute. reflexivity.
  - reflexivity.
  - unfold started. by destruct (loop_iteration _ _ _ _ _ _).
  - vm_compute. reflexivity.
  - vm_compute. reflexivity.
  - repeat apply Forall_cons_2; try apply Forall_nil_2; apply others_sole; repeat constructor.
  - exact H.
Defined.

Example startup_run_collects :
  cl_event_id <$> collection_log (worker_run digest loads relay
    [with_others 200 (handled "e2" hello 150); calm 300] started).2 = ["e2"].
Proof. vm_compute. reflexivity. Qed.

(** Two messages: one before the epoch, one after it. *)
Definition cycle_db : cdb := cexec digest loads (handled "e2" hello 60) epoch_db.

Lemma cycle_rows :
  event_rows cycle_db = [first_row; second_row].
Proof. vm_compute. reflexivity. Qed.

Lemma epoch_db_ok : content_ok digest epoch_db.
Proof. eapply content_steps_ok; [apply open_epoch_steps|exact note_db_ok]. Qed.

Lemma cycle_db_tidy : tidy digest cycle_db.
Proof.
  split.
  - apply cexec_ok, epoch_db_ok.
  - rewrite cycle_rows. by intros r [->|[->|[]%not_elem_of_nil]%elem_of_cons]%elem_of_cons.
  - rewrite cycle_rows. intros r [->|[->|[]%not_elem_of_nil]%elem_of_cons]%elem_of_cons; vm_compute; reflexivity.
Qed.


(** *** Three corrupt-looking events stop collection *)

Definition odd_db : cdb :=
  cexec digest loads (handled "e2" odd 60 ++ handled "e3" odd 70 ++ handled "e4" odd 80 ++
                      handled "e5" hello 90) epoch_db.

(** Three messages whose "body" is not text restrict the worker for good, and
    the collectable message behind them is never reached. *)
Example malformed_bodies_restrict :
  let w := (worker_run digest loads relay [calm 1000; calm 2000]
              (set_wk_startup_checked fresh true, odd_db)).1 in
  (ws_restricted w, ta_failed (ws_tally w), ta_collected (ws_tally w),
   wk_startup_checked (start relay false w)) = (true, 3, 0, true).
Proof. vm_compute. reflexivity. Qed.

(** *** A heartbeat from the future *)

(** A previous process activated retention and observed it at 10000 s; a
    message was admitted after that process ended. *)
Definition gap_db : cdb :=
  cexec digest loads ([COpenEpoch "runtime-first-start" 50; CHeartbeat 1 (10000 * SECOND)] ++
                      handled "e2" hello (20000 * SECOND)) empty_cdb.

(** A worker started while the clock is behind that observation waits for an
    operator, but goes on under the old epoch, and collects that message, as
    soon as the clock has caught up. *)
Example future_heartbeat_resumes :
  let after envs := worker_run digest loads relay envs (fresh, gap_db) in
  ws_awaiting (after [calm 100]).1 = true /\
  length (retention_epochs (after [calm 100; calm (10000 * SECOND)]).2) = 1%nat /\
  (cl_event_id <$> collection_log (after [calm 100; calm (10000 * SECOND)]).2) = ["e2"].
Proof. vm_compute. split; [reflexivity|split; reflexivity]. Qed.

End CollectionExamples.
