(* ===== verification/Capability.v ===== *)
(** * Capability decisions

    [src/src/medre/core/planning/capability_decision.py] and
    [capabilities.py], with [AdapterCapabilities] of
    [core/contracts/adapter.py]: which capability field an event's kind and
    relations demand, the level the adapter declares for it, and the strictest
    of the demands as the delivery decision.

    Nothing checks an adapter's declaration when it is constructed, so the
    fields hold JSON values: [JNull], a boolean, a string or anything else. *)

From S2P Require Import Prelude.
From S2P Require Import Json.
From S2P Require Import Router.
From S2P Require Import Delivery.
From S2P Require Import Events.

Open Scope string_scope.
Open Scope list_scope.
Open Scope Z_scope.

(** ** [repr] of a string

    Characters are code points below 256; of those, [str.isprintable] refuses
    the controls, DEL to NBSP and the soft hyphen. *)

Definition hex_digit (n : N) : Ascii.ascii :=
  Ascii.ascii_of_N (if (n <? 10)%N then 48 + n else 87 + n)%N.

Definition hex2 (c : Ascii.ascii) : string :=
  let n := Ascii.N_of_ascii c in
  String (hex_digit (n / 16)) (String (hex_digit (n mod 16)) "").

Definition quote_char : Ascii.ascii := Ascii.ascii_of_nat 34.
Definition apostrophe : Ascii.ascii := Ascii.ascii_of_nat 39.
Definition backslash : Ascii.ascii := Ascii.ascii_of_nat 92.

Definition printable (c : Ascii.ascii) : bool :=
  let n := Ascii.N_of_ascii c in
  ((32 <=? n)%N && (n <? 127)%N) || ((161 <=? n)%N && negb (n =? 173)%N).

Definition repr_char (q c : Ascii.ascii) : string :=
  let n := Ascii.N_of_ascii c in
  if bool_decide (c = q) || bool_decide (c = backslash) then String backslash (String c "")
  else if (n =? 10)%N then String backslash "n"
  else if (n =? 13)%N then String backslash "r"
  else if (n =? 9)%N then String backslash "t"
  else if printable c then String c ""
  else String backslash ("x" +:+ hex2 c).

Fixpoint concat_map (f : Ascii.ascii -> string) (s : string) : string :=
  match s with
  | EmptyString => ""
  | String c s' => f c +:+ concat_map f s'
  end.

Fixpoint has_char (c : Ascii.ascii) (s : string) : bool :=
  match s with
  | EmptyString => false
  | String d s' => bool_decide (c = d) || has_char c s'
  end.

Definition py_repr (s : string) : string :=
  let q := if has_char apostrophe s && negb (has_char quote_char s) then quote_char else apostrophe in
  String q (concat_map (repr_char q) s +:+ String q "").

Example repr_kind : py_repr "a'b" = String quote_char ("a'b" +:+ String quote_char "").
Proof. reflexivity. Qed.

(** ** Declared capabilities *)

Record AdapterCapabilities : Type := {
  cap_text : json;
  cap_title : json;
  cap_replies : json;
  cap_reactions : json;
  cap_edits : json;
  cap_deletes : json;
  cap_attachments : json;
  cap_metadata_fields : json;
  cap_store_and_forward : json;
  cap_direct_messages : json;
  cap_channels : json;
  cap_identity_encryption : json;
  cap_presence : json;
  cap_topic_rooms : json;
  cap_mesh_routing : json;
  cap_priority_delivery : json;
  cap_max_text_bytes : json;
  cap_max_text_chars : json;
  cap_threads : json;
  cap_typing : json
}.

(** The dataclass defaults. *)
Definition AdapterCapabilities_default : AdapterCapabilities :=
  {| cap_text := JBool true; cap_title := JBool false; cap_replies := JStr "native";
     cap_reactions := JStr "native"; cap_edits := JStr "native"; cap_deletes := JStr "native";
     cap_attachments := JBool false; cap_metadata_fields := JBool false;
     cap_store_and_forward := JBool false; cap_direct_messages := JBool true;
     cap_channels := JBool true; cap_identity_encryption := JBool false;
     cap_presence := JBool false; cap_topic_rooms := JBool false; cap_mesh_routing := JBool false;
     cap_priority_delivery := JBool false; cap_max_text_bytes := JNull;
     cap_max_text_chars := JNull; cap_threads := JStr "unsupported"; cap_typing := JBool false |}.

(** The instance dictionary [getattr] looks into. *)
Definition capability_attributes (caps : AdapterCapabilities) : list (string * json) :=
  [("text", cap_text caps); ("title", cap_title caps); ("replies", cap_replies caps);
   ("reactions", cap_reactions caps); ("edits", cap_edits caps); ("deletes", cap_deletes caps);
   ("attachments", cap_attachments caps); ("metadata_fields", cap_metadata_fields caps);
   ("store_and_forward", cap_store_and_forward caps);
   ("direct_messages", cap_direct_messages caps); ("channels", cap_channels caps);
   ("identity_encryption", cap_identity_encryption caps); ("presence", cap_presence caps);
   ("topic_rooms", cap_topic_rooms caps); ("mesh_routing", cap_mesh_routing caps);
   ("priority_delivery", cap_priority_delivery caps); ("max_text_bytes", cap_max_text_bytes caps);
   ("max_text_chars", cap_max_text_chars caps); ("threads", cap_threads caps);
   ("typing", cap_typing caps)].

(** ** Tables *)

Definition EVENT_KIND_FIELDS : list (string * string) :=
  [(MESSAGE_REACTED, "reactions"); (MESSAGE_EDITED, "edits"); (MESSAGE_DELETED, "deletes");
   (MESSAGE_FILE, "attachments"); (MESSAGE_CREATED, "text"); (MESSAGE_TEXT, "text");
   (PRESENCE_CHANGED, "presence"); (TELEMETRY_RECEIVED, "metadata_fields");
   (TELEMETRY_POSITION, "metadata_fields")].

Definition PASSTHROUGH_EVENT_KINDS : list string :=
  [IDENTITY_UPDATED; DELIVERY_QUEUED; DELIVERY_SENT; DELIVERY_FAILED; SYSTEM_AUDIT;
   SYSTEM_LIFECYCLE; PLUGIN_CUSTOM].

Definition BOOLEAN_FIELDS : list string := ["text"; "attachments"; "presence"; "metadata_fields"].
Definition STRING_FIELDS : list string := ["reactions"; "edits"; "deletes"; "replies"; "threads"].

Definition RELATION_FIELDS : list (string * string) :=
  [("reply", "replies"); ("thread", "threads"); ("reaction", "reactions"); ("edit", "edits");
   ("delete", "deletes")].

Definition SEVERITY : list (string * Z) := [("unsupported", 2); ("fallback", 1); ("native", 0)].

Definition STRATEGY_FOR_LEVEL : list (string * string) :=
  [("native", "direct"); ("fallback", "fallback_text"); ("unsupported", "skip")].

Definition severity (level : string) : Z := default 0 (od_get level SEVERITY).

(** ** One field *)

Record Candidate : Set := {
  cd_capability_level : string;
  cd_capability_field : string;
  cd_reason : option string
}.

Definition resolve_field_level (field_name : string) (caps : AdapterCapabilities)
    : result exc string :=
  match od_get field_name (capability_attributes caps) with
  | None => Raise (AttributeError field_name)
  | Some JNull => Ok "unsupported"
  | Some raw_value =>
      if elem field_name BOOLEAN_FIELDS then
        match raw_value with
        | JBool b => Ok (if b then "native" else "unsupported")
        | _ => Raise (ValueError "expected bool")
        end
      else if elem field_name STRING_FIELDS then
        match raw_value with
        | JStr s =>
            if bool_decide (s = "native") then Ok "native"
            else if bool_decide (s = "fallback") then Ok "fallback"
            else if bool_decide (s = "unsupported") then Ok "unsupported"
            else Raise (ValueError "expected one of 'native', 'fallback', 'unsupported'")
        | _ => Raise (ValueError "expected one of 'native', 'fallback', 'unsupported'")
        end
      else Raise (ValueError "not a recognised boolean or string capability field")
  end.

Definition make_event_kind_reason (level field_name event_kind : string) : option string :=
  if bool_decide (level = "native") then None
  else if bool_decide (level = "fallback")
  then Some (field_name +:+ " fallback for adapter (event_kind=" +:+ event_kind +:+ ")")
  else Some (field_name +:+ " unsupported by adapter (event_kind=" +:+ event_kind +:+ ")").

Definition make_relation_reason (level field_name relation_type : string) : option string :=
  if bool_decide (level = "native") then None
  else if bool_decide (level = "fallback")
  then Some (field_name +:+ " fallback for adapter (event has " +:+ relation_type +:+ " relation)")
  else Some (field_name +:+ " unsupported by adapter (event has " +:+ relation_type +:+ " relation)").

(** ** The decision *)

Record CapabilityDecision : Set := {
  dc_target_adapter : option string;
  dc_event_kind : string;
  dc_capability_level : string;
  dc_delivery_strategy : string;
  dc_supported : bool;
  dc_capability_field : option string;
  dc_reason : option string
}.

Definition event_kind_candidates (kind : string) (caps : AdapterCapabilities)
    : result exc (list Candidate) :=
  match od_get kind EVENT_KIND_FIELDS with
  | Some ek_field =>
      level ← resolve_field_level ek_field caps;
      Ok [{| cd_capability_level := level; cd_capability_field := ek_field;
             cd_reason := make_event_kind_reason level ek_field kind |}]
  | None =>
      if elem kind PASSTHROUGH_EVENT_KINDS then Ok []
      else Ok [{| cd_capability_level := "unsupported"; cd_capability_field := "event_kind";
                  cd_reason := Some ("unsupported event kind " +:+ py_repr kind) |}]
  end.

Definition relation_candidate (caps : AdapterCapabilities) (rel : EventRelation)
    : result exc Candidate :=
  match od_get (rl_type rel) RELATION_FIELDS with
  | None => Ok {| cd_capability_level := "unsupported"; cd_capability_field := "relation";
                  cd_reason := Some ("unsupported relation type " +:+ py_repr (rl_type rel)) |}
  | Some rel_field =>
      level ← resolve_field_level rel_field caps;
      Ok {| cd_capability_level := level; cd_capability_field := rel_field;
            cd_reason := make_relation_reason level rel_field (rl_type rel) |}
  end.

Fixpoint relation_candidates (caps : AdapterCapabilities) (rels : list EventRelation)
    : result exc (list Candidate) :=
  match rels with
  | [] => Ok []
  | rel :: rels' =>
      c ← relation_candidate caps rel; cs ← relation_candidates caps rels'; Ok (c :: cs)
  end.

Definition candidates (event : CanonicalEvent) (caps : AdapterCapabilities)
    : result exc (list Candidate) :=
  ks ← event_kind_candidates (ev_event_kind event) caps;
  rs ← relation_candidates caps (ev_relations event);
  Ok (ks ++ rs).

(** The selection loop: a later candidate wins only when strictly more severe. *)
Fixpoint pick_winner (winner : Candidate) (rest : list Candidate) : Candidate :=
  match rest with
  | [] => winner
  | c :: rest' =>
      pick_winner (if severity (cd_capability_level winner) <? severity (cd_capability_level c)
                   then c else winner) rest'
  end.

Definition decide_capability (event : CanonicalEvent) (caps : AdapterCapabilities)
    (target_adapter : option string) : result exc CapabilityDecision :=
  cs ← candidates event caps;
  match cs with
  | [] => Ok {| dc_target_adapter := target_adapter; dc_event_kind := ev_event_kind event;
                dc_capability_level := "native"; dc_delivery_strategy := "direct";
                dc_supported := true; dc_capability_field := None; dc_reason := None |}
  | c :: rest =>
      let winner := pick_winner c rest in
      let level := cd_capability_level winner in
      Ok {| dc_target_adapter := target_adapter; dc_event_kind := ev_event_kind event;
            dc_capability_level := level;
            dc_delivery_strategy := default "direct" (od_get level STRATEGY_FOR_LEVEL);
            dc_supported := negb (bool_decide (level = "unsupported"));
            dc_capability_field := Some (cd_capability_field winner);
            dc_reason := cd_reason winner |}
  end.

(** [capabilities.capability_unsupported]. *)
Definition capability_unsupported (event : CanonicalEvent) (caps : AdapterCapabilities)
    : result exc (option string) :=
  decision ← decide_capability event caps None;
  Ok (if dc_supported decision then None else dc_reason decision).

(** [capabilities.resolve_adapter_capabilities]: a registered adapter is seen
    through its [_capabilities] attribute, absent or of another type being
    [None]. *)
Definition resolve_adapter_capabilities (adapters : list (string * option AdapterCapabilities))
    (target : RouteTarget) : option AdapterCapabilities :=
  match rt_adapter target with
  | None => None
  | Some adapter_id =>
      match od_get adapter_id adapters with
      | None => None
      | Some (Some caps) => Some caps
      | Some None => Some AdapterCapabilities_default
      end
  end.

(** ** What an event demands of an adapter *)

(** [demand event caps level field]: the event's kind or one of its relations
    needs [field], which the adapter declares at [level]; kinds and relation
    types outside the tables need what no adapter has. *)
Inductive demand (event : CanonicalEvent) (caps : AdapterCapabilities) : string -> string -> Prop :=
| demand_kind field level :
    od_get (ev_event_kind event) EVENT_KIND_FIELDS = Some field ->
    resolve_field_level field caps = Ok level -> demand event caps level field
| demand_unknown_kind :
    ev_event_kind event ∉ od_keys EVENT_KIND_FIELDS ->
    ev_event_kind event ∉ PASSTHROUGH_EVENT_KINDS -> demand event caps "unsupported" "event_kind"
| demand_relation rel field level :
    rel ∈ ev_relations event -> od_get (rl_type rel) RELATION_FIELDS = Some field ->
    resolve_field_level field caps = Ok level -> demand event caps level field
| demand_unknown_relation rel :
    rel ∈ ev_relations event -> rl_type rel ∉ od_keys RELATION_FIELDS ->
    demand event caps "unsupported" "relation".

Lemma resolve_level_known field caps level :
  resolve_field_level field caps = Ok level -> level ∈ DELIVERY_CAPABILITY_LEVELS.
Proof.
  assert (forall x, elem x DELIVERY_CAPABILITY_LEVELS = true -> Ok x = Ok (E := exc) level ->
            level ∈ DELIVERY_CAPABILITY_LEVELS) as Hk by (intros x Hx [= <-]; by apply elem_true).
  unfold resolve_field_level. destruct (od_get _ _) as [j|]; [|done].
  destruct (elem _ BOOLEAN_FIELDS); [|destruct (elem _ STRING_FIELDS)]; destruct j as [|b| |s| |];
    try discriminate; try (by apply Hk).
  - destruct b; by apply Hk.
  - repeat (case_bool_decide; [by apply Hk|]). done.
Qed.

Lemma pick_winner_spec w rest :
  exists pre post, w :: rest = pre ++ pick_winner w rest :: post /\
    Forall (fun c => severity (cd_capability_level c) <
                     severity (cd_capability_level (pick_winner w rest))) pre /\
    Forall (fun c => severity (cd_capability_level c) <=
                     severity (cd_capability_level (pick_winner w rest))) post.
Proof.
  revert w. induction rest as [|c rest IH]; intros w; simpl; [by exists [], []|].
  destruct (_ <? _) eqn:E.
  - apply Z.ltb_lt in E. destruct (IH c) as (pre & post & Heq & Hpre & Hpost).
    exists (w :: pre), post. split_and!; [by rewrite Heq|constructor; [|done]|done].
    destruct pre as [|p pre]; injection Heq as Hc _.
    + rewrite <-Hc. lia.
    + inversion Hpre as [|?? Hp _]; subst. lia.
  - apply Z.ltb_ge in E. destruct (IH w) as (pre & post & Heq & Hpre & Hpost).
    destruct pre as [|p pre]; injection Heq as Hw Hrest.
    + exists [], (c :: rest). rewrite <-Hw in *. rewrite Hrest.
      split_and!; [done..|constructor; [lia|done]].
    + inversion Hpre as [|?? Hp Hpre']; subst p.
      exists (w :: c :: pre), post. split_and!; [by rewrite Hrest at 1| |done].
      repeat constructor; [done|lia|done].
Qed.

Lemma pick_winner_elem w rest : pick_winner w rest ∈ w :: rest.
Proof. destruct (pick_winner_spec w rest) as (pre & post & -> & _). set_solver. Qed.

Lemma pick_winner_max w rest c :
  c ∈ w :: rest -> severity (cd_capability_level c) <= severity (cd_capability_level (pick_winner w rest)).
Proof.
  destruct (pick_winner_spec w rest) as (pre & post & Heq & Hpre & Hpost).
  rewrite Heq, elem_of_app, elem_of_cons. rewrite Forall_forall in Hpre, Hpost.
  intros [H|[->|H]]; [apply Hpre in H; lia|lia|by apply Hpost].
Qed.

(** ** Candidates are the demands *)

(** A native demand needs no explanation, the others have one. *)
Definition explained (c : Candidate) : Prop :=
  cd_reason c = None <-> cd_capability_level c = "native".

Lemma event_kind_reason_explained level field kind :
  make_event_kind_reason level field kind = None <-> level = "native".
Proof. unfold make_event_kind_reason. by repeat (case_bool_decide; subst). Qed.

Lemma relation_reason_explained level field type :
  make_relation_reason level field type = None <-> level = "native".
Proof. unfold make_relation_reason. by repeat (case_bool_decide; subst). Qed.

Lemma relation_candidates_elem caps rels cs :
  relation_candidates caps rels = Ok cs ->
  forall c, c ∈ cs <-> exists rel, rel ∈ rels /\ relation_candidate caps rel = Ok c.
Proof.
  revert cs. induction rels as [|rel rels IH]; intros cs; simpl.
  - intros [= <-] c. set_solver.
  - intros (c0 & Hc & (cs' & Hcs & [= <-])%bind_Ok)%bind_Ok c. rewrite elem_of_cons, (IH _ Hcs).
    split.
    + intros [->|(r & Hr & Hrc)]; [exists rel|exists r]; split; try done; set_solver.
    + intros (r & [->|Hr]%elem_of_cons & Hrc); [left; congruence|right; by exists r].
Qed.

Lemma candidate_demand event caps cs c :
  candidates event caps = Ok cs -> c ∈ cs ->
  demand event caps (cd_capability_level c) (cd_capability_field c) /\ explained c.
Proof.
  intros (ks & Hk & (rs & Hr & [= <-])%bind_Ok)%bind_Ok [Hc|Hc]%elem_of_app.
  - revert Hk. unfold event_kind_candidates.
    destruct (od_get _ EVENT_KIND_FIELDS) as [f|] eqn:E.
    + intros (l & Hl & [= <-])%bind_Ok. apply list_elem_of_singleton in Hc as ->.
      split; [by eapply demand_kind|apply event_kind_reason_explained].
    + case_match eqn:Hp; intros [= <-]; [by apply not_elem_of_nil in Hc|].
      apply list_elem_of_singleton in Hc as ->. apply elem_false in Hp. apply od_get_None in E.
      split; [by apply demand_unknown_kind|done].
  - apply (relation_candidates_elem _ _ _ Hr) in Hc as (rel & Hin & Hc). revert Hc.
    unfold relation_candidate. destruct (od_get _ _) as [f|] eqn:E.
    + intros (l & Hl & [= <-])%bind_Ok.
      split; [by eapply demand_relation|apply relation_reason_explained].
    + intros [= <-]. apply od_get_None in E. split; [by eapply demand_unknown_relation|done].
Qed.

Lemma demand_candidate event caps cs level field :
  candidates event caps = Ok cs -> demand event caps level field ->
  exists c, c ∈ cs /\ cd_capability_level c = level.
Proof.
  intros (ks & Hk & (rs & Hr & [= <-])%bind_Ok)%bind_Ok Hd.
  pose proof (relation_candidates_elem _ _ _ Hr) as Hrel. revert Hk.
  unfold event_kind_candidates. destruct Hd as [f l Hf Hl|Hk1 Hk2|rel f l Hin Hf Hl|rel Hin Hn].
  - rewrite Hf, Hl. intros [= <-]. eexists. split; [by apply elem_of_app; left; left|done].
  - apply od_get_None in Hk1. rewrite Hk1. apply elem_false in Hk2. rewrite Hk2.
    intros [= <-]. eexists. split; [by apply elem_of_app; left; left|done].
  - intros _. eexists. split; [apply elem_of_app; right; apply Hrel; exists rel; split; [done|]|].
    + unfold relation_candidate. rewrite Hf, Hl. done.
    + done.
  - intros _. eexists. split; [apply elem_of_app; right; apply Hrel; exists rel; split; [done|]|].
    + unfold relation_candidate. apply od_get_None in Hn. rewrite Hn. done.
    + done.
Qed.

Lemma demand_level event caps level field :
  demand event caps level field -> level ∈ DELIVERY_CAPABILITY_LEVELS.
Proof. intros []; [by eapply resolve_level_known|set_solver|by eapply resolve_level_known|set_solver]. Qed.

Ltac each_level H :=
  unfold DELIVERY_CAPABILITY_LEVELS in H; rewrite !elem_of_cons, elem_of_nil in H;
  destruct H as [-> | [-> | [-> | []]]].

(** The resolver returns the strictest demand of the event.  No demand of
    the event's kind or of any of its relations is more severe than the
    decided level, and the deciding field is one of the demands (no field
    means no demand at all).  Delivery is suppressed exactly when something is
    unsupported, unknown kinds and relation types included, and native
    exactly when everything is; the decision is explained unless native, and
    level and strategy belong to the vocabularies receipts accept. *)
Theorem decide_strictest event caps target d :
  decide_capability event caps target = Ok d ->
  (forall level field, demand event caps level field ->
     severity level <= severity (dc_capability_level d)) /\
  match dc_capability_field d with
  | Some field => demand event caps (dc_capability_level d) field
  | None => dc_capability_level d = "native" /\ forall level field, ~ demand event caps level field
  end /\
  (dc_supported d = false <-> exists field, demand event caps "unsupported" field) /\
  (dc_delivery_strategy d = "skip" <-> dc_supported d = false) /\
  (dc_delivery_strategy d = "direct" <->
     forall level field, demand event caps level field -> level = "native") /\
  (dc_reason d = None <-> dc_capability_level d = "native") /\
  dc_capability_level d ∈ DELIVERY_CAPABILITY_LEVELS /\
  dc_delivery_strategy d ∈ DELIVERY_STRATEGY_METHODS.
Proof.
  intros (cs & Hcs & Hd)%bind_Ok.
  assert (forall level field, demand event caps level field ->
            exists c, c ∈ cs /\ cd_capability_level c = level) as Hdc
    by (intros l f; by apply demand_candidate).
  destruct cs as [|c rest].
  { injection Hd as <-. simpl.
    assert (forall level field, ~ demand event caps level field) as Hno.
    { intros l f (c & Hc%not_elem_of_nil & _)%Hdc. done. }
    split_and!; try done; try (set_solver); naive_solver. }
  injection Hd as <-. simpl. set (w := pick_winner c rest).
  destruct (candidate_demand event caps (c :: rest) w Hcs (pick_winner_elem c rest)) as [Hw He].
  pose proof (demand_level _ _ _ _ Hw) as Hlv.
  assert (forall level field, demand event caps level field ->
            severity level <= severity (cd_capability_level w)) as Hmax.
  { intros l f (c' & Hc & <-)%Hdc. by apply pick_winner_max. }
  assert (forall l f, demand event caps l f -> l = "native" \/ l = "fallback" \/ l = "unsupported") as Hv.
  { intros l f Hl%demand_level. each_level Hl; auto. }
  clearbody w. clear Hdc Hcs. destruct w as [lv fld why]. unfold explained in He. simpl in *.
  split_and!; [exact Hmax|exact Hw| | | |exact He|exact Hlv|]; clear He; each_level Hlv; simpl in *.
  - split; [done|]. intros [f Hf%Hmax]. done.
  - split; [done|]. intros [f Hf%Hmax]. done.
  - split; [|done]. intros _. eauto.
  - done.
  - done.
  - done.
  - split; [|done]. intros _ l f Hl. pose proof (Hmax _ _ Hl) as Hle.
    destruct (Hv _ _ Hl) as [-> | [-> | ->]]; done.
  - split; [done|]. intros H. by specialize (H _ _ Hw).
  - split; [done|]. intros H. by specialize (H _ _ Hw).
  - apply elem_true; reflexivity.
  - apply elem_true; reflexivity.
  - apply elem_true; reflexivity.
Qed.

(** ** Malformed declarations *)

(** The fields a decision about [event] reads. *)
Definition consulted (event : CanonicalEvent) (field : string) : Prop :=
  od_get (ev_event_kind event) EVENT_KIND_FIELDS = Some field \/
  exists rel, rel ∈ ev_relations event /\ od_get (rl_type rel) RELATION_FIELDS = Some field.

Definition well_declared (caps : AdapterCapabilities) (field : string) : bool :=
  match od_get field (capability_attributes caps) with
  | Some JNull => true
  | Some (JBool _) => elem field BOOLEAN_FIELDS
  | Some (JStr s) => elem field STRING_FIELDS && elem s DELIVERY_CAPABILITY_LEVELS
  | _ => false
  end.

Lemma table_fields field :
  field ∈ od_values EVENT_KIND_FIELDS ++ od_values RELATION_FIELDS ->
  field ∈ ["reactions"; "edits"; "deletes"; "attachments"; "text"; "presence"; "metadata_fields";
           "replies"; "threads"].
Proof. rewrite <-!elem_true. revert field.
  assert (Forall (fun f => elem f ["reactions"; "edits"; "deletes"; "attachments"; "text"; "presence";
    "metadata_fields"; "replies"; "threads"] = true)
    (od_values EVENT_KIND_FIELDS ++ od_values RELATION_FIELDS)) as H
    by (repeat constructor; reflexivity).
  rewrite Forall_forall in H. intros f Hf%elem_true. by apply H.
Qed.

Lemma od_get_values {K V} `{EqDecision K} (k : K) (v : V) d : od_get k d = Some v -> v ∈ od_values d.
Proof. intros H%od_get_In. apply list_elem_of_fmap. by exists (k, v). Qed.

Lemma consulted_known event field :
  consulted event field ->
  field ∈ ["reactions"; "edits"; "deletes"; "attachments"; "text"; "presence"; "metadata_fields";
           "replies"; "threads"].
Proof.
  intros H. apply table_fields, elem_of_app. destruct H as [H|(rel & _ & H)]; [left|right];
    by eapply od_get_values.
Qed.

(** A field that is read yields a level when well declared, else ValueError. *)
Lemma resolve_field_outcome event caps field :
  consulted event field ->
  (well_declared caps field = true /\ exists level, resolve_field_level field caps = Ok level) \/
  (well_declared caps field = false /\ exists what, resolve_field_level field caps = Raise (ValueError what)).
Proof.
  intros H%consulted_known. unfold well_declared, resolve_field_level.
  rewrite !elem_of_cons, elem_of_nil in H.
  assert (exists j, od_get field (capability_attributes caps) = Some j) as [j Hj].
  { destruct_or! H; subst; try done; eexists; reflexivity. }
  rewrite Hj. clear Hj.
  assert (elem field BOOLEAN_FIELDS = negb (elem field STRING_FIELDS)) as ->
    by (destruct_or! H; subst; reflexivity || done).
  clear H. destruct (elem field STRING_FIELDS); destruct j as [|b| |s| |]; simpl; eauto.
  repeat (case_bool_decide; [subst; left; split; [reflexivity|eauto]|]). right. split; [|eauto].
  apply elem_false. unfold DELIVERY_CAPABILITY_LEVELS. rewrite !not_elem_of_cons.
  split_and!; [done..|apply not_elem_of_nil].
Qed.

#[local] Arguments od_get : simpl never.

Lemma relation_candidates_total event caps rels :
  (forall rel field, rel ∈ rels -> od_get (rl_type rel) RELATION_FIELDS = Some field ->
     consulted event field) ->
  ((exists cs, relation_candidates caps rels = Ok cs) /\
   forall rel field, rel ∈ rels -> od_get (rl_type rel) RELATION_FIELDS = Some field ->
     well_declared caps field = true) \/
  ((exists what, relation_candidates caps rels = Raise (ValueError what)) /\
   exists rel field, rel ∈ rels /\ od_get (rl_type rel) RELATION_FIELDS = Some field /\
     well_declared caps field = false).
Proof.
  induction rels as [|rel rels IH]; intros Hc; simpl.
  { left. split; [eauto|]. intros rel field H. by apply not_elem_of_nil in H. }
  unfold relation_candidate.
  assert (forall rel' f, rel' ∈ rels -> od_get (rl_type rel') RELATION_FIELDS = Some f -> consulted event f) as Hc'
    by (intros r f Hr; apply Hc; by right).
  destruct (od_get (rl_type rel) RELATION_FIELDS) as [f|] eqn:E.
  - destruct (resolve_field_outcome event caps f) as [[Hw [l Hl]]|[Hw [what Hl]]];
      [eapply Hc; [left|done]| |]; rewrite Hl; simpl.
    + destruct (IH Hc') as [[[cs ->] Hok]|[[what ->] (r & g & Hr & Hg & Hb)]]; simpl.
      * left. split; [eauto|]. intros r g [->|Hr]%elem_of_cons Hg; [by simplify_eq|by eapply Hok].
      * right. split; [eauto|]. exists r, g. split_and!; [by right|done..].
    + right. split; [eauto|]. exists rel, f. split_and!; [left|done..].
  - simpl. destruct (IH Hc') as [[[cs ->] Hok]|[[what ->] (r & g & Hr & Hg & Hb)]]; simpl.
    + left. split; [eauto|]. intros r g [->|Hr]%elem_of_cons Hg; [by simplify_eq|by eapply Hok].
    + right. split; [eauto|]. exists r, g. split_and!; [by right|done..].
Qed.

(** A decision fails only on a malformed declaration: it exists exactly
    when every capability field it reads holds a value of its documented type
    (or nothing); otherwise the error is [ValueError], never the
    [AttributeError] of a field missing from the declaration. *)
Theorem decide_errors event caps target :
  ((exists d, decide_capability event caps target = Ok d) <->
   forall field, consulted event field -> well_declared caps field = true) /\
  (forall e, decide_capability event caps target = Raise e -> exists what, e = ValueError what).
Proof.
  assert (forall cs, candidates event caps = Ok cs -> exists d, decide_capability event caps target = Ok d)
    as Hok by (intros cs H; unfold decide_capability; rewrite H; destruct cs; eexists; reflexivity).
  assert (forall e, candidates event caps = Raise e -> decide_capability event caps target = Raise e) as Hbad
    by (intros e H; unfold decide_capability; by rewrite H).
  destruct (relation_candidates_total event caps (ev_relations event)) as [[[cs Hcs] Hall]|[[what Hw] Hex]];
    [by right; eauto| |]; unfold candidates, event_kind_candidates in Hok, Hbad.
  - rewrite Hcs in Hok, Hbad. destruct (od_get (ev_event_kind event) _) as [f|] eqn:E.
    + destruct (resolve_field_outcome event caps f) as [[Hd [l Hl]]|[Hd [what Hl]]]; [by left| |];
        rewrite Hl in Hok, Hbad; simpl in *.
      * destruct (Hok _ eq_refl) as [d Hde]. split; [split; [|eauto]|intros e; by rewrite Hde].
        intros _ g [Hg|(r & Hr & Hg)]; [congruence|by eapply Hall].
      * rewrite (Hbad _ eq_refl). split; [|intros e [= <-]; eauto].
        split; [intros [d [=]]|]. intros Hg. specialize (Hg f (or_introl E)). congruence.
    + assert (exists d, decide_capability event caps target = Ok d) as [d Hde]
        by (destruct (elem _ PASSTHROUGH_EVENT_KINDS); by eapply Hok).
      split; [split; [|eauto]|intros e; by rewrite Hde].
      intros _ g [Hg|(r & Hr & Hg)]; [congruence|by eapply Hall].
  - rewrite Hw in Hbad. destruct Hex as (rel & f & Hr & Hf & Hm).
    assert (exists what', decide_capability event caps target = Raise (ValueError what')) as [what' Hd].
    { destruct (od_get (ev_event_kind event) _) as [g|] eqn:E.
      - destruct (resolve_field_outcome event caps g) as [[_ [l Hl]]|[_ [what' Hl]]]; [by left| |];
          rewrite Hl in Hbad; simpl in Hbad; eauto.
      - destruct (elem _ PASSTHROUGH_EVENT_KINDS); simpl in Hbad; eauto. }
    rewrite Hd. split; [|intros e [= <-]; eauto]. split; [intros [d [=]]|].
    intros Hg. rewrite (Hg f) in Hm; [done|]. right. eauto.
Qed.

(** ** Examples *)

Module CapabilityExamples.
Definition relation (type : string) : EventRelation :=
  {| rl_type := type; rl_target_event := None; rl_target_native := None; rl_key := None;
     rl_fallback_text := None; rl_metadata := [] |}.

Definition message (kind : string) (types : list string) : CanonicalEvent :=
  {| ev_columns :=
       {| ev_event_id := "evt-1"; ev_event_kind := kind; ev_schema_version := 1; ev_timestamp := 0;
          ev_source_adapter := "matrix"; ev_source_transport_id := "m1";
          ev_source_channel_id := None; ev_parent_event_id := None; ev_lineage := [];
          ev_depth := 0; ev_trace_id := None; ev_root_event_id := None;
          ev_conversation_id := None |};
     ev_relations := relation <$> types; ev_payload := [];
     ev_metadata := {| em_transport := None; em_routing := None; em_radio := None;
                       em_telemetry := None; em_native := None; em_custom := [] |};
     ev_source_native_ref := None |}.

(** A radio adapter: plain text, replies as text, no threads. *)
Definition radio : AdapterCapabilities :=
  {| cap_text := JBool true; cap_title := JBool false; cap_replies := JStr "fallback";
     cap_reactions := JStr "fallback"; cap_edits := JStr "unsupported";
     cap_deletes := JStr "unsupported"; cap_attachments := JBool false;
     cap_metadata_fields := JNull; cap_store_and_forward := JBool false;
     cap_direct_messages := JBool true; cap_channels := JBool true;
     cap_identity_encryption := JBool false; cap_presence := JBool false;
     cap_topic_rooms := JBool false; cap_mesh_routing := JBool true;
     cap_priority_delivery := JBool false; cap_max_text_bytes := JInt 228;
     cap_max_text_chars := JNull; cap_threads := JStr "unsupported"; cap_typing := JBool false |}.

(** A reply inside a thread: the thread is what suppresses it. *)
Definition threaded_reply : CapabilityDecision :=
  {| dc_target_adapter := Some "mesh"; dc_event_kind := "message.text";
     dc_capability_level := "unsupported"; dc_delivery_strategy := "skip"; dc_supported := false;
     dc_capability_field := Some "threads";
     dc_reason := Some "threads unsupported by adapter (event has thread relation)" |}.

Lemma decide_strictest_witness :
  decide_capability (message "message.text" ["reply"; "thread"; "reaction"]) radio (Some "mesh") =
    Ok threaded_reply /\
  demand (message "message.text" ["reply"; "thread"; "reaction"]) radio "unsupported" "threads".
Proof.
  assert (decide_capability (message "message.text" ["reply"; "thread"; "reaction"]) radio (Some "mesh") =
            Ok threaded_reply) as H by reflexivity.
  split; [exact H|]. exact (proj1 (proj2 (decide_strictest _ _ _ _ H))).
Defined.

(** The first of equally severe demands is named. *)
Example tie_is_first :
  dc_capability_field <$> decide_capability (message "message.edited" ["delete"; "frobnicate"]) radio None =
    Ok (Some "edits").
Proof. reflexivity. Qed.

Example unknown_kind_suppressed :
  capability_unsupported (message "message.poll" []) AdapterCapabilities_default =
    Ok (Some "unsupported event kind 'message.poll'").
Proof. reflexivity. Qed.
End CapabilityExamples.
