(* ===== verification/JsonText.v ===== *)
(** * Canonical JSON text

    [json.dumps(value, sort_keys=True, separators=(",", ":"))] on the values
    of [Json], as [delivery_target_identity] of
    [src/src/medre/core/planning/delivery_plan.py] uses it: keys sorted at every
    level, non-ASCII and control characters escaped.  The text determines the
    value up to the order of keys ([json_text_inj]), because the printed form
    can be read back left to right. *)

From Stdlib Require Import Ascii.
From S2P Require Import Prelude.
From S2P Require Import Json.
From S2P Require Import Receipts.
From S2P Require Import Capability.

Open Scope string_scope.
Open Scope list_scope.
Open Scope Z_scope.

(** ** Printing *)

Definition json_escape (c : Ascii.ascii) : string :=
  let n := Ascii.N_of_ascii c in
  if bool_decide (c = quote_char) || bool_decide (c = backslash) then String backslash (String c "")
  else if (n =? 10)%N then String backslash "n"
  else if (n =? 13)%N then String backslash "r"
  else if (n =? 9)%N then String backslash "t"
  else if (n =? 12)%N then String backslash "f"
  else if (n =? 8)%N then String backslash "b"
  else if (32 <=? n)%N && (n <=? 126)%N then String c ""
  else String backslash ("u00" +:+ hex2 c).

Definition json_string (s : string) : string :=
  String quote_char (concat_map json_escape s +:+ String quote_char "").

(** The members of an object or array after the first, up to the closing
    bracket. *)
Fixpoint json_text (j : json) : string :=
  match j with
  | JNull => "null"
  | JBool b => if b then "true" else "false"
  | JInt n => py_str n
  | JStr s => json_string s
  | JArr xs => "[" +:+ py_join "," (json_text <$> xs) +:+ "]"
  | JObj kvs => "{" +:+ py_join "," ((fun kv => json_string kv.1 +:+ ":" +:+ json_text kv.2) <$> kvs) +:+ "}"
  end.

Definition key_order {V} : string * V -> string * V -> bool := on_key fst String.leb.

(** [sort_keys=True], also the effect of [_canonical_json_value] (the values
    modelled have no other canonical form to reach). *)
Fixpoint sort_keys (j : json) : json :=
  match j with
  | JArr xs => JArr (sort_keys <$> xs)
  | JObj kvs => JObj (sorted_by key_order ((fun kv => (kv.1, sort_keys kv.2)) <$> kvs))
  | _ => j
  end.

Definition json_dumps (j : json) : string := json_text (sort_keys j).

Example dumps_example :
  json_dumps (JObj [("b", JArr [JInt (-12); JNull]); ("a", JStr "x")]) =
  String.concat (String quote_char "") ["{"; "a"; ":"; "x"; ","; "b"; ":[-12,null]}"].
Proof. reflexivity. Qed.

(** ** Strings are read back *)

Definition from_hex (c : Ascii.ascii) : N :=
  let n := Ascii.N_of_ascii c in (if (n <? 58) then n - 48 else n - 87)%N.

(** One escaped character and the rest; nothing at the closing quote. *)
Definition unescape (s : string) : option (Ascii.ascii * string) :=
  match s with
  | String c rest =>
      if bool_decide (c = quote_char) then None
      else if bool_decide (c = backslash) then
        match rest with
        | String d rest' =>
            if bool_decide (d = "n"%char) then Some (Ascii.ascii_of_N 10, rest')
            else if bool_decide (d = "r"%char) then Some (Ascii.ascii_of_N 13, rest')
            else if bool_decide (d = "t"%char) then Some (Ascii.ascii_of_N 9, rest')
            else if bool_decide (d = "f"%char) then Some (Ascii.ascii_of_N 12, rest')
            else if bool_decide (d = "b"%char) then Some (Ascii.ascii_of_N 8, rest')
            else if bool_decide (d = "u"%char) then
              match rest' with
              | String _ (String _ (String h (String l rest''))) =>
                  Some (Ascii.ascii_of_N (from_hex h * 16 + from_hex l), rest'')
              | _ => None
              end
            else Some (d, rest')
        | EmptyString => None
        end
      else Some (c, rest)
  | EmptyString => None
  end.

Lemma unescape_escape c s : unescape (json_escape c +:+ s) = Some (c, s).
Proof. destruct c as [[] [] [] [] [] [] [] []]; reflexivity. Qed.

Lemma append_assoc (a b c : string) : (a +:+ b) +:+ c = a +:+ (b +:+ c).
Proof. induction a as [|x a IH]; [done|]. exact (f_equal (String x) IH). Qed.

Lemma json_string_app_inj a b s t :
  json_string a +:+ s = json_string b +:+ t -> a = b /\ s = t.
Proof.
  intros H. injection H as H. revert b s t H.
  induction a as [|c a IH]; intros [|d b] s t; cbn [concat_map]; rewrite ?append_assoc; intros H.
  - change (String quote_char s = String quote_char t) in H. split; congruence.
  - apply (f_equal unescape) in H. rewrite unescape_escape in H. done.
  - apply (f_equal unescape) in H. rewrite unescape_escape in H. done.
  - apply (f_equal unescape) in H. rewrite !unescape_escape in H. injection H as -> H.
    rewrite <-!append_assoc in H. by apply IH in H as [-> ->].
Qed.

(** ** Numerals *)

Fixpoint all_chars (p : Ascii.ascii -> bool) (s : string) : bool :=
  match s with EmptyString => true | String c s' => p c && all_chars p s' end.

Fixpoint span_chars (p : Ascii.ascii -> bool) (s : string) : string * string :=
  match s with
  | EmptyString => ("", "")
  | String c s' => if p c then let '(a, b) := span_chars p s' in (String c a, b) else ("", s)
  end.

Definition starts (p : Ascii.ascii -> bool) (s : string) : bool :=
  match s with EmptyString => false | String c _ => p c end.

Lemma span_chars_app p a s :
  all_chars p a = true -> starts p s = false -> span_chars p (a +:+ s) = (a, s).
Proof.
  induction a as [|c a IH]; simpl.
  - intros _ H. destruct s as [|c s]; simpl in *; [done|]. by rewrite H.
  - intros [Hc Ha]%andb_true_iff Hs. by rewrite Hc, IH.
Qed.

Definition numeral_char (c : Ascii.ascii) : bool :=
  let n := Ascii.N_of_ascii c in ((48 <=? n)%N && (n <=? 57)%N) || (n =? 45)%N.

Lemma pretty_N_go_chars x s :
  all_chars numeral_char s = true -> all_chars numeral_char (pretty_N_go x s) = true.
Proof.
  revert s. induction (N.lt_wf_0 x) as [x _ IH]; intros s Hs.
  destruct (decide (0 < x)%N) as [Hx|Hx].
  - rewrite pretty_N_go_step by done. apply IH; [by apply N.div_lt|]. simpl. rewrite Hs, andb_true_r.
    unfold pretty_N_char. by repeat case_match.
  - assert (x = 0%N) as -> by lia. by rewrite pretty_N_go_0.
Qed.

Lemma pretty_N_chars (x : N) : all_chars numeral_char (pretty x) = true.
Proof. unfold pretty, pretty_N. case_decide; [done|]. by apply pretty_N_go_chars. Qed.

Lemma py_str_chars n : all_chars numeral_char (py_str n) = true.
Proof. destruct n as [|p|p]; [done|apply pretty_N_chars|]. unfold py_str, pretty, pretty_Z. simpl. apply pretty_N_chars. Qed.

Lemma py_str_starts n s : starts numeral_char (py_str n +:+ s) = true.
Proof.
  pose proof (py_str_chars n) as H. destruct (py_str n) as [|c a] eqn:E; simpl in *.
  - exfalso. destruct n as [|p|p]; [done| |done].
    assert (py_str (Z.pos p) <> py_str 0) as Hne by (intros Heq%(inj pretty); done).
    revert E. unfold py_str, pretty, pretty_Z, pretty_positive, pretty, pretty_N. case_decide; [done|].
    intros E. assert (String.length (pretty_N_go (N.pos p) "") = 0%nat) as Hl by (by rewrite E).
    revert Hl. rewrite pretty_N_go_step by lia.
    assert (forall x s, (String.length s <= String.length (pretty_N_go x s))%nat) as Hge.
    { intros x. induction (N.lt_wf_0 x) as [x _ IH]; intros s'.
      destruct (decide (0 < x)%N); [|assert (x = 0%N) as -> by lia; by rewrite pretty_N_go_0].
      rewrite pretty_N_go_step by done. etrans; [|by eapply IH, N.div_lt]. simpl. lia. }
    specialize (Hge (N.pos p `div` 10)%N (String (pretty_N_char (N.pos p `mod` 10)) "")). simpl in Hge. lia.
  - by apply andb_true_iff in H as [-> _].
Qed.

Lemma py_str_app_inj n m s t :
  starts numeral_char s = false -> starts numeral_char t = false ->
  py_str n +:+ s = py_str m +:+ t -> n = m /\ s = t.
Proof.
  intros Hs Ht H. pose proof (span_chars_app _ _ s (py_str_chars n) Hs) as H1.
  rewrite H, (span_chars_app _ _ t (py_str_chars m) Ht) in H1. injection H1 as Hp ->.
  split; [|done]. by apply (inj pretty) in Hp.
Qed.

(** ** Values are read back *)

(** A printer whose output can be read off the front of a longer text. *)
Definition readable {A} (f : A -> string) (x : A) : Prop :=
  forall y s t, starts numeral_char s = false -> starts numeral_char t = false ->
    f x +:+ s = f y +:+ t -> x = y /\ s = t.

(** The kind of value a text starts with, by its first character. *)
Definition first_kind (s : string) : nat :=
  match s with
  | EmptyString => 0
  | String c _ =>
      if bool_decide (c = "n"%char) then 1 else if bool_decide (c = "t"%char) then 2
      else if bool_decide (c = "f"%char) then 3 else if numeral_char c then 4
      else if bool_decide (c = quote_char) then 5 else if bool_decide (c = "["%char) then 6
      else if bool_decide (c = "{"%char) then 7 else 0
  end.

Definition json_kind (j : json) : nat :=
  match j with
  | JNull => 1 | JBool b => if b then 2 else 3 | JInt _ => 4 | JStr _ => 5 | JArr _ => 6 | JObj _ => 7
  end.

Lemma starts_kind s : starts numeral_char s = true -> first_kind s = 4%nat.
Proof.
  destruct s as [|c s]; [done|]. simpl.
  destruct c as [[] [] [] [] [] [] [] []]; try done; by intros; vm_compute.
Qed.

Lemma json_text_kind j s : first_kind (json_text j +:+ s) = json_kind j.
Proof. destruct j as [|[]|n| | |]; try done. apply starts_kind, py_str_starts. Qed.

Fixpoint commas (xs : list string) : string :=
  match xs with [] => "" | x :: xs' => "," +:+ x +:+ commas xs' end.

Lemma py_join_commas x xs : py_join "," (x :: xs) = x +:+ commas xs.
Proof.
  revert x. induction xs as [|y xs IH]; intros x.
  - simpl. induction x as [|c x IHx]; [done|]. exact (f_equal (String c) IHx).
  - change (py_join "," (x :: y :: xs)) with (x +:+ "," +:+ py_join "," (y :: xs)). by rewrite IH.
Qed.

Section members.
Context {A} (f : A -> string) (close : Ascii.ascii).
Hypothesis close_delimits : numeral_char close = false.
Hypothesis close_comma : close <> ","%char.
Hypothesis close_first : forall y s, ~ exists t, f y +:+ s = String close t.

Lemma commas_readable xs ys s t :
  Forall (readable f) xs ->
  commas (f <$> xs) +:+ String close s = commas (f <$> ys) +:+ String close t -> xs = ys /\ s = t.
Proof.
  intros Hxs. revert ys. induction Hxs as [|x xs Hx Hxs IH]; intros [|y ys] H.
  - change (String close s = String close t) in H. split; congruence.
  - exfalso. apply close_comma.
    change (String close s = String "," ((f y +:+ commas (f <$> ys)) +:+ String close t)) in H. congruence.
  - exfalso. apply close_comma.
    change (String "," ((f x +:+ commas (f <$> xs)) +:+ String close s) = String close t) in H. congruence.
  - change (String "," ((f x +:+ commas (f <$> xs)) +:+ String close s) =
            String "," ((f y +:+ commas (f <$> ys)) +:+ String close t)) in H.
    injection H as H. rewrite !append_assoc in H.
    assert (forall l s', starts numeral_char (commas (f <$> l) +:+ String close s') = false) as Hd
      by (intros [|z l] s'; [exact close_delimits|reflexivity]).
    destruct (Hx y _ _ (Hd xs s) (Hd ys t) H) as [-> H']. by destruct (IH ys H') as [-> ->].
Qed.

Lemma join_readable xs ys s t :
  Forall (readable f) xs ->
  py_join "," (f <$> xs) +:+ String close s = py_join "," (f <$> ys) +:+ String close t ->
  xs = ys /\ s = t.
Proof.
  intros Hxs. destruct xs as [|x xs], ys as [|y ys]; simpl fmap.
  - intros H. change (String close s = String close t) in H. split; congruence.
  - rewrite py_join_commas, append_assoc. intros H. exfalso.
    eapply (close_first y). exists s. symmetry. exact H.
  - rewrite py_join_commas, append_assoc. intros H. exfalso.
    eapply (close_first x). exists t. exact H.
  - rewrite !py_join_commas, !append_assoc. inversion Hxs as [|?? Hx Hxs']; subst. intros H.
    assert (forall l s', starts numeral_char (commas (f <$> l) +:+ String close s') = false) as Hd
      by (intros [|z l] s'; [exact close_delimits|reflexivity]).
    destruct (Hx y _ _ (Hd xs s) (Hd ys t) H) as [-> H'].
    by destruct (commas_readable xs ys s t Hxs' H') as [-> ->].
Qed.
End members.

Lemma member_readable (kv : string * json) :
  readable json_text kv.2 -> readable (fun kv => json_string kv.1 +:+ ":" +:+ json_text kv.2) kv.
Proof.
  intros Hv [k' v'] s t Hs Ht. destruct kv as [k v]. simpl in *. rewrite !append_assoc.
  intros [-> H]%json_string_app_inj. injection H as H.
  by destruct (Hv v' s t Hs Ht H) as [-> ->].
Qed.

Lemma json_text_readable j : readable json_text j.
Proof.
  induction j as [|b|n|s0|xs IH|kvs IH] using json_ind'; intros k s t Hs Ht H;
    pose proof (f_equal first_kind H) as Hk; rewrite !json_text_kind in Hk.
  - destruct k as [|[]| | | |]; try discriminate. by injection H.
  - destruct b; destruct k as [|[]| | | |]; try discriminate; by injection H.
  - destruct k as [|[]|m| | |]; try discriminate; [by destruct n.. |].
    by apply py_str_app_inj in H as [-> ->].
  - destruct k as [|[]| |s1| |]; try discriminate. by apply json_string_app_inj in H as [-> ->].
  - destruct k as [|[]| | |ys|]; try discriminate. cbn [json_text] in H. rewrite !append_assoc in H.
    injection H as H.
    apply (join_readable json_text "]"%char) in H as [-> ->]; [done..| |done].
    intros y u [v Hv]. apply (f_equal first_kind) in Hv. rewrite json_text_kind in Hv.
    by destruct y as [|[]| | | |].
  - destruct k as [|[]| | | |kvs']; try discriminate. cbn [json_text] in H. rewrite !append_assoc in H.
    injection H as H.
    apply (join_readable _ "}"%char) in H as [-> ->]; [done..| |].
    + intros y u [v Hv]. done.
    + eapply Forall_impl; [exact IH|]. intros kv. apply member_readable.
Qed.

Lemma json_text_inj j k : json_text j = json_text k -> j = k.
Proof.
  intros H. assert (json_text j +:+ "" = json_text k +:+ "") as H' by (by rewrite H).
  by apply json_text_readable in H' as [-> _].
Qed.

#[export] Instance json_eq_dec : EqDecision json.
Proof.
  intros j k. destruct (decide (json_text j = json_text k)) as [H|H].
  - left. by apply json_text_inj.
  - right. by intros ->.
Defined.

(** Python's [==] on these values: dictionaries ignore the order of keys and
    [True] and [False] equal 1 and 0. *)
Fixpoint numbers (j : json) : json :=
  match j with
  | JBool b => JInt (if b then 1 else 0)
  | JArr xs => JArr (numbers <$> xs)
  | JObj kvs => JObj ((fun kv => (kv.1, numbers kv.2)) <$> kvs)
  | _ => j
  end.

Definition py_eq (j k : json) : bool := bool_decide (sort_keys (numbers j) = sort_keys (numbers k)).

Lemma py_eq_refl j : py_eq j j = true.
Proof. by apply bool_decide_eq_true. Qed.

(** ** Sorting keys *)

Lemma key_order_total {V} : TotalLe (key_order (V := V)).
Proof. unfold key_order. apply _. Qed.

Lemma sort_keys_idem j : sort_keys (sort_keys j) = sort_keys j.
Proof.
  induction j as [| | | |xs IH|kvs IH] using json_ind'; cbn [sort_keys]; try done.
  - f_equal. rewrite <-list_fmap_compose. apply Forall_fmap_ext_1. exact IH.
  - f_equal. set (l := (fun kv => (kv.1, sort_keys kv.2)) <$> kvs).
    assert ((fun kv => (kv.1, sort_keys kv.2)) <$> sorted_by key_order l = sorted_by key_order l) as ->.
    { rewrite <-(list_fmap_id (sorted_by key_order l)) at 2. apply list_fmap_ext. intros i [k v] Hi.
      apply list_elem_of_lookup_2 in Hi. apply elem_of_sorted_by in Hi.
      apply list_elem_of_fmap in Hi as ([k' v'] & [= -> ->] & Hin). simpl.
      rewrite Forall_forall in IH. exact (f_equal (pair k') (IH _ Hin)). }
    apply sorted_by_id, sorted_by_sorted. apply key_order_total.
Qed.
