(* ===== verification/DeliveryPlan.v ===== *)
(** * Delivery plans

    [src/src/medre/core/planning/delivery_plan.py] and
    [fallback_resolution.py]: strategies, retry policies, plans and their
    deterministic identity, the failure taxonomy with its classification of
    exceptions, and the plan a capability decision produces.

    [hashlib.sha256(...).hexdigest()] is the argument [sha256].  Floating-point
    settings are kept as IEEE values ([spec_float]) and never computed with:
    [RetryExecutor.compute_backoff] is an argument of the definitions that
    schedule retries. *)

From Stdlib Require Import SpecFloat.
From S2P Require Import Prelude.
From S2P Require Import Json.
From S2P Require Import IsoTime.
From S2P Require Import Router.
From S2P Require Import Delivery.
From S2P Require Import Events.
From S2P Require Import Capability.
From S2P Require Import JsonText.

Open Scope string_scope.
Open Scope list_scope.
Open Scope Z_scope.

(** ** Data *)

Record DeliveryStrategy : Set := {
  st_method : string;
  st_max_retries : Z;
  st_timeout_seconds : spec_float
}.

(** [30.0], [2.0] and [60.0]. *)
Definition float_30 : spec_float := S754_finite false 8444249301319680 (-48).
Definition float_2 : spec_float := S754_finite false 4503599627370496 (-51).
Definition float_60 : spec_float := S754_finite false 8444249301319680 (-47).

Definition DeliveryStrategy_of (method : string) : DeliveryStrategy :=
  {| st_method := method; st_max_retries := 3; st_timeout_seconds := float_30 |}.

Record RetryPolicy : Set := {
  rp_max_attempts : Z;
  rp_backoff_base : spec_float;
  rp_max_delay_seconds : spec_float;
  rp_jitter : bool
}.

(** A [datetime]: local time and UTC offset in seconds ([None] when naive). *)
Record PyDatetime : Set := { py_local : civil; py_utcoffset : option Z }.

#[export] Instance PyDatetime_eq_dec : EqDecision PyDatetime.
Proof. solve_decision. Defined.

Definition iso_local (c : civil) : string :=
  zero_pad 4 (c_year c) +:+ "-" +:+ zero_pad 2 (c_month c) +:+ "-" +:+ zero_pad 2 (c_day c) +:+
  "T" +:+ zero_pad 2 (c_hour c) +:+ ":" +:+ zero_pad 2 (c_minute c) +:+ ":" +:+
  zero_pad 2 (c_second c) +:+
  (if c_microsecond c =? 0 then "" else "." +:+ zero_pad 6 (c_microsecond c)).

Definition iso_offset (seconds : Z) : string :=
  let n := Z.abs seconds in
  (if seconds <? 0 then "-" else "+") +:+ zero_pad 2 (n / 3600) +:+ ":" +:+ zero_pad 2 (n / 60 mod 60) +:+
  (if n mod 60 =? 0 then "" else ":" +:+ zero_pad 2 (n mod 60)).

(** [datetime.isoformat()]. *)
Definition py_isoformat (t : PyDatetime) : string :=
  iso_local (py_local t) +:+ match py_utcoffset t with Some o => iso_offset o | None => "" end.

Definition utc (c : civil) : PyDatetime := {| py_local := c; py_utcoffset := Some 0 |}.

Record DeliveryPlan : Type := {
  pl_plan_id : string;
  pl_event_id : string;
  pl_target : RouteTarget;
  pl_primary_strategy : DeliveryStrategy;
  pl_fallback_chain : list DeliveryStrategy;
  pl_retry_policy : option RetryPolicy;
  pl_deadline : option PyDatetime;
  pl_route_id : option string;
  pl_target_identity : string;
  pl_capability_level : option string;
  pl_capability_field : option string;
  pl_capability_reason : option string
}.

(** ** Identity *)

(** [_canonical_json_value]: the values modelled are all supported, so it
    never raises and only sorts dictionaries. *)
Definition canonical_json_value (value : json) : json := sort_keys value.

Definition destination_document (destination : RouteDestination) : json :=
  JObj [("kind", JStr (dst_kind destination)); ("destination_hash", json_opt_str (dst_hash destination));
        ("destination_name", json_opt_str (dst_name destination));
        ("metadata", canonical_json_value (JObj (dst_metadata destination)))].

Definition delivery_target_identity (target : RouteTarget) : string :=
  json_dumps
    (JObj [("adapter", json_opt_str (rt_adapter target)); ("channel", json_opt_str (rt_channel target));
           ("destination", match rt_destination target with
                           | Some d => destination_document d
                           | None => JNull
                           end)]).

Section plan_id.
Context (sha256 : string -> string).

Definition target_hash (target : RouteTarget) : string :=
  String.substring 0 16 (sha256 (delivery_target_identity target)).

Definition stable_delivery_plan_id (event_id : string) (target : RouteTarget)
    (route_id : option string) (target_index : option Z) : string :=
  let route_part := match opt_or_none route_id with Some r => r | None => "unrouted" end in
  let index_part := match target_index with Some n => py_str n | None => "target" end in
  "plan:" +:+ event_id +:+ ":" +:+ route_part +:+ ":" +:+ index_part +:+ ":" +:+ target_hash target.

(** [FallbackResolver.resolve_fallback]. *)
Definition resolve_fallback (event : CanonicalEvent) (target : RouteTarget)
    (capabilities : AdapterCapabilities) (route_id : option string) (target_index : option Z)
    : result exc DeliveryPlan :=
  decision ← decide_capability event capabilities (rt_adapter target);
  Ok {| pl_plan_id := stable_delivery_plan_id (ev_event_id event) target route_id target_index;
        pl_event_id := ev_event_id event; pl_target := target;
        pl_primary_strategy := DeliveryStrategy_of (dc_delivery_strategy decision);
        pl_fallback_chain := []; pl_retry_policy := None; pl_deadline := None; pl_route_id := None;
        pl_target_identity := delivery_target_identity target;
        pl_capability_level := Some (dc_capability_level decision);
        pl_capability_field := dc_capability_field decision;
        pl_capability_reason := dc_reason decision |}.
End plan_id.

(** ** Failure taxonomy *)

Inductive DeliveryFailureKind : Set :=
| PLANNER_FAILURE | RENDERER_FAILURE | ADAPTER_TRANSIENT | ADAPTER_PERMANENT | ADAPTER_MISSING
| DEADLINE_EXCEEDED | CAPACITY_REJECTION | SHUTDOWN_REJECTION | LOOP_SUPPRESSED | POLICY_SUPPRESSED
| CAPABILITY_SUPPRESSED | OUTBOX_NOT_OWNED | REPLAY_DUPLICATE_SUPPRESSED.

#[export] Instance DeliveryFailureKind_eq_dec : EqDecision DeliveryFailureKind.
Proof. solve_decision. Defined.

Definition all_failure_kinds : list DeliveryFailureKind :=
  [PLANNER_FAILURE; RENDERER_FAILURE; ADAPTER_TRANSIENT; ADAPTER_PERMANENT; ADAPTER_MISSING;
   DEADLINE_EXCEEDED; CAPACITY_REJECTION; SHUTDOWN_REJECTION; LOOP_SUPPRESSED; POLICY_SUPPRESSED;
   CAPABILITY_SUPPRESSED; OUTBOX_NOT_OWNED; REPLAY_DUPLICATE_SUPPRESSED].

(** [kind.value]. *)
Definition failure_value (k : DeliveryFailureKind) : string :=
  match k with
  | PLANNER_FAILURE => "planner_failure" | RENDERER_FAILURE => "renderer_failure"
  | ADAPTER_TRANSIENT => "adapter_transient" | ADAPTER_PERMANENT => "adapter_permanent"
  | ADAPTER_MISSING => "adapter_missing" | DEADLINE_EXCEEDED => "deadline_exceeded"
  | CAPACITY_REJECTION => "capacity_rejection" | SHUTDOWN_REJECTION => "shutdown_rejection"
  | LOOP_SUPPRESSED => "loop_suppressed" | POLICY_SUPPRESSED => "policy_suppressed"
  | CAPABILITY_SUPPRESSED => "capability_suppressed" | OUTBOX_NOT_OWNED => "outbox_not_owned"
  | REPLAY_DUPLICATE_SUPPRESSED => "replay_duplicate_suppressed"
  end.

(** [DeliveryFailureKind(value)], whose ValueError is [None] here. *)
Definition parse_failure_kind (value : string) : option DeliveryFailureKind :=
  List.find (fun k => bool_decide (failure_value k = value)) all_failure_kinds.

Definition is_retryable (k : DeliveryFailureKind) : bool := bool_decide (k = ADAPTER_TRANSIENT).

Lemma parse_failure_value k : parse_failure_kind (failure_value k) = Some k.
Proof. by destruct k. Qed.

Lemma failure_value_inj : Inj (=) (=) failure_value.
Proof. intros a b H. apply (inj Some). by rewrite <-!parse_failure_value, H. Qed.

(** ** Exceptions

    What the classification looks at: whether the object is an
    [AdapterSendError] (with its [transient] flag), whether it is one of the
    standard transient types, all of them subclasses of [OSError], and its
    rendered type name and text. *)
Record raised : Set := {
  ex_type_name : string;
  ex_text : string;
  ex_adapter_send_error : option bool;
  ex_os_error : bool
}.

(** [RetryExecutor.classify_failure]; [now] is read only when a deadline is
    given, an aware one that compares by its instant. *)
Definition classify_failure (error : raised)
    (adapter_registered renderer_failed planner_failed : bool) (deadline : option instant)
    (now : instant) : DeliveryFailureKind :=
  if planner_failed then PLANNER_FAILURE
  else if renderer_failed then RENDERER_FAILURE
  else if negb adapter_registered then ADAPTER_MISSING
  else if match deadline with Some t => t <? now | None => false end then DEADLINE_EXCEEDED
  else match ex_adapter_send_error error with
  | Some transient => if transient then ADAPTER_TRANSIENT else ADAPTER_PERMANENT
  | None => if ex_os_error error then ADAPTER_TRANSIENT else ADAPTER_PERMANENT
  end.

(** ** Retry budget *)

Definition is_exhausted (policy : RetryPolicy) (attempt_number : Z) : bool :=
  rp_max_attempts policy <=? attempt_number.

Definition next_attempt_number (previous_attempt : Z) : Z := previous_attempt + 1.

(** ** Texts determine targets *)

(** Equality of JSON documents as dictionaries mean it: arrays member by
    member, objects with the same keys whose members are equal, in whatever
    order they were inserted.  It does not mention the canonical form. *)
Inductive same_document : json -> json -> Prop :=
| same_null : same_document JNull JNull
| same_bool b : same_document (JBool b) (JBool b)
| same_int n : same_document (JInt n) (JInt n)
| same_str s : same_document (JStr s) (JStr s)
| same_arr xs ys : Forall2 same_document xs ys -> same_document (JArr xs) (JArr ys)
| same_obj kvs kvs' kvs'' : kvs ≡ₚ kvs' ->
    Forall2 (fun x y => x.1 = y.1 /\ same_document x.2 y.2) kvs' kvs'' ->
    same_document (JObj kvs) (JObj kvs'').

(** A dictionary holds a key once, at every depth. *)
Fixpoint keys_once (j : json) : Prop :=
  match j with
  | JArr xs => foldr (fun x P => keys_once x /\ P) True xs
  | JObj kvs => NoDup (fst <$> kvs) /\ foldr (fun kv P => keys_once kv.2 /\ P) True kvs
  | _ => True
  end.

Definition metadata_keys_once (t : RouteTarget) : Prop :=
  forall d, rt_destination t = Some d -> keys_once (JObj (dst_metadata d)).

(** The same adapter, channel and destination, the metadata as documents. *)
Definition same_route_target (a b : RouteTarget) : Prop :=
  rt_adapter a = rt_adapter b /\ rt_channel a = rt_channel b /\
  match rt_destination a, rt_destination b with
  | Some x, Some y =>
      dst_kind x = dst_kind y /\ dst_hash x = dst_hash y /\ dst_name x = dst_name y /\
      same_document (JObj (dst_metadata x)) (JObj (dst_metadata y))
  | None, None => True
  | _, _ => False
  end.

Lemma foldr_Forall {A} (P : A -> Prop) l : foldr (fun x Q => P x /\ Q) True l <-> Forall P l.
Proof. induction l as [|x l IH]; cbn; [by rewrite Forall_nil|]. by rewrite Forall_cons, IH. Qed.

(** Documents with one canonical form are the same document. *)
Lemma sort_keys_same j k : sort_keys j = sort_keys k -> same_document j k.
Proof.
  revert k. induction j as [|b|n|s|xs IH|kvs IH] using json_ind'; intros [] H; cbn in H;
    try discriminate; simplify_eq; try by constructor.
  - constructor. revert xs0 H. induction IH as [|x xs Hx _ IH]; intros [|y ys] H; cbn in H;
      simplify_eq; constructor; auto.
  - set (f := fun kv : string * json => (kv.1, sort_keys kv.2)) in *.
    assert (Hp : f <$> kvs ≡ₚ f <$> kvs0).
    { rewrite <- (sorted_by_perm key_order (f <$> kvs)), H. apply sorted_by_perm. }
    symmetry in Hp. apply Permutation_map_inv in Hp as (kvs' & Heq & Hp).
    econstructor; [exact Hp|]. rewrite Hp in IH. clear H Hp.
    revert kvs0 Heq. induction IH as [|x l Hx _ IHl]; intros [|y l'] Heq; cbn in Heq;
      simplify_eq; constructor; auto.
Qed.

Lemma same_sort_keys j k : keys_once j -> same_document j k -> sort_keys j = sort_keys k.
Proof.
  revert k. induction j as [| | | |xs IH|kvs IH] using json_ind'; intros k Hk H; inversion H; subst;
    try done; cbn [sort_keys]; f_equal.
  - cbn in Hk. apply foldr_Forall in Hk. clear H. revert Hk.
    match goal with Hf : Forall2 _ xs _ |- _ => revert IH; induction Hf as [|x y l l' Hxy _ IHl] end;
      [done|]. intros [Hx Hl]%Forall_cons [Hkx Hkl]%Forall_cons. cbn. f_equal; auto.
  - destruct Hk as [Hnd Hk%(foldr_Forall (fun kv : string * json => keys_once kv.2))]. clear H.
    set (f := fun kv : string * json => (kv.1, sort_keys kv.2)).
    match goal with Hp : kvs ≡ₚ ?m, Hf : Forall2 _ ?m ?n |- _ =>
      assert (Hmn : f <$> m = f <$> n) by
        (rewrite Hp in IH, Hk; clear -IH Hk Hf; revert IH Hk;
         induction Hf as [|[x1 x2] [y1 y2] l l' [Hxy1 Hxy2] _ IHl]; [done|];
         intros [Hx Hl]%Forall_cons [Hkx Hkl]%Forall_cons; cbn in *; subst; unfold f at 1 3; cbn;
         f_equal; [f_equal|]; auto);
      rewrite <- Hmn; apply (fmap_Permutation f) in Hp; clear Hf; revert Hp; generalize m end.
    intros m Hp. apply sorted_by_perm_inv; [apply key_order_total| |done].
    intros [k1 v1] [k2 v2] H1 H2 H12 H21.
    assert (k1 = k2) as <- by (by apply String.leb_antisym).
    assert (Hn : NoDup (fst <$> (f <$> kvs))) by by rewrite <- list_fmap_compose.
    apply list_elem_of_lookup in H1 as [i1 H1], H2 as [i2 H2].
    assert (i1 = i2) as ->; [|congruence].
    apply (NoDup_lookup _ i1 i2 k1 Hn); by rewrite list_lookup_fmap, ?H1, ?H2.
Qed.

Lemma json_opt_str_inj a b : json_opt_str a = json_opt_str b -> a = b.
Proof. destruct a, b; simpl; congruence. Qed.

Lemma sort_keys_opt_str o : sort_keys (json_opt_str o) = json_opt_str o.
Proof. by destruct o. Qed.

(** The document as it is printed, its fixed keys in order. *)
Lemma identity_text t :
  delivery_target_identity t =
  json_text (JObj [("adapter", json_opt_str (rt_adapter t)); ("channel", json_opt_str (rt_channel t));
    ("destination", match rt_destination t with
      | Some d => JObj [("destination_hash", json_opt_str (dst_hash d));
                        ("destination_name", json_opt_str (dst_name d)); ("kind", JStr (dst_kind d));
                        ("metadata", canonical_json_value (JObj (dst_metadata d)))]
      | None => JNull end)]).
Proof.
  unfold delivery_target_identity, json_dumps, destination_document. f_equal.
  destruct t as [a c [d|]]; simpl rt_destination; cbn [sort_keys fmap list_fmap fst snd];
    rewrite !sort_keys_opt_str; [|reflexivity].
  unfold canonical_json_value. by rewrite sort_keys_idem.
Qed.

(** Two targets have one identity text exactly when they are the same. *)
Lemma delivery_target_identity_same a b :
  metadata_keys_once a ->
  delivery_target_identity a = delivery_target_identity b <-> same_route_target a b.
Proof.
  intros Hk. rewrite !identity_text. unfold same_route_target, metadata_keys_once in *.
  destruct a as [aa ac ad], b as [ba bc bd].
  cbn [rt_adapter rt_channel rt_destination] in *. split.
  - intros H%json_text_inj. injection H as H1 H2 H3. apply json_opt_str_inj in H1, H2. subst.
    destruct ad as [x|], bd as [y|]; try discriminate; [|done]. cbn in H3.
    injection H3 as H4 H5 H6 H7. apply json_opt_str_inj in H4, H5.
    split_and!; try done. apply sort_keys_same. cbn [sort_keys]. by f_equal.
  - intros (-> & -> & H3). destruct ad as [x|], bd as [y|]; try done.
    destruct H3 as (-> & -> & -> & H7). specialize (Hk x eq_refl).
    unfold canonical_json_value. by rewrite (same_sort_keys _ _ Hk H7).
Qed.

Lemma append_suffix_inj (a b x y : string) :
  String.length x = String.length y -> a +:+ x = b +:+ y -> a = b /\ x = y.
Proof.
  assert (forall s t : string, String.length (s +:+ t) = (String.length s + String.length t)%nat) as Hl
    by (intros s t; induction s as [|c s IH]; [done|exact (f_equal S IH)]).
  intros Hlen. revert b. induction a as [|c a IH]; intros [|d b] H.
  - done.
  - exfalso. apply (f_equal String.length) in H. change ("" +:+ x) with x in H. rewrite Hl in H. simpl in H. lia.
  - exfalso. apply (f_equal String.length) in H. change ("" +:+ y) with y in H. rewrite Hl in H. simpl in H. lia.
  - change (String c (a +:+ x) = String d (b +:+ y)) in H. injection H as -> H.
    by destruct (IH b H) as [-> ->].
Qed.

Lemma append_prefix_inj (p a b : string) : p +:+ a = p +:+ b -> a = b.
Proof. induction p as [|c p IH]; [done|]. intros [= H]. by apply IH. Qed.

Lemma substring_length n s : (n <= String.length s)%nat -> String.length (String.substring 0 n s) = n.
Proof.
  revert n. induction s as [|c s IH]; intros [|n]; simpl; try done; [lia|]. intros H. rewrite IH; lia.
Qed.

(** C37: plan identifiers are deterministic and tell targets apart.  For one
    event and route, the identifiers of two planned targets agree exactly when
    the positions agree and the targets are the same: equal adapter, channel,
    destination kind, hash and name, and metadata equal as dictionaries at every
    depth, whatever the insertion order of their keys.  This assumes that
    SHA-256 yields its 64 digits, that its first sixteen do not collide on the
    two identity texts, and that the dictionaries hold each key once; metadata
    with floating-point members is outside the model. *)
Theorem plan_id_identifies_target sha256 event route a b i j :
  (forall s, String.length (sha256 s) = 64%nat) ->
  (target_hash sha256 a = target_hash sha256 b -> delivery_target_identity a = delivery_target_identity b) ->
  metadata_keys_once a ->
  stable_delivery_plan_id sha256 event a route i = stable_delivery_plan_id sha256 event b route j <->
  i = j /\ same_route_target a b.
Proof.
  intros Hlen Hcoll Hk. unfold stable_delivery_plan_id. split.
  - intros H. do 2 apply append_prefix_inj in H. apply (append_prefix_inj ":") in H.
    apply append_prefix_inj, (append_prefix_inj ":") in H.
    rewrite <-!append_assoc in H. apply append_suffix_inj in H as [H Hh].
    2: { unfold target_hash. rewrite !substring_length; rewrite ?Hlen; lia. }
    apply append_suffix_inj in H as [H _]; [|done]. split.
    + destruct i as [n|], j as [m|]; [by apply (inj pretty) in H as -> | | |done].
      * pose proof (py_str_starts n "") as Hn. rewrite H in Hn. done.
      * pose proof (py_str_starts m "") as Hm. rewrite <-H in Hm. done.
    + by apply delivery_target_identity_same, Hcoll.
  - intros [-> Ht%delivery_target_identity_same]; [|done]. unfold target_hash. by rewrite Ht.
Qed.

Module PlanExamples.
Definition dest (metadata : list (string * json)) : RouteTarget :=
  {| rt_adapter := Some "mesh"; rt_channel := None;
     rt_destination := Some {| dst_kind := "lxmf_destination"; dst_hash := Some "ab12"; dst_name := None;
                               dst_metadata := metadata |} |}.

(** A stand-in for SHA-256: 64 characters that keep the start of the text. *)
Definition pad (s : string) : string :=
  String.substring 0 64 (s +:+ "0000000000000000000000000000000000000000000000000000000000000000").

Lemma pad_length s : String.length (pad s) = 64%nat.
Proof.
  unfold pad. apply substring_length.
  assert (forall t, (64 <= String.length (t +:+ "0000000000000000000000000000000000000000000000000000000000000000"))%nat)
    as H; [|apply H].
  induction t as [|c t IH]; [done|]. etrans; [exact IH|]. apply le_S, le_n.
Qed.

Definition members : list (string * json) :=
  [("a", JInt 1); ("b", JObj [("x", JNull); ("y", JBool true)])].
Definition reordered : list (string * json) :=
  [("b", JObj [("y", JBool true); ("x", JNull)]); ("a", JInt 1)].

Lemma members_once : metadata_keys_once (dest members).
Proof.
  intros d [= <-]. cbn. split_and!; try done; apply (bool_decide_unpack _); reflexivity.
Qed.

Lemma members_same : same_route_target (dest members) (dest reordered).
Proof. unfold same_route_target. cbn. split_and!; try done. apply sort_keys_same. vm_compute. reflexivity. Qed.

Lemma plan_id_identifies_target_witness :
  stable_delivery_plan_id pad "evt-1" (dest members) (Some "r1") (Some 0) =
  stable_delivery_plan_id pad "evt-1" (dest reordered) (Some "r1") (Some 0).
Proof.
  apply (plan_id_identifies_target pad "evt-1" (Some "r1") (dest members) (dest reordered) (Some 0) (Some 0)).
  - apply pad_length.
  - intros _. vm_compute. reflexivity.
  - apply members_once.
  - split; [reflexivity|apply members_same].
Defined.

Example plan_id_example :
  stable_delivery_plan_id pad "evt-1" (dest []) None (Some 2) <>
  stable_delivery_plan_id pad "evt-1" (dest []) None None.
Proof. vm_compute. done. Qed.
End PlanExamples.
