(* ===== verification/StorageProgram.v ===== *)
(** * Programs over the store

    The pipeline's coroutines ([src/src/medre/core/engine/pipeline/]) call the
    storage backend with [await]: each call is one transaction, and between two
    calls any other task may change the database.  A program is a function of
    the world: the database, what happens around each of its calls (operations
    of others that run first, and possibly an error of the database that
    makes the call raise without effect), the clock readings and the UUIDs it
    will draw.  Theorems quantify over the world, so they cover every
    interleaving. *)

From S2P Require Import Prelude.
From S2P Require Import Delivery.
From S2P Require Import Store.
From S2P Require Import Outbox.
From S2P Require Import OutboxProofs.

Open Scope string_scope.
Open Scope list_scope.
Open Scope Z_scope.

Record turn : Type := { tn_others : list outbox_op; tn_fault : option exc }.

Record world : Type := {
  w_db : db;
  w_turns : list turn;
  w_clock : nat -> instant;
  w_uuid : nat -> string
}.

Definition proc (A : Type) : Type := world -> result exc A * world.

#[export] Instance proc_ret : MRet proc := fun _ a w => (Ok a, w).
#[export] Instance proc_bind : MBind proc := fun _ _ k m w =>
  match m w with
  | (Ok a, w') => k a w'
  | (Raise e, w') => (Raise e, w')
  end.

Definition proc_map {A B} (f : A -> B) (m : proc A) : proc B := a ← m; mret (f a).
Infix "<$$>" := proc_map (at level 61, left associativity).

Definition throw {A} (e : exc) : proc A := fun w => (Raise e, w).

Definition of_result {A} (r : result exc A) : proc A := fun w => (r, w).

(** [try: m except Exception: h]. *)
Definition try_except {A} (m h : proc A) : proc A := fun w =>
  match m w with
  | (Ok a, w') => (Ok a, w')
  | (Raise _, w') => h w'
  end.

Definition set_db (w : world) (d : db) : world :=
  {| w_db := d; w_turns := w_turns w; w_clock := w_clock w; w_uuid := w_uuid w |}.

Definition next_turn (w : world) : turn * world :=
  match w_turns w with
  | [] => ({| tn_others := []; tn_fault := None |}, w)
  | t :: ts => (t, {| w_db := w_db w; w_turns := ts; w_clock := w_clock w; w_uuid := w_uuid w |})
  end.

(** One awaited call of the storage backend. *)
Definition call {A} (f : db -> result exc A * db) : proc A := fun w =>
  let '(t, w') := next_turn w in
  let d := exec (tn_others t) (w_db w) in
  match tn_fault t with
  | Some e => (Raise e, set_db w' d)
  | None => let '(r, d') := f d in (r, set_db w' d')
  end.

Definition query {A} (f : db -> result exc A) : proc A := call (fun d => (f d, d)).

(** [datetime.now(timezone.utc)]. *)
Definition read_clock : proc instant := fun w =>
  (Ok (w_clock w 0%nat),
   {| w_db := w_db w; w_turns := w_turns w; w_clock := fun n => w_clock w (S n); w_uuid := w_uuid w |}).

(** [uuid.uuid4()]. *)
Definition new_uuid : proc string := fun w =>
  (Ok (w_uuid w 0%nat),
   {| w_db := w_db w; w_turns := w_turns w; w_clock := w_clock w; w_uuid := fun n => w_uuid w (S n) |}).

(** ** Every run is a run of the store *)

Lemma exec_app ops1 ops2 d : exec (ops1 ++ ops2) d = exec ops2 (exec ops1 d).
Proof. apply foldl_app. Qed.

(** A storage method whose effect is that of store operations. *)
Class Stepped {A} (f : db -> result exc A * db) : Prop :=
  stepped d : exists ops, (f d).2 = exec ops d.

Class Traced {A} (p : proc A) : Prop :=
  traced w : exists ops, w_db (p w).2 = exec ops (w_db w).

#[global] Typeclasses Opaque create_outbox_item reserve_outbox_attempt mark_outbox_sent
  mark_outbox_queued mark_outbox_retry_wait mark_outbox_dead_lettered mark_outbox_cancelled
  mark_outbox_abandoned renew_outbox_lease release_outbox_claim finalize_deferred_handoff
  finalize_outbox_terminal append_receipt.

Ltac by_op op := intros d; exists [op]; reflexivity.

#[export] Instance stepped_query {A} (f : db -> result exc A) : Stepped (fun d => (f d, d)).
Proof. intros d. by exists []. Qed.
#[export] Instance stepped_create now item b s : Stepped (create_outbox_item now item b s).
Proof. by_op (OpCreate now item b s). Qed.
#[export] Instance stepped_reserve now i w n : Stepped (reserve_outbox_attempt now i w n).
Proof. by_op (OpReserve now i w n). Qed.
#[export] Instance stepped_sent now i r n w : Stepped (mark_outbox_sent now i r n w).
Proof. by_op (OpSent now i r n w). Qed.
#[export] Instance stepped_queued now i r n w : Stepped (mark_outbox_queued now i r n w).
Proof. by_op (OpQueued now i r n w). Qed.
#[export] Instance stepped_retry_wait now i t r k x e n w :
  Stepped (mark_outbox_retry_wait now i t r k x e n w).
Proof. by_op (OpRetryWait now i t r k x e n w). Qed.
#[export] Instance stepped_dead now i r k x e n w : Stepped (mark_outbox_dead_lettered now i r k x e n w).
Proof. by_op (OpDeadLettered now i r k x e n w). Qed.
#[export] Instance stepped_cancelled now i e r k n w : Stepped (mark_outbox_cancelled now i e r k n w).
Proof. by_op (OpCancelled now i e r k n w). Qed.
#[export] Instance stepped_abandoned now i e r k n w : Stepped (mark_outbox_abandoned now i e r k n w).
Proof. by_op (OpAbandoned now i e r k n w). Qed.
#[export] Instance stepped_renew now i w t : Stepped (renew_outbox_lease now i w t).
Proof. by_op (OpRenew now i w t). Qed.
#[export] Instance stepped_release now i w s : Stepped (release_outbox_claim now i w s).
Proof. by_op (OpRelease now i w s). Qed.
#[export] Instance stepped_handoff c : Stepped (finalize_deferred_handoff c).
Proof. by_op (OpHandoff c). Qed.
#[export] Instance stepped_terminal c : Stepped (finalize_outbox_terminal c).
Proof. by_op (OpTerminal c). Qed.
#[export] Instance stepped_receipt r : Stepped (append_receipt r).
Proof. by_op (OpReceipt r). Qed.

#[export] Instance traced_ret {A} (a : A) : Traced (mret (M := proc) a).
Proof. intros w. by exists []. Qed.
#[export] Instance traced_throw {A} (e : exc) : Traced (throw (A := A) e).
Proof. intros w. by exists []. Qed.
#[export] Instance traced_of_result {A} (r : result exc A) : Traced (of_result r).
Proof. intros w. by exists []. Qed.
#[export] Instance traced_clock : Traced read_clock.
Proof. intros w. by exists []. Qed.
#[export] Instance traced_uuid : Traced new_uuid.
Proof. intros w. by exists []. Qed.

#[export] Instance traced_bind {A B} (m : proc A) (k : A -> proc B) :
  Traced m -> (forall a, Traced (k a)) -> Traced (m ≫= k).
Proof.
  intros Hm Hk w. unfold mbind, proc_bind. destruct (Hm w) as [ops1 H1].
  destruct (m w) as [[a|e] w1]; [|by exists ops1].
  destruct (Hk a w1) as [ops2 H2]. exists (ops1 ++ ops2). simpl in H1. by rewrite exec_app, <-H1.
Qed.

#[export] Instance traced_map {A B} (f : A -> B) (m : proc A) : Traced m -> Traced (f <$$> m).
Proof. intros Hm. unfold proc_map. apply _. Qed.

#[export] Instance traced_try {A} (m h : proc A) : Traced m -> Traced h -> Traced (try_except m h).
Proof.
  intros Hm Hh w. unfold try_except. destruct (Hm w) as [ops1 H1].
  destruct (m w) as [[a|e] w1]; [by exists ops1|].
  destruct (Hh w1) as [ops2 H2]. exists (ops1 ++ ops2). simpl in H1. by rewrite exec_app, <-H1.
Qed.

#[export] Instance traced_call {A} (f : db -> result exc A * db) : Stepped f -> Traced (call f).
Proof.
  intros Hf w. unfold call, next_turn. destruct (w_turns w) as [|[others [e|]] ts]; simpl.
  - destruct (Hf (w_db w)) as [ops H]. exists ops. by destruct (f _).
  - by exists others.
  - destruct (Hf (exec others (w_db w))) as [ops H]. exists (others ++ ops). rewrite exec_app.
    by destruct (f _).
Qed.

#[export] Instance traced_query {A} (f : db -> result exc A) : Traced (query f).
Proof. apply _. Qed.

(** ** Running to a result *)

Lemma proc_bind_Ok {A B} (m : proc A) (k : A -> proc B) w b w' :
  (m ≫= k) w = (Ok b, w') -> exists a w1, m w = (Ok a, w1) /\ k a w1 = (Ok b, w').
Proof. unfold mbind, proc_bind. destruct (m w) as [[a|e] w1]; [|done]. intros H. by exists a, w1. Qed.

(** A call that returned ran its method on a database the others had left. *)
Lemma call_Ok {A} (f : db -> result exc A * db) w a w' :
  call f w = (Ok a, w') -> exists others, f (exec others (w_db w)) = (Ok a, w_db w').
Proof.
  unfold call, next_turn. destruct (w_turns w) as [|[others [e|]] ts]; simpl.
  - destruct (f (w_db w)) as [r d] eqn:E. intros [= -> <-]. by exists [].
  - done.
  - destruct (f _) as [r d] eqn:E. intros [= -> <-]. by exists others.
Qed.

Lemma query_Ok {A} (f : db -> result exc A) w a w' :
  query f w = (Ok a, w') -> exists others, f (exec others (w_db w)) = Ok a /\ w_db w' = exec others (w_db w).
Proof. intros [others [= Hf Hw]]%call_Ok. by exists others. Qed.

Lemma read_clock_Ok w t w' : read_clock w = (Ok t, w') -> w_db w' = w_db w.
Proof. by intros [= _ <-]. Qed.

Lemma new_uuid_Ok w t w' : new_uuid w = (Ok t, w') -> w_db w' = w_db w.
Proof. by intros [= _ <-]. Qed.
