(* ===== verification/MaintenanceSafety.v ===== *)
(** * What cleanup and operator decisions guarantee

    A deadline sweep is a sequence of single-row retirements in one
    transaction; an operator decision is about one row as the operator saw it
    and takes effect at most once. *)

From S2P Require Import Prelude.
From S2P Require Import Json.
From S2P Require Import DeliveryState.
From S2P Require Import Delivery.
From S2P Require Import Store.
From S2P Require Import Outbox.
From S2P Require Import OutboxMaintenance.
From S2P Require Import OutboxProofs.
From S2P Require Import OutboxSafety.
From S2P Require Import OutboxClaims.
From S2P Require Import StorageProgram.

Open Scope string_scope.
Open Scope list_scope.
Open Scope Z_scope.

(** ** One retirement *)

(** A dependency row up to its release. *)
Definition same_owner (p q : Dependency) : Prop :=
  dp_event_id q = dp_event_id p /\ dp_owner_kind q = dp_owner_kind p /\
  dp_owner_id q = dp_owner_id p /\ dp_deadline q = dp_deadline p.

#[export] Instance same_owner_preorder : PreOrder same_owner.
Proof. split; [done|]. intros a b c (? & ? & ? & ?) (? & ? & ? & ?). unfold same_owner. split_and!; congruence. Qed.

Lemma settle_same_owner i e t d u d' :
  settle_outbox_content_dependency i e t d = Ok (u, d') -> Forall2 same_owner (dependencies d) (dependencies d').
Proof.
  intros [= _ <-]. cbn. apply Forall2_fmap_r, Forall_Forall2_diag, Forall_forall. intros p _. cbv [compose]. by case_match.
Qed.

Lemma retire_row_Ok observed seen d b d' :
  retire_row observed seen d = Ok (b, d') ->
  if b then
    exists r : Row, r ∈ outbox d /\ retire_guard seen d r = true /\
      outbox d' = updated (retire_guard seen) (retire_state observed) d /\
      snapshots d' = filter (fun s => sn_outbox_id s <> outbox_id seen) (snapshots d) /\
      Forall2 same_owner (dependencies d) (dependencies d') /\
      access_policies d' = access_policies d
  else d' = d.
Proof.
  unfold retire_row. intros (n & d1 & Hu & H)%tx_bind_Ok.
  assert (Hid : forall r, retire_guard seen d r = true -> outbox_id r = outbox_id seen)
    by (intros r; unfold retire_guard; breflect; tauto).
  destruct (update_rowcount _ _ _ _ _ _ Hid Hu) as [[-> ->]|[-> (r & Hr & Hg & _)]].
  { by injection H as <- <-. }
  cbn [Z.eqb negb Pos.eqb] in H.
  apply update_outbox_Ok in Hu as (-> & _).
  apply tx_bind_Ok in H as ([] & d2 & Hset & H). pose proof (settle_same_owner _ _ _ _ _ _ Hset) as Hdep.
  injection Hset as <-. apply tx_bind_Ok in H as ([] & d3 & [= <-] & H).
  apply tx_bind_Ok in H as ([] & d4 & Hops & [= <- <-]).
  assert (forall {T} (f : db -> T), (forall d x, same f d (set_diagnostics d x)) ->
    keeps f (run_ops (outbox_diagnostic_ops [("failure_kind_detail", Some "");
      ("error_summary", Some DEADLINE_RETIREMENT_SUMMARY)] observed (outbox_id seen)))) as Hk.
  { intros T f Hf. apply tx_rel_run_ops; [apply _|]. apply keeps_outbox_diagnostic_ops; [apply _|exact Hf]. }
  exists r. split; [done|]. split; [done|].
  split_and!; [exact (Hk _ outbox (fun _ _ => eq_refl) _ _ _ Hops)
    |exact (Hk _ snapshots (fun _ _ => eq_refl) _ _ _ Hops)
    |rewrite (Hk _ dependencies (fun _ _ => eq_refl) _ _ _ Hops); exact Hdep
    |exact (Hk _ access_policies (fun _ _ => eq_refl) _ _ _ Hops)].
Qed.

(** ** The sweep against the database it started from *)

Section sweep.
Context (observed : instant) (d0 : db) (Hc0 : outbox_constraints (outbox d0) = true).

Abbreviation ids rets := (rt_outbox_id <$> rets).

Definition retired_rows (retired : list string) : list Row :=
  (fun r : Row => if decide (outbox_id r ∈ retired) then with_state r (retire_state observed r) else r)
    <$> outbox d0.

(** Why a row may be retired: nothing was ever sent for its generation, it is
    the newest one, and the earliest of its bounds has passed. *)
Record justified (t : DeadlineRetirement) : Prop := {
  js_row : exists r : Row, r ∈ outbox d0 /\ outbox_id r = rt_outbox_id t /\ event_id r = rt_event_id t /\
    attempt_number r = rt_attempt_number t /\ status r = rt_prior_status t /\ unstarted r = true /\
    no_newer_generation d0 r = true;
  js_bounds : exists bs, deadline_bounds (rt_event_id t) (rt_outbox_id t) d0 = Some bs /\
    min_instants bs = Some (rt_effective_deadline t);
  js_elapsed : rt_effective_deadline t <= observed;
  js_at : rt_retired_at t = observed
}.

Record swept (rets : list DeadlineRetirement) (d : db) : Prop := {
  sp_rows : outbox d = retired_rows (ids rets);
  sp_snapshots : snapshots d = filter (fun s => sn_outbox_id s ∉ ids rets) (snapshots d0);
  sp_dependencies : Forall2 same_owner (dependencies d0) (dependencies d);
  sp_policies : access_policies d = access_policies d0;
  sp_justified : Forall justified rets;
  sp_nodup : NoDup (ids rets)
}.

Lemma swept_start : swept [] d0.
Proof.
  split; [| |by apply Forall_Forall2_diag, Forall_forall|done|constructor|constructor].
  - unfold retired_rows. clear Hc0. induction (outbox d0) as [|r l IH]; [done|].
    rewrite fmap_cons, decide_False by apply not_elem_of_nil. by f_equal.
  - induction (snapshots d0) as [|x l IH]; [done|]. rewrite filter_cons_True by apply not_elem_of_nil.
    by f_equal.
Qed.

(** A row that still reads as unstarted was not retired. *)
Lemma swept_unstarted rets d (r : Row) :
  swept rets d -> r ∈ outbox d -> unstarted r = true -> r ∈ outbox d0 /\ outbox_id r ∉ ids rets.
Proof.
  intros [Hrows _ _ _ _ _] Hr Hun. rewrite Hrows in Hr.
  apply list_elem_of_fmap in Hr as (r0 & Hr & Hr0). case_decide as Hin; subst r.
  - by unfold unstarted in Hun.
  - done.
Qed.

Lemma swept_constraint_row rets d (r : Row) :
  swept rets d -> r ∈ outbox d0 -> outbox_id r ∉ ids rets -> r ∈ outbox d.
Proof.
  intros [Hrows _ _ _ _ _] Hr Hnot. rewrite Hrows. apply list_elem_of_fmap. exists r.
  by rewrite decide_False.
Qed.

Lemma bounds_dependency (event id : string) l l' :
  Forall2 same_owner l l' ->
  let owner p := bool_decide (dp_event_id p = event) && bool_decide (dp_owner_kind p = "outbox") &&
    bool_decide (dp_owner_id p = id) in
  List.find owner l' ≫= dp_deadline = List.find owner l ≫= dp_deadline.
Proof.
  intros H owner. induction H as [|p q l l' (E1 & E2 & E3 & E4) _ IH]; [done|]. cbn.
  assert (owner q = owner p) as -> by (unfold owner; by rewrite E1, E2, E3).
  destruct (owner p); cbn; [by rewrite E4|exact IH].
Qed.

Lemma find_filter {A} (f : A -> bool) (P : A -> Prop) `{!forall x, Decision (P x)} l :
  (forall x, f x = true -> P x) -> List.find f (filter P l) = List.find f l.
Proof.
  intros HfP. induction l as [|x l IH]; [done|]. destruct (decide (P x)) as [HP|HP].
  - rewrite filter_cons_True by done. cbn. by rewrite IH.
  - rewrite filter_cons_False by done. cbn. destruct (f x) eqn:E; [by apply HfP in E|done].
Qed.

(** Other retirements do not change the bounds of a row. *)
Lemma swept_bounds rets d event id :
  swept rets d -> id ∉ ids rets -> deadline_bounds event id d = deadline_bounds event id d0.
Proof.
  intros [Hrows Hsn Hdep Hpol _ _] Hid. unfold deadline_bounds.
  rewrite Hpol, Hsn, (bounds_dependency event id _ _ Hdep).
  rewrite find_filter by (intros s; by rewrite bool_decide_eq_true; intros ->).
  assert (match find_outbox d id with Some r => metadata r | None => [] end =
          match find_outbox d0 id with Some r => metadata r | None => [] end) as ->; [|done].
  unfold find_outbox. rewrite Hrows. unfold retired_rows. clear Hc0 Hrows Hsn Hdep Hpol.
  induction (outbox d0) as [|r l IH]; [done|]. rewrite fmap_cons.
  destruct (decide (outbox_id r ∈ ids rets)); cbn; (case_bool_decide; [done|exact IH]).
Qed.

Lemma swept_no_newer rets d (r : Row) :
  swept rets d -> no_newer_generation d r = no_newer_generation d0 r.
Proof.
  intros [Hrows _ _ _ _ _]. unfold no_newer_generation. rewrite Hrows. f_equal. apply existsb_map_ext.
  intros x. by destruct (decide _).
Qed.

Lemma guard_unstarted (seen r : Row) d :
  unstarted seen = true -> retire_guard seen d r = true ->
  unstarted r = true /\ outbox_id r = outbox_id seen /\ no_newer_generation d r = true.
Proof.
  unfold unstarted, retire_guard. rewrite !andb_true_iff, !bool_decide_eq_true.
  intros [Hs _] [[[[[Hi Hst] _] _] Hu] Hn]. by rewrite Hst.
Qed.

(** A retirement of a row that is not retired yet extends the sweep. *)
Lemma swept_retire rets d (seen : Row) t d' :
  swept rets d -> seen ∈ outbox d0 -> unstarted seen = true -> retire_row observed seen d = Ok (true, d') ->
  rt_outbox_id t = outbox_id seen -> (no_newer_generation d0 seen = true -> justified t) ->
  swept (rets ++ [t]) d'.
Proof.
  intros Hsw Hseen Hun Hr Ht Hj. apply retire_row_Ok in Hr as (r & Hin & Hg & Ho & Hsn & Hdep & Hpol).
  pose proof (guard_unstarted seen r d Hun Hg) as (Hur & Hid & Hnew).
  destruct (swept_unstarted rets d r Hsw Hin Hur) as [Hin0 Hnot].
  assert (r = seen) as -> by (by apply (unique_row d0)).
  rewrite (swept_no_newer rets d seen Hsw) in Hnew. destruct Hsw as [Hrows Hs Hd Hp Hju Hnd].
  split.
  - rewrite Ho. unfold updated. rewrite Hrows. unfold retired_rows. rewrite <-list_fmap_compose.
    apply list_fmap_ext. intros i x Hx. cbn. rewrite fmap_app. cbn. rewrite Ht.
    assert (x ∈ outbox d0) as Hxin by (by eapply list_elem_of_lookup_2).
    destruct (decide (outbox_id x ∈ ids rets)) as [Hxr|Hxr].
    + rewrite decide_True by set_solver. destruct (retire_guard seen d (with_state x (retire_state observed x))) eqn:E; [|done].
      destruct (guard_unstarted _ _ _ Hun E) as [Hbad _]. by unfold unstarted in Hbad.
    + destruct (decide (outbox_id x = outbox_id seen)) as [He|He].
      * rewrite decide_True by set_solver. assert (x = seen) as -> by (by apply (unique_row d0)). by rewrite Hg.
      * rewrite decide_False by set_solver. destruct (retire_guard seen d x) eqn:E; [|done].
        by destruct (guard_unstarted _ _ _ Hun E) as (_ & ? & _).
  - rewrite Hsn, Hs, list_filter_filter. apply list_filter_iff. intros x. rewrite fmap_app. cbn. rewrite Ht.
    set_solver.
  - by etrans.
  - congruence.
  - apply Forall_app. split; [done|]. constructor; [by apply Hj|constructor].
  - rewrite fmap_app. apply NoDup_app. split_and!; [done| |cbn; apply NoDup_singleton].
    cbn. rewrite Ht. set_solver.
Qed.

Lemma swept_row (seen : Row) s d s' d' :
  swept (sw_retired s) d -> seen ∈ outbox d0 -> unstarted seen = true -> sweep_row observed seen s d = Ok (s', d') ->
  swept (sw_retired s') d' /\ sw_examined s' = sw_examined s + 1 /\
  sw_cursor s' = Some (created_at seen, outbox_id seen) /\
  (length (sw_retired s') <= S (length (sw_retired s)))%nat.
Proof.
  intros Hsw Hseen Hun. unfold sweep_row. intros (bs & d1 & [= <- <-] & H)%tx_bind_Ok.
  destruct (min_instants _) as [eff|] eqn:Hb; [|injection H as <- <-; cbn; auto with lia].
  destruct (observed <? eff) eqn:He; [injection H as <- <-; cbn; auto with lia|].
  apply tx_bind_Ok in H as (m & d1 & Hr & [= <- <-]). destruct m.
  - cbn. rewrite length_app. cbn. split_and!; [|done|done|lia].
    eapply swept_retire; [done..| |].
    { done. }
    intros Hnew. split; cbn; [by exists seen| |by apply Z.ltb_ge|done].
    destruct (decide (outbox_id seen ∈ ids (sw_retired s))) as [Hbad|Hnot].
    + exfalso. apply retire_row_Ok in Hr as (r & Hin & Hg & _).
      pose proof (guard_unstarted seen r d Hun Hg) as (Hur & Hid & _).
      destruct (swept_unstarted _ d r Hsw Hin Hur) as [_ Hnot]. by rewrite Hid in Hnot.
    + rewrite <-(swept_bounds _ d _ _ Hsw Hnot). destruct (deadline_bounds _ _ d) as [l|]; [|done].
      by exists l.
  - apply retire_row_Ok in Hr as ->. cbn. auto with lia.
Qed.

Lemma swept_page limit page s d s' d' :
  (forall r : Row, r ∈ page -> r ∈ outbox d0 /\ unstarted r = true) ->
  swept (sw_retired s) d -> Z.of_nat (length (sw_retired s)) < limit ->
  sweep_page observed limit page s d = Ok (s', d') ->
  swept (sw_retired s') d' /\ Z.of_nat (length (sw_retired s')) <= limit /\
  sw_examined s' <= sw_examined s + Z.of_nat (length page) /\ sw_examined s <= sw_examined s'.
Proof.
  revert s d. induction page as [|r page IH]; intros s d Hp Hsw Hlt H; cbn in H.
  { injection H as <- <-. cbn. split; [done|lia]. }
  apply tx_bind_Ok in H as (s1 & d1 & Hr & H).
  destruct (Hp r) as [Hin Hun]; [left|]. destruct (swept_row r s d s1 d1 Hsw Hin Hun Hr) as (Hsw1 & He & _ & Hl).
  cbn [length]. destruct (limit <=? Z.of_nat (length (sw_retired s1))) eqn:Hlim.
  - injection H as <- <-. split; [done|lia].
  - apply Z.leb_gt in Hlim. destruct (IH s1 d1) as (? & ? & ? & ?); [|done|lia|done|split; [done|lia]].
    intros q Hq. apply Hp. by right.
Qed.

Lemma candidates_elem cursor size d (r : Row) :
  r ∈ sweep_candidates cursor size d -> r ∈ outbox d /\ unstarted r = true.
Proof.
  unfold sweep_candidates. intros Hr.
  eapply elem_of_sublist in Hr; [|apply sql_limit_sublist].
  rewrite elem_of_sorted_by, list_elem_of_filter, andb_true_iff in Hr. tauto.
Qed.

Lemma candidates_length cursor size d :
  0 <= size -> Z.of_nat (length (sweep_candidates cursor size d)) <= size.
Proof.
  intros Hs. unfold sweep_candidates, sql_limit. rewrite (proj2 (Z.ltb_ge size 0)) by lia.
  rewrite length_take. lia.
Qed.

Lemma swept_pages fuel limit budget s d s' d' :
  swept (sw_retired s) d -> Z.of_nat (length (sw_retired s)) <= limit -> sw_examined s <= budget ->
  sweep_pages fuel observed limit budget s d = Ok (s', d') ->
  swept (sw_retired s') d' /\ Z.of_nat (length (sw_retired s')) <= limit /\ sw_examined s' <= budget.
Proof.
  revert s d. induction fuel as [|fuel IH]; intros s d Hsw Hl Hb H; cbn in H; [by injection H as <- <-|].
  destruct (negb _) eqn:Hgo; [by injection H as <- <-|].
  apply negb_false_iff, andb_true_iff in Hgo as [Hgo1%Z.ltb_lt Hgo2%Z.ltb_lt].
  apply tx_bind_Ok in H as (page & d1 & [= <- <-] & H).
  set (size := Z.min 100 (budget - sw_examined s)) in *.
  destruct (last _) as [final|]; [|injection H as <- <-; done].
  apply tx_bind_Ok in H as (s1 & d1 & Hp & H).
  pose proof (candidates_length (sw_cursor s) size d ltac:(lia)) as Hlen.
  apply swept_page in Hp as (Hsw1 & Hl1 & He1 & He2); [|clear H|done|done].
  - destruct (_ && _); [injection H as <- <-; split; [done|]; cbn; lia|].
    apply (IH s1 d1); [done|done|lia|done].
  - intros r [Hr Hu]%candidates_elem. split; [|done]. by apply (swept_unstarted _ _ _ Hsw).
Qed.
End sweep.

(** C20: A deadline sweep retires only work that provably was never sent.  In
    one transaction it retires at most the given number of rows, and each of
    them was pending or waiting for a retry, unclaimed, unreserved and
    unleased, of the newest generation of its delivery, with the earliest of
    its bounds (access ceiling, dependency deadline, frozen plan deadline)
    passed; it becomes abandoned and its frozen context is gone.  Every other
    row is untouched, and a sweep that raises changes nothing. *)
Theorem deadline_sweep_safe observed limit cursor d res cursor' d' :
  reachable d -> retire_expired_unstarted_outbox observed limit cursor d = (res, (cursor', d')) ->
  match res with
  | Raise _ => cursor' = cursor /\ d' = d
  | Ok retired =>
      1 <= limit <= DEADLINE_SWEEP_MAX_LIMIT /\ Z.of_nat (length retired) <= limit /\
      NoDup (rt_outbox_id <$> retired) /\ Forall (justified observed d) retired /\
      outbox d' = (fun r : Row => if decide (outbox_id r ∈ rt_outbox_id <$> retired)
                                  then with_state r (retire_state observed r) else r) <$> outbox d /\
      forall s, s ∈ snapshots d' -> sn_outbox_id s ∉ rt_outbox_id <$> retired
  end.
Proof.
  intros Hd%reachable_constraints. unfold retire_expired_unstarted_outbox.
  destruct (negb _) eqn:Hlim; [by intros [= <- <- <-]|].
  apply negb_false_iff, andb_true_iff in Hlim as [H1%Z.leb_le H2%Z.leb_le]. unfold atomically.
  destruct (sweep_pages _ _ _ _ _ d) as [[s dx]|e] eqn:Hr.
  - cbn. intros [= <- <- <-].
    apply (swept_pages observed d Hd) in Hr as ([Hrows Hsn _ _ Hj Hnd] & Hl & _); cbn; [|by apply swept_start|lia|unfold sweep_budget; lia].
    split_and!; try done. intros x. rewrite Hsn. by intros [? _]%list_elem_of_filter.
  - destruct e; cbn; by intros [= <- <- <-].
Qed.

(** ** Operator decisions *)

Lemma decide_once_fresh now n run table d b table' d' :
  find_decision (dn_decision_id n) table = None ->
  decide_once now n run table d = (Ok b, (table', d')) ->
  b = true /\ table' = table ++ [{| rd_request := n; rd_recorded_at := now |}] /\ run d = Ok (tt, d').
Proof.
  intros Hf. unfold decide_once. rewrite Hf. unfold atomically.
  destruct ((run ;; record_decision n) d) as [[u dx]|e] eqn:Hr; [|by destruct e].
  cbn. intros [= <- <- <-]. apply tx_bind_Ok in Hr as ([] & d1 & Hr & ->%record_decision_Ok). done.
Qed.

Lemma decide_once_raise now n run table d e table' d' :
  decide_once now n run table d = (Raise e, (table', d')) -> table' = table /\ d' = d.
Proof.
  unfold decide_once. case_match; [case_bool_decide; intros; by simplify_eq|]. unfold atomically.
  destruct ((run ;; record_decision n) d) as [[u dx]|e'] eqn:Hr; [done|].
  destruct e'; cbn; intros; by simplify_eq.
Qed.

Lemma cancel_unstarted_Ok now n d u d' :
  outbox_constraints (outbox d) = true -> cancel_unstarted now n d = Ok (u, d') ->
  exists r : Row, r ∈ outbox d /\ outbox_id r = dn_outbox_id n /\ row_identity r = dn_identity n /\
    unclaimed r = true /\ as_expected n r = true /\ competing_generation n d = false /\
    outbox d' = updated (cancel_guard n) (cancel_state now) d /\ cancel_guard n d r = true /\
    snapshots d' = filter (fun s => sn_outbox_id s <> dn_outbox_id n) (snapshots d).
Proof.
  intros Hc. unfold cancel_unstarted. intros (row & d0 & [= <- <-] & H)%tx_bind_Ok.
  destruct (find_outbox d _) as [r|] eqn:Hf; [|done]. apply find_outbox_Some in Hf as [Hr Hid].
  destruct (negb (bool_decide _)) eqn:H1; [done|]. destruct (negb (_ && _)) eqn:H2; [done|].
  apply tx_bind_Ok in H as (b & d0 & [= <- <-] & H). destruct (competing_generation n d) eqn:H3; [done|].
  apply tx_bind_Ok in H as (k & d1 & Hu & H).
  apply negb_false_iff, bool_decide_eq_true in H1. apply negb_false_iff, andb_true_iff in H2 as [H2 H2'].
  apply update_outbox_Ok in Hu as (-> & _).
  destruct (negb (k =? 1)); [done|]. apply tx_bind_Ok in H as ([] & d2 & [= <-] & [= _ <-]).
  exists r. split_and!; try done. unfold cancel_guard. rewrite H2', bool_decide_eq_true_2 by done.
  unfold unclaimed in H2. rewrite !andb_true_iff in H2. by destruct H2 as [[[-> _] _] _].
Qed.

(** C21: An operator's cancellation takes effect at most once and only on what
    the operator saw.  When it takes effect, the row of the decided identity
    was at the expected generation, status and timestamp, unclaimed and
    without a competing generation; it is cancelled, its frozen context is
    gone, and the decision is recorded.  When it raises nothing changes.
    Repeating the request later, whatever operations ran in between, changes
    nothing and reports so; any other request under its identifier is
    refused. *)
Theorem operator_cancel_once now n table d res table' d' :
  reachable d -> cancel_unstarted_delivery now n table d = (res, (table', d')) ->
  match res with
  | Raise _ => table' = table /\ d' = d
  | Ok false => table' = table /\ d' = d /\ exists q, q ∈ table /\ rd_request q = n
  | Ok true =>
      table' = table ++ [{| rd_request := n; rd_recorded_at := now |}] /\
      (exists r r' : Row, r ∈ outbox d /\ outbox_id r = dn_outbox_id n /\ row_identity r = dn_identity n /\
         as_expected n r = true /\ unstarted r = true /\ competing_generation n d = false /\
         r' ∈ outbox d' /\ row_fixed r' = row_fixed r /\ status r' = Cancelled) /\
      (forall s, s ∈ snapshots d' -> sn_outbox_id s <> dn_outbox_id n) /\
      (forall ops now2 m, dn_decision_id m = dn_decision_id n -> CancelUnstartedDecision_init m = Ok tt ->
         cancel_unstarted_delivery now2 m table' (exec ops d') =
         (if bool_decide (n = m) then Ok false else Raise DECISION_ID_REBOUND, (table', exec ops d')))
  end.
Proof.
  intros Hd%reachable_constraints. unfold cancel_unstarted_delivery at 1.
  destruct (CancelUnstartedDecision_init n) as [[]|e] eqn:Hinit; [|by intros [= <- <- <-]].
  destruct (find_decision (dn_decision_id n) table) as [q|] eqn:Hf; intros H.
  - unfold decide_once in H. rewrite Hf in H. case_bool_decide; injection H as <- <- <-; [|done].
    unfold find_decision in Hf. apply find_Some_elem in Hf as [Hq _]. eauto.
  - destruct res as [b|e]; [|by eapply decide_once_raise].
    destruct (decide_once_fresh _ _ _ _ _ _ _ _ Hf H) as (-> & -> & Hrun).
    destruct (cancel_unstarted_Ok _ _ _ _ _ Hd Hrun) as (r & Hr & Hid & Hri & Hu & Ha & Hcg & Ho & Hg & Hsn).
    split; [done|]. split_and!.
    + exists r, (with_state r (cancel_state now r)). split_and!; try done.
      * unfold unstarted. rewrite Hu, andb_true_r. unfold CancelUnstartedDecision_init in Hinit.
        apply bind_Ok in Hinit as (_ & _ & Hi). case_match eqn:Hst; [done|]. apply negb_false_iff in Hst.
        unfold as_expected in Ha. rewrite !andb_true_iff, bool_decide_eq_true in Ha.
        destruct Ha as [[_ Hs] _]. rewrite <-Hs in Hst. revert Hst. by destruct (status r).
      * rewrite Ho. by apply (elem_of_updated (cancel_guard n) (cancel_state now)).
    + intros s. rewrite Hsn. by intros [? _]%list_elem_of_filter.
    + intros ops now2 m Hm Hinitm. unfold cancel_unstarted_delivery. rewrite Hinitm. unfold decide_once.
      assert (find_decision (dn_decision_id m) (table ++ [{| rd_request := n; rd_recorded_at := now |}]) =
        Some {| rd_request := n; rd_recorded_at := now |}) as ->; [|done].
      rewrite Hm. unfold find_decision in *. clear -Hf.
      induction table as [|q l IH]; cbn in *; [by rewrite bool_decide_eq_true_2|]. by case_match; [|apply IH].
Qed.

(** ** A sweep is a run of the store *)

Lemma retire_row_exec observed seen d b d' :
  unstarted seen = true -> retire_row observed seen d = Ok (b, d') -> d' = exec [OpRetire observed seen] d.
Proof. intros Hun Hr. cbn. rewrite Hun. unfold atomically. by rewrite Hr. Qed.

Lemma sweep_row_exec observed seen s d s' d' :
  unstarted seen = true -> sweep_row observed seen s d = Ok (s', d') -> exists ops, d' = exec ops d.
Proof.
  intros Hun. unfold sweep_row. intros (bs & d1 & [= <- <-] & H)%tx_bind_Ok.
  repeat case_match; [injection H as _ <-; by exists []| |injection H as _ <-; by exists []].
  apply tx_bind_Ok in H as (b & d1 & Hr & [= _ <-]). eexists. by eapply retire_row_exec.
Qed.

Lemma sweep_page_exec observed limit page s d s' d' :
  Forall (fun r => unstarted r = true) page -> sweep_page observed limit page s d = Ok (s', d') ->
  exists ops, d' = exec ops d.
Proof.
  intros Hp. revert s d. induction Hp as [|r page Hr _ IH]; intros s d H; cbn in H.
  { injection H as _ <-. by exists []. }
  apply tx_bind_Ok in H as (s1 & d1 & H1 & H). apply sweep_row_exec in H1 as [o1 ->]; [|done].
  case_match; [injection H as _ <-; by exists o1|].
  apply IH in H as [o2 ->]. exists (o1 ++ o2). by rewrite exec_app.
Qed.

Lemma sweep_pages_exec fuel observed limit budget s d s' d' :
  sweep_pages fuel observed limit budget s d = Ok (s', d') -> exists ops, d' = exec ops d.
Proof.
  revert s d. induction fuel as [|fuel IH]; intros s d H; cbn in H; [injection H as _ <-; by exists []|].
  case_match; [injection H as _ <-; by exists []|]. apply tx_bind_Ok in H as (page & d1 & [= <- <-] & H).
  case_match; [|injection H as _ <-; by exists []]. apply tx_bind_Ok in H as (s1 & d1 & Hp & H).
  apply sweep_page_exec in Hp as [o1 ->].
  - case_match; [injection H as _ <-; by exists o1|].
    apply IH in H as [o2 ->]. exists (o1 ++ o2). by rewrite exec_app.
  - apply Forall_forall. by intros q [_ Hq]%candidates_elem.
Qed.

(** The sweep as a storage call; its cursor beside the result. *)
Definition deadline_sweep (observed : instant) (limit : Z) (cursor : sweep_cursor) (d : db)
    : result exc (list DeadlineRetirement * sweep_cursor) * db :=
  let '(res, (cursor', d')) := retire_expired_unstarted_outbox observed limit cursor d in
  ((fun retired => (retired, cursor')) <$> res, d').

#[export] Instance stepped_sweep observed limit cursor : Stepped (deadline_sweep observed limit cursor).
Proof.
  intros d. unfold deadline_sweep, retire_expired_unstarted_outbox.
  destruct (negb _); [by exists []|]. unfold atomically.
  destruct (sweep_pages _ _ _ _ _ d) as [[s dx]|e] eqn:Hr; [by apply sweep_pages_exec in Hr|].
  by destruct e; exists [].
Qed.

(** ** Examples *)

Module MaintenanceExamples.
(** Work frozen with a deadline that has passed, never claimed. *)
Definition expiring : list outbox_op :=
  [OpEnvironment ["evt-1"] [] [("evt-1", 3000)];
   OpCreate 1000 (Examples.item "ob-1" 0 "pending" None None) false (Some Examples.snapshot)].

Definition cancel (status : string) : decision :=
  {| dn_decision_id := "decision-1"; dn_actor_id := "operator"; dn_action := "cancel_unstarted";
     dn_identity := {| id_event_id := "evt-1"; id_delivery_plan_id := "plan-1"; id_target_adapter := "mesh";
                       id_target_channel := Some "0" |};
     dn_outbox_id := "ob-1"; dn_expected_generation := 0; dn_expected_status := status;
     dn_expected_updated_at := 1000 |}.
End MaintenanceExamples.

Lemma deadline_sweep_safe_witness :
  let d := exec MaintenanceExamples.expiring empty_db in
  exists retired cursor d', retire_expired_unstarted_outbox 5000 50 None d = (Ok retired, (cursor, d')) /\
    length retired = 1%nat /\ Forall (justified 5000 d) retired.
Proof.
  intros d.
  destruct (retire_expired_unstarted_outbox 5000 50 None d) as [res [cursor d']] eqn:H.
  assert (length <$> match res with Ok l => Some l | Raise _ => None end = Some 1%nat) as Hl.
  { change res with (res, (cursor, d')).1. rewrite <-H. vm_compute. reflexivity. }
  assert (reachable d) as Hd by (eexists; reflexivity).
  pose proof (deadline_sweep_safe 5000 50 None d res cursor d' Hd H) as Hs.
  destruct res as [retired|]; [|discriminate Hl]. destruct Hs as (_ & _ & _ & Hj & _).
  exists retired, cursor, d'. split; [reflexivity|]. split; [by injection Hl|exact Hj].
Defined.

Lemma operator_cancel_once_witness :
  let d := exec Examples.staged empty_db in
  exists table' d', cancel_unstarted_delivery 5000 (MaintenanceExamples.cancel "pending") [] d =
      (Ok true, (table', d')) /\
    cancel_unstarted_delivery 6000 (MaintenanceExamples.cancel "pending") table' d' = (Ok false, (table', d')).
Proof.
  intros d.
  destruct (cancel_unstarted_delivery 5000 (MaintenanceExamples.cancel "pending") [] d) as [res [table' d']] eqn:H.
  assert (res = Ok true) as ->.
  { change res with (res, (table', d')).1. rewrite <-H. vm_compute. reflexivity. }
  assert (reachable d) as Hd by (eexists; reflexivity).
  destruct (operator_cancel_once 5000 (MaintenanceExamples.cancel "pending") [] d (Ok true) table' d' Hd H)
    as (_ & _ & _ & Hagain).
  exists table', d'. split; [reflexivity|].
  exact (Hagain [] 6000 (MaintenanceExamples.cancel "pending") eq_refl eq_refl).
Defined.
