(* ===== verification/ReceiptFactory.v ===== *)
(** * Receipts built by the pipeline

    [src/src/medre/core/engine/pipeline/receipt_factory.py]: construction of
    delivery receipts and the sanitized capability facts they carry, and
    [delivery_evidence.py]: the evidence one execution returns. *)

From S2P Require Import Prelude.
From S2P Require Import Json.
From S2P Require Import Delivery.
From S2P Require Import DeliveryPlan.
From S2P Require Import Store.
From S2P Require Import StorageProgram.

Open Scope string_scope.
Open Scope list_scope.
Open Scope Z_scope.

(** ** Capability facts *)

Record CapabilityReceiptFields : Set := {
  cf_capability_level : option string;
  cf_capability_field : option string;
  cf_capability_reason : option string;
  cf_delivery_strategy : option string
}.

(** A JSON value when it is a string. *)
Definition str_value (j : option json) : option string :=
  match j with Some (JStr s) => Some s | _ => None end.

(** [x if isinstance(x, str) and x in vocabulary else None]. *)
Definition known_word (vocabulary : list string) (x : option string) : option string :=
  match x with Some s => if elem s vocabulary then Some s else None | None => None end.

Definition when_level (level : option string) (text : option string) : option string :=
  match level with Some _ => text | None => None end.

Definition capability_receipt_fields (receipt : option DeliveryReceipt)
    (metadata : option (list (string * json))) : CapabilityReceiptFields :=
  match receipt with
  | Some r =>
      {| cf_capability_level := rc_capability_level r; cf_capability_field := rc_capability_field r;
         cf_capability_reason := rc_capability_reason r;
         cf_delivery_strategy := rc_delivery_strategy r |}
  | None =>
      let values := default [] metadata in
      let level := known_word DELIVERY_CAPABILITY_LEVELS (str_value (od_get "capability_level" values)) in
      {| cf_capability_level := level;
         cf_capability_field := when_level level (str_value (od_get "capability_field" values));
         cf_capability_reason := when_level level (str_value (od_get "capability_reason" values));
         cf_delivery_strategy :=
           known_word DELIVERY_STRATEGY_METHODS (str_value (od_get "delivery_strategy" values)) |}
  end.

Definition plan_capability_receipt_fields (plan : DeliveryPlan) : CapabilityReceiptFields :=
  let valid_level := known_word DELIVERY_CAPABILITY_LEVELS (pl_capability_level plan) in
  {| cf_capability_level := valid_level;
     cf_capability_field := when_level valid_level (pl_capability_field plan);
     cf_capability_reason := when_level valid_level (pl_capability_reason plan);
     cf_delivery_strategy :=
       known_word DELIVERY_STRATEGY_METHODS (Some (st_method (pl_primary_strategy plan))) |}.

(** ** Construction

    The keyword arguments of [build_delivery_receipt] other than
    [receipt_id] and [created_at], with the function's defaults in
    [receipt_args_for]. *)

Record receipt_args : Set := {
  ra_event_id : string;
  ra_delivery_plan_id : string;
  ra_target_adapter : string;
  ra_target_channel : option string;
  ra_route_id : string;
  ra_status : string;
  ra_receipt_kind : option string;
  ra_source : string;
  ra_replay_run_id : option string;
  ra_attempt_number : Z;
  ra_parent_receipt_id : option string;
  ra_error : option string;
  ra_failure_kind : option string;
  ra_capability : CapabilityReceiptFields;
  ra_adapter_message_id : option string;
  ra_next_retry_at : option instant;
  ra_retry_max_attempts : option Z;
  ra_retry_jitter : option bool;
  ra_rendering_evidence : option string;
  ra_outbox_id : option string;
  ra_confirmation_level : string;
  ra_sequence : Z
}.

Definition no_capability : CapabilityReceiptFields :=
  {| cf_capability_level := None; cf_capability_field := None; cf_capability_reason := None;
     cf_delivery_strategy := None |}.

Definition receipt_args_for (event plan adapter : string) (channel : option string)
    (route status : string) : receipt_args :=
  {| ra_event_id := event; ra_delivery_plan_id := plan; ra_target_adapter := adapter;
     ra_target_channel := channel; ra_route_id := route; ra_status := status;
     ra_receipt_kind := None; ra_source := "live"; ra_replay_run_id := None; ra_attempt_number := 1;
     ra_parent_receipt_id := None; ra_error := None; ra_failure_kind := None;
     ra_capability := no_capability; ra_adapter_message_id := None; ra_next_retry_at := None;
     ra_retry_max_attempts := None; ra_retry_jitter := None; ra_rendering_evidence := None;
     ra_outbox_id := None; ra_confirmation_level := "unknown"; ra_sequence := 0 |}.

Definition receipt_of_args (a : receipt_args) (id : string) (at_ : instant) : DeliveryReceipt :=
  {| rc_sequence := ra_sequence a; rc_receipt_id := id; rc_event_id := ra_event_id a;
     rc_delivery_plan_id := ra_delivery_plan_id a; rc_target_adapter := ra_target_adapter a;
     rc_target_channel := ra_target_channel a; rc_route_id := ra_route_id a;
     rc_status := ra_status a; rc_receipt_kind := ra_receipt_kind a; rc_error := ra_error a;
     rc_failure_kind := ra_failure_kind a;
     rc_capability_level := cf_capability_level (ra_capability a);
     rc_capability_field := cf_capability_field (ra_capability a);
     rc_capability_reason := cf_capability_reason (ra_capability a);
     rc_delivery_strategy := cf_delivery_strategy (ra_capability a);
     rc_adapter_message_id := ra_adapter_message_id a; rc_next_retry_at := ra_next_retry_at a;
     rc_attempt_number := ra_attempt_number a; rc_parent_receipt_id := ra_parent_receipt_id a;
     rc_source := ra_source a; rc_replay_run_id := ra_replay_run_id a;
     rc_retry_max_attempts := ra_retry_max_attempts a; rc_retry_jitter := ra_retry_jitter a;
     rc_rendering_evidence := ra_rendering_evidence a; rc_outbox_id := ra_outbox_id a;
     rc_confirmation_level := ra_confirmation_level a; rc_created_at := at_ |}.

(** The identifier and the time are drawn when the caller omits them. *)
Definition build_delivery_receipt (a : receipt_args) (receipt_id : option string)
    (created_at : option instant) : proc DeliveryReceipt :=
  id ← match receipt_id with
       | Some i => mret i
       | None => u ← new_uuid; mret ("rcpt-" +:+ u)
       end;
  at_ ← match created_at with Some t => mret t | None => read_clock end;
  of_result (DeliveryReceipt_init (receipt_of_args a id at_)).

#[export] Instance traced_build a id at_ : Traced (build_delivery_receipt a id at_).
Proof. unfold build_delivery_receipt. destruct id, at_; apply _. Qed.

(** ** Evidence of one execution *)

Record DeliveryExecutionEvidence : Set := {
  xe_attempt_receipt : option DeliveryReceipt;
  xe_authority_receipt : option DeliveryReceipt;
  xe_failure_kind : option DeliveryFailureKind;
  xe_error : option string
}.

Definition linked_evidence (attempt authority : DeliveryReceipt) : bool :=
  bool_decide (rc_event_id authority = rc_event_id attempt) &&
  bool_decide (rc_delivery_plan_id authority = rc_delivery_plan_id attempt) &&
  bool_decide (rc_target_adapter authority = rc_target_adapter attempt) &&
  bool_decide (normalized_channel (rc_target_channel authority) =
               normalized_channel (rc_target_channel attempt)) &&
  bool_decide (rc_outbox_id authority = rc_outbox_id attempt) &&
  (rc_attempt_number authority =? rc_attempt_number attempt) &&
  bool_decide (rc_parent_receipt_id authority = Some (rc_receipt_id attempt)).

(** [__post_init__]. *)
Definition DeliveryExecutionEvidence_init (e : DeliveryExecutionEvidence) : result exc unit :=
  let kind_is kind r := bool_decide (rc_receipt_kind r = Some kind) in
  if match xe_attempt_receipt e with Some r => negb (kind_is "attempt" r) | None => false end
  then Raise (ValueError "attempt_receipt must have receipt_kind='attempt'")
  else if match xe_authority_receipt e with Some r => negb (kind_is "lifecycle" r) | None => false end
  then Raise (ValueError "authority_receipt must have receipt_kind='lifecycle'")
  else match xe_attempt_receipt e, xe_authority_receipt e with
  | Some attempt, Some authority =>
      if linked_evidence attempt authority then Ok tt
      else Raise (ValueError "authority_receipt must be linked to the same delivery attempt")
  | _, _ => Ok tt
  end.

Definition current_receipt (e : DeliveryExecutionEvidence) : option DeliveryReceipt :=
  match xe_authority_receipt e with Some r => Some r | None => xe_attempt_receipt e end.

Definition primary_receipt (e : DeliveryExecutionEvidence) : option DeliveryReceipt :=
  match xe_attempt_receipt e with Some r => Some r | None => xe_authority_receipt e end.

(** ** Sanitized facts are always accepted *)

Lemma known_word_in vocabulary x : outside (known_word vocabulary x) vocabulary = false.
Proof. destruct x as [s|]; simpl; [|done]. destruct (elem s vocabulary) eqn:E; simpl; [by rewrite E|done]. Qed.

(** Capability fields a receipt may carry. *)
Definition acceptable_fields (f : CapabilityReceiptFields) : Prop :=
  outside (cf_capability_level f) DELIVERY_CAPABILITY_LEVELS = false /\
  outside (cf_delivery_strategy f) DELIVERY_STRATEGY_METHODS = false.

Lemma plan_fields_acceptable plan : acceptable_fields (plan_capability_receipt_fields plan).
Proof. split; apply known_word_in. Qed.

Lemma metadata_fields_acceptable m : acceptable_fields (capability_receipt_fields None m).
Proof. split; apply known_word_in. Qed.

Lemma receipt_fields_acceptable r r' m :
  DeliveryReceipt_init r = Ok r' -> acceptable_fields (capability_receipt_fields (Some r') m).
Proof.
  unfold DeliveryReceipt_init, acceptable_fields. simpl.
  destruct (outside (rc_capability_level r) _) eqn:E1; [done|].
  destruct (outside (rc_delivery_strategy r) _) eqn:E2; [done|].
  destruct (expected_receipt_kind _); [|done]. case_match; [done|].
  intros ([source run] & _ & [= <-])%bind_Ok. done.
Qed.
