(* ===== verification/RetryPlan.v ===== *)
(** * Reconstruction of delivery plans

    [src/src/medre/core/engine/pipeline/retry_plan.py]: what a retry executes is
    rebuilt from the frozen dispatch context of the outbox row (or the inline
    metadata of historical rows), never from the current routes.

    [msgspec.convert] to the two types it is used with and
    [datetime.fromisoformat] are arguments.  [reconstruct_*] raise where the
    code does.  The receipt record leaves out its two floating-point columns,
    which come beside it here. *)

From Stdlib Require Import SpecFloat.
From S2P Require Import Prelude.
From S2P Require Import Json.
From S2P Require Import JsonText.
From S2P Require Import DeliveryState.
From S2P Require Import RoutePolicy.
From S2P Require Import IsoTime.
From S2P Require Import Router.
From S2P Require Import Delivery.
From S2P Require Import Events.
From S2P Require Import Store.
From S2P Require Import Outbox.
From S2P Require Import DeliveryPlan.
From S2P Require Import StorageProgram.
From S2P Require Import ReceiptFactory.

Open Scope string_scope.
Open Scope list_scope.
Open Scope Z_scope.

(** ** Contexts *)

Record OutboxDispatchContext : Type := {
  oc_route : Route;
  oc_plan : DeliveryPlan;
  oc_routing : RoutingMetadata
}.

Record ReconstructedRetryPlan : Type := {
  rr_route : Route;
  rr_plan : DeliveryPlan;
  rr_retry_policy : RetryPolicy;
  rr_routing : option RoutingMetadata
}.

(** ** Capability facts of a frozen context *)

Definition capability_fallback_from_snapshot (snapshot : OutboxDispatchSnapshot) : list (string * json) :=
  if bool_decide (ds_kind snapshot = "direct") then ds_context snapshot
  else match od_get "plan" (ds_context snapshot) with
  | Some (JObj plan) =>
      let get k := default JNull (od_get k plan) in
      [("capability_level", get "capability_level");
       ("delivery_strategy", match od_get "primary_strategy" plan with
                             | Some (JObj strategy) => default JNull (od_get "method" strategy)
                             | _ => JNull
                             end);
       ("capability_field", get "capability_field"); ("capability_reason", get "capability_reason")]
  | _ => []
  end.

(** The read bound to the row's identity. *)
Definition read_dispatch_context (item : Row) : proc (option OutboxDispatchSnapshot) :=
  query (fun d => get_outbox_dispatch_context d (outbox_id item) (event_id item)
                    (delivery_plan_id item) (target_adapter item) (target_channel item)).

Definition resolve_capability_fallback (item : Row) : proc (option (list (string * json))) :=
  if nonempty (metadata item) then mret (Some (metadata item))
  else
    snapshot ← try_except (read_dispatch_context item) (mret None);
    mret (capability_fallback_from_snapshot <$> snapshot).

#[export] Instance traced_capability_fallback item : Traced (resolve_capability_fallback item).
Proof. unfold resolve_capability_fallback, read_dispatch_context. case_match; apply _. Qed.

(** ** Shape of a decoded document *)

(** A decoded object as [_require_frozen_fields] sees it: dataclasses and
    structs as dictionaries of their fields. *)
Inductive view : Type :=
| VAtom
| VDict (members : list (string * view))
| VList (xs : list view)
| VSet.

Fixpoint view_of_json (j : json) : view :=
  match j with
  | JArr xs => VList (view_of_json <$> xs)
  | JObj kvs => VDict ((fun kv => (kv.1, view_of_json kv.2)) <$> kvs)
  | _ => VAtom
  end.

Definition atoms {A} (xs : list A) : view := VList ((fun _ => VAtom) <$> xs).

Definition view_of_destination (d : RouteDestination) : view :=
  VDict [("kind", VAtom); ("destination_hash", VAtom); ("destination_name", VAtom);
         ("metadata", view_of_json (JObj (dst_metadata d)))].

Definition view_of_target (t : RouteTarget) : view :=
  VDict [("adapter", VAtom); ("channel", VAtom);
         ("destination", match rt_destination t with Some d => view_of_destination d | None => VAtom end)].

Definition view_of_policy (p : RoutePolicy) : view :=
  VDict [("allowed_source_adapters", atoms (allowed_source_adapters p));
         ("allowed_dest_adapters", atoms (allowed_dest_adapters p));
         ("room_allowlist", atoms (room_allowlist p)); ("channel_allowlist", atoms (channel_allowlist p));
         ("sender_allowlist", atoms (sender_allowlist p))].

Definition view_of_route (r : Route) : view :=
  VDict [("id", VAtom);
         ("source", VDict [("adapter", VAtom); ("event_kinds", atoms (rs_event_kinds (rte_source r)));
                           ("channel", VAtom); ("origin_label", VAtom)]);
         ("targets", VList (view_of_target <$> rte_targets r)); ("priority", VAtom);
         ("fanout_strategy", VAtom); ("ownership", VAtom); ("enabled", VAtom);
         ("policy", match rte_policy r with Some p => view_of_policy p | None => VAtom end);
         ("forward_typing", VAtom)].

Definition view_of_strategy (s : DeliveryStrategy) : view :=
  VDict [("method", VAtom); ("max_retries", VAtom); ("timeout_seconds", VAtom)].

Definition view_of_plan (p : DeliveryPlan) : view :=
  VDict [("plan_id", VAtom); ("event_id", VAtom); ("target", view_of_target (pl_target p));
         ("primary_strategy", view_of_strategy (pl_primary_strategy p));
         ("fallback_chain", VList (view_of_strategy <$> pl_fallback_chain p));
         ("retry_policy", match pl_retry_policy p with
            | Some _ => VDict [("max_attempts", VAtom); ("backoff_base", VAtom);
                               ("max_delay_seconds", VAtom); ("jitter", VAtom)]
            | None => VAtom end);
         ("deadline", VAtom); ("route_id", VAtom); ("target_identity", VAtom);
         ("capability_level", VAtom); ("capability_field", VAtom); ("capability_reason", VAtom)].

Definition view_of_context (c : OutboxDispatchContext) : view :=
  VDict [("route", view_of_route (oc_route c)); ("plan", view_of_plan (oc_plan c));
         ("routing", VDict [("matched_routes", atoms (rm_matched_routes (oc_routing c)));
                            ("fanout_group", VAtom);
                            ("route_trace", atoms (rm_route_trace (oc_routing c)))])].

Definition same_keys {A B} (xs : list (string * A)) (ys : list (string * B)) : bool :=
  forallb (fun k => elem k (od_keys ys)) (od_keys xs) && forallb (fun k => elem k (od_keys xs)) (od_keys ys).

Definition changed_fields : exc := ValueError "stored dispatch context has changed document fields".

(** [_require_frozen_fields]: [true] when it returns. *)
Fixpoint frozen_fields (saved : json) (decoded : view) : bool :=
  match saved with
  | JObj kvs =>
      match decoded with
      | VDict members =>
          same_keys kvs members &&
          forallb (fun kv => match od_get kv.1 members with
                             | Some v => frozen_fields kv.2 v
                             | None => false
                             end) kvs
      | _ => false
      end
  | JArr xs =>
      match decoded with
      | VSet => true
      | VList ys =>
          (fix zip (xs : list json) (ys : list view) : bool :=
             match xs, ys with
             | [], [] => true
             | x :: xs', y :: ys' => frozen_fields x y && zip xs' ys'
             | _, _ => false
             end) xs ys
      | _ => false
      end
  | _ => true
  end.

(** ** Reconstruction *)

(** Python's [==] on targets. *)
Definition target_eq (a b : RouteTarget) : bool :=
  bool_decide (rt_adapter a = rt_adapter b) && bool_decide (rt_channel a = rt_channel b) &&
  match rt_destination a, rt_destination b with
  | Some x, Some y =>
      bool_decide (dst_kind x = dst_kind y) && bool_decide (dst_hash x = dst_hash y) &&
      bool_decide (dst_name x = dst_name y) && py_eq (JObj (dst_metadata x)) (JObj (dst_metadata y))
  | None, None => true
  | _, _ => false
  end.

Definition target_hash_of (t : RouteTarget) : option string := rt_destination t ≫= dst_hash.

(** The identity checks shared by staged snapshots and inline contexts. *)
Definition context_agrees (context : OutboxDispatchContext) (item : Row) : bool :=
  let plan := oc_plan context in
  let route := oc_route context in
  bool_decide (pl_event_id plan = event_id item) &&
  bool_decide (pl_plan_id plan = delivery_plan_id item) &&
  bool_decide (rte_id route = route_id item) &&
  bool_decide (opt_or_empty (pl_route_id plan) = route_id item) &&
  bool_decide (rt_adapter (pl_target plan) = Some (target_adapter item)) &&
  bool_decide (opt_or_none (rt_channel (pl_target plan)) = opt_or_none (target_channel item)) &&
  existsb (target_eq (pl_target plan)) (rte_targets route) &&
  bool_decide (target_hash_of (pl_target plan) = target_address item) &&
  bool_decide (pl_target_identity plan = delivery_target_identity (pl_target plan)) &&
  elem (rte_id route) (rm_matched_routes (oc_routing context)) &&
  (Z.of_nat (length (rm_route_trace (oc_routing context))) <=? 16).

Definition no_retries : RetryPolicy :=
  {| rp_max_attempts := 1; rp_backoff_base := float_2; rp_max_delay_seconds := float_60; rp_jitter := false |}.

Definition restored (context : OutboxDispatchContext) : ReconstructedRetryPlan :=
  {| rr_route := oc_route context; rr_plan := oc_plan context;
     rr_retry_policy := default no_retries (pl_retry_policy (oc_plan context));
     rr_routing := Some (oc_routing context) |}.

(** The previous receipt with its backoff base and maximal delay. *)
Definition receipt_with_floats : Set := DeliveryReceipt * (option spec_float * option spec_float).

Definition restored_policy (previous : option receipt_with_floats) (default_max_attempts : Z) : RetryPolicy :=
  match previous with
  | None => {| rp_max_attempts := default_max_attempts; rp_backoff_base := float_2;
               rp_max_delay_seconds := float_60; rp_jitter := false |}
  | Some (r, (base, delay)) =>
      {| rp_max_attempts := default default_max_attempts (rc_retry_max_attempts r);
         rp_backoff_base := default float_2 base; rp_max_delay_seconds := default float_60 delay;
         rp_jitter := default false (rc_retry_jitter r) |}
  end.

Definition REQUIRED_KEYS : list string :=
  ["capability_level"; "delivery_strategy"; "capability_field"; "capability_reason"; "deadline"].
Definition DESTINATION_KEYS : list string :=
  ["destination_kind"; "destination_hash"; "destination_name"; "destination_metadata"].

(** [meta[key]] of an optional string; anything else is refused. *)
Definition optional_text (what : string) (j : option json) : result exc (option string) :=
  match j with
  | Some JNull => Ok None
  | Some (JStr s) => Ok (Some s)
  | _ => Raise (ValueError what)
  end.

(** [_destination_from_context] on values of the annotated types.  A kind or
    name of another type, which only a hand-written historical row could have,
    is outside the model and raises here. *)
Definition inline_destination (meta : list (string * json)) : result exc (option RouteDestination) :=
  let opt k := match od_get k meta with
               | None | Some JNull => Ok None
               | Some (JStr s) => Ok (Some s)
               | _ => Raise (TypeError k)
               end in
  match od_get "destination_kind" meta with
  | None => Ok None
  | Some (JStr kind) =>
      hash ← opt "destination_hash"; name ← opt "destination_name";
      match od_get "destination_metadata" meta with
      | None => Ok (Some {| dst_kind := kind; dst_hash := hash; dst_name := name; dst_metadata := [] |})
      | Some (JObj m) => Ok (Some {| dst_kind := kind; dst_hash := hash; dst_name := name; dst_metadata := m |})
      | Some _ => Raise (TypeError "metadata")
      end
  | Some _ => Raise (TypeError "kind")
  end.

(** Building the dataclass freezes the metadata, which must be a mapping. *)
Definition freezable (meta : list (string * json)) : bool :=
  match od_get "destination_kind" meta, od_get "destination_metadata" meta with
  | Some _, Some (JObj _) | Some _, None | None, _ => true
  | _, _ => false
  end.

Section reconstruct.
Context (convert_destination : list (string * json) -> result exc RouteDestination)
        (convert_context : json -> result exc OutboxDispatchContext)
        (fromisoformat : string -> result exc PyDatetime).

Definition reconstruct_from_staged_snapshot (item : Row) (snapshot : OutboxDispatchSnapshot)
    : result exc ReconstructedRetryPlan :=
  context ← convert_context (JObj (ds_context snapshot));
  if negb (frozen_fields (JObj (ds_context snapshot)) (view_of_context context))
  then Raise changed_fields
  else if match pl_deadline (oc_plan context) with
          | Some t => bool_decide (py_utcoffset t = None)
          | None => false
          end
  then Raise (ValueError "stored dispatch context has a timezone-naive deadline")
  else if negb (context_agrees context item)
  then Raise (ValueError "stored dispatch context disagrees with outbox identity")
  else Ok (restored context).

(** The inline context of a historical row. *)
Definition reconstruct_inline (item : Row) (document : json) : result exc ReconstructedRetryPlan :=
  context ← convert_context document;
  if negb (context_agrees context item)
  then Raise (ValueError "stored dispatch context disagrees with outbox identity")
  else
    destination ← inline_destination (metadata item);
    let bare d := {| rt_adapter := None; rt_channel := None; rt_destination := d |} in
    if negb (target_eq (bare (rt_destination (pl_target (oc_plan context)))) (bare destination))
    then Raise (ValueError "stored dispatch context disagrees with outbox identity")
    else Ok (restored context).

Definition frozen_destination (from_snapshot : bool) (meta : list (string * json))
    : result exc (option RouteDestination) :=
  if from_snapshot then
    if existsb (fun k => negb (elem k (REQUIRED_KEYS ++ DESTINATION_KEYS))) (od_keys meta)
    then Raise (ValueError "stored direct dispatch context has unknown fields")
    else
      let present := filter (fun k => k ∈ od_keys meta) DESTINATION_KEYS in
      if bool_decide (present = []) then Ok None
      else if negb (bool_decide (present = DESTINATION_KEYS))
      then Raise (ValueError "stored direct dispatch context has incomplete destination")
      else
        let at_ k := default JNull (od_get k meta) in
        Some <$> convert_destination
          [("kind", at_ "destination_kind"); ("destination_hash", at_ "destination_hash");
           ("destination_name", at_ "destination_name"); ("metadata", at_ "destination_metadata")]
  else inline_destination meta.

Definition frozen_deadline (j : option json) : result exc (option PyDatetime) :=
  match j with
  | Some JNull => Ok None
  | Some (JStr s) =>
      match fromisoformat s with
      | Raise _ => Raise (ValueError "invalid deadline")
      | Ok t => if bool_decide (py_utcoffset t = None) then Raise (ValueError "timezone-naive deadline")
                else Ok (Some t)
      end
  | _ => Raise (ValueError "non-string deadline")
  end.

Definition frozen_level (j : option json) : result exc (option string) :=
  level ← optional_text "non-string capability_level" j;
  if outside level DELIVERY_CAPABILITY_LEVELS then Raise (ValueError "invalid capability_level") else Ok level.

Definition frozen_strategy (j : option json) : result exc string :=
  match j with
  | Some (JStr s) => if elem s DELIVERY_STRATEGY_METHODS then Ok s else Raise (ValueError "invalid delivery_strategy")
  | _ => Raise (ValueError "invalid delivery_strategy")
  end.

(** The reduced context of direct and replay deliveries. *)
Definition reconstruct_reduced (item : Row) (policy : RetryPolicy) (from_snapshot : bool)
    (meta : list (string * json)) : result exc ReconstructedRetryPlan :=
  if negb (freezable meta) then Raise (TypeError "metadata")
  else if negb (forallb (fun k => elem k (od_keys meta)) REQUIRED_KEYS)
  then Raise (ValueError "missing route-decision metadata keys")
  else
  dest ← frozen_destination from_snapshot meta;
  if negb (bool_decide ((dest ≫= dst_hash) = target_address item))
  then Raise (ValueError "stored dispatch context disagrees with outbox destination")
  else
  level ← frozen_level (od_get "capability_level" meta);
  method ← frozen_strategy (od_get "delivery_strategy" meta);
  field ← optional_text "invalid capability_field" (od_get "capability_field" meta);
  reason ← optional_text "invalid capability_reason" (od_get "capability_reason" meta);
  deadline ← frozen_deadline (od_get "deadline" meta);
  let target := {| rt_adapter := Some (target_adapter item); rt_channel := target_channel item;
                   rt_destination := dest |} in
  Ok {| rr_route :=
          {| rte_id := route_id item;
             rte_source := {| rs_adapter := None; rs_event_kinds := []; rs_channel := None;
                              rs_origin_label := None |};
             rte_targets := [target]; rte_priority := 100; rte_fanout_strategy := "broadcast";
             rte_ownership := "shared"; rte_enabled := true; rte_policy := None;
             rte_forward_typing := false |};
        rr_plan :=
          {| pl_plan_id := delivery_plan_id item; pl_event_id := event_id item; pl_target := target;
             pl_primary_strategy := DeliveryStrategy_of method; pl_fallback_chain := [];
             pl_retry_policy := Some policy; pl_deadline := deadline;
             pl_route_id := or_none (route_id item);
             pl_target_identity := delivery_target_identity target; pl_capability_level := level;
             pl_capability_field := field; pl_capability_reason := reason |};
        rr_retry_policy := policy; rr_routing := None |}.

Definition reconstruct_retry_delivery_plan (item : Row) (previous : option receipt_with_floats)
    (default_max_attempts : Z) (dispatch_snapshot : option OutboxDispatchSnapshot)
    : result exc ReconstructedRetryPlan :=
  let inline := metadata item in
  match dispatch_snapshot with
  | Some snapshot =>
      if nonempty inline
      then Raise (ValueError "both a frozen work snapshot and inline dispatch metadata")
      else if bool_decide (ds_kind snapshot = "staged") then reconstruct_from_staged_snapshot item snapshot
      else if attempt_number item =? 0
      then Raise (ValueError "never-dispatched work requires a complete dispatch context")
      else reconstruct_reduced item (restored_policy previous default_max_attempts) true (ds_context snapshot)
  | None =>
      match od_get "dispatch_context" inline with
      | Some document => reconstruct_inline item document
      | None =>
          if attempt_number item =? 0
          then Raise (ValueError "never-dispatched work requires a complete dispatch context")
          else if negb (nonempty inline)
          then Raise (ValueError "no frozen dispatch context; reconstruction fails closed")
          else reconstruct_reduced item (restored_policy previous default_max_attempts) false inline
      end
  end.
End reconstruct.
