(* ===== verification/DeliveryContracts.v ===== *)
(** * What adapters report

    [src/src/medre/core/contracts/delivery.py]: the result of a synchronous
    [deliver()] call and the asynchronous facts an adapter reports afterwards,
    with the validation of their [__post_init__].  Metadata values are JSON
    here, so only the reserved keys can be refused. *)

From S2P Require Import Prelude.
From S2P Require Import Json.
From S2P Require Import Delivery.

Open Scope string_scope.
Open Scope list_scope.
Open Scope Z_scope.

Definition ADAPTER_HANDOFF_DISPOSITION_VALUES : list string := ["transport_handoff"; "deferred"].
Definition DEFERRED_FAILURE_OUTCOME_VALUES : list string :=
  ["exhausted"; "permanent_failed"; "cancelled"; "abandoned"].
Definition DEFERRED_CONFIRMATION_LEVEL_VALUES : list string := ["unknown"; "local_queue"].

Definition RESERVED_METADATA_KEYS : list string :=
  ["kind"; "attempt_provenance"; "handoff"; "disposition"; "outcome"; "confirmation_level";
   "native_message_id"; "native_channel_id"; "native_thread_id"; "native_relation_id"; "note";
   "status"; "state"; "error"; "event_id"; "delivery_plan_id"; "target_adapter"; "target_channel";
   "outbox_id"; "attempt_number"; "source"; "replay_run_id"].

(** [_freeze_json_safe_metadata]. *)
Definition freeze_json_safe_metadata (metadata : list (string * json)) : result exc (list (string * json)) :=
  if existsb (fun k => elem k RESERVED_METADATA_KEYS) (od_keys metadata)
  then Raise (ValueError "metadata key is reserved by the delivery contract")
  else Ok metadata.

Definition validate_literal_string (value : string) (allowed : list string) : result exc unit :=
  if elem value allowed then Ok tt else Raise (ValueError "unknown literal").

Definition validate_optional_native_id (value : option string) : result exc unit :=
  match value with
  | Some v => if truthy (py_strip v) then Ok tt else Raise (ValueError "must be a non-empty string or None")
  | None => Ok tt
  end.

Record AdapterHandoffResult : Type := {
  hr_disposition : string;
  hr_native_message_id : option string;
  hr_native_channel_id : option string;
  hr_native_thread_id : option string;
  hr_native_relation_id : option string;
  hr_confirmation_level : string;
  hr_note : string;
  hr_metadata : list (string * json)
}.

Definition AdapterHandoffResult_init (h : AdapterHandoffResult) : result exc AdapterHandoffResult :=
  _ ← validate_literal_string (hr_disposition h) ADAPTER_HANDOFF_DISPOSITION_VALUES;
  _ ← validate_literal_string (hr_confirmation_level h) DELIVERY_CONFIRMATION_LEVEL_VALUES;
  _ ← validate_optional_native_id (hr_native_message_id h);
  _ ← validate_optional_native_id (hr_native_channel_id h);
  _ ← validate_optional_native_id (hr_native_thread_id h);
  _ ← validate_optional_native_id (hr_native_relation_id h);
  if bool_decide (hr_disposition h = "deferred") && bool_decide (hr_native_message_id h <> None)
  then Raise (ValueError "deferred hand-off cannot claim a native_message_id")
  else if bool_decide (hr_disposition h = "deferred") &&
          negb (elem (hr_confirmation_level h) DEFERRED_CONFIRMATION_LEVEL_VALUES)
  then Raise (ValueError "deferred hand-off cannot claim confirmation beyond local queue admission")
  else _ ← freeze_json_safe_metadata (hr_metadata h); Ok h.

Record DeferredHandoffCompleted : Type := {
  hc_attempt_provenance : DeliveryAttemptProvenance;
  hc_handoff : AdapterHandoffResult
}.

Definition DeferredHandoffCompleted_init (f : DeferredHandoffCompleted) : result exc DeferredHandoffCompleted :=
  if negb (bool_decide (hr_disposition (hc_handoff f) = "transport_handoff"))
  then Raise (ValueError "must use disposition='transport_handoff'") else Ok f.

Record DeferredHandoffFailed : Set := {
  hf_attempt_provenance : DeliveryAttemptProvenance;
  hf_outcome : string;
  hf_error : option string
}.

Definition DeferredHandoffFailed_init (f : DeferredHandoffFailed) : result exc DeferredHandoffFailed :=
  _ ← validate_literal_string (hf_outcome f) DEFERRED_FAILURE_OUTCOME_VALUES; Ok f.
