(* ===== verification/DeliveryLifecycle.v ===== *)
(** * Delivery lifecycle

    [src/src/medre/core/engine/pipeline/delivery_lifecycle.py]: the service that
    turns what happened to a delivery attempt into outbox transitions and
    receipts.  Every awaited storage call is a [call] or [query] of
    [StorageProgram], so other tasks may run between any two of them.

    [compute_backoff] stands for [RetryExecutor.compute_backoff] (floating
    point, in microseconds).  An outbox item is the row a storage read
    returned.  Logging is left out. *)

From S2P Require Import Prelude.
From S2P Require Import Json.
From S2P Require Import DeliveryState.
From S2P Require Import Delivery.
From S2P Require Import DeliveryPlan.
From S2P Require Import DeliveryContracts.
From S2P Require Import Store.
From S2P Require Import Outbox.
From S2P Require Import OutboxProofs.
From S2P Require Import Receipts.
From S2P Require Import DeliveryAuthority.
From S2P Require Import StorageProgram.
From S2P Require Import ReceiptFactory.
From S2P Require Import RetryPlan.

Open Scope string_scope.
Open Scope list_scope.
Open Scope Z_scope.

(** ** Storage calls as the service makes them *)

Definition get_item (id : string) : proc (option Row) := query (fun d => Ok (get_outbox_item d id)).
Definition receipts_of_outbox (id : string) : proc (list DeliveryReceipt) :=
  query (fun d => list_receipts_for_outbox d id).
Definition receipts_of_delivery (item : Row) : proc (list DeliveryReceipt) :=
  query (fun d => list_receipts_for_delivery d (outbox_identity item)).

Definition mark_sent (id : string) (receipt : option string) (attempt : option Z)
    (worker : option string) : proc bool :=
  now ← read_clock; call (mark_outbox_sent now id receipt attempt worker).
Definition mark_queued (id : string) (receipt : option string) (attempt : option Z)
    (worker : option string) : proc bool :=
  now ← read_clock; call (mark_outbox_queued now id receipt attempt worker).
Definition mark_retry_wait (id : string) (next : instant) (receipt kind detail error : option string)
    (attempt : option Z) (worker : option string) : proc bool :=
  now ← read_clock; call (mark_outbox_retry_wait now id next receipt kind detail error attempt worker).
Definition mark_dead_lettered (id : string) (receipt kind detail error : option string)
    (attempt : option Z) (worker : option string) : proc bool :=
  now ← read_clock; call (mark_outbox_dead_lettered now id receipt kind detail error attempt worker).
Definition mark_cancelled (id : string) (error receipt kind : option string) (attempt : option Z)
    (worker : option string) : proc bool :=
  now ← read_clock; call (mark_outbox_cancelled now id error receipt kind attempt worker).
Definition mark_abandoned (id : string) (error receipt kind : option string) (attempt : option Z)
    (worker : option string) : proc bool :=
  now ← read_clock; call (mark_outbox_abandoned now id error receipt kind attempt worker).

(** ** Pure helpers *)

Definition effective_attempt (outbox : Row) : Z := effective_generation outbox.

Definition RetryAttemptCommitRejected : exc := RuntimeError "RetryAttemptCommitRejected".

Definition require_retry_commit (committed : bool) : proc unit :=
  if committed then mret tt else throw RetryAttemptCommitRejected.

Definition compute_attempt_context (previous_receipt : option DeliveryReceipt) : Z * option string :=
  match previous_receipt with
  | Some r => (rc_attempt_number r + 1, Some (rc_receipt_id r))
  | None => (1, None)
  end.

(** The two columns the receipt record keeps. *)
Definition extract_retry_fields (plan : DeliveryPlan) : option Z * option bool :=
  (rp_max_attempts <$> pl_retry_policy plan, rp_jitter <$> pl_retry_policy plan).

Definition should_dead_letter (status : string) (plan : DeliveryPlan) (attempt_number : Z) : bool :=
  bool_decide (status = "failed") &&
  match pl_retry_policy plan with Some p => is_exhausted p attempt_number | None => false end.

(** [MAX_ADAPTER_RETRY_AFTER_SECONDS], in microseconds like the hint. *)
Definition MAX_ADAPTER_RETRY_AFTER : Z := seconds 2592000.

Definition is_terminal_failure (kind : DeliveryFailureKind) (next_retry_at : option instant) : bool :=
  negb (is_retryable kind) || bool_decide (next_retry_at = None).

(** [error[:512] if error else None]. *)
Definition error_prefix (error : option string) : option string :=
  (String.substring 0 512) <$> opt_or_none error.

(** Every column the new receipt copies from [previous]. *)
Definition terminal_args (previous : DeliveryReceipt) (status : string) (error failure_kind : option string)
    : receipt_args :=
  {| ra_event_id := rc_event_id previous; ra_delivery_plan_id := rc_delivery_plan_id previous;
     ra_target_adapter := rc_target_adapter previous; ra_target_channel := rc_target_channel previous;
     ra_route_id := rc_route_id previous; ra_status := status; ra_receipt_kind := Some "lifecycle";
     ra_source := rc_source previous; ra_replay_run_id := rc_replay_run_id previous;
     ra_attempt_number := rc_attempt_number previous;
     ra_parent_receipt_id := Some (rc_receipt_id previous);
     ra_error := match error with Some e => Some e | None => rc_error previous end;
     ra_failure_kind := match failure_kind with Some k => Some k | None => rc_failure_kind previous end;
     ra_capability := capability_receipt_fields (Some previous) None;
     ra_adapter_message_id := None; ra_next_retry_at := None;
     ra_retry_max_attempts := rc_retry_max_attempts previous;
     ra_retry_jitter := rc_retry_jitter previous; ra_rendering_evidence := None;
     ra_outbox_id := rc_outbox_id previous;
     ra_confirmation_level := rc_confirmation_level previous; ra_sequence := 0 |}.

Definition build_terminal_lifecycle_receipt (previous : DeliveryReceipt) (status : string)
    (error failure_kind : option string) : proc DeliveryReceipt :=
  build_delivery_receipt (terminal_args previous status error failure_kind) None None.

Definition build_and_persist_terminal_receipt (previous : DeliveryReceipt) (status : string)
    (error failure_kind : option string) : proc DeliveryReceipt :=
  receipt ← build_terminal_lifecycle_receipt previous status error failure_kind;
  call (append_receipt receipt) ;; mret receipt.

(** [RetryExecutor.build_dead_letter_receipt] under the plan's policy. *)
Definition dead_letter_args (event plan_id adapter previous : string) (attempt : Z) (error source : string)
    (run channel outbox : option string) (plan : DeliveryPlan) : receipt_args :=
  {| ra_event_id := event; ra_delivery_plan_id := plan_id; ra_target_adapter := adapter;
     ra_target_channel := channel; ra_route_id := ""; ra_status := "dead_lettered";
     ra_receipt_kind := Some "lifecycle"; ra_source := source; ra_replay_run_id := run;
     ra_attempt_number := attempt; ra_parent_receipt_id := Some previous; ra_error := Some error;
     ra_failure_kind := None; ra_capability := plan_capability_receipt_fields plan;
     ra_adapter_message_id := None; ra_next_retry_at := None;
     ra_retry_max_attempts := rp_max_attempts <$> pl_retry_policy plan;
     ra_retry_jitter := rp_jitter <$> pl_retry_policy plan; ra_rendering_evidence := None;
     ra_outbox_id := outbox; ra_confirmation_level := "unknown"; ra_sequence := 0 |}.

Definition build_and_persist_dead_letter_receipt (event plan_id adapter previous : string) (attempt : Z)
    (error : option string) (source : string) (run channel outbox : option string) (plan : DeliveryPlan)
    : proc DeliveryReceipt :=
  match pl_retry_policy plan with
  | None => throw (RuntimeError "requires a plan with a retry_policy")
  | Some _ =>
      let text := match opt_or_none error with Some e => e | None => "Retry exhausted" end in
      receipt ← build_delivery_receipt
        (dead_letter_args event plan_id adapter previous attempt text source run channel outbox plan) None None;
      call (append_receipt receipt) ;; mret receipt
  end.

Definition suppression_args (event plan_id adapter : string) (channel : option string) (route : string)
    (kind : DeliveryFailureKind) (error : string) (capability : CapabilityReceiptFields) (source : string)
    (run : option string) : receipt_args :=
  {| ra_event_id := event; ra_delivery_plan_id := plan_id; ra_target_adapter := adapter;
     ra_target_channel := channel; ra_route_id := route; ra_status := "suppressed";
     ra_receipt_kind := Some "lifecycle"; ra_source := source; ra_replay_run_id := run;
     ra_attempt_number := 1; ra_parent_receipt_id := None; ra_error := Some error;
     ra_failure_kind := Some (failure_value kind); ra_capability := capability;
     ra_adapter_message_id := None; ra_next_retry_at := None; ra_retry_max_attempts := None;
     ra_retry_jitter := None; ra_rendering_evidence := None; ra_outbox_id := None;
     ra_confirmation_level := "unknown"; ra_sequence := 0 |}.

Definition build_and_persist_suppression_receipt (event plan_id adapter : string)
    (channel : option string) (route : string) (kind : DeliveryFailureKind) (error : string)
    (capability : CapabilityReceiptFields) (source : string) (run : option string) : proc DeliveryReceipt :=
  receipt ← build_delivery_receipt
    (suppression_args event plan_id adapter channel route kind error capability source run) None None;
  call (append_receipt receipt) ;; mret receipt.

(** ** Deferred hand-off completion *)

(** The newest queued receipt of the attempt. *)
Definition newest_queued (p : DeliveryAttemptProvenance) (rs : list DeliveryReceipt) : option DeliveryReceipt :=
  max_by append_leb (queued_receipts_for_attempt p rs).

(** Does a receipt of the attempt contradict the reported provenance? *)
Definition contradicted (p : DeliveryAttemptProvenance) (rs : list DeliveryReceipt) : bool :=
  existsb (fun r => match delivery_attempt_receipt_provenance_mismatch p r with
                    | Some _ => true | None => false end) (receipts_for_attempt p rs).

Definition supplemental_args (p : DeliveryAttemptProvenance) (h : AdapterHandoffResult) (outbox : Row)
    (queued : option DeliveryReceipt) (fallback : option (list (string * json))) : receipt_args :=
  {| ra_event_id := pv_event_id p; ra_delivery_plan_id := pv_delivery_plan_id p;
     ra_target_adapter := pv_target_adapter p; ra_target_channel := pv_target_channel p;
     ra_route_id := match queued with Some q => rc_route_id q | None => route_id outbox end;
     ra_status := "sent"; ra_receipt_kind := None; ra_source := pv_source p;
     ra_replay_run_id := pv_replay_run_id p; ra_attempt_number := pv_attempt_number p;
     ra_parent_receipt_id := match queued with Some q => Some (rc_receipt_id q) | None => receipt_id outbox end;
     ra_error := None; ra_failure_kind := None;
     ra_capability := capability_receipt_fields queued fallback;
     ra_adapter_message_id := hr_native_message_id h; ra_next_retry_at := None;
     ra_retry_max_attempts := queued ≫= rc_retry_max_attempts;
     ra_retry_jitter := queued ≫= rc_retry_jitter;
     ra_rendering_evidence := queued ≫= rc_rendering_evidence;
     ra_outbox_id := Some (pv_outbox_id p); ra_confirmation_level := hr_confirmation_level h;
     ra_sequence := 0 |}.

Definition handoff_native_ref (p : DeliveryAttemptProvenance) (h : AdapterHandoffResult) (now : instant)
    : proc (option NativeMessageRef) :=
  match hr_native_message_id h with
  | None => mret None
  | Some message =>
      u ← new_uuid;
      mret (Some {| nr_id := "nref-outbound-" +:+ u; nr_event_id := pv_event_id p;
                    nr_adapter := pv_target_adapter p;
                    nr_native_channel_id := hr_native_channel_id h; nr_native_message_id := message;
                    nr_native_thread_id := hr_native_thread_id h;
                    nr_native_relation_id := hr_native_relation_id h; nr_direction := "outbound";
                    nr_metadata := hr_metadata h; nr_created_at := now |})
  end.

(** The commit of a completion, once the reported attempt has been checked. *)
Definition commit_completion (f : DeferredHandoffCompleted) (now : instant) (outbox : Row)
    (queued : option DeliveryReceipt) : proc bool :=
  let p := hc_attempt_provenance f in
  fallback ← resolve_capability_fallback outbox;
  supplemental ← build_delivery_receipt (supplemental_args p (hc_handoff f) outbox queued fallback) None (Some now);
  native_ref ← handoff_native_ref p (hc_handoff f) now;
  call (finalize_deferred_handoff {| dh_receipt := supplemental; dh_native_ref := native_ref |}).

Definition complete_deferred_handoff (f : DeferredHandoffCompleted) (now : instant) : proc bool :=
  let p := hc_attempt_provenance f in
  outbox ← get_item (pv_outbox_id p);
  match outbox with
  | None => mret false
  | Some outbox =>
      if bool_decide (delivery_attempt_provenance_mismatch p outbox <> None) then mret false
      else if negb (elem (status outbox) [Queued; InProgress]) then mret false
      else
        existing ← try_except (Some <$$> receipts_of_outbox (pv_outbox_id p)) (mret None);
        match existing with
        | None => mret false
        | Some rs =>
            if contradicted p rs then mret false
            else match newest_queued p rs with
            | Some q =>
                if negb (is_valid_queued_to_sent_transition (rc_status q)) then mret false
                else commit_completion f now outbox (Some q)
            | None =>
                if bool_decide (status outbox = Queued) then mret false
                else commit_completion f now outbox None
            end
        end
  end.

(** ** Retry: classification and evidence *)

(** An exception as the retry worker sees it: the error itself, the
    [failure_kind] attribute (a member or its text), the kind in its
    [evidence], and the [original] exception it wraps. *)
Record retry_error : Set := {
  re_error : raised;
  re_evidence_kind : option DeliveryFailureKind;
  re_kind_attribute : option (DeliveryFailureKind + string);
  re_original : option raised
}.

Definition classify_plain (e : raised) : DeliveryFailureKind := classify_failure e true false false None 0.

Definition classify_retry_exception (error : retry_error) : DeliveryFailureKind :=
  match re_evidence_kind error with
  | Some k => k
  | None =>
      let rest := classify_plain (default (re_error error) (re_original error)) in
      match re_kind_attribute error with
      | Some (inl k) => k
      | Some (inr text) => default rest (parse_failure_kind text)
      | None => rest
      end
  end.

Definition classify_retry_receipt (receipt : DeliveryReceipt) : DeliveryFailureKind :=
  default ADAPTER_PERMANENT (rc_failure_kind receipt ≫= parse_failure_kind).

Definition same_channel (r : DeliveryReceipt) (item : Row) : bool :=
  bool_decide (normalized_channel (rc_target_channel r) = normalized_channel (target_channel item)).

Definition is_lifecycle (r : DeliveryReceipt) : bool := bool_decide (rc_receipt_kind r = Some "lifecycle").

Definition retry_attempt_evidence (receipts : list DeliveryReceipt) (item : Row) (attempt_number : Z)
    : result exc (option DeliveryReceipt) :=
  let target_receipts := List.filter (fun r => bool_decide (rc_outbox_id r = Some (outbox_id item))) receipts in
  let orphaned r := bool_decide (rc_source r = "retry") && bool_decide (rc_outbox_id r = None) &&
                    (rc_attempt_number r =? attempt_number) in
  if existsb (fun r => orphaned r && same_channel r item) receipts
  then Raise (ValueError "Retry receipt is missing required outbox_id")
  else if existsb (fun r => negb (same_channel r item)) target_receipts
  then Raise (ValueError "Retry receipt outbox correlation has target_channel mismatch")
  else
    let current := List.filter (fun r => rc_attempt_number r =? attempt_number) target_receipts in
    if negb (nonempty current) then Ok None
    else
      let attempt_ids := (fun r => rc_receipt_id r) <$>
        List.filter (fun r => bool_decide (rc_receipt_kind r = Some "attempt")) current in
      let child r := match rc_parent_receipt_id r with Some p => elem p attempt_ids | None => false end in
      if existsb (fun r => orphaned r && is_lifecycle r && child r) receipts
      then Raise (ValueError "Retry lifecycle receipt is missing required outbox_id")
      else
        let terminal_lifecycle := List.filter (fun r => is_lifecycle r &&
          elem (rc_status r) ["dead_lettered"; "cancelled"; "abandoned"]) current in
        if existsb (fun r => negb (child r)) terminal_lifecycle
        then Raise (ValueError "Retry terminal lifecycle receipt is not linked to same-attempt attempt evidence")
        else Ok (match last terminal_lifecycle with Some r => Some r | None => last current end).

Definition resolve_retry_attempt (item : Row) (attempt_number : option Z) : Z :=
  match attempt_number with
  | Some n => n
  | None => match active_attempt item with Some n => n | None => Store.attempt_number item + 1 end
  end.

(** ** Retry: finalization *)

Record RetryAttemptFinalization : Set := {
  rf_outcome : string;
  rf_receipt_id : option string;
  rf_failure_kind : option string;
  rf_attempt_number : Z;
  rf_next_retry_at : option instant
}.

(** Is the result the dispatch was accepted ([true]) or suppressed? *)
Definition finalize_retry_success (item : Row) (receipt : DeliveryReceipt) : proc bool :=
  let id := outbox_id item in
  let rid := Some (rc_receipt_id receipt) in
  let n := Some (rc_attempt_number receipt) in
  if bool_decide (rc_status receipt = "queued") then
    committed ← mark_queued id rid n (worker_id item); require_retry_commit committed ;; mret true
  else if bool_decide (rc_status receipt = "sent") then
    committed ← mark_sent id rid n (worker_id item); require_retry_commit committed ;; mret true
  else if bool_decide (rc_status receipt = "suppressed") then
    committed ← mark_abandoned id (rc_error receipt) rid None n (worker_id item);
    require_retry_commit committed ;; mret false
  else throw (ValueError "Retry success finalization requires a queued, sent, or suppressed receipt").

Section backoff.
Context (compute_backoff : RetryPolicy -> Z -> Z).

Definition compute_next_retry_at (status : string) (failure_kind : option DeliveryFailureKind)
    (plan : DeliveryPlan) (attempt_number : Z) (now : instant) (retry_after : option Z) : option instant :=
  match pl_retry_policy plan with
  | Some policy =>
      if bool_decide (status = "failed") && bool_decide (failure_kind = Some ADAPTER_TRANSIENT) &&
         negb (is_exhausted policy attempt_number)
      then
        let backoff := compute_backoff policy attempt_number in
        let hinted := match retry_after with Some h => Z.min h MAX_ADAPTER_RETRY_AFTER | None => backoff end in
        Some (now + (if backoff <? hinted then hinted else backoff))
      else None
  | None => None
  end.

Definition defer_retry_outbox (item : Row) (policy : RetryPolicy) (failure_kind : string)
    (attempt_number : Z) (receipt error : option string) (now : option instant) (min_delay : option Z)
    : proc instant :=
  if match min_delay with Some m => m <? 0 | None => false end
  then throw (ValueError "min_delay must be non-negative")
  else
    let backoff := compute_backoff policy attempt_number in
    let backoff := match min_delay with Some m => Z.max backoff m | None => backoff end in
    base ← match now with Some t => mret t | None => read_clock end;
    committed ← mark_retry_wait (outbox_id item) (base + backoff) receipt (Some failure_kind) None error
                  (Some attempt_number) (worker_id item);
    require_retry_commit committed ;; mret (base + backoff).

(** The failure branch of [_finalize_retry_evidence]. *)
Definition finalize_retry_failure (item : Row) (policy : RetryPolicy) (evidence : option DeliveryReceipt)
    (kind : DeliveryFailureKind) (error : string) (attempt_number : Z) (now : option instant)
    : proc RetryAttemptFinalization :=
  let failed := match evidence with Some e => bool_decide (rc_status e = "failed") | None => false end in
  let receipt := match evidence with
                 | Some e => if failed then Some (rc_receipt_id e) else None | None => None end in
  if negb (is_retryable kind) || is_exhausted policy attempt_number then
    let terminal_kind := if is_retryable kind then "retry_exhausted" else failure_value kind in
    match evidence with
    | Some e =>
        if failed then
          lifecycle ← build_terminal_lifecycle_receipt e "dead_lettered" (Some error) (Some terminal_kind);
          committed ← call (finalize_outbox_terminal
            {| tf_lifecycle_receipt := lifecycle; tf_attempt_receipt := None;
               tf_expected_worker_id := worker_id item |});
          require_retry_commit committed ;;
          mret {| rf_outcome := "dead_lettered"; rf_receipt_id := Some (rc_receipt_id lifecycle);
                  rf_failure_kind := Some terminal_kind; rf_attempt_number := attempt_number;
                  rf_next_retry_at := None |}
        else
          committed ← mark_dead_lettered (outbox_id item) receipt (Some terminal_kind) None (Some error)
                        (Some attempt_number) (worker_id item);
          require_retry_commit committed ;;
          mret {| rf_outcome := "dead_lettered"; rf_receipt_id := receipt;
                  rf_failure_kind := Some terminal_kind; rf_attempt_number := attempt_number;
                  rf_next_retry_at := None |}
    | None =>
        committed ← mark_dead_lettered (outbox_id item) receipt (Some terminal_kind) None (Some error)
                      (Some attempt_number) (worker_id item);
        require_retry_commit committed ;;
        mret {| rf_outcome := "dead_lettered"; rf_receipt_id := receipt;
                rf_failure_kind := Some terminal_kind; rf_attempt_number := attempt_number;
                rf_next_retry_at := None |}
    end
  else
    next ← match evidence ≫= rc_next_retry_at with
           | Some t =>
               committed ← mark_retry_wait (outbox_id item) t receipt (Some (failure_value kind)) None
                             (Some error) (Some attempt_number) (worker_id item);
               require_retry_commit committed ;; mret t
           | None => defer_retry_outbox item policy (failure_value kind) attempt_number receipt (Some error) now None
           end;
    mret {| rf_outcome := "retry_wait"; rf_receipt_id := receipt;
            rf_failure_kind := Some (failure_value kind); rf_attempt_number := attempt_number;
            rf_next_retry_at := Some next |}.

Definition finalize_retry_evidence (item : Row) (policy : RetryPolicy) (evidence : option DeliveryReceipt)
    (unpersisted_kind : option DeliveryFailureKind) (unpersisted_error : option string)
    (attempt_number : option Z) (now : option instant) : proc RetryAttemptFinalization :=
  let n := resolve_retry_attempt item attempt_number in
  match evidence with
  | Some e =>
      if elem (rc_status e) ["queued"; "sent"; "suppressed"] then
        accepted ← finalize_retry_success item e;
        mret {| rf_outcome := if (accepted : bool) then "accepted" else "suppressed";
                rf_receipt_id := Some (rc_receipt_id e); rf_failure_kind := rc_failure_kind e;
                rf_attempt_number := rc_attempt_number e; rf_next_retry_at := None |}
      else if bool_decide (rc_status e = "dead_lettered") then
        let terminal_kind := match opt_or_none (rc_failure_kind e) with Some k => k | None => "retry_exhausted" end in
        committed ← mark_dead_lettered (outbox_id item) (Some (rc_receipt_id e)) (Some terminal_kind) None
                      (error_prefix (rc_error e)) (Some n) (worker_id item);
        require_retry_commit committed ;;
        mret {| rf_outcome := "dead_lettered"; rf_receipt_id := Some (rc_receipt_id e);
                rf_failure_kind := Some terminal_kind; rf_attempt_number := n; rf_next_retry_at := None |}
      else if elem (rc_status e) ["cancelled"; "abandoned"] then
        let mark := if bool_decide (rc_status e = "cancelled") then mark_cancelled else mark_abandoned in
        committed ← mark (outbox_id item) (error_prefix (rc_error e)) (Some (rc_receipt_id e))
                      (rc_failure_kind e) (Some n) (worker_id item);
        require_retry_commit committed ;;
        mret {| rf_outcome := rc_status e; rf_receipt_id := Some (rc_receipt_id e);
                rf_failure_kind := rc_failure_kind e; rf_attempt_number := n; rf_next_retry_at := None |}
      else
        let failed := bool_decide (rc_status e = "failed") in
        let kind := if failed then Some (classify_retry_receipt e) else unpersisted_kind in
        let error := if failed then error_prefix (rc_error e)
                     else (String.substring 0 512) <$> unpersisted_error in
        match kind with
        | None => throw (ValueError "Retry failure finalization requires failed receipt evidence")
        | Some k => finalize_retry_failure item policy evidence k (default "Retry delivery failed" error) n now
        end
  | None =>
      match unpersisted_kind with
      | None => throw (ValueError "Retry failure finalization requires failed receipt evidence")
      | Some k => finalize_retry_failure item policy None k
                    (default "Retry delivery failed" ((String.substring 0 512) <$> unpersisted_error)) n now
      end
  end.

(** ** Retry: reservation, leases, reconciliation *)

Definition reserve_retry_attempt (item : Row) : proc (option Z) :=
  match worker_id item with
  | None => mret None
  | Some w => now ← read_clock;
              call (reserve_outbox_attempt now (outbox_id item) w (Store.attempt_number item))
  end.

Definition renew_retry_lease (item : Row) (lease_seconds : Z) : proc bool :=
  match worker_id item with
  | None => mret false
  | Some w => base ← read_clock; now ← read_clock;
              call (renew_outbox_lease now (outbox_id item) w (base + seconds lease_seconds))
  end.

Definition AMBIGUOUS_DISPATCH_FAILURE_DETAIL : string := "dispatch_outcome_unknown".
Definition AMBIGUOUS_DISPATCH_ERROR : string :=
  "reserved retry dispatch was reclaimed without durable receipt evidence; " +:+
  "outcome is unknown and the attempt identity is consumed".

Definition reconcile_retry_claim (item : Row) (policy : RetryPolicy) (now : option instant)
    : proc (option RetryAttemptFinalization) :=
  receipts ← receipts_of_delivery item;
  match active_attempt item with
  | Some n =>
      evidence ← of_result (retry_attempt_evidence receipts item n);
      match evidence with
      | Some e => f ← finalize_retry_evidence item policy (Some e) None None (Some n) now; mret (Some f)
      | None =>
          if is_exhausted policy n then
            committed ← mark_dead_lettered (outbox_id item) None (Some "retry_exhausted")
                          (Some AMBIGUOUS_DISPATCH_FAILURE_DETAIL) (Some AMBIGUOUS_DISPATCH_ERROR)
                          (Some n) (worker_id item);
            require_retry_commit committed ;;
            mret (Some {| rf_outcome := "dead_lettered"; rf_receipt_id := None;
                          rf_failure_kind := Some "retry_exhausted"; rf_attempt_number := n;
                          rf_next_retry_at := None |})
          else
            base ← match now with Some t => mret t | None => read_clock end;
            let next := base + compute_backoff policy n in
            committed ← mark_retry_wait (outbox_id item) next None (Some (failure_value ADAPTER_TRANSIENT))
                          (Some AMBIGUOUS_DISPATCH_FAILURE_DETAIL) (Some AMBIGUOUS_DISPATCH_ERROR)
                          (Some n) (worker_id item);
            require_retry_commit committed ;;
            mret (Some {| rf_outcome := "retry_wait"; rf_receipt_id := None;
                          rf_failure_kind := Some (failure_value ADAPTER_TRANSIENT);
                          rf_attempt_number := n; rf_next_retry_at := Some next |})
      end
  | None =>
      let n := Store.attempt_number item + 1 in
      evidence ← of_result (retry_attempt_evidence receipts item n);
      match evidence with
      | None => mret None
      | Some e => f ← finalize_retry_evidence item policy (Some e) None None (Some n) now; mret (Some f)
      end
  end.

Definition finalize_retry_attempt_error (item : Row) (policy : RetryPolicy) (error : retry_error)
    (attempt_number : option Z) (now : option instant) : proc RetryAttemptFinalization :=
  let n := resolve_retry_attempt item attempt_number in
  receipts ← receipts_of_delivery item;
  evidence ← of_result (retry_attempt_evidence receipts item n);
  let summary := ex_type_name (re_error error) +:+ ": " +:+ ex_text (re_error error) in
  finalize_retry_evidence item policy evidence (Some (classify_retry_exception error)) (Some summary) (Some n) now.

Definition release_unstarted_retry_claim (item : Row) : proc unit :=
  match active_attempt item with
  | Some _ => mret tt
  | None =>
      match opt_or_none (worker_id item) with
      | None => throw (ValueError "unstarted claim release requires a worker owner")
      | Some w =>
          now ← read_clock;
          call (release_outbox_claim now (outbox_id item) w
                  (if Store.attempt_number item =? 0 then "pending" else "retry_wait"))
      end
  end.

Definition abandon_retry_outbox (item : Row) (error_summary : string) : proc unit :=
  committed ← mark_abandoned (outbox_id item) (Some error_summary) None None (active_attempt item) (worker_id item);
  require_retry_commit committed.

(** A success whose commit lost to another task: what that task committed for
    the same attempt, if it explains the row. *)
Definition reconcile_retry_success_commit_rejection (item : Row) (receipt : DeliveryReceipt)
    : proc (option RetryAttemptFinalization) :=
  if negb (elem (rc_status receipt) ["queued"; "sent"]) then mret None
  else
    current ← get_item (outbox_id item);
    match (current : option Row) with
    | None => mret None
    | Some current =>
        if negb (Store.attempt_number current =? rc_attempt_number receipt) then mret None
        else if bool_decide (active_attempt current <> None) || bool_decide (receipt_id current = None)
        then mret None
        else
          receipts ← receipts_of_delivery item;
          match committed_receipt_for_outbox (Some current) receipts with
          | None => mret None
          | Some c =>
              let result outcome kind :=
                Some {| rf_outcome := outcome; rf_receipt_id := Some (rc_receipt_id c);
                        rf_failure_kind := kind; rf_attempt_number := rc_attempt_number receipt;
                        rf_next_retry_at := None |} in
              if bool_decide (status current = Sent) && bool_decide (rc_status c = "sent")
              then mret (result "accepted" None)
              else if bool_decide (status current = DeadLettered) && elem (rc_status c) ["failed"; "dead_lettered"]
              then mret (result "dead_lettered" (failure_kind current))
              else if bool_decide (status current = Cancelled) && bool_decide (rc_status c = "cancelled")
              then mret (result "cancelled" (failure_kind current))
              else if bool_decide (status current = Abandoned) &&
                      elem (rc_status c) ["failed"; "abandoned"; "suppressed"]
              then mret (result "abandoned" (failure_kind current))
              else mret None
          end
    end.

(** ** Outcome of a pipeline delivery *)

(** The kind that decides the transition: the evidence's, else the attempt
    receipt's when it is a member of the taxonomy. *)
Definition outcome_kind (e : DeliveryExecutionEvidence) : option DeliveryFailureKind :=
  match xe_failure_kind e with
  | Some k => Some k
  | None => xe_attempt_receipt e ≫= (fun a => opt_or_none (rc_failure_kind a) ≫= parse_failure_kind)
  end.

(** The authority receipt, built for a terminal failure that has none. *)
Definition outcome_authority (e : DeliveryExecutionEvidence) : proc (option DeliveryReceipt) :=
  match xe_authority_receipt e, xe_attempt_receipt e, outcome_kind e with
  | Some a, _, _ => mret (Some a)
  | None, Some attempt, Some kind =>
      if bool_decide (rc_status attempt = "failed") && is_terminal_failure kind (rc_next_retry_at attempt)
      then a ← build_terminal_lifecycle_receipt attempt "dead_lettered" (xe_error e) (Some (failure_value kind));
           mret (Some a)
      else mret None
  | _, _, _ => mret None
  end.

(** The attempt a transition without receipt is about. *)
Definition row_attempt (id : string) (reserved : option Z) (missing : option Z) : proc (option Z) :=
  match reserved with
  | Some n => mret (Some n)
  | None => item ← get_item id;
            mret (match item with Some r => Some (effective_attempt r) | None => missing end)
  end.

(** The storage transition of a failure without authority receipt. *)
Definition commit_failure (id : string) (attempt : option DeliveryReceipt) (kind : DeliveryFailureKind)
    (error : option string) (policy : option RetryPolicy) (reserved : option Z) (worker : option string)
    : proc bool :=
  match attempt with
  | Some a =>
      match policy, rc_next_retry_at a with
      | Some _, Some t =>
          if is_retryable kind
          then mark_retry_wait id t (Some (rc_receipt_id a)) (Some (failure_value kind)) None error
                 (Some (rc_attempt_number a)) worker
          else mark_dead_lettered id (Some (rc_receipt_id a)) (Some (failure_value kind)) None error
                 (Some (rc_attempt_number a)) worker
      | _, _ => mark_dead_lettered id (Some (rc_receipt_id a)) (Some (failure_value kind)) None error
                  (Some (rc_attempt_number a)) worker
      end
  | None =>
      match policy with
      | Some p =>
          if is_retryable kind then
            n ← row_attempt id reserved (Some 1);
            let n := default 1 n in
            if negb (is_exhausted p n) then
              base ← read_clock;
              mark_retry_wait id (base + compute_backoff p n) None (Some (failure_value kind)) None error
                (Some n) worker
            else mark_dead_lettered id None (Some (failure_value kind)) None error (Some n) worker
          else
            n ← row_attempt id reserved None;
            mark_dead_lettered id None (Some (failure_value kind)) None error n worker
      | None =>
          n ← row_attempt id reserved None;
          mark_dead_lettered id None (Some (failure_value kind)) None error n worker
      end
  end.

Definition commit_outcome (id : string) (e : DeliveryExecutionEvidence)
    (authority : option DeliveryReceipt) (policy : option RetryPolicy) (reserved : option Z)
    (worker : option string) : proc (option bool) :=
  match authority with
  | Some a =>
      if negb (elem (rc_status a) ["dead_lettered"; "cancelled"; "abandoned"])
      then throw (ValueError "unsupported outbox lifecycle authority status")
      else Some <$$> call (finalize_outbox_terminal
             {| tf_lifecycle_receipt := a; tf_attempt_receipt := None; tf_expected_worker_id := worker |})
  | None =>
      let of_status st := match xe_attempt_receipt e with
                          | Some a => if bool_decide (rc_status a = st) then Some a else None
                          | None => None
                          end in
      match of_status "queued", of_status "sent", outcome_kind e with
      | Some a, _, _ => Some <$$> mark_queued id (Some (rc_receipt_id a)) (Some (rc_attempt_number a)) worker
      | None, Some a, _ => Some <$$> mark_sent id (Some (rc_receipt_id a)) (Some (rc_attempt_number a)) worker
      | None, None, Some kind =>
          Some <$$> commit_failure id (xe_attempt_receipt e) kind (error_prefix (xe_error e)) policy reserved worker
      | None, None, None => mret None
      end
  end.

Definition finalize_outbox_outcome (outbox_id : option string) (outbox_created : bool)
    (evidence : DeliveryExecutionEvidence) (policy : option RetryPolicy) (reserved : option Z)
    (worker : option string) : proc (option bool) :=
  match outbox_id with
  | Some id =>
      if negb outbox_created then mret None
      else
        authority ← outcome_authority evidence;
        try_except (commit_outcome id evidence authority policy reserved worker) (mret (Some false))
  | None => mret None
  end.
End backoff.
