(* ===== verification/OutboxManager.v ===== *)
(** * Outbox management of the pipeline

    [src/src/medre/core/engine/pipeline/outbox_manager.py]: creation of the
    durable row behind a delivery, renewal of its lease, and the recording of
    terminal failures adapters report later.  [to_builtins] stands for
    [msgspec.to_builtins] on a dispatch context. *)

From S2P Require Import Prelude.
From S2P Require Import Json.
From S2P Require Import DeliveryState.
From S2P Require Import Router.
From S2P Require Import Delivery.
From S2P Require Import Events.
From S2P Require Import DeliveryPlan.
From S2P Require Import DeliveryContracts.
From S2P Require Import Store.
From S2P Require Import Outbox.
From S2P Require Import DeliveryAuthority.
From S2P Require Import StorageProgram.
From S2P Require Import ReceiptFactory.
From S2P Require Import RetryPlan.
From S2P Require Import DeliveryLifecycle.

Open Scope string_scope.
Open Scope list_scope.
Open Scope Z_scope.

Definition OUTBOX_RENEWAL_INTERVAL_SECONDS : Z := 30.
Definition OUTBOX_RENEWAL_DURATION_SECONDS : Z := 60.
Definition OUTBOX_CREATION_FAILED_REASON : string := "outbox_creation_failed".

Record OutboxContext : Set := {
  ox_outbox_id : option string;
  ox_created : bool;
  ox_pipeline_worker : string;
  ox_skip_reason : option string;
  ox_attempt_number : option Z;
  ox_replay_duplicate : bool
}.

(** ** Creation *)

(** The reduced context frozen for direct and replay deliveries. *)
Definition reduced_context (plan : DeliveryPlan) (target : RouteTarget) : list (string * json) :=
  match rt_destination target with
  | Some d =>
      [("destination_kind", JStr (dst_kind d)); ("destination_hash", json_opt_str (dst_hash d));
       ("destination_name", json_opt_str (dst_name d)); ("destination_metadata", JObj (dst_metadata d))]
  | None => []
  end ++
  [("capability_level", json_opt_str (pl_capability_level plan));
   ("delivery_strategy", JStr (st_method (pl_primary_strategy plan)));
   ("capability_field", json_opt_str (pl_capability_field plan));
   ("capability_reason", json_opt_str (pl_capability_reason plan));
   ("deadline", json_opt_str (py_isoformat <$> pl_deadline plan))].

Section creation.
Context (to_builtins : OutboxDispatchContext -> list (string * json)).

Definition dispatch_snapshot (event : CanonicalEvent) (route : Route) (plan : DeliveryPlan)
    (target : RouteTarget) (source : string) (pending : bool) : result exc OutboxDispatchSnapshotWrite :=
  if pending then
    if negb (bool_decide (source = "live"))
    then Raise (ValueError "only live ingress can stage initial delivery")
    else match em_routing (ev_metadata event) with
    | None => Raise (ValueError "initial staging requires the accepted routing decision")
    | Some routing =>
        Ok {| sw_kind := "staged";
              sw_context := to_builtins {| oc_route := route; oc_plan := plan; oc_routing := routing |} |}
    end
  else Ok {| sw_kind := "direct"; sw_context := reduced_context plan target |}.

Definition new_item (id : string) (event : CanonicalEvent) (route : Route) (plan : DeliveryPlan)
    (target : RouteTarget) (adapter worker source : string) (run : option string) (pending : bool)
    (now : instant) : DeliveryOutboxItem :=
  let unless_pending {A} (x : A) := if pending then None else Some x in
  {| it_outbox_id := id; it_event_id := ev_event_id event; it_route_id := rte_id route;
     it_delivery_plan_id := pl_plan_id plan; it_target_adapter := adapter;
     it_target_channel := rt_channel target; it_target_address := target_hash_of target;
     it_attempt_number := if pending then 0 else 1; it_active_attempt := None;
     it_status := Some (if pending then "pending" else "in_progress"); it_failure_kind := None;
     it_failure_kind_detail := None; it_next_attempt_at := None; it_created_at := None;
     it_updated_at := None; it_last_attempt_at := None; it_locked_at := unless_pending now;
     it_lease_until := unless_pending (now + seconds OUTBOX_RENEWAL_DURATION_SECONDS);
     it_worker_id := unless_pending worker; it_payload_hash := None; it_receipt_id := None;
     it_parent_receipt_id := None; it_error_summary := None; it_dispatch_source := Some source;
     it_replay_run_id := if bool_decide (source = "replay") then opt_or_none run else None;
     it_metadata := Some [] |}.

(** Why the pipeline does not own the row it was given; [None] when it does. *)
Definition skip_reason (created : Row) (duplicate pending : bool) (worker : string) : option string :=
  let st := outbox_str (status created) in
  if duplicate then Some ("replay_run_claimed:" +:+ st)
  else if outbox_terminal (status created) then Some ("terminal:" +:+ st)
  else if pending then Some "staged"
  else if elem (status created) [Pending; RetryWait; Queued] then Some ("active:" +:+ st)
  else if bool_decide (status created = InProgress) && negb (bool_decide (worker_id created = Some worker))
  then Some ("active:other_worker:" +:+ match opt_or_none (worker_id created) with
                                        | Some w => w | None => "unknown" end)
  else None.

Definition create_for_delivery (event : CanonicalEvent) (route : Route) (plan : DeliveryPlan)
    (target : RouteTarget) (adapter source : string) (replay_run_id : option string) (pending : bool)
    : proc OutboxContext :=
  '(source, run) ← of_result (normalize_delivery_provenance source replay_run_id);
  now ← read_clock;
  u ← new_uuid;
  let worker := "pipeline:" +:+ String.substring 0 12 u in
  try_except
    (snapshot ← of_result (dispatch_snapshot event route plan target source pending);
     v ← new_uuid;
     let item := new_item ("obox-" +:+ v) event route plan target adapter worker source run pending now in
     written ← read_clock;
     row ← call (create_outbox_item written item (bool_decide (source = "replay")) (Some snapshot));
     let created : Row := row in
     let duplicate := bool_decide (source = "replay") && opt_truthy run &&
       negb (bool_decide (outbox_id created = it_outbox_id item)) &&
       bool_decide (Store.replay_run_id created = run) in
     mret {| ox_outbox_id := Some (outbox_id created); ox_created := true;
             ox_pipeline_worker := match opt_or_none (worker_id created) with Some w => w | None => worker end;
             ox_skip_reason := skip_reason created duplicate pending worker;
             ox_attempt_number := Some (effective_attempt created);
             ox_replay_duplicate := duplicate |})
    (mret {| ox_outbox_id := None; ox_created := false; ox_pipeline_worker := worker;
             ox_skip_reason := Some OUTBOX_CREATION_FAILED_REASON; ox_attempt_number := None;
             ox_replay_duplicate := false |}).
End creation.

(** ** Lease renewal *)

(** One cycle of [_renew_lease] after its sleep: does the loop go on? *)
Definition renew_cycle (ctx : OutboxContext) : proc bool :=
  match ox_outbox_id ctx with
  | None => mret true
  | Some id =>
      try_except
        (base ← read_clock; now ← read_clock;
         call (renew_outbox_lease now id (ox_pipeline_worker ctx)
                 (base + seconds OUTBOX_RENEWAL_DURATION_SECONDS)))
        (mret true)
  end.

(** The loop until it breaks or is cancelled after [n] cycles. *)
Fixpoint renew_lease_loop (n : nat) (ctx : OutboxContext) : proc unit :=
  match n with
  | O => mret tt
  | S n' => go_on ← renew_cycle ctx; if (go_on : bool) then renew_lease_loop n' ctx else mret tt
  end.

(** [start_lease_renewal]: is a task started? *)
Definition starts_lease_renewal (ctx : OutboxContext) : bool :=
  bool_decide (ox_outbox_id ctx <> None) && ox_created ctx.

Definition finalize_outcome (compute_backoff : RetryPolicy -> Z -> Z) (ctx : OutboxContext)
    (evidence : DeliveryExecutionEvidence) (policy : option RetryPolicy) : proc (option bool) :=
  finalize_outbox_outcome compute_backoff (ox_outbox_id ctx) (ox_created ctx) evidence policy
    (ox_attempt_number ctx) (or_none (ox_pipeline_worker ctx)).

(** ** Deferred failures *)

(** Failure kind, terminal status and default text of a reported outcome. *)
Definition deferred_outcome (outcome : string) : option (string * string * string) :=
  if bool_decide (outcome = "exhausted")
  then Some ("adapter_transient", "dead_lettered", "local retry budget exhausted")
  else if bool_decide (outcome = "permanent_failed")
  then Some ("adapter_permanent", "dead_lettered", "permanent hand-off failure")
  else if bool_decide (outcome = "cancelled")
  then Some ("adapter_transient", "cancelled", "deferred hand-off cancelled in-flight")
  else if bool_decide (outcome = "abandoned")
  then Some ("adapter_transient", "abandoned", "adapter stopped with deferred work unsent")
  else None.

Definition deferred_args (p : DeliveryAttemptProvenance) (item : Row) (status kind : string)
    (error failure : string) (queued : option DeliveryReceipt) (fallback : option (list (string * json)))
    (copy_retry : bool) : receipt_args :=
  {| ra_event_id := pv_event_id p; ra_delivery_plan_id := delivery_plan_id item;
     ra_target_adapter := pv_target_adapter p; ra_target_channel := target_channel item;
     ra_route_id := route_id item; ra_status := status; ra_receipt_kind := Some kind;
     ra_source := pv_source p; ra_replay_run_id := pv_replay_run_id p;
     ra_attempt_number := pv_attempt_number p;
     ra_parent_receipt_id := match queued with Some q => Some (rc_receipt_id q) | None => receipt_id item end;
     ra_error := Some error; ra_failure_kind := Some failure;
     ra_capability := capability_receipt_fields queued fallback; ra_adapter_message_id := None;
     ra_next_retry_at := None;
     ra_retry_max_attempts := if copy_retry then queued ≫= rc_retry_max_attempts else None;
     ra_retry_jitter := if copy_retry then queued ≫= rc_retry_jitter else None;
     ra_rendering_evidence := None; ra_outbox_id := Some (pv_outbox_id p);
     ra_confirmation_level := "unknown"; ra_sequence := 0 |}.

(** Building the receipts and committing them. *)
Definition commit_deferred_failure (p : DeliveryAttemptProvenance) (item : Row)
    (queued : option DeliveryReceipt) (fallback : option (list (string * json)))
    (failure terminal error : string) : proc bool :=
  failed_attempt ←
    (if bool_decide (terminal = "dead_lettered")
     then Some <$$> build_delivery_receipt
            (deferred_args p item "failed" "attempt" error failure queued fallback true) None None
     else mret None);
  receipt ←
    match failed_attempt, queued with
    | Some parent, _ | None, Some parent =>
        build_terminal_lifecycle_receipt parent terminal (Some error) (Some failure)
    | None, None =>
        build_delivery_receipt
          (deferred_args p item terminal "lifecycle" error failure None fallback false) None None
    end;
  call (finalize_outbox_terminal
    {| tf_lifecycle_receipt := receipt; tf_attempt_receipt := failed_attempt; tf_expected_worker_id := None |}).

(** The body of [record_deferred_failure]; the result says whether it
    committed, which the source only logs. *)
Definition deferred_failure (f : DeferredHandoffFailed) : proc bool :=
  let p := hf_attempt_provenance f in
  match deferred_outcome (hf_outcome f) with
  | None => mret false
  | Some (failure, terminal, text) =>
      let error := match opt_or_none (hf_error f) with Some e => e | None => text end in
      item ← get_item (pv_outbox_id p);
      match (item : option Row) with
      | None => mret false
      | Some item =>
          if outbox_terminal (status item) then mret false
          else if bool_decide (delivery_attempt_provenance_mismatch p item <> None) then mret false
          else if negb (elem (status item) [Queued; InProgress]) then mret false
          else
            fallback ← resolve_capability_fallback item;
            receipts ← try_except (Some <$$> receipts_of_outbox (pv_outbox_id p)) (mret None);
            match receipts with
            | None => mret false
            | Some rs =>
                if contradicted p rs then mret false
                else match newest_queued p rs with
                | Some q => commit_deferred_failure p item (Some q) fallback failure terminal error
                | None =>
                    if bool_decide (status item = Queued) then mret false
                    else commit_deferred_failure p item None fallback failure terminal error
                end
            end
      end
  end.

Definition record_deferred_failure (f : DeferredHandoffFailed) : proc unit :=
  try_except (_ ← deferred_failure f; mret tt) (mret tt).
