(* ===== verification/LifecycleSafety.v ===== *)
(** * What the delivery lifecycle guarantees

    Adapter callbacks ([complete_deferred_handoff], [record_deferred_failure])
    and the reconciliation of retry claims are programs over the store: the
    theorems hold whatever other tasks do between their storage calls, and
    whichever of those calls fail. *)

From S2P Require Import Prelude.
From S2P Require Import Json.
From S2P Require Import DeliveryState.
From S2P Require Import Delivery.
From S2P Require Import DeliveryPlan.
From S2P Require Import DeliveryContracts.
From S2P Require Import Store.
From S2P Require Import Outbox.
From S2P Require Import OutboxProofs.
From S2P Require Import OutboxSafety.
From S2P Require Import OutboxFinalize.
From S2P Require Import Receipts.
From S2P Require Import DeliveryAuthority.
From S2P Require Import StorageProgram.
From S2P Require Import ReceiptFactory.
From S2P Require Import RetryPlan.
From S2P Require Import DeliveryLifecycle.
From S2P Require Import OutboxManager.

Open Scope string_scope.
Open Scope list_scope.
Open Scope Z_scope.

(** ** Following a program *)

(** The database of [w'] is that of [w] after some operations. *)
Definition later (w w' : world) : Prop := exists ops, w_db w' = exec ops (w_db w).

Lemma traced_run {A} (p : proc A) `{!Traced p} w r w' :
  p w = (r, w') -> later w w'.
Proof. intros H. destruct (traced w) as [ops Ho]. exists ops. by rewrite H in Ho. Qed.

#[export] Instance later_preorder : PreOrder later.
Proof.
  split; [intros w; by exists []|].
  intros a b c [o1 H1] [o2 H2]. exists (o1 ++ o2). by rewrite exec_app, <-H1.
Qed.

Lemma later_constraints w w' :
  later w w' -> outbox_constraints (outbox (w_db w)) = true ->
  outbox_constraints (outbox (w_db w')) = true.
Proof. intros [ops ->]. apply exec_constraints. Qed.

Lemma later_row w w' (r : Row) :
  later w w' -> r ∈ outbox (w_db w) -> exists r' : Row, r' ∈ outbox (w_db w') /\ row_evolves r r'.
Proof. intros [ops ->]. apply exec_row. Qed.

Lemma later_terminal w w' (r : Row) :
  later w w' -> r ∈ outbox (w_db w) -> outbox_terminal (status r) = true -> r ∈ outbox (w_db w').
Proof. intros Hl Hr Ht. destruct (later_row _ _ _ Hl Hr) as (r' & Hr' & [_ He _]). by rewrite <-(He Ht). Qed.

(** A call that returned ran on a database later than [w]'s. *)
Lemma call_run {A} (f : db -> result exc A * db) w a w' :
  call f w = (Ok a, w') -> exists w1, later w w1 /\ f (w_db w1) = (Ok a, w_db w').
Proof.
  intros [ops H]%call_Ok. exists (set_db w (exec ops (w_db w))). split; [by exists ops|done].
Qed.

Lemma try_except_Some {A} (m : proc A) w a w' :
  try_except (Some <$$> m) (mret None) w = (Ok (Some a), w') -> m w = (Ok a, w').
Proof.
  unfold try_except, proc_map, mbind, proc_bind. destruct (m w) as [[x|e] w1]; by intros [= -> ->].
Qed.

Lemma build_Ok a id at_ w r w' :
  build_delivery_receipt a id at_ w = (Ok r, w') ->
  rc_outbox_id r = ra_outbox_id a /\ rc_attempt_number r = ra_attempt_number a /\
  rc_event_id r = ra_event_id a /\ rc_status r = ra_status a.
Proof.
  intros (i & w1 & _ & (t & w2 & _ & H)%proc_bind_Ok)%proc_bind_Ok.
  injection H as H _. revert H. unfold DeliveryReceipt_init.
  repeat (case_match; [done|]). case_match; [|done]. case_match; [done|].
  intros ([source run] & _ & [= <-])%bind_Ok. done.
Qed.

(** One step of a program that returned: its result, the world after it, and
    that the world is later. *)
Ltac step_proc H a w :=
  apply proc_bind_Ok in H as (a & w & ? & H);
  match goal with Hm : _ = (Ok a, w) |- _ => pose proof (traced_run _ _ _ _ Hm) end.

Create HintDb later.
#[export] Hint Extern 1 (later _ _) => (eassumption || reflexivity) : later.

(** ** Every operation of the service is a run of the store *)

Ltac solve_traced :=
  repeat first
    [ progress (intros; cbv zeta)
    | apply traced_bind; [|intros ?]
    | apply traced_map | apply traced_try | typeclasses eauto
    | match goal with |- Traced (match ?x with _ => _ end) => destruct x end
    | match goal with |- Traced ((if ?b then _ else _) _ _ _ _ _ _) => destruct b end ].

#[export] Instance traced_get_item id : Traced (get_item id).
Proof. apply _. Qed.
#[export] Instance traced_receipts_of_outbox id : Traced (receipts_of_outbox id).
Proof. apply _. Qed.
#[export] Instance traced_receipts_of_delivery item : Traced (receipts_of_delivery item).
Proof. apply _. Qed.
#[export] Instance traced_mark_sent id r n k : Traced (mark_sent id r n k).
Proof. unfold mark_sent. apply _. Qed.
#[export] Instance traced_mark_queued id r n k : Traced (mark_queued id r n k).
Proof. unfold mark_queued. apply _. Qed.
#[export] Instance traced_mark_retry_wait id t r x y z n k : Traced (mark_retry_wait id t r x y z n k).
Proof. unfold mark_retry_wait. apply _. Qed.
#[export] Instance traced_mark_dead_lettered id r x y z n k : Traced (mark_dead_lettered id r x y z n k).
Proof. unfold mark_dead_lettered. apply _. Qed.
#[export] Instance traced_mark_cancelled id e r x n k : Traced (mark_cancelled id e r x n k).
Proof. unfold mark_cancelled. apply _. Qed.
#[export] Instance traced_mark_abandoned id e r x n k : Traced (mark_abandoned id e r x n k).
Proof. unfold mark_abandoned. apply _. Qed.
#[export] Instance traced_require b : Traced (require_retry_commit b).
Proof. unfold require_retry_commit. solve_traced. Qed.
#[export] Instance traced_handoff_ref p h now : Traced (handoff_native_ref p h now).
Proof. unfold handoff_native_ref. solve_traced. Qed.
#[export] Instance traced_terminal_receipt r s e k : Traced (build_terminal_lifecycle_receipt r s e k).
Proof. unfold build_terminal_lifecycle_receipt. apply _. Qed.
#[export] Instance traced_commit_completion f now o q : Traced (commit_completion f now o q).
Proof. unfold commit_completion. solve_traced. Qed.
#[export] Instance traced_completion f now : Traced (complete_deferred_handoff f now).
Proof. unfold complete_deferred_handoff. solve_traced. Qed.
#[export] Instance traced_commit_deferred p i q fb k t e : Traced (commit_deferred_failure p i q fb k t e).
Proof. unfold commit_deferred_failure. solve_traced. Qed.
#[export] Instance traced_deferred_failure f : Traced (deferred_failure f).
Proof. unfold deferred_failure. solve_traced. Qed.
#[export] Instance traced_record_deferred f : Traced (record_deferred_failure f).
Proof. unfold record_deferred_failure. solve_traced. Qed.
#[export] Instance traced_retry_success item r : Traced (finalize_retry_success item r).
Proof. unfold finalize_retry_success. solve_traced. Qed.
#[export] Instance traced_defer b item p k n r e now m : Traced (defer_retry_outbox b item p k n r e now m).
Proof. unfold defer_retry_outbox. solve_traced. Qed.
#[export] Instance traced_retry_failure b item p ev k e n now :
  Traced (finalize_retry_failure b item p ev k e n now).
Proof. unfold finalize_retry_failure. solve_traced. Qed.
#[export] Instance traced_retry_evidence b item p ev k e n now :
  Traced (finalize_retry_evidence b item p ev k e n now).
Proof. unfold finalize_retry_evidence. solve_traced. Qed.
#[export] Instance traced_reserve_attempt item : Traced (reserve_retry_attempt item).
Proof. unfold reserve_retry_attempt. solve_traced. Qed.
#[export] Instance traced_renew_retry item n : Traced (renew_retry_lease item n).
Proof. unfold renew_retry_lease. solve_traced. Qed.
#[export] Instance traced_reconcile b item p now : Traced (reconcile_retry_claim b item p now).
Proof. unfold reconcile_retry_claim. solve_traced. Qed.
#[export] Instance traced_attempt_error b item p e n now :
  Traced (finalize_retry_attempt_error b item p e n now).
Proof. unfold finalize_retry_attempt_error. solve_traced. Qed.
#[export] Instance traced_release_claim item : Traced (release_unstarted_retry_claim item).
Proof. unfold release_unstarted_retry_claim. solve_traced. Qed.
#[export] Instance traced_abandon item e : Traced (abandon_retry_outbox item e).
Proof. unfold abandon_retry_outbox. solve_traced. Qed.
#[export] Instance traced_success_rejection item r : Traced (reconcile_retry_success_commit_rejection item r).
Proof. unfold reconcile_retry_success_commit_rejection. solve_traced. Qed.
#[export] Instance traced_commit_failure b i a k e p n w : Traced (commit_failure b i a k e p n w).
Proof. unfold commit_failure, row_attempt. solve_traced. Qed.
#[export] Instance traced_outbox_outcome b i c e p n w : Traced (finalize_outbox_outcome b i c e p n w).
Proof. unfold finalize_outbox_outcome, outcome_authority, commit_outcome. solve_traced. Qed.
#[export] Instance traced_create tb e r p t a s run b : Traced (create_for_delivery tb e r p t a s run b).
Proof. unfold create_for_delivery. solve_traced. Qed.

(** ** Adapter callbacks *)

(** A fact an adapter reports about a deferred hand-off, with the moment the
    runtime stamps on a completion. *)
Inductive callback : Type :=
| Completed (f : DeferredHandoffCompleted) (now : instant)
| Failed (f : DeferredHandoffFailed).

Definition reported (c : callback) : DeliveryAttemptProvenance :=
  match c with Completed f _ => hc_attempt_provenance f | Failed f => hf_attempt_provenance f end.

(** Did it commit? *)
Definition run_callback (c : callback) : proc bool :=
  match c with Completed f now => complete_deferred_handoff f now | Failed f => deferred_failure f end.

#[export] Instance traced_callback c : Traced (run_callback c).
Proof. destruct c; apply _. Qed.

(** Between the two databases the reported attempt went from open to terminal. *)
Definition closes (p : DeliveryAttemptProvenance) (d d' : db) : Prop :=
  exists r r' : Row, r ∈ outbox d /\ r' ∈ outbox d' /\ row_fixed r' = row_fixed r /\
    outbox_id r = pv_outbox_id p /\ generation r = pv_attempt_number p /\
    (status r = Queued \/ status r = InProgress) /\
    outbox_terminal (status r') = true /\ attempt_number r' = pv_attempt_number p.

Lemma handoff_closes p c d d' :
  rc_outbox_id (dh_receipt c) = Some (pv_outbox_id p) ->
  rc_attempt_number (dh_receipt c) = pv_attempt_number p ->
  finalize_deferred_handoff c d = (Ok true, d') -> closes p d d'.
Proof.
  intros Hi Hn (r & r' & ? & ? & ? & Hid & ? & ? & Hs & _ & ? & _)%handoff_outcome.
  rewrite Hi in Hid. injection Hid as Hid. exists r, r'. rewrite Hs. split_and!; congruence || done.
Qed.

Lemma terminal_evidence c d d' :
  finalize_outbox_terminal c d = (Ok true, d') ->
  elem (rc_status (tf_lifecycle_receipt c)) ["dead_lettered"; "cancelled"; "abandoned"] = true /\
  exists i, rc_outbox_id (tf_lifecycle_receipt c) = Some i.
Proof.
  unfold finalize_outbox_terminal. destruct (TerminalOutboxFinalization_init c) as [[]|] eqn:E; [|done].
  intros _. split; [by apply TerminalOutboxFinalization_status|by apply TerminalOutboxFinalization_outbox_id].
Qed.

Lemma terminal_closes p c d d' :
  opt_or_empty (rc_outbox_id (tf_lifecycle_receipt c)) = pv_outbox_id p ->
  rc_attempt_number (tf_lifecycle_receipt c) = pv_attempt_number p ->
  finalize_outbox_terminal c d = (Ok true, d') -> closes p d d'.
Proof.
  intros Hi Hn H. destruct (terminal_evidence _ _ _ H) as [Hst [i Hi']].
  apply terminal_outcome in H as (r & r' & ? & ? & ? & Hid & _ & ? & ? & _ & Hs & _ & ? & _).
  rewrite Hi' in Hid, Hi. simpl in Hi. injection Hid as Hid. exists r, r'. split_and!; try (congruence || done).
  rewrite <-Hs in Hst. revert Hst. by destruct (status r').
Qed.

Lemma completion_commit_closes f now (o : Row) q w w' :
  commit_completion f now o q w = (Ok true, w') ->
  exists w1, later w w1 /\ closes (hc_attempt_provenance f) (w_db w1) (w_db w').
Proof.
  intros H. unfold commit_completion in H. step_proc H fallback w1. step_proc H receipt w2.
  step_proc H ref w3. apply call_run in H as (w4 & Hl & H).
  apply build_Ok in H2 as (Hi & Hn & _).
  exists w4. split; [etrans; [|exact Hl]; etrans; [eassumption|]; by etrans|].
  by apply (handoff_closes (hc_attempt_provenance f) {| dh_receipt := receipt; dh_native_ref := ref |}).
Qed.

Lemma completion_closes f now w w' :
  complete_deferred_handoff f now w = (Ok true, w') ->
  exists w1, later w w1 /\ closes (hc_attempt_provenance f) (w_db w1) (w_db w').
Proof.
  intros H. unfold complete_deferred_handoff in H. step_proc H o w1.
  destruct o as [o|]; [|done]. do 2 (case_match; [done|]). step_proc H rs w2.
  destruct rs as [rs|]; [|done]. case_match; [done|].
  assert (exists q, commit_completion f now o q w2 = (Ok true, w')) as [q Hc].
  { case_match; case_match; try done; eauto. }
  apply completion_commit_closes in Hc as (w3 & Hl & Hc).
  exists w3. split; [etrans; [|exact Hl]; by etrans|done].
Qed.

Lemma queued_of_attempt p rs q :
  newest_queued p rs = Some q ->
  opt_or_empty (rc_outbox_id q) = pv_outbox_id p /\ rc_attempt_number q = pv_attempt_number p.
Proof.
  intros [Hq _]%(max_by_Some _). unfold queued_receipts_for_attempt, receipts_for_attempt in Hq.
  by repeat apply list_elem_of_filter in Hq as [? Hq].
Qed.

Lemma deferred_commit_closes p (item : Row) q fb k t e w w' :
  (forall r, q = Some r ->
     opt_or_empty (rc_outbox_id r) = pv_outbox_id p /\ rc_attempt_number r = pv_attempt_number p) ->
  commit_deferred_failure p item q fb k t e w = (Ok true, w') ->
  exists w1, later w w1 /\ closes p (w_db w1) (w_db w').
Proof.
  intros Hq H. unfold commit_deferred_failure in H.
  apply proc_bind_Ok in H as (failed & w1 & Hf & H).
  assert (later w w1) as L1 by (revert Hf; destruct (bool_decide _); apply traced_run; apply _).
  assert (forall r, failed = Some r ->
    opt_or_empty (rc_outbox_id r) = pv_outbox_id p /\ rc_attempt_number r = pv_attempt_number p) as Hfa.
  { intros r ->. destruct (bool_decide _); [|done]. apply proc_bind_Ok in Hf as (r' & w2 & Hb & [= -> _]).
    apply build_Ok in Hb as (Hi & Hn & _). by rewrite Hi. }
  apply proc_bind_Ok in H as (receipt & w2 & Hr & H).
  assert (later w1 w2) as L2 by (revert Hr; destruct failed, q; apply traced_run; apply _).
  apply call_run in H as (w3 & L3 & H). exists w3. split; [etrans; [|exact L3]; by etrans|].
  assert (opt_or_empty (rc_outbox_id receipt) = pv_outbox_id p /\
          rc_attempt_number receipt = pv_attempt_number p) as [Hi Hn].
  { clear H Hf. destruct failed as [r|]; [|destruct q as [r|]].
    1, 2: destruct (build_Ok (terminal_args r t (Some e) (Some k)) None None _ _ _ Hr) as (Hi & Hn & _);
      rewrite Hi, Hn; simpl; first [by apply Hfa|by apply Hq].
    destruct (build_Ok _ _ _ _ _ _ Hr) as (Hi & Hn & _). by rewrite Hi. }
  revert H. by apply terminal_closes.
Qed.

Lemma failure_closes f w w' :
  deferred_failure f w = (Ok true, w') ->
  exists w1, later w w1 /\ closes (hf_attempt_provenance f) (w_db w1) (w_db w').
Proof.
  intros H. unfold deferred_failure in H. case_match; [|done]. destruct p as [[k t] text].
  step_proc H item w1. destruct item as [item|]; [|done]. do 3 (case_match; [done|]).
  step_proc H fallback w2. step_proc H rs w3. destruct rs as [rs|]; [|done]. case_match; [done|].
  destruct (newest_queued _ rs) as [q|] eqn:Hq; [|case_match; [done|]].
  - apply deferred_commit_closes in H as (w4 & L & Hc).
    + exists w4. split; [etrans; [|exact L]; etrans; [eassumption|]; by etrans|done].
    + intros r [= <-]. by eapply queued_of_attempt.
  - apply deferred_commit_closes in H as (w4 & L & Hc); [|done].
    exists w4. split; [etrans; [|exact L]; etrans; [eassumption|]; by etrans|done].
Qed.

Lemma callback_closes c w w' :
  run_callback c w = (Ok true, w') ->
  exists w1, later w w1 /\ closes (reported c) (w_db w1) (w_db w').
Proof. destruct c; [apply completion_closes|apply failure_closes]. Qed.

Lemma closed_never_closes p q d d1 ops d3 :
  outbox_constraints (outbox d1) = true -> closes p d d1 ->
  pv_outbox_id q = pv_outbox_id p -> closes q (exec ops d1) d3 -> False.
Proof.
  intros Hc (r & r' & _ & Hr' & Hf & Hid & _ & _ & Ht & _) Hpq (s & s' & Hs & _ & _ & Hsid & _ & Hst & _).
  destruct (exec_row ops _ _ Hr') as (x & Hx & [_ Hsame _]). rewrite (Hsame Ht) in Hx.
  assert (s = r') as ->.
  { apply (unique_row (exec ops d1)); [by apply exec_constraints|done..|].
    congruence. }
  by destruct Hst as [E|E]; rewrite E in Ht.
Qed.

(** C18: The outcome of a deferred hand-off is decided once.  If a completion or
    failure callback commits, it found, after whatever other tasks had done in
    the meantime, the row of its outbox identifier queued or in progress at
    exactly the attempt it reports, and left it terminal with that attempt.
    From then on, whatever operations follow, no callback about the same row
    commits, and the row stays exactly as the first one left it. *)
Theorem callback_commits_once c1 c2 w1 w1' w2 :
  reachable (w_db w1) -> pv_outbox_id (reported c2) = pv_outbox_id (reported c1) ->
  run_callback c1 w1 = (Ok true, w1') -> later w1' w2 ->
  exists (d : db) (r r' : Row),
    store_evolves (w_db w1) d /\ r ∈ outbox d /\ outbox_id r = pv_outbox_id (reported c1) /\
    generation r = pv_attempt_number (reported c1) /\ (status r = Queued \/ status r = InProgress) /\
    r' ∈ outbox (w_db w1') /\ row_fixed r' = row_fixed r /\
    is_terminal_outbox_status (outbox_str (status r')) = true /\
    attempt_number r' = pv_attempt_number (reported c1) /\
    (run_callback c2 w2).1 <> Ok true /\ r' ∈ outbox (w_db (run_callback c2 w2).2).
Proof.
  intros Hd Hid H [ops2 L]. destruct (callback_closes _ _ _ H) as (w & [ops Lw] & Hc).
  pose proof (traced_run _ _ _ _ H) as L1. apply reachable_constraints in Hd.
  pose proof (later_constraints _ _ L1 Hd) as Hd1.
  pose proof Hc as (r & r' & ? & ? & ? & ? & ? & ? & ? & ?). exists (w_db w), r, r'. split_and!; try done.
  - rewrite Lw. apply exec_evolves.
  - destruct (run_callback c2 w2) as [b w2'] eqn:Hrun. simpl. intros ->.
    destruct (callback_closes _ _ _ Hrun) as (w3 & [ops3 L3] & Hc2).
    rewrite L3, L, <-exec_app in Hc2. by eapply closed_never_closes.
  - destruct (run_callback c2 w2) as [b w2'] eqn:Hrun. simpl.
    apply (later_terminal w1'); [|done..]. transitivity w2; [by exists ops2|exact (traced_run (run_callback c2) _ _ _ Hrun)].
Qed.

Module CallbackExamples.
(** An adapter in flight with the first attempt of a staged delivery. *)
Definition start : world :=
  {| w_db := exec (Examples.claimed ++ [OpReserve 3000 "ob-1" "worker-a" 0]) empty_db;
     w_turns := []; w_clock := fun n => 5000 + Z.of_nat n; w_uuid := fun n => "u" +:+ py_str (Z.of_nat n) |}.

Definition envelope : DeliveryAttemptProvenance :=
  {| pv_event_id := "evt-1"; pv_delivery_plan_id := "plan-1"; pv_target_adapter := "mesh";
     pv_target_channel := Some "0"; pv_outbox_id := "ob-1"; pv_attempt_number := 1;
     pv_source := "live"; pv_replay_run_id := None |}.

Definition completed : callback :=
  Completed {| hc_attempt_provenance := envelope;
    hc_handoff := {| hr_disposition := "transport_handoff"; hr_native_message_id := Some "pkt-7";
      hr_native_channel_id := Some "0"; hr_native_thread_id := None; hr_native_relation_id := None;
      hr_confirmation_level := "local_transport"; hr_note := ""; hr_metadata := [] |} |} 5000.

Definition exhausted : callback :=
  Failed {| hf_attempt_provenance := envelope; hf_outcome := "exhausted"; hf_error := None |}.
End CallbackExamples.

Lemma callback_commits_once_witness :
  (run_callback CallbackExamples.completed CallbackExamples.start).1 = Ok true /\
  (run_callback CallbackExamples.exhausted
     (run_callback CallbackExamples.completed CallbackExamples.start).2).1 <> Ok true.
Proof.
  assert ((run_callback CallbackExamples.completed CallbackExamples.start).1 = Ok true) as H1
    by (vm_compute; reflexivity).
  split; [exact H1|].
  destruct (run_callback CallbackExamples.completed CallbackExamples.start) as [b w1] eqn:H.
  cbn [fst snd] in *. subst b.
  destruct (callback_commits_once CallbackExamples.completed CallbackExamples.exhausted
    CallbackExamples.start w1 w1) as (_ & _ & _ & _ & _ & _ & _ & _ & _ & _ & _ & _ & Hno & _).
  - eexists. reflexivity.
  - reflexivity.
  - exact H.
  - reflexivity.
  - exact Hno.
Defined.

(** ** Retry attempts *)

(** The row has recorded the outcome of attempt [n] and waits for no other. *)
Definition consumed (id : string) (n : Z) (d : db) : Prop :=
  exists r : Row, r ∈ outbox d /\ outbox_id r = id /\ attempt_number r = n /\
    active_attempt r = None /\ status r <> InProgress.

Lemma transition_consumes now id s st a n d d' :
  parse_outbox_status s = Some st -> st <> InProgress -> ta_attempt_number a = Some n ->
  update_outbox_status now id s a d = (Ok true, d') -> consumed id n d'.
Proof.
  intros Hp Hst Hn H. apply (transition_outcome _ _ _ st) in H as (r & Hr & Hg & Ho & _); [|done].
  exists (with_state r (transition_state a st now r)). rewrite Ho.
  split; [by apply (elem_of_updated (transition_guard a id) (transition_state a st now))|].
  apply transition_guard_facts in Hg as (Hid & _). simpl. by rewrite Hn.
Qed.

Lemma terminal_consumes c id n d d' :
  rc_outbox_id (tf_lifecycle_receipt c) = Some id -> rc_attempt_number (tf_lifecycle_receipt c) = n ->
  finalize_outbox_terminal c d = (Ok true, d') -> consumed id n d'.
Proof.
  intros Hi Hn H. destruct (terminal_evidence _ _ _ H) as [Hst _].
  apply terminal_outcome in H as (r & r' & _ & Hr' & Hf & Hid & _ & _ & _ & _ & Hs & _ & Ha & Hna & _).
  exists r'. split_and!; try congruence.
  intros E. by rewrite <-Hs, E in Hst.
Qed.

(** A storage transition of the service that reported success. *)
Ltac consumed_by_mark H :=
  apply proc_bind_Ok in H as (? & ? & _ & H); apply call_run in H as (? & _ & H);
  revert H; by eapply transition_consumes.

Section marks.
Context (id : string) (n : Z) (w w' : world).

Lemma sent_consumes r k : mark_sent id r (Some n) k w = (Ok true, w') -> consumed id n (w_db w').
Proof. intros H. consumed_by_mark H. Qed.
Lemma queued_consumes r k : mark_queued id r (Some n) k w = (Ok true, w') -> consumed id n (w_db w').
Proof. intros H. consumed_by_mark H. Qed.
Lemma retry_wait_consumes t r x y z k :
  mark_retry_wait id t r x y z (Some n) k w = (Ok true, w') -> consumed id n (w_db w').
Proof. intros H. consumed_by_mark H. Qed.
Lemma dead_lettered_consumes r x y z k :
  mark_dead_lettered id r x y z (Some n) k w = (Ok true, w') -> consumed id n (w_db w').
Proof. intros H. consumed_by_mark H. Qed.
Lemma cancelled_consumes e r x k :
  mark_cancelled id e r x (Some n) k w = (Ok true, w') -> consumed id n (w_db w').
Proof. intros H. consumed_by_mark H. Qed.
Lemma abandoned_consumes e r x k :
  mark_abandoned id e r x (Some n) k w = (Ok true, w') -> consumed id n (w_db w').
Proof. intros H. consumed_by_mark H. Qed.
End marks.

Lemma require_Ok b w u w' : require_retry_commit b w = (Ok u, w') -> b = true /\ w' = w.
Proof. unfold require_retry_commit. destruct b; [|done]. by intros [= _ <-]. Qed.

Create HintDb consumes.
#[export] Hint Resolve sent_consumes queued_consumes retry_wait_consumes dead_lettered_consumes
  cancelled_consumes abandoned_consumes : consumes.

(** Evidence of attempt [n] of the item. *)
Definition evidence_of (item : Row) (n : Z) (e : DeliveryReceipt) : Prop :=
  rc_outbox_id e = Some (outbox_id item) /\ rc_attempt_number e = n.

Lemma last_In {A} (l : list A) x : last l = Some x -> List.In x l.
Proof. intros H. apply list_elem_of_In. by apply last_Some_elem_of. Qed.

Lemma retry_attempt_evidence_of rs (item : Row) n e :
  retry_attempt_evidence rs item n = Ok (Some e) -> evidence_of item n e.
Proof.
  unfold retry_attempt_evidence. cbv zeta. do 2 (case_match; [done|]). case_match; [done|].
  do 2 (case_match; [done|]). intros [= He].
  assert (List.In e (List.filter (fun r => rc_attempt_number r =? n)
    (List.filter (fun r => bool_decide (rc_outbox_id r = Some (outbox_id item))) rs))) as Hin.
  { case_match eqn:Hl; simplify_eq; [by apply last_In, List.filter_In in Hl as [? _]|by apply last_In]. }
  apply List.filter_In in Hin as [Hin Hn]. apply List.filter_In in Hin as [_ Hid].
  apply Z.eqb_eq in Hn. apply bool_decide_eq_true in Hid. by split.
Qed.

(** A commit the service insists on. *)
Ltac required H :=
  let b := fresh "b" in let w := fresh "w" in let Hm := fresh "Hm" in
  apply proc_bind_Ok in H as (b & w & Hm & H);
  apply proc_bind_Ok in H as ([] & ? & [-> ->]%require_Ok & H).

Lemma retry_success_consumes (item : Row) e n w b w' :
  evidence_of item n e -> finalize_retry_success item e w = (Ok b, w') ->
  consumed (outbox_id item) n (w_db w').
Proof.
  intros [_ <-] H. unfold finalize_retry_success in H.
  do 3 (case_match; [required H; injection H as _ <-; eauto with consumes|]). done.
Qed.

Section backoff.
Context (compute_backoff : RetryPolicy -> Z -> Z).

Lemma defer_consumes (item : Row) p k n r e now m w t w' :
  defer_retry_outbox compute_backoff item p k n r e now m w = (Ok t, w') ->
  consumed (outbox_id item) n (w_db w').
Proof.
  unfold defer_retry_outbox. case_match; [done|]. cbv zeta.
  intros (base & w1 & _ & H')%proc_bind_Ok. required H'. injection H' as _ <-. eauto with consumes.
Qed.

Lemma retry_failure_consumes (item : Row) p ev k e n now w f w' :
  (forall r, ev = Some r -> evidence_of item n r) ->
  finalize_retry_failure compute_backoff item p ev k e n now w = (Ok f, w') ->
  consumed (outbox_id item) n (w_db w') /\ rf_attempt_number f = n.
Proof.
  intros Hev H. unfold finalize_retry_failure in H. cbv zeta in H. case_match.
  - destruct ev as [r|]; [case_match|].
    + apply proc_bind_Ok in H as (lc & w1 & Hb & H). required H. injection H as <- <-. split; [|done].
      destruct (build_Ok (terminal_args r _ _ _) None None _ _ _ Hb) as (Hi & Hn & _).
      destruct (Hev r eq_refl) as [Hid Hat]. apply call_run in Hm as (w2 & _ & Hm). revert Hm.
      apply terminal_consumes; simpl; rewrite ?Hi, ?Hn; done.
    + required H. injection H as <- <-. eauto with consumes.
    + required H. injection H as <- <-. eauto with consumes.
  - apply proc_bind_Ok in H as (t & w1 & Hn & [= <- <-]). split; [|done].
    destruct (ev ≫= rc_next_retry_at).
    + required Hn. injection Hn as _ <-. eauto with consumes.
    + by eapply defer_consumes.
Qed.

Lemma retry_evidence_consumes (item : Row) p ev k e n now w f w' :
  (forall r, ev = Some r -> evidence_of item n r) ->
  finalize_retry_evidence compute_backoff item p ev k e (Some n) now w = (Ok f, w') ->
  consumed (outbox_id item) n (w_db w') /\ rf_attempt_number f = n.
Proof.
  intros Hev H. unfold finalize_retry_evidence in H. cbv zeta in H. simpl resolve_retry_attempt in H.
  destruct ev as [r|]; [|case_match; [by eapply retry_failure_consumes|done]].
  pose proof (Hev r eq_refl) as Hr. case_match.
  { apply proc_bind_Ok in H as (b & w1 & Hs & [= <- <-]). split; [by eapply retry_success_consumes|apply Hr]. }
  case_match. { required H. injection H as <- <-. eauto with consumes. }
  case_match. { required H. injection H as <- <-. split; [|done]. destruct (bool_decide _) in Hm; eauto with consumes. }
  case_match; [by eapply retry_failure_consumes|done].
Qed.

Lemma reconcile_consumes (item : Row) p now n w res w' :
  active_attempt item = Some n -> reconcile_retry_claim compute_backoff item p now w = (Ok res, w') ->
  exists f, res = Some f /\ consumed (outbox_id item) n (w_db w') /\ rf_attempt_number f = n.
Proof.
  intros Ha H. unfold reconcile_retry_claim in H. rewrite Ha in H.
  apply proc_bind_Ok in H as (rs & w1 & _ & H). apply proc_bind_Ok in H as (ev & w2 & [= Hev _] & H).
  destruct ev as [e|]; [|case_match].
  - apply proc_bind_Ok in H as (f & w3 & Hf & [= <- <-]). exists f. split; [done|].
    eapply retry_evidence_consumes; [|exact Hf]. intros r [= <-]. by eapply retry_attempt_evidence_of.
  - required H. injection H as <- <-. eexists. split; [done|]. eauto with consumes.
  - apply proc_bind_Ok in H as (base & w3 & _ & H). cbv zeta in H. required H. injection H as <- <-.
    eexists. split; [done|]. eauto with consumes.
Qed.
End backoff.

Lemma consumed_not_reserved id n d ops now k from g d' :
  outbox_constraints (outbox d) = true -> consumed id n d ->
  reserve_outbox_attempt now id k from (exec ops d) = (Ok (Some g), d') -> n < g.
Proof.
  intros Hc (r & Hr & Hid & Hn & Ha & _) (-> & _ & q & Hq & Hg)%reserve_Some.
  destruct (exec_row ops d r Hr) as (r' & Hr' & [Hf _ Hgen]).
  apply reserve_guard_facts in Hg as (Hqi & _ & _ & Hqa & Hqn & _).
  assert (r' = q) as -> by (apply (unique_row (exec ops d)); [by apply exec_constraints|done..|congruence]).
  unfold generation in Hgen. rewrite Ha, Hqa in Hgen. simpl in Hgen. lia.
Qed.

(** C19: A reclaimed dispatch of unknown outcome is never repeated under its
    attempt number.  Reconciling a claim whose row has attempt n reserved
    never reports that there is nothing to reconcile: it raises, or it
    returns a settlement of attempt n, and then the row records attempt n as
    its last one, has no reservation, is no longer in progress, and no
    reservation of that row, whatever operations follow, hands out n or a
    smaller number again. *)
Theorem reclaimed_attempt_consumed compute_backoff (item : Row) policy now n w res w' :
  reachable (w_db w) -> active_attempt item = Some n ->
  reconcile_retry_claim compute_backoff item policy now w = (res, w') ->
  res <> Ok None /\
  forall f, res = Ok (Some f) ->
    rf_attempt_number f = n /\
    (exists r : Row, r ∈ outbox (w_db w') /\ outbox_id r = outbox_id item /\ attempt_number r = n /\
       active_attempt r = None /\ status r <> InProgress) /\
    forall ops t k from g d', reserve_outbox_attempt t (outbox_id item) k from (exec ops (w_db w')) =
      (Ok (Some g), d') -> n < g.
Proof.
  intros Hd%reachable_constraints Ha H. split.
  - intros ->. by apply reconcile_consumes with (n := n) in H as (f & [=] & _).
  - intros f ->. pose proof (traced_run _ _ _ _ H) as L.
    apply reconcile_consumes with (n := n) in H as (f' & [= <-] & Hc & Hf); [|done].
    split_and!; [done|exact Hc|]. intros ops t k from g d' Hg.
    eapply consumed_not_reserved; [|exact Hc|exact Hg]. by apply (later_constraints w).
Qed.

Module RetryExamples.
Definition policy : RetryPolicy :=
  {| rp_max_attempts := 3; rp_backoff_base := float_2; rp_max_delay_seconds := float_60; rp_jitter := false |}.
Definition item : Row := default (item_row (Examples.item "ob-1" 0 "pending" None None) 0 Pending "live" 0)
  (get_outbox_item (w_db CallbackExamples.start) "ob-1").
Abbreviation reconcile := (reconcile_retry_claim (fun _ _ => seconds 2) item policy None CallbackExamples.start).
End RetryExamples.

(** Attempt 1 was reserved and left no receipt: it is settled as failed. *)
Lemma reclaimed_attempt_consumed_witness :
  RetryExamples.reconcile.1 <> Ok None /\
  rf_outcome <$> match RetryExamples.reconcile.1 with Ok f => f | Raise _ => None end = Some "retry_wait" /\
  exists r : Row, r ∈ outbox (w_db RetryExamples.reconcile.2) /\ attempt_number r = 1 /\ status r <> InProgress.
Proof.
  assert (rf_outcome <$> match RetryExamples.reconcile.1 with Ok f => f | Raise _ => None end =
          Some "retry_wait") as Ho by (vm_compute; reflexivity).
  assert (active_attempt RetryExamples.item = Some 1) as Ha by (vm_compute; reflexivity).
  assert (reachable (w_db CallbackExamples.start)) as Hr by (eexists; reflexivity).
  destruct RetryExamples.reconcile as [res w'] eqn:E. cbn [fst snd] in *.
  destruct (reclaimed_attempt_consumed (fun _ _ => seconds 2) RetryExamples.item RetryExamples.policy None 1
    CallbackExamples.start res w' Hr Ha E) as [H1 H2].
  split; [exact H1|]. split; [exact Ho|]. destruct res as [[f|]|]; [|discriminate Ho..].
  destruct (H2 f eq_refl) as (_ & (r & Hin & _ & Hn & _ & Hs) & _). exists r. auto.
Defined.
