(* ===== verification/RetryRoundtrip.v ===== *)
(** * From an accepted delivery to its retries

    [OutboxManager.create_for_delivery] either says why the pipeline must not
    dispatch or hands it a row of its own with a frozen dispatch context; what
    [reconstruct_retry_delivery_plan] later rebuilds from that row is the
    decision that was accepted, whatever happened in between. *)

From S2P Require Import Prelude.
From S2P Require Import Json.
From S2P Require Import JsonText.
From S2P Require Import DeliveryState.
From S2P Require Import Router.
From S2P Require Import Delivery.
From S2P Require Import Events.
From S2P Require Import Capability.
From S2P Require Import DeliveryPlan.
From S2P Require Import Store.
From S2P Require Import Outbox.
From S2P Require Import OutboxProofs.
From S2P Require Import OutboxSafety.
From S2P Require Import OutboxClaims.
From S2P Require Import OutboxCreate.
From S2P Require Import DeliveryAuthority.
From S2P Require Import StorageProgram.
From S2P Require Import ReceiptFactory.
From S2P Require Import RetryPlan.
From S2P Require Import DeliveryLifecycle.
From S2P Require Import OutboxManager.
From S2P Require Import LifecycleSafety.

Open Scope string_scope.
Open Scope list_scope.
Open Scope Z_scope.

#[local] Arguments od_get : simpl never.

(** ** Creation *)

Lemma create_reads_row now item alloc snap d r d' :
  create_outbox_item now item alloc snap d = (Ok r, d') ->
  exists r0 : Row, r0 ∈ outbox d' /\ r = coalesce_outbox d' r0.
Proof.
  assert (forall i, reread d' i = Ok r -> exists r0 : Row, r0 ∈ outbox d' /\ r = coalesce_outbox d' r0) as Hi.
  { intros i. unfold reread, get_outbox_item. destruct (find_outbox d' i) as [r0|] eqn:E; [|done].
    intros [= <-]. apply find_outbox_Some in E as [? _]. eauto. }
  unfold create_outbox_item. repeat (case_match; try done); intros [= Hr <-]; eauto.
Qed.

Lemma exec_reachable ops d : reachable d -> reachable (exec ops d).
Proof. intros [ops0 ->]. exists (ops0 ++ ops). by rewrite exec_app. Qed.

Lemma create_constraints now item alloc snap d res d' :
  create_outbox_item now item alloc snap d = (res, d') ->
  outbox_constraints (outbox d) = true -> outbox_constraints (outbox d') = true.
Proof. intros H. pose proof (st_constraints _ _ (create_step now item alloc snap d)) as Hc. by rewrite H in Hc. Qed.

Lemma skip_reason_None (r : Row) dup pending worker :
  skip_reason r dup pending worker = None ->
  dup = false /\ pending = false /\ status r = InProgress /\ worker_id r = Some worker.
Proof.
  unfold skip_reason. destruct dup; [done|]. destruct (bool_decide (worker_id r = Some worker)) eqn:Hw.
  - apply bool_decide_eq_true in Hw. by destruct (status r), pending.
  - by destruct (status r), pending.
Qed.

(** The database the creation ran on, and the name the pipeline took. *)
Definition at_call (w : world) : db := exec (tn_others (next_turn w).1) (w_db w).
Definition pipeline_name (w : world) : string := "pipeline:" +:+ String.substring 0 12 (w_uuid w 0%nat).

Lemma max_generation_nonneg item d :
  outbox_constraints (outbox d) = true -> 0 <= default 0 (select_max_generation item d).
Proof.
  intros Hc. unfold select_max_generation. destruct (max_by _ _) as [m|] eqn:E; [|done].
  apply (max_by_Some _) in E as [Hm _]. apply list_elem_of_fmap in Hm as (r & -> & Hr).
  apply list_elem_of_filter in Hr as [_ Hr]. apply (constraints_row_check d) in Hr; [|done].
  pose proof (row_check_generation r Hr). unfold row_check in Hr. rewrite !andb_true_iff in Hr. simpl. lia.
Qed.

Section creation.
Context (to_builtins : OutboxDispatchContext -> list (string * json))
  (event : CanonicalEvent) (route : Route) (plan : DeliveryPlan) (target : RouteTarget)
  (adapter source : string) (run : option string) (pending : bool).

Abbreviation create := (create_for_delivery to_builtins event route plan target adapter source run pending).

(** The row of an accepted delivery. *)
Record accepted_row (worker : string) (now : instant) (r : Row) : Prop := {
  ar_event : event_id r = ev_event_id event;
  ar_route : route_id r = rte_id route;
  ar_plan : delivery_plan_id r = pl_plan_id plan;
  ar_adapter : target_adapter r = adapter;
  ar_channel : target_channel r = opt_or_none (rt_channel target);
  ar_address : target_address r = target_hash_of target;
  ar_metadata : metadata r = [];
  ar_status : status r = InProgress;
  ar_worker : worker_id r = Some worker;
  ar_lease : lease_until r = Some (now + seconds OUTBOX_RENEWAL_DURATION_SECONDS);
  ar_active : active_attempt r = None;
  ar_attempt : 1 <= attempt_number r
}.

(** A creation fails, or stores the item and answers from the row. *)
Lemma create_for_delivery_ran w ctx w' :
  create w = (Ok ctx, w') ->
  ox_outbox_id ctx = None /\ ox_skip_reason ctx <> None \/
  exists written id src run' s (created : Row) dup,
    dispatch_snapshot to_builtins event route plan target src pending = Ok s /\
    create_outbox_item written
      (new_item id event route plan target adapter (pipeline_name w) src run' pending (w_clock w 0%nat))
      (bool_decide (src = "replay")) (Some s) (at_call w) = (Ok created, w_db w') /\
    ox_outbox_id ctx = Some (outbox_id created) /\
    ox_pipeline_worker ctx = match opt_or_none (worker_id created) with Some k => k | None => pipeline_name w end /\
    ox_skip_reason ctx = skip_reason created dup pending (pipeline_name w) /\
    ox_attempt_number ctx = Some (effective_attempt created).
Proof.
  intros H. unfold create_for_delivery in H.
  apply proc_bind_Ok in H as ([src run'] & w1 & [= _ <-] & H).
  apply proc_bind_Ok in H as (now & w2 & [= <- <-] & H).
  apply proc_bind_Ok in H as (u & w3 & [= <- <-] & H). cbn [w_clock w_uuid w_db w_turns] in H.
  unfold try_except in H. match type of H with match ?m with _ => _ end = _ => destruct m as [[c|e] w4] eqn:Hm end.
  2: { left. injection H as <- _. done. }
  right. injection H as -> ->. apply proc_bind_Ok in Hm as (snap & w5 & [= Hsnap <-] & Hm).
  apply proc_bind_Ok in Hm as (v & w6 & [= <- <-] & Hm). apply proc_bind_Ok in Hm as (written & w7 & [= <- <-] & Hm).
  apply proc_bind_Ok in Hm as (created & w8 & Hc & [= <- <-]).
  exists (w_clock w 1%nat), ("obox-" +:+ w_uuid w 1%nat), src, run', snap, created. eexists. split; [done|]. split.
  - revert Hc. unfold call, at_call, next_turn. cbn [w_turns w_db w_clock w_uuid].
    destruct (w_turns w) as [|[others [e|]] ts]; cbn [tn_others tn_fault fst];
      [|done|]; destruct (create_outbox_item _ _ _ _ _) as [res d] eqn:E; intros [= -> <-]; done.
  - split_and!; reflexivity.
Qed.

(** The call behind a creation that lets the pipeline dispatch. *)
Lemma create_for_delivery_call w ctx w' :
  create w = (Ok ctx, w') -> ox_skip_reason ctx = None ->
  exists written id src run' (created : Row),
    pending = false /\
    create_outbox_item written
      (new_item id event route plan target adapter (pipeline_name w) src run' false (w_clock w 0%nat))
      (bool_decide (src = "replay")) (Some {| sw_kind := "direct"; sw_context := reduced_context plan target |})
      (at_call w) = (Ok created, w_db w') /\
    status created = InProgress /\ worker_id created = Some (pipeline_name w) /\
    ox_outbox_id ctx = Some (outbox_id created) /\ ox_pipeline_worker ctx = pipeline_name w /\
    ox_attempt_number ctx = Some (effective_attempt created).
Proof.
  intros H Hskip. destruct (create_for_delivery_ran w ctx w' H)
    as [[_ Hno]|(written & id & src & run' & s & created & dup & Hs & Hc & Hid & Hpw & Hsk & Ha)]; [done|].
  rewrite Hsk in Hskip. apply skip_reason_None in Hskip as (_ & Hp & Hst & Hw). unfold dispatch_snapshot in Hs.
  rewrite Hp in Hs, Hc. injection Hs as <-. exists written, id, src, run', created.
  split_and!; try done. rewrite Hpw, Hw. unfold pipeline_name. done.
Qed.

(** The row and the snapshot of a creation whose row is new. *)
Lemma create_for_delivery_stores w ctx w' id :
  outbox_constraints (outbox (w_db w)) = true ->
  create w = (Ok ctx, w') -> ox_outbox_id ctx = Some id ->
  (forall r : Row, r ∈ outbox (at_call w) -> outbox_id r <> id) ->
  exists (r : Row) sn s src,
    dispatch_snapshot to_builtins event route plan target src pending = Ok s /\
    r ∈ outbox (w_db w') /\ outbox_id r = id /\ event_id r = ev_event_id event /\ route_id r = rte_id route /\
    delivery_plan_id r = pl_plan_id plan /\ target_adapter r = adapter /\
    target_channel r = opt_or_none (rt_channel target) /\ target_address r = target_hash_of target /\
    metadata r = [] /\ (pending = false -> 1 <= attempt_number r) /\
    sn ∈ snapshots (w_db w') /\ sn_outbox_id sn = outbox_id r /\
    sn_version sn = OUTBOX_DISPATCH_SNAPSHOT_VERSION /\ sn_kind sn = sw_kind s /\ sn_context sn = sw_context s /\
    elem (sn_kind sn) OUTBOX_DISPATCH_SNAPSHOT_KINDS = true.
Proof.
  intros Hc H Hid Hnew. destruct (create_for_delivery_ran w ctx w' H)
    as [[Hno _]|(written & oid & src & run' & s & created & dup & Hs & Hcall & Hid' & _)]; [congruence|].
  assert (outbox_constraints (outbox (at_call w)) = true) as Hca by (by apply exec_constraints).
  pose proof (create_constraints _ _ _ _ _ _ _ Hcall Hca) as Hc'.
  assert (outbox_id created = id) as Hcid by congruence.
  assert (outbox (w_db w') <> outbox (at_call w)) as Hne.
  { intros He. destruct (create_reads_row _ _ _ _ _ _ _ Hcall) as (r0 & Hr0 & ->). rewrite He in Hr0.
    apply (Hnew r0 Hr0). by rewrite coalesce_fixed in Hcid. }
  destruct (create_ran _ _ _ _ _ _ _ Hcall Hne) as (attempt & st & source' & dl & b & Hck & Hattempt & _ & _ & Ht & Hrr).
  set (r := item_row _ attempt st source' written) in Ht.
  pose proof Ht as (d1 & Hi & _ & (Ho & _))%create_tail_inv. unfold same in Ho.
  apply insert_outbox_Ok in Hi as (-> & _ & _). simpl in Ho.
  destruct (create_tail_snapshot _ _ _ _ _ _ _ _ _ _ _ Hc' Ht) as [Hsn Hel].
  assert (r ∈ outbox (w_db w')) as Hin by (rewrite Ho; set_solver).
  exists r. eexists _, s, src. split; [done|]. split; [done|]. split.
  { change (it_outbox_id _) with (outbox_id r) in Hrr. rewrite reread_find in Hrr by done.
    injection Hrr as <-. by rewrite coalesce_fixed in Hcid. }
  split_and!; try done. intros Hp. change (1 <= attempt). rewrite Hattempt.
  case_bool_decide; [|by rewrite Hp].
  match goal with |- 1 <= default 0 (select_max_generation ?x ?y) + 1 =>
    pose proof (max_generation_nonneg x y Hca); lia end.
Qed.

(** The row and the snapshot it inserted, when the pipeline's name is new. *)
Lemma create_for_delivery_inserts w ctx w' :
  outbox_constraints (outbox (w_db w)) = true ->
  create w = (Ok ctx, w') -> ox_skip_reason ctx = None ->
  (forall r : Row, r ∈ outbox (at_call w) -> worker_id r <> Some (pipeline_name w)) ->
  exists (r : Row) sn,
    outbox (w_db w') = outbox (at_call w) ++ [r] /\ accepted_row (pipeline_name w) (w_clock w 0%nat) r /\
    pending = false /\ ox_outbox_id ctx = Some (outbox_id r) /\ ox_pipeline_worker ctx = pipeline_name w /\
    ox_attempt_number ctx = Some (attempt_number r) /\
    sn ∈ snapshots (w_db w') /\ sn_outbox_id sn = outbox_id r /\
    sn_version sn = OUTBOX_DISPATCH_SNAPSHOT_VERSION /\ sn_kind sn = "direct" /\
    sn_context sn = reduced_context plan target.
Proof.
  intros Hc H Hskip Hfresh.
  destruct (create_for_delivery_call w ctx w' H Hskip)
    as (written & id & src & run' & created & Hp & Hcall & Hst & Hw & Hid & Hpw & Hatt).
  assert (outbox_constraints (outbox (at_call w)) = true) as Hca by (by apply exec_constraints).
  assert (outbox_constraints (outbox (w_db w')) = true) as Hc'.
  { exact (create_constraints _ _ _ _ _ _ _ Hcall Hca). }
  assert (outbox (w_db w') <> outbox (at_call w)) as Hne.
  { intros He. destruct (create_reads_row _ _ _ _ _ _ _ Hcall) as (r0 & Hr0 & ->). rewrite He in Hr0.
    destruct (coalesce_state (w_db w') r0) as (_ & Hw0 & _). by apply (Hfresh r0 Hr0); rewrite <-Hw0. }
  destruct (create_ran _ _ _ _ _ _ _ Hcall Hne)
    as (attempt & st & source' & dl & b & Hck & Hattempt & _ & _ & Ht & Hrr).
  set (r := item_row _ attempt st source' written) in Ht.
  pose proof Ht as (d1 & Hi & _ & (Ho & _))%create_tail_inv. unfold same in Ho.
  apply insert_outbox_Ok in Hi as (-> & _ & _). simpl in Ho.
  destruct (create_tail_snapshot _ _ _ _ _ _ _ _ _ _ _ Hc' Ht) as [Hsn _].
  assert (created = coalesce_outbox (w_db w') r) as ->.
  { change (it_outbox_id _) with (outbox_id r) in Hrr. rewrite reread_find in Hrr; [congruence|done|].
    rewrite Ho. set_solver. }
  destruct (coalesce_state (w_db w') r) as (Hs & Hwr & _ & Hg).
  assert (1 <= attempt) as Hge.
  { rewrite Hattempt. case_bool_decide; [|done].
    match goal with |- 1 <= default 0 (select_max_generation ?x ?y) + 1 =>
      pose proof (max_generation_nonneg x y Hca); lia end. }
  rewrite Hs in Hst. rewrite Hwr in Hw. exists r. eexists. split; [done|]. split.
  { by split. }
  split_and!; try done.
  - rewrite Hid. by rewrite coalesce_fixed.
  - rewrite Hatt. f_equal. unfold effective_attempt, effective_generation.
    unfold coalesce_outbox. destruct (elem _ _); simpl; unfold int_or; simpl; by rewrite (proj2 (Z.eqb_neq attempt 0)) by lia.
Qed.
End creation.

(** C8: The pipeline dispatches only rows of its own.  If creation lets it go on
    and its worker name is on no row yet, then a row was added, nothing else
    of the outbox changed, the row belongs to this event, route, plan and
    target, is in progress under the pipeline's name with a sixty-second
    lease, opens a generation above every older row of the delivery, and its
    dispatch decision is frozen beside it.  Work staged for the worker is
    never dispatched by the pipeline itself. *)
Theorem create_for_delivery_owns to_builtins event route plan target adapter source run pending w ctx w' :
  reachable (w_db w) ->
  create_for_delivery to_builtins event route plan target adapter source run pending w = (Ok ctx, w') ->
  ox_skip_reason ctx = None ->
  (forall r : Row, r ∈ outbox (at_call w) -> worker_id r <> Some (pipeline_name w)) ->
  pending = false /\
  exists r : Row, outbox (w_db w') = outbox (at_call w) ++ [r] /\
    accepted_row event route plan target adapter (pipeline_name w) (w_clock w 0%nat) r /\
    ox_outbox_id ctx = Some (outbox_id r) /\ ox_pipeline_worker ctx = pipeline_name w /\
    ox_attempt_number ctx = Some (attempt_number r) /\
    (forall s : Row, s ∈ outbox (at_call w) -> same_target s r = true -> generation s < generation r) /\
    exists sn, sn ∈ snapshots (w_db w') /\ sn_outbox_id sn = outbox_id r /\
      sn_context sn = reduced_context plan target.
Proof.
  intros Hd H Hskip Hfresh. pose proof (reachable_constraints _ Hd) as Hc.
  destruct (create_for_delivery_inserts _ _ _ _ _ _ _ _ _ _ _ _ Hc H Hskip Hfresh)
    as (r & sn & Ho & Hr & Hp & Hid & Hw & Ha & Hsn & Hsi & _ & _ & Hsc).
  split; [done|]. exists r. split_and!; [done|done|done|done|done| |by exists sn].
  destruct (create_for_delivery_call _ _ _ _ _ _ _ _ _ _ _ _ H Hskip)
    as (written & id & src & run' & created & _ & Hcall & _).
  assert (reachable (at_call w)) as Hda by (by apply exec_reachable).
  destruct (create_opens_newest_generation _ _ _ _ _ _ _ Hda Hcall)
    as (r0 & Ho' & _ & _ & _ & _ & Hnew).
  - rewrite Ho. intros He. apply (f_equal (@length Row)) in He. rewrite length_app in He. cbn [length] in He. lia.
  - rewrite Ho in Ho'. apply app_inj_2 in Ho' as [_ [= ->]]; done.
Qed.

(** ** Reconstruction *)

Section context.
Context (plan : DeliveryPlan) (target : RouteTarget).
Abbreviation meta := (reduced_context plan target).

Lemma reduced_level : od_get "capability_level" meta = Some (json_opt_str (pl_capability_level plan)).
Proof. unfold reduced_context. by destruct (rt_destination target). Qed.
Lemma reduced_strategy : od_get "delivery_strategy" meta = Some (JStr (st_method (pl_primary_strategy plan))).
Proof. unfold reduced_context. by destruct (rt_destination target). Qed.
Lemma reduced_field : od_get "capability_field" meta = Some (json_opt_str (pl_capability_field plan)).
Proof. unfold reduced_context. by destruct (rt_destination target). Qed.
Lemma reduced_reason : od_get "capability_reason" meta = Some (json_opt_str (pl_capability_reason plan)).
Proof. unfold reduced_context. by destruct (rt_destination target). Qed.
Lemma reduced_deadline : od_get "deadline" meta = Some (json_opt_str (py_isoformat <$> pl_deadline plan)).
Proof. unfold reduced_context. by destruct (rt_destination target). Qed.

Lemma reduced_keys : forallb (fun k => elem k (od_keys meta)) REQUIRED_KEYS = true.
Proof. unfold reduced_context. by destruct (rt_destination target). Qed.
Lemma reduced_freezable : freezable meta = true.
Proof. unfold reduced_context. by destruct (rt_destination target). Qed.
Lemma reduced_no_unknown :
  existsb (fun k => negb (elem k (REQUIRED_KEYS ++ DESTINATION_KEYS))) (od_keys meta) = false.
Proof. unfold reduced_context. by destruct (rt_destination target). Qed.
End context.

Lemma optional_text_roundtrip what x : optional_text what (Some (json_opt_str x)) = Ok x.
Proof. by destruct x. Qed.

Lemma frozen_level_roundtrip level :
  outside level DELIVERY_CAPABILITY_LEVELS = false -> frozen_level (Some (json_opt_str level)) = Ok level.
Proof. intros H. unfold frozen_level. rewrite optional_text_roundtrip. cbn. by rewrite H. Qed.

Section decoders.
Context (convert_destination : list (string * json) -> result exc RouteDestination)
        (convert_context : json -> result exc OutboxDispatchContext)
        (fromisoformat : string -> result exc PyDatetime).

(** [msgspec.convert] reads back the fields of a destination it was given as
    built-in values, and [datetime.fromisoformat] what [isoformat] wrote. *)
Definition reads_destination (d : RouteDestination) : Prop :=
  convert_destination [("kind", JStr (dst_kind d)); ("destination_hash", json_opt_str (dst_hash d));
    ("destination_name", json_opt_str (dst_name d)); ("metadata", JObj (dst_metadata d))] = Ok d.
Definition reads_deadline (t : PyDatetime) : Prop := fromisoformat (py_isoformat t) = Ok t.

Lemma frozen_destination_roundtrip plan target :
  (forall d, rt_destination target = Some d -> reads_destination d) ->
  frozen_destination convert_destination true (reduced_context plan target) = Ok (rt_destination target).
Proof.
  intros Hd. unfold frozen_destination. rewrite reduced_no_unknown.
  unfold reduced_context. destruct (rt_destination target) as [d|]; [|done].
  rewrite (bool_decide_eq_false_2 (filter _ DESTINATION_KEYS = [])) by (vm_compute; discriminate).
  rewrite (bool_decide_eq_true_2 (filter _ DESTINATION_KEYS = DESTINATION_KEYS)) by (vm_compute; reflexivity).
  specialize (Hd d eq_refl). unfold reads_destination in Hd. cbn [negb].
  change (Some <$> convert_destination [("kind", JStr (dst_kind d)); ("destination_hash", json_opt_str (dst_hash d));
    ("destination_name", json_opt_str (dst_name d)); ("metadata", JObj (dst_metadata d))] = Ok (Some d)).
  by rewrite Hd.
Qed.

Lemma frozen_deadline_roundtrip (t : option PyDatetime) :
  (forall x, t = Some x -> reads_deadline x /\ py_utcoffset x <> None) ->
  frozen_deadline fromisoformat (Some (json_opt_str (py_isoformat <$> t))) = Ok t.
Proof.
  intros H. destruct t as [x|]; [|done]. destruct (H x eq_refl) as [Hr Hu]. cbn. rewrite Hr.
  by rewrite bool_decide_eq_false_2.
Qed.

(** The plan the pipeline made for this event, route and target. *)
Record planned (event : CanonicalEvent) (route : Route) (plan : DeliveryPlan) (target : RouteTarget)
    (adapter : string) : Prop := {
  pn_event : pl_event_id plan = ev_event_id event;
  pn_target : pl_target plan = target;
  pn_adapter : rt_adapter target = Some adapter;
  pn_channel : rt_channel target <> Some "";
  pn_route : pl_route_id plan = or_none (rte_id route);
  pn_identity : pl_target_identity plan = delivery_target_identity target;
  pn_level : outside (pl_capability_level plan) DELIVERY_CAPABILITY_LEVELS = false;
  pn_method : elem (st_method (pl_primary_strategy plan)) DELIVERY_STRATEGY_METHODS = true;
  pn_deadline : forall t, pl_deadline plan = Some t -> py_utcoffset t <> None
}.

(** What a retry executes of a plan: the same decision under the retry's
    policy; limits of the strategy and the fallback chain are not kept. *)
Definition retry_form (plan : DeliveryPlan) (policy : RetryPolicy) : DeliveryPlan :=
  {| pl_plan_id := pl_plan_id plan; pl_event_id := pl_event_id plan; pl_target := pl_target plan;
     pl_primary_strategy := DeliveryStrategy_of (st_method (pl_primary_strategy plan));
     pl_fallback_chain := []; pl_retry_policy := Some policy; pl_deadline := pl_deadline plan;
     pl_route_id := pl_route_id plan; pl_target_identity := pl_target_identity plan;
     pl_capability_level := pl_capability_level plan; pl_capability_field := pl_capability_field plan;
     pl_capability_reason := pl_capability_reason plan |}.

Definition readable (plan : DeliveryPlan) (target : RouteTarget) : Prop :=
  (forall d, rt_destination target = Some d -> reads_destination d) /\
  (forall t, pl_deadline plan = Some t -> reads_deadline t).

Lemma reduced_roundtrip event route plan target adapter (item : Row) policy :
  planned event route plan target adapter -> readable plan target ->
  event_id item = ev_event_id event -> route_id item = rte_id route ->
  delivery_plan_id item = pl_plan_id plan -> target_adapter item = adapter ->
  target_channel item = opt_or_none (rt_channel target) -> target_address item = target_hash_of target ->
  exists rr, reconstruct_reduced convert_destination fromisoformat item policy true
      (reduced_context plan target) = Ok rr /\
    rr_plan rr = retry_form plan policy /\ rte_id (rr_route rr) = rte_id route /\
    rte_targets (rr_route rr) = [target] /\ rr_retry_policy rr = policy.
Proof.
  intros [He Ht Ha Hch Hro Hti Hl Hm Hdl] [Hrd Hrt] E1 E2 E3 E4 E5 E6.
  unfold reconstruct_reduced. rewrite reduced_freezable, reduced_keys. cbn [negb].
  rewrite frozen_destination_roundtrip by done. cbn [mbind result_bind].
  rewrite bool_decide_eq_true_2 by (by rewrite E6). cbn [negb].
  rewrite reduced_level, reduced_strategy, reduced_field, reduced_reason, reduced_deadline.
  rewrite frozen_level_roundtrip by done. cbn [mbind result_bind frozen_strategy]. rewrite Hm.
  rewrite !optional_text_roundtrip, frozen_deadline_roundtrip by naive_solver. cbn [mbind result_bind].
  assert ({| rt_adapter := Some (target_adapter item); rt_channel := target_channel item;
             rt_destination := rt_destination target |} = target) as ->.
  { rewrite E4, E5. destruct target as [ta tc td]. simpl in *. subst ta. f_equal.
    destruct tc as [[|c s]|]; done. }
  eexists. split; [done|]. cbn. unfold retry_form. rewrite E1, E2, E3, He, Ht, Hro, Hti. done.
Qed.
End decoders.

(** ** Across the life of the row *)

Definition row_grows (r r' : Row) : Prop := row_evolves r r' /\ attempt_number r <= attempt_number r'.

Lemma exec_grows ops d :
  outbox_constraints (outbox d) = true -> rows_rel row_grows (outbox d) (outbox (exec ops d)).
Proof.
  revert d. induction ops as [|op ops IH]; intros d Hc.
  { apply rows_rel_refl. intros r. split; [apply row_evolves_refl|lia]. }
  intros i r Hr. destruct (st_rows _ _ (step_store_step op d) i r Hr) as (r1 & Hr1 & [He _ Ha]).
  destruct (IH (step op d) (ev_constraints _ _ (step_evolves op d) Hc) i r1 Hr1) as (r2 & Hr2 & He2 & Ha2).
  exists r2. split; [exact Hr2|]. split; [by eapply row_evolves_trans|].
  assert (row_check r = true) as Hck by (apply (constraints_row_check d); [done|by eapply list_elem_of_lookup_2]).
  specialize (Ha Hck). lia.
Qed.

Lemma reachable_once d : reachable d -> snapshots_once d.
Proof. intros [ops ->]. apply (ev_once _ _ (exec_evolves ops empty_db)). constructor. Qed.

Lemma find_snapshot_once d sn :
  snapshots_once d -> sn ∈ snapshots d ->
  List.find (fun s => bool_decide (sn_outbox_id s = sn_outbox_id sn)) (snapshots d) = Some sn.
Proof.
  intros Hnd Hin. destruct (List.find _ _) as [s|] eqn:E.
  - apply find_Some_elem in E as [Hs Hid%bool_decide_eq_true]. f_equal.
    apply list_elem_of_lookup in Hs as [i Hi], Hin as [j Hj].
    assert (i = j) as ->; [|congruence].
    eapply (NoDup_lookup _ i j (sn_outbox_id sn)); [exact Hnd|rewrite list_lookup_fmap..].
    + rewrite Hi. simpl. by rewrite Hid.
    + by rewrite Hj.
  - apply find_None_elem with (x := sn) in E; [|done]. by rewrite bool_decide_eq_true_2 in E.
Qed.

(** The frozen context is readable for as long as the row is not terminal. *)
Lemma snapshot_readable ops d (r item : Row) sn :
  reachable d -> r ∈ outbox d -> sn ∈ snapshots d -> sn_outbox_id sn = outbox_id r ->
  sn_version sn = OUTBOX_DISPATCH_SNAPSHOT_VERSION -> elem (sn_kind sn) OUTBOX_DISPATCH_SNAPSHOT_KINDS = true ->
  item ∈ outbox (exec ops d) -> outbox_id item = outbox_id r -> outbox_terminal (status item) = false ->
  get_outbox_dispatch_context (exec ops d) (outbox_id item) (event_id item) (delivery_plan_id item)
    (target_adapter item) (target_channel item) =
  Ok (Some {| ds_outbox_id := outbox_id item; ds_attempt_number := sn_attempt_number sn;
              ds_snapshot_version := sn_version sn; ds_kind := sn_kind sn; ds_context := sn_context sn |}).
Proof.
  intros Hd Hr Hsn Hid Hv Hk Hitem Hii Hnt.
  pose proof (exec_reachable ops d Hd) as Hd'. pose proof (reachable_constraints _ Hd') as Hc'.
  assert (sn ∈ snapshots (exec ops d)) as Hsn'.
  { destruct (ev_kept _ _ (exec_evolves ops d) sn Hsn) as [?|(x & Hx & Hxi & Hxt)]; [done|].
    assert (x = item) as -> by (apply (unique_row (exec ops d)); [done..|congruence]). congruence. }
  unfold get_outbox_dispatch_context. rewrite Hii, <-Hid, find_snapshot_once by (done || by apply reachable_once).
  destruct (List.find _ (outbox _)) as [o|] eqn:E.
  - rewrite Hv, Z.eqb_refl, Hk. cbn [negb]. by rewrite Hid, <-Hii.
  - apply find_None_elem with (x := item) in E; [|done].
    rewrite opt_or_none_id in E by (by apply (reachable_channels _ Hd')).
    rewrite !bool_decide_eq_true_2 in E by congruence. revert E. by destruct (status item).
Qed.

(** *** Staged decisions *)

Definition staged_context (route : Route) (plan : DeliveryPlan) (routing : RoutingMetadata) : OutboxDispatchContext :=
  {| oc_route := route; oc_plan := plan; oc_routing := routing |}.

(** The routing of a staged event names the route, within the bound of the
    trace, and the route has the target.  The document of the decision decodes
    to it, and has its fields. *)
Definition staged_readable (convert_context : json -> result exc OutboxDispatchContext)
    (to_builtins : OutboxDispatchContext -> list (string * json)) (event : CanonicalEvent) (route : Route)
    (plan : DeliveryPlan) (target : RouteTarget) : Prop :=
  target ∈ rte_targets route /\
  forall routing, em_routing (ev_metadata event) = Some routing ->
    rte_id route ∈ rm_matched_routes routing /\ Z.of_nat (length (rm_route_trace routing)) <= 16 /\
    convert_context (JObj (to_builtins (staged_context route plan routing))) = Ok (staged_context route plan routing) /\
    frozen_fields (JObj (to_builtins (staged_context route plan routing)))
      (view_of_context (staged_context route plan routing)) = true.

Lemma target_eq_refl t : target_eq t t = true.
Proof.
  unfold target_eq. rewrite !bool_decide_eq_true_2 by done. destruct (rt_destination t) as [d|]; [|done].
  rewrite !bool_decide_eq_true_2 by done. by rewrite py_eq_refl.
Qed.

Lemma staged_agrees event route plan target adapter routing (item : Row) :
  planned event route plan target adapter -> target ∈ rte_targets route ->
  rte_id route ∈ rm_matched_routes routing -> Z.of_nat (length (rm_route_trace routing)) <= 16 ->
  event_id item = ev_event_id event -> route_id item = rte_id route ->
  delivery_plan_id item = pl_plan_id plan -> target_adapter item = adapter ->
  target_channel item = opt_or_none (rt_channel target) -> target_address item = target_hash_of target ->
  context_agrees (staged_context route plan routing) item = true.
Proof.
  intros [He Ht Ha Hch Hro Hti _ _ _] Hin Hm Htr E1 E2 E3 E4 E5 E6. unfold context_agrees. cbn [oc_plan oc_route oc_routing staged_context].
  rewrite E1, E2, E3, E4, E5, E6, He, Ht, Hro, Hti, Ha.
  assert (opt_or_empty (or_none (rte_id route)) = rte_id route) as -> by by destruct (rte_id route).
  assert (opt_or_none (opt_or_none (rt_channel target)) = opt_or_none (rt_channel target)) as ->
    by by destruct (rt_channel target) as [[]|].
  assert (existsb (target_eq target) (rte_targets route) = true) as ->.
  { apply existsb_exists. exists target. split; [by apply list_elem_of_In|apply target_eq_refl]. }
  rewrite !bool_decide_eq_true_2 by done. assert (elem (rte_id route) (rm_matched_routes routing) = true) as ->
    by by apply bool_decide_eq_true.
  apply Z.leb_le in Htr. by rewrite Htr.
Qed.

(** What the row's snapshot gives back. *)
Lemma restored_decision convert_destination convert_context fromisoformat to_builtins
    event route plan target adapter src pending s (item : Row) previous max snap :
  planned event route plan target adapter ->
  (if (pending : bool) then staged_readable convert_context to_builtins event route plan target
   else readable convert_destination fromisoformat plan target) ->
  dispatch_snapshot to_builtins event route plan target src pending = Ok s ->
  event_id item = ev_event_id event -> route_id item = rte_id route ->
  delivery_plan_id item = pl_plan_id plan -> target_adapter item = adapter ->
  target_channel item = opt_or_none (rt_channel target) -> target_address item = target_hash_of target ->
  metadata item = [] -> (pending = false -> 1 <= attempt_number item) ->
  ds_kind snap = sw_kind s -> ds_context snap = sw_context s ->
  exists rr,
    reconstruct_retry_delivery_plan convert_destination convert_context fromisoformat item previous max
      (Some snap) = Ok rr /\
    if pending
    then rr_plan rr = plan /\ rr_route rr = route /\ rr_routing rr = em_routing (ev_metadata event) /\
         rr_retry_policy rr = default no_retries (pl_retry_policy plan)
    else rr_plan rr = retry_form plan (restored_policy previous max) /\
         rte_id (rr_route rr) = rte_id route /\ rte_targets (rr_route rr) = [target] /\
         rr_retry_policy rr = restored_policy previous max.
Proof.
  intros Hpl Hre Hs E1 E2 E3 E4 E5 E6 Em Ea Hk Hc. unfold reconstruct_retry_delivery_plan. rewrite Em, Hk.
  cbn [nonempty]. unfold dispatch_snapshot in Hs. destruct pending.
  - case_bool_decide; [|done]. destruct (em_routing (ev_metadata event)) as [routing|] eqn:Hr; [|done].
    injection Hs as <-. cbn [sw_kind sw_context] in *. rewrite bool_decide_eq_true_2 by done.
    destruct Hre as [Hin Hre]. destruct (Hre routing Hr) as (Hm & Htr & Hconv & Hff).
    unfold reconstruct_from_staged_snapshot. rewrite Hc. change {| oc_route := _; oc_plan := _; oc_routing := _ |}
      with (staged_context route plan routing). rewrite Hconv. cbn [mbind result_bind]. rewrite Hff. cbn [negb].
    assert (match pl_deadline plan with Some t => bool_decide (py_utcoffset t = None) | None => false end = false) as Hd.
    { destruct (pl_deadline plan) as [t|] eqn:Et; [|done]. by apply bool_decide_eq_false_2, (pn_deadline _ _ _ _ _ Hpl). }
    cbn [oc_plan staged_context]. rewrite Hd, (staged_agrees event route plan target adapter) by done. by eexists.
  - injection Hs as <-. cbn [sw_kind sw_context] in *. rewrite (bool_decide_eq_false_2 ("direct" = "staged")) by done.
    rewrite (proj2 (Z.eqb_neq (attempt_number item) 0)) by (specialize (Ea eq_refl); lia). rewrite Hc.
    by apply (reduced_roundtrip _ _ event route plan target adapter).
Qed.


Module RoundtripExamples.
Definition target : RouteTarget := PlanExamples.dest [("hops", JInt 2)].
Definition event : CanonicalEvent := CapabilityExamples.message "message.text" [].
Definition route : Route :=
  {| rte_id := "route-1"; rte_source := {| rs_adapter := Some "matrix"; rs_event_kinds := []; rs_channel := None;
                                           rs_origin_label := None |};
     rte_targets := [target]; rte_priority := 100; rte_fanout_strategy := "broadcast"; rte_ownership := "shared";
     rte_enabled := true; rte_policy := None; rte_forward_typing := false |}.
Definition plan : DeliveryPlan :=
  {| pl_plan_id := "plan-1"; pl_event_id := ev_event_id event; pl_target := target;
     pl_primary_strategy := DeliveryStrategy_of "direct"; pl_fallback_chain := []; pl_retry_policy := None;
     pl_deadline := None; pl_route_id := Some "route-1"; pl_target_identity := delivery_target_identity target;
     pl_capability_level := Some "native"; pl_capability_field := Some "text"; pl_capability_reason := None |}.

Definition start : world :=
  {| w_db := exec [OpEnvironment [ev_event_id event] [] []] empty_db; w_turns := [];
     w_clock := fun n => 5000 + Z.of_nat n; w_uuid := fun n => "0123456789abcdef-" +:+ py_str (Z.of_nat n) |}.

(** A decoder for destinations: the four fields of the expected types. *)
Definition convert (kvs : list (string * json)) : result exc RouteDestination :=
  match kvs with
  | [("kind", JStr k); ("destination_hash", h); ("destination_name", n); ("metadata", JObj m)] =>
      hash ← optional_text "hash" (Some h); name ← optional_text "name" (Some n);
      Ok {| dst_kind := k; dst_hash := hash; dst_name := name; dst_metadata := m |}
  | _ => Raise (ValueError "destination")
  end.

Abbreviation created :=
  (create_for_delivery (fun _ => []) event route plan target "mesh" "live" None false start).

(** The attempt fails and the row is claimed again by the retry worker. *)
Definition later_ops (id : string) : list outbox_op :=
  [OpRetryWait 6000 id 7000 None (Some "adapter_transient") None None (Some 1) None;
   OpClaim Examples.all_work 9000 (9000 + seconds 60) "retry-worker" [id]].

Abbreviation reclaimed :=
  (get_outbox_item (exec (later_ops "obox-0123456789abcdef-1") (w_db created.2)) "obox-0123456789abcdef-1").

(** The same decision staged for the worker, with a routed event.  The document
    of a decision keeps its shape only; the decoder knows the one accepted. *)
Definition routing : RoutingMetadata :=
  {| rm_matched_routes := ["route-1"]; rm_fanout_group := None; rm_route_trace := ["route-1"] |}.
Definition routed_event : CanonicalEvent :=
  {| ev_columns := ev_columns event; ev_relations := []; ev_payload := [];
     ev_metadata := {| em_transport := None; em_routing := Some routing; em_radio := None;
                       em_telemetry := None; em_native := None; em_custom := [] |};
     ev_source_native_ref := None |}.

Fixpoint json_of_view (v : view) : json :=
  match v with
  | VDict members => JObj ((fun kv => (kv.1, json_of_view kv.2)) <$> members)
  | VList xs => JArr (json_of_view <$> xs)
  | VAtom | VSet => JNull
  end.
Definition to_builtins (c : OutboxDispatchContext) : list (string * json) :=
  match json_of_view (view_of_context c) with JObj kvs => kvs | _ => [] end.
Definition decode (j : json) : result exc OutboxDispatchContext :=
  if decide (j = JObj (to_builtins (staged_context route plan routing)))
  then Ok (staged_context route plan routing) else Raise (ValueError "undecodable").

Abbreviation staged :=
  (create_for_delivery to_builtins routed_event route plan target "mesh" "live" None true start).
Definition worker_ops (id : string) : list outbox_op :=
  [OpClaim Examples.all_work 9000 (9000 + seconds 60) "retry-worker" [id]].
Abbreviation taken :=
  (get_outbox_item (exec (worker_ops "obox-0123456789abcdef-1") (w_db staged.2)) "obox-0123456789abcdef-1").
End RoundtripExamples.

Lemma create_for_delivery_owns_witness :
  exists r : Row, outbox (w_db RoundtripExamples.created.2) = [r] /\ status r = InProgress.
Proof.
  assert (exists ctx, RoundtripExamples.created.1 = Ok ctx /\ ox_skip_reason ctx = None) as (ctx & H1 & H2)
    by (eexists; split; vm_compute; reflexivity).
  destruct RoundtripExamples.created as [res w'] eqn:H. cbn [fst snd] in *. subst res.
  destruct (create_for_delivery_owns (fun _ => []) RoundtripExamples.event RoundtripExamples.route
    RoundtripExamples.plan RoundtripExamples.target "mesh" "live" None false RoundtripExamples.start ctx w')
    as (_ & r & Ho & Hr & _).
  - eexists. reflexivity.
  - exact H.
  - exact H2.
  - intros r Hr. exfalso. vm_compute in Hr. by apply not_elem_of_nil in Hr.
  - exists r. split; [exact Ho|]. exact (ar_status _ _ _ _ _ _ _ _ Hr).
Defined.

(** A direct delivery after a failed first attempt, claimed by the retry worker. *)
Example direct_retry_plan :
  match RoundtripExamples.reclaimed with
  | Some item =>
      match get_outbox_dispatch_context
              (exec (RoundtripExamples.later_ops (outbox_id item)) (w_db RoundtripExamples.created.2))
              (outbox_id item) (event_id item) (delivery_plan_id item) (target_adapter item) (target_channel item) with
      | Ok snap =>
          rr_plan <$> reconstruct_retry_delivery_plan RoundtripExamples.convert (fun _ => Raise (ValueError "undecodable"))
            (fun _ => Raise (ValueError "undecodable")) item None 3 snap =
          Ok (retry_form RoundtripExamples.plan (restored_policy None 3))
      | Raise _ => False
      end
  | None => False
  end.
Proof. vm_compute. reflexivity. Qed.

