(* ===== verification/RetryWorker.v ===== *)
(** * The outbox dispatcher

    [src/src/medre/runtime/retry.py]: the worker that claims due outbox rows,
    rebuilds what they deliver, and calls the transport under a reserved
    attempt number.  One claimed row goes through [retry_outbox_item], stage by
    stage; [process_due] is one cycle.

    Storage calls interleave with other tasks and may fail ([StorageProgram]).
    The worker's own fields survive exceptions, so a step is a function of the
    worker, the world and the durable sweep cursor.  Times and intervals are in
    microseconds.  What the worker calls and does not implement is the class
    [RetryPipeline].  The asyncio tasks themselves, their cancellation and the
    bounded stop are not modelled: a background lease renewal is one of the
    other tasks, and a task of the group is a [dispatch] of its own. *)

From Stdlib Require Import SpecFloat.
From S2P Require Import Prelude.
From S2P Require Import Json.
From S2P Require Import Router.
From S2P Require Import Delivery.
From S2P Require Import Events.
From S2P Require Import ContentGrants.
From S2P Require Import DeliveryPlan.
From S2P Require Import Store.
From S2P Require Import Outbox.
From S2P Require Import OutboxProofs.
From S2P Require Import OutboxMaintenance.
From S2P Require Import Receipts.
From S2P Require Import DeliveryAuthority.
From S2P Require Import StorageProgram.
From S2P Require Import MaintenanceSafety.
From S2P Require Import RetryPlan.
From S2P Require Import DeliveryLifecycle.

Open Scope string_scope.
Open Scope list_scope.
Open Scope Z_scope.

(** ** State *)

Record RetryWorkerState : Set := {
  rs_running : bool;
  rs_abandoned : bool;
  rs_previous_run_in_progress : option Z;
  rs_last_run_at : option instant;
  rs_processed : Z;
  rs_succeeded : Z;
  rs_failed : Z;
  rs_dead_lettered : Z;
  rs_deadline_sweep_runs : Z;
  rs_deadline_sweep_errors : Z;
  rs_deadline_retired : Z
}.

(** [_active] (is the task done?), [_adapter_deferred_until] and the two
    timers. *)
Record schedule : Set := {
  sc_active : list (string * bool);
  sc_deferred : list (string * instant);
  sc_next_retry_scan : option instant;
  sc_next_sweep_at : option instant
}.

(** The cached outbox counts. *)
Record census : Set := {
  cn_counts : list (string * Z);
  cn_completed : bool;
  cn_last_refresh : option instant;
  cn_dirty : bool;
  cn_generation : Z
}.

(** A call of the transport: the row, the attempt number and the event. *)
Record transport_call : Type := { tc_outbox_id : string; tc_attempt : Z; tc_event : CanonicalEvent }.

Definition runtime_event : Type := string * list (string * json).

Record RetryWorker : Type := {
  rw_state : RetryWorkerState;
  rw_schedule : schedule;
  rw_census : census;
  rw_task : bool;
  rw_available : option (list string);
  rw_shutdown : nat -> bool;
  rw_emitted : list runtime_event;
  rw_transport : list transport_call;
  rw_permits : Z
}.

Record config : Set := {
  cf_retries_enabled : bool;
  cf_initial_dispatch : bool;
  cf_interval : Z;
  cf_batch_size : Z;
  cf_max_attempts : Z;
  cf_sweep_enabled : bool;
  cf_sweep_limit : Z;
  cf_sweep_interval : Z;
  cf_event_buffer : bool;
  cf_delivery_limit : option Z
}.

Definition worker_enabled (c : config) : bool := cf_retries_enabled c || cf_initial_dispatch c.

(** [max(30, int(self._interval * 1.5))]. *)
Definition lease_seconds (c : config) : Z := Z.max 30 (cf_interval c * 3 / (2 * seconds 1)).

(** ** Steps of the worker *)

Record site : Type := { st_worker : RetryWorker; st_world : world; st_cursor : sweep_cursor }.

Definition act (A : Type) : Type := site -> result exc A * site.

#[export] Instance act_ret : MRet act := fun _ a s => (Ok a, s).
#[export] Instance act_bind : MBind act := fun _ _ k m s =>
  match m s with
  | (Ok a, s') => k a s'
  | (Raise e, s') => (Raise e, s')
  end.

Definition at_world (s : site) (w : world) : site :=
  {| st_worker := st_worker s; st_world := w; st_cursor := st_cursor s |}.

Definition lift {A} (p : proc A) : act A := fun s =>
  let '(r, w) := p (st_world s) in (r, at_world s w).

Definition reraise {A} (e : exc) : act A := fun s => (Raise e, s).

Definition catch {A} (m : act A) (h : exc -> act A) : act A := fun s =>
  match m s with
  | (Ok a, s') => (Ok a, s')
  | (Raise e, s') => h e s'
  end.

(** [try: m finally: f]. *)
Definition finally {A} (m : act A) (f : act unit) : act A := fun s =>
  let '(r, s1) := m s in
  match f s1 with
  | (Ok _, s2) => (r, s2)
  | (Raise e, s2) => (Raise e, s2)
  end.

Definition reading {A} (f : RetryWorker -> A) : act A := fun s => (Ok (f (st_worker s)), s).
Definition modify (f : RetryWorker -> RetryWorker) : act unit := fun s =>
  (Ok tt, {| st_worker := f (st_worker s); st_world := st_world s; st_cursor := st_cursor s |}).

Definition superseded (e : exc) : bool := bool_decide (e = RetryAttemptCommitRejected).

(** [except RetryAttemptCommitRejected: log]. *)
Definition unless_superseded (m : act unit) : act unit :=
  catch m (fun e => if superseded e then mret tt else reraise e).

Definition set_state (f : RetryWorkerState -> RetryWorkerState) : act unit := modify (fun w =>
  {| rw_state := f (rw_state w); rw_schedule := rw_schedule w; rw_census := rw_census w;
     rw_task := rw_task w; rw_available := rw_available w; rw_shutdown := rw_shutdown w;
     rw_emitted := rw_emitted w; rw_transport := rw_transport w; rw_permits := rw_permits w |}).

Definition set_schedule (f : schedule -> schedule) : act unit := modify (fun w =>
  {| rw_state := rw_state w; rw_schedule := f (rw_schedule w); rw_census := rw_census w;
     rw_task := rw_task w; rw_available := rw_available w; rw_shutdown := rw_shutdown w;
     rw_emitted := rw_emitted w; rw_transport := rw_transport w; rw_permits := rw_permits w |}).

Definition set_census (f : census -> census) : act unit := modify (fun w =>
  {| rw_state := rw_state w; rw_schedule := rw_schedule w; rw_census := f (rw_census w);
     rw_task := rw_task w; rw_available := rw_available w; rw_shutdown := rw_shutdown w;
     rw_emitted := rw_emitted w; rw_transport := rw_transport w; rw_permits := rw_permits w |}).

Definition set_task (b : bool) : act unit := modify (fun w =>
  {| rw_state := rw_state w; rw_schedule := rw_schedule w; rw_census := rw_census w;
     rw_task := b; rw_available := rw_available w; rw_shutdown := rw_shutdown w;
     rw_emitted := rw_emitted w; rw_transport := rw_transport w; rw_permits := rw_permits w |}).

Definition set_available (l : list string) : act unit := modify (fun w =>
  {| rw_state := rw_state w; rw_schedule := rw_schedule w; rw_census := rw_census w;
     rw_task := rw_task w; rw_available := Some l; rw_shutdown := rw_shutdown w;
     rw_emitted := rw_emitted w; rw_transport := rw_transport w; rw_permits := rw_permits w |}).

Definition log_transport (c : transport_call) : act unit := modify (fun w =>
  {| rw_state := rw_state w; rw_schedule := rw_schedule w; rw_census := rw_census w;
     rw_task := rw_task w; rw_available := rw_available w; rw_shutdown := rw_shutdown w;
     rw_emitted := rw_emitted w; rw_transport := rw_transport w ++ [c]; rw_permits := rw_permits w |}).

Definition hold_permits (n : Z) : act unit := modify (fun w =>
  {| rw_state := rw_state w; rw_schedule := rw_schedule w; rw_census := rw_census w;
     rw_task := rw_task w; rw_available := rw_available w; rw_shutdown := rw_shutdown w;
     rw_emitted := rw_emitted w; rw_transport := rw_transport w; rw_permits := rw_permits w + n |}).

(** [self._shutdown_event.is_set()], which another task may set at any time. *)
Definition shutdown_requested : act bool := fun s =>
  let w := st_worker s in
  (Ok (rw_shutdown w 0%nat),
   {| st_worker :=
        {| rw_state := rw_state w; rw_schedule := rw_schedule w; rw_census := rw_census w;
           rw_task := rw_task w; rw_available := rw_available w;
           rw_shutdown := fun n => rw_shutdown w (S n);
           rw_emitted := rw_emitted w; rw_transport := rw_transport w; rw_permits := rw_permits w |};
      st_world := st_world s; st_cursor := st_cursor s |}).

(** Additions to [processed], [succeeded], [failed] and [dead_lettered]. *)
Definition count (p s f d : Z) : act unit := set_state (fun st =>
  {| rs_running := rs_running st; rs_abandoned := rs_abandoned st;
     rs_previous_run_in_progress := rs_previous_run_in_progress st;
     rs_last_run_at := rs_last_run_at st; rs_processed := rs_processed st + p;
     rs_succeeded := rs_succeeded st + s; rs_failed := rs_failed st + f;
     rs_dead_lettered := rs_dead_lettered st + d;
     rs_deadline_sweep_runs := rs_deadline_sweep_runs st;
     rs_deadline_sweep_errors := rs_deadline_sweep_errors st;
     rs_deadline_retired := rs_deadline_retired st |}).

Definition count_sweep (runs errors retired : Z) : act unit := set_state (fun st =>
  {| rs_running := rs_running st; rs_abandoned := rs_abandoned st;
     rs_previous_run_in_progress := rs_previous_run_in_progress st;
     rs_last_run_at := rs_last_run_at st; rs_processed := rs_processed st;
     rs_succeeded := rs_succeeded st; rs_failed := rs_failed st;
     rs_dead_lettered := rs_dead_lettered st;
     rs_deadline_sweep_runs := rs_deadline_sweep_runs st + runs;
     rs_deadline_sweep_errors := rs_deadline_sweep_errors st + errors;
     rs_deadline_retired := rs_deadline_retired st + retired |}).

Definition note_run (now : instant) : act unit := set_state (fun st =>
  {| rs_running := rs_running st; rs_abandoned := rs_abandoned st;
     rs_previous_run_in_progress := rs_previous_run_in_progress st;
     rs_last_run_at := Some now; rs_processed := rs_processed st;
     rs_succeeded := rs_succeeded st; rs_failed := rs_failed st;
     rs_dead_lettered := rs_dead_lettered st;
     rs_deadline_sweep_runs := rs_deadline_sweep_runs st;
     rs_deadline_sweep_errors := rs_deadline_sweep_errors st;
     rs_deadline_retired := rs_deadline_retired st |}).

(** [running], [abandoned] and [previous_run_in_progress]. *)
Definition set_flags (running abandoned : bool) (previous : option Z) : act unit := set_state (fun st =>
  {| rs_running := running; rs_abandoned := abandoned; rs_previous_run_in_progress := previous;
     rs_last_run_at := rs_last_run_at st; rs_processed := rs_processed st;
     rs_succeeded := rs_succeeded st; rs_failed := rs_failed st;
     rs_dead_lettered := rs_dead_lettered st;
     rs_deadline_sweep_runs := rs_deadline_sweep_runs st;
     rs_deadline_sweep_errors := rs_deadline_sweep_errors st;
     rs_deadline_retired := rs_deadline_retired st |}).

(** [self._adapter_deferred_until[adapter] = until]. *)
Definition defer_adapter (adapter : string) (until : instant) : act unit := set_schedule (fun sc =>
  {| sc_active := sc_active sc; sc_deferred := od_set adapter until (sc_deferred sc);
     sc_next_retry_scan := sc_next_retry_scan sc; sc_next_sweep_at := sc_next_sweep_at sc |}).

Definition mark_counts_dirty (generations : Z) : act unit := set_census (fun c =>
  {| cn_counts := cn_counts c; cn_completed := cn_completed c; cn_last_refresh := cn_last_refresh c;
     cn_dirty := true; cn_generation := cn_generation c + generations |}).

Definition outbox_counts (w : RetryWorker) : option (list (string * Z)) :=
  if cn_completed (rw_census w) then Some (cn_counts (rw_census w)) else None.

Definition set_available_target_adapters (adapters : list string) : act unit :=
  running ← reading (fun w => rs_running (rw_state w));
  if (running : bool) then reraise (RuntimeError "cannot change available target adapters while RetryWorker is running")
  else set_available adapters.

(** ** Runtime events *)

Definition opt_json (o : option string) : json := match o with Some s => JStr s | None => JNull end.

(** [item.receipt_id or item.outbox_id]. *)
Definition receipt_or_row (item : Row) : string :=
  match opt_or_none (receipt_id item) with Some r => r | None => outbox_id item end.

(** What every event about an item starts with. *)
Definition item_detail (item : Row) (attempt : Z) : list (string * json) :=
  [("receipt_id", JStr (receipt_or_row item)); ("parent_receipt_id", opt_json (parent_receipt_id item));
   ("retry_receipt_id", JNull); ("event_id", JStr (event_id item));
   ("target_adapter", JStr (target_adapter item)); ("attempt_number", JInt attempt)].

Definition failure_detail (status kind error : string) (next : json) : list (string * json) :=
  [("status", JStr status); ("failure_kind", JStr kind); ("error", JStr error); ("next_retry_at", next)].

(** ** What the worker calls *)

(** A call of the delivery pipeline, with the exceptions the worker classifies. *)
Definition transport (A : Type) : Type := world -> result retry_error A * world.

Class RetryPipeline : Type := {
  get_metadata : string -> proc (option CanonicalEvent);
  read_event_for_outbox : string -> string -> proc AuthorizedEventRead;
  acquire_delivery : proc bool;
  prepare_initial_outbox_event : CanonicalEvent -> proc CanonicalEvent;
  deliver_initial_outbox : CanonicalEvent -> Route -> DeliveryPlan -> Row -> Z -> transport unit;
  deliver_to_target : CanonicalEvent -> Route -> DeliveryPlan -> option DeliveryReceipt -> Row -> Z ->
    transport DeliveryReceipt
}.

(** What it relies on: each of them changes the outbox only through storage
    operations. *)
Class RetryPipelineLaws (P : RetryPipeline) : Prop := {
  get_metadata_traced id :: Traced (get_metadata id);
  read_event_traced event id :: Traced (read_event_for_outbox event id);
  acquire_traced :: Traced acquire_delivery;
  prepare_traced event :: Traced (prepare_initial_outbox_event event);
  deliver_initial_traced event route plan item n w :
    exists ops, w_db (deliver_initial_outbox event route plan item n w).2 = exec ops (w_db w);
  deliver_traced event route plan previous item n w :
    exists ops, w_db (deliver_to_target event route plan previous item n w).2 = exec ops (w_db w)
}.

(** ** One claimed row *)

Section worker.
Context `{Pipe : RetryPipeline}.
Context (c : config) (compute_backoff : RetryPolicy -> Z -> Z)
  (convert_destination : list (string * json) -> result exc RouteDestination)
  (convert_context : json -> result exc OutboxDispatchContext)
  (fromisoformat : string -> result exc PyDatetime)
  (receipt_floats : DeliveryReceipt -> option spec_float * option spec_float)
  (isoformat : instant -> string) (describe : exc -> string).

(** [_emit]; every type the worker emits is a [RuntimeEventType]. *)
Definition emit (kind : string) (detail : list (string * json)) : act unit := modify (fun w =>
  {| rw_state := rw_state w; rw_schedule := rw_schedule w; rw_census := rw_census w;
     rw_task := rw_task w; rw_available := rw_available w; rw_shutdown := rw_shutdown w;
     rw_emitted := if cf_event_buffer c then rw_emitted w ++ [(kind, detail)] else rw_emitted w;
     rw_transport := rw_transport w; rw_permits := rw_permits w |}).

Definition opt_iso (o : option instant) : json := match o with Some t => JStr (isoformat t) | None => JNull end.

Definition record_lifecycle_persistence_error (item : Row) (error : exc) (attempt : Z) : act unit :=
  count 0 0 1 0 ;;
  emit "retry_failed" (item_detail item attempt ++
    failure_detail "lifecycle_persistence_error" "lifecycle_persistence_error" (describe error) JNull).

Definition record_retry_finalization (item : Row) (f : RetryAttemptFinalization)
    (error_summary : option string) (reconciled : bool) : act unit :=
  let detail := [("event_id", JStr (event_id item)); ("target_adapter", JStr (target_adapter item));
                 ("attempt_number", JInt (rf_attempt_number f))] ++
                (if reconciled then [("reconciled", JBool true)] else []) in
  if bool_decide (rf_outcome f = "accepted") then
    count 0 1 0 0 ;;
    emit "retry_succeeded" (detail ++
      [("receipt_id", JStr (match opt_or_none (rf_receipt_id f) with
                            | Some r => r | None => receipt_or_row item end));
       ("parent_receipt_id", JStr (receipt_or_row item));
       ("retry_receipt_id", opt_json (rf_receipt_id f))])
  else
    let evidence := [("receipt_id", JStr (receipt_or_row item));
                     ("parent_receipt_id", opt_json (parent_receipt_id item));
                     ("retry_receipt_id", opt_json (rf_receipt_id f))] in
    if bool_decide (rf_outcome f = "dead_lettered") then
      count 0 0 1 1 ;;
      emit "retry_dead_lettered" (detail ++ evidence ++ [("failure_kind", opt_json (rf_failure_kind f))])
    else if elem (rf_outcome f) ["retry_wait"; "suppressed"; "cancelled"; "abandoned"] then
      count 0 0 1 0 ;;
      emit "retry_failed" (detail ++ evidence ++
        [("status", JStr (rf_outcome f)); ("failure_kind", opt_json (rf_failure_kind f));
         ("error", JStr (match opt_or_none error_summary, opt_or_none (rf_failure_kind f) with
                         | Some e, _ => e | None, Some k => k | None, None => rf_outcome f end));
         ("next_retry_at", opt_iso (rf_next_retry_at f))])
    else mret tt.

Definition abandon (item : Row) (error_summary : string) : act unit :=
  unless_superseded (lift (abandon_retry_outbox item error_summary)).

Fixpoint release_unstarted_claims (items : list Row) : act unit :=
  match items with
  | [] => mret tt
  | item :: rest =>
      (if bool_decide (active_attempt item <> None) then mret tt
       else catch (lift (release_unstarted_retry_claim item)) (fun _ => mret tt)) ;;
      release_unstarted_claims rest
  end.

(** The adapter rests for one interval. *)
Definition rest_adapter (item : Row) : act unit :=
  now ← lift read_clock; defer_adapter (target_adapter item) (now + cf_interval c).

(** [get_outbox_dispatch_context], whose failed reads are [OutboxSnapshotReadError]. *)
Definition read_snapshot (item : Row) : proc (option OutboxDispatchSnapshot) := fun w =>
  match read_dispatch_context item w with
  | (Raise (StorageError _), w') => (Raise SnapshotReadError, w')
  | res => res
  end.

(** The frozen context of the row; [None] when the row was settled here. *)
Definition load_context (item : Row) (previous : option DeliveryReceipt)
    : act (option ReconstructedRetryPlan) :=
  catch
    (snapshot ← lift (read_snapshot item);
     context ← lift (of_result (reconstruct_retry_delivery_plan convert_destination convert_context
       fromisoformat item ((fun r => (r, receipt_floats r)) <$> previous) (cf_max_attempts c) snapshot));
     mret (Some context))
    (fun e =>
       count 1 0 1 0 ;;
       (if bool_decide (e = SnapshotReadError)
        then release_unstarted_claims [item] ;; rest_adapter item
        else abandon item "Reconstruction failure") ;;
       mret None).

(** Evidence left by an earlier claim: was the row settled with it? *)
Definition reconcile (item : Row) (policy : RetryPolicy) : act bool :=
  let reserved := match active_attempt item with Some n => n | None => attempt_number item + 1 end in
  catch
    (settled ← lift (reconcile_retry_claim compute_backoff item policy None);
     match settled with
     | Some f => count 1 0 0 0 ;; record_retry_finalization item f None true ;; mret true
     | None => mret false
     end)
    (fun e =>
       count 1 0 0 0 ;;
       (if superseded e then mret tt else record_lifecycle_persistence_error item e reserved) ;;
       mret true).

(** The content, if the row's owner may still read it, with the routing that
    was frozen. *)
Definition with_routing (event : CanonicalEvent) (routing : option RoutingMetadata) : CanonicalEvent :=
  match routing with
  | None => event
  | Some r =>
      let m := ev_metadata event in
      {| ev_columns := ev_columns event; ev_relations := ev_relations event; ev_payload := ev_payload event;
         ev_metadata := {| em_transport := em_transport m; em_routing := Some r; em_radio := em_radio m;
                           em_telemetry := em_telemetry m; em_native := em_native m;
                           em_custom := em_custom m |};
         ev_source_native_ref := ev_source_native_ref event |}
  end.

Definition authorize (item : Row) (routing : option RoutingMetadata) : act (option CanonicalEvent) :=
  authorized ← lift (read_event_for_outbox (event_id item) (outbox_id item));
  match authorized with
  | EventRetained event => mret (Some (with_routing event routing))
  | EventDenied =>
      count 1 0 1 0 ;; abandon item "content_authority_denied" ;; mret None
  end.

Definition adapter_unavailable : string :=
  "adapter_unavailable_startup: target adapter did not complete runtime startup".

(** Putting the row off without consuming an attempt. *)
Definition defer_row (item : Row) (policy : RetryPolicy) (kind : string) (error : option string) : act instant :=
  lift (defer_retry_outbox compute_backoff item policy kind (attempt_number item) None error None
          (Some (cf_interval c))).

Definition defer_unavailable (item : Row) (policy : RetryPolicy) : act unit :=
  count 1 0 0 0 ;;
  next ← catch (t ← defer_row item policy (failure_value ADAPTER_TRANSIENT) (Some adapter_unavailable);
                mret (Some t))
    (fun e => (if superseded e then mret tt
               else record_lifecycle_persistence_error item e (attempt_number item)) ;; mret None);
  match next with
  | None => mret tt
  | Some t =>
      defer_adapter (target_adapter item) t ;;
      count 0 0 1 0 ;;
      emit "retry_failed" (item_detail item (attempt_number item) ++
        failure_detail "adapter_unavailable_startup" (failure_value ADAPTER_TRANSIENT) adapter_unavailable
          (JStr (isoformat t)))
  end.

(** [acquire_delivery] answered no: put the row off, quietly if it is no
    longer ours. *)
Definition capacity_rejected (item : Row) (policy : RetryPolicy) : act unit :=
  count 0 0 1 0 ;;
  next ← catch (t ← defer_row item policy "capacity_rejection" None; mret (Some (Some t)))
    (fun e => mret (if superseded e then None else Some None));
  match next with
  | None => mret tt
  | Some next =>
      match next with Some t => defer_adapter (target_adapter item) t | None => mret tt end ;;
      emit "retry_failed" (item_detail item (attempt_number item) ++
        failure_detail "capacity_rejection" "capacity_rejection" "delivery capacity not available" (opt_iso next))
  end.

(** The acquisition raised. *)
Definition capacity_failed (item : Row) (policy : RetryPolicy) : act unit :=
  count 0 0 1 0 ;;
  catch (t ← defer_row item policy "capacity_error" None; defer_adapter (target_adapter item) t)
    (fun _ => mret tt).

(** May the row proceed, with a permit if there is a capacity controller? *)
Definition acquire_capacity (item : Row) (policy : RetryPolicy) : act bool :=
  match cf_delivery_limit c with
  | None => mret true
  | Some _ =>
      catch (acquired ← lift acquire_delivery;
             if (acquired : bool) then hold_permits 1 ;; mret true
             else capacity_rejected item policy ;; mret false)
        (fun _ => capacity_failed item policy ;; mret false)
  end.

Definition release_capacity : act unit :=
  match cf_delivery_limit c with None => mret tt | Some _ => hold_permits (-1) end.

(** Preparation of a never-dispatched event, before any reservation; [None]
    when the row goes back. *)
Definition prepare (item : Row) (event : CanonicalEvent) : act (option CanonicalEvent) :=
  if negb (attempt_number item =? 0) then mret (Some event)
  else
    catch
      (renewed ← lift (renew_retry_lease item (lease_seconds c));
       if negb renewed then count 1 0 0 0 ;; mret None
       else event' ← lift (prepare_initial_outbox_event event); mret (Some event'))
      (fun _ =>
         count 1 0 1 0 ;;
         catch (lift (release_unstarted_retry_claim item)) (fun _ => mret tt) ;;
         rest_adapter item ;; mret None).

(** One round of [_renew_dispatch_lease], which runs beside the transport: does
    the loop go on? *)
Definition renew_dispatch_lease (item : Row) : proc bool :=
  try_except (renew_retry_lease item (lease_seconds c)) (mret true).

(** The reserved attempt number under a fresh lease; [None] when the transport
    must not be called. *)
Definition reserve (item : Row) : act (option Z) :=
  reserved ← catch
    (n ← lift (reserve_retry_attempt item);
     match n with
     | Some n => mret (Some n)
     | None => count 1 0 0 0 ;; mret None
     end)
    (fun e => count 1 0 0 0 ;; record_lifecycle_persistence_error item e (attempt_number item + 1) ;; mret None);
  match reserved with
  | None => mret None
  | Some n =>
      catch
        (renewed ← lift (renew_retry_lease item (lease_seconds c));
         if (renewed : bool) then mret (Some n) else count 1 0 0 0 ;; mret None)
        (fun e => count 1 0 0 0 ;; record_lifecycle_persistence_error item e n ;; mret None)
  end.

(** The call of the transport: what it returned or raised. *)
Definition observe {A} (m : transport A) : act (result retry_error A) := fun s =>
  let '(r, w) := m (st_world s) in (Ok r, at_world s w).

Definition call_transport {A} (item : Row) (n : Z) (event : CanonicalEvent) (m : transport A)
    : act (result retry_error A) :=
  log_transport {| tc_outbox_id := outbox_id item; tc_attempt := n; tc_event := event |} ;; observe m.

(** The [except Exception] of the dispatch. *)
Definition settle_error (item : Row) (policy : RetryPolicy) (n : Z) (error : retry_error) : act unit :=
  count 1 0 0 0 ;;
  catch
    (f ← lift (finalize_retry_attempt_error compute_backoff item policy error (Some n) None);
     record_retry_finalization item f
       (Some (ex_type_name (re_error error) +:+ ": " +:+ ex_text (re_error error))) false)
    (fun e => if superseded e then mret tt else record_lifecycle_persistence_error item e n).

(** A success whose commit lost to another task. *)
Definition settle_rejection (item : Row) (receipt : DeliveryReceipt) : act unit :=
  catch
    (settled ← lift (reconcile_retry_success_commit_rejection item receipt);
     match settled with
     | None => mret tt
     | Some f => record_retry_finalization item f (rc_error receipt) true
     end)
    (fun e => record_lifecycle_persistence_error item e (rc_attempt_number receipt)).

(** The [else] of the dispatch. *)
Definition settle_success (item : Row) (receipt : DeliveryReceipt) : act unit :=
  count 1 0 0 0 ;;
  catch
    (accepted ← lift (finalize_retry_success item receipt);
     record_retry_finalization item
       {| rf_outcome := if (accepted : bool) then "accepted" else "suppressed";
          rf_receipt_id := Some (rc_receipt_id receipt); rf_failure_kind := rc_failure_kind receipt;
          rf_attempt_number := rc_attempt_number receipt; rf_next_retry_at := None |}
       (rc_error receipt) false)
    (fun e => if superseded e then settle_rejection item receipt
              else record_lifecycle_persistence_error item e (rc_attempt_number receipt)).

(** With a permit: preparation, reservation, the transport and its outcome. *)
Definition attempt (item : Row) (context : ReconstructedRetryPlan) (previous : option DeliveryReceipt)
    (event : CanonicalEvent) : act unit :=
  prepared ← prepare item event;
  match prepared with
  | None => mret tt
  | Some event =>
      reserved ← reserve item;
      match reserved with
      | None => mret tt
      | Some n =>
          if attempt_number item =? 0 then
            outcome ← call_transport item n event
              (deliver_initial_outbox event (rr_route context) (rr_plan context) item n);
            match outcome with
            | Ok _ => mret tt
            | Raise error => settle_error item (rr_retry_policy context) n error
            end
          else
            emit "retry_attempted" (item_detail item n) ;;
            outcome ← call_transport item n event
              (deliver_to_target event (rr_route context) (rr_plan context) previous item n);
            match outcome with
            | Ok receipt => settle_success item receipt
            | Raise error => settle_error item (rr_retry_policy context) n error
            end
      end
  end.

Definition adapter_available (w : RetryWorker) (adapter : string) : bool :=
  match rw_available w with None => true | Some l => elem adapter l end.

Definition retry_outbox_item (item : Row) : act unit :=
  event ← lift (get_metadata (event_id item));
  match event with
  | None => abandon item "Event not found in storage"
  | Some _ =>
      previous ← lift (query (fun d => delivery_status d (outbox_identity item)));
      context ← load_context item previous;
      match context with
      | None => mret tt
      | Some context =>
          let policy := rr_retry_policy context in
          settled ← reconcile item policy;
          if (settled : bool) then mret tt
          else
            event ← authorize item (rr_routing context);
            match event with
            | None => mret tt
            | Some event =>
                available ← reading (fun w => adapter_available w (target_adapter item));
                if negb available then defer_unavailable item policy
                else
                  permitted ← acquire_capacity item policy;
                  if negb permitted then mret tt
                  else finally (attempt item context previous event) release_capacity
            end
      end
  end.

(** ** One cycle *)

(** The awaited sweep and its accounting. *)
Definition sweep_once : act unit := fun s =>
  let sweep := (observed ← read_clock; call (deadline_sweep observed (cf_sweep_limit c) (st_cursor s))) in
  match sweep (st_world s) with
  | (Raise _, w) => count_sweep 0 1 0 (at_world s w)
  | (Ok (retired, cursor), w) =>
      (count_sweep 1 0 (Z.of_nat (length retired)) ;;
       if nonempty retired then mark_counts_dirty 0 else mret tt)
        {| st_worker := st_worker s; st_world := w; st_cursor := cursor |}
  end.

Definition run_deadline_sweep (now : instant) : act unit :=
  next ← reading (fun w => sc_next_sweep_at (rw_schedule w));
  if negb (cf_sweep_enabled c) then mret tt
  else if match (next : option instant) with Some t => now <? t | None => false end then mret tt
  else
    set_schedule (fun sc =>
      {| sc_active := sc_active sc; sc_deferred := sc_deferred sc;
         sc_next_retry_scan := sc_next_retry_scan sc; sc_next_sweep_at := Some (now + cf_sweep_interval c) |}) ;;
    sweep_once.

(** [claim_due_outbox_items], a statement at a time. *)
Definition claim_due (now : instant) (name : string) (limit : Z) (o : claim_options) : proc (list Row) :=
  rows ← query (fun d => Ok (claim_select o now limit d));
  if negb (nonempty rows) then mret []
  else
    let ids := (fun r : Row => outbox_id r) <$> rows in
    _ ← call (claim_update o now (now + seconds (lease_seconds c)) name ids);
    query (fun d => Ok (claim_reread name ids d)).

(** [dispatch]: nothing escapes it, and the counts are stale after it. *)
Definition dispatch (item : Row) : act unit :=
  catch (retry_outbox_item item) (fun _ => mret tt) ;; mark_counts_dirty 1.

Definition start_task (item : Row) : act unit := set_schedule (fun sc =>
  {| sc_active := od_set (target_adapter item) false (sc_active sc); sc_deferred := sc_deferred sc;
     sc_next_retry_scan := sc_next_retry_scan sc; sc_next_sweep_at := sc_next_sweep_at sc |}).

(** The items in turn; with a task group the items started in it. *)
Fixpoint dispatch_items (group : bool) (items : list Row) : act (list Row) :=
  match items with
  | [] => mret []
  | item :: rest =>
      stop ← shutdown_requested;
      if (stop : bool) then release_unstarted_claims items ;; mret []
      else if group then
        start_task item ;; started ← dispatch_items group rest; mret (item :: started)
      else dispatch item ;; dispatch_items group rest
  end.

(** Finished tasks leave [_active], expired deferrals leave their table. *)
Definition prune (now : instant) : act unit := set_schedule (fun sc =>
  {| sc_active := List.filter (fun kv => negb kv.2) (sc_active sc);
     sc_deferred := List.filter (fun kv => now <? kv.2) (sc_deferred sc);
     sc_next_retry_scan := sc_next_retry_scan sc; sc_next_sweep_at := sc_next_sweep_at sc |}).

Definition slots (group : bool) (sc : schedule) : Z :=
  if group then Z.min (cf_batch_size c)
                  (Z.max 0 (default 1 (cf_delivery_limit c) - Z.of_nat (length (sc_active sc))))
  else cf_batch_size c.

Definition retry_scan_due (group : bool) (now : instant) (sc : schedule) : bool :=
  cf_retries_enabled c &&
  (negb group || match sc_next_retry_scan sc with None => true | Some t => t <=? now end).

Definition claim_batch (group : bool) (now : instant) : act (list Row) :=
  sc ← reading rw_schedule;
  let available := slots group sc in
  if available =? 0 then mret []
  else
    let scan := retry_scan_due group now sc in
    (if scan && group then set_schedule (fun sc =>
       {| sc_active := sc_active sc; sc_deferred := sc_deferred sc;
          sc_next_retry_scan := Some (now + cf_interval c); sc_next_sweep_at := sc_next_sweep_at sc |})
     else mret tt) ;;
    u ← lift new_uuid;
    lift (claim_due now ("retry-worker-" +:+ String.substring 0 8 u) available
      {| excluded_adapters := od_keys (sc_active sc) ++ od_keys (sc_deferred sc);
         initial_only := cf_initial_dispatch c && negb scan; one_per_adapter := group |}).

Definition refresh_counts (now : instant) (claimed : bool) : act unit :=
  cn ← reading rw_census;
  if claimed || cn_dirty cn || negb (cn_completed cn) ||
     match cn_last_refresh cn with None => true | Some t => t + cf_interval c <=? now end
  then
    catch
      (counts ← lift (query (fun d => Ok (count_outbox_by_status d)));
       set_census (fun cn' =>
         {| cn_counts := counts; cn_completed := true; cn_last_refresh := Some now;
            cn_dirty := negb (cn_generation cn =? cn_generation cn'); cn_generation := cn_generation cn' |}))
      (fun _ => mret tt)
  else mret tt.

(** The result is the tasks started in the group. *)
Definition process_due (group : bool) (now : instant) : act (list Row) :=
  run_deadline_sweep now ;;
  prune now ;;
  items ← claim_batch group now;
  (if nonempty items then note_run now else mret tt) ;;
  started ← dispatch_items group items;
  refresh_counts now (nonempty items) ;;
  mret started.

(** ** Starting and ending *)

Definition tally_detail (st : RetryWorkerState) : list (string * json) :=
  [("processed", JInt (rs_processed st)); ("succeeded", JInt (rs_succeeded st));
   ("failed", JInt (rs_failed st)); ("dead_lettered", JInt (rs_dead_lettered st))].

Definition capture_startup_outbox_evidence : act unit :=
  st ← reading rw_state;
  counts ← catch (l ← lift (query (fun d => Ok (count_outbox_by_status d))); mret (Some l))
             (fun _ => mret None);
  match counts with
  | None => set_flags (rs_running st) (rs_abandoned st) None
  | Some l =>
      let n := Z.max (default 0 (od_get "in_progress" l)) 0 in
      set_flags (rs_running st) (rs_abandoned st) (Some n) ;;
      if n <=? 0 then mret tt
      else emit "retry_unfinished_work_detected"
             [("in_progress_count", JInt n); ("source", JStr "durable_outbox_startup_snapshot")]
  end.

(** The floating-point settings in the details are left out. *)
Definition start : act unit :=
  w ← reading id;
  if negb (worker_enabled c) then mret tt
  else if rs_abandoned (rw_state w)
  then emit "retry_start_refused" (("reason", JStr "abandoned") :: tally_detail (rw_state w))
  else if rw_task w then mret tt
  else
    capture_startup_outbox_evidence ;;
    set_schedule (fun sc => {| sc_active := sc_active sc; sc_deferred := sc_deferred sc;
                               sc_next_retry_scan := None; sc_next_sweep_at := None |}) ;;
    set_census (fun cn => {| cn_counts := cn_counts cn; cn_completed := cn_completed cn;
                             cn_last_refresh := None; cn_dirty := false; cn_generation := 0 |}) ;;
    st ← reading rw_state;
    set_flags true (rs_abandoned st) (rs_previous_run_in_progress st) ;;
    set_task true ;;
    emit "retry_started"
      [("batch_size", JInt (cf_batch_size c)); ("max_attempts", JInt (cf_max_attempts c));
       ("previous_run_in_progress", match rs_previous_run_in_progress st with
                                    | Some n => JInt n | None => JNull end)].

(** [_finalize_task_outcome]: the loop's task ended, with this exception if
    any. *)
Definition finalize_task_outcome (error : option exc) : act unit :=
  st ← reading rw_state;
  set_task false ;;
  set_flags false (rs_abandoned st) (rs_previous_run_in_progress st) ;;
  match error with
  | None => emit "retry_stopped" (tally_detail st)
  | Some e => emit "retry_failed" (tally_detail st ++ [("error", JStr (describe e))])
  end.

(** The task outlived the grace period of [stop], or [stop] was cancelled. *)
Definition abandon_task (reason : list (string * json)) : act unit :=
  st ← reading rw_state;
  set_task false ;;
  set_flags false true (rs_previous_run_in_progress st) ;;
  emit "retry_abandoned" (reason ++ tally_detail st).
End worker.
