(* ===== verification/RetryWorkerSafety.v ===== *)
(** * What the outbox dispatcher guarantees

    Whatever other tasks do between its storage calls and whichever of them
    fail, one claimed row leads to at most one call of the transport, under an
    attempt number reserved for it alone, with content its owner may read, and
    the capacity permit is returned. *)

From Stdlib Require Import SpecFloat.
From S2P Require Import Prelude.
From S2P Require Import Json.
From S2P Require Import DeliveryState.
From S2P Require Import Router.
From S2P Require Import Delivery.
From S2P Require Import Events.
From S2P Require Import ContentGrants.
From S2P Require Import DeliveryPlan.
From S2P Require Import Store.
From S2P Require Import Outbox.
From S2P Require Import OutboxProofs.
From S2P Require Import OutboxSafety.
From S2P Require Import OutboxClaims.
From S2P Require Import OutboxMaintenance.
From S2P Require Import Receipts.
From S2P Require Import DeliveryAuthority.
From S2P Require Import StorageProgram.
From S2P Require Import MaintenanceSafety.
From S2P Require Import RetryPlan.
From S2P Require Import DeliveryLifecycle.
From S2P Require Import OutboxManager.
From S2P Require Import LifecycleSafety.
From S2P Require Import RetryRoundtrip.
From S2P Require Import RetryWorker.

Open Scope string_scope.
Open Scope list_scope.
Open Scope Z_scope.

(** ** Steps that do not call the transport *)

(** From [s] to [s'] no transport was called and [n] permits were taken. *)
Record moved (n : Z) (s s' : site) : Prop := {
  mv_later : later (st_world s) (st_world s');
  mv_transport : rw_transport (st_worker s') = rw_transport (st_worker s);
  mv_permits : rw_permits (st_worker s') = rw_permits (st_worker s) + n
}.

Lemma moved_refl s : moved 0 s s.
Proof. split; [reflexivity|done|lia]. Qed.

Lemma moved_trans n m k s1 s2 s3 : moved n s1 s2 -> moved m s2 s3 -> k = n + m -> moved k s1 s3.
Proof. intros [] [] ->. split; [by etrans|congruence|lia]. Qed.

#[export] Instance moved_preorder : PreOrder (moved 0).
Proof. split; [exact moved_refl|]. intros a b d H1 H2. by apply (moved_trans 0 0 0 a b d). Qed.

Class Quiet {A} (m : act A) : Prop := quiet s : moved 0 s (m s).2.

Lemma quiet_run {A} (m : act A) `{!Quiet m} s r s' : m s = (r, s') -> moved 0 s s'.
Proof. intros H. pose proof (quiet s) as Hq. by rewrite H in Hq. Qed.

#[export] Instance quiet_ret {A} (a : A) : Quiet (mret (M := act) a).
Proof. intros s. apply moved_refl. Qed.
#[export] Instance quiet_reraise {A} (e : exc) : Quiet (reraise (A := A) e).
Proof. intros s. apply moved_refl. Qed.
#[export] Instance quiet_reading {A} (f : RetryWorker -> A) : Quiet (reading f).
Proof. intros s. apply moved_refl. Qed.
#[export] Instance quiet_shutdown : Quiet shutdown_requested.
Proof. intros s. split; [reflexivity|done|simpl; lia]. Qed.

#[export] Instance quiet_lift {A} (p : proc A) : Traced p -> Quiet (lift p).
Proof.
  intros Hp s. unfold lift. destruct (p (st_world s)) as [r w] eqn:E.
  split; [exact (traced_run p _ _ _ E)|done|simpl; lia].
Qed.

#[export] Instance quiet_bind {A B} (m : act A) (k : A -> act B) :
  Quiet m -> (forall a, Quiet (k a)) -> Quiet (m ≫= k).
Proof.
  intros Hm Hk s. unfold mbind, act_bind. destruct (m s) as [[a|e] s1] eqn:E.
  - etrans; [exact (quiet_run m _ _ _ E)|apply Hk].
  - exact (quiet_run m _ _ _ E).
Qed.

#[export] Instance quiet_catch {A} (m : act A) (h : exc -> act A) :
  Quiet m -> (forall e, Quiet (h e)) -> Quiet (catch m h).
Proof.
  intros Hm Hh s. unfold catch. destruct (m s) as [[a|e] s1] eqn:E.
  - exact (quiet_run m _ _ _ E).
  - etrans; [exact (quiet_run m _ _ _ E)|apply Hh].
Qed.

(** Changes of the worker's own bookkeeping. *)
Ltac quiet_modify := intros s; split; [reflexivity|done|simpl; lia].

#[export] Instance quiet_set_state f : Quiet (set_state f).
Proof. quiet_modify. Qed.
#[export] Instance quiet_set_schedule f : Quiet (set_schedule f).
Proof. quiet_modify. Qed.
#[export] Instance quiet_set_census f : Quiet (set_census f).
Proof. quiet_modify. Qed.
#[export] Instance quiet_emit c k d : Quiet (emit c k d).
Proof. quiet_modify. Qed.
#[export] Instance quiet_count p s f d : Quiet (count p s f d).
Proof. apply quiet_set_state. Qed.
#[export] Instance quiet_count_sweep p s f : Quiet (count_sweep p s f).
Proof. apply quiet_set_state. Qed.
#[export] Instance quiet_note_run t : Quiet (note_run t).
Proof. apply quiet_set_state. Qed.
#[export] Instance quiet_defer_adapter a t : Quiet (defer_adapter a t).
Proof. apply quiet_set_schedule. Qed.
#[export] Instance quiet_dirty n : Quiet (mark_counts_dirty n).
Proof. apply quiet_set_census. Qed.

(** A quiet step either ends the run or is followed by the rest. *)
Lemma quiet_stage {A B} (m : act A) (k : A -> act B) s0 s r s' `{!Quiet m} :
  moved 0 s0 s -> (m ≫= k) s = (r, s') ->
  moved 0 s0 s' \/ exists a s1, m s = (Ok a, s1) /\ moved 0 s0 s1 /\ k a s1 = (r, s').
Proof.
  intros M. pose proof (quiet s) as Q. unfold mbind, act_bind. destruct (m s) as [[a|e] s1]; simpl in Q.
  - right. exists a, s1. split_and!; [done|by etrans|done].
  - intros [= _ <-]. left. by etrans.
Qed.

(** Take a stage of [H]; [M] says what happened since the start. *)
Ltac stage H M a s1 E :=
  eapply quiet_stage in H as [H|(a & s1 & E & M' & H)]; [left; exact H| |typeclasses eauto|exact M];
  clear M; rename M' into M.

Ltac solve_quiet :=
  repeat first
    [ progress (intros; cbv zeta)
    | apply quiet_bind; [|intros ?]
    | apply quiet_catch; [|intros ?] | typeclasses eauto
    | match goal with |- Quiet (match ?x with _ => _ end) => destruct x end ].

#[export] Instance quiet_unless m : Quiet m -> Quiet (unless_superseded m).
Proof. unfold unless_superseded. solve_quiet. Qed.

(** ** Reservations of one row *)

Definition reaches (d d' : db) : Prop := exists ops, d' = exec ops d.

#[export] Instance reaches_preorder : PreOrder reaches.
Proof.
  split; [intros d; by exists []|]. intros a b d [o1 ->] [o2 ->]. exists (o1 ++ o2). by rewrite exec_app.
Qed.

Lemma row_reservations_increase ops d t1 id k1 f1 g1 d1 t2 k2 f2 g2 d2 :
  outbox_constraints (outbox d) = true ->
  reserve_outbox_attempt t1 id k1 f1 d = (Ok (Some g1), d1) ->
  reserve_outbox_attempt t2 id k2 f2 (exec ops d1) = (Ok (Some g2), d2) -> g1 < g2.
Proof.
  intros Hc H1 H2. pose proof H2 as (_ & _ & q & Hq & Hg)%reserve_Some.
  apply reserve_guard_facts in Hg as (Hid & _).
  apply (reservations_increase ops d t1 id k1 f1 g1 d1 t2 id k2 f2 g2 d2 q q); try done.
  unfold same_target. by rewrite !bool_decide_eq_true_2.
Qed.

(** Taking [d] to [d1], attempt [g] of the row was reserved, and no
    reservation of the row before or after it was for [g]. *)
Definition reserved_alone (id : string) (g : Z) (d d1 : db) : Prop :=
  (exists t k f, reserve_outbox_attempt t id k f d = (Ok (Some g), d1)) /\
  (forall t k f g' da db, reaches d1 da -> reserve_outbox_attempt t id k f da = (Ok (Some g'), db) -> g < g') /\
  (forall t k f g' da db, reachable da -> reserve_outbox_attempt t id k f da = (Ok (Some g'), db) ->
     reaches db d -> g' < g).

Lemma reserved_alone_intro t id k f g d d1 :
  outbox_constraints (outbox d) = true ->
  reserve_outbox_attempt t id k f d = (Ok (Some g), d1) -> reserved_alone id g d d1.
Proof.
  intros Hc H. split_and!; [eauto| |].
  - intros t' k' f' g' da db [ops ->] H'. by eapply row_reservations_increase.
  - intros t' k' f' g' da db Hd%reachable_constraints H' [ops ->]. by eapply row_reservations_increase.
Qed.

(** ** Following a step *)

Lemma act_bind_run {A B} (m : act A) (k : A -> act B) s r s' :
  (m ≫= k) s = (r, s') ->
  (exists e, m s = (Raise e, s') /\ r = Raise e) \/ exists a s1, m s = (Ok a, s1) /\ k a s1 = (r, s').
Proof. unfold mbind, act_bind. destruct (m s) as [[a|e] s1]; [eauto|]. intros [= <- <-]. eauto. Qed.

Lemma bind_not {A B} (m : act A) (k : A -> act B) b :
  (forall a s, (k a s).1 <> Ok b) -> forall s, ((m ≫= k) s).1 <> Ok b.
Proof. intros Hk s. unfold mbind, act_bind. destruct (m s) as [[a|e] s1]; [apply Hk|done]. Qed.

Lemma catch_run {A} (m : act A) (h : exc -> act A) s r s' :
  catch m h s = (r, s') ->
  (exists a, m s = (Ok a, s') /\ r = Ok a) \/ exists e s1, m s = (Raise e, s1) /\ h e s1 = (r, s').
Proof. unfold catch. destruct (m s) as [[a|e] s1]; [|eauto]. intros [= <- <-]. eauto. Qed.

Lemma catch_Ok {A} (m : act A) (h : exc -> act A) s a s' :
  (forall e s1, (h e s1).1 <> Ok a) -> catch m h s = (Ok a, s') -> m s = (Ok a, s').
Proof.
  intros Hh. unfold catch. destruct (m s) as [[x|e] s1]; [done|].
  intros H. destruct (Hh e s1). by rewrite H.
Qed.

Lemma bind_Ok_run {A B} (m : act A) (k : A -> act B) s b s' :
  (m ≫= k) s = (Ok b, s') -> exists a s1, m s = (Ok a, s1) /\ k a s1 = (Ok b, s').
Proof. intros [(e & _ & [=])|H]%act_bind_run. done. Qed.

(** The step never returns that value. *)
Ltac never := intros; repeat (apply bind_not; intros); done.

Lemma lift_run {A} (p : proc A) s r s' :
  lift p s = (r, s') -> p (st_world s) = (r, st_world s').
Proof. unfold lift. destruct (p (st_world s)). by intros [= <- <-]. Qed.

Lemma moved_reaches n s s' : moved n s s' -> reaches (w_db (st_world s)) (w_db (st_world s')).
Proof. intros [[ops H] _ _]. by exists ops. Qed.

Section worker.
Context {Pipe : RetryPipeline} {Laws : RetryPipelineLaws Pipe}.
Context (c : config) (compute_backoff : RetryPolicy -> Z -> Z)
  (convert_destination : list (string * json) -> result exc RouteDestination)
  (convert_context : json -> result exc OutboxDispatchContext)
  (fromisoformat : string -> result exc PyDatetime)
  (receipt_floats : DeliveryReceipt -> option spec_float * option spec_float)
  (isoformat : instant -> string) (describe : exc -> string).

#[local] Instance quiet_persistence item e n :
  Quiet (record_lifecycle_persistence_error c describe item e n).
Proof. unfold record_lifecycle_persistence_error. solve_quiet. Qed.
#[local] Instance quiet_finalization item f e b : Quiet (record_retry_finalization c isoformat item f e b).
Proof. unfold record_retry_finalization. solve_quiet. Qed.
#[local] Instance quiet_abandon item e : Quiet (abandon item e).
Proof. unfold abandon. apply _. Qed.
#[local] Instance quiet_release items : Quiet (release_unstarted_claims items).
Proof. induction items; cbn [release_unstarted_claims]; solve_quiet. Qed.
#[local] Instance quiet_rest item : Quiet (rest_adapter c item).
Proof. unfold rest_adapter. solve_quiet. Qed.
#[local] Instance traced_read_snapshot item : Traced (read_snapshot item).
Proof.
  intros w. unfold read_snapshot. assert (Traced (read_dispatch_context item)) as H by (unfold read_dispatch_context; apply _).
  destruct (H w) as [ops Ho]. exists ops. destruct (read_dispatch_context item w) as [[?|[]] w1]; done.
Qed.
#[local] Instance quiet_load item previous :
  Quiet (load_context c convert_destination convert_context fromisoformat receipt_floats item previous).
Proof. unfold load_context. solve_quiet. Qed.
#[local] Instance quiet_reconcile item policy : Quiet (reconcile c compute_backoff isoformat describe item policy).
Proof. unfold reconcile. solve_quiet. Qed.
#[local] Instance quiet_authorize item routing : Quiet (authorize item routing).
Proof. unfold authorize. solve_quiet. Qed.
#[local] Instance quiet_defer_row item policy k e : Quiet (defer_row c compute_backoff item policy k e).
Proof. unfold defer_row. apply _. Qed.
#[local] Instance quiet_unavailable item policy :
  Quiet (defer_unavailable c compute_backoff isoformat describe item policy).
Proof. unfold defer_unavailable. solve_quiet. Qed.
#[local] Instance quiet_rejected item policy : Quiet (capacity_rejected c compute_backoff isoformat item policy).
Proof. unfold capacity_rejected. solve_quiet. Qed.
#[local] Instance quiet_capacity_failed item policy : Quiet (capacity_failed c compute_backoff item policy).
Proof. unfold capacity_failed. solve_quiet. Qed.
#[local] Instance quiet_prepare item event : Quiet (prepare c item event).
Proof. unfold prepare. solve_quiet. Qed.
#[local] Instance quiet_reserve item : Quiet (reserve c describe item).
Proof. unfold reserve. solve_quiet. Qed.
#[local] Instance quiet_settle_error item policy n e :
  Quiet (settle_error c compute_backoff isoformat describe item policy n e).
Proof. unfold settle_error. solve_quiet. Qed.
#[local] Instance quiet_settle_success item r : Quiet (settle_success c isoformat describe item r).
Proof. unfold settle_success, settle_rejection. solve_quiet. Qed.

(** ** The stages *)

Abbreviation database s := (w_db (st_world s)).

(** A reservation of the row between two databases. *)
Definition reservation (item : Row) (n : Z) (d0 d2 : db) : Prop :=
  exists t k d d1, reaches d0 d /\
    reserve_outbox_attempt t (outbox_id item) k (attempt_number item) d = (Ok (Some n), d1) /\ reaches d1 d2.

Lemma reserve_run item s n s' :
  reserve c describe item s = (Ok (Some n), s') -> reservation item n (database s) (database s').
Proof.
  unfold reserve. intros (r & s1 & H1 & H)%bind_Ok_run. destruct r as [m|]; [|done].
  apply catch_Ok in H; [|never]. apply bind_Ok_run in H as (b & s2 & H2 & H).
  assert (m = n /\ s2 = s') as [-> ->].
  { destruct b; [by injection H|]. apply bind_Ok_run in H as (? & ? & _ & [=]). }
  apply catch_Ok in H1; [|never]. apply bind_Ok_run in H1 as (a & s3 & H1 & H3).
  destruct a as [a|]; [|by apply bind_Ok_run in H3 as (? & ? & _ & [=])].
  injection H3 as -> ->. apply lift_run in H1. unfold reserve_retry_attempt in H1.
  destruct (worker_id item) as [k|]; [|done]. step_proc H1 t w1. apply call_run in H1 as (w2 & [ops L] & E).
  exists t, k, (w_db w2), (database s1). split_and!; [|done|].
  - etrans; [|by eexists]. match goal with L1 : later _ w1 |- _ => destruct L1 as [ops' L1]; by exists ops' end.
  - by apply (moved_reaches 0), (quiet_run _ _ _ _ H2).
Qed.

(** Calling the transport once, under a reserved number. *)
Record sent (item : Row) (call : transport_call) (s s' : site) : Prop := {
  sn_transport : rw_transport (st_worker s') = rw_transport (st_worker s) ++ [call];
  sn_permits : rw_permits (st_worker s') = rw_permits (st_worker s);
  sn_row : tc_outbox_id call = outbox_id item;
  sn_reservation : reservation item (tc_attempt call) (database s) (database s')
}.

Lemma sent_frame item call n s0 s s1 s' :
  moved n s0 s -> sent item call s s1 -> moved (- n) s1 s' -> sent item call s0 s'.
Proof.
  intros M [H1 H2 H3 (t & k & d & d1 & R & Hr & R')] M'. destruct (M) as [_ Mt Mp], (M') as [_ Mt' Mp'].
  split; [congruence|lia|done|]. exists t, k, d, d1.
  split_and!; [etrans; [by eapply moved_reaches|done]|done|etrans; [done|by eapply moved_reaches]].
Qed.

Lemma call_transport_run {A} item n event (m : transport A) s0 s r s' :
  (forall w, exists ops, w_db (m w).2 = exec ops (w_db w)) ->
  moved 0 s0 s -> reservation item n (database s0) (database s) ->
  call_transport item n event m s = (r, s') ->
  (exists o, r = Ok o) /\
  sent item {| tc_outbox_id := outbox_id item; tc_attempt := n; tc_event := event |} s0 s'.
Proof.
  intros Hm [_ Mt Mp] (t & k & d & d1 & R & Hr & R') H. apply act_bind_run in H as [(e & [=] & _)|(u & s1 & [= _ <-] & H)].
  unfold observe, at_world in H. cbn [st_world st_worker st_cursor] in H. destruct (Hm (st_world s)) as [ops Ho]. destruct (m (st_world s)) as [o w].
  injection H as <- <-. split; [eauto|]. split; simpl; [by rewrite Mt|lia|done|].
  exists t, k, d, d1. split_and!; [done..|]. etrans; [exact R'|]. by exists ops.
Qed.

(** The event of the call is the prepared one. *)
Definition prepared_from (item : Row) (event event' : CanonicalEvent) : Prop :=
  event' = event \/ exists w w', prepare_initial_outbox_event event w = (Ok event', w').

Lemma prepare_run item event s event' s' :
  prepare c item event s = (Ok (Some event'), s') -> prepared_from item event event'.
Proof.
  unfold prepare. destruct (negb _); [intros [= -> _]; by left|].
  intros H%catch_Ok; [|never]. apply bind_Ok_run in H as (b & s1 & _ & H).
  destruct b; cbn in H; [|by apply bind_Ok_run in H as (? & ? & _ & [=])].
  apply bind_Ok_run in H as (e & s2 & H & [= -> _]). apply lift_run in H. right. eauto.
Qed.

Lemma attempt_run item context previous event s r s' :
  attempt c compute_backoff isoformat describe item context previous event s = (r, s') ->
  moved 0 s s' \/ exists call, sent item call s s' /\ prepared_from item event (tc_event call).
Proof.
  unfold attempt. intros [(e & H & ->)|(p & s1 & Hp & H)]%act_bind_run; [left; by eapply quiet_run, H; apply _|].
  pose proof (quiet_run _ _ _ _ Hp) as M1. destruct p as [event'|]; [|injection H as _ <-; by left].
  apply act_bind_run in H as [(e & H & ->)|(n & s2 & Hn & H)].
  { left. etrans; [exact M1|]. by eapply quiet_run, H; apply _. }
  pose proof (quiet_run _ _ _ _ Hn) as M2. destruct n as [n|]; [|injection H as _ <-; left; by etrans].
  apply prepare_run in Hp. apply reserve_run in Hn. right.
  destruct (attempt_number item =? 0).
  - apply act_bind_run in H as [(e & H & ->)|(o & s3 & H3 & H)].
    { apply (call_transport_run _ _ _ _ s1) in H as [[? [=]] _]; first [done|apply deliver_initial_traced]. }
    apply (call_transport_run _ _ _ _ s1) in H3 as [_ H3]; [|apply deliver_initial_traced|done..].
    exists {| tc_outbox_id := outbox_id item; tc_attempt := n; tc_event := event' |}. split; [|exact Hp].
    eapply sent_frame; [exact M1|exact H3|].
    destruct o; [injection H as _ <-; reflexivity|by eapply quiet_run, H; apply _].
  - apply act_bind_run in H as [(e & H & ->)|(u & s3 & He & H)]; [discriminate H|].
    assert (moved 0 s2 s3) as M3 by exact (quiet_run (emit _ _ _) _ _ _ He).
    assert (reservation item n (database s1) (database s3)) as Hn'.
    { destruct Hn as (t & k & d & d1 & R & Hr & R'). exists t, k, d, d1. split_and!; [done..|].
      etrans; [done|by eapply moved_reaches]. }
    assert (moved 0 s1 s3) as M13 by by etrans.
    apply act_bind_run in H as [(e & H & ->)|(o & s4 & H3 & H)].
    { apply (call_transport_run _ _ _ _ s1) in H as [[? [=]] _]; first [done|intros; apply deliver_traced]. }
    apply (call_transport_run _ _ _ _ s1) in H3 as [_ H3]; [|intros; apply deliver_traced|done..].
    exists {| tc_outbox_id := outbox_id item; tc_attempt := n; tc_event := event' |}. split; [|exact Hp].
    eapply sent_frame; [exact M1|exact H3|].
    by destruct o; eapply quiet_run, H; apply _.
Qed.

(** ** Permits *)

Definition held : Z := match cf_delivery_limit c with None => 0 | Some _ => 1 end.

Lemma acquire_run item policy s r s' :
  acquire_capacity c compute_backoff isoformat item policy s = (r, s') ->
  r = Ok true /\ moved held s s' \/ r <> Ok true /\ moved 0 s s'.
Proof.
  unfold acquire_capacity, held. destruct (cf_delivery_limit c) as [limit|].
  2: { intros [= <- <-]. left. split; [done|reflexivity]. }
  intros [(a & E & ->)|(e & s1 & E & H)]%catch_run.
  - apply bind_Ok_run in E as (b & s2 & H2 & E). pose proof (quiet_run _ _ _ _ H2) as M.
    destruct b.
    + apply bind_Ok_run in E as (u & s3 & [= _ <-] & [= <- <-]). left. split; [done|].
      destruct M. by split; simpl; try lia.
    + apply bind_Ok_run in E as (u & s3 & H3 & [= <- <-]). right. split; [done|].
      etrans; [exact M|]. by eapply quiet_run, H3; apply _.
  - right. assert (moved 0 s s1) as M.
    { apply act_bind_run in E as [(e' & H2 & _)|(b & s2 & H2 & E)]; [by eapply quiet_run, H2; apply _|].
      etrans; [by eapply quiet_run, H2; apply _|]. destruct b.
      - apply act_bind_run in E as [(e' & [=] & _)|(? & ? & _ & [=])].
      - apply act_bind_run in E as [(e' & H3 & _)|(? & ? & _ & [=])]. by eapply quiet_run, H3; apply _. }
    split.
    + intros ->. apply bind_Ok_run in H as (? & ? & _ & [=]).
    + etrans; [exact M|]. refine (quiet_run (_ ≫= _) _ _ _ H).
Qed.

Lemma release_run s : exists s', release_capacity c s = (Ok tt, s') /\ moved (- held) s s'.
Proof.
  unfold release_capacity, held. destruct (cf_delivery_limit c); eexists; split; [done| |done|].
  - split; [reflexivity|done|simpl; lia].
  - reflexivity.
Qed.

Lemma finally_run {A} (m : act A) s r s' :
  finally m (release_capacity c) s = (r, s') ->
  exists s1, m s = (r, s1) /\ moved (- held) s1 s'.
Proof.
  unfold finally. destruct (m s) as [r1 s1]. destruct (release_run s1) as (s2 & -> & M).
  intros [= <- <-]. eauto.
Qed.

(** ** Reservations left by earlier claims *)

Lemma reconcile_run item policy s s' :
  reconcile c compute_backoff isoformat describe item policy s = (Ok false, s') -> active_attempt item = None.
Proof.
  unfold reconcile. intros H%catch_Ok; [|never]. apply bind_Ok_run in H as (f & s1 & H & H1).
  destruct f as [f|].
  { by apply bind_Ok_run in H1 as (? & ? & _ & (? & ? & _ & [=])%bind_Ok_run). }
  apply lift_run in H. destruct (active_attempt item) as [n|] eqn:Ha; [|done].
  by apply (reconcile_consumes _ _ _ _ n) in H as (f & [=] & _).
Qed.

Lemma authorize_run item routing s event s' :
  authorize item routing s = (Ok (Some event), s') ->
  exists e, read_event_for_outbox (event_id item) (outbox_id item) (st_world s) = (Ok (EventRetained e), st_world s') /\
    event = with_routing e routing.
Proof.
  unfold authorize. intros (a & s1 & H & H1)%bind_Ok_run. destruct a as [e|].
  - injection H1 as <- <-. apply lift_run in H. eauto.
  - by apply bind_Ok_run in H1 as (? & ? & _ & (? & ? & _ & [=])%bind_Ok_run).
Qed.

(** ** One row *)

Abbreviation work := (retry_outbox_item c compute_backoff convert_destination convert_context fromisoformat
  receipt_floats isoformat describe).

(** What stands behind a call of the transport made between [s] and [s']: its
    number was reserved for it alone. *)
Definition backed (d0 d2 : db) (call : transport_call) : Prop :=
  exists d d1, reaches d0 d /\ reserved_alone (tc_outbox_id call) (tc_attempt call) d d1 /\ reaches d1 d2.

(** The content came from a read on behalf of the row. *)
Definition authorized (item : Row) (w0 : world) (event : CanonicalEvent) : Prop :=
  exists w w' e routing, later w0 w /\
    read_event_for_outbox (event_id item) (outbox_id item) w = (Ok (EventRetained e), w') /\
    prepared_from item (with_routing e routing) event.

Lemma sent_backed item call s s' :
  reachable (database s) -> sent item call s s' ->
  backed (database s) (database s') call /\ tc_attempt call = attempt_number item + 1.
Proof.
  unfold backed. intros Hd [_ _ -> (t & k & d & d1 & [ops ->] & Hr & R)]. split; [|by apply reserve_Some in Hr as [-> _]].
  exists (exec ops (database s)), d1. split_and!; [by exists ops| |done].
  eapply reserved_alone_intro; [|exact Hr]. by apply exec_constraints, reachable_constraints.
Qed.

Lemma retry_item_run item s r s' :
  work item s = (r, s') ->
  moved 0 s s' \/ exists call, sent item call s s' /\ active_attempt item = None /\
    authorized item (st_world s) (tc_event call).
Proof.
  intros H. unfold retry_outbox_item in H. pose proof (moved_refl s) as M.
  stage H M ev s1 E1. destruct ev as [ev|]; [|left; etrans; [exact M|]; by eapply quiet_run, H; apply _].
  stage H M pr s2 E2. stage H M ctx s3 E3. destruct ctx as [ctx|]; [|injection H as _ <-; by left].
  stage H M settled s4 E4. destruct settled; [injection H as _ <-; by left|].
  apply reconcile_run in E4. pose proof (mv_later _ _ _ M) as L.
  stage H M event s5 E5. destruct event as [event|]; [|injection H as _ <-; by left].
  apply authorize_run in E5 as (e & E5 & ->). stage H M b s6 E6.
  destruct b; cbn in H; [|left; etrans; [exact M|]; by eapply quiet_run, H; apply _].
  apply act_bind_run in H as [(e' & H & ->)|(b & s7 & H7 & H)];
    [apply acquire_run in H as [[[=] _]|[_ M7]]; left; by etrans|].
  apply acquire_run in H7 as [[[= ->] M7]|[Hb M7]]; cbn in H.
  2: { destruct b; [done|]. injection H as _ <-. left. by etrans. }
  apply finally_run in H as (s8 & H & M8). apply attempt_run in H as [M9|(call & S & Hp)].
  - left. apply (moved_trans held (- held) 0 _ s8); [|exact M8|lia].
    apply (moved_trans held 0 held _ s7); [|exact M9|lia]. by apply (moved_trans 0 held held _ s6).
  - right. exists call. split_and!; [|done|].
    + eapply sent_frame; [|exact S|exact M8]. by apply (moved_trans 0 held held _ s6).
    + exists (st_world s4), (st_world s5), e, (rr_routing ctx). split_and!; done.
Qed.

(** C9: Working off one claimed row calls the transport at most once, whatever
    other tasks do between the worker's storage calls and whichever of those
    fail.  When it is called: the claim carried no earlier reservation, the
    attempt number is the row's next one and was reserved by this run, every
    other reservation of the row ever made, before or after, is for another
    number, and the content was read under the row's own authority.  However
    the work ends, the capacity permit is back. *)
Theorem retry_item_dispatches_once item s r s' :
  reachable (database s) -> work item s = (r, s') ->
  rw_permits (st_worker s') = rw_permits (st_worker s) /\
  (rw_transport (st_worker s') = rw_transport (st_worker s) \/
   exists call, rw_transport (st_worker s') = rw_transport (st_worker s) ++ [call] /\
     tc_outbox_id call = outbox_id item /\ tc_attempt call = attempt_number item + 1 /\
     active_attempt item = None /\ backed (database s) (database s') call /\
     authorized item (st_world s) (tc_event call)).
Proof.
  intros Hd [[_ Ht Hp]|(call & S & Ha & He)]%retry_item_run; [split; [lia|by left]|].
  destruct (sent_backed _ _ _ _ Hd S) as [Hb Hn], S as [St Sp Sr _]. split; [done|]. right. exists call. done.
Qed.

(** ** One cycle *)

Definition call_key (call : transport_call) : string * Z := (tc_outbox_id call, tc_attempt call).

(** Between [s] and [s'] these calls were made, each under a number of its own. *)
Record works (calls : list transport_call) (s s' : site) : Prop := {
  wk_reaches : reaches (database s) (database s');
  wk_permits : rw_permits (st_worker s') = rw_permits (st_worker s);
  wk_transport : rw_transport (st_worker s') = rw_transport (st_worker s) ++ calls;
  wk_backed : Forall (backed (database s) (database s')) calls;
  wk_distinct : NoDup (call_key <$> calls)
}.

Lemma moved_works s s' : moved 0 s s' -> works [] s s'.
Proof.
  intros M. destruct (M). split; [by eapply moved_reaches|lia|by rewrite app_nil_r|constructor|constructor].
Qed.

Lemma backed_weaken d0 d0' d2 d2' call :
  reaches d0 d0' -> reaches d2 d2' -> backed d0' d2 call -> backed d0 d2' call.
Proof. intros R0 R2 (d & d1 & R & Hr & R'). exists d, d1. split_and!; [by etrans|done|by etrans]. Qed.

(** A number reserved later is another one. *)
Lemma backed_distinct d0 d1 d2 call1 call2 :
  backed d0 d1 call1 -> backed d1 d2 call2 -> call_key call1 <> call_key call2.
Proof.
  intros (a & a1 & _ & (_ & Hafter & _) & R1) (b & b1 & R2 & ((t & k & f & Hb) & _) & _) [= Hid Hn].
  rewrite <-Hid, <-Hn in Hb. assert (tc_attempt call1 < tc_attempt call1); [|lia].
  eapply Hafter, Hb. by etrans.
Qed.

Lemma works_trans l1 l2 s1 s2 s3 : works l1 s1 s2 -> works l2 s2 s3 -> works (l1 ++ l2) s1 s3.
Proof.
  intros [R1 P1 T1 B1 N1] [R2 P2 T2 B2 N2]. split.
  - by etrans.
  - congruence.
  - by rewrite T2, T1, app_assoc.
  - apply Forall_app. split; eapply Forall_impl; [exact B1| |exact B2|]; intros call; apply backed_weaken; done.
  - rewrite fmap_app. apply NoDup_app. split_and!; [done| |done].
    intros key (c1 & -> & H1)%list_elem_of_fmap (c2 & E & H2)%list_elem_of_fmap.
    rewrite Forall_forall in B1, B2. by apply (backed_distinct _ _ _ c1 c2 (B1 _ H1) (B2 _ H2)).
Qed.

Abbreviation cycle := (process_due c compute_backoff convert_destination convert_context fromisoformat
  receipt_floats isoformat describe).

#[local] Instance quiet_sweep_once : Quiet (sweep_once c).
Proof.
  intros s. unfold sweep_once. cbv zeta.
  match goal with |- context [match ?m (st_world s) with _ => _ end] =>
    destruct (m (st_world s)) as [[[retired cursor]|e] w] eqn:E; pose proof (traced_run m _ _ _ E) as L end.
  - etrans; [|match goal with |- moved 0 _ (?m _).2 => assert (Quiet m) as Hq by solve_quiet; apply Hq end].
    split; [exact L|done|simpl; lia].
  - etrans; [|apply quiet_count_sweep]. split; [exact L|done|simpl; lia].
Qed.
#[local] Instance quiet_sweep now : Quiet (run_deadline_sweep c now).
Proof. unfold run_deadline_sweep. solve_quiet. Qed.
#[local] Instance quiet_prune now : Quiet (prune now).
Proof. unfold prune. apply _. Qed.
#[local] Instance stepped_claim o now lease name ids : Stepped (claim_update o now lease name ids).
Proof. by_op (OpClaim o now lease name ids). Qed.
#[local] Instance traced_claim_due now name limit o : Traced (claim_due c now name limit o).
Proof. unfold claim_due. solve_traced. Qed.
#[local] Instance quiet_claim group now : Quiet (claim_batch c group now).
Proof. unfold claim_batch. solve_quiet. Qed.
#[local] Instance quiet_refresh now b : Quiet (refresh_counts c now b).
Proof. unfold refresh_counts. solve_quiet. Qed.
#[local] Instance quiet_start_task item : Quiet (start_task item).
Proof. unfold start_task. apply _. Qed.

Lemma dispatch_works item s r s' :
  reachable (database s) ->
  dispatch c compute_backoff convert_destination convert_context fromisoformat receipt_floats isoformat describe
    item s = (r, s') ->
  exists calls, (length calls <= 1)%nat /\ works calls s s'.
Proof.
  intros Hd H. unfold dispatch in H.
  assert (exists r1 s1, work item s = (r1, s1) /\ moved 0 s1 s') as (r1 & s1 & H1 & M).
  { apply act_bind_run in H as [(e & H & _)|(u & s1 & H1 & H)].
    - apply catch_run in H as [(a & _ & [=])|(e' & s1 & _ & [=])].
    - apply (quiet_run _) in H. apply catch_run in H1 as [(a & H1 & _)|(e' & s2 & H1 & [= _ <-])]; eauto. }
  apply retry_item_run in H1 as [M1|(call & S & _)].
  - exists []. split; [simpl; lia|]. apply moved_works. by etrans.
  - exists [call]. split; [simpl; lia|]. apply (works_trans [call] [] _ s1); [|by apply moved_works].
    destruct (sent_backed _ _ _ _ Hd S) as [Hb _], S as [St Sp Sr (t & k & d & d1 & R & Hr & R')].
    split; [|done|done|by constructor|apply NoDup_singleton]. destruct Hb as (? & ? & Ra & [(? & ? & ? & Hx) _] & Rb).
    etrans; [exact Ra|]. etrans; [|exact Rb]. exists [OpReserve x1 (tc_outbox_id call) x2 x3]. simpl. by rewrite Hx.
Qed.

Lemma reaches_reachable d d' : reaches d d' -> reachable d -> reachable d'.
Proof. intros [ops ->] [ops0 ->]. exists (ops0 ++ ops). by rewrite exec_app. Qed.

Lemma dispatch_items_works group items s r s' :
  reachable (database s) ->
  dispatch_items c compute_backoff convert_destination convert_context fromisoformat receipt_floats isoformat
    describe group items s = (r, s') ->
  exists calls, (length calls <= length items)%nat /\ (group = true -> calls = []) /\ works calls s s'.
Proof.
  revert s r s'. induction items as [|item rest IH]; intros s r s' Hd H.
  { injection H as _ <-. exists []. split_and!; [done..|]. by apply moved_works. }
  cbn [dispatch_items] in H. apply act_bind_run in H as [(e & [=] & _)|(stop & s1 & E & H)].
  pose proof (quiet_run shutdown_requested _ _ _ E) as M. assert (database s1 = database s) as Hdb by (by injection E as _ <-).
  destruct stop; [|destruct group].
  - exists []. split_and!; [simpl; lia|done|]. apply moved_works. etrans; [exact M|].
    exact (quiet_run (release_unstarted_claims (item :: rest) ≫= _) _ _ _ H).
  - apply act_bind_run in H as [(e & [=] & _)|(u & s2 & E2 & H)].
    pose proof (quiet_run (start_task item) _ _ _ E2) as M2.
    assert (exists r', dispatch_items c compute_backoff convert_destination convert_context fromisoformat
      receipt_floats isoformat describe true rest s2 = (r', s')) as [r' H'].
    { apply act_bind_run in H as [(e & H & _)|(l & s3 & H & [= _ <-])]; eauto. }
    apply IH in H' as (calls & Hl & Hg & W).
    2: { eapply reaches_reachable; [|exact Hd]. rewrite <-Hdb. by eapply moved_reaches. }
    exists calls. split_and!; [simpl; lia|done|]. apply (works_trans [] calls _ s2); [|done]. apply moved_works. by etrans.
  - assert (exists s2 r2, dispatch c compute_backoff convert_destination convert_context fromisoformat
      receipt_floats isoformat describe item s1 = (r2, s2) /\
      (s' = s2 \/ exists r', dispatch_items c compute_backoff convert_destination convert_context
         fromisoformat receipt_floats isoformat describe false rest s2 = (r', s'))) as (s2 & r2 & H1 & H2).
    { apply act_bind_run in H as [(e & H & _)|(u & s2 & H1 & H)]; eauto 10. }
    rewrite <-Hdb in Hd. destruct (dispatch_works _ _ _ _ Hd H1) as (l1 & Hl1 & W1).
    assert (works l1 s s2) as W1' by (apply (works_trans [] l1 _ s1); [by apply moved_works|done]).
    destruct H2 as [->|[r' H2]]; [exists l1; split_and!; [simpl; lia|done|done]|].
    apply IH in H2 as (l2 & Hl2 & _ & W2); [|by eapply reaches_reachable; [apply W1|]].
    exists (l1 ++ l2). rewrite length_app. split_and!; [simpl; lia|done|]. by eapply works_trans.
Qed.

(** A batch is no larger than was asked for. *)
Lemma claim_due_length now name limit o w items w' :
  reachable (w_db w) -> 0 <= limit -> claim_due c now name limit o w = (Ok items, w') ->
  Z.of_nat (length items) <= limit.
Proof.
  intros Hd Hl H. unfold claim_due in H. step_proc H rows w1.
  match goal with L : later w w1, E : _ = (Ok rows, w1) |- _ => rename E into E1 end.
  apply query_Ok in E1 as (ops & [= E1] & _). assert (Z.of_nat (length rows) <= limit) as Hr.
  { rewrite <-E1. unfold claim_select. rewrite sql_limit_length by done. lia. }
  destruct (nonempty rows); cbn in H; [|injection H as <- _; simpl; lia].
  cbv zeta in H. step_proc H x w2. apply query_Ok in H as (ops2 & [= <-] & _).
  etrans; [|exact Hr]. apply Nat2Z.inj_le. rewrite <-(length_fmap (fun r : Row => outbox_id r) rows).
  unfold claim_reread. rewrite length_fmap.
  set (found := filter _ _). rewrite <-(length_fmap (fun r : Row => outbox_id r) found).
  apply submseteq_length, NoDup_submseteq.
  - eapply sublist_NoDup; [|apply fmap_sublist, sublist_filter].
    pose proof (exec_constraints ops2 (w_db w2)) as Hc. apply constraints_NoDup_ids in Hc.
    + by rewrite <-list_fmap_compose in Hc.
    + apply reachable_constraints. apply (reaches_reachable (w_db w)); [|done].
      repeat match goal with L : later _ _ |- _ => destruct L as [? L]; rewrite L; clear L end.
      etrans; by eexists.
  - intros id (r & -> & Hr')%list_elem_of_fmap. apply list_elem_of_filter in Hr' as [Hf _].
    rewrite !andb_true_iff in Hf. by apply elem_true, Hf.
Qed.

Lemma claim_batch_length group now s items s' :
  reachable (database s) -> 0 <= cf_batch_size c -> claim_batch c group now s = (Ok items, s') ->
  Z.of_nat (length items) <= cf_batch_size c.
Proof.
  intros Hd Hb H. unfold claim_batch in H. apply bind_Ok_run in H as (sc & s1 & [= <- <-] & H). cbv zeta in H.
  set (n := slots c group (rw_schedule (st_worker s))) in *.
  assert (0 <= n <= cf_batch_size c) as Hn by (unfold n, slots; destruct group; lia).
  destruct (n =? 0); [injection H as <- _; simpl; lia|].
  apply bind_Ok_run in H as (? & s1 & H1 & (u & s2 & H2 & H)%bind_Ok_run).
  assert (moved 0 s s1) as M1 by (clear H H2; revert H1; destruct (_ && group); apply quiet_run; apply _).
  assert (moved 0 s1 s2) as M2 by exact (quiet_run _ _ _ _ H2).
  apply lift_run in H. apply claim_due_length in H; [lia| |lia].
  eapply reaches_reachable; [|exact Hd]. etrans; by eapply moved_reaches.
Qed.

(** C10: A dispatch cycle, in which any other tasks may run and any storage call
    may fail, makes at most as many transport calls as a batch has rows (none
    itself when it only starts tasks), every call under an attempt number that
    was reserved in this cycle and that no other reservation of the row, before
    or after, ever shares; so no row and number is sent twice.  Every capacity
    permit taken is back, however the cycle ends. *)
Theorem retry_cycle_safe group now s r s' :
  reachable (database s) -> 0 <= cf_batch_size c -> cycle group now s = (r, s') ->
  exists calls, rw_transport (st_worker s') = rw_transport (st_worker s) ++ calls /\
    Z.of_nat (length calls) <= cf_batch_size c /\ (group = true -> calls = []) /\
    NoDup (call_key <$> calls) /\ Forall (backed (database s) (database s')) calls /\
    rw_permits (st_worker s') = rw_permits (st_worker s).
Proof.
  intros Hd Hb H. assert (exists calls, Z.of_nat (length calls) <= cf_batch_size c /\
    (group = true -> calls = []) /\ works calls s s') as (calls & Hl & Hg & []).
  { assert (forall s0, moved 0 s s0 -> exists calls, Z.of_nat (length calls) <= cf_batch_size c /\
      (group = true -> calls = []) /\ works calls s s0) as Hquiet.
    { intros s0 M. exists []. split_and!; [done..|by apply moved_works]. }
    unfold process_due in H. pose proof (moved_refl s) as M.
    eapply quiet_stage in H as [H|(u & s1 & _ & M1 & H)]; [by apply Hquiet| |apply _|exact M].
    eapply quiet_stage in H as [H|(u' & s2 & _ & M2 & H)]; [by apply Hquiet| |apply _|exact M1].
    eapply quiet_stage in H as [H|(items & s3 & E & M3 & H)]; [by apply Hquiet| |apply _|exact M2].
    apply claim_batch_length in E; [|by eapply reaches_reachable; [by eapply moved_reaches|]|done].
    eapply quiet_stage in H as [H|(u'' & s4 & _ & M4 & H)]; [by apply Hquiet| |destruct (nonempty items); apply _|exact M3].
    assert (exists r5 s5, dispatch_items c compute_backoff convert_destination convert_context fromisoformat
      receipt_floats isoformat describe group items s4 = (r5, s5) /\ moved 0 s5 s') as (r5 & s5 & H5 & M5).
    { apply act_bind_run in H as [(e & H & _)|(l & s5 & H & H6)]; [eauto using moved_refl|].
      exists (Ok l), s5. split; [done|]. exact (quiet_run (refresh_counts _ _ _ ≫= _) _ _ _ H6). }
    apply dispatch_items_works in H5 as (calls & Hl & Hg & W); [|by eapply reaches_reachable; [by eapply moved_reaches|]].
    exists calls. split_and!; [lia|done|]. rewrite <-(app_nil_r calls). eapply works_trans; [|by apply moved_works].
    apply (works_trans [] calls _ s4); [by apply moved_works|done]. }
  exists calls. split_and!; done.
Qed.
End worker.

(** ** Examples *)

Module WorkerExamples.
(** The accepted delivery after its first attempt failed. *)
Definition waiting : world :=
  {| w_db := exec [OpRetryWait 6000 "obox-0123456789abcdef-1" 7000 None (Some "adapter_transient") None None
                     (Some 1) None] (w_db RoundtripExamples.created.2);
     w_turns := []; w_clock := fun n => 9000 + Z.of_nat n;
     w_uuid := fun n => "fedcba9876543210-" +:+ py_str (Z.of_nat n) |}.

Definition receipt (item : Row) (n : Z) : DeliveryReceipt :=
  {| rc_sequence := 0; rc_receipt_id := "rcpt-2"; rc_event_id := event_id item;
     rc_delivery_plan_id := delivery_plan_id item; rc_target_adapter := target_adapter item;
     rc_target_channel := target_channel item; rc_route_id := route_id item; rc_status := "sent";
     rc_receipt_kind := Some "attempt"; rc_error := None; rc_failure_kind := None;
     rc_capability_level := None; rc_capability_field := None; rc_capability_reason := None;
     rc_delivery_strategy := None; rc_adapter_message_id := None; rc_next_retry_at := None;
     rc_attempt_number := n; rc_parent_receipt_id := None; rc_source := "retry";
     rc_replay_run_id := None; rc_retry_max_attempts := None; rc_retry_jitter := None;
     rc_rendering_evidence := None; rc_outbox_id := Some (outbox_id item);
     rc_confirmation_level := "unknown"; rc_created_at := 9000 |}.

(** A pipeline whose transport accepts everything. *)
Definition pipeline : RetryPipeline :=
  {| get_metadata := fun _ => mret (Some RoundtripExamples.event);
     read_event_for_outbox := fun _ _ => mret (EventRetained RoundtripExamples.event);
     acquire_delivery := mret true;
     prepare_initial_outbox_event := fun e => mret e;
     deliver_initial_outbox := fun _ _ _ _ _ w => (Ok tt, w);
     deliver_to_target := fun _ _ _ _ item n w => (Ok (receipt item n), w) |}.

Lemma pipeline_laws : RetryPipelineLaws pipeline.
Proof. split; intros; simpl; (apply _ || by exists []). Qed.

Definition settings : config :=
  {| cf_retries_enabled := true; cf_initial_dispatch := true; cf_interval := seconds 5; cf_batch_size := 20;
     cf_max_attempts := 3; cf_sweep_enabled := true; cf_sweep_limit := 50; cf_sweep_interval := seconds 60;
     cf_event_buffer := true; cf_delivery_limit := Some 4 |}.

Definition fresh : RetryWorker :=
  {| rw_state := {| rs_running := true; rs_abandoned := false; rs_previous_run_in_progress := Some 0;
       rs_last_run_at := None; rs_processed := 0; rs_succeeded := 0; rs_failed := 0; rs_dead_lettered := 0;
       rs_deadline_sweep_runs := 0; rs_deadline_sweep_errors := 0; rs_deadline_retired := 0 |};
     rw_schedule := {| sc_active := []; sc_deferred := []; sc_next_retry_scan := None; sc_next_sweep_at := None |};
     rw_census := {| cn_counts := []; cn_completed := false; cn_last_refresh := None; cn_dirty := false;
                     cn_generation := 0 |};
     rw_task := true; rw_available := Some ["mesh"]; rw_shutdown := fun _ => false;
     rw_emitted := []; rw_transport := []; rw_permits := 0 |}.

Definition undecodable {A B} (_ : A) : result exc B := Raise (ValueError "undecodable").

Definition start : site := {| st_worker := fresh; st_world := waiting; st_cursor := None |}.

Abbreviation cycle := (process_due (Pipe := pipeline) settings (fun _ _ => seconds 2) RoundtripExamples.convert
  undecodable undecodable (fun _ => (None, None)) (fun _ => "") (fun _ => "") false 9000 start).

Lemma start_reachable : reachable (w_db (st_world start)).
Proof.
  assert (reachable (w_db RoundtripExamples.created.2)) as H.
  { destruct RoundtripExamples.created as [r w] eqn:E.
    destruct (traced_run (create_for_delivery (fun _ => []) RoundtripExamples.event RoundtripExamples.route
      RoundtripExamples.plan RoundtripExamples.target "mesh" "live" None false) _ _ _ E) as [ops L].
    apply (reaches_reachable (w_db RoundtripExamples.start)); [by exists ops|].
    exists [OpEnvironment [ev_event_id RoundtripExamples.event] [] []]. exact eq_refl. }
  revert H. apply reaches_reachable. eexists. exact eq_refl.
Qed.
End WorkerExamples.

(** The waiting row is claimed, sent under attempt 2 and settled; the permit is
    back. *)
Lemma retry_cycle_safe_witness :
  (call_key <$> rw_transport (st_worker WorkerExamples.cycle.2)) = [("obox-0123456789abcdef-1", 2)] /\
  rw_permits (st_worker WorkerExamples.cycle.2) = 0.
Proof.
  assert ((call_key <$> rw_transport (st_worker WorkerExamples.cycle.2)) =
          [("obox-0123456789abcdef-1", 2)]) as H by (vm_compute; reflexivity).
  split; [exact H|]. destruct WorkerExamples.cycle as [r s'] eqn:E.
  destruct (retry_cycle_safe (Laws := WorkerExamples.pipeline_laws) WorkerExamples.settings
    (fun _ _ => seconds 2) RoundtripExamples.convert WorkerExamples.undecodable WorkerExamples.undecodable
    (fun _ => (None, None)) (fun _ => "") (fun _ => "") false 9000 WorkerExamples.start r s')
    as (calls & _ & _ & _ & _ & _ & Hp).
  - exact WorkerExamples.start_reachable.
  - discriminate.
  - exact E.
  - exact Hp.
Defined.

Module ItemExamples.
(** The row after a worker claimed it. *)
Definition claimed : site :=
  {| st_worker := WorkerExamples.fresh;
     st_world := {| w_db := exec [OpClaim Examples.all_work 9000 (9000 + seconds 60) "retry-worker-1"
                                    ["obox-0123456789abcdef-1"]] (w_db WorkerExamples.waiting);
                    w_turns := []; w_clock := w_clock WorkerExamples.waiting;
                    w_uuid := w_uuid WorkerExamples.waiting |};
     st_cursor := None |}.

Definition item : Row := default (item_row (Examples.item "none" 0 "pending" None None) 0 Pending "live" 0)
  (get_outbox_item (w_db (st_world claimed)) "obox-0123456789abcdef-1").

Abbreviation worked := (retry_outbox_item (Pipe := WorkerExamples.pipeline) WorkerExamples.settings
  (fun _ _ => seconds 2) RoundtripExamples.convert WorkerExamples.undecodable WorkerExamples.undecodable
  (fun _ => (None, None)) (fun _ => "") (fun _ => "") item claimed).
End ItemExamples.

Lemma retry_item_dispatches_once_witness :
  length (rw_transport (st_worker ItemExamples.worked.2)) = 1%nat /\
  rw_permits (st_worker ItemExamples.worked.2) = 0 /\
  exists call, rw_transport (st_worker ItemExamples.worked.2) = [call] /\ tc_outbox_id call = outbox_id ItemExamples.item.
Proof.
  assert (length (rw_transport (st_worker ItemExamples.worked.2)) = 1%nat) as H by (vm_compute; reflexivity).
  split; [exact H|]. destruct ItemExamples.worked as [r s'] eqn:E. cbn [snd] in H.
  destruct (retry_item_dispatches_once (Laws := WorkerExamples.pipeline_laws) WorkerExamples.settings
    (fun _ _ => seconds 2) RoundtripExamples.convert WorkerExamples.undecodable WorkerExamples.undecodable
    (fun _ => (None, None)) (fun _ => "") (fun _ => "") ItemExamples.item ItemExamples.claimed r s')
    as [Hp [Ht|(call & Ht & Hid & _)]].
  - apply (reaches_reachable _ _ (ex_intro _ _ eq_refl) WorkerExamples.start_reachable).
  - exact E.
  - exfalso. rewrite Ht in H. discriminate H.
  - split; [exact Hp|]. exists call. split; [exact Ht|exact Hid].
Defined.
