(* ===== verification/RadioProgress.v ===== *)
(** * Radio plans and their progress

    The values a multipart radio delivery is made of: the wire plan
    ([src/src/medre/core/rendering/radio_text.py], its two dataclasses), the
    progress of its parts over one attempt ([rendering/radio_progress.py]), the
    stored checkpoint ([storage/radio.py]) and the hand-off facts it retains
    ([storage/radio_handoff.py]).

    Planning itself ([plan_radio_text]: fragmenting UTF-8 text) and the JSON
    codec of the facts (msgspec) are arguments. *)

From S2P Require Import Prelude.
From S2P Require Import Json.
From S2P Require Import JsonText.
From S2P Require Import Delivery.
From S2P Require Import DeliveryContracts.

Open Scope string_scope.
Open Scope list_scope.
Open Scope Z_scope.

(** ** Plans *)

Record RadioTextPart : Set := {
  tp_ordinal : Z;
  tp_body : string;
  tp_wire_text : string;
  tp_wire_bytes : Z;
  tp_wire_sha256 : string
}.

Record RadioTextPlan : Set := {
  tx_max_text_bytes : Z;
  tx_prefix : string;
  tx_source_sha256 : string;
  tx_parts : list RadioTextPart;
  tx_fingerprint : string;
  tx_schema_version : Z
}.

#[export] Instance RadioTextPart_eq_dec : EqDecision RadioTextPart.
Proof. solve_decision. Defined.
#[export] Instance RadioTextPlan_eq_dec : EqDecision RadioTextPlan.
Proof. solve_decision. Defined.

Definition MAX_RADIO_TEXT_PARTS : Z := 128.
Definition MAX_RADIO_SOURCE_BYTES : Z := 1048576.

(** ** Progress *)

Inductive RadioPartState : Set := PartUnsent | PartSubmitting | PartAccepted | PartUnknown.

#[export] Instance RadioPartState_eq_dec : EqDecision RadioPartState.
Proof. solve_decision. Defined.

Record RadioPartProgress : Set := {
  pg_ordinal : Z;
  pg_state : RadioPartState;
  pg_handoff_id : option string
}.

Definition RadioPartProgress_init (p : RadioPartProgress) : result exc RadioPartProgress :=
  if negb ((1 <=? pg_ordinal p) && (pg_ordinal p <=? MAX_RADIO_TEXT_PARTS))
  then Raise (ValueError "invalid radio part ordinal")
  else if negb (Bool.eqb (bool_decide (pg_state p = PartAccepted)) (bool_decide (pg_handoff_id p <> None)))
  then Raise (ValueError "accepted radio part requires an exclusive handoff ID")
  else if match pg_handoff_id p with
          | Some t => negb (truthy (py_strip t)) || (1024 <? Z.of_nat (String.length t))
          | None => false end
  then Raise (ValueError "invalid radio native handoff reference")
  else Ok p.

Record RadioAttemptProgress : Set := {
  rp_outbox_id : string;
  rp_attempt_number : Z;
  rp_plan : RadioTextPlan;
  rp_parts : list RadioPartProgress
}.

(** The first part that is not accepted owns the boundary; the parts after it
    are unsent. *)
Fixpoint accepted_prefix (blocked : bool) (parts : list RadioPartProgress) : bool :=
  match parts with
  | [] => true
  | p :: rest =>
      negb (blocked && negb (bool_decide (pg_state p = PartUnsent))) &&
      accepted_prefix (blocked || negb (bool_decide (pg_state p = PartAccepted))) rest
  end.

Definition handoff_complete (p : RadioAttemptProgress) : bool :=
  forallb (fun q => bool_decide (pg_state q = PartAccepted)) (rp_parts p).

Fixpoint first_unsent (parts : list RadioPartProgress) : option Z :=
  match parts with
  | [] => None
  | p :: rest =>
      match pg_state p with
      | PartUnsent => Some (pg_ordinal p)
      | PartAccepted => first_unsent rest
      | _ => None
      end
  end.

Definition next_unsent (p : RadioAttemptProgress) : option Z := first_unsent (rp_parts p).

Section progress.
(** [plan == plan_radio_text(...)] of the plan's own bodies, budget and prefix. *)
Context (plan_reproduces : RadioTextPlan -> bool).

(** [__post_init__]; types are given by the records. *)
Definition RadioAttemptProgress_init (p : RadioAttemptProgress) : result exc RadioAttemptProgress :=
  let parts := tx_parts (rp_plan p) in
  if negb (truthy (rp_outbox_id p)) || (1024 <? Z.of_nat (String.length (rp_outbox_id p)))
  then Raise (ValueError "outbox identity is required")
  else if rp_attempt_number p <? 1 then Raise (ValueError "attempt generation must be positive")
  else if negb (tx_schema_version (rp_plan p) =? 1)
  then Raise (ValueError "radio attempt requires a typed immutable wire plan")
  else if negb ((1 <=? Z.of_nat (length parts)) && (Z.of_nat (length parts) <=? MAX_RADIO_TEXT_PARTS) &&
                (foldr Z.add 0 ((fun q => Z.of_nat (String.length (tp_body q))) <$> parts) <=? MAX_RADIO_SOURCE_BYTES))
  then Raise (ValueError "radio attempt plan exceeds bounded source limits")
  else if negb (plan_reproduces (rp_plan p))
  then Raise (ValueError "radio attempt plan does not match source and wire digests")
  else if negb (Nat.eqb (length (rp_parts p)) (length parts))
  then Raise (ValueError "radio attempt progress does not cover every part")
  else if negb (bool_decide (pg_ordinal <$> rp_parts p = seqZ 1 (Z.of_nat (length (rp_parts p)))))
  then Raise (ValueError "radio attempt ordinals are not contiguous")
  else if negb (accepted_prefix false (rp_parts p))
  then Raise (ValueError "accepted parts must form a prefix; later parts remain unsent")
  else Ok p.

(** [_replace_part]: another validated snapshot. *)
Definition replace_part (p : RadioAttemptProgress) (ordinal : Z) (q : RadioPartProgress)
    : result exc RadioAttemptProgress :=
  RadioAttemptProgress_init
    {| rp_outbox_id := rp_outbox_id p; rp_attempt_number := rp_attempt_number p; rp_plan := rp_plan p;
       rp_parts := <[Z.to_nat (ordinal - 1) := q]> (rp_parts p) |}.

Definition bind_progress (outbox : string) (attempt : Z) (plan : RadioTextPlan)
    : result exc RadioAttemptProgress :=
  RadioAttemptProgress_init
    {| rp_outbox_id := outbox; rp_attempt_number := attempt; rp_plan := plan;
       rp_parts := (fun q => {| pg_ordinal := tp_ordinal q; pg_state := PartUnsent; pg_handoff_id := None |})
                     <$> tx_parts plan |}.

Definition begin_progress (p : RadioAttemptProgress) (ordinal : Z) : result exc RadioAttemptProgress :=
  if negb (bool_decide (next_unsent p = Some ordinal))
  then Raise (ValueError "radio part not eligible for native submission")
  else
    q ← RadioPartProgress_init {| pg_ordinal := ordinal; pg_state := PartSubmitting; pg_handoff_id := None |};
    replace_part p ordinal q.

Definition observe_progress (p : RadioAttemptProgress) (ordinal : Z) (handoff : option string)
    : result exc RadioAttemptProgress :=
  if negb ((1 <=? ordinal) && (ordinal <=? Z.of_nat (length (rp_parts p))))
  then Raise (ValueError "radio part ordinal does not belong to this attempt")
  else if negb (bool_decide (pg_state <$> rp_parts p !! Z.to_nat (ordinal - 1) = Some PartSubmitting))
  then Raise (ValueError "radio part has no active native submission")
  else
    q ← RadioPartProgress_init
      {| pg_ordinal := ordinal; pg_handoff_id := handoff;
         pg_state := match handoff with Some _ => PartAccepted | None => PartUnknown end |};
    replace_part p ordinal q.

(** A crash during a native call is unknown. *)
Definition after_restart (p : RadioAttemptProgress) : result exc RadioAttemptProgress :=
  match List.find (fun q => bool_decide (pg_state q = PartSubmitting)) (rp_parts p) with
  | None => Ok p
  | Some q =>
      u ← RadioPartProgress_init {| pg_ordinal := pg_ordinal q; pg_state := PartUnknown; pg_handoff_id := None |};
      replace_part p (pg_ordinal q) u
  end.

(** ** Checkpoints *)

Record StoredRadioAttempt : Set := {
  sr_provenance : DeliveryAttemptProvenance;
  sr_progress : RadioAttemptProgress;
  sr_revision : Z
}.

Definition transitions (s : RadioPartState) : Z :=
  match s with PartUnsent => 0 | PartSubmitting => 1 | _ => 2 end.

Definition StoredRadioAttempt_init (a : StoredRadioAttempt) : result exc StoredRadioAttempt :=
  _ ← RadioAttemptProgress_init (sr_progress a);
  if negb (bool_decide (pv_outbox_id (sr_provenance a) = rp_outbox_id (sr_progress a)) &&
           (pv_attempt_number (sr_provenance a) =? rp_attempt_number (sr_progress a)) &&
           (sr_revision a =? foldr Z.add 0 ((fun q => transitions (pg_state q)) <$> rp_parts (sr_progress a))))
  then Raise (ValueError "radio checkpoint identity or revision is inconsistent")
  else Ok a.

Lemma progress_init_Ok p p' :
  RadioAttemptProgress_init p = Ok p' ->
  p' = p /\ plan_reproduces (rp_plan p) = true /\ length (rp_parts p) = length (tx_parts (rp_plan p)) /\
  pg_ordinal <$> rp_parts p = seqZ 1 (Z.of_nat (length (rp_parts p))) /\
  accepted_prefix false (rp_parts p) = true /\ rp_parts p <> [].
Proof.
  unfold RadioAttemptProgress_init. cbv zeta. do 3 (case_match; [done|]).
  destruct (_ && _) eqn:Hn; [|done]. cbn [negb].
  destruct (plan_reproduces (rp_plan p)) eqn:Hr; [|done].
  destruct (Nat.eqb _ _) eqn:Hl; [|done]. destruct (bool_decide _) eqn:Ho; [|done].
  destruct (accepted_prefix _ _) eqn:Ha; [|done]. cbn [negb]. intros [= <-].
  apply andb_true_iff in Hn as [[Hn _]%andb_true_iff _]. apply Z.leb_le in Hn.
  apply Nat.eqb_eq in Hl. apply bool_decide_eq_true in Ho. split_and!; try done.
  intros E. rewrite E in Hl. cbn [length] in Hl. lia.
Qed.

Lemma stored_init_Ok a a' :
  StoredRadioAttempt_init a = Ok a' -> a' = a /\ RadioAttemptProgress_init (sr_progress a) = Ok (sr_progress a).
Proof.
  unfold StoredRadioAttempt_init. intros (p & Hp & H)%bind_Ok. pose proof Hp as (-> & _)%progress_init_Ok.
  case_match; [done|]. by injection H as <-.
Qed.
End progress.

(** ** Hand-off facts *)

Record RadioLocalHandoff : Set := {
  lh_ordinal : Z;
  lh_native_message_id : option string;
  lh_native_channel_id : option string;
  lh_confirmation_level : string;
  lh_origin : option (string * Z);
  lh_payload_fingerprint : option string
}.

(** [from_part]; [decode] is [msgspec.json.decode]. *)
Definition from_part (decode : string -> option RadioLocalHandoff) (p : RadioPartProgress)
    (v : DeliveryAttemptProvenance) : result exc RadioLocalHandoff :=
  match bool_decide (pg_state p = PartAccepted), pg_handoff_id p with
  | true, Some text =>
      match decode text with
      | None => Raise (ValueError "msgspec.DecodeError")
      | Some h =>
          if negb (lh_ordinal h =? pg_ordinal p)
          then Raise (ValueError "radio handoff ordinal or original claim is invalid")
          else Ok {| lh_ordinal := lh_ordinal h; lh_native_message_id := lh_native_message_id h;
                     lh_native_channel_id := lh_native_channel_id h;
                     lh_confirmation_level := lh_confirmation_level h;
                     lh_origin := Some (default (pv_outbox_id v, pv_attempt_number v) (lh_origin h));
                     lh_payload_fingerprint := lh_payload_fingerprint h |}
      end
  | _, _ => Raise (ValueError "radio continuation requires accepted local handoffs")
  end.

(** [handoff]. *)
Definition local_handoff (h : RadioLocalHandoff) : AdapterHandoffResult :=
  {| hr_disposition := "transport_handoff"; hr_native_message_id := lh_native_message_id h;
     hr_native_channel_id := lh_native_channel_id h; hr_native_thread_id := None;
     hr_native_relation_id := None; hr_confirmation_level := lh_confirmation_level h;
     hr_note := ""; hr_metadata := [] |}.

(** [plain_channel_payload_fingerprint] of a nonnegative channel. *)
Definition plain_channel_payload_fingerprint (sha256 : string -> string) (channel : Z) : string :=
  sha256 (json_dumps (JObj [("channel_index", JInt channel)])).

(** ** What progress promises *)

Section promises.
Context (plan_reproduces : RadioTextPlan -> bool).
Abbreviation valid p := (RadioAttemptProgress_init plan_reproduces p = Ok p).

Lemma first_unsent_elem parts n :
  first_unsent parts = Some n -> exists i p, parts !! i = Some p /\ pg_ordinal p = n /\ pg_state p = PartUnsent /\
    forall j q, parts !! j = Some q -> (j < i)%nat -> pg_state q = PartAccepted.
Proof.
  induction parts as [|p parts IH]; [done|]. simpl. destruct (pg_state p) eqn:Hs; try done.
  - intros [= <-]. exists 0%nat, p. split_and!; [done..|lia].
  - intros (i & q & Hi & Hn & Hq & Hacc)%IH. exists (S i), q. split_and!; [done..|].
    intros [|j] q' Hj Hlt; [by simplify_eq/=|]. eapply Hacc; [done|lia].
Qed.

Lemma next_unsent_part p n :
  valid p -> next_unsent p = Some n ->
  exists q, rp_parts p !! Z.to_nat (n - 1) = Some q /\ pg_state q = PartUnsent /\
    forall j q', rp_parts p !! j = Some q' -> (j < Z.to_nat (n - 1))%nat -> pg_state q' = PartAccepted.
Proof.
  intros (_ & _ & _ & Hord & _ & _)%progress_init_Ok (i & q & Hi & Hn & Hq & Hacc)%first_unsent_elem.
  assert ((pg_ordinal <$> rp_parts p) !! i = Some n) as Hl by by rewrite list_lookup_fmap, Hi, <- Hn.
  rewrite Hord in Hl. apply lookup_seqZ in Hl as [-> _]. replace (Z.to_nat (1 + Z.of_nat i - 1)) with i by lia. eauto.
Qed.

(** A grant is given for the next unsent part only, when every part before it
    is accepted: an accepted, submitting or unknown part is never submitted
    again, and an unknown part blocks the rest of the plan. *)
Theorem begin_progress_next p n p' :
  valid p -> begin_progress plan_reproduces p n = Ok p' ->
  (exists q, rp_parts p !! Z.to_nat (n - 1) = Some q /\ pg_state q = PartUnsent) /\
  (forall j q, rp_parts p !! j = Some q -> (j < Z.to_nat (n - 1))%nat -> pg_state q = PartAccepted) /\
  rp_plan p' = rp_plan p /\
  rp_parts p' = <[Z.to_nat (n - 1) := {| pg_ordinal := n; pg_state := PartSubmitting; pg_handoff_id := None |}]>
                  (rp_parts p).
Proof.
  intros Hv H. unfold begin_progress in H. case_bool_decide as Hn; [|done]. cbn [negb] in H.
  destruct (next_unsent_part p n Hv Hn) as (q & Hq & Hs & Hacc).
  apply bind_Ok in H as (u & Hu & H). unfold RadioPartProgress_init in Hu.
  repeat (case_match; [done|]). injection Hu as <-.
  unfold replace_part in H. pose proof H as (-> & _)%progress_init_Ok. eauto 10.
Qed.

End promises.
