(* ===== verification/TargetDelivery.v ===== *)
(** * Delivery to one target

    [src/src/medre/core/engine/pipeline/target_delivery.py]: one execution of a
    delivery plan.  It checks the deadline, the content authority and the plan,
    renders, checks them again, hands the result to the adapter, and leaves a
    receipt of what happened.

    A multipart radio result goes through [engine/pipeline/radio_delivery.py],
    modelled here too: one adapter call per part that is not accepted yet, each
    native start behind a grant of its own.

    The adapters (third-party transports), the renderers, the tables of radio
    attempts and the content grants are reached through the class
    [TargetBackend].  An event in flight carries, beside the stored event, a fact about the target of each
    relation.  Times are in microseconds; logging and correlation scopes are
    left out, and error texts are abbreviated. *)

From S2P Require Import Prelude.
From S2P Require Import Json.
From S2P Require Import JsonText.
From S2P Require Import IsoTime.
From S2P Require Import Router.
From S2P Require Import Delivery.
From S2P Require Import Events.
From S2P Require Import Capability.
From S2P Require Import DeliveryPlan.
From S2P Require Import DeliveryContracts.
From S2P Require Import Store.
From S2P Require Import Outbox.
From S2P Require Import OutboxProofs.
From S2P Require Import Receipts.
From S2P Require Import StorageProgram.
From S2P Require Import ReceiptFactory.
From S2P Require Import DeliveryLifecycle.
From S2P Require Import RadioProgress.

Open Scope string_scope.
Open Scope list_scope.
Open Scope Z_scope.

(** ** Mutations in flight *)

(** [RelationTargetFact], as far as delivery looks at it. *)
Record RelationTargetFact : Set := { tf_status : string; tf_reason : option string }.

(** An event with the facts of its relations, in order. *)
Record EnrichedEvent : Type := { en_event : CanonicalEvent; en_facts : list (option RelationTargetFact) }.

Definition MUTATION_RELATION_TYPES : list string := ["edit"; "delete"].
Definition RELATION_TARGET_NOT_BINDABLE_PREFIX : string := "relation_target_not_bindable".

Definition is_mutation (r : EventRelation) : bool := elem (rl_type r) MUTATION_RELATION_TYPES.

Definition unbound_error (fact : option RelationTargetFact) : option string :=
  match fact with
  | None => Some (RELATION_TARGET_NOT_BINDABLE_PREFIX +:+ ":binding_unavailable:no_binding_fact")
  | Some f =>
      if bool_decide (tf_status f = "bound_owned") then None
      else Some (RELATION_TARGET_NOT_BINDABLE_PREFIX +:+ ":" +:+
                 match opt_or_none (tf_reason f) with Some r => r | None => tf_status f end)
  end.

Fixpoint first_unbound (relations : list EventRelation) (facts : list (option RelationTargetFact))
    : option string :=
  match relations with
  | [] => None
  | r :: rest =>
      let fact := match facts with f :: _ => f | [] => None end in
      if is_mutation r then
        match unbound_error fact with
        | Some e => Some e
        | None => first_unbound rest (tail facts)
        end
      else first_unbound rest (tail facts)
  end.

Definition mutation_binding_suppression_error (e : EnrichedEvent) : option string :=
  first_unbound (ev_relations (en_event e)) (en_facts e).

(** ** Rendering results *)

Record RenderingResult : Type := {
  rd_event_id : string;
  rd_target_adapter : string;
  rd_target_channel : option string;
  rd_payload : list (string * json);
  rd_metadata : list (string * json);
  rd_truncated : bool;
  rd_fallback_applied : option string;
  rd_rendering_evidence : option (list (string * json));
  rd_delivery_plan_id : option string;
  rd_outbox_id : option string;
  rd_attempt_number : option Z;
  rd_attempt_provenance : option DeliveryAttemptProvenance;
  rd_radio_plan : option RadioTextPlan
}.

(** [__post_init__]. *)
Definition RenderingResult_init (r : RenderingResult) : result exc RenderingResult :=
  if match rd_attempt_number r with Some n => n <? 1 | None => false end
  then Raise (ValueError "attempt_number must be >= 1")
  else match rd_attempt_provenance r with
  | None =>
      if bool_decide (rd_outbox_id r <> None)
      then Raise (ValueError "outbox-backed RenderingResult requires attempt_provenance")
      else Ok r
  | Some p =>
      if negb (bool_decide (rd_event_id r = pv_event_id p))
      then Raise (ValueError "attempt_provenance event_id does not match render result")
      else if negb (bool_decide (rd_target_adapter r = pv_target_adapter p))
      then Raise (ValueError "attempt_provenance target_adapter does not match render result")
      else if negb (bool_decide (opt_or_none (rd_target_channel r) = pv_target_channel p))
      then Raise (ValueError "attempt_provenance target_channel does not match render result")
      else if outside (rd_delivery_plan_id r) [pv_delivery_plan_id p] ||
              outside (rd_outbox_id r) [pv_outbox_id p] ||
              match rd_attempt_number r with Some n => negb (n =? pv_attempt_number p) | None => false end
      then Raise (ValueError "attempt_provenance does not match render result")
      else Ok {| rd_event_id := rd_event_id r; rd_target_adapter := rd_target_adapter r;
                 rd_target_channel := rd_target_channel r; rd_payload := rd_payload r;
                 rd_metadata := rd_metadata r; rd_truncated := rd_truncated r;
                 rd_fallback_applied := rd_fallback_applied r;
                 rd_rendering_evidence := rd_rendering_evidence r;
                 rd_delivery_plan_id := Some (pv_delivery_plan_id p);
                 rd_outbox_id := Some (pv_outbox_id p);
                 rd_attempt_number := Some (pv_attempt_number p);
                 rd_attempt_provenance := Some p; rd_radio_plan := rd_radio_plan r |}
  end.

Definition rendering_result_identity_mismatch (result : RenderingResult) (event adapter : string)
    (channel : option string) : option string :=
  if negb (bool_decide (rd_event_id result = event)) then Some "event_id mismatch"
  else if negb (bool_decide (rd_target_adapter result = adapter)) then Some "target_adapter mismatch"
  else if negb (bool_decide (opt_or_none (rd_target_channel result) = opt_or_none channel))
  then Some "target_channel mismatch"
  else None.

(** ** Errors *)

(** [_AdapterDeliveryError], [_RendererDeliveryError], and any other exception
    with the retry hint an [AdapterSendError] carries. *)
Inductive delivery_error : Type :=
| AdapterDeliveryError (adapter error : string) (original : option raised)
    (evidence : DeliveryExecutionEvidence)
| RendererDeliveryError (adapter error : string) (evidence : DeliveryExecutionEvidence)
| OtherError (e : raised) (retry_after : option Z).

Definition AdapterPermanentError (text : string) : delivery_error :=
  OtherError {| ex_type_name := "AdapterPermanentError"; ex_text := text;
                ex_adapter_send_error := Some false; ex_os_error := false |} None.

(** ** What an execution does *)

(** One call of an adapter's [deliver]: what it is given, the part of a radio
    plan it is for, and the clock read just before it (a part's native start
    reads its clocks in the grant). *)
Record native_call : Type := {
  nc_result : RenderingResult;
  nc_part : option Z;
  nc_started_at : option instant
}.

(** A native start granted to an adapter for one part: the last clock reading
    of the grant, when there is a deadline to compare it with. *)
Record radio_grant : Set := { rg_part : Z; rg_at : option instant }.

(** What the diagnostician is told: who failed, event, adapter and error. *)
Record failure_note : Set := { fn_by : string; fn_event : string; fn_adapter : string; fn_error : string }.

Record delivery_site : Type := {
  dv_world : world;
  dv_native : list native_call;
  dv_grants : list radio_grant;
  dv_notes : list failure_note
}.

Definition deliver (A : Type) : Type := delivery_site -> result delivery_error A * delivery_site.

#[export] Instance deliver_ret : MRet deliver := fun _ a s => (Ok a, s).
#[export] Instance deliver_bind : MBind deliver := fun _ _ k m s =>
  match m s with
  | (Ok a, s') => k a s'
  | (Raise e, s') => (Raise e, s')
  end.

Definition fail {A} (e : delivery_error) : deliver A := fun s => (Raise e, s).

Definition at_dworld (s : delivery_site) (w : world) : delivery_site :=
  {| dv_world := w; dv_native := dv_native s; dv_grants := dv_grants s; dv_notes := dv_notes s |}.

Definition note (n : failure_note) : deliver unit := fun s =>
  (Ok tt, {| dv_world := dv_world s; dv_native := dv_native s; dv_grants := dv_grants s;
             dv_notes := dv_notes s ++ [n] |}).

Definition log_native (n : native_call) : deliver unit := fun s =>
  (Ok tt, {| dv_world := dv_world s; dv_native := dv_native s ++ [n]; dv_grants := dv_grants s;
             dv_notes := dv_notes s |}).

Definition log_grant (g : radio_grant) : deliver unit := fun s =>
  (Ok tt, {| dv_world := dv_world s; dv_native := dv_native s; dv_grants := dv_grants s ++ [g];
             dv_notes := dv_notes s |}).

(** Code outside the service, which may raise anything. *)
Definition outside_call {A} (m : world -> result (raised * option Z) A * world) : deliver A := fun s =>
  match m (dv_world s) with
  | (Ok a, w) => (Ok a, at_dworld s w)
  | (Raise (e, hint), w) => (Raise (OtherError e hint), at_dworld s w)
  end.

(** The exceptions of the dispatch block: [_AdapterDeliveryError] passes. *)
Definition rescue {A} (m : deliver A) (h : raised -> option Z -> deliver A) : deliver A := fun s =>
  match m s with
  | (Raise (OtherError e hint), s') => h e hint s'
  | res => res
  end.

(** ** What it calls *)

(** [deliver] on a packet that carries a [before_native_send] callback: the
    adapter does what it likes, and may call back any number of times, learning
    each time whether the grant was given. *)
Inductive part_run : Type :=
| Finish (m : world -> result (raised * option Z) (option AdapterHandoffResult) * world)
| AskGrant (before : world -> world) (k : result delivery_error unit -> part_run).

Record adapter : Type := {
  ad_platform : option string;
  ad_capabilities : option AdapterCapabilities;
  ad_supports_radio_multipart : bool;
  ad_deliver : option (RenderingResult -> world ->
    result (raised * option Z) (option AdapterHandoffResult) * world);
  ad_deliver_part : RenderingResult -> part_run
}.

Record render_request : Type := {
  rq_event : EnrichedEvent;
  rq_adapter : string;
  rq_channel : option string;
  rq_platform : option string;
  rq_max_text_chars : json;
  rq_max_text_bytes : json;
  rq_strategy : string;
  rq_capability_level : string;
  rq_origin_label : option string;
  rq_destination : option RouteDestination
}.

Class TargetBackend : Type := {
  adapters : list (string * adapter);
  render : render_request -> world -> result (raised * option Z) RenderingResult * world;
  authorize_native_submission : string -> string -> string -> Z -> proc bool;
  observe_effective_dispatch_bound : string -> string -> proc (option instant);
  get_latest_radio_attempt : string -> Z -> proc (option StoredRadioAttempt);
  bind_radio_attempt : DeliveryAttemptProvenance -> option string -> RadioTextPlan ->
    proc (option StoredRadioAttempt);
  resume_radio_attempt : DeliveryAttemptProvenance -> option string -> RadioTextPlan ->
    StoredRadioAttempt -> proc (option StoredRadioAttempt);
  begin_radio_part : StoredRadioAttempt -> string -> Z -> option instant -> proc (option StoredRadioAttempt);
  observe_radio_part : StoredRadioAttempt -> option string -> Z -> option string ->
    proc (option StoredRadioAttempt);
  (** [plan == plan_radio_text(...)] of its own bodies; SHA-256; the JSON codec
      of hand-off facts. *)
  plan_reproduces : RadioTextPlan -> bool;
  payload_sha256 : string -> string;
  encode_handoff : RadioLocalHandoff -> string;
  decode_handoff : string -> option RadioLocalHandoff;
  native_ref_persisted : string -> proc unit
}.

(** They change the outbox only through storage operations. *)
Definition orderly {E A} (m : world -> result E A * world) : Prop :=
  forall w, exists ops, w_db (m w).2 = exec ops (w_db w).

Fixpoint run_orderly (t : part_run) : Prop :=
  match t with
  | Finish m => orderly m
  | AskGrant before k => orderly (fun w => (Ok (E := exc) tt, before w)) /\ forall r, run_orderly (k r)
  end.

Class TargetBackendLaws (B : TargetBackend) : Prop := {
  render_orderly q : orderly (render q);
  authorize_traced e o k n :: Traced (authorize_native_submission e o k n);
  observe_bound_traced e o :: Traced (observe_effective_dispatch_bound e o);
  radio_attempt_traced o n :: Traced (get_latest_radio_attempt o n);
  bind_radio_traced v k p :: Traced (bind_radio_attempt v k p);
  resume_radio_traced v k p a :: Traced (resume_radio_attempt v k p a);
  begin_part_traced a k n t :: Traced (begin_radio_part a k n t);
  observe_part_traced a k n h :: Traced (observe_radio_part a k n h);
  (** [plan_radio_text] numbers its parts from one. *)
  plan_numbered p : plan_reproduces p = true ->
    tp_ordinal <$> tx_parts p = seqZ 1 (Z.of_nat (length (tx_parts p)));
  ref_persisted_traced e :: Traced (native_ref_persisted e);
  adapter_orderly id a f r : od_get id adapters = Some a -> ad_deliver a = Some f -> orderly (f r);
  adapter_part_orderly id a r : od_get id adapters = Some a -> run_orderly (ad_deliver_part a r)
}.

(** ** The execution *)

(** What [_deliver_to_target_scoped] is called with. *)
Record dispatch : Type := {
  dx_event : CanonicalEvent;
  dx_route : Route;
  dx_plan : DeliveryPlan;
  dx_render : EnrichedEvent;
  dx_previous : option DeliveryReceipt;
  dx_source : string;
  dx_run : option string;
  dx_outbox : option string;
  dx_reserved : option Z;
  dx_worker : option string;
  dx_receipt_id : string
}.

(** [deliver_execution]: the arguments of one delivery. *)
Record execution : Type := {
  ex_event : CanonicalEvent;
  ex_route : Route;
  ex_plan : DeliveryPlan;
  ex_render : option EnrichedEvent;
  ex_previous : option DeliveryReceipt;
  ex_source : string;
  ex_run : option string;
  ex_outbox : option string;
  ex_reserved : option Z;
  ex_worker : option string
}.

(** What is dispatched under a fresh receipt identifier. *)
Definition dispatch_of (e : execution) (source : string) (run : option string) (receipt : string) : dispatch :=
  {| dx_event := ex_event e; dx_route := ex_route e; dx_plan := ex_plan e;
     dx_render := default {| en_event := ex_event e; en_facts := [] |} (ex_render e);
     dx_previous := ex_previous e; dx_source := source; dx_run := run; dx_outbox := ex_outbox e;
     dx_reserved := ex_reserved e; dx_worker := ex_worker e; dx_receipt_id := receipt |}.

Definition dx_attempt (x : dispatch) : Z :=
  match dx_reserved x with Some n => n | None => (compute_attempt_context (dx_previous x)).1 end.
Definition dx_parent (x : dispatch) : option string := (compute_attempt_context (dx_previous x)).2.
Definition dx_adapter (x : dispatch) : string := opt_or_empty (rt_adapter (pl_target (dx_plan x))).
Definition dx_channel (x : dispatch) : option string := rt_channel (pl_target (dx_plan x)).

(** The receipt of this attempt. *)
Definition attempt_args (x : dispatch) (status : string) (kind error failure : option string)
    (next : option instant) (message evidence : option string) (confirmation : string) : receipt_args :=
  {| ra_event_id := ev_event_id (dx_event x); ra_delivery_plan_id := pl_plan_id (dx_plan x);
     ra_target_adapter := dx_adapter x; ra_target_channel := dx_channel x;
     ra_route_id := rte_id (dx_route x); ra_status := status; ra_receipt_kind := kind;
     ra_source := dx_source x; ra_replay_run_id := dx_run x; ra_attempt_number := dx_attempt x;
     ra_parent_receipt_id := dx_parent x; ra_error := error; ra_failure_kind := failure;
     ra_capability := plan_capability_receipt_fields (dx_plan x); ra_adapter_message_id := message;
     ra_next_retry_at := next; ra_retry_max_attempts := (extract_retry_fields (dx_plan x)).1;
     ra_retry_jitter := (extract_retry_fields (dx_plan x)).2; ra_rendering_evidence := evidence;
     ra_outbox_id := dx_outbox x; ra_confirmation_level := confirmation; ra_sequence := 0 |}.

(** The instant of an aware datetime. *)
Definition py_instant (t : PyDatetime) : option instant :=
  (fun offset => instant_of (py_local t) - seconds offset) <$> py_utcoffset t.

Definition DISPATCH_START_DEADLINE_ERROR : string := "Delivery deadline exceeded before native submission".

Section service.
Context `{Backend : TargetBackend}.
Context (compute_backoff : RetryPolicy -> Z -> Z) (as_raised : exc -> raised).

Definition on_store {A} (p : proc A) : deliver A := fun s =>
  match p (dv_world s) with
  | (Ok a, w) => (Ok a, at_dworld s w)
  | (Raise e, w) => (Raise (OtherError (as_raised e) None), at_dworld s w)
  end.

Definition checked {A} (r : result exc A) : deliver A := on_store (of_result r).

Definition persist_failure_evidence (x : dispatch) (error : string) (kind : DeliveryFailureKind)
    (next created_at : option instant) : deliver DeliveryExecutionEvidence :=
  attempt ← on_store (build_delivery_receipt
    (attempt_args x "failed" None (Some error) (Some (failure_value kind)) next None None "unknown")
    (Some (dx_receipt_id x)) created_at);
  on_store (call (append_receipt attempt)) ;;
  authority ←
    (if is_terminal_failure kind next then
       lifecycle ← on_store (build_terminal_lifecycle_receipt attempt "dead_lettered" (Some error)
                               (Some (failure_value kind)));
       (if bool_decide (dx_outbox x = None) then on_store (call (append_receipt lifecycle)) else mret tt) ;;
       mret (Some lifecycle)
     else mret None);
  let evidence := {| xe_attempt_receipt := Some attempt; xe_authority_receipt := authority;
                     xe_failure_kind := Some kind; xe_error := Some error |} in
  checked (DeliveryExecutionEvidence_init evidence) ;; mret evidence.

Definition fail_adapter {A} (x : dispatch) (error : string) (kind : DeliveryFailureKind)
    (created_at : option instant) : deliver A :=
  evidence ← persist_failure_evidence x error kind None created_at;
  fail (AdapterDeliveryError (dx_adapter x) error None evidence).

Definition fail_renderer {A} (x : dispatch) (error : string) (kind : DeliveryFailureKind) : deliver A :=
  evidence ← persist_failure_evidence x error kind None None;
  fail (RendererDeliveryError (dx_adapter x) error evidence).

(** A refusal that leaves no receipt. *)
Definition refuse {A} (x : dispatch) (error : string) : deliver A :=
  fail (AdapterDeliveryError (dx_adapter x) error None
    {| xe_attempt_receipt := None; xe_authority_receipt := None;
       xe_failure_kind := Some DEADLINE_EXCEEDED; xe_error := Some error |}).

Definition planner_failed (x : dispatch) (error : string) : deliver unit :=
  note {| fn_by := "planner"; fn_event := ev_event_id (dx_event x); fn_adapter := ""; fn_error := error |}.
Definition renderer_failed (x : dispatch) (error : string) : deliver unit :=
  note {| fn_by := "renderer"; fn_event := ev_event_id (dx_event x); fn_adapter := dx_adapter x;
          fn_error := error |}.

(** [t >= plan.deadline]; comparing with a naive deadline raises. *)
Definition deadline_passed (x : dispatch) (t : instant) : deliver bool :=
  match pl_deadline (dx_plan x) with
  | None => mret false
  | Some deadline =>
      match py_instant deadline with
      | Some u => mret (u <=? t)
      | None => checked (Raise (TypeError "can't compare offset-naive and offset-aware datetimes"))
      end
  end.

(** [authorize_native_submission] for the row this execution owns. *)
Definition submission_authorized (x : dispatch) : deliver bool :=
  match dx_outbox x with
  | None => mret true
  | Some outbox =>
      match opt_or_none (dx_worker x), dx_reserved x with
      | Some worker, Some n =>
          on_store (authorize_native_submission (ev_event_id (dx_event x)) outbox worker n)
      | _, _ => mret false
      end
  end.

Definition observe_dispatch_start_bound (x : dispatch) : deliver (option instant) :=
  observed ← match dx_outbox x with
             | None => mret None
             | Some outbox => on_store (observe_effective_dispatch_bound (ev_event_id (dx_event x)) outbox)
             end;
  mret (match pl_deadline (dx_plan x) ≫= py_instant, (observed : option instant) with
        | Some t, Some u => Some (Z.min t u)
        | Some t, None => Some t
        | None, o => o
        end).

(** A suppression: the receipt is the result. *)
Definition suppress (x : dispatch) (error : string) : deliver DeliveryReceipt :=
  receipt ← on_store (build_delivery_receipt
    (attempt_args x "suppressed" (Some "lifecycle") (Some error)
       (Some (failure_value CAPABILITY_SUPPRESSED)) None None None "unknown")
    (Some (dx_receipt_id x)) None);
  on_store (call (append_receipt receipt)) ;; mret receipt.

Definition get_adapter_capabilities (x : dispatch) : AdapterCapabilities :=
  default AdapterCapabilities_default
    (resolve_adapter_capabilities ((fun kv => (kv.1, ad_capabilities kv.2)) <$> adapters) (pl_target (dx_plan x))).

Definition render_event (x : dispatch) (a : adapter) (level : string) : deliver RenderingResult :=
  rescue
    (outside_call (render
       {| rq_event := dx_render x; rq_adapter := dx_adapter x; rq_channel := dx_channel x;
          rq_platform := ad_platform a;
          rq_max_text_chars := cap_max_text_chars (get_adapter_capabilities x);
          rq_max_text_bytes := cap_max_text_bytes (get_adapter_capabilities x);
          rq_strategy := st_method (pl_primary_strategy (dx_plan x)); rq_capability_level := level;
          rq_origin_label := rs_origin_label (rte_source (dx_route x));
          rq_destination := rt_destination (pl_target (dx_plan x)) |}))
    (fun e _ =>
       let error := "Rendering failed: " +:+ ex_type_name e +:+ ": " +:+ ex_text e in
       renderer_failed x error ;; fail_renderer x error RENDERER_FAILURE).

(** The result bound to this attempt. *)
Definition bound_result (x : dispatch) (r : RenderingResult) : result exc RenderingResult :=
  match rendering_result_identity_mismatch r (ev_event_id (dx_event x)) (dx_adapter x) (dx_channel x) with
  | Some why => Raise (ValueError why)
  | None =>
      provenance ← match dx_outbox x with
                   | None => Ok None
                   | Some outbox =>
                       p ← DeliveryAttemptProvenance_init
                         {| pv_event_id := ev_event_id (dx_event x);
                            pv_delivery_plan_id := pl_plan_id (dx_plan x);
                            pv_target_adapter := dx_adapter x; pv_target_channel := dx_channel x;
                            pv_outbox_id := outbox; pv_attempt_number := dx_attempt x;
                            pv_source := dx_source x; pv_replay_run_id := dx_run x |};
                       Ok (Some p)
                   end;
      RenderingResult_init
        {| rd_event_id := rd_event_id r; rd_target_adapter := rd_target_adapter r;
           rd_target_channel := rd_target_channel r; rd_payload := rd_payload r;
           rd_metadata := rd_metadata r; rd_truncated := rd_truncated r;
           rd_fallback_applied := rd_fallback_applied r;
           rd_rendering_evidence := rd_rendering_evidence r;
           rd_delivery_plan_id := Some (pl_plan_id (dx_plan x)); rd_outbox_id := dx_outbox x;
           rd_attempt_number := Some (dx_attempt x); rd_attempt_provenance := provenance;
           rd_radio_plan := rd_radio_plan r |}
  end.

Definition bind_attempt (x : dispatch) (r : RenderingResult) : deliver RenderingResult :=
  match bound_result x r with
  | Ok bound => mret bound
  | Raise e =>
      let error := "Invalid rendering attempt provenance: " +:+ ex_text (as_raised e) in
      renderer_failed x error ;; fail_renderer x error RENDERER_FAILURE
  end.

(** *** Radio plans *)

Definition radio_started (a : StoredRadioAttempt) : bool :=
  existsb (fun q => negb (bool_decide (pg_state q = PartUnsent))) (rp_parts (sr_progress a)).

(** [_handoff_reference]. *)
Definition handoff_reference (h : AdapterHandoffResult) (ordinal : Z) (fingerprint : option string) : string :=
  encode_handoff {| lh_ordinal := ordinal; lh_native_message_id := hr_native_message_id h;
                    lh_native_channel_id := hr_native_channel_id h;
                    lh_confirmation_level := hr_confirmation_level h; lh_origin := None;
                    lh_payload_fingerprint := fingerprint |}.

(** [_continuation_payload_fingerprint]: only the text and a canonical channel
    number in the payload. *)
Definition continuation_payload_fingerprint (r : RenderingResult) : option string :=
  let keys := od_keys (rd_payload r) in
  if negb (forallb (fun k => elem k ["text"; "channel_index"]) keys && elem "text" keys && elem "channel_index" keys)
  then None
  else match od_get "channel_index" (rd_payload r) with
  | Some (JInt n) =>
      if (n <? 0) || negb (bool_decide (rd_target_channel r = Some (py_str n))) then None
      else Some (plain_channel_payload_fingerprint payload_sha256 n)
  | _ => None
  end.

(** The facts of the accepted parts agree with the payload. *)
Fixpoint accepted_facts_match (v : DeliveryAttemptProvenance) (fingerprint : string)
    (parts : list RadioPartProgress) : result exc bool :=
  match parts with
  | [] => Ok true
  | q :: rest =>
      if negb (bool_decide (pg_state q = PartAccepted)) then accepted_facts_match v fingerprint rest
      else
        fact ← from_part decode_handoff q v;
        if negb (bool_decide (lh_payload_fingerprint fact = Some fingerprint)) ||
           negb (elem (lh_native_channel_id fact) [None; pv_target_channel v])
        then Ok false
        else accepted_facts_match v fingerprint rest
  end.

(** [_matches_plain_channel]. *)
Definition matches_plain_channel (a : StoredRadioAttempt) (fingerprint : option string) : result exc bool :=
  let parts := rp_parts (sr_progress a) in
  let any st := existsb (fun q => bool_decide (pg_state q = st)) parts in
  match fingerprint with
  | None => Ok false
  | Some f =>
      if negb (any PartAccepted) || negb (any PartUnsent) || any PartSubmitting || any PartUnknown
      then Ok false
      else accepted_facts_match (sr_provenance a) f parts
  end.

(** [_Submission]: has the grant been asked for, and the stored submission. *)
Record grant : Type := { gt_entered : bool; gt_submitting : option StoredRadioAttempt }.

(** The clock against the deadline of the native start. *)
Definition check_radio_deadline (deadline : option instant) : deliver (option instant) :=
  match deadline with
  | None => mret None
  | Some d =>
      now ← on_store read_clock;
      if d <=? now
      then fail (AdapterPermanentError "radio delivery deadline exceeded before native submission")
      else mret (Some now)
  end.

(** [begin]: what the callback answers and the grant it leaves. *)
Definition begin_grant (checkpoint : StoredRadioAttempt) (worker : option string) (ordinal : Z)
    (deadline : option instant) (g : grant) (s : delivery_site)
    : result delivery_error unit * grant * delivery_site :=
  if gt_entered g
  then (Raise (AdapterPermanentError "radio native submission grant cannot be reused"), g, s)
  else
    let entered submitting := {| gt_entered := true; gt_submitting := submitting |} in
    match opt_or_none worker with
    | None => (Raise (AdapterPermanentError "radio native start requires a worker"), entered (gt_submitting g), s)
    | Some k =>
        match check_radio_deadline deadline s with
        | (Raise e, s1) => (Raise e, entered (gt_submitting g), s1)
        | (Ok _, s1) =>
            match on_store (begin_radio_part checkpoint k ordinal deadline) s1 with
            | (Raise e, s2) => (Raise e, entered (gt_submitting g), s2)
            | (Ok None, s2) =>
                (Raise (AdapterPermanentError "radio native start denied by authority, deadline or checkpoint"),
                 entered None, s2)
            | (Ok (Some a), s2) =>
                let '(r, s3) := (at_ ← check_radio_deadline deadline;
                                 log_grant {| rg_part := ordinal; rg_at := at_ |}) s2 in
                (r, entered (Some a), s3)
            end
        end
    end.

(** The adapter's run, its callbacks answered by [begin]. *)
Fixpoint run_part (begin : grant -> delivery_site -> result delivery_error unit * grant * delivery_site)
    (t : part_run) (g : grant) (s : delivery_site)
    : result delivery_error (option AdapterHandoffResult) * grant * delivery_site :=
  match t with
  | Finish m => let '(r, s') := outside_call m s in (r, g, s')
  | AskGrant before k =>
      let '(r, g', s') := begin g (at_dworld s (before (dv_world s))) in
      run_part begin (k r) g' s'
  end.

(** [replace(result, payload={**result.payload, "text": ...}, radio_plan=None)]. *)
Definition radio_packet (r : RenderingResult) (text : string) : RenderingResult :=
  {| rd_event_id := rd_event_id r; rd_target_adapter := rd_target_adapter r;
     rd_target_channel := rd_target_channel r; rd_payload := od_set "text" (JStr text) (rd_payload r);
     rd_metadata := rd_metadata r; rd_truncated := rd_truncated r;
     rd_fallback_applied := rd_fallback_applied r; rd_rendering_evidence := rd_rendering_evidence r;
     rd_delivery_plan_id := rd_delivery_plan_id r; rd_outbox_id := rd_outbox_id r;
     rd_attempt_number := rd_attempt_number r; rd_attempt_provenance := rd_attempt_provenance r;
     rd_radio_plan := None |}.

(** The body of the part's [try] block after the adapter returned. *)
Definition accept_part (g : grant) (worker : option string) (ordinal : Z) (fingerprint : option string)
    (handoff : option AdapterHandoffResult) : deliver (StoredRadioAttempt * AdapterHandoffResult) :=
  match gt_submitting g, handoff with
  | None, _ => fail (AdapterPermanentError "radio adapter skipped its native submission grant")
  | Some submitting, Some h =>
      if negb (bool_decide (hr_disposition h = "transport_handoff"))
      then fail (AdapterPermanentError "radio parts require synchronous handoff evidence")
      else
        accepted ← on_store (observe_radio_part submitting worker ordinal
                               (Some (handoff_reference h ordinal fingerprint)));
        match (accepted : option StoredRadioAttempt) with
        | None => fail (AdapterPermanentError "radio claim changed before handoff evidence committed")
        | Some a => mret (a, h)
        end
  | Some _, None => fail (AdapterPermanentError "radio parts require synchronous handoff evidence")
  end.

(** Its [except] clause: a started part is marked uncertain; only a transient
    refusal before the grant may leave a continuable tail. *)
Definition part_failed {A} (g : grant) (checkpoint : StoredRadioAttempt) (worker : option string) (ordinal : Z)
    (fingerprint : option string) (e : delivery_error) : deliver A :=
  match gt_submitting g with
  | Some submitting => on_store (try_except (observe_radio_part submitting worker ordinal None) (mret None)) ;; mret tt
  | None => mret tt
  end ;;
  let transient := match e with OtherError x _ => bool_decide (ex_adapter_send_error x = Some true) | _ => false end in
  let tail := match matches_plain_channel checkpoint fingerprint with Ok b => b | Raise _ => false end in
  if transient && negb (gt_entered g) && tail then fail e
  else if bool_decide (gt_submitting g <> None) || radio_started checkpoint
  then fail (AdapterPermanentError "radio handoff incomplete; retained native progress requires inspection")
  else fail e.

(** One part that is not accepted yet. *)
Definition deliver_part (a : adapter) (r : RenderingResult) (worker : option string) (deadline : option instant)
    (fingerprint : option string) (checkpoint : StoredRadioAttempt) (part : RadioTextPart)
    : deliver (StoredRadioAttempt * AdapterHandoffResult) := fun s =>
  let packet := radio_packet r (tp_wire_text part) in
  let ordinal := tp_ordinal part in
  let s0 := (log_native {| nc_result := packet; nc_part := Some ordinal; nc_started_at := None |} s).2 in
  let '(res, g, s1) := run_part (begin_grant checkpoint worker ordinal deadline) (ad_deliver_part a packet)
                         {| gt_entered := false; gt_submitting := None |} s0 in
  match (handoff ← (fun s => (res, s)) : deliver _; accept_part g worker ordinal fingerprint handoff) s1 with
  | (Ok x, s2) => (Ok x, s2)
  | (Raise e, s2) => part_failed g checkpoint worker ordinal fingerprint e s2
  end.

(** The loop over the parts and the progress it began with. *)
Fixpoint deliver_parts (a : adapter) (r : RenderingResult) (worker : option string) (deadline : option instant)
    (fingerprint : option string) (parts : list (RadioTextPart * RadioPartProgress))
    (checkpoint : StoredRadioAttempt) (confirmations : list AdapterHandoffResult)
    : deliver (StoredRadioAttempt * list AdapterHandoffResult) :=
  match parts with
  | [] => mret (checkpoint, confirmations)
  | (part, progress) :: rest =>
      if bool_decide (pg_state progress = PartAccepted)
      then deliver_parts a r worker deadline fingerprint rest checkpoint confirmations
      else
        '(checkpoint', handoff) ← deliver_part a r worker deadline fingerprint checkpoint part;
        deliver_parts a r worker deadline fingerprint rest checkpoint' (confirmations ++ [handoff])
  end.

(** [_CONFIRMATION_ORDER.index]. *)
Definition confirmation_rank (h : AdapterHandoffResult) : nat :=
  default 5%nat (fst <$> list_find (fun l => l = hr_confirmation_level h)
                   ["unknown"; "local_queue"; "local_transport"; "remote_service"; "end_to_end"]).

(** The weakest of a nonempty list, the first of several. *)
Definition weakest (h : AdapterHandoffResult) (rest : list AdapterHandoffResult) : AdapterHandoffResult :=
  foldl (fun best x => if (confirmation_rank x <? confirmation_rank best)%nat then x else best) h rest.

Fixpoint accepted_handoffs (v : DeliveryAttemptProvenance) (parts : list RadioPartProgress)
    : result exc (list AdapterHandoffResult) :=
  match parts with
  | [] => Ok []
  | q :: rest =>
      if negb (bool_decide (pg_state q = PartAccepted)) then accepted_handoffs v rest
      else
        fact ← from_part decode_handoff q v;
        more ← accepted_handoffs v rest;
        Ok (local_handoff fact :: more)
  end.

(** The checkpoint the driver works on: bound, or resumed from an eligible
    predecessor. *)
Definition open_radio_attempt (v : DeliveryAttemptProvenance) (worker : option string) (plan : RadioTextPlan)
    (resume : option StoredRadioAttempt) (fingerprint : option string) : deliver (option StoredRadioAttempt) :=
  match resume with
  | None => on_store (bind_radio_attempt v worker plan)
  | Some p =>
      match matches_plain_channel p fingerprint with
      | Raise _ => fail (AdapterPermanentError "radio continuation evidence is invalid")
      | Ok false =>
          fail (AdapterPermanentError "radio continuation requires plain channel text without native extras")
      | Ok true => on_store (resume_radio_attempt v worker plan p)
      end
  end.

(** The hand-off of the whole plan. *)
Definition aggregate_handoff (plan : RadioTextPlan) (confirmations : list AdapterHandoffResult)
    : result exc AdapterHandoffResult :=
  match confirmations with
  | [] => Raise (ValueError "min() arg is an empty sequence")
  | [h] => Ok h
  | h :: rest =>
      Ok {| hr_disposition := "transport_handoff"; hr_native_message_id := None; hr_native_channel_id := None;
            hr_native_thread_id := None; hr_native_relation_id := None;
            hr_confirmation_level := hr_confirmation_level (weakest h rest);
            hr_note := "All radio parts locally accepted; no whole-message native relation target";
            hr_metadata := [("radio", JObj [("schema_version", JInt 1);
              ("plan_fingerprint", JStr (tx_fingerprint plan));
              ("part_count", JInt (Z.of_nat (length (tx_parts plan)))); ("handoff_complete", JBool true)])] |}
  end.

(** A checkpoint is a validated [StoredRadioAttempt], so the strict [zip] of
    its plan and its progress covers both. *)
Definition deliver_radio_plan (a : adapter) (r : RenderingResult) (worker : option string)
    (deadline : option instant) (resume : option StoredRadioAttempt) : deliver AdapterHandoffResult :=
  match rd_radio_plan r, rd_attempt_provenance r with
  | Some plan, Some v =>
      let fingerprint := continuation_payload_fingerprint r in
      opened ← open_radio_attempt v worker plan resume fingerprint;
      match (opened : option StoredRadioAttempt) with
      | None => fail (AdapterPermanentError "radio plan is already bound or its claim is not owned")
      | Some unchecked =>
          checkpoint ← checked (StoredRadioAttempt_init plan_reproduces unchecked);
          let progress := sr_progress checkpoint in
          earlier ← checked (accepted_handoffs (sr_provenance checkpoint) (rp_parts progress));
          '(final, confirmations) ← deliver_parts a r worker deadline fingerprint
            (zip (tx_parts (rp_plan progress)) (rp_parts progress)) checkpoint earlier;
          if negb (handoff_complete (sr_progress final))
          then fail (AdapterPermanentError "radio handoff did not cover the whole plan")
          else checked (aggregate_handoff (rp_plan progress) confirmations)
      end
  | _, _ => fail (AdapterPermanentError "radio plans require an exact durable attempt")
  end.

(** *** Dispatch *)

(** The attempt a retry of a radio plan continues. *)
Definition radio_predecessor (x : dispatch) (r : RenderingResult) : deliver (option StoredRadioAttempt) :=
  match bool_decide (dx_source x = "retry"), dx_outbox x, dx_reserved x with
  | true, Some outbox, Some n =>
      predecessor ← on_store (get_latest_radio_attempt outbox n);
      match (predecessor : option StoredRadioAttempt) with
      | None => mret None
      | Some p =>
          if negb (bool_decide (rd_radio_plan r = Some (rp_plan (sr_progress p))))
          then fail (AdapterPermanentError "retained radio plan differs from retry rendering; native work held")
          else if negb (radio_started p) then mret None
          else if bool_decide (pl_retry_policy (dx_plan x) = None)
          then fail (AdapterPermanentError "radio continuation requires a configured retry policy")
          else mret (Some p)
      end
  | _, _, _ => mret None
  end.

(** [_dispatch_start_fenced_invoke]: the clock is read between the last
    suspension and the call. *)
Definition fenced_invoke (x : dispatch) (f : RenderingResult -> world ->
      result (raised * option Z) (option AdapterHandoffResult) * world)
    (bound : option instant) (r : RenderingResult) : deliver (option AdapterHandoffResult) :=
  observed ← on_store read_clock;
  if match bound with Some t => t <=? observed | None => false end
  then refuse x DISPATCH_START_DEADLINE_ERROR
  else
    log_native {| nc_result := r; nc_part := None; nc_started_at := Some observed |} ;;
    outside_call (f r).

(** The dispatch block. *)
Definition submit (x : dispatch) (a : adapter) (f : RenderingResult -> world ->
      result (raised * option Z) (option AdapterHandoffResult) * world)
    (bound : option instant) (r : RenderingResult) : deliver AdapterHandoffResult :=
  resume ← radio_predecessor x r;
  authorized ← submission_authorized x;
  if negb authorized then refuse x "content_authority_denied"
  else
    raw ← match rd_radio_plan r with
          | Some _ =>
              if negb (ad_supports_radio_multipart a)
              then fail (AdapterPermanentError "adapter does not support guarded radio plans")
              else h ← deliver_radio_plan a r (dx_worker x) bound resume; mret (Some h)
          | None => fenced_invoke x f bound r
          end;
    match raw with
    | None => fail (AdapterPermanentError "deliver() must return AdapterHandoffResult on success")
    | Some h =>
        if bool_decide (hr_disposition h = "deferred") && bool_decide (rd_attempt_provenance r = None)
        then fail (AdapterPermanentError "deferred hand-off requires durable attempt provenance")
        else mret h
    end.

(** The native reference of an accepted hand-off. *)
Definition outbound_ref (x : dispatch) (h : AdapterHandoffResult) (message : string) (now : instant)
    (u : string) : NativeMessageRef :=
  {| nr_id := "nref-" +:+ u; nr_event_id := ev_event_id (dx_event x); nr_adapter := dx_adapter x;
     nr_native_channel_id := hr_native_channel_id h; nr_native_message_id := message;
     nr_native_thread_id := hr_native_thread_id h; nr_native_relation_id := hr_native_relation_id h;
     nr_direction := "outbound"; nr_metadata := hr_metadata h; nr_created_at := now |}.

(** The receipt of a hand-off and, when it was sent, its native reference. *)
Definition record_handoff (x : dispatch) (r : RenderingResult) (h : AdapterHandoffResult) (now : instant)
    : deliver DeliveryReceipt :=
  let queued := bool_decide (hr_disposition h = "deferred") in
  receipt ← on_store (build_delivery_receipt
    (attempt_args x (if queued then "queued" else "sent") None None None None
       (if queued then None else hr_native_message_id h)
       ((fun d => json_dumps (JObj d)) <$> rd_rendering_evidence r) (hr_confirmation_level h))
    (Some (dx_receipt_id x)) (Some now));
  on_store (call (append_receipt receipt)) ;;
  match queued, hr_native_message_id h with
  | false, Some message =>
      u ← on_store new_uuid;
      on_store (call (store_native_ref (outbound_ref x h message now u))) ;;
      on_store (try_except (native_ref_persisted (ev_event_id (dx_event x))) (mret tt)) ;;
      mret receipt
  | _, _ => mret receipt
  end.

(** The failure an exception of the dispatch block becomes. *)
Definition record_dispatch_failure {A} (x : dispatch) (e : raised) (hint : option Z) (now : instant) : deliver A :=
  let kind := classify_plain e in
  let hint := if bool_decide (ex_adapter_send_error e = None) then None else hint in
  let next := compute_next_retry_at compute_backoff "failed" (Some kind) (dx_plan x) (dx_attempt x) now hint in
  let error := ex_type_name e +:+ ": " +:+ ex_text e in
  evidence ← persist_failure_evidence x error kind next (Some now);
  fail (AdapterDeliveryError (dx_adapter x) error (Some e) evidence).

(** From the dispatch-time deadline check to the receipt. *)
Definition dispatch_native (x : dispatch) (a : adapter) (bound : option instant) (r : RenderingResult)
    : deliver DeliveryReceipt :=
  match ad_deliver a with
  | None => fail_adapter x "Adapter has no deliver() method" ADAPTER_PERMANENT None
  | Some f =>
      t ← on_store read_clock;
      late ← deadline_passed x t;
      if (late : bool) then fail_adapter x DISPATCH_START_DEADLINE_ERROR DEADLINE_EXCEEDED (Some t)
      else
        outcome ← rescue (h ← submit x a f bound r; mret (inl h)) (fun e hint => mret (inr (e, hint)));
        now ← on_store read_clock;
        match outcome with
        | inl h => record_handoff x r h now
        | inr (e, hint) => record_dispatch_failure x e hint now
        end
  end.

(** The plan's checks, the rendering and the dispatch. *)
Definition execute_plan (x : dispatch) (a : adapter) (bound : option instant) : deliver DeliveryReceipt :=
  let level := default "native" (pl_capability_level (dx_plan x)) in
  let method := st_method (pl_primary_strategy (dx_plan x)) in
  if negb (elem level DELIVERY_CAPABILITY_LEVELS) then
    let error := "Unexpected capability_level " +:+ level +:+ " from delivery plan" in
    planner_failed x error ;; fail_renderer x error PLANNER_FAILURE
  else if bool_decide (method = "skip")
  then suppress x ("delivery_skipped: plan strategy is 'skip' (event_kind=" +:+ ev_event_kind (dx_event x) +:+ ")")
  else match mutation_binding_suppression_error (dx_render x) with
  | Some error => suppress x error
  | None =>
      if negb (elem method DELIVERY_STRATEGY_METHODS) then
        let error := "Invalid delivery strategy method " +:+ method +:+ ": not a known strategy" in
        planner_failed x error ;; fail_renderer x error PLANNER_FAILURE
      else
        rendered ← render_event x a level;
        r ← bind_attempt x rendered;
        dispatch_native x a bound r
  end.

Definition deliver_to_target_scoped (x : dispatch) : deliver DeliveryReceipt :=
  match opt_or_none (rt_adapter (pl_target (dx_plan x))) ≫= (fun id => od_get id adapters) with
  | None => fail_adapter x ("Adapter " +:+ dx_adapter x +:+ " is not registered") ADAPTER_MISSING None
  | Some a =>
      now ← on_store read_clock;
      late ← deadline_passed x now;
      if (late : bool) then fail_adapter x "Delivery deadline exceeded" DEADLINE_EXCEEDED (Some now)
      else
        authorized ← submission_authorized x;
        if negb authorized then refuse x "content_authority_denied"
        else
          bound ← observe_dispatch_start_bound x;
          execute_plan x a bound
  end.

Definition deliver_execution (e : execution) : deliver DeliveryExecutionEvidence :=
  '(source, run) ← checked (normalize_delivery_provenance (ex_source e) (ex_run e));
  u ← on_store new_uuid;
  receipt ← deliver_to_target_scoped (dispatch_of e source run ("rcpt-" +:+ u));
  let evidence :=
    if bool_decide (rc_receipt_kind receipt = Some "lifecycle")
    then {| xe_attempt_receipt := None; xe_authority_receipt := Some receipt;
            xe_failure_kind := None; xe_error := None |}
    else {| xe_attempt_receipt := Some receipt; xe_authority_receipt := None;
            xe_failure_kind := None; xe_error := None |} in
  checked (DeliveryExecutionEvidence_init evidence) ;; mret evidence.

Definition deliver_to_target (e : execution) : deliver DeliveryReceipt :=
  evidence ← deliver_execution e;
  match primary_receipt evidence with
  | Some r => mret r
  | None => checked (Raise (RuntimeError "target delivery produced no receipt evidence"))
  end.
End service.
