(* ===== verification/TargetSafety.v ===== *)
(** * What an execution guarantees

    Whatever other tasks do in between and whichever storage calls fail, one
    execution of a delivery plan makes at most one submission, behind the
    deadline and authority fences: one call of the adapter, or, for a radio
    plan, at most one call per part, each native start behind a grant of its
    own.  What the execution reports about the attempt is on record. *)

From S2P Require Import Prelude.
From S2P Require Import Json.
From S2P Require Import DeliveryState.
From S2P Require Import Router.
From S2P Require Import Delivery.
From S2P Require Import Events.
From S2P Require Import Capability.
From S2P Require Import DeliveryPlan.
From S2P Require Import DeliveryContracts.
From S2P Require Import Store.
From S2P Require Import Outbox.
From S2P Require Import OutboxProofs.
From S2P Require Import OutboxSafety.
From S2P Require Import Receipts.
From S2P Require Import StorageProgram.
From S2P Require Import ReceiptFactory.
From S2P Require Import DeliveryLifecycle.
From S2P Require Import LifecycleSafety.
From S2P Require Import RetryRoundtrip.
From S2P Require Import RadioProgress.
From S2P Require Import TargetDelivery.

Open Scope string_scope.
Open Scope list_scope.
Open Scope Z_scope.

(** ** Receipts on record *)

Definition recorded (d : db) (r : DeliveryReceipt) : Prop :=
  exists row, row ∈ receipts d /\ rc_receipt_id row = rc_receipt_id r /\ rc_event_id row = rc_event_id r /\
    rc_status row = rc_status r /\ rc_receipt_kind row = rc_receipt_kind r /\
    rc_outbox_id row = rc_outbox_id r /\ rc_attempt_number row = rc_attempt_number r /\
    rc_failure_kind row = rc_failure_kind r.

(** The kind fits the status, and the failure kind is one of the taxonomy. *)
Definition well_kinded (r : DeliveryReceipt) : Prop :=
  rc_receipt_kind r = expected_receipt_kind (rc_status r) /\
  forall k, rc_failure_kind r = Some k -> parse_failure_kind k <> None.

Lemma init_form r r' :
  DeliveryReceipt_init r = Ok r' ->
  exists k source run, expected_receipt_kind (rc_status r) = Some k /\ r' = with_provenance r (Some k) source run.
Proof.
  unfold DeliveryReceipt_init. do 2 (case_match; [done|]). case_match eqn:Hk; [|done]. case_match; [done|].
  intros ([source run] & _ & [= <-])%bind_Ok. eauto.
Qed.

Lemma build_kinds a id at_ w r w' :
  build_delivery_receipt a id at_ w = (Ok r, w') ->
  rc_receipt_kind r = expected_receipt_kind (ra_status a) /\ rc_failure_kind r = ra_failure_kind a.
Proof.
  intros (i & w1 & _ & (t & w2 & _ & [= H _])%proc_bind_Ok)%proc_bind_Ok.
  apply init_form in H as (k & source & run & Hk & ->). simpl in *. by rewrite Hk.
Qed.

Lemma later_recorded w w' r : later w w' -> recorded (w_db w) r -> recorded (w_db w') r.
Proof.
  intros [ops ->] (row & Hin & H). exists row. split; [|done].
  destruct (ev_receipts _ _ (exec_evolves ops (w_db w))) as [[l ->] _]. apply elem_of_app. by left.
Qed.

Lemma append_recorded r w w' : call (append_receipt r) w = (Ok tt, w') -> recorded (w_db w') r.
Proof.
  intros (w1 & _ & (row & Hp & _ & _ & ->)%append_receipt_Ok)%call_run.
  exists (with_sequence row (Z.of_nat (length (receipts (w_db w1))) + 1)).
  split; [simpl; apply elem_of_app; right; by apply list_elem_of_singleton|].
  unfold receipt_insert_params in Hp. repeat (case_match; [done|]).
  apply bind_Ok in Hp as ([source run] & _ & [= <-]). done.
Qed.

(** ** Steps without a native call *)

Record dmoved (s s' : delivery_site) : Prop := {
  dm_later : later (dv_world s) (dv_world s');
  dm_native : dv_native s' = dv_native s;
  dm_grants : dv_grants s' = dv_grants s
}.

#[export] Instance dmoved_preorder : PreOrder dmoved.
Proof.
  split; [intros s; by split|]. intros a b c [] []. split; [by etrans|congruence..].
Qed.

Class Still {A} (m : deliver A) : Prop := still s : dmoved s (m s).2.

Lemma still_run {A} (m : deliver A) `{!Still m} s r s' : m s = (r, s') -> dmoved s s'.
Proof. intros H. pose proof (still s) as Hq. by rewrite H in Hq. Qed.

#[export] Instance still_ret {A} (a : A) : Still (mret (M := deliver) a).
Proof. intros s. reflexivity. Qed.
#[export] Instance still_fail {A} e : Still (fail (A := A) e).
Proof. intros s. reflexivity. Qed.
#[export] Instance still_note n : Still (note n).
Proof. intros s. by split. Qed.
#[export] Instance still_bind {A B} (m : deliver A) (k : A -> deliver B) :
  Still m -> (forall a, Still (k a)) -> Still (m ≫= k).
Proof.
  intros Hm Hk s. unfold mbind, deliver_bind. destruct (m s) as [[a|e] s1] eqn:E.
  - etrans; [exact (still_run m _ _ _ E)|apply Hk].
  - exact (still_run m _ _ _ E).
Qed.
#[export] Instance still_rescue {A} (m : deliver A) h :
  Still m -> (forall e t, Still (h e t)) -> Still (rescue m h).
Proof.
  intros Hm Hh s. unfold rescue. destruct (m s) as [[a|[| |e t]] s1] eqn:E;
    [exact (still_run m _ _ _ E)..|etrans; [exact (still_run m _ _ _ E)|apply Hh]].
Qed.
Lemma still_outside {A} (m : world -> result (raised * option Z) A * world) :
  orderly m -> Still (outside_call m).
Proof.
  intros Hm s. unfold outside_call. destruct (Hm (dv_world s)) as [ops Ho].
  destruct (m (dv_world s)) as [[a|[e t]] w]; (split; [by exists ops|done..]).
Qed.
#[export] Instance still_store as_raised {A} (p : proc A) : Traced p -> Still (on_store as_raised p).
Proof.
  intros Hp s. unfold on_store. destruct (Hp (dv_world s)) as [ops Ho].
  destruct (p (dv_world s)) as [[a|e] w]; (split; [by exists ops|done..]).
Qed.

Ltac solve_still :=
  repeat first
    [ progress (intros; cbv zeta)
    | apply still_bind; [|intros ?]
    | apply still_rescue; [|intros ? ?] | typeclasses eauto
    | match goal with |- Still (match ?x with _ => _ end) => destruct x end ].

(** A step without a native call either ends the run or is followed by the
    rest. *)
Lemma still_stage {A B} (m : deliver A) (k : A -> deliver B) s0 s r s' `{!Still m} :
  dmoved s0 s -> (m ≫= k) s = (r, s') ->
  (dmoved s0 s' /\ exists e, r = Raise e) \/
  exists a s1, m s = (Ok a, s1) /\ dmoved s0 s1 /\ k a s1 = (r, s').
Proof.
  intros M. pose proof (still s) as Q. unfold mbind, deliver_bind. destruct (m s) as [[a|e] s1]; simpl in Q.
  - right. exists a, s1. split_and!; [done|by etrans|done].
  - intros [= <- <-]. left. split; [by etrans|eauto].
Qed.

Create HintDb sound discriminated.

(** ** Following an execution *)

Lemma dbind_run {A B} (m : deliver A) (k : A -> deliver B) s r s' :
  (m ≫= k) s = (r, s') ->
  (exists e, m s = (Raise e, s') /\ r = Raise e) \/ exists a s1, m s = (Ok a, s1) /\ k a s1 = (r, s').
Proof. unfold mbind, deliver_bind. destruct (m s) as [[a|e] s1]; [eauto|]. intros [= <- <-]. eauto. Qed.

Lemma on_store_run as_raised {A} (p : proc A) s a s' :
  on_store as_raised p s = (Ok a, s') -> p (dv_world s) = (Ok a, dv_world s') /\ dv_native s' = dv_native s.
Proof. unfold on_store. destruct (p _) as [[x|e] w]; by intros [= -> <-]. Qed.

Section service.
Context {Backend : TargetBackend} {Laws : TargetBackendLaws Backend}.
Context (compute_backoff : RetryPolicy -> Z -> Z) (as_raised : exc -> raised).

(** ** Every step outside [submit] is without a native call *)

#[local] Instance still_checked {A} (r : result exc A) : Still (checked as_raised r).
Proof. unfold checked. apply _. Qed.
#[local] Instance traced_append r : Traced (call (append_receipt r)).
Proof. apply _. Qed.
#[local] Instance traced_ref n : Traced (call (store_native_ref n)).
Proof. apply traced_call. by_op (OpNativeRef n). Qed.
#[local] Instance still_persist x e k n t : Still (persist_failure_evidence as_raised x e k n t).
Proof. unfold persist_failure_evidence. solve_still. Qed.
#[local] Instance still_fail_adapter {A} x e k t : Still (fail_adapter (A := A) as_raised x e k t).
Proof. unfold fail_adapter. solve_still. Qed.
#[local] Instance still_fail_renderer {A} x e k : Still (fail_renderer (A := A) as_raised x e k).
Proof. unfold fail_renderer. solve_still. Qed.
#[local] Instance still_refuse {A} x e : Still (refuse (A := A) x e).
Proof. unfold refuse. apply _. Qed.
#[local] Instance still_planner x e : Still (planner_failed x e).
Proof. apply still_note. Qed.
#[local] Instance still_renderer x e : Still (renderer_failed x e).
Proof. apply still_note. Qed.
#[local] Instance still_deadline x t : Still (deadline_passed as_raised x t).
Proof. unfold deadline_passed. solve_still. Qed.
#[local] Instance still_authorized x : Still (submission_authorized as_raised x).
Proof. unfold submission_authorized. solve_still. Qed.
#[local] Instance still_bound x : Still (observe_dispatch_start_bound as_raised x).
Proof. unfold observe_dispatch_start_bound. solve_still. Qed.
#[local] Instance still_suppress x e : Still (suppress as_raised x e).
Proof. unfold suppress. solve_still. Qed.
#[local] Instance still_render x a l : Still (render_event as_raised x a l).
Proof. unfold render_event. apply still_rescue; [apply still_outside, render_orderly|]. solve_still. Qed.
#[local] Instance still_bind_attempt x r : Still (bind_attempt as_raised x r).
Proof. unfold bind_attempt. solve_still. Qed.
#[local] Instance still_predecessor x r : Still (radio_predecessor as_raised x r).
Proof. unfold radio_predecessor. solve_still. Qed.
#[local] Instance still_handoff x r h t : Still (record_handoff as_raised x r h t).
Proof. unfold record_handoff. solve_still. Qed.
#[local] Instance still_dispatch_failure {A} x e h t :
  Still (record_dispatch_failure (A := A) compute_backoff as_raised x e h t).
Proof. unfold record_dispatch_failure. solve_still. Qed.

(** ** What an error says *)

(** A receipt of this attempt. *)
Definition of_attempt (x : dispatch) (r : DeliveryReceipt) : Prop :=
  rc_event_id r = ev_event_id (dx_event x) /\ rc_outbox_id r = dx_outbox x /\ rc_attempt_number r = dx_attempt x.

(** The evidence an error carries is on record. *)
Record evidence_ok (x : dispatch) (d : db) (ev : DeliveryExecutionEvidence) : Prop := {
  eo_kind : xe_failure_kind ev <> None;
  eo_attempt r : xe_attempt_receipt ev = Some r -> recorded d r /\ rc_status r = "failed" /\ of_attempt x r /\
    rc_failure_kind r = failure_value <$> xe_failure_kind ev;
  eo_authority r : xe_authority_receipt ev = Some r ->
    rc_status r = "dead_lettered" /\ of_attempt x r /\ (dx_outbox x = None -> recorded d r)
}.

(** The two refusals of the adapter that leave no receipt: the content
    authority was denied, or the clock passed the bound at the last moment. *)
Definition refusal (ev : DeliveryExecutionEvidence) : Prop :=
  xe_attempt_receipt ev = None /\ xe_authority_receipt ev = None /\
  xe_failure_kind ev = Some DEADLINE_EXCEEDED /\
  xe_error ev ∈ [Some "content_authority_denied"; Some DISPATCH_START_DEADLINE_ERROR].

Definition error_ok (x : dispatch) (d : db) (e : delivery_error) : Prop :=
  match e with
  | AdapterDeliveryError _ _ _ ev =>
      evidence_ok x d ev /\ (xe_attempt_receipt ev <> None \/ refusal ev)
  | RendererDeliveryError _ _ ev => evidence_ok x d ev /\ xe_attempt_receipt ev <> None
  | OtherError _ _ => True
  end.

Class Sound (x : dispatch) {A} (m : deliver A) : Prop :=
  sound s e s' : m s = (Raise e, s') -> error_ok x (w_db (dv_world s')) e.

Lemma sound_ret {A} x (a : A) : Sound x (mret (M := deliver) a).
Proof. by intros s e s'. Qed.
Lemma sound_note x n : Sound x (note n).
Proof. by intros s e s'. Qed.
Lemma sound_log x n : Sound x (log_native n).
Proof. by intros s e s'. Qed.
Lemma sound_permanent {A} x t : Sound x (fail (A := A) (AdapterPermanentError t)).
Proof. by intros s e s' [= <- _]. Qed.
Lemma sound_denied {A} x : Sound x (refuse (A := A) x "content_authority_denied").
Proof. intros s e s' [= <- _]. split; [done|]. right. by split_and!; [..|set_solver]. Qed.
Lemma sound_late {A} x : Sound x (refuse (A := A) x DISPATCH_START_DEADLINE_ERROR).
Proof. intros s e s' [= <- _]. split; [done|]. right. by split_and!; [..|set_solver]. Qed.
Lemma sound_store {A} x (p : proc A) : Sound x (on_store as_raised p).
Proof. intros s e s'. unfold on_store. destruct (p _) as [[a|e'] w]; by intros [= <- _]. Qed.
Lemma sound_checked {A} x (r : result exc A) : Sound x (checked as_raised r).
Proof. apply sound_store. Qed.
Lemma sound_outside {A} x (m : world -> result (raised * option Z) A * world) :
  Sound x (outside_call m).
Proof. intros s e s'. unfold outside_call. destruct (m _) as [[a|[e' t]] w]; by intros [= <- _]. Qed.
Lemma sound_bind {A B} x (m : deliver A) (k : A -> deliver B) :
  Sound x m -> (forall a, Sound x (k a)) -> Sound x (m ≫= k).
Proof. intros Hm Hk s e s' [(e' & H & [= ->])|(a & s1 & _ & H)]%dbind_run; [by eapply Hm|by eapply Hk]. Qed.
Lemma sound_rescue {A} x (m : deliver A) h :
  Sound x m -> (forall e t, Sound x (h e t)) -> Sound x (rescue m h).
Proof.
  intros Hm Hh s e s'. unfold rescue. destruct (m s) as [[a|[]] s1] eqn:E; [done|..]; intros H.
  - injection H as <- <-. by eapply Hm.
  - injection H as <- <-. by eapply Hm.
  - by eapply Hh.
Qed.

#[local] Hint Resolve sound_ret sound_note sound_log sound_permanent sound_denied sound_late sound_store sound_checked
  sound_outside : sound.

Ltac solve_sound :=
  repeat first
    [ progress (intros; cbv zeta)
    | match goal with
      | |- Sound _ (mbind _ _) => apply sound_bind; [|intros ?]
      | |- Sound _ (rescue _ _) => apply sound_rescue; [|intros ? ?]
      | |- Sound _ (match ?x with _ => _ end) => destruct x
      end
    | solve [auto 1 with sound nocore] ].

Lemma attempt_receipt_run x st k e f n m v lv id t s r s' :
  on_store as_raised (build_delivery_receipt (attempt_args x st k e f n m v lv) id t) s = (Ok r, s') ->
  rc_status r = st /\ of_attempt x r /\ rc_failure_kind r = f.
Proof.
  intros [H _]%on_store_run. pose proof H as (Hi & Hn & He & Hs)%build_Ok.
  apply build_kinds in H as [_ Hf]. by repeat split.
Qed.

Lemma terminal_receipt_run x attempt st e k s r s' :
  of_attempt x attempt ->
  on_store as_raised (build_terminal_lifecycle_receipt attempt st e k) s = (Ok r, s') ->
  rc_status r = st /\ of_attempt x r.
Proof.
  intros (? & ? & ?) [Hb _]%on_store_run. unfold build_terminal_lifecycle_receipt in Hb.
  apply build_Ok in Hb as (Hi & Hn & He & Hs). simpl in *. repeat split; congruence.
Qed.

Lemma persist_run x error kind next at_ s ev s' :
  persist_failure_evidence as_raised x error kind next at_ s = (Ok ev, s') ->
  evidence_ok x (w_db (dv_world s')) ev /\ xe_attempt_receipt ev <> None.
Proof.
  unfold persist_failure_evidence. intros [(e & _ & [=])|(attempt & s1 & Ha & H)]%dbind_run.
  apply attempt_receipt_run in Ha as (Hst & Hat & Hfk).
  apply dbind_run in H as [(e & _ & [=])|([] & s2 & [Hap _]%on_store_run & H)]. apply append_recorded in Hap.
  apply dbind_run in H as [(e & _ & [=])|(authority & s3 & Hau & H)]. cbv zeta in H.
  apply dbind_run in H as [(e & _ & [=])|(u & s4 & H4 & [= <- <-])].
  assert (later (dv_world s3) (dv_world s4)) as L by exact (dm_later _ _ (still_run (checked as_raised _) _ _ _ H4)).
  assert (later (dv_world s2) (dv_world s3) /\ forall r, authority = Some r ->
    rc_status r = "dead_lettered" /\ of_attempt x r /\ (dx_outbox x = None -> recorded (w_db (dv_world s3)) r))
    as [L3 Hr].
  { destruct (is_terminal_failure _ _); [|by injection Hau as <- <-].
    apply dbind_run in Hau as [(e & _ & [=])|(lc & s5 & Hlc & Hau)].
    assert (later (dv_world s2) (dv_world s5)) as L5 by exact (dm_later _ _ (still_run (on_store _ _) _ _ _ Hlc)).
    apply (terminal_receipt_run x) in Hlc; [|done].
    apply dbind_run in Hau as [(e & _ & [=])|(u' & s6 & H6 & [= <- <-])].
    case_bool_decide.
    - assert (later (dv_world s5) (dv_world s6)) as L6 by exact (dm_later _ _ (still_run (on_store _ _) _ _ _ H6)).
      apply on_store_run in H6 as [H6 _]. destruct u'. apply append_recorded in H6. split; [by etrans|].
      intros r [= <-]. by destruct Hlc.
    - injection H6 as _ <-. split; [done|]. intros r [= <-]. by destruct Hlc. }
  split; [|done]. split; simpl; [done| |].
  - intros r [= <-]. split_and!; [|done|apply Hat..|done]. eapply later_recorded, later_recorded, Hap; done.
  - intros r Hsome. destruct (Hr r Hsome) as (? & ? & Hrec). split_and!; [done..|].
    intros Hno. by eapply later_recorded, Hrec.
Qed.

Lemma sound_persist x e k n t : Sound x (persist_failure_evidence as_raised x e k n t).
Proof. unfold persist_failure_evidence. solve_sound. Qed.

#[local] Hint Resolve sound_persist : sound.

Lemma sound_persisted {A} x e k n t (f : DeliveryExecutionEvidence -> delivery_error) :
  (forall ev d, evidence_ok x d ev -> xe_attempt_receipt ev <> None -> error_ok x d (f ev)) ->
  Sound x (ev ← persist_failure_evidence as_raised x e k n t; fail (A := A) (f ev)).
Proof.
  intros Hf s er s' [(e' & H & [= ->])|(ev & s1 & H & [= <- <-])]%dbind_run; [by eapply sound_persist|].
  apply Hf; by eapply persist_run.
Qed.

Lemma sound_fail_adapter {A} x e k t : Sound x (fail_adapter (A := A) as_raised x e k t).
Proof. apply sound_persisted. simpl. auto. Qed.
Lemma sound_fail_renderer {A} x e k : Sound x (fail_renderer (A := A) as_raised x e k).
Proof. apply sound_persisted. simpl. auto. Qed.
Lemma sound_dispatch_failure {A} x e h t :
  Sound x (record_dispatch_failure (A := A) compute_backoff as_raised x e h t).
Proof. apply sound_persisted. simpl. auto. Qed.
#[local] Hint Resolve sound_fail_adapter sound_fail_renderer sound_dispatch_failure : sound.

(** The radio driver raises no delivery error of its own. *)
Definition Plain {A} (m : deliver A) : Prop :=
  forall s e s', m s = (Raise e, s') -> exists x h, e = OtherError x h.

Lemma plain_sound {A} x (m : deliver A) : Plain m -> Sound x m.
Proof. intros Hm s e s' H. by destruct (Hm _ _ _ H) as (r & h & ->). Qed.
Lemma plain_ret {A} (a : A) : Plain (mret a).
Proof. done. Qed.
Lemma plain_permanent {A} t : Plain (fail (A := A) (AdapterPermanentError t)).
Proof. intros s e s' [= <- _]. by eexists _, _. Qed.
Lemma plain_other {A} x h : Plain (fail (A := A) (OtherError x h)).
Proof. intros s e s' [= <- _]. by eexists _, _. Qed.
Lemma plain_store {A} (p : proc A) : Plain (on_store as_raised p).
Proof. intros s e s'. unfold on_store. destruct (p _) as [[a|e'] w]; intros [= <- _]. by eexists _, _. Qed.
Lemma plain_checked {A} (r : result exc A) : Plain (checked as_raised r).
Proof. apply plain_store. Qed.
Lemma plain_bind {A B} (m : deliver A) (k : A -> deliver B) :
  Plain m -> (forall a, Plain (k a)) -> Plain (m ≫= k).
Proof. intros Hm Hk s e s' [(e' & H & [= ->])|(a & s1 & _ & H)]%dbind_run; [by eapply Hm|by eapply Hk]. Qed.

#[local] Hint Resolve plain_ret plain_permanent plain_other plain_store plain_checked : sound.

Ltac solve_plain :=
  repeat first
    [ progress (intros; cbv zeta)
    | match goal with
      | |- Plain (mbind _ _) => apply plain_bind; [|intros ?]
      | |- Plain (match ?x with _ => _ end) => destruct x
      end
    | solve [auto 1 with sound nocore] ].

Lemma plain_run_part begin t g s e g' s' :
  run_part begin t g s = (Raise e, g', s') -> exists x h, e = OtherError x h.
Proof.
  revert g s. induction t as [m|before k IH]; intros g s; cbn [run_part].
  - unfold outside_call. destruct (m _) as [[a|[x h]] w]; intros [= <- _ _]. by eexists _, _.
  - destruct (begin _ _) as [[r g1] s1]. apply IH.
Qed.

Lemma plain_part a r worker deadline f checkpoint part :
  Plain (deliver_part as_raised a r worker deadline f checkpoint part).
Proof.
  intros s e s'. unfold deliver_part. cbv zeta. destruct (run_part _ _ _ _) as [[res g] s1] eqn:Hrun.
  destruct ((handoff ← _; accept_part _ _ _ _ _ handoff) s1) as [[x|e1] s2] eqn:H1; [done|].
  assert (exists x h, e1 = OtherError x h) as (x & h & ->).
  { apply dbind_run in H1 as [(e2 & [= -> _] & [= ->])|(hand & s3 & _ & H1)]; [by eapply plain_run_part|].
    assert (Plain (accept_part as_raised g worker (tp_ordinal part) f hand)) as Hp by (unfold accept_part; solve_plain).
    by eapply Hp. }
  assert (Plain (part_failed as_raised (A := StoredRadioAttempt * AdapterHandoffResult) g checkpoint worker
    (tp_ordinal part) f (OtherError x h))) as Hf; [|apply Hf].
  unfold part_failed. solve_plain.
Qed.

Lemma plain_parts a r worker deadline f parts checkpoint confs :
  Plain (deliver_parts as_raised a r worker deadline f parts checkpoint confs).
Proof.
  revert checkpoint confs. induction parts as [|[part progress] parts IH]; intros; cbn [deliver_parts];
    [apply plain_ret|]. case_match; [apply IH|]. apply plain_bind; [apply plain_part|]. intros [c h]. apply IH.
Qed.

Lemma plain_radio a r worker deadline resume : Plain (deliver_radio_plan as_raised a r worker deadline resume).
Proof.
  unfold deliver_radio_plan. destruct (rd_radio_plan r) as [plan|], (rd_attempt_provenance r) as [v|];
    try apply plain_permanent. cbv zeta.
  apply plain_bind; [unfold open_radio_attempt; solve_plain|]. intros [u|]; [|apply plain_permanent].
  apply plain_bind; [apply plain_checked|]. intros c. cbv zeta.
  apply plain_bind; [apply plain_checked|]. intros earlier.
  apply plain_bind; [apply plain_parts|]. intros [final confs]. solve_plain.
Qed.

Lemma sound_submit x a f b r : Sound x (submit as_raised x a f b r).
Proof.
  pose proof (fun w d p => plain_sound x _ (plain_radio a r w d p)) as Hradio.
  unfold submit, radio_predecessor, submission_authorized, fenced_invoke. solve_sound; apply Hradio.
Qed.
#[local] Hint Resolve sound_submit : sound.
Lemma sound_dispatch x a b r : Sound x (dispatch_native compute_backoff as_raised x a b r).
Proof. unfold dispatch_native, deadline_passed, record_handoff. solve_sound. Qed.
#[local] Hint Resolve sound_dispatch : sound.
Lemma sound_execute x a b : Sound x (execute_plan compute_backoff as_raised x a b).
Proof. unfold execute_plan, render_event, bind_attempt, planner_failed, renderer_failed, suppress. solve_sound. Qed.
#[local] Hint Resolve sound_execute : sound.
Lemma sound_scoped x : Sound x (deliver_to_target_scoped compute_backoff as_raised x).
Proof.
  unfold deliver_to_target_scoped, deadline_passed, submission_authorized, observe_dispatch_start_bound.
  solve_sound.
Qed.

(** ** The native call *)

Definition authorized_since (x : dispatch) (w0 : world) : Prop :=
  forall o, dx_outbox x = Some o ->
    exists k n w w', opt_or_none (dx_worker x) = Some k /\ dx_reserved x = Some n /\ later w0 w /\
      authorize_native_submission (ev_event_id (dx_event x)) o k n w = (Ok true, w').

(** *** Submissions *)

(** What an execution hands over: the adapter calls it makes and the native
    starts it grants. *)
Record submission : Type := { sb_calls : list native_call; sb_grants : list radio_grant }.

(** The submission between the two sites. *)
Definition called (s s' : delivery_site) (sub : submission) : Prop :=
  later (dv_world s) (dv_world s') /\ dv_native s' = dv_native s ++ sb_calls sub /\
  dv_grants s' = dv_grants s ++ sb_grants sub.

Definition nothing : submission := {| sb_calls := []; sb_grants := [] |}.

Lemma called_nothing s s' : dmoved s s' -> called s s' nothing.
Proof. intros [L N G]. split_and!; [done|by rewrite app_nil_r..]. Qed.

Lemma called_l s0 s s' sub : dmoved s0 s -> called s s' sub -> called s0 s' sub.
Proof. intros [L N G] (L' & N' & G'). split_and!; [by etrans|congruence..]. Qed.
Lemma called_r s0 s s' sub : called s0 s sub -> dmoved s s' -> called s0 s' sub.
Proof. intros (L' & N' & G') [L N G]. split_and!; [by etrans|congruence..]. Qed.

Lemma logged_call {A} n (m : world -> result (raised * option Z) A * world) s r s' :
  orderly m -> (log_native n ;; outside_call m) s = (r, s') ->
  called s s' {| sb_calls := [n]; sb_grants := [] |}.
Proof.
  intros Hm [(e & [=] & _)|(u & s1 & [= _ <-] & H)]%dbind_run.
  pose proof (still_outside m Hm) as Hs. destruct (still_run _ _ _ _ H) as [L N G].
  split_and!; [done..|]. simpl. by rewrite app_nil_r.
Qed.

(** A native start: the store recorded it for this worker and part, and the
    clock read after that was before the deadline. *)
Definition granted (w0 : world) (worker : option string) (deadline : option instant) (g : radio_grant) : Prop :=
  (forall d, deadline = Some d -> exists t, rg_at g = Some t /\ t < d) /\
  exists k checkpoint a w w', opt_or_none worker = Some k /\ later w0 w /\
    begin_radio_part checkpoint k (rg_part g) deadline w = (Ok (Some a), w').

(** A call for one part: the result with that part's wire text. *)
Definition part_call (r : RenderingResult) (c : native_call) : Prop :=
  exists n text, nc_part c = Some n /\ nc_result c = radio_packet r text.

(** The parts of a checkpoint that are not accepted yet. *)
Definition unaccepted (x : RadioTextPart * RadioPartProgress) : Prop := pg_state x.2 <> PartAccepted.
#[local] Instance unaccepted_dec x : Decision (unaccepted x).
Proof. unfold unaccepted. apply _. Defined.
Definition pending_of (parts : list (RadioTextPart * RadioPartProgress)) : list Z :=
  (fun x => tp_ordinal x.1) <$> filter unaccepted parts.
Definition pending_parts (a : StoredRadioAttempt) : list Z :=
  pending_of (zip (tx_parts (rp_plan (sr_progress a))) (rp_parts (sr_progress a))).

(** The store opened this attempt for the result's plan. *)
Definition opened (w0 : world) (worker : option string) (r : RenderingResult) (a : StoredRadioAttempt) : Prop :=
  exists v plan w w', rd_attempt_provenance r = Some v /\ rd_radio_plan r = Some plan /\ later w0 w /\
    (bind_radio_attempt v worker plan w = (Ok (Some a), w') \/
     exists p, resume_radio_attempt v worker plan p w = (Ok (Some a), w')).

(** A radio submission: at most one call per part and at most one grant per
    call. *)
Record radio_shape (w0 : world) (worker : option string) (deadline : option instant) (r : RenderingResult)
    (sub : submission) : Prop := {
  rs_calls : Forall (part_call r) (sb_calls sub);
  rs_once : NoDup (nc_part <$> sb_calls sub);
  rs_grants : (fun g => Some (rg_part g)) <$> sb_grants sub `sublist_of` nc_part <$> sb_calls sub;
  rs_granted : Forall (granted w0 worker deadline) (sb_grants sub)
}.

(** What the result [r] is handed over as. *)
Inductive handed (w0 : world) (worker : option string) (deadline : option instant) (r : RenderingResult)
    (sub : submission) : Prop :=
| handed_plain t :
    rd_radio_plan r = None ->
    sub = {| sb_calls := [{| nc_result := r; nc_part := None; nc_started_at := Some t |}]; sb_grants := [] |} ->
    (forall d, deadline = Some d -> t < d) -> handed w0 worker deadline r sub
| handed_radio : rd_radio_plan r <> None -> radio_shape w0 worker deadline r sub -> handed w0 worker deadline r sub.

(** Everything there was to hand over: one call, or one for each part of the
    stored attempt that was not accepted before. *)
Definition whole (w0 : world) (worker : option string) (sub : submission) : Prop :=
  (exists c, sb_calls sub = [c] /\ nc_part c = None) \/
  exists r a, opened w0 worker r a /\ Forall (part_call r) (sb_calls sub) /\
    nc_part <$> sb_calls sub = Some <$> pending_parts a.

(** All of this for a run that began earlier. *)
Lemma granted_weaken w0 w worker deadline g : later w0 w -> granted w worker deadline g -> granted w0 worker deadline g.
Proof.
  intros L [Ht (k & c & a & w1 & w2 & Hk & L1 & Hb)]. split; [done|]. exists k, c, a, w1, w2.
  split_and!; [done|by etrans|done].
Qed.
Lemma handed_weaken w0 w worker deadline r sub : later w0 w -> handed w worker deadline r sub -> handed w0 worker deadline r sub.
Proof.
  intros L [t Hr Hs Ht|Hr [Hc Ho Hg Hgr]]; [by eapply handed_plain|]. apply handed_radio; [done|]. split; [done..|].
  eapply Forall_impl; [exact Hgr|]. intros g. by apply granted_weaken.
Qed.
Lemma whole_weaken w0 w worker sub : later w0 w -> whole w worker sub -> whole w0 worker sub.
Proof.
  intros L [H|(r & a & (v & plan & w1 & w2 & Hv & Hp & L1 & Hb) & H)]; [by left|right]. exists r, a. split; [|done].
  exists v, plan, w1, w2. split_and!; [done..|by etrans|done].
Qed.

(** *** The radio driver *)

(** No call, and the grants [gs] between the two sites. *)
Definition moved_granting (s s' : delivery_site) (gs : list radio_grant) : Prop :=
  later (dv_world s) (dv_world s') /\ dv_native s' = dv_native s /\ dv_grants s' = dv_grants s ++ gs.

Lemma moved_granting_trans a b c gs hs :
  moved_granting a b gs -> moved_granting b c hs -> moved_granting a c (gs ++ hs).
Proof. intros (L & N & G) (L' & N' & G'). split_and!; [by etrans|congruence|by rewrite G', G, app_assoc]. Qed.

Lemma dmoved_granting s s' : dmoved s s' -> moved_granting s s' [].
Proof. intros [L N G]. split_and!; [done..|]. by rewrite app_nil_r. Qed.

#[local] Instance still_radio_deadline d : Still (check_radio_deadline as_raised d).
Proof. unfold check_radio_deadline. solve_still. Qed.

Lemma radio_deadline_run deadline s t s' :
  check_radio_deadline as_raised deadline s = (Ok t, s') ->
  forall d, deadline = Some d -> exists u, t = Some u /\ u < d.
Proof.
  intros H d ->. cbn in H. apply dbind_run in H as [(e & _ & [=])|(now & s1 & _ & H)].
  destruct (Z.leb_spec d now); [done|]. injection H as <- _. eauto.
Qed.

(** A grant is given at most once. *)
Definition may_grant (w0 : world) (g : grant) (worker : option string) (deadline : option instant) (n : Z)
    (gs : list radio_grant) : Prop :=
  Forall (fun x => rg_part x = n /\ granted w0 worker deadline x) gs /\
  (length gs <= if gt_entered g then 0 else 1)%nat.

Lemma begin_run checkpoint worker n deadline g s r g' s' :
  begin_grant as_raised checkpoint worker n deadline g s = (r, g', s') ->
  gt_entered g' = true /\ exists gs, moved_granting s s' gs /\ may_grant (dv_world s) g worker deadline n gs.
Proof.
  assert (forall s1 s2, dmoved s1 s2 -> exists gs, moved_granting s1 s2 gs /\ may_grant (dv_world s) g worker deadline n gs) as Hnone.
  { intros s1 s2 M. exists []. split; [by apply dmoved_granting|]. split; [done|simpl; lia]. }
  unfold begin_grant. destruct (gt_entered g) eqn:Hen.
  { intros [= <- <- <-]. split; [done|]. by apply Hnone. }
  cbv zeta. destruct (opt_or_none worker) as [k|] eqn:Hk; [|intros [= <- <- <-]; split; [done|by apply Hnone]].
  destruct (check_radio_deadline as_raised deadline s) as [[t|e] s1] eqn:H1; pose proof (still_run _ _ _ _ H1) as M1;
    [|intros [= <- <- <-]; split; [done|by apply Hnone]].
  destruct (on_store as_raised (begin_radio_part checkpoint k n deadline) s1) as [[o|e] s2] eqn:H2;
    pose proof (still_run (on_store _ _) _ _ _ H2) as M2;
    [|intros [= <- <- <-]; split; [done|apply Hnone; by etrans]].
  destruct o as [a|]; [|intros [= <- <- <-]; split; [done|apply Hnone; by etrans]].
  apply on_store_run in H2 as [Hbegin _].
  destruct ((at_ ← check_radio_deadline as_raised deadline; log_grant _) s2) as [r' s3] eqn:H3.
  intros [= <- <- <-]. split; [done|].
  apply dbind_run in H3 as [(e & H3 & ->)|(u & s4 & H4 & [= _ <-])].
  { apply Hnone. etrans; [by etrans|]. exact (still_run _ _ _ _ H3). }
  pose proof (radio_deadline_run _ _ _ _ H4) as Ht. pose proof (still_run _ _ _ _ H4) as M4.
  assert (dmoved s s4) as [L N G] by (etrans; [by etrans|done]).
  exists [{| rg_part := n; rg_at := u |}]. split; [split_and!; [done..|simpl; by rewrite G]|].
  split; [|by rewrite Hen]. constructor; [|done]. split; [done|]. split; [|exists k, checkpoint, a, (dv_world s1), (dv_world s2); split_and!; [done|apply M1|done]].
  intros d Hd. by apply Ht.
Qed.

Lemma run_part_run checkpoint worker n deadline t g s r g' s' :
  run_orderly t -> run_part (begin_grant as_raised checkpoint worker n deadline) t g s = (r, g', s') ->
  exists gs, moved_granting s s' gs /\ may_grant (dv_world s) g worker deadline n gs.
Proof.
  revert g s. induction t as [m|before k IH]; intros g s Ho; cbn [run_part].
  - destruct (outside_call m s) as [r0 s1] eqn:H. intros [= <- <- <-]. exists [].
    pose proof (still_outside m Ho) as Hs. split; [apply dmoved_granting; exact (still_run _ _ _ _ H)|].
    split; [done|simpl; lia].
  - destruct Ho as [Hb Hk]. destruct (begin_grant _ _ _ _ _ _ _) as [[r1 g1] s1] eqn:H1. intros H.
    apply begin_run in H1 as [Hen (gs & (L & N & G) & F & Hl)].
    apply IH in H as (hs & M & F' & Hl'); [|apply Hk]. rewrite Hen in Hl'.
    destruct hs; [|simpl in Hl'; lia]. exists gs.
    assert (later (dv_world s) (before (dv_world s))) as Lb by (destruct (Hb (dv_world s)) as [ops Hw]; by exists ops).
    split; [|split; [|done]].
    + rewrite <- (app_nil_r gs). eapply moved_granting_trans, M. split_and!; [by etrans|done..].
    + eapply Forall_impl; [exact F|]. intros x [? ?]. split; [done|]. by eapply granted_weaken.
Qed.

(** One part: one call and at most one grant, for that part. *)
Lemma part_run_run id a r worker deadline f checkpoint part s res s' :
  od_get id adapters = Some a ->
  deliver_part as_raised a r worker deadline f checkpoint part s = (res, s') ->
  exists c gs, called s s' {| sb_calls := [c]; sb_grants := gs |} /\ part_call r c /\
    nc_part c = Some (tp_ordinal part) /\ (length gs <= 1)%nat /\
    Forall (fun x => rg_part x = tp_ordinal part /\ granted (dv_world s) worker deadline x) gs.
Proof.
  intros Had H. unfold deliver_part in H. cbv zeta in H.
  destruct (run_part _ _ _ _) as [[res1 g] s1] eqn:Hrun.
  apply run_part_run in Hrun as (gs & (L & N & G) & F & Hl); [|by eapply adapter_part_orderly].
  assert (dmoved s1 s') as M.
  { assert (forall hand, Still (accept_part as_raised g worker (tp_ordinal part) f hand)) as Ha
      by (intros; unfold accept_part; solve_still).
    assert (forall e, Still (part_failed as_raised (A := StoredRadioAttempt * AdapterHandoffResult) g checkpoint worker
      (tp_ordinal part) f e)) as Hf by (intros; unfold part_failed; solve_still).
    assert (Still ((handoff ← (fun s => (res1, s)) : deliver _; accept_part as_raised g worker (tp_ordinal part) f handoff)
      : deliver _)) as Hb by (apply still_bind; [by intros s0|done]).
    destruct ((handoff ← _; accept_part _ _ _ _ _ handoff) s1) as [[x|e] s2] eqn:H2;
      pose proof (still_run _ _ _ _ H2) as M2; [by injection H as _ <-|].
    etrans; [exact M2|]. exact (still_run _ _ _ _ H). }
  simpl in L, N, G, F, Hl. eexists {| nc_result := _; nc_part := _; nc_started_at := _ |}, gs.
  split; [|split_and!; [by eexists _, _|done..]].
  eapply called_r; [|exact M]. split_and!; [done|exact N|done].
Qed.

Lemma parts_run id a r worker deadline f parts checkpoint confs s res s' :
  od_get id adapters = Some a ->
  deliver_parts as_raised a r worker deadline f parts checkpoint confs s = (res, s') ->
  exists sub, called s s' sub /\ Forall (part_call r) (sb_calls sub) /\
    nc_part <$> sb_calls sub `prefix_of` Some <$> pending_of parts /\
    (fun g => Some (rg_part g)) <$> sb_grants sub `sublist_of` nc_part <$> sb_calls sub /\
    Forall (granted (dv_world s) worker deadline) (sb_grants sub) /\
    (forall x, res = Ok x -> nc_part <$> sb_calls sub = Some <$> pending_of parts).
Proof.
  intros Had. revert checkpoint confs s. induction parts as [|[part progress] parts IH]; intros checkpoint confs s.
  { intros [= <- <-]. exists {| sb_calls := []; sb_grants := [] |}. cbn.
    split_and!; try done. split_and!; [done|by rewrite app_nil_r..]. }
  cbn [deliver_parts]. unfold pending_of. case_bool_decide as Hacc.
  { rewrite filter_cons_False by (unfold unaccepted; tauto). apply IH. }
  rewrite filter_cons_True by done. intros H.
  assert (forall c gs, part_call r c -> nc_part c = Some (tp_ordinal part) -> (length gs <= 1)%nat ->
    Forall (fun x => rg_part x = tp_ordinal part /\ granted (dv_world s) worker deadline x) gs ->
    (fun g => Some (rg_part g)) <$> gs `sublist_of` [nc_part c] /\ Forall (granted (dv_world s) worker deadline) gs) as Hone.
  { intros c gs _ Hn Hl F. split; [|eapply Forall_impl; [exact F|by intros x []]].
    destruct F as [|x gs [Hx _] F]; [apply sublist_nil_l|]. destruct gs; [|simpl in Hl; lia]. cbn. by rewrite Hn, Hx. }
  apply dbind_run in H as [(e & H & ->)|([checkpoint' handoff] & s1 & H1 & H)].
  - destruct (part_run_run _ _ _ _ _ _ _ _ _ _ _ Had H) as (c & gs & Hc & Hp & Hn & Hl & F).
    destruct (Hone c gs Hp Hn Hl F) as [Hs Hg]. eexists. split; [exact Hc|]. cbn. rewrite Hn in Hs |- *.
    split_and!; [by constructor|by apply prefix_cons, prefix_nil|done..].
  - destruct (part_run_run _ _ _ _ _ _ _ _ _ _ _ Had H1) as (c & gs & (L1 & N1 & G1) & Hp & Hn & Hl & F).
    destruct (Hone c gs Hp Hn Hl F) as [Hs Hg].
    apply IH in H as (sub & (L2 & N2 & G2) & F2 & P2 & S2 & Gr2 & Ok2).
    exists {| sb_calls := c :: sb_calls sub; sb_grants := gs ++ sb_grants sub |}. cbn [sb_calls sb_grants] in *.
    rewrite fmap_cons. split_and!.
    + split_and!; [by etrans|by rewrite N2, N1, <- app_assoc|by rewrite G2, G1, <- app_assoc].
    + by constructor.
    + rewrite Hn. by apply (prefix_cons (Some (tp_ordinal part))).
    + rewrite fmap_app. exact (sublist_app _ [nc_part c] _ _ Hs S2).
    + apply Forall_app. split; [done|]. eapply Forall_impl; [exact Gr2|]. intros g. by apply granted_weaken.
    + intros x Hx. rewrite (Ok2 x Hx), Hn. done.
Qed.

Lemma zip_ordinals (parts : list RadioTextPart) (pgs : list RadioPartProgress) :
  pending_of (zip parts pgs) `sublist_of` tp_ordinal <$> parts.
Proof.
  unfold pending_of. etrans; [apply fmap_sublist, sublist_filter|].
  revert pgs. induction parts as [|p parts IH]; intros [|g pgs]; cbn; [done..|apply sublist_nil_l|].
  by apply sublist_skip.
Qed.

(** The driver makes a radio submission; when it returns, a whole one. *)
Lemma radio_run id a r worker deadline resume s res s' :
  od_get id adapters = Some a ->
  deliver_radio_plan as_raised a r worker deadline resume s = (res, s') ->
  exists sub, called s s' sub /\ radio_shape (dv_world s) worker deadline r sub /\
    (forall h, res = Ok h -> whole (dv_world s) worker sub).
Proof.
  intros Had H.
  assert (forall s1 s2 (e : delivery_error), dmoved s1 s2 -> exists sub, called s1 s2 sub /\ radio_shape (dv_world s) worker deadline r sub /\
    (forall h : AdapterHandoffResult, Raise (E := delivery_error) e = Ok h -> whole (dv_world s) worker sub)) as Hnone.
  { intros s1 s2 e [L N G]. exists {| sb_calls := []; sb_grants := [] |}. split_and!; [|by repeat constructor|done].
    split_and!; [done|by rewrite app_nil_r..]. }
  unfold deliver_radio_plan in H. destruct (rd_radio_plan r) as [plan|] eqn:Hplan; [|injection H as <- <-; by apply Hnone].
  destruct (rd_attempt_provenance r) as [v|] eqn:Hv; [|injection H as <- <-; by apply Hnone].
  assert (Still (open_radio_attempt as_raised v worker plan resume (continuation_payload_fingerprint r))) as So
    by (unfold open_radio_attempt; solve_still).
  eapply still_stage in H as [[M' [e ->]]|(o & s1 & H1 & M1 & H)]; [by apply Hnone| |exact So|reflexivity].
  destruct o as [unchecked|]; [|injection H as <- <-; by apply Hnone].
  assert (opened (dv_world s) worker r unchecked) as Hop.
  { exists v, plan. unfold open_radio_attempt in H1. destruct resume as [p|].
    - repeat case_match; try done. apply on_store_run in H1 as [H1 _]. eauto 10 with later.
    - apply on_store_run in H1 as [H1 _]. eauto 10 with later. }
  eapply still_stage in H as [[M' [e ->]]|(checkpoint & s2 & H2 & M2 & H)]; [by apply Hnone| |apply still_checked|exact M1].
  apply on_store_run in H2 as [[= Hinit _] _]. apply stored_init_Ok in Hinit as [-> Hval].
  apply progress_init_Ok in Hval as (_ & Hrep & _).
  cbv zeta in H. eapply still_stage in H as [[M' [e ->]]|(earlier & s3 & _ & M3 & H)];
    [by apply Hnone| |apply still_checked|exact M2].
  assert (NoDup (pending_parts unchecked)) as Hnd.
  { eapply sublist_NoDup, zip_ordinals. rewrite plan_numbered by done. apply NoDup_seqZ. }
  assert (forall sub, nc_part <$> sb_calls sub `prefix_of` Some <$> pending_parts unchecked ->
    NoDup (nc_part <$> sb_calls sub)) as Hdis.
  { intros sub [l Hl]. eapply (NoDup_app _ l). rewrite <- Hl. apply NoDup_fmap_2; [apply _|done]. }
  assert (forall gs, Forall (granted (dv_world s3) worker deadline) gs -> Forall (granted (dv_world s) worker deadline) gs) as Hgw.
  { intros gs Hg. eapply Forall_impl; [exact Hg|]. intros g. apply granted_weaken, M3. }
  apply dbind_run in H as [(e & H & ->)|([final confs] & s4 & H4 & H)].
  - destruct (parts_run _ _ _ _ _ _ _ _ _ _ _ _ Had H) as (sub & Hc & F & P & S & G & _).
    exists sub. split_and!; [by eapply called_l| |done]. split; [done|by apply Hdis|done|by eapply Hgw].
  - destruct (parts_run _ _ _ _ _ _ _ _ _ _ _ _ Had H4) as (sub & Hc & F & P & S & G & Hok).
    exists sub. split_and!; [|split; [done|by apply Hdis|done|by eapply Hgw]|].
    + eapply called_l, called_r; [exact M3|exact Hc|].
      match type of H with ?m _ = _ => assert (Still m) as Hs by solve_still; exact (still_run m _ _ _ H) end.
    + intros h _. right. exists r, unchecked. split_and!; [done..|]. by eapply Hok.
Qed.

Lemma authorized_run x s b s' :
  submission_authorized as_raised x s = (Ok b, s') ->
  b = true -> authorized_since x (dv_world s).
Proof.
  intros H -> o Ho. unfold submission_authorized in H. rewrite Ho in H.
  destruct (opt_or_none (dx_worker x)) as [k|], (dx_reserved x) as [n|]; try done.
  apply on_store_run in H as [H _]. eauto 10 with later.
Qed.

Lemma authorized_weaken x w0 w : later w0 w -> authorized_since x w -> authorized_since x w0.
Proof.
  intros L H o Ho. destruct (H o Ho) as (k & n & w1 & w2 & Hk & Hn & L1 & Ha). exists k, n, w1, w2.
  split_and!; [done..| |done]. by etrans.
Qed.

Lemma fenced_run x f bound r s res s' :
  rd_radio_plan r = None -> orderly (f r) -> fenced_invoke as_raised x f bound r s = (res, s') ->
  dmoved s s' /\ (forall h, res <> Ok h) \/
  exists sub, called s s' sub /\ handed (dv_world s) (dx_worker x) bound r sub /\
    whole (dv_world s) (dx_worker x) sub.
Proof.
  intros Hp Hf H. unfold fenced_invoke in H.
  apply dbind_run in H as [(e & H & ->)|(t & s1 & H1 & H)].
  { left. split; [exact (still_run (on_store _ _) _ _ _ H)|done]. }
  pose proof (still_run (on_store _ _) _ _ _ H1) as M.
  destruct (match bound with Some b => b <=? t | None => false end) eqn:Hb.
  - left. injection H as <- <-. done.
  - right. eexists. split; [eapply called_l, logged_call; [exact M|exact Hf|exact H]|].
    split; [|left; by eexists]. eapply handed_plain; [done..|]. intros d ->. lia.
Qed.

Lemma submit_run x id a f bound r s res s' :
  od_get id adapters = Some a -> orderly (f r) -> submit as_raised x a f bound r s = (res, s') ->
  dmoved s s' /\ (forall h, res <> Ok h) \/
  exists sub, called s s' sub /\ handed (dv_world s) (dx_worker x) bound r sub /\ authorized_since x (dv_world s) /\
    (forall h, res = Ok h -> whole (dv_world s) (dx_worker x) sub).
Proof.
  intros Had Hf H. unfold submit in H. apply dbind_run in H as [(e & H & ->)|(resume & s1 & H1 & H)].
  { left. split; [exact (still_run (radio_predecessor _ _ _) _ _ _ H)|done]. }
  pose proof (still_run (radio_predecessor _ _ _) _ _ _ H1) as M1.
  apply dbind_run in H as [(e & H & ->)|(ok & s2 & H2 & H)].
  { left. split; [etrans; [exact M1|exact (still_run (submission_authorized _ _) _ _ _ H)]|done]. }
  pose proof (still_run (submission_authorized _ _) _ _ _ H2) as M2.
  assert (dmoved s s2) as M by by etrans.
  destruct ok; cbn in H; [|injection H as <- <-; by left].
  assert (authorized_since x (dv_world s)) as Ha.
  { eapply authorized_weaken; [apply M1|]. by eapply authorized_run. }
  assert (forall raw s3, match rd_radio_plan r with
     | Some _ => if negb (ad_supports_radio_multipart a)
                 then fail (AdapterPermanentError "adapter does not support guarded radio plans")
                 else h ← deliver_radio_plan as_raised a r (dx_worker x) bound resume; mret (Some h)
     | None => fenced_invoke as_raised x f bound r end s2 = (raw, s3) ->
     dmoved s2 s3 /\ (forall h, raw <> Ok h) \/
     exists sub, called s2 s3 sub /\ handed (dv_world s) (dx_worker x) bound r sub /\
       (forall h, raw = Ok h -> whole (dv_world s) (dx_worker x) sub)) as Hraw.
  { intros raw s3 Hr. destruct (rd_radio_plan r) as [plan|] eqn:Hplan.
    2: { apply fenced_run in Hr as [?|(sub & ? & ? & ?)]; [by left|right|done..]. exists sub.
         split_and!; [done|by eapply handed_weaken; [apply M|]|]. intros _ _. by eapply whole_weaken; [apply M|]. }
    destruct (ad_supports_radio_multipart a); cbn in Hr; [|injection Hr as <- <-; by left].
    right. apply dbind_run in Hr as [(e & Hr & ->)|(h & s4 & Hr & [= <- <-])];
      destruct (radio_run _ _ _ _ _ _ _ _ _ Had Hr) as (sub & Hc & Hs & Hw); exists sub;
      (split_and!; [done|eapply handed_weaken; [apply M|]; apply handed_radio; [by rewrite Hplan|done]|]); [done|].
    intros _ _. eapply whole_weaken; [apply M|]. by eapply Hw. }
  apply dbind_run in H as [(e & H & ->)|(raw & s3 & H3 & H)].
  - apply Hraw in H as [[M3 _]|(sub & Hc & Hr & Ht)]; [left; split; [by etrans|done]|].
    right. exists sub. split_and!; [by eapply called_l|done..].
  - apply Hraw in H3 as [[_ Hno]|(sub & Hc & Hr & Ht)]; [by destruct (Hno raw)|].
    right. exists sub. split_and!; [|done..|by intros h _; eapply Ht]. eapply called_l; [exact M|].
    assert (dmoved s3 s') as M3; [|by eapply called_r].
    destruct raw; [destruct (_ && _)|]; injection H as _ <-; reflexivity.
Qed.

(** ** Reports *)

(** The result is a receipt of this attempt, on record, with such a status. *)
Definition reported_as (x : dispatch) (statuses : list string) (s' : delivery_site)
    (r : result delivery_error DeliveryReceipt) : Prop :=
  forall rc, r = Ok rc -> rc_status rc ∈ statuses /\ recorded (w_db (dv_world s')) rc /\ well_kinded rc /\
    of_attempt x rc.

Lemma appended x st k e f n m v lv id t s rc s1 s2 :
  (forall kind, f = Some kind -> parse_failure_kind kind <> None) ->
  on_store as_raised (build_delivery_receipt (attempt_args x st k e f n m v lv) id t) s = (Ok rc, s1) ->
  on_store as_raised (call (append_receipt rc)) s1 = (Ok tt, s2) ->
  rc_status rc = st /\ recorded (w_db (dv_world s2)) rc /\ well_kinded rc /\ of_attempt x rc.
Proof.
  intros Hf Hb [Hap%append_recorded _]%on_store_run. pose proof Hb as (Hst & Hat & _)%attempt_receipt_run.
  apply on_store_run in Hb as [[Hk Hfk]%build_kinds _]. split_and!; [done|done| |by apply Hat..].
  split; [by rewrite Hk, Hst|]. by rewrite Hfk.
Qed.

Lemma suppress_run x error s r s' :
  suppress as_raised x error s = (r, s') -> reported_as x ["suppressed"] s' r.
Proof.
  intros H rc ->. unfold suppress in H. apply dbind_run in H as [(e & _ & [=])|(r & s1 & H1 & H)].
  apply dbind_run in H as [(e & _ & [=])|([] & s2 & H2 & [= <- <-])].
  destruct (fun Hf => appended _ _ _ _ _ _ _ _ _ _ _ _ _ _ _ Hf H1 H2) as (-> & ?); [|split; [set_solver|done]].
  by intros k [= <-].
Qed.

Lemma handoff_run x r h now s res s' :
  record_handoff as_raised x r h now s = (res, s') -> reported_as x ["sent"; "queued"] s' res.
Proof.
  intros H rc ->. unfold record_handoff in H. cbv zeta in H.
  apply dbind_run in H as [(e & _ & [=])|(r1 & s1 & H1 & H)].
  apply dbind_run in H as [(e & _ & [=])|([] & s2 & H2 & H)].
  destruct (fun Hf => appended _ _ _ _ _ _ _ _ _ _ _ _ _ _ _ Hf H1 H2) as (Hst & Hrec & Hkind & Hat); [done|].
  assert (dmoved s2 s' /\ r1 = rc) as [M ->].
  { destruct (bool_decide _); [by injection H as <- <-|]. destruct (hr_native_message_id h); [|by injection H as <- <-].
    split.
    - match type of H with ?m _ = _ => assert (Still m) as Hs by solve_still; exact (still_run m _ _ _ H) end.
    - do 3 (apply dbind_run in H as [(e & _ & [=])|(? & ? & _ & H)]). by injection H. }
  split_and!; [|by eapply later_recorded, Hrec; apply M|done|apply Hat..]. rewrite Hst. destruct (bool_decide _); set_solver.
Qed.

(** What holds of the submission of an execution that began in [w0]: it hands
    over a result bound to the attempt, before [bound] if there is one, which is
    no later than the plan's deadline. *)
Record fenced (x : dispatch) (w0 : world) (sub : submission) : Prop := {
  fe_result : exists r0 r bound, bound_result x r0 = Ok r /\ handed w0 (dx_worker x) bound r sub /\
    forall dl u, pl_deadline (dx_plan x) = Some dl -> py_instant dl = Some u ->
      exists b, bound = Some b /\ b <= u;
  fe_authorized : authorized_since x w0;
  fe_bound : mutation_binding_suppression_error (dx_render x) = None;
  fe_method : st_method (pl_primary_strategy (dx_plan x)) <> "skip"
}.

Definition before_deadline (x : dispatch) (bound : option instant) : Prop :=
  forall dl u, pl_deadline (dx_plan x) = Some dl -> py_instant dl = Some u ->
    exists b, bound = Some b /\ b <= u.

Lemma bound_run x s b s' : observe_dispatch_start_bound as_raised x s = (Ok b, s') -> before_deadline x b.
Proof.
  intros H dl u Hd Hu. unfold observe_dispatch_start_bound in H.
  apply dbind_run in H as [(e & _ & [=])|(o & s1 & _ & [= <- _])]. rewrite Hd. simpl. rewrite Hu.
  destruct o as [t|]; eexists; split; [done|lia|done|lia].
Qed.

Lemma fenced_intro x s s2 bound sub r :
  (exists r0, bound_result x r0 = Ok r) -> before_deadline x bound ->
  mutation_binding_suppression_error (dx_render x) = None ->
  st_method (pl_primary_strategy (dx_plan x)) <> "skip" ->
  dmoved s s2 -> handed (dv_world s2) (dx_worker x) bound r sub -> authorized_since x (dv_world s2) ->
  fenced x (dv_world s) sub.
Proof.
  intros [r0 Hr] Hb Hm Hs [L _] Hh Ha. split; [exists r0, r, bound; split_and!; [done|by eapply handed_weaken|done]|by eapply authorized_weaken|done..].
Qed.

(** Steps that only fail. *)
Definition only_fails {A} (m : deliver A) : Prop := Still m /\ forall s a s', m s <> (Ok a, s').

Lemma only_fails_run {A} (m : deliver A) s r s' :
  only_fails m -> m s = (r, s') -> dmoved s s' /\ forall a, r <> Ok a.
Proof. intros [Hs Hf] H. split; [by eapply still_run|]. intros a ->. by eapply Hf. Qed.

Lemma only_fails_bind {A B} (m : deliver A) (k : A -> deliver B) :
  Still m -> (forall a, only_fails (k a)) -> only_fails (m ≫= k).
Proof.
  intros Hm Hk. split; [apply still_bind; [done|]; intros a; apply Hk|].
  intros s b s' [(e & _ & [=])|(a & s1 & _ & H)]%dbind_run. by apply (Hk a) in H.
Qed.

Lemma only_fails_fail {A} e : only_fails (fail (A := A) e).
Proof. by split; [apply still_fail|]. Qed.

Lemma fail_adapter_fails {A} x e k t : only_fails (fail_adapter (A := A) as_raised x e k t).
Proof. apply only_fails_bind; [apply still_persist|]. intros ev. apply only_fails_fail. Qed.
Lemma fail_renderer_fails {A} x e k : only_fails (fail_renderer (A := A) as_raised x e k).
Proof. apply only_fails_bind; [apply still_persist|]. intros ev. apply only_fails_fail. Qed.
Lemma dispatch_failure_fails {A} x e h t :
  only_fails (record_dispatch_failure (A := A) compute_backoff as_raised x e h t).
Proof. apply only_fails_bind; [apply still_persist|]. intros ev. apply only_fails_fail. Qed.

(** The dispatch block with its exceptions made values. *)
Lemma submit_block_run x id a f bound r s res s' :
  od_get id adapters = Some a -> orderly (f r) ->
  rescue (h ← submit as_raised x a f bound r; mret (inl h)) (fun e hint => mret (inr (e, hint))) s = (res, s') ->
  dmoved s s' /\ (forall h, res <> Ok (inl h)) \/
  exists sub, called s s' sub /\ handed (dv_world s) (dx_worker x) bound r sub /\ authorized_since x (dv_world s) /\
    (forall h, res = Ok (inl h) -> whole (dv_world s) (dx_worker x) sub).
Proof.
  intros Had Hf H. assert (exists res', submit as_raised x a f bound r s = (res', s') /\
    forall h, res = Ok (inl h) -> res' = Ok h) as (res' & H' & Hres).
  { unfold rescue, mbind, deliver_bind in H. destruct (submit as_raised x a f bound r s) as [[h|err] s1].
    - injection H as <- <-. eexists. split; [done|]. by intros h' [= ->].
    - destruct err; injection H as <- <-; eexists; by split. }
  eapply submit_run in H' as [[M Hno]|(sub & Hc & Hh & Ha & Hw)]; [| |done..].
  - left. split; [done|]. intros h Hh. by apply (Hno h), Hres.
  - right. exists sub. split_and!; [done..|]. intros h Hh'. by eapply Hw, Hres.
Qed.

Lemma dispatch_run x id a bound r s res s' :
  od_get id adapters = Some a -> (exists r0, bound_result x r0 = Ok r) -> before_deadline x bound ->
  mutation_binding_suppression_error (dx_render x) = None ->
  st_method (pl_primary_strategy (dx_plan x)) <> "skip" ->
  dispatch_native compute_backoff as_raised x a bound r s = (res, s') ->
  (dmoved s s' /\ forall rc, res <> Ok rc) \/
  exists sub, called s s' sub /\ fenced x (dv_world s) sub /\ reported_as x ["sent"; "queued"] s' res /\
    (forall rc, res = Ok rc -> whole (dv_world s) (dx_worker x) sub).
Proof.
  intros Had Hr Hb Hmut Hsk H. unfold dispatch_native in H. destruct (ad_deliver a) as [f|] eqn:Hf.
  2: { left. exact (only_fails_run _ _ _ _ (fail_adapter_fails _ _ _ _) H). }
  pose proof (reflexivity (R := dmoved) s) as M.
  eapply still_stage in H as [[M' [e ->]]|(t & s1 & _ & M1 & H)]; [by left| |apply still_store, _|exact M].
  eapply still_stage in H as [[M' [e ->]]|(late & s2 & _ & M2 & H)]; [by left| |apply still_deadline|exact M1].
  destruct late.
  { left. apply (only_fails_run _ _ _ _ (fail_adapter_fails _ _ _ _)) in H as [M3 ?]. split; [by etrans|done]. }
  assert (orderly (f r)) as Hord by by eapply adapter_orderly.
  apply dbind_run in H as [(e & H & ->)|(o & s3 & H3 & H)].
  - eapply submit_block_run in H as [[M3 _]|(sub & Hc & Hh & Ha & _)]; [| |done..]; [left; split; [by etrans|done]|].
    right. exists sub. split_and!; [by eapply called_l| |done..]. by eapply fenced_intro.
  - assert (dmoved s3 s' /\ match o with inl _ => reported_as x ["sent"; "queued"] s' res
                            | inr _ => forall rc, res <> Ok rc end) as [M4 Hrep].
    { eapply still_stage in H as [[M' [e ->]]|(now & s4 & _ & M4 & H)]; [| |apply still_store, _|reflexivity].
      { split; [done|]. by destruct o. }
      destruct o as [h|[e hint]].
      - split; [etrans; [exact M4|exact (still_run _ (Still0 := still_handoff _ _ _ _) _ _ _ H)]|by eapply handoff_run].
      - apply (only_fails_run _ _ _ _ (dispatch_failure_fails _ _ _ _)) in H as [M5 Hno]. split; [by etrans|done]. }
    eapply submit_block_run in H3 as [[M3 Hno]|(sub & Hc & Hh & Ha & Hw)]; [| |done..].
    + left. split; [etrans; [exact M2|by etrans]|]. destruct o as [h|]; [by destruct (Hno h)|done].
    + right. exists sub. split_and!; [eapply called_r, M4; by eapply called_l|by eapply fenced_intro|..].
      * destruct o; [done|]. intros rc ->. by destruct (Hrep rc).
      * intros rc ->. destruct o; [|by destruct (Hrep rc)]. eapply whole_weaken; [apply M2|]. by eapply Hw.
Qed.

(** ** The whole execution *)

Definition settled (x : dispatch) (s s' : delivery_site) (res : result delivery_error DeliveryReceipt) : Prop :=
  dmoved s s' /\ reported_as x ["suppressed"] s' res \/
  exists sub, called s s' sub /\ fenced x (dv_world s) sub /\ reported_as x ["sent"; "queued"] s' res /\
    (forall rc, res = Ok rc -> whole (dv_world s) (dx_worker x) sub).

Lemma settled_failing x s s' (res : result delivery_error DeliveryReceipt) :
  dmoved s s' -> (forall rc, res <> Ok rc) -> settled x s s' res.
Proof. intros M H. left. split; [done|]. intros rc ->. by destruct (H rc). Qed.

Lemma fenced_weaken x w0 w sub : later w0 w -> fenced x w sub -> fenced x w0 sub.
Proof.
  intros L [(r0 & r & bound & H1 & H2 & H3) ? ? ?]. split; try done; [|by eapply authorized_weaken].
  exists r0, r, bound. split_and!; [done|by eapply handed_weaken|done].
Qed.

Lemma settled_l x s0 s s' res : dmoved s0 s -> settled x s s' res -> settled x s0 s' res.
Proof.
  intros M [[M' Hr]|(sub & Hc & Hf & Hr & Hw)]; [left; split; [by etrans|done]|].
  right. exists sub. split_and!; [by eapply called_l|eapply fenced_weaken, Hf; apply M|done|].
  intros rc Hrc. eapply whole_weaken; [apply M|]. by eapply Hw.
Qed.

Lemma noted_failure_fails {A} x n e k :
  only_fails (A := A) (note n ;; fail_renderer as_raised x e k).
Proof. apply only_fails_bind; [apply still_note|]. intros _. apply fail_renderer_fails. Qed.

Lemma execute_run x id a bound s res s' :
  od_get id adapters = Some a -> before_deadline x bound ->
  execute_plan compute_backoff as_raised x a bound s = (res, s') -> settled x s s' res.
Proof.
  intros Had Hb H. unfold execute_plan in H. cbv zeta in H. destruct (negb _).
  { apply (only_fails_run _ _ _ _ (noted_failure_fails _ _ _ _)) in H as [M Hno]. by apply settled_failing. }
  case_bool_decide as Hskip.
  { left. split; [exact (still_run _ (Still0 := still_suppress _ _) _ _ _ H)|by eapply suppress_run]. }
  destruct (mutation_binding_suppression_error (dx_render x)) as [error|] eqn:Hmut.
  { left. split; [exact (still_run _ (Still0 := still_suppress _ _) _ _ _ H)|by eapply suppress_run]. }
  destruct (negb _).
  { apply (only_fails_run _ _ _ _ (noted_failure_fails _ _ _ _)) in H as [M Hno]. by apply settled_failing. }
  eapply still_stage in H as [[M' [e ->]]|(rendered & s1 & _ & M1 & H)];
    [by apply settled_failing| |apply still_render|reflexivity].
  eapply still_stage in H as [[M' [e ->]]|(r & s2 & Hr & M2 & H)];
    [by apply settled_failing| |apply still_bind_attempt|exact M1].
  assert (bound_result x rendered = Ok r) as Hbr.
  { unfold bind_attempt in Hr. destruct (bound_result x rendered); [by injection Hr as ->|].
    by apply (noted_failure_fails (A := RenderingResult)) in Hr. }
  apply settled_l with s2; [done|]. eapply dispatch_run in H as [[M3 Hno]|Hc]; [| |done|by eexists|done..].
  - by apply settled_failing.
  - by right.
Qed.

Lemma scoped_run x s res s' :
  deliver_to_target_scoped compute_backoff as_raised x s = (res, s') -> settled x s s' res.
Proof.
  intros H. unfold deliver_to_target_scoped in H.
  destruct (opt_or_none (rt_adapter (pl_target (dx_plan x)))) as [id|]; simpl in H.
  2: { apply (only_fails_run _ _ _ _ (fail_adapter_fails _ _ _ _)) in H as [M Hno]. by apply settled_failing. }
  destruct (od_get id adapters) as [a|] eqn:Had.
  2: { apply (only_fails_run _ _ _ _ (fail_adapter_fails _ _ _ _)) in H as [M Hno]. by apply settled_failing. }
  eapply still_stage in H as [[M' [e ->]]|(now & s1 & _ & M1 & H)];
    [by apply settled_failing| |apply still_store, _|reflexivity].
  eapply still_stage in H as [[M' [e ->]]|(late & s2 & _ & M2 & H)];
    [by apply settled_failing| |apply still_deadline|exact M1].
  destruct late.
  { apply (only_fails_run _ _ _ _ (fail_adapter_fails _ _ _ _)) in H as [M Hno].
    apply settled_l with s2; [done|]. by apply settled_failing. }
  eapply still_stage in H as [[M' [e ->]]|(ok & s3 & _ & M3 & H)];
    [by apply settled_failing| |apply still_authorized|exact M2].
  destruct ok; cbn in H; [|injection H as <- <-; by apply settled_failing].
  eapply still_stage in H as [[M' [e ->]]|(bound & s4 & Hb & M4 & H)];
    [by apply settled_failing| |apply still_bound|exact M3].
  apply settled_l with s4; [done|]. eapply execute_run; [done| |exact H]. by eapply bound_run.
Qed.

Lemma bound_result_facts x r0 r :
  bound_result x r0 = Ok r ->
  rd_event_id r = ev_event_id (dx_event x) /\ rd_target_adapter r = dx_adapter x /\
  rd_outbox_id r = dx_outbox x /\ rd_attempt_number r = Some (dx_attempt x) /\
  (dx_outbox x <> None -> exists p, rd_attempt_provenance r = Some p /\ Some (pv_outbox_id p) = dx_outbox x /\
     pv_attempt_number p = dx_attempt x).
Proof.
  unfold bound_result, rendering_result_identity_mismatch.
  do 3 (case_bool_decide; simpl; [|done]). intros (p & Hp & H')%bind_Ok.
  unfold RenderingResult_init in H'. cbn [rd_attempt_number rd_attempt_provenance rd_outbox_id rd_event_id
    rd_target_adapter rd_target_channel rd_delivery_plan_id] in H'.
  destruct (dx_attempt x <? 1); [done|]. destruct (dx_outbox x) as [o|] eqn:Ho.
  - apply bind_Ok in Hp as (p' & Hinit & [= <-]). repeat (case_match; [done|]). injection H' as <-.
    unfold DeliveryAttemptProvenance_init in Hinit. repeat (case_match; [done|]).
    apply bind_Ok in Hinit as ([source run] & _ & [= <-]). simpl. split_and!; try done.
    intros _. eexists. split_and!; done.
  - injection Hp as <-. injection H' as <-. done.
Qed.

Abbreviation execute := (deliver_execution compute_backoff as_raised).

(** What [deliver_execution] makes of the receipt. *)
Definition evidence_of (receipt : DeliveryReceipt) : DeliveryExecutionEvidence :=
  if bool_decide (rc_receipt_kind receipt = Some "lifecycle")
  then {| xe_attempt_receipt := None; xe_authority_receipt := Some receipt;
          xe_failure_kind := None; xe_error := None |}
  else {| xe_attempt_receipt := Some receipt; xe_authority_receipt := None;
          xe_failure_kind := None; xe_error := None |}.

Lemma execution_run e s res s' :
  execute e s = (res, s') ->
  (dmoved s s' /\ exists err, res = Raise (OtherError err None)) \/
  exists source run id res', settled (dispatch_of e source run id) s s' res' /\
    match res' with
    | Ok rc => res = Ok (evidence_of rc) \/ exists err, res = Raise (OtherError err None)
    | Raise err => res = Raise err /\ error_ok (dispatch_of e source run id) (w_db (dv_world s')) err
    end.
Proof.
  intros H. unfold deliver_execution in H.
  assert (forall A (p : proc A) s e s', on_store as_raised p s = (Raise e, s') -> exists err, e = OtherError err None)
    as Hother by (intros A p s0 e0 s1; unfold on_store; destruct (p _) as [[]]; intros [= <- _]; eauto).
  apply dbind_run in H as [(err & H & ->)|([source run] & s1 & H1 & H)].
  { left. split; [exact (still_run (checked as_raised _) _ _ _ H)|]. apply Hother in H as [? ->]. eauto. }
  pose proof (still_run (checked as_raised _) _ _ _ H1) as M1.
  apply dbind_run in H as [(err & H & ->)|(u & s2 & H2 & H)]; [done|].
  pose proof (still_run (on_store as_raised new_uuid) _ _ _ H2) as M2.
  right. exists source, run, ("rcpt-" +:+ u).
  apply dbind_run in H as [(err & H & ->)|(rc & s3 & H3 & H)].
  - exists (Raise err). split; [|split; [done|by eapply sound_scoped]].
    apply settled_l with s2; [by etrans|]. by apply scoped_run.
  - exists (Ok rc). cbv zeta in H.
    change (if bool_decide _ then _ else _) with (evidence_of rc) in H.
    assert (s3 = s' /\ (res = Ok (evidence_of rc) \/ exists err, res = Raise (OtherError err None))) as [<- Hres].
    { unfold checked, on_store, of_result in H. unfold mbind, deliver_bind in H.
      destruct (DeliveryExecutionEvidence_init (evidence_of rc)) as [[]|err].
      - injection H as <- <-. split; [by destruct s3|by left].
      - injection H as <- <-. split; [by destruct s3|]. right. eauto. }
    split; [|done]. apply settled_l with s2; [by etrans|]. by apply scoped_run.
Qed.

(** What a returned execution reports, and what the adapter was handed. *)
Lemma execution_reports e s ev s' :
  execute e s = (Ok ev, s') ->
  exists rc, ev = evidence_of rc /\ recorded (w_db (dv_world s')) rc /\ well_kinded rc /\
    rc_event_id rc = ev_event_id (ex_event e) /\ rc_outbox_id rc = ex_outbox e /\
    (forall n, ex_reserved e = Some n -> rc_attempt_number rc = n) /\
    (rc_status rc = "suppressed" /\ called s s' nothing \/
     rc_status rc ∈ ["sent"; "queued"] /\ exists sub, called s s' sub /\ whole (dv_world s) (ex_worker e) sub).
Proof.
  intros [[_ [err [=]]]|(source & run & id & res' & Hset & Hres)]%execution_run.
  destruct res' as [rc|err]; [|by destruct Hres]. destruct Hres as [[= ->]|[err [=]]]. exists rc. split; [done|].
  destruct Hset as [[M Hr]|(sub & Hc & _ & Hr & Hw)];
    destruct (Hr rc eq_refl) as (Hst & Hrec & Hk & He & Ho & Hn); split_and!; try done.
  1, 3: intros n Hn'; rewrite Hn; unfold dx_attempt; simpl; by rewrite Hn'.
  - left. split; [set_solver|by apply called_nothing].
  - right. split; [done|]. exists sub. split; [done|]. by eapply Hw.
Qed.

Lemma primary_evidence_of rc : primary_receipt (evidence_of rc) = Some rc.
Proof. unfold evidence_of. by case_bool_decide. Qed.

(** A call that carries the event, the adapter, the outbox row and the attempt
    of this execution. *)
Definition carries (e : execution) (c : native_call) : Prop :=
  rd_event_id (nc_result c) = ev_event_id (ex_event e) /\
  rd_target_adapter (nc_result c) = opt_or_empty (rt_adapter (pl_target (ex_plan e))) /\
  rd_outbox_id (nc_result c) = ex_outbox e /\
  forall n, ex_reserved e = Some n -> rd_attempt_number (nc_result c) = Some n.

Lemma handed_calls w0 worker bound r sub c :
  handed w0 worker bound r sub -> c ∈ sb_calls sub -> exists text, nc_result c = r \/ nc_result c = radio_packet r text.
Proof.
  intros [t _ -> _|_ H] Hin.
  - apply list_elem_of_singleton in Hin as ->. exists "". by left.
  - destruct (proj1 (Forall_forall _ _) (rs_calls _ _ _ _ _ H) c Hin) as (n & text & _ & ->). exists text. by right.
Qed.

(** No call means no grant either. *)
Lemma handed_nothing w0 worker bound r sub :
  handed w0 worker bound r sub -> sb_calls sub = [] -> sub = nothing.
Proof.
  intros [t _ -> _|_ [_ _ Hg _]] H; [done|]. destruct sub as [calls grants]. cbn in *. subst calls.
  apply sublist_nil_r in Hg. by destruct grants.
Qed.

Lemma fenced_carries e source run id w0 sub :
  fenced (dispatch_of e source run id) w0 sub -> Forall (carries e) (sb_calls sub).
Proof.
  intros [(r0 & r & bound & Hr & Hh & _) _ _ _]. apply bound_result_facts in Hr as (He & Hta & Ho & Hn & _).
  apply Forall_forall. intros c Hin. destruct (handed_calls _ _ _ _ _ _ Hh Hin) as (text & Hc). unfold carries.
  assert (rd_event_id (nc_result c) = rd_event_id r /\ rd_target_adapter (nc_result c) = rd_target_adapter r /\
    rd_outbox_id (nc_result c) = rd_outbox_id r /\ rd_attempt_number (nc_result c) = rd_attempt_number r)
    as (-> & -> & -> & ->) by by destruct Hc as [->| ->].
  split_and!; [done..|]. intros n Hres. rewrite Hn. unfold dx_attempt. simpl. by rewrite Hres.
Qed.


(** The failure an error reports is on record: its attempt receipt, with the
    kind of failure, and its verdict unless an outbox row will carry it. *)
Definition failure_on_record (e : execution) (d : db) (ev : DeliveryExecutionEvidence) : Prop :=
  exists rc kind, xe_attempt_receipt ev = Some rc /\ xe_failure_kind ev = Some kind /\ recorded d rc /\
    rc_status rc = "failed" /\ rc_failure_kind rc = Some (failure_value kind) /\
    rc_event_id rc = ev_event_id (ex_event e) /\ rc_outbox_id rc = ex_outbox e /\
    (forall n, ex_reserved e = Some n -> rc_attempt_number rc = n) /\
    forall v, xe_authority_receipt ev = Some v -> rc_status v = "dead_lettered" /\
      (ex_outbox e = None -> recorded d v).

Lemma evidence_on_record e source run id d ev :
  evidence_ok (dispatch_of e source run id) d ev -> xe_attempt_receipt ev <> None -> failure_on_record e d ev.
Proof.
  intros [Hk Ha Hau] Hsome. destruct (xe_attempt_receipt ev) as [rc|] eqn:Hrc; [|done].
  destruct (xe_failure_kind ev) as [kind|] eqn:Hkind; [|done].
  destruct (Ha rc eq_refl) as (Hrec & Hst & (He & Ho & Hn) & Hf). exists rc, kind. split_and!; try done.
  - intros n Hres. rewrite Hn. unfold dx_attempt. simpl. by rewrite Hres.
  - intros v Hv. by destruct (Hau v Hv) as (? & _ & ?).
Qed.

End service.

(** ** Examples *)

Module TargetExamples.
Definition accepted : AdapterHandoffResult :=
  {| hr_disposition := "transport_handoff"; hr_native_message_id := Some "pkt-7";
     hr_native_channel_id := Some "0"; hr_native_thread_id := None; hr_native_relation_id := None;
     hr_confirmation_level := "local_transport"; hr_note := ""; hr_metadata := [] |}.

Definition wire_part (n : Z) (text : string) : RadioTextPart :=
  {| tp_ordinal := n; tp_body := text; tp_wire_text := text; tp_wire_bytes := 5; tp_wire_sha256 := text |}.
Definition two_parts : RadioTextPlan :=
  {| tx_max_text_bytes := 5; tx_prefix := ""; tx_source_sha256 := "helloworld";
     tx_parts := [wire_part 1 "hello"; wire_part 2 "world"]; tx_fingerprint := "plan"; tx_schema_version := 1 |}.

Definition rendered (multipart : bool) (q : render_request) : RenderingResult :=
  {| rd_event_id := ev_event_id (en_event (rq_event q)); rd_target_adapter := rq_adapter q;
     rd_target_channel := rq_channel q; rd_payload := [("text", JStr "helloworld")]; rd_metadata := [];
     rd_truncated := false; rd_fallback_applied := None; rd_rendering_evidence := None;
     rd_delivery_plan_id := None; rd_outbox_id := None; rd_attempt_number := None;
     rd_attempt_provenance := None; rd_radio_plan := if multipart then Some two_parts else None |}.

Definition moved_on (a : StoredRadioAttempt) (p : result exc RadioAttemptProgress) : proc (option StoredRadioAttempt) :=
  match p with
  | Ok p => mret (Some {| sr_provenance := sr_provenance a; sr_progress := p; sr_revision := sr_revision a + 1 |})
  | Raise _ => mret None
  end.

(** A transport that accepts every message, asking for its grant before a radio
    part, and a store that authorises it. *)
Definition mesh_backend (multipart : bool) : TargetBackend :=
  let reproduces p := bool_decide (p = two_parts) in
  {| adapters := [("mesh", {| ad_platform := Some "mesh"; ad_capabilities := None;
                              ad_supports_radio_multipart := true;
                              ad_deliver := Some (fun _ w => (Ok (Some accepted), w));
                              ad_deliver_part := fun _ => AskGrant (fun w => w)
                                (fun _ => Finish (fun w => (Ok (Some accepted), w))) |})];
     render := fun q w => (Ok (rendered multipart q), w);
     authorize_native_submission := fun _ _ _ _ => mret true;
     observe_effective_dispatch_bound := fun _ _ => mret None;
     get_latest_radio_attempt := fun _ _ => mret None;
     bind_radio_attempt := fun v _ plan =>
       match bind_progress reproduces (pv_outbox_id v) (pv_attempt_number v) plan with
       | Ok p => mret (Some {| sr_provenance := v; sr_progress := p; sr_revision := 0 |})
       | Raise _ => mret None
       end;
     resume_radio_attempt := fun _ _ _ _ => mret None;
     begin_radio_part := fun a _ n _ => moved_on a (begin_progress reproduces (sr_progress a) n);
     observe_radio_part := fun a _ n h => moved_on a (observe_progress reproduces (sr_progress a) n h);
     plan_reproduces := reproduces; payload_sha256 := fun s => s;
     encode_handoff := fun _ => "pkt"; decode_handoff := fun _ => None;
     native_ref_persisted := fun _ => mret tt |}.
Abbreviation backend := (mesh_backend false).

Lemma backend_laws multipart : TargetBackendLaws (mesh_backend multipart).
Proof.
  split; intros; simpl; try apply _; try (intros w; by exists []).
  - case_match; apply _.
  - unfold moved_on. case_match; apply _.
  - unfold moved_on. case_match; apply _.
  - simpl in *. by apply bool_decide_eq_true in H as ->.
  - simpl in *. destruct (decide (id = "mesh")); [|done]. injection H as <-. injection H0 as <-. intros w. by exists [].
  - simpl in *. destruct (decide (id = "mesh")); [|done]. injection H as <-. split; [|intros ?]; intros w; by exists [].
Qed.

Definition as_raised (e : exc) : raised :=
  {| ex_type_name := "StorageError"; ex_text := ""; ex_adapter_send_error := None; ex_os_error := false |}.

Definition request : execution :=
  {| ex_event := RoundtripExamples.event; ex_route := RoundtripExamples.route; ex_plan := RoundtripExamples.plan;
     ex_render := None; ex_previous := None; ex_source := "live"; ex_run := None;
     ex_outbox := Some "ob-1"; ex_reserved := Some 1; ex_worker := Some "worker-a" |}.

Definition start : delivery_site :=
  {| dv_world := RoundtripExamples.start; dv_native := []; dv_grants := []; dv_notes := [] |}.

Abbreviation run multipart :=
  (deliver_execution (Backend := mesh_backend multipart) (fun _ _ => seconds 2) as_raised request start).
Abbreviation executed := (run false).
End TargetExamples.


