(* ===== verification/Accounting.v ===== *)
(** * Counters

    [src/src/medre/core/routing/stats.py] (per-route counters) and
    [src/src/medre/core/supervision/accounting.py] (runtime-wide counters).
    Every recording replaces an immutable record of counters by one with a
    single counter increased.  [sanitize_error] stands for
    [core/observability/sanitization.py]. *)

From S2P Require Import Prelude.

Open Scope string_scope.
Open Scope list_scope.
Open Scope Z_scope.

(** ** Routes *)

Record RouteCounters : Set := {
  rk_delivered : Z;
  rk_failed : Z;
  rk_skipped : Z;
  rk_loop_prevented : Z;
  rk_policy_suppressed : Z;
  rk_capability_suppressed : Z
}.

Definition RouteCounters_default : RouteCounters :=
  {| rk_delivered := 0; rk_failed := 0; rk_skipped := 0; rk_loop_prevented := 0;
     rk_policy_suppressed := 0; rk_capability_suppressed := 0 |}.

Record RouteStats : Set := {
  rx_counters : list (string * RouteCounters);
  rx_last_errors : list (string * string)
}.

Definition RouteStats_init : RouteStats := {| rx_counters := []; rx_last_errors := [] |}.

(** [self._counters.get(route_id, RouteCounters())]. *)
Definition route_counters (s : RouteStats) (route_id : string) : RouteCounters :=
  default RouteCounters_default (od_get route_id (rx_counters s)).

Definition set_route (s : RouteStats) (route_id : string) (c : RouteCounters) : RouteStats :=
  {| rx_counters := od_set route_id c (rx_counters s); rx_last_errors := rx_last_errors s |}.

Definition record_delivered (route_id : string) (s : RouteStats) : RouteStats :=
  let c := route_counters s route_id in
  set_route s route_id
    {| rk_delivered := rk_delivered c + 1; rk_failed := rk_failed c; rk_skipped := rk_skipped c;
       rk_loop_prevented := rk_loop_prevented c; rk_policy_suppressed := rk_policy_suppressed c;
       rk_capability_suppressed := rk_capability_suppressed c |}.

Definition record_failed (sanitize_error : string -> string) (route_id error : string) (s : RouteStats)
    : RouteStats :=
  let c := route_counters s route_id in
  let s' := set_route s route_id
    {| rk_delivered := rk_delivered c; rk_failed := rk_failed c + 1; rk_skipped := rk_skipped c;
       rk_loop_prevented := rk_loop_prevented c; rk_policy_suppressed := rk_policy_suppressed c;
       rk_capability_suppressed := rk_capability_suppressed c |} in
  {| rx_counters := rx_counters s';
     rx_last_errors := od_set route_id (sanitize_error error) (rx_last_errors s') |}.

Definition record_skipped (route_id : string) (s : RouteStats) : RouteStats :=
  let c := route_counters s route_id in
  set_route s route_id
    {| rk_delivered := rk_delivered c; rk_failed := rk_failed c; rk_skipped := rk_skipped c + 1;
       rk_loop_prevented := rk_loop_prevented c; rk_policy_suppressed := rk_policy_suppressed c;
       rk_capability_suppressed := rk_capability_suppressed c |}.

Definition record_route_loop_prevented (route_id : string) (s : RouteStats) : RouteStats :=
  let c := route_counters s route_id in
  set_route s route_id
    {| rk_delivered := rk_delivered c; rk_failed := rk_failed c; rk_skipped := rk_skipped c;
       rk_loop_prevented := rk_loop_prevented c + 1; rk_policy_suppressed := rk_policy_suppressed c;
       rk_capability_suppressed := rk_capability_suppressed c |}.

Definition record_route_policy_suppressed (route_id : string) (s : RouteStats) : RouteStats :=
  let c := route_counters s route_id in
  set_route s route_id
    {| rk_delivered := rk_delivered c; rk_failed := rk_failed c; rk_skipped := rk_skipped c;
       rk_loop_prevented := rk_loop_prevented c; rk_policy_suppressed := rk_policy_suppressed c + 1;
       rk_capability_suppressed := rk_capability_suppressed c |}.

Definition record_route_capability_suppressed (route_id : string) (s : RouteStats) : RouteStats :=
  let c := route_counters s route_id in
  set_route s route_id
    {| rk_delivered := rk_delivered c; rk_failed := rk_failed c; rk_skipped := rk_skipped c;
       rk_loop_prevented := rk_loop_prevented c; rk_policy_suppressed := rk_policy_suppressed c;
       rk_capability_suppressed := rk_capability_suppressed c + 1 |}.

(** One entry of [RouteStats.snapshot]: the counters and the last error. *)
Definition route_snapshot (s : RouteStats) : list (string * (RouteCounters * option string)) :=
  (fun id => (id, (route_counters s id, od_get id (rx_last_errors s)))) <$>
    sorted_by String.leb (od_keys (rx_counters s)).

(** ** Runtime *)

Record RuntimeCounters : Set := {
  ct_inbound_accepted : Z;
  ct_outbound_attempts : Z;
  ct_outbound_delivered : Z;
  ct_outbound_failed : Z;
  ct_replay_processed : Z;
  ct_replay_rejected : Z;
  ct_loop_prevented : Z;
  ct_capacity_rejections : Z;
  ct_policy_suppressed : Z;
  ct_capability_suppressed : Z
}.

Definition RuntimeCounters_default : RuntimeCounters :=
  {| ct_inbound_accepted := 0; ct_outbound_attempts := 0; ct_outbound_delivered := 0;
     ct_outbound_failed := 0; ct_replay_processed := 0; ct_replay_rejected := 0; ct_loop_prevented := 0;
     ct_capacity_rejections := 0; ct_policy_suppressed := 0; ct_capability_suppressed := 0 |}.

Definition record_inbound_accepted (c : RuntimeCounters) : RuntimeCounters :=
  {| ct_inbound_accepted := ct_inbound_accepted c + 1; ct_outbound_attempts := ct_outbound_attempts c;
     ct_outbound_delivered := ct_outbound_delivered c; ct_outbound_failed := ct_outbound_failed c;
     ct_replay_processed := ct_replay_processed c; ct_replay_rejected := ct_replay_rejected c;
     ct_loop_prevented := ct_loop_prevented c; ct_capacity_rejections := ct_capacity_rejections c;
     ct_policy_suppressed := ct_policy_suppressed c; ct_capability_suppressed := ct_capability_suppressed c |}.

Definition record_outbound_attempt (c : RuntimeCounters) : RuntimeCounters :=
  {| ct_inbound_accepted := ct_inbound_accepted c; ct_outbound_attempts := ct_outbound_attempts c + 1;
     ct_outbound_delivered := ct_outbound_delivered c; ct_outbound_failed := ct_outbound_failed c;
     ct_replay_processed := ct_replay_processed c; ct_replay_rejected := ct_replay_rejected c;
     ct_loop_prevented := ct_loop_prevented c; ct_capacity_rejections := ct_capacity_rejections c;
     ct_policy_suppressed := ct_policy_suppressed c; ct_capability_suppressed := ct_capability_suppressed c |}.

Definition record_outbound_delivered (c : RuntimeCounters) : RuntimeCounters :=
  {| ct_inbound_accepted := ct_inbound_accepted c; ct_outbound_attempts := ct_outbound_attempts c;
     ct_outbound_delivered := ct_outbound_delivered c + 1; ct_outbound_failed := ct_outbound_failed c;
     ct_replay_processed := ct_replay_processed c; ct_replay_rejected := ct_replay_rejected c;
     ct_loop_prevented := ct_loop_prevented c; ct_capacity_rejections := ct_capacity_rejections c;
     ct_policy_suppressed := ct_policy_suppressed c; ct_capability_suppressed := ct_capability_suppressed c |}.

Definition record_outbound_failed (c : RuntimeCounters) : RuntimeCounters :=
  {| ct_inbound_accepted := ct_inbound_accepted c; ct_outbound_attempts := ct_outbound_attempts c;
     ct_outbound_delivered := ct_outbound_delivered c; ct_outbound_failed := ct_outbound_failed c + 1;
     ct_replay_processed := ct_replay_processed c; ct_replay_rejected := ct_replay_rejected c;
     ct_loop_prevented := ct_loop_prevented c; ct_capacity_rejections := ct_capacity_rejections c;
     ct_policy_suppressed := ct_policy_suppressed c; ct_capability_suppressed := ct_capability_suppressed c |}.

Definition record_replay_processed (c : RuntimeCounters) : RuntimeCounters :=
  {| ct_inbound_accepted := ct_inbound_accepted c; ct_outbound_attempts := ct_outbound_attempts c;
     ct_outbound_delivered := ct_outbound_delivered c; ct_outbound_failed := ct_outbound_failed c;
     ct_replay_processed := ct_replay_processed c + 1; ct_replay_rejected := ct_replay_rejected c;
     ct_loop_prevented := ct_loop_prevented c; ct_capacity_rejections := ct_capacity_rejections c;
     ct_policy_suppressed := ct_policy_suppressed c; ct_capability_suppressed := ct_capability_suppressed c |}.

Definition record_replay_rejected (c : RuntimeCounters) : RuntimeCounters :=
  {| ct_inbound_accepted := ct_inbound_accepted c; ct_outbound_attempts := ct_outbound_attempts c;
     ct_outbound_delivered := ct_outbound_delivered c; ct_outbound_failed := ct_outbound_failed c;
     ct_replay_processed := ct_replay_processed c; ct_replay_rejected := ct_replay_rejected c + 1;
     ct_loop_prevented := ct_loop_prevented c; ct_capacity_rejections := ct_capacity_rejections c;
     ct_policy_suppressed := ct_policy_suppressed c; ct_capability_suppressed := ct_capability_suppressed c |}.

Definition record_loop_prevented (c : RuntimeCounters) : RuntimeCounters :=
  {| ct_inbound_accepted := ct_inbound_accepted c; ct_outbound_attempts := ct_outbound_attempts c;
     ct_outbound_delivered := ct_outbound_delivered c; ct_outbound_failed := ct_outbound_failed c;
     ct_replay_processed := ct_replay_processed c; ct_replay_rejected := ct_replay_rejected c;
     ct_loop_prevented := ct_loop_prevented c + 1; ct_capacity_rejections := ct_capacity_rejections c;
     ct_policy_suppressed := ct_policy_suppressed c; ct_capability_suppressed := ct_capability_suppressed c |}.

Definition record_capacity_rejection (c : RuntimeCounters) : RuntimeCounters :=
  {| ct_inbound_accepted := ct_inbound_accepted c; ct_outbound_attempts := ct_outbound_attempts c;
     ct_outbound_delivered := ct_outbound_delivered c; ct_outbound_failed := ct_outbound_failed c;
     ct_replay_processed := ct_replay_processed c; ct_replay_rejected := ct_replay_rejected c;
     ct_loop_prevented := ct_loop_prevented c; ct_capacity_rejections := ct_capacity_rejections c + 1;
     ct_policy_suppressed := ct_policy_suppressed c; ct_capability_suppressed := ct_capability_suppressed c |}.

Definition record_policy_suppressed (c : RuntimeCounters) : RuntimeCounters :=
  {| ct_inbound_accepted := ct_inbound_accepted c; ct_outbound_attempts := ct_outbound_attempts c;
     ct_outbound_delivered := ct_outbound_delivered c; ct_outbound_failed := ct_outbound_failed c;
     ct_replay_processed := ct_replay_processed c; ct_replay_rejected := ct_replay_rejected c;
     ct_loop_prevented := ct_loop_prevented c; ct_capacity_rejections := ct_capacity_rejections c;
     ct_policy_suppressed := ct_policy_suppressed c + 1;
     ct_capability_suppressed := ct_capability_suppressed c |}.

Definition record_capability_suppressed (c : RuntimeCounters) : RuntimeCounters :=
  {| ct_inbound_accepted := ct_inbound_accepted c; ct_outbound_attempts := ct_outbound_attempts c;
     ct_outbound_delivered := ct_outbound_delivered c; ct_outbound_failed := ct_outbound_failed c;
     ct_replay_processed := ct_replay_processed c; ct_replay_rejected := ct_replay_rejected c;
     ct_loop_prevented := ct_loop_prevented c; ct_capacity_rejections := ct_capacity_rejections c;
     ct_policy_suppressed := ct_policy_suppressed c;
     ct_capability_suppressed := ct_capability_suppressed c + 1 |}.

(** [RuntimeAccounting.snapshot]: the fields in alphabetical order. *)
Definition runtime_snapshot (c : RuntimeCounters) : list (string * Z) :=
  [("capability_suppressed", ct_capability_suppressed c); ("capacity_rejections", ct_capacity_rejections c);
   ("inbound_accepted", ct_inbound_accepted c); ("loop_prevented", ct_loop_prevented c);
   ("outbound_attempts", ct_outbound_attempts c); ("outbound_delivered", ct_outbound_delivered c);
   ("outbound_failed", ct_outbound_failed c); ("policy_suppressed", ct_policy_suppressed c);
   ("replay_processed", ct_replay_processed c); ("replay_rejected", ct_replay_rejected c)].

(** [reset]: the counters so far, and the new ones. *)
Definition reset (c : RuntimeCounters) : RuntimeCounters * RuntimeCounters := (c, RuntimeCounters_default).
