(* ===== verification/DeliveryCoordinator.v ===== *)
(** * The delivery coordinator

    [src/src/medre/core/engine/pipeline/delivery_coordinator.py]: what happens
    to one planned delivery from its admission to its outcome.  Suppression
    checks, the capacity permit, the outbox row, the execution of the plan and
    the settlement of the row are composed here.

    A run changes the store ([world]), calls adapters ([delivery_site]) and
    changes the memory it shares with the other deliveries: the permits, the
    table of deliveries in flight and the counters.  Each such change is one
    synchronous [memory_op], so a run records the operations it performs and
    [apply_op] says what each does; runs of many tasks interleave their
    operations.

    Waiting for a permit and the enrichment of relations are reached through
    the class [CoordinatorHost].  Durations, logging, the local locks that
    serialize equal replays and asyncio's cancellation are left out; the lease
    renewal in the background is one of the other tasks. *)

From S2P Require Import Prelude.
From S2P Require Import DeliveryState.
From S2P Require Import RoutePolicy.
From S2P Require Import Router.
From S2P Require Import Delivery.
From S2P Require Import Events.
From S2P Require Import Capability.
From S2P Require Import DeliveryPlan.
From S2P Require Import Store.
From S2P Require Import Outbox.
From S2P Require Import OutboxProofs.
From S2P Require Import Receipts.
From S2P Require Import StorageProgram.
From S2P Require Import ReceiptFactory.
From S2P Require Import RetryPlan.
From S2P Require Import DeliveryLifecycle.
From S2P Require Import OutboxManager.
From S2P Require Import TargetDelivery.
From S2P Require Import Accounting.

Open Scope string_scope.
Open Scope list_scope.
Open Scope Z_scope.

(** ** Shared memory *)

Record InflightDelivery : Set := {
  fl_event_id : string;
  fl_route_id : string;
  fl_target_adapter : string;
  fl_target_channel : option string;
  fl_delivery_plan_id : string;
  fl_source : string;
  fl_replay_run_id : option string;
  fl_outbox_id : option string
}.

Inductive memory_op : Set :=
| TakePermit
| ReturnPermit
| CountRejection
| AddInflight (key : string) (d : InflightDelivery)
| DropInflight (key : string)
| RouteDelivered (route : string)
| RouteFailed (route error : string)
| RouteLoop (route : string)
| RoutePolicySuppressed (route : string)
| RouteCapabilitySuppressed (route : string)
| CountAttempt
| CountDelivered
| CountFailed
| CountLoop
| CountCapacity
| CountPolicy
| CountCapability.

(** The permits in use, the runner's rejection count, the deliveries in flight
    and the optional counters. *)
Record memory : Set := {
  my_permits : Z;
  my_rejections : Z;
  my_inflight : list (string * InflightDelivery);
  my_stats : option RouteStats;
  my_accounting : option RuntimeCounters
}.

Definition on_permits (n : Z) (m : memory) : memory :=
  {| my_permits := my_permits m + n; my_rejections := my_rejections m; my_inflight := my_inflight m;
     my_stats := my_stats m; my_accounting := my_accounting m |}.
Definition on_inflight (f : list (string * InflightDelivery) -> list (string * InflightDelivery))
    (m : memory) : memory :=
  {| my_permits := my_permits m; my_rejections := my_rejections m; my_inflight := f (my_inflight m);
     my_stats := my_stats m; my_accounting := my_accounting m |}.
Definition on_stats (f : RouteStats -> RouteStats) (m : memory) : memory :=
  {| my_permits := my_permits m; my_rejections := my_rejections m; my_inflight := my_inflight m;
     my_stats := f <$> my_stats m; my_accounting := my_accounting m |}.
Definition on_accounting (f : RuntimeCounters -> RuntimeCounters) (m : memory) : memory :=
  {| my_permits := my_permits m; my_rejections := my_rejections m; my_inflight := my_inflight m;
     my_stats := my_stats m; my_accounting := f <$> my_accounting m |}.
Definition on_rejections (m : memory) : memory :=
  {| my_permits := my_permits m; my_rejections := my_rejections m + 1; my_inflight := my_inflight m;
     my_stats := my_stats m; my_accounting := my_accounting m |}.

Definition apply_op (sanitize_error : string -> string) (op : memory_op) : memory -> memory :=
  match op with
  | TakePermit => on_permits 1
  | ReturnPermit => on_permits (-1)
  | CountRejection => on_rejections
  | AddInflight key d => on_inflight (od_set key d)
  | DropInflight key => on_inflight (od_del key)
  | RouteDelivered r => on_stats (record_delivered r)
  | RouteFailed r e => on_stats (record_failed sanitize_error r e)
  | RouteLoop r => on_stats (record_route_loop_prevented r)
  | RoutePolicySuppressed r => on_stats (record_route_policy_suppressed r)
  | RouteCapabilitySuppressed r => on_stats (record_route_capability_suppressed r)
  | CountAttempt => on_accounting record_outbound_attempt
  | CountDelivered => on_accounting record_outbound_delivered
  | CountFailed => on_accounting record_outbound_failed
  | CountLoop => on_accounting record_loop_prevented
  | CountCapacity => on_accounting record_capacity_rejection
  | CountPolicy => on_accounting record_policy_suppressed
  | CountCapability => on_accounting record_capability_suppressed
  end.

Definition apply_ops (sanitize_error : string -> string) (ops : list memory_op) (m : memory) : memory :=
  foldl (fun m op => apply_op sanitize_error op m) m ops.

(** ** Runs *)

Record coordinator_site : Type := { co_site : delivery_site; co_ops : list memory_op }.

Definition coord (A : Type) : Type := coordinator_site -> result delivery_error A * coordinator_site.

#[export] Instance coord_ret : MRet coord := fun _ a s => (Ok a, s).
#[export] Instance coord_bind : MBind coord := fun _ _ k m s =>
  match m s with
  | (Ok a, s') => k a s'
  | (Raise e, s') => (Raise e, s')
  end.

Definition remember (ops : list memory_op) : coord unit := fun s =>
  (Ok tt, {| co_site := co_site s; co_ops := co_ops s ++ ops |}).

Definition delivering {A} (m : deliver A) : coord A := fun s =>
  let '(r, d) := m (co_site s) in (r, {| co_site := d; co_ops := co_ops s |}).

(** How a [try] block ended. *)
Definition guarded {A} (m : coord A) : coord (result delivery_error A) := fun s =>
  let '(r, s') := m s in (Ok r, s').

Definition conclude {A} (r : result delivery_error A) : coord A := fun s => (r, s).

(** [try: m finally: f m]; [f] sees how [m] ended. *)
Definition finally {A} (m : coord A) (f : result delivery_error A -> coord unit) : coord A :=
  r ← guarded m; f r ;; conclude r.

(** ** What it calls *)

Class CoordinatorHost : Type := {
  has_controller : bool;
  acquire_delivery : proc bool;
  accepting_work : proc bool;
  enrich_for_target : CanonicalEvent -> string -> option string ->
    world -> result (raised * option Z) EnrichedEvent * world
}.

Class CoordinatorHostLaws (H : CoordinatorHost) : Prop := {
  acquire_traced :: Traced acquire_delivery;
  accepting_traced :: Traced accepting_work;
  enrich_orderly e a c : orderly (enrich_for_target e a c)
}.

(** ** One delivery *)

(** [_DeliveryContext]. *)
Record delivery_context : Type := {
  dl_event : CanonicalEvent;
  dl_route : Route;
  dl_plan : DeliveryPlan;
  dl_source : string;
  dl_run : option string
}.

Definition dl_target (c : delivery_context) : RouteTarget := pl_target (dl_plan c).
Definition dl_adapter (c : delivery_context) : string := opt_or_empty (rt_adapter (dl_target c)).
Definition dl_identity (c : delivery_context) : DeliveryIdentity :=
  mkIdentity (ev_event_id (dl_event c)) (pl_plan_id (dl_plan c)) (dl_adapter c)
    (opt_or_none (rt_channel (dl_target c))).

Record DeliveryOutcome : Set := {
  oo_event_id : string;
  oo_target_adapter : string;
  oo_target_channel : option string;
  oo_route_id : string;
  oo_delivery_plan_id : string;
  oo_status : string;
  oo_failure_kind : option DeliveryFailureKind;
  oo_receipt : option DeliveryReceipt;
  oo_error : option string;
  oo_failure_kind_detail : option string
}.

Definition build_outcome (c : delivery_context) (status : string) (kind : option DeliveryFailureKind)
    (receipt : option DeliveryReceipt) (error detail : option string) : DeliveryOutcome :=
  {| oo_event_id := ev_event_id (dl_event c); oo_target_adapter := dl_adapter c;
     oo_target_channel := rt_channel (dl_target c); oo_route_id := rte_id (dl_route c);
     oo_delivery_plan_id := pl_plan_id (dl_plan c); oo_status := status; oo_failure_kind := kind;
     oo_receipt := receipt; oo_error := error; oo_failure_kind_detail := detail |}.

Definition inflight_key (c : delivery_context) : string :=
  ev_event_id (dl_event c) +:+ ":" +:+ rte_id (dl_route c) +:+ ":" +:+ dl_adapter c +:+ ":" +:+
  pl_plan_id (dl_plan c).

Section coordinator.
Context {Backend : TargetBackend} {Host : CoordinatorHost}.
Context (compute_backoff : RetryPolicy -> Z -> Z) (as_raised : exc -> raised).
Context (to_builtins : OutboxDispatchContext -> list (string * Json.json)).

Definition stored {A} (p : proc A) : coord A := delivering (on_store as_raised p).

(** ** Receipts as stored *)

(** The stored row of a receipt that has no sequence number yet, if it can be
    read back. *)
Definition reload (receipt : option DeliveryReceipt) : proc (option DeliveryReceipt) :=
  match receipt with
  | None => mret None
  | Some r =>
      if 0 <? rc_sequence r then mret None
      else try_except
        (rows ← query (fun d => list_receipts_for_delivery d (receipt_identity r));
         mret (List.find (fun p => bool_decide (rc_receipt_id p = rc_receipt_id r)) (rev rows)))
        (mret None)
  end.

Definition or_else {A} (new old : option A) : option A := match new with Some x => Some x | None => old end.

(** [_persisted_receipt]: its object is a new one only if the row was read. *)
Definition persisted_receipt (receipt : DeliveryReceipt) : proc DeliveryReceipt :=
  default receipt <$$> reload (Some receipt).

Definition persisted_evidence (e : DeliveryExecutionEvidence) : coord DeliveryExecutionEvidence :=
  attempt ← stored (reload (xe_attempt_receipt e));
  authority ← stored (reload (xe_authority_receipt e));
  match attempt, authority with
  | None, None => mret e
  | _, _ =>
      let e' := {| xe_attempt_receipt := or_else attempt (xe_attempt_receipt e);
                   xe_authority_receipt := or_else authority (xe_authority_receipt e);
                   xe_failure_kind := xe_failure_kind e; xe_error := xe_error e |} in
      delivering (checked as_raised (DeliveryExecutionEvidence_init e')) ;; mret e'
  end.

Definition persist_suppression (c : delivery_context) (kind : DeliveryFailureKind) (error : string)
    : coord DeliveryReceipt :=
  stored (r ← build_and_persist_suppression_receipt (ev_event_id (dl_event c)) (pl_plan_id (dl_plan c))
                (dl_adapter c) (rt_channel (dl_target c)) (rte_id (dl_route c)) kind error
                (plan_capability_receipt_fields (dl_plan c)) (dl_source c) (dl_run c);
          persisted_receipt r).

(** The outcome of a delivery that was suppressed with a receipt. *)
Definition suppressed (c : delivery_context) (status : string) (kind : DeliveryFailureKind) (error : string)
    : coord DeliveryOutcome :=
  receipt ← persist_suppression c kind error;
  mret (build_outcome c status (Some kind) (Some receipt) (Some error) None).

(** ** Suppression checks *)

Definition incomplete_identity_outcome (c : delivery_context) : coord DeliveryOutcome :=
  suppressed c "skipped" ADAPTER_MISSING
    ("incomplete delivery identity: target_adapter=" +:+ py_repr (dl_adapter c) +:+
     "; a target without an adapter cannot enter the outbox lifecycle").

Definition replay_duplicate (c : delivery_context) (detail : string) : DeliveryOutcome :=
  build_outcome c "skipped" (Some REPLAY_DUPLICATE_SUPPRESSED) None
    (Some "replay_duplicate_suppressed: run target already claimed") (Some detail).

Definition replay_duplicate_outcome (c : delivery_context) (authority : option DeliveryReceipt)
    : coord (option DeliveryOutcome) :=
  if negb (bool_decide (dl_source c = "replay")) || negb (opt_truthy (dl_run c)) then mret None
  else
    claims ← stored (query (fun d => list_outbox_items_for_delivery d (dl_identity c)));
    match List.find (fun item : Row => bool_decide (Store.replay_run_id item = dl_run c)) claims with
    | Some claim => mret (Some (replay_duplicate c ("replay_run_claimed:" +:+ outbox_str (status claim))))
    | None =>
        match authority with
        | None => mret None
        | Some a =>
            if negb (bool_decide (rc_replay_run_id a = dl_run c)) then mret None
            else if negb (bool_decide (rc_receipt_kind a = Some "attempt")) ||
                    negb (elem (rc_status a) ["queued"; "sent"])
            then mret None
            else mret (Some (replay_duplicate c ("authoritative_receipt:" +:+ rc_status a)))
        end
    end.

Definition route_trace_loop (c : delivery_context) : bool :=
  match em_routing (ev_metadata (dl_event c)) with
  | None => false
  | Some m => (1 <? Z.of_nat (length (filter (fun id => id = rte_id (dl_route c)) (rm_route_trace m))))
  end.

Definition route_trace_loop_outcome (c : delivery_context) : coord (option DeliveryOutcome) :=
  if negb (route_trace_loop c) then mret None
  else
    remember [RouteLoop (rte_id (dl_route c)); CountLoop] ;;
    o ← suppressed c "skipped" LOOP_SUPPRESSED "loop_prevented: route already traversed in prior routing pass";
    mret (Some o).

Definition self_loop (c : delivery_context) : bool :=
  truthy (dl_adapter c) && bool_decide (dl_adapter c = ev_source_adapter (dl_event c)).

Definition self_loop_outcome (c : delivery_context) : coord (option DeliveryOutcome) :=
  if negb (self_loop c) then mret None
  else
    remember [RouteLoop (rte_id (dl_route c)); CountLoop] ;;
    o ← suppressed c "skipped" LOOP_SUPPRESSED "loop_prevented";
    mret (Some o).

Definition policy_decision (c : delivery_context) : option RouteDecision :=
  (fun p => evaluate_route_policy p
     {| pe_source_adapter := ev_source_adapter (dl_event c);
        pe_source_transport_id := ev_source_transport_id (dl_event c);
        pe_source_channel_id := ev_source_channel_id (dl_event c) |}
     {| pt_adapter := rt_adapter (dl_target c); pt_channel := rt_channel (dl_target c) |}) <$>
  rte_policy (dl_route c).

Definition policy_error (d : RouteDecision) : string :=
  let value := opt_or_empty (rd_blocked_value d) in
  let value := if bool_decide (BLOCKED_VALUE_CUTOFF <= String.length value)%nat
               then String.substring 0 BLOCKED_VALUE_CUTOFF value +:+ "..." else value in
  "policy_suppressed: " +:+ default "None" (rd_reason d) +:+ " (" +:+ default "None" (rd_blocked_field d) +:+
  "=" +:+ py_repr value +:+ "); " +:+ rd_allowed_summary d.

Definition policy_outcome (c : delivery_context) : coord (option DeliveryOutcome) :=
  match policy_decision c with
  | None => mret None
  | Some d =>
      if rd_allowed d then mret None
      else
        remember [RoutePolicySuppressed (rte_id (dl_route c)); CountPolicy] ;;
        o ← suppressed c "skipped" POLICY_SUPPRESSED (policy_error d);
        mret (Some o)
  end.

(** [ctx.adapter_id and ctx.adapter_id in self._adapters]. *)
Definition registered (c : delivery_context) : bool :=
  truthy (dl_adapter c) && match od_get (dl_adapter c) adapters with Some _ => true | None => false end.

Definition unsupported (c : delivery_context) : bool :=
  registered c && bool_decide (pl_capability_level (dl_plan c) = Some "unsupported").

Definition capability_outcome (c : delivery_context) : coord (option DeliveryOutcome) :=
  if negb (unsupported c) then mret None
  else
    let reason := match opt_or_none (pl_capability_reason (dl_plan c)) with
                  | Some r => r
                  | None => default "capability" (opt_or_none (pl_capability_field (dl_plan c))) +:+ " unsupported"
                  end in
    remember [RouteCapabilitySuppressed (rte_id (dl_route c)); CountCapability] ;;
    o ← suppressed c "skipped" CAPABILITY_SUPPRESSED ("capability_suppressed: " +:+ reason);
    mret (Some o).

Definition plan_skips (c : delivery_context) : bool :=
  bool_decide (st_method (pl_primary_strategy (dl_plan c)) = "skip") && registered c.

Definition plan_skip_outcome (c : delivery_context) : coord (option DeliveryOutcome) :=
  if negb (plan_skips c) then mret None
  else
    let error := match opt_or_none (pl_capability_reason (dl_plan c)) with
                 | Some r => "plan_skip: " +:+ r
                 | None => "plan_skip: delivery strategy is 'skip' (event_kind=" +:+
                           ev_event_kind (dl_event c) +:+ ")"
                 end in
    remember [RouteCapabilitySuppressed (rte_id (dl_route c)); CountCapability] ;;
    o ← suppressed c "skipped" CAPABILITY_SUPPRESSED error;
    mret (Some o).

(** The first check that gives an outcome. *)
Fixpoint first_outcome (checks : list (coord (option DeliveryOutcome))) : coord (option DeliveryOutcome) :=
  match checks with
  | [] => mret None
  | check :: rest =>
      outcome ← check;
      match (outcome : option DeliveryOutcome) with
      | Some o => mret (Some o)
      | None => first_outcome rest
      end
  end.

Definition preflight_outcome (c : delivery_context) (authority : option DeliveryReceipt)
    : coord (option DeliveryOutcome) :=
  first_outcome [replay_duplicate_outcome c authority; route_trace_loop_outcome c; self_loop_outcome c;
                 policy_outcome c; capability_outcome c; plan_skip_outcome c].

(** ** Replay authority and capacity *)

Definition load_replay_authority (c : delivery_context) : coord (option DeliveryReceipt) :=
  if negb (bool_decide (dl_source c = "replay")) then mret None
  else
    let read := query (fun d => delivery_status d (dl_identity c)) in
    stored (if opt_truthy (dl_run c) then read else try_except read (mret None)).

(** A permit, or the outcome of the rejected delivery; [None] when there is no
    controller. *)
Definition acquire_capacity_or_reject (c : delivery_context) : coord (bool * option DeliveryOutcome) :=
  if negb has_controller then mret (false, None)
  else
    acquired ← stored acquire_delivery;
    if (acquired : bool) then remember [TakePermit] ;; mret (true, None)
    else
      remember [CountRejection; CountCapacity; RouteFailed (rte_id (dl_route c)) "delivery_capacity_exceeded"] ;;
      accepting ← stored accepting_work;
      o ← (if (accepting : bool)
           then suppressed c "permanent_failure" CAPACITY_REJECTION "delivery_capacity_exceeded"
           else suppressed c "permanent_failure" SHUTDOWN_REJECTION "delivery_rejected_shutdown");
      mret (false, Some o).

(** ** Execution *)

(** [PipelineRunner.deliver_execution_to_target]: relations are bound for the
    target, then the plan is executed. *)
Definition deliver_target (c : delivery_context) (previous : option DeliveryReceipt) (ox : OutboxContext)
    : deliver DeliveryExecutionEvidence :=
  enriched ← outside_call (enrich_for_target (dl_event c) (dl_adapter c) (rt_channel (dl_target c)));
  deliver_execution compute_backoff as_raised
    {| ex_event := dl_event c; ex_route := dl_route c; ex_plan := dl_plan c; ex_render := Some enriched;
       ex_previous := previous; ex_source := dl_source c; ex_run := dl_run c;
       ex_outbox := ox_outbox_id ox; ex_reserved := ox_attempt_number ox;
       ex_worker := or_none (ox_pipeline_worker ox) |}.

Definition raising {A} (e : exc) : coord A := conclude (Raise (OtherError (as_raised e) None)).

(** The [try] block of [_invoke_target]. *)
Definition invoke_body (c : delivery_context) (previous : option DeliveryReceipt) (ox : OutboxContext)
    : coord (DeliveryOutcome * DeliveryExecutionEvidence) :=
  remember [CountAttempt] ;;
  fresh ← delivering (deliver_target c previous ox);
  evidence ← persisted_evidence fresh;
  match primary_receipt evidence with
  | None => raising (RuntimeError "target delivery returned no receipt evidence")
  | Some receipt =>
      remember [RouteDelivered (rte_id (dl_route c)); CountDelivered] ;;
      if bool_decide (rc_receipt_kind receipt = Some "lifecycle") then
        match rc_failure_kind receipt with
        | None => mret (build_outcome c "skipped" None (Some receipt) (rc_error receipt) None, evidence)
        | Some k =>
            match parse_failure_kind k with
            | Some kind =>
                mret (build_outcome c "skipped" (Some kind) (Some receipt) (rc_error receipt) None, evidence)
            | None => raising (ValueError "not a valid DeliveryFailureKind")
            end
        end
      else
        mret (build_outcome c (if bool_decide (rc_status receipt = "queued") then "queued" else "success")
                None (Some receipt) None None, evidence)
  end.

Definition failed_status (kind : DeliveryFailureKind) : string :=
  if is_retryable kind then "transient_failure" else "permanent_failure".

Definition count_failed (c : delivery_context) (error : string) : coord unit :=
  remember [RouteFailed (rte_id (dl_route c)) error; CountFailed].

Definition adapter_failed (c : delivery_context) (error : string) : coord unit :=
  delivering (note {| fn_by := "adapter"; fn_event := ev_event_id (dl_event c); fn_adapter := dl_adapter c;
                      fn_error := error |}).

(** Evidence that has a failure kind, if need be a derived one; its receipts
    are those checked before. *)
Definition with_kind (e : DeliveryExecutionEvidence) (kind : DeliveryFailureKind) (error : string)
    : DeliveryExecutionEvidence :=
  match xe_failure_kind e with
  | Some _ => e
  | None => {| xe_attempt_receipt := xe_attempt_receipt e; xe_authority_receipt := xe_authority_receipt e;
               xe_failure_kind := Some kind;
               xe_error := match opt_or_none (xe_error e) with Some t => Some t | None => Some error end |}
  end.

Definition invoke_target (c : delivery_context) (previous : option DeliveryReceipt) (ox : OutboxContext)
    : coord (DeliveryOutcome * DeliveryExecutionEvidence) :=
  ended ← guarded (invoke_body c previous ox);
  match ended with
  | Ok r => mret r
  | Raise (AdapterDeliveryError _ error original fresh) =>
      adapter_failed c error ;;
      count_failed c error ;;
      evidence ← persisted_evidence fresh;
      let kind := match xe_failure_kind evidence, original with
                  | Some k, _ => k
                  | None, Some e => classify_plain e
                  | None, None => ADAPTER_TRANSIENT
                  end in
      let evidence := with_kind evidence kind error in
      mret (build_outcome c (failed_status kind) (Some kind) (primary_receipt evidence) (Some error) None, evidence)
  | Raise (RendererDeliveryError _ error fresh) =>
      evidence ← persisted_evidence fresh;
      let kind := default RENDERER_FAILURE (xe_failure_kind evidence) in
      let evidence := with_kind evidence kind error in
      count_failed c error ;;
      mret (build_outcome c "permanent_failure" (Some kind) (primary_receipt evidence) (Some error) None, evidence)
  | Raise (OtherError e _) =>
      let error := ex_type_name e +:+ ": " +:+ ex_text e in
      let kind := classify_failure e (match od_get (dl_adapter c) adapters with Some _ => true | None => false end)
                    false false None 0 in
      adapter_failed c error ;;
      count_failed c error ;;
      mret (build_outcome c (failed_status kind) (Some kind) None (Some error) None,
            {| xe_attempt_receipt := None; xe_authority_receipt := None; xe_failure_kind := Some kind;
               xe_error := Some error |})
  end.

Definition no_evidence : DeliveryExecutionEvidence :=
  {| xe_attempt_receipt := None; xe_authority_receipt := None; xe_failure_kind := None; xe_error := None |}.

Definition inflight_delivery (c : delivery_context) (ox : OutboxContext) : InflightDelivery :=
  {| fl_event_id := ev_event_id (dl_event c); fl_route_id := rte_id (dl_route c);
     fl_target_adapter := dl_adapter c; fl_target_channel := rt_channel (dl_target c);
     fl_delivery_plan_id := pl_plan_id (dl_plan c); fl_source := dl_source c; fl_replay_run_id := dl_run c;
     fl_outbox_id := ox_outbox_id ox |}.

(** The [finally] block: the row is settled with the evidence there is. *)
Definition settle_row (c : delivery_context) (ox : OutboxContext)
    (ended : result delivery_error (DeliveryOutcome * DeliveryExecutionEvidence)) : coord unit :=
  let evidence := match ended with Ok (_, e) => e | Raise _ => no_evidence end in
  stored (finalize_outcome compute_backoff ox evidence (pl_retry_policy (dl_plan c))) ;; mret tt.

(** The row is settled whatever became of the execution. *)
Definition execute_owned_delivery (c : delivery_context) (previous : option DeliveryReceipt)
    (ox : OutboxContext) (key : option string) : coord DeliveryOutcome :=
  match key with Some k => remember [AddInflight k (inflight_delivery c ox)] | None => mret tt end ;;
  '(outcome, _) ← finally (invoke_target c previous ox) (settle_row c ox);
  mret outcome.

(** ** The whole delivery *)

(** From the permit on; the row is created and, when it is the pipeline's own,
    executed. *)
Definition deliver_admitted (c : delivery_context) (previous : option DeliveryReceipt) (permit : bool)
    : coord DeliveryOutcome :=
  ox ← stored (create_for_delivery to_builtins (dl_event c) (dl_route c) (dl_plan c) (dl_target c)
                 (dl_adapter c) (dl_source c) (dl_run c) false);
  if ox_replay_duplicate ox
  then mret (replay_duplicate c (default "replay_run_claimed" (opt_or_none (ox_skip_reason ox))))
  else match ox_skip_reason ox with
  | Some why => mret (build_outcome c "skipped" (Some OUTBOX_NOT_OWNED) None
                        (Some ("outbox row not owned: " +:+ why)) (Some why))
  | None =>
      if permit
      then finally (execute_owned_delivery c previous ox (Some (inflight_key c)))
             (fun _ => remember [DropInflight (inflight_key c)])
      else execute_owned_delivery c previous ox None
  end.

Definition deliver_after_replay_gate (c : delivery_context) : coord DeliveryOutcome :=
  authority ← load_replay_authority c;
  preflight ← preflight_outcome c authority;
  match (preflight : option DeliveryOutcome) with
  | Some o => mret o
  | None =>
      '(permit, rejection) ← acquire_capacity_or_reject c;
      match (rejection : option DeliveryOutcome) with
      | Some o => mret o
      | None =>
          if (permit : bool)
          then finally (deliver_admitted c authority true) (fun _ => remember [ReturnPermit])
          else deliver_admitted c authority false
      end
  end.

Definition deliver_one (c : delivery_context) : coord DeliveryOutcome :=
  if negb (identity_complete (dl_identity c)) then incomplete_identity_outcome c
  else deliver_after_replay_gate c.

(** A row the dispatcher claimed for its first delivery. *)
Definition deliver_initial_outbox (event : CanonicalEvent) (route : Route) (plan : DeliveryPlan) (item : Row)
    (reserved : Z) : coord DeliveryOutcome :=
  let c := {| dl_event := event; dl_route := route; dl_plan := plan; dl_source := "live"; dl_run := None |} in
  let ox := {| ox_outbox_id := Some (outbox_id item); ox_created := true;
               ox_pipeline_worker := opt_or_empty (worker_id item); ox_skip_reason := None;
               ox_attempt_number := Some reserved; ox_replay_duplicate := false |} in
  finally (execute_owned_delivery c None ox (Some (inflight_key c)))
    (fun _ => remember [DropInflight (inflight_key c)]).

Definition enqueue_one (event : CanonicalEvent) (route : Route) (plan : DeliveryPlan) : coord DeliveryOutcome :=
  let c := {| dl_event := event; dl_route := route; dl_plan := plan; dl_source := "live"; dl_run := None |} in
  if negb (identity_complete (dl_identity c)) then incomplete_identity_outcome c
  else
    preflight ← preflight_outcome c None;
    match (preflight : option DeliveryOutcome) with
    | Some o => mret o
    | None =>
        ox ← stored (create_for_delivery to_builtins event route plan (dl_target c) (dl_adapter c) "live" None true);
        if bool_decide (ox_skip_reason ox = Some OUTBOX_CREATION_FAILED_REASON)
        then mret (build_outcome c "skipped" (Some OUTBOX_NOT_OWNED) None None (ox_skip_reason ox))
        else mret (build_outcome c "queued" None None None None)
    end.

Fixpoint enqueue_many (event : CanonicalEvent) (route_targets : list (Route * DeliveryPlan))
    : coord (list DeliveryOutcome) :=
  match route_targets with
  | [] => mret []
  | (route, plan) :: rest =>
      o ← enqueue_one event route plan;
      os ← enqueue_many event rest;
      mret (o :: os)
  end.
End coordinator.
