(* ===== verification/CoordinatorSafety.v ===== *)
(** * What the coordinator guarantees

    Two properties of a delivery, whatever other tasks do in between and
    whichever storage calls fail: it hands its result over at most once and
    only past every gate; and the outcome tells the truth about what was handed
    over and about the receipts. *)

From S2P Require Import Prelude.
From S2P Require Import DeliveryState.
From S2P Require Import RoutePolicy.
From S2P Require Import Router.
From S2P Require Import Delivery.
From S2P Require Import Events.
From S2P Require Import DeliveryPlan.
From S2P Require Import Store.
From S2P Require Import Outbox.
From S2P Require Import OutboxProofs.
From S2P Require Import Receipts.
From S2P Require Import StorageProgram.
From S2P Require Import ReceiptFactory.
From S2P Require Import RetryPlan.
From S2P Require Import DeliveryLifecycle.
From S2P Require Import OutboxManager.
From S2P Require Import LifecycleSafety.
From S2P Require Import RetryRoundtrip.
From S2P Require Import TargetDelivery.
From S2P Require Import TargetSafety.
From S2P Require Import Accounting.
From S2P Require Import DeliveryCoordinator.

Open Scope string_scope.
Open Scope list_scope.
Open Scope Z_scope.

(** ** Steps without a native call *)

Abbreviation co_world s := (dv_world (co_site s)).

(** The step appended these operations, and otherwise only worked on the store. *)
Record calm (ops : list memory_op) (s s' : coordinator_site) : Prop := {
  cm_moved : dmoved (co_site s) (co_site s');
  cm_ops : co_ops s' = co_ops s ++ ops
}.

Lemma calm_refl s : calm [] s s.
Proof. split; [reflexivity|by rewrite app_nil_r]. Qed.
Lemma calm_trans a b s1 s2 s3 : calm a s1 s2 -> calm b s2 s3 -> calm (a ++ b) s1 s3.
Proof. intros [M1 O1] [M2 O2]. split; [by etrans|]. by rewrite O2, O1, app_assoc. Qed.

(** Operations of a run satisfy [P]. *)
Class Calm (P : memory_op -> Prop) {A} (m : coord A) : Prop :=
  calm_run s r s' : m s = (r, s') -> exists ops, calm ops s s' /\ Forall P ops.

Section calm.
Context (P : memory_op -> Prop).

Lemma calm_ret {A} (a : A) : Calm P (mret (M := coord) a).
Proof. intros s r s' [= _ <-]. exists []. split; [apply calm_refl|done]. Qed.
Lemma calm_conclude {A} (r : result delivery_error A) : Calm P (conclude r).
Proof. intros s r' s' [= _ <-]. exists []. split; [apply calm_refl|done]. Qed.
Lemma calm_remember ops : Forall P ops -> Calm P (remember ops).
Proof. intros Hp s r s' [= _ <-]. exists ops. split; [by split|done]. Qed.
Lemma calm_delivering {A} (m : deliver A) : Still m -> Calm P (delivering m).
Proof.
  intros Hm s r s'. unfold delivering. destruct (m (co_site s)) as [r' d] eqn:E. intros [= _ <-].
  exists []. split; [|done]. split; [by eapply still_run|by rewrite app_nil_r].
Qed.
Lemma calm_bind {A B} (m : coord A) (k : A -> coord B) :
  Calm P m -> (forall a, Calm P (k a)) -> Calm P (m ≫= k).
Proof.
  intros Hm Hk s r s'. unfold mbind, coord_bind. destruct (m s) as [[a|e] s1] eqn:E.
  - intros H. destruct (Hm _ _ _ E) as (o1 & C1 & F1), (Hk _ _ _ _ H) as (o2 & C2 & F2).
    exists (o1 ++ o2). split; [by eapply calm_trans|by apply Forall_app].
  - intros [= _ <-]. by eapply Hm.
Qed.
Lemma calm_guarded {A} (m : coord A) : Calm P m -> Calm P (guarded m).
Proof. intros Hm s r s'. unfold guarded. destruct (m s) as [r' s1] eqn:E. intros [= _ <-]. by eapply Hm. Qed.
End calm.

Create HintDb calm discriminated.
#[export] Hint Resolve calm_ret calm_conclude : calm.

Lemma cbind_run {A B} (m : coord A) (k : A -> coord B) s r s' :
  (m ≫= k) s = (r, s') ->
  (exists e, m s = (Raise e, s') /\ r = Raise e) \/ exists a s1, m s = (Ok a, s1) /\ k a s1 = (r, s').
Proof. unfold mbind, coord_bind. destruct (m s) as [[a|e] s1]; [eauto|]. intros [= <- <-]. eauto. Qed.

Lemma concluded_run {A} (m : coord A) f s r s' :
  finally m f s = (r, s') ->
  exists r1 s1, m s = (r1, s1) /\
    ((exists e, f r1 s1 = (Raise e, s') /\ r = Raise e) \/ (f r1 s1 = (Ok tt, s') /\ r = r1)).
Proof.
  unfold finally, guarded, conclude, mbind, coord_bind. destruct (m s) as [r1 s1]. intros H. exists r1, s1.
  split; [done|]. destruct (f r1 s1) as [[[]|e] s2]; injection H as <- <-; eauto.
Qed.

Lemma remember_run ops s r s' : remember ops s = (r, s') -> r = Ok tt /\ calm ops s s'.
Proof. intros [= <- <-]. by split. Qed.

Section coordinator.
Context {Backend : TargetBackend} {Laws : TargetBackendLaws Backend}.
Context {Host : CoordinatorHost} {HostLaws : CoordinatorHostLaws Host}.
Context (compute_backoff : RetryPolicy -> Z -> Z) (as_raised : exc -> raised).
Context (to_builtins : OutboxDispatchContext -> list (string * Json.json)).

Lemma calm_stored {A} P (p : proc A) : Traced p -> Calm P (stored as_raised p).
Proof. intros Hp. by apply calm_delivering, still_store. Qed.

Lemma stored_run {A} (p : proc A) s a s' :
  stored as_raised p s = (Ok a, s') -> p (co_world s) = (Ok a, co_world s').
Proof.
  unfold stored, delivering. destruct (on_store as_raised p (co_site s)) as [r d] eqn:E. intros [= -> <-].
  by apply on_store_run in E as [? _].
Qed.

(** ** Reading receipts back *)

#[local] Instance traced_reload r : Traced (reload r).
Proof. unfold reload. solve_traced. Qed.
#[local] Instance traced_persisted r : Traced (persisted_receipt r).
Proof. unfold persisted_receipt. apply _. Qed.
#[local] Instance traced_suppression e p a c r k t f s n :
  Traced (build_and_persist_suppression_receipt e p a c r k t f s n).
Proof. unfold build_and_persist_suppression_receipt. solve_traced. Qed.
#[local] Instance traced_finalize_outcome ox e p : Traced (finalize_outcome compute_backoff ox e p).
Proof. unfold finalize_outcome. apply _. Qed.

Lemma later_distinct w w' : later w w' -> receipts_distinct (w_db w) -> receipts_distinct (w_db w').
Proof. intros [ops ->]. apply (ev_receipts _ _ (exec_evolves ops (w_db w))). Qed.

Lemma read_rows d rows l p :
  read_receipts d rows = Ok l -> p ∈ l -> exists row, row ∈ rows /\ read_receipt d row = Ok p.
Proof.
  unfold read_receipts. revert l. induction rows as [|row rows IH]; intros l; cbn; [by intros [= <-] ?%elem_of_nil|].
  intros (x & Hx & (l' & Hl & [= <-])%bind_Ok)%bind_Ok [->|Hp]%elem_of_cons; [exists row; set_solver|].
  destruct (IH l' Hl Hp) as (row' & ? & ?). exists row'. set_solver.
Qed.

Lemma listed_rows d i l p :
  list_receipts_for_delivery d i = Ok l -> p ∈ l -> exists row, row ∈ receipts d /\ read_receipt d row = Ok p.
Proof.
  unfold list_receipts_for_delivery. case_match; [done|]. intros Hl Hp.
  destruct (read_rows _ _ _ _ Hl Hp) as (row & Hr & ?). exists row. split; [|done].
  rewrite sorted_by_perm in Hr. by apply list_elem_of_filter in Hr as [_ ?].
Qed.

(** A receipt on record read back is that receipt. *)
Lemma reload_run r w p w' :
  receipts_distinct (w_db w) -> recorded (w_db w) r -> well_kinded r ->
  reload (Some r) w = (Ok (Some p), w') ->
  recorded (w_db w') p /\ well_kinded p /\ rc_status p = rc_status r /\ rc_event_id p = rc_event_id r /\
  rc_outbox_id p = rc_outbox_id r /\ rc_attempt_number p = rc_attempt_number r.
Proof.
  intros Hd Hr [Hk Hf] H. unfold reload in H. destruct (0 <? rc_sequence r); [done|].
  unfold try_except in H.
  match type of H with match ?m with _ => _ end = _ => destruct m as [[o|e] w1] eqn:E end; [|done].
  injection H as -> ->.
  apply proc_bind_Ok in E as (rows & w2 & (ops & Hq & Hw)%query_Ok & [= Hfind <-]).
  assert (later w w2) as L by (by exists ops).
  apply find_some in Hfind as [Hin Hid%bool_decide_eq_true]. apply in_rev, list_elem_of_In in Hin. rewrite <-Hw in Hq. destruct (listed_rows _ _ _ _ Hq Hin) as (row & Hrow & Hread).
  pose proof (later_distinct _ _ L Hd) as Hd'. pose proof (later_recorded _ _ _ L Hr) as (row' & Hrow' & Hi & He & Hs & Hkd & Ho & Hn & Hfk).
  apply init_form in Hread as (k & source & run & Hexp & ->). simpl in *.
  assert (row = row') as ->.
  { eapply (NoDup_fmap_inj_on rc_receipt_id); [exact Hd'|done..|congruence]. }
  split_and!; try congruence.
  - exists row'. split; [done|]. simpl. split_and!; congruence.
  - split; simpl; [congruence|]. intros k' Hk'. apply Hf. congruence.
Qed.

(** ** Gates *)

(** Operations of suppressed deliveries. *)
Definition idle (op : memory_op) : Prop :=
  match op with
  | TakePermit | ReturnPermit | AddInflight _ _ | DropInflight _ | RouteDelivered _
  | CountAttempt | CountDelivered | CountFailed => False
  | _ => True
  end.

Record gates_passed (c : delivery_context) : Prop := {
  gp_trace : route_trace_loop c = false;
  gp_self : self_loop c = false;
  gp_policy d : policy_decision c = Some d -> rd_allowed d = true;
  gp_capability : unsupported c = false;
  gp_plan : plan_skips c = false
}.

(** The replay gate: no outbox row of the delivery was claimed under its replay
    run, and the receipt that decides the delivery is no acceptance of that
    run, both read since [w0]. *)
Definition replay_unclaimed (c : delivery_context) (w0 : world) : Prop :=
  dl_source c = "replay" -> opt_truthy (dl_run c) = true ->
  exists claims authority w1 w2, later w0 w1 /\ later w0 w2 /\
    delivery_status (w_db w1) (dl_identity c) = Ok authority /\
    list_outbox_items_for_delivery (w_db w2) (dl_identity c) = Ok claims /\
    (forall item : Row, item ∈ claims -> Store.replay_run_id item <> dl_run c) /\
    forall a, authority = Some a -> rc_replay_run_id a = dl_run c -> rc_receipt_kind a = Some "attempt" ->
      rc_status a ∉ ["queued"; "sent"].

Lemma replay_unclaimed_weaken c w0 w : later w0 w -> replay_unclaimed c w -> replay_unclaimed c w0.
Proof.
  intros L H Hs Hr. destruct (H Hs Hr) as (claims & a & w1 & w2 & L1 & L2 & H').
  exists claims, a, w1, w2. split; [by etrans|]. split; [by etrans|]. exact H'.
Qed.

(** The outcome is about this delivery. *)
Definition about (c : delivery_context) (o : DeliveryOutcome) : Prop :=
  oo_event_id o = ev_event_id (dl_event c) /\ oo_target_adapter o = dl_adapter c /\
  oo_route_id o = rte_id (dl_route c) /\ oo_delivery_plan_id o = pl_plan_id (dl_plan c).

(** A check only counts and suppresses; it skips the delivery, or passes it and
    then [passed] holds. *)
Record gate (c : delivery_context) (check : coord (option DeliveryOutcome)) (passed : Prop) : Prop := {
  ga_calm : Calm idle check;
  ga_run s r s' : check s = (Ok r, s') ->
    match r with None => passed | Some o => about c o /\ oo_status o = "skipped" end;
  ga_receipt s o s' : receipts_distinct (w_db (co_world s)) -> check s = (Ok (Some o), s') ->
    match oo_receipt o with
    | Some rc => recorded (w_db (co_world s')) rc /\ rc_status rc = "suppressed"
    | None => dl_source c = "replay"
    end
}.

Lemma calm_suppressed P c st k e : Calm P (suppressed as_raised c st k e).
Proof.
  apply calm_bind; [apply calm_stored; apply _|]. intros r. apply calm_ret.
Qed.

Lemma suppressed_run c st k e s o s' :
  suppressed as_raised c st k e s = (Ok o, s') ->
  exists rc, o = build_outcome c st (Some k) (Some rc) (Some e) None.
Proof. intros [(e' & _ & [=])|(rc & s1 & _ & [= <- _])]%cbind_run. eauto. Qed.

(** The receipt of a suppressed delivery is on record. *)
Lemma suppressed_recorded c st k e s o s' :
  receipts_distinct (w_db (co_world s)) -> suppressed as_raised c st k e s = (Ok o, s') ->
  exists rc, oo_receipt o = Some rc /\ recorded (w_db (co_world s')) rc /\ rc_status rc = "suppressed".
Proof.
  intros Hd [(e' & _ & [=])|(rc & s1 & H & [= <- <-])]%cbind_run. exists rc. split; [done|].
  apply stored_run in H as (r & w1 & Hb & H)%proc_bind_Ok.
  unfold build_and_persist_suppression_receipt in Hb. apply proc_bind_Ok in Hb as (r' & w2 & Hb & Ha).
  apply proc_bind_Ok in Ha as ([] & w3 & Ha & [= -> ->]).
  assert (later (co_world s) w1) as L by (etrans; [exact (traced_run _ _ _ _ Hb)|exact (traced_run _ _ _ _ Ha)]).
  pose proof Hb as (_ & _ & _ & Hst)%build_Ok. apply build_kinds in Hb as [Hk Hf]. simpl in *.
  apply append_recorded in Ha. assert (well_kinded r) as Hw.
  { split; [by rewrite Hk, Hst|]. rewrite Hf. intros k' [= <-]. by rewrite parse_failure_value. }
  unfold persisted_receipt, proc_map in H. apply proc_bind_Ok in H as ([p|] & w4 & Hr & [= <- <-]); simpl.
  - apply reload_run in Hr as (Hrec & _ & Hs & _); [|by eapply later_distinct|done..]. split; [done|congruence].
  - split; [|done]. eapply later_recorded; [exact (traced_run _ _ _ _ Hr)|done].
Qed.

(** The shape of a check that counts and then suppresses. *)
Lemma suppressing_gate c (b : bool) ops k e :
  Forall idle ops ->
  gate c (if negb b then mret None
          else remember ops ;; o ← suppressed as_raised c "skipped" k e; mret (Some o)) (b = false).
Proof.
  intros Hi. split.
  - destruct b; simpl; [|apply calm_ret]. apply calm_bind; [by apply calm_remember|]. intros _.
    apply calm_bind; [apply calm_suppressed|]. intros o. apply calm_ret.
  - intros s r s' H. destruct b; simpl in H; [|by injection H as <-].
    apply cbind_run in H as [(e' & _ & [=])|(u & s1 & _ & H)].
    apply cbind_run in H as [(e' & _ & [=])|(o & s2 & Ho & [= <- _])].
    apply suppressed_run in Ho as [rc ->]. done.
  - intros s o s' Hd H. destruct b; simpl in H; [|done].
    apply cbind_run in H as [(e' & _ & [=])|(u & s1 & [_ [M _]]%remember_run & H)].
    apply cbind_run in H as [(e' & _ & [=])|(o' & s2 & Ho & [= <- <-])].
    apply suppressed_recorded in Ho as (rc & -> & ?); [done|]. eapply later_distinct, Hd. apply M.
Qed.

Lemma trace_gate c : gate c (route_trace_loop_outcome as_raised c) (route_trace_loop c = false).
Proof. apply suppressing_gate. by repeat constructor. Qed.
Lemma self_gate c : gate c (self_loop_outcome as_raised c) (self_loop c = false).
Proof. apply suppressing_gate. by repeat constructor. Qed.
Lemma capability_gate c : gate c (capability_outcome as_raised c) (unsupported c = false).
Proof. apply suppressing_gate. by repeat constructor. Qed.
Lemma plan_gate c : gate c (plan_skip_outcome as_raised c) (plan_skips c = false).
Proof. apply suppressing_gate. by repeat constructor. Qed.
Lemma passing_gate c (P : Prop) : P -> gate c (mret None) P.
Proof. intros HP. split; [apply calm_ret|by intros s r s' [= <- _]|done]. Qed.
Lemma policy_gate c :
  gate c (policy_outcome as_raised c) (forall d, policy_decision c = Some d -> rd_allowed d = true).
Proof.
  unfold policy_outcome. destruct (policy_decision c) as [d|]; [|by apply passing_gate].
  destruct (suppressing_gate c (negb (rd_allowed d)) [RoutePolicySuppressed (rte_id (dl_route c)); CountPolicy]
    POLICY_SUPPRESSED (policy_error d)) as [Hc Hr Hrc]; [by repeat constructor|].
  rewrite negb_involutive in *. split; [done| |done]. intros s r s' H. apply Hr in H. destruct r; [done|].
  intros d' [= <-]. by apply negb_false_iff.
Qed.
Lemma replay_gate c authority : gate c (replay_duplicate_outcome as_raised c authority) True.
Proof.
  unfold replay_duplicate_outcome. case_match eqn:Hlive; [by apply passing_gate|]. split.
  - apply calm_bind; [apply calm_stored, _|]. intros claims. repeat case_match; apply calm_ret.
  - intros s r s' [(e' & _ & [=])|(claims & s1 & _ & Hr)]%cbind_run.
    destruct r as [o|]; [|done]. repeat case_match; first [discriminate Hr|by injection Hr as <-].
  - intros s o s' _ [(e' & _ & [=])|(claims & s1 & _ & Hr)]%cbind_run.
    assert (oo_receipt o = None) as ->
      by (repeat case_match; first [discriminate Hr|by injection Hr as <-]).
    by apply orb_false_iff in Hlive as [?%negb_false_iff%bool_decide_eq_true _].
Qed.

Lemma first_gate c checks passed :
  Forall2 (gate c) checks passed -> gate c (first_outcome checks) (Forall id passed).
Proof.
  induction 1 as [|check p checks passed [Hc Hr Hrc] _ [IHc IHr IHrc]]; cbn; [by apply passing_gate|]. split.
  - apply calm_bind; [done|]. intros [o|]; [apply calm_ret|done].
  - intros s r s' [(e' & _ & [=])|(o & s1 & Ho & H)]%cbind_run. apply Hr in Ho.
    destruct o as [o|]; [by injection H as <-|]. apply IHr in H. destruct r; [done|]. by constructor.
  - intros s o s' Hd [(e' & _ & [=])|(o1 & s1 & Ho & H)]%cbind_run.
    destruct (Hc _ _ _ Ho) as (ops & [M _] & _). destruct o1 as [o1|]; [injection H as <- <-; by eapply Hrc|].
    eapply IHrc; [|exact H]. eapply later_distinct, Hd. apply M.
Qed.

Lemma preflight_gate c authority : gate c (preflight_outcome as_raised c authority) (gates_passed c).
Proof.
  destruct (first_gate c
    [replay_duplicate_outcome as_raised c authority; route_trace_loop_outcome as_raised c;
     self_loop_outcome as_raised c; policy_outcome as_raised c; capability_outcome as_raised c;
     plan_skip_outcome as_raised c]
    [True; route_trace_loop c = false; self_loop c = false;
     (forall d, policy_decision c = Some d -> rd_allowed d = true); unsupported c = false; plan_skips c = false])
    as [Hc Hr Hrc].
  { constructor; [apply replay_gate|]. constructor; [apply trace_gate|]. constructor; [apply self_gate|].
    constructor; [apply policy_gate|]. constructor; [apply capability_gate|]. constructor; [apply plan_gate|constructor]. }
  split; [done| |done]. intros s r s' H. apply Hr in H. destruct r; [done|].
  decompose_Forall_hyps. by split.
Qed.

Lemma authority_calm c : Calm idle (load_replay_authority as_raised c).
Proof. unfold load_replay_authority. case_match; [apply calm_ret|]. apply calm_stored. case_match; apply _. Qed.

(** A delivery that goes on from the replay gate. *)
Lemma replay_gate_passed c s authority s1 s2 s' :
  load_replay_authority as_raised c s = (Ok authority, s1) -> dmoved (co_site s1) (co_site s2) ->
  preflight_outcome as_raised c authority s2 = (Ok None, s') -> replay_unclaimed c (co_world s).
Proof.
  intros H1 M H Hsrc Hrun. assert (dmoved (co_site s) (co_site s1)) as M0
    by (by destruct (authority_calm c _ _ _ H1) as (ops & [? _] & _)).
  unfold load_replay_authority in H1. rewrite bool_decide_true in H1 by done. cbn [negb] in H1. rewrite Hrun in H1.
  apply stored_run in H1 as (ops & Hst & Hw)%query_Ok. rewrite <-Hw in Hst.
  apply cbind_run in H as [(e & _ & [=])|(o & s3 & H & Hrest)].
  assert (o = None) as -> by (destruct o; [by injection Hrest|done]). clear Hrest.
  unfold replay_duplicate_outcome in H. rewrite bool_decide_true in H by done. rewrite Hrun in H. cbn [negb orb] in H.
  apply cbind_run in H as [(e & _ & [=])|(claims & s4 & H4 & H)].
  apply stored_run in H4 as (ops' & Hl & Hw')%query_Ok. rewrite <-Hw' in Hl.
  exists claims, authority, (co_world s1), (co_world s4). split_and!; [apply M0| |done..| |].
  - etrans; [apply M0|]. etrans; [apply M|]. by exists ops'.
  - destruct (List.find _ claims) eqn:Hf; [done|]. intros item Hin Hc.
    apply list_elem_of_In, (find_none _ _ Hf), bool_decide_eq_false in Hin. done.
  - intros a -> Hra Hk Hin. destruct (List.find _ claims); [done|]. rewrite Hra in H.
    rewrite bool_decide_true, (bool_decide_true (rc_receipt_kind a = _)) in H by done. cbn [negb orb] in H.
    assert (elem (rc_status a) ["queued"; "sent"] = true) as E by by apply bool_decide_eq_true.
    by rewrite E in H.
Qed.

(** The permit: refused with an outcome, not needed, or taken. *)
Lemma permit_run c s r s' :
  acquire_capacity_or_reject as_raised c s = (r, s') ->
  (calm [TakePermit] s s' /\ r = Ok (true, None)) \/
  (exists ops, calm ops s s' /\ Forall idle ops /\
     match r with
     | Ok (permit, rejection) => permit = false /\
         match rejection with
         | None => has_controller = false
         | Some o => about c o /\ oo_status o = "permanent_failure" /\ oo_failure_kind o <> None /\ oo_error o <> None
         end
     | Raise _ => True
     end).
Proof.
  intros H. unfold acquire_capacity_or_reject in H. destruct has_controller eqn:Hc; simpl in H.
  2: { right. injection H as <- <-. exists []. split; [apply calm_refl|done]. }
  apply cbind_run in H as [(e & H & ->)|(got & s1 & H1 & H)].
  { right. apply (calm_stored idle _ _) in H as (ops & C & F). exists ops. done. }
  pose proof (calm_stored (fun _ => False) _ _ _ _ _ H1) as ([|] & C1 & F1); [|by inversion F1].
  destruct got.
  { left. apply cbind_run in H as [(e & [=] & ->)|(u & s2 & [_ C2]%remember_run & [= <- <-])].
    split; [|done]. by apply (calm_trans [] [TakePermit] s s1 s2). }
  right. apply cbind_run in H as [(e & [=] & ->)|(u & s2 & [_ C2]%remember_run & H)].
  set (rest := accepting ← _; _) in H.
  assert (Calm idle rest) as Hcalm.
  { apply calm_bind; [apply calm_stored, _|]. intros b. apply calm_bind; [destruct b; apply calm_suppressed|].
    intros o. apply calm_ret. }
  destruct (Hcalm _ _ _ H) as (ops & C3 & F3). eexists. split; [eapply calm_trans, C3; by eapply calm_trans|].
  split; [by repeat constructor|]. destruct r as [[permit rejection]|]; [|done]. unfold rest in H.
  apply cbind_run in H as [(e & _ & [=])|(b & s3 & _ & H)].
  apply cbind_run in H as [(e & _ & [=])|(o & s4 & Ho & [= <- <- _])].
  destruct b; apply suppressed_run in Ho as [rc ->]; done.
Qed.

(** ** The execution *)

Definition execution_of (c : delivery_context) (previous : option DeliveryReceipt) (ox : OutboxContext)
    (enriched : EnrichedEvent) : execution :=
  {| ex_event := dl_event c; ex_route := dl_route c; ex_plan := dl_plan c; ex_render := Some enriched;
     ex_previous := previous; ex_source := dl_source c; ex_run := dl_run c;
     ex_outbox := ox_outbox_id ox; ex_reserved := ox_attempt_number ox;
     ex_worker := or_none (ox_pipeline_worker ox) |}.

(** The submission is that of a fenced execution of this delivery for this row. *)
Definition executed (c : delivery_context) (ox : OutboxContext) (w0 : world) (sub : submission) : Prop :=
  exists previous enriched source run id,
    fenced (dispatch_of (execution_of c previous ox enriched) source run id) w0 sub.

Definition at_most_once (c : delivery_context) (ox : OutboxContext) (s s' : delivery_site) : Prop :=
  dmoved s s' \/ exists sub, called s s' sub /\ executed c ox (dv_world s) sub.

Lemma executed_weaken c ox w0 w sub : later w0 w -> executed c ox w sub -> executed c ox w0 sub.
Proof. intros L (p & e & so & ru & id & F). exists p, e, so, ru, id. by eapply fenced_weaken. Qed.
Lemma at_most_once_l c ox s0 s s' : dmoved s0 s -> at_most_once c ox s s' -> at_most_once c ox s0 s'.
Proof.
  intros M [M'|(sub & Hc & He)]; [left; by etrans|right]. exists sub. split; [by eapply called_l|].
  eapply executed_weaken, He. apply M.
Qed.
Lemma at_most_once_r c ox s0 s s' : at_most_once c ox s0 s -> dmoved s s' -> at_most_once c ox s0 s'.
Proof. intros [M'|(sub & Hc & He)] M; [left; by etrans|right]. exists sub. split; [by eapply called_r|done]. Qed.
Lemma at_most_once_later c ox s s' : at_most_once c ox s s' -> later (dv_world s) (dv_world s').
Proof. by intros [[]|(sub & [] & _)]. Qed.

(** Everything there was to hand over was, under some worker name. *)
Definition handed_whole (s s' : delivery_site) : Prop :=
  exists worker sub, called s s' sub /\ whole (dv_world s) worker sub.

Lemma handed_whole_l s0 s s' : dmoved s0 s -> handed_whole s s' -> handed_whole s0 s'.
Proof.
  intros M (k & sub & Hc & Hw). exists k, sub. split; [by eapply called_l|]. eapply whole_weaken, Hw. apply M.
Qed.
Lemma handed_whole_r s0 s s' : handed_whole s0 s -> dmoved s s' -> handed_whole s0 s'.
Proof. intros (k & sub & Hc & Hw) M. exists k, sub. split; [by eapply called_r|done]. Qed.

(** A receipt on record that tells what the adapter was handed. *)
Record testifies (c : delivery_context) (s s' : delivery_site) (rc : DeliveryReceipt) : Prop := {
  tt_recorded : recorded (w_db (dv_world s')) rc;
  tt_kinds : well_kinded rc;
  tt_event : rc_event_id rc = ev_event_id (dl_event c);
  tt_called : rc_status rc = "suppressed" /\ called s s' nothing \/
    rc_status rc ∈ ["sent"; "queued"] /\ handed_whole s s'
}.

Lemma target_run c previous ox s r s' :
  deliver_target compute_backoff as_raised c previous ox s = (r, s') ->
  at_most_once c ox s s' /\ forall ev, r = Ok ev -> exists rc, ev = evidence_of rc /\ testifies c s s' rc.
Proof.
  intros [(e & H & ->)|(enriched & s1 & H1 & H)]%dbind_run.
  { split; [|done]. left. pose proof (still_outside _ (enrich_orderly (dl_event c) (dl_adapter c) (rt_channel (dl_target c)))) as Hs.
    exact (still_run _ _ _ _ H). }
  assert (dmoved s s1) as M.
  { pose proof (still_outside _ (enrich_orderly (dl_event c) (dl_adapter c) (rt_channel (dl_target c)))) as Hs.
    exact (still_run _ _ _ _ H1). }
  change (deliver_execution compute_backoff as_raised (execution_of c previous ox enriched) s1 = (r, s')) in H.
  split.
  - apply (at_most_once_l c ox s s1 s' M). pose proof H as [[M1 _]|(source & run & id & res' & Hset & _)]%execution_run;
      [by left|]. destruct Hset as [[M1 _]|(sub & Hc & Hf & _)]; [by left|right].
    exists sub. split; [done|]. by exists previous, enriched, source, run, id.
  - intros ev ->. apply execution_reports in H as (rc & -> & Hrec & Hk & He & _ & _ & Hcase).
    exists rc. split; [done|]. split; [done..|]. destruct Hcase as [[? ?]|[? (sub & ? & ?)]].
    + left. split; [done|by eapply called_l].
    + right. split; [done|]. apply (handed_whole_l _ s1); [done|]. by eexists _, sub.
Qed.

(** ** Evidence read back *)

Lemma silent_run {A} (m : coord A) s r s' : Calm (fun _ => False) m -> m s = (r, s') -> calm [] s s'.
Proof. intros Hm H. destruct (Hm _ _ _ H) as ([|op ops] & C & F); [done|by inversion F]. Qed.

Lemma calm_persisted P e : Calm P (persisted_evidence as_raised e).
Proof.
  apply calm_bind; [apply calm_stored, _|]. intros attempt.
  apply calm_bind; [apply calm_stored, _|]. intros authority.
  destruct attempt, authority; try apply calm_ret; cbv zeta;
    (apply calm_bind; [by apply calm_delivering, still_store, _|]; intros u; apply calm_ret).
Qed.

Lemma testifies_r c s s1 s2 rc : testifies c s s1 rc -> dmoved s1 s2 -> testifies c s s2 rc.
Proof.
  intros [? ? ? Hc] M. split; [eapply later_recorded; [apply M|done]|done..|].
  destruct Hc as [[? ?]|[? ?]]; [left; split; [done|by eapply called_r]|right; split; [done|by eapply handed_whole_r]].
Qed.

Lemma reload_testifies c s0 rc s p s' :
  receipts_distinct (w_db (co_world s)) -> testifies c s0 (co_site s) rc ->
  stored as_raised (reload (Some rc)) s = (Ok (Some p), s') -> testifies c s0 (co_site s') p.
Proof.
  intros Hd Ht H. pose proof (calm_stored (fun _ => False) (reload (Some rc)) _) as Hq.
  destruct (silent_run _ _ _ _ Hq H) as [M _]. pose proof (testifies_r _ _ _ _ _ Ht M) as [_ _ He Hc].
  apply stored_run, reload_run in H as (Hrec & Hk & Hs & Hev & _); [|done|apply Ht..].
  split; [done..|congruence|by rewrite Hs].
Qed.

Lemma persisted_run c s0 rc s ev s' :
  receipts_distinct (w_db (co_world s)) -> testifies c s0 (co_site s) rc ->
  persisted_evidence as_raised (evidence_of rc) s = (Ok ev, s') ->
  exists p, primary_receipt ev = Some p /\ testifies c s0 (co_site s') p.
Proof.
  intros Hd Ht H. unfold persisted_evidence in H.
  apply cbind_run in H as [(e & _ & [=])|(attempt & s1 & H1 & H)].
  apply cbind_run in H as [(e & _ & [=])|(authority & s2 & H2 & H)].
  pose proof (silent_run _ _ _ _ (calm_stored _ _ _) H1) as [M1 _].
  pose proof (silent_run _ _ _ _ (calm_stored _ _ _) H2) as [M2 _].
  assert (receipts_distinct (w_db (co_world s1))) as Hd1 by (eapply later_distinct, Hd; apply M1).
  assert (forall e' u (s3 : coordinator_site), (delivering (checked as_raised (DeliveryExecutionEvidence_init e')) ;; mret e') s2
    = (Ok u, s3) -> u = e' /\ dmoved (co_site s2) (co_site s3)) as Hcheck.
  { intros e' u s3 [(e & _ & [=])|(x & s4 & H4 & [= <- <-])]%cbind_run. split; [done|].
    apply (silent_run (delivering _)) in H4 as [M _]; [done|]. by apply calm_delivering, still_store, _. }
  pose proof (testifies_r _ _ _ _ _ Ht M1) as Ht1.
  unfold evidence_of in *. destruct (bool_decide (rc_receipt_kind rc = Some "lifecycle"));
    cbn [xe_attempt_receipt xe_authority_receipt] in *.
  - apply stored_run in H1 as Hr1. injection Hr1 as <- _. destruct authority as [p|].
    + apply Hcheck in H as [-> M3]. exists p. split; [done|]. eapply testifies_r, M3.
      exact (reload_testifies _ _ _ _ _ _ Hd1 Ht1 H2).
    + injection H as <- <-. exists rc. split; [done|]. by eapply testifies_r.
  - apply stored_run in H2 as Hr2. injection Hr2 as <- _. destruct attempt as [p|].
    + apply Hcheck in H as [-> M3]. exists p. split; [done|]. eapply testifies_r, M3. eapply testifies_r, M2.
      exact (reload_testifies _ _ _ _ _ _ Hd Ht H1).
    + injection H as <- <-. exists rc. split; [done|]. by eapply testifies_r.
Qed.

(** ** Outcomes *)

(** The outcome tells what happened between the two sites. *)
Inductive told (s s' : delivery_site) (o : DeliveryOutcome) : Prop :=
| Skipped : oo_status o = "skipped" -> called s s' nothing -> told s s' o
| HandedOver rc :
    oo_receipt o = Some rc -> recorded (w_db (dv_world s')) rc -> rc_event_id rc = oo_event_id o ->
    handed_whole s s' ->
    (oo_status o, rc_status rc) ∈ [("success", "sent"); ("queued", "queued")] -> told s s' o
| Failed k e :
    oo_status o ∈ ["transient_failure"; "permanent_failure"] -> oo_failure_kind o = Some k ->
    (oo_status o = "transient_failure" -> k = ADAPTER_TRANSIENT) -> oo_error o = Some e -> told s s' o.

Lemma told_r s s1 s2 o : told s s1 o -> dmoved s1 s2 -> told s s2 o.
Proof.
  intros [? Hn|rc Hr Hrec He Hn Hs|k e] M; [apply Skipped; [done|by eapply called_r]| |by eapply Failed].
  eapply HandedOver; [done|eapply later_recorded; [apply M|done]|done|by eapply handed_whole_r|done].
Qed.
Lemma told_l s0 s s' o : dmoved s0 s -> told s s' o -> told s0 s' o.
Proof.
  intros M [? Hn|rc Hr Hrec He Hn Hs|k e]; [apply Skipped; [done|by eapply called_l]| |by eapply Failed].
  eapply HandedOver; [done..|by eapply handed_whole_l|done].
Qed.

Lemma failed_told s s' c k rc e :
  told s s' (build_outcome c (failed_status k) (Some k) rc (Some e) None).
Proof.
  eapply Failed; simpl; [|done| |done]; unfold failed_status, is_retryable; case_bool_decide; set_solver.
Qed.

(** The counters of an execution; the flag says whether it ended with an
    outcome. *)
Inductive execution_ops (route : string) : bool -> list memory_op -> Prop :=
| ops_delivered b : execution_ops route b [CountAttempt; RouteDelivered route; CountDelivered]
| ops_failed b error : execution_ops route b [CountAttempt; RouteFailed route error; CountFailed]
| ops_open : execution_ops route false [CountAttempt].

(** The statement of [_invoke_target] about its [try] block. *)
Lemma body_run c previous ox s r s' :
  receipts_distinct (w_db (co_world s)) ->
  invoke_body compute_backoff as_raised c previous ox s = (r, s') ->
  at_most_once c ox (co_site s) (co_site s') /\
  match r with
  | Raise _ => co_ops s' = co_ops s ++ [CountAttempt]
  | Ok (o, _) =>
      co_ops s' = co_ops s ++ [CountAttempt; RouteDelivered (rte_id (dl_route c)); CountDelivered] /\
      about c o /\ told (co_site s) (co_site s') o
  end.
Proof.
  intros Hd H. unfold invoke_body in H.
  apply cbind_run in H as [(e & [=] & _)|(u & s1 & [_ [M1 O1]]%remember_run & H)].
  assert (forall m (r0 : result delivery_error DeliveryExecutionEvidence) s2, delivering m s1 = (r0, s2) ->
    exists d, m (co_site s1) = (r0, d) /\ co_site s2 = d /\ co_ops s2 = co_ops s1) as Hdel.
  { intros m r0 s2. unfold delivering. destruct (m (co_site s1)) as [r1 d]. intros [= -> <-]. by exists d. }
  apply cbind_run in H as [(e & H & ->)|(fresh & s2 & H2 & H)].
  { apply Hdel in H as (d & Ht & <- & O2). apply target_run in Ht as [A _]. split; [by eapply at_most_once_l|congruence]. }
  apply Hdel in H2 as (d & Ht & <- & O2). apply target_run in Ht as [A Hev].
  destruct (Hev fresh eq_refl) as (rc & -> & Htest). clear Hev. apply (at_most_once_l _ _ _ _ _ M1) in A.
  assert (receipts_distinct (w_db (co_world s2))) as Hd2
    by (eapply later_distinct, Hd; by eapply at_most_once_later).
  apply cbind_run in H as [(e & H & ->)|(evidence & s3 & H3 & H)].
  { apply silent_run in H as [M3 O3]; [|apply calm_persisted]. rewrite app_nil_r in O3.
    split; [by eapply at_most_once_r|congruence]. }
  destruct (persisted_run _ _ _ _ _ _ Hd2 Htest H3) as (p & Hp & [Hrec Hk He Hcall]).
  apply silent_run in H3 as [M3 O3]; [|apply calm_persisted]. rewrite app_nil_r in O3. rewrite Hp in H.
  apply cbind_run in H as [(e & [=] & _)|(u' & s4 & [_ [M4 O4]]%remember_run & H)].
  assert (at_most_once c ox (co_site s) (co_site s4)) as A4 by (eapply at_most_once_r, M4; by eapply at_most_once_r).
  assert (co_ops s4 = co_ops s ++ [CountAttempt; RouteDelivered (rte_id (dl_route c)); CountDelivered]) as O5
    by (rewrite O4, O3, O2, O1, <-app_assoc; done).
  assert (recorded (w_db (co_world s4)) p) as Hrec4 by (eapply later_recorded, Hrec; apply M4).
  destruct Hk as [Hkind Hfk]. destruct Hcall as [[Hst Hn]|[Hst Hn]].
  - assert (rc_receipt_kind p = Some "lifecycle") as Hl by (rewrite Hkind, Hst; reflexivity).
    rewrite bool_decide_true in H by done.
    destruct (rc_failure_kind p) as [k|] eqn:Hf.
    + specialize (Hfk k eq_refl). destruct (parse_failure_kind k); [|done]. injection H as <- <-.
      split_and!; [done..|]. apply Skipped; [done|]. by eapply called_l, called_r.
    + injection H as <- <-. split_and!; [done..|]. apply Skipped; [done|]. by eapply called_l, called_r.
  - assert (rc_receipt_kind p = Some "attempt") as Hl.
    { rewrite Hkind. apply elem_of_cons in Hst as [->|Hst]; [done|]. by apply list_elem_of_singleton in Hst as ->. }
    rewrite bool_decide_false in H by (rewrite Hl; done). injection H as <- <-.
    split_and!; [done..|]. eapply HandedOver; [done..|eapply handed_whole_l, handed_whole_r; done|].
    apply elem_of_cons in Hst as [Hs|Hst]; simpl.
    + rewrite bool_decide_false by (rewrite Hs; done). rewrite Hs. set_solver.
    + apply list_elem_of_singleton in Hst. rewrite bool_decide_true, Hst by done. set_solver.
Qed.

(** What a run that executes the plan does between two sites. *)
Record execution_ran (c : delivery_context) (ox : OutboxContext) (s s' : coordinator_site)
    (ops : list memory_op) (r : result delivery_error DeliveryOutcome) : Prop := {
  er_once : at_most_once c ox (co_site s) (co_site s');
  er_ops : co_ops s' = co_ops s ++ ops;
  er_told o : r = Ok o -> about c o /\ told (co_site s) (co_site s') o
}.

Lemma execution_ran_quiet c ox s s1 s' ops r1 r :
  execution_ran c ox s s1 ops r1 -> calm [] s1 s' -> (forall o, r = Ok o -> r1 = Ok o) ->
  execution_ran c ox s s' ops r.
Proof.
  intros [A O T] [M O'] Hr. rewrite app_nil_r in O'. split; [by eapply at_most_once_r|congruence|].
  intros o Ho. destruct (T o (Hr o Ho)). split; [done|]. by eapply told_r.
Qed.

Lemma calm_adapter_failed P c e : Calm P (adapter_failed c e).
Proof. apply calm_delivering, still_note. Qed.

(** After a failed block: the failure is counted, and the outcome is a failure. *)
Lemma failure_ran c ox s s1 s2 s' error r :
  at_most_once c ox (co_site s) (co_site s1) -> co_ops s1 = co_ops s ++ [CountAttempt] ->
  calm [] s1 s2 -> calm [RouteFailed (rte_id (dl_route c)) error; CountFailed] s2 s' ->
  (forall o, r = Ok o -> about c o /\ told (co_site s) (co_site s') o) ->
  execution_ran c ox s s' [CountAttempt; RouteFailed (rte_id (dl_route c)) error; CountFailed] r.
Proof.
  intros A O [M1 O1] [M2 O2] T. rewrite app_nil_r in O1. split; [|by rewrite O2, O1, O, <-app_assoc|done].
  eapply at_most_once_r, M2. by eapply at_most_once_r.
Qed.

Lemma invoke_run c previous ox s r s' :
  receipts_distinct (w_db (co_world s)) ->
  invoke_target compute_backoff as_raised c previous ox s = (r, s') ->
  exists ops, execution_ops (rte_id (dl_route c)) (match r with Ok _ => true | Raise _ => false end) ops /\
    execution_ran c ox s s' ops (match r with Ok (o, _) => Ok o | Raise e => Raise e end).
Proof.
  intros Hd H. unfold invoke_target in H.
  apply cbind_run in H as [(e & H & ->)|(ended & s1 & H1 & H)].
  { unfold guarded in H. by destruct (invoke_body _ _ _ _ _ _). }
  unfold guarded in H1. destruct (invoke_body _ _ _ _ _ s) as [ended' s1'] eqn:Hb. injection H1 as -> ->.
  apply (body_run _ _ _ _ _ _ Hd) in Hb as [A Hb]. destruct ended as [[o ev]|[ad error original fresh|ad error fresh|e hint]].
  - injection H as <- <-. destruct Hb as (O & Ha & Ht). eexists. split; [apply ops_delivered|].
    split; [done..|]. by intros o' [= <-].
  - apply cbind_run in H as [(e & [=] & _)|(u & s2 & H2 & H)].
    apply silent_run in H2; [|apply calm_adapter_failed].
    apply cbind_run in H as [(e & [=] & _)|(u' & s3 & [_ C3]%remember_run & H)].
    eexists. split; [apply ops_failed|].
    apply cbind_run in H as [(e & H & ->)|(evidence & s4 & H4 & H)].
    + apply silent_run in H; [|apply calm_persisted]. eapply execution_ran_quiet; [|exact H|done].
      by eapply failure_ran.
    + apply silent_run in H4; [|apply calm_persisted]. cbv zeta in H. injection H as <- <-.
      eapply (execution_ran_quiet _ _ _ _ _ _ (Ok _)); [|exact H4|by intros o Ho; exact Ho].
      eapply failure_ran; [done..|]. intros o [= <-]. split; [done|apply failed_told].
  - apply cbind_run in H as [(e & H & ->)|(evidence & s4 & H4 & H)].
    + apply silent_run in H as [M O]; [|apply calm_persisted]. rewrite app_nil_r in O. eexists. split; [apply ops_open|].
      split; [by eapply at_most_once_r|congruence|done].
    + apply silent_run in H4; [|apply calm_persisted]. cbv zeta in H.
      apply cbind_run in H as [(e & [=] & _)|(u & s5 & [_ C5]%remember_run & [= <- <-])].
      eexists. split; [apply ops_failed|]. eapply failure_ran; [done..|]. intros o [= <-]. split; [done|].
      eapply Failed; simpl; [set_solver|done|done|done].
  - cbv zeta in H. apply cbind_run in H as [(e' & [=] & _)|(u & s2 & H2 & H)].
    apply silent_run in H2; [|apply calm_adapter_failed].
    apply cbind_run in H as [(e' & [=] & _)|(u' & s3 & [_ C3]%remember_run & [= <- <-])].
    eexists. split; [apply ops_failed|]. eapply failure_ran; [done..|]. intros o [= <-]. split; [done|apply failed_told].
Qed.

Lemma calm_settle P c ox ended : Calm P (settle_row compute_backoff as_raised c ox ended).
Proof. apply calm_bind; [apply calm_stored, _|]. intros x. apply calm_ret. Qed.

(** Whatever the settlement of the row does, it makes no calls. *)
Lemma owned_run c previous ox key s r s' :
  receipts_distinct (w_db (co_world s)) ->
  execute_owned_delivery compute_backoff as_raised c previous ox key s = (r, s') ->
  exists b ops, execution_ops (rte_id (dl_route c)) b ops /\
    (match r with Ok _ => b = true | Raise _ => True end) /\
    execution_ran c ox s s'
      (match key with Some k => AddInflight k (inflight_delivery c ox) :: ops | None => ops end) r.
Proof.
  intros Hd H. unfold execute_owned_delivery in H.
  apply cbind_run in H as [(e & H & _)|(u & s1 & H1 & H)]; [by destruct key|].
  set (added := match key with Some k => [AddInflight k (inflight_delivery c ox)] | None => [] end).
  assert (calm added s s1) as C1 by (destruct key; [by apply remember_run in H1 as [_ ?]|injection H1 as _ <-; apply calm_refl]).
  destruct C1 as [M1 O1].
  assert (receipts_distinct (w_db (co_world s1))) as Hd1 by (eapply later_distinct, Hd; apply M1).
  assert (exists r1 s2, invoke_target compute_backoff as_raised c previous ox s1 = (r1, s2) /\ calm [] s2 s' /\
    forall o, r = Ok o -> exists ev, r1 = Ok (o, ev)) as (r1 & s2 & Hi & C2 & Hr).
  { apply cbind_run in H as [(e & H & ->)|([o ev] & s3 & H3 & [= <- <-])];
      [apply concluded_run in H as (r1 & s2 & Hi & Hf)|apply concluded_run in H3 as (r1 & s2 & Hi & Hf)];
      exists r1, s2; (split; [done|]); destruct Hf as [(e' & Hf & Hr)|[Hf Hr]]; (split; [by eapply silent_run, Hf; apply calm_settle|]);
      intros o' Ho; simplify_eq; eauto. }
  destruct (invoke_run _ _ _ _ _ _ Hd1 Hi) as (ops & Hops & Hran). exists (match r1 with Ok _ => true | Raise _ => false end), ops.
  split; [done|]. split; [destruct r as [o|]; [by destruct (Hr o eq_refl) as [ev ->]|done]|].
  apply (execution_ran_quiet c ox s s2 s' _ (match r1 with Ok (o, _) => Ok o | Raise e => Raise e end)); [|done|].
  - destruct Hran as [A O T]. split; [by eapply at_most_once_l| |].
    + rewrite O, O1, <-app_assoc. by destruct key.
    + intros o Ho. destruct (T o Ho). split; [done|]. by eapply told_l.
  - intros o Ho. by destruct (Hr o Ho) as [ev ->].
Qed.

(** ** The whole delivery *)

(** The operations of a delivery; the flag says whether it ended with an
    outcome. *)
Inductive delivery_ops (c : delivery_context) : bool -> list memory_op -> Prop :=
| ops_refused b pre : Forall idle pre -> delivery_ops c b pre
| ops_unlimited b pre ops :
    Forall idle pre -> execution_ops (rte_id (dl_route c)) b ops -> delivery_ops c b (pre ++ ops)
| ops_not_owned b pre : Forall idle pre -> delivery_ops c b (pre ++ [TakePermit; ReturnPermit])
| ops_permitted b pre d ops :
    Forall idle pre -> execution_ops (rte_id (dl_route c)) b ops ->
    delivery_ops c b (pre ++ TakePermit :: AddInflight (inflight_key c) d :: ops ++
                      [DropInflight (inflight_key c); ReturnPermit]).

(** The outbox row behind a dispatch, as read from the store in [w]: in progress
    under the run's own worker name, at the attempt that is dispatched. *)
Definition owned_row (w : world) (ox : OutboxContext) (row : Row) : Prop :=
  (exists r, r ∈ outbox (w_db w) /\ row = coalesce_outbox (w_db w) r) /\
  ox_outbox_id ox = Some (outbox_id row) /\ status row = InProgress /\
  worker_id row = Some (ox_pipeline_worker ox) /\ ox_attempt_number ox = Some (effective_attempt row).

(** Either nothing was handed over, or a submission was made for a row of its
    own, after the row was stored. *)
Definition handed_over (c : delivery_context) (s s' : delivery_site) : Prop :=
  dmoved s s' \/
  exists ox row sub w, later (dv_world s) w /\ owned_row w ox row /\ called s s' sub /\ executed c ox w sub.

Lemma handed_over_l c s0 s s' : dmoved s0 s -> handed_over c s s' -> handed_over c s0 s'.
Proof.
  intros M [M'|(ox & row & sub & w & L & Ho & Hc & He)]; [left; by etrans|right].
  exists ox, row, sub, w. split_and!; [etrans; [apply M|done]|done|by eapply called_l|done].
Qed.
Lemma handed_over_r c s0 s s' : handed_over c s0 s -> dmoved s s' -> handed_over c s0 s'.
Proof.
  intros [M'|(ox & row & sub & w & L & Ho & Hc & He)] M; [left; by etrans|right].
  exists ox, row, sub, w. split_and!; [done|done|by eapply called_r|done].
Qed.

(** Creation that lets the delivery go on leaves it with a row of its own. *)
Lemma creation_owns event route plan target adapter source run w ctx w' :
  create_for_delivery to_builtins event route plan target adapter source run false w = (Ok ctx, w') ->
  ox_skip_reason ctx = None -> exists row, owned_row w' ctx row.
Proof.
  intros H Hskip.
  destruct (create_for_delivery_call _ _ _ _ _ _ _ _ _ _ _ _ H Hskip)
    as (written & id & src & run' & row & _ & Hcall & Hst & Hw & Hid & Hpw & Ha).
  destruct (create_reads_row _ _ _ _ _ _ _ Hcall) as (r & Hr & Heq).
  exists row. split; [|by rewrite Hpw]. by exists r.
Qed.

Lemma execution_ops_open route b ops : execution_ops route b ops -> execution_ops route false ops.
Proof. by destruct 1; constructor. Qed.

(** How a delivery that was admitted went. *)
Definition admitted_ops (c : delivery_context) (permit : bool) (ok : bool) (ops : list memory_op) : Prop :=
  ops = [] \/ exists d ops', execution_ops (rte_id (dl_route c)) ok ops' /\
    ops = if permit then AddInflight (inflight_key c) d :: ops' ++ [DropInflight (inflight_key c)] else ops'.

Abbreviation is_ok r := (match r with Ok _ => true | Raise _ => false end).

Lemma owned_execution_run c previous ox permit s r s' :
  receipts_distinct (w_db (co_world s)) ->
  (if (permit : bool)
   then finally (execute_owned_delivery compute_backoff as_raised c previous ox (Some (inflight_key c)))
          (fun _ => remember [DropInflight (inflight_key c)])
   else execute_owned_delivery compute_backoff as_raised c previous ox None) s = (r, s') ->
  exists ops, admitted_ops c permit (is_ok r) ops /\ ops <> [] /\ execution_ran c ox s s' ops r.
Proof.
  intros Hd H. destruct permit.
  - apply concluded_run in H as (r1 & s1 & H1 & [(e & [=] & _)|[[_ [M O]]%remember_run ->]]).
    destruct (owned_run _ _ _ _ _ _ _ Hd H1) as (b & ops & Hops & Hb & [A O1 T]).
    eexists. split; [right; exists (inflight_delivery c ox), ops; split; [|reflexivity]|].
    { destruct r1; [by subst b|by eapply execution_ops_open]. }
    split; [done|]. split; [by eapply at_most_once_r|by rewrite O, O1, <-app_assoc|].
    intros o Ho. destruct (T o Ho). split; [done|by eapply told_r].
  - destruct (owned_run _ _ _ _ _ _ _ Hd H) as (b & ops & Hops & Hb & Hran). exists ops.
    split; [|split; [by destruct Hops|done]].
    right. exists (inflight_delivery c ox), ops. split; [|done]. destruct r; [by subst b|by eapply execution_ops_open].
Qed.

Lemma admitted_run c previous permit s r s' :
  receipts_distinct (w_db (co_world s)) ->
  deliver_admitted compute_backoff as_raised to_builtins c previous permit s = (r, s') ->
  exists ops, admitted_ops c permit (is_ok r) ops /\ co_ops s' = co_ops s ++ ops /\
    handed_over c (co_site s) (co_site s') /\
    (ops = [] -> dmoved (co_site s) (co_site s')) /\
    forall o, r = Ok o -> about c o /\ told (co_site s) (co_site s') o.
Proof.
  intros Hd H. unfold deliver_admitted in H.
  apply cbind_run in H as [(e & H & ->)|(ox & s1 & H1 & H)].
  { apply silent_run in H as [M O]; [|apply calm_stored, _]. exists []. split_and!; [by left|done|by left|done..]. }
  pose proof (silent_run _ _ _ _ (calm_stored _ _ _) H1) as [M O]. rewrite app_nil_r in O. apply stored_run in H1.
  assert (forall o, (mret o : coord DeliveryOutcome) s1 = (r, s') -> about c o -> oo_status o = "skipped" ->
    exists ops, admitted_ops c permit (is_ok r) ops /\ co_ops s' = co_ops s ++ ops /\
      handed_over c (co_site s) (co_site s') /\ (ops = [] -> dmoved (co_site s) (co_site s')) /\
      forall o, r = Ok o -> about c o /\ told (co_site s) (co_site s') o) as Hskipped.
  { intros o [= <- <-] Ha Hs. exists []. split_and!; [by left|by rewrite O, app_nil_r|by left|done|].
    intros o' [= <-]. split; [done|]. apply Skipped; [done|by apply called_nothing]. }
  destruct (ox_replay_duplicate ox); [by eapply Hskipped|].
  destruct (ox_skip_reason ox) as [why|] eqn:Hskip; [by eapply Hskipped|].
  destruct (creation_owns _ _ _ _ _ _ _ _ _ _ H1 Hskip) as [row Hrow].
  assert (receipts_distinct (w_db (co_world s1))) as Hd1 by (eapply later_distinct, Hd; apply M).
  destruct (owned_execution_run _ _ _ _ _ _ _ Hd1 H) as (ops & Hops & Hne & [A O2 T]).
  exists ops. split_and!; [done|congruence| |by intros ->|].
  - destruct A as [M'|(sub & Hc & He)]; [left; by etrans|right]. exists ox, row, sub, (co_world s1).
    split_and!; [apply M|done|by eapply called_l|done].
  - intros o Ho. destruct (T o Ho). split; [done|by eapply told_l].
Qed.

Abbreviation deliver_one := (deliver_one compute_backoff as_raised to_builtins).

(** The run of a delivery. *)
Record delivery_ran (c : delivery_context) (s s' : coordinator_site) (ops : list memory_op)
    (r : result delivery_error DeliveryOutcome) : Prop := {
  dr_shape : delivery_ops c (is_ok r) ops;
  dr_ops : co_ops s' = co_ops s ++ ops;
  dr_native : handed_over c (co_site s) (co_site s');
  dr_gates : ~ dmoved (co_site s) (co_site s') -> identity_complete (dl_identity c) = true /\ gates_passed c /\
    replay_unclaimed c (co_world s) /\
    (has_controller = true -> exists pre mid, ops = pre ++ TakePermit :: mid ++ [ReturnPermit] /\ CountAttempt ∈ mid);
  dr_told o : r = Ok o -> about c o /\ told (co_site s) (co_site s') o
}.

Lemma refused_ran c s s' ops r :
  calm ops s s' -> Forall idle ops ->
  (forall o, r = Ok o -> about c o /\ (oo_status o = "skipped" \/
     oo_status o = "permanent_failure" /\ oo_failure_kind o <> None /\ oo_error o <> None)) ->
  delivery_ran c s s' ops r.
Proof.
  intros [M O] Hi Ho. split; [by apply ops_refused|done|by left|done|].
  intros o Hr. destruct (Ho o Hr) as [Ha [Hs|(Hs & Hk & He)]]; (split; [done|]).
  - apply Skipped; [done|by apply called_nothing].
  - destruct (oo_failure_kind o) as [k|] eqn:Ek, (oo_error o) as [e|] eqn:Ee; try done.
    eapply Failed; [rewrite Hs; set_solver|done|by rewrite Hs|done].
Qed.

Lemma execution_attempts route b ops : execution_ops route b ops -> CountAttempt ∈ ops.
Proof. destruct 1; set_solver. Qed.

(** A delivery whose gates are passed, from its permit on. *)
Lemma admitted_ran c (permit : bool) s s2 pre ops r s' :
  identity_complete (dl_identity c) = true -> gates_passed c -> replay_unclaimed c (co_world s) ->
  (permit = false -> has_controller = false) ->
  calm pre s s2 -> Forall idle pre -> admitted_ops c permit (is_ok r) ops ->
  co_ops s' = co_ops s2 ++ (if permit then TakePermit :: ops ++ [ReturnPermit] else ops) ->
  handed_over c (co_site s2) (co_site s') ->
  (ops = [] -> dmoved (co_site s2) (co_site s')) ->
  (forall o, r = Ok o -> about c o /\ told (co_site s2) (co_site s') o) ->
  delivery_ran c s s' (pre ++ if permit then TakePermit :: ops ++ [ReturnPermit] else ops) r.
Proof.
  intros Hid Hg Hun Hp [M O] Hi Ha O' Hh Hne Ht. split.
  - destruct Ha as [->|(d & ops' & Hx & ->)]; destruct permit; simpl.
    + by apply ops_not_owned.
    + apply ops_refused. by rewrite app_nil_r.
    + rewrite <-app_assoc. by apply ops_permitted.
    + by apply ops_unlimited.
  - by rewrite O', O, app_assoc.
  - by eapply handed_over_l.
  - intros Hn. split_and!; [done..|]. intros Hc. destruct permit; [|by rewrite Hp in Hc].
    exists pre, ops. split; [done|]. destruct Ha as [->|(d & ops' & Hx & ->)].
    + destruct Hn. etrans; [exact M|by apply Hne].
    + apply execution_attempts in Hx. set_solver.
  - intros o Ho. destruct (Ht o Ho). split; [done|by eapply told_l].
Qed.

Lemma gate_ran c s r s' :
  receipts_distinct (w_db (co_world s)) -> identity_complete (dl_identity c) = true ->
  deliver_after_replay_gate compute_backoff as_raised to_builtins c s = (r, s') ->
  exists ops, delivery_ran c s s' ops r.
Proof.
  intros Hd Hid H. unfold deliver_after_replay_gate in H.
  apply cbind_run in H as [(e & H & ->)|(authority & s1 & H1 & H)].
  { apply authority_calm in H as (ops & C & F). exists ops. by apply refused_ran. }
  pose proof H1 as (o1 & C1 & F1)%authority_calm. destruct (preflight_gate c authority) as [Hgc Hgr _].
  apply cbind_run in H as [(e & H & ->)|(preflight & s2 & H2 & H)].
  { apply Hgc in H as (o2 & C2 & F2). eexists. eapply refused_ran; [by eapply calm_trans|by apply Forall_app|done]. }
  pose proof H2 as (o2 & C2 & F2)%Hgc. pose proof H2 as Hpre. apply Hgr in H2. destruct preflight as [o|].
  { injection H as <- <-. eexists. eapply refused_ran; [by eapply calm_trans|by apply Forall_app|].
    intros o' [= <-]. destruct H2. auto. }
  assert (replay_unclaimed c (co_world s)) as Hun by (eapply replay_gate_passed; [exact H1|reflexivity|exact Hpre]).
  assert (calm (o1 ++ o2) s s2) as C by by eapply calm_trans. assert (Forall idle (o1 ++ o2)) as F by by apply Forall_app.
  apply cbind_run in H as [(e & H & ->)|([permit rejection] & s3 & H3 & H)].
  { apply permit_run in H as [[_ [=]]|(o3 & C3 & F3 & _)].
    eexists. eapply refused_ran; [by eapply calm_trans|by apply Forall_app|done]. }
  apply permit_run in H3 as [[[M3 O3] [= -> ->]]|(o3 & C3 & F3 & -> & Hrej)].
  - assert (receipts_distinct (w_db (co_world s3))) as Hd3
      by (eapply later_distinct, later_distinct, Hd; [apply M3|apply (cm_moved _ _ _ C)]).
    apply concluded_run in H as (r1 & s4 & H4 & [(e & [=] & _)|[[_ [M5 O5]]%remember_run ->]]).
    destruct (admitted_run _ _ _ _ _ _ Hd3 H4) as (ops & Ha & O4 & Hh & Hn & Ht).
    eexists. eapply (admitted_ran c true); [done..|exact C|exact F|exact Ha|by rewrite O5, O4, O3, <-!app_assoc| | |].
    + eapply handed_over_l; [done|]. by eapply handed_over_r.
    + intros ->. etrans; [exact M3|]. etrans; [by apply Hn|done].
    + intros o Ho. destruct (Ht o Ho). split; [done|]. eapply told_l; [done|]. by eapply told_r.
  - assert (calm ((o1 ++ o2) ++ o3) s s3) as C' by by eapply calm_trans.
    assert (Forall idle ((o1 ++ o2) ++ o3)) as F' by by apply Forall_app. destruct rejection as [o|].
    { injection H as <- <-. eexists. eapply refused_ran; [exact C'|exact F'|].
      intros o' [= <-]. destruct Hrej as (? & ? & ? & ?). auto. }
    assert (receipts_distinct (w_db (co_world s3))) as Hd3 by (eapply later_distinct, Hd; apply (cm_moved _ _ _ C')).
    destruct (admitted_run _ _ _ _ _ _ Hd3 H) as (ops & Ha & O4 & Hh & Hn & Ht).
    eexists. by eapply (admitted_ran c false).
Qed.

Lemma delivery_run c s r s' :
  reachable (w_db (co_world s)) -> deliver_one c s = (r, s') -> exists ops, delivery_ran c s s' ops r.
Proof.
  intros [ops Hr] H. unfold DeliveryCoordinator.deliver_one in H.
  destruct (identity_complete (dl_identity c)) eqn:Hid; simpl in H.
  - eapply gate_ran; [|exact Hid|exact H]. rewrite Hr. apply (ev_receipts _ _ (exec_evolves ops empty_db)).
    apply NoDup_nil_2.
  - pose proof H as (ops' & C & F)%(calm_suppressed idle). exists ops'. apply refused_ran; [done..|].
    intros o ->. apply suppressed_run in H as [rc ->]. split; [done|by left].
Qed.

(** A call for this delivery and this row, at the row's attempt. *)
Definition call_for (c : delivery_context) (row : Row) (n : native_call) : Prop :=
  rd_event_id (nc_result n) = ev_event_id (dl_event c) /\ rd_target_adapter (nc_result n) = dl_adapter c /\
  rd_outbox_id (nc_result n) = Some (outbox_id row) /\ rd_attempt_number (nc_result n) = Some (effective_attempt row).


End coordinator.

(** ** Examples *)

Module CoordinatorExamples.
(** Permits are free, and nothing is known about the targets of relations. *)
Definition host : CoordinatorHost :=
  {| has_controller := true; acquire_delivery := mret true; accepting_work := mret true;
     enrich_for_target := fun e _ _ w => (Ok {| en_event := e; en_facts := [] |}, w) |}.

Lemma host_laws : CoordinatorHostLaws host.
Proof. split; [apply traced_ret..|]. intros e a c w. by exists []. Qed.

Definition delivery (event : CanonicalEvent) (source : string) (run : option string) : delivery_context :=
  {| dl_event := event; dl_route := RoundtripExamples.route; dl_plan := RoundtripExamples.plan;
     dl_source := source; dl_run := run |}.

Definition message : delivery_context := delivery RoundtripExamples.event "live" None.
Definition start : coordinator_site := {| co_site := TargetExamples.start; co_ops := [] |}.

Definition run_with (multipart : bool) (c : delivery_context)
    : result delivery_error DeliveryOutcome * coordinator_site :=
  deliver_one (Backend := TargetExamples.mesh_backend multipart) (Host := host) (fun _ _ => seconds 2) TargetExamples.as_raised
    (fun _ => []) c start.
Definition run : delivery_context -> result delivery_error DeliveryOutcome * coordinator_site := run_with false.

Lemma delivery_start_reachable : reachable (w_db (dv_world (co_site start))).
Proof. by exists [OpEnvironment [ev_event_id RoundtripExamples.event] [] []]. Qed.

(** An edit of a message nobody is known to own. *)
Definition edit : delivery_context := delivery (Capability.CapabilityExamples.message "message.edited" ["edit"]) "live" None.
End CoordinatorExamples.

(** A delivered message is handed over, and its row is left sent. *)
Example message_delivered :
  match CoordinatorExamples.run CoordinatorExamples.message with
  | (Ok o, s) => oo_status o = "success" /\
      (fun r : Row => status r) <$> outbox (w_db (dv_world (co_site s))) = [Sent]
  | _ => False
  end.
Proof. vm_compute. done. Qed.

(** A suppressed edit is reported as skipped and counted as delivered. *)
Example suppressed_edit_counted_delivered :
  match CoordinatorExamples.run CoordinatorExamples.edit with
  | (Ok o, s) => oo_status o = "skipped" /\ dv_native (co_site s) = [] /\
      CountDelivered ∈ co_ops s /\ RouteDelivered "route-1" ∈ co_ops s
  | _ => False
  end.
Proof. vm_compute. split_and!; [done|done|set_solver|set_solver]. Qed.


