(* ===== verification/CoordinatorMemory.v ===== *)
(** * The memory deliveries share

    Deliveries run concurrently and change permits, the in-flight table and the
    counters in small synchronous steps.  For every interleaving of the steps
    of any number of deliveries the permits in use stay between the two
    obvious bounds, and when the deliveries have ended the memory is as
    before, up to counters that add up. *)

From S2P Require Import Prelude.
From S2P Require Import Delivery.
From S2P Require Import DeliveryPlan.
From S2P Require Import OutboxProofs.
From S2P Require Import StorageProgram.
From S2P Require Import RetryPlan.
From S2P Require Import Store.
From S2P Require Import Outbox.
From S2P Require Import RetryRoundtrip.
From S2P Require Import TargetDelivery.
From S2P Require Import TargetSafety.
From S2P Require Import Accounting.
From S2P Require Import DeliveryCoordinator.
From S2P Require Import CoordinatorSafety.

Open Scope string_scope.
Open Scope list_scope.
Open Scope Z_scope.

(** ** Interleavings *)

(** The steps of several tasks, each in its own order. *)
Inductive interleaved : list (list memory_op) -> list memory_op -> Prop :=
| interleaved_done logs : Forall (eq []) logs -> interleaved logs []
| interleaved_step l1 op log l2 ops :
    interleaved (l1 ++ log :: l2) ops -> interleaved (l1 ++ (op :: log) :: l2) (op :: ops).

(** A quantity to which each operation adds. *)
Definition tally (f : memory_op -> Z) (ops : list memory_op) : Z := foldr (fun op z => f op + z) 0 ops.
Definition total (f : memory_op -> Z) (logs : list (list memory_op)) : Z := foldr (fun l z => tally f l + z) 0 logs.

Lemma tally_app f a b : tally f (a ++ b) = tally f a + tally f b.
Proof. induction a as [|op a IH]; simpl; [done|]. rewrite IH. lia. Qed.
Lemma total_app f a b : total f (a ++ b) = total f a + total f b.
Proof. induction a as [|l a IH]; simpl; [done|]. rewrite IH. lia. Qed.

Lemma interleaved_tally f logs ops : interleaved logs ops -> tally f ops = total f logs.
Proof.
  induction 1 as [logs H|l1 op log l2 ops _ IH].
  - induction H as [|l logs <- _ IH]; simpl; [done|]. by rewrite <-IH.
  - simpl. rewrite IH, !total_app. simpl. lia.
Qed.

(** What is left of the tasks after a part of the interleaving. *)
Lemma interleaved_rest logs ops1 ops2 :
  interleaved logs (ops1 ++ ops2) ->
  exists rest, interleaved rest ops2 /\ Forall2 (fun l r => exists done, l = done ++ r) logs rest.
Proof.
  remember (ops1 ++ ops2) as ops eqn:E. intros H. revert ops1 E.
  induction H as [logs H|l1 op log l2 ops H IH]; intros ops1 E.
  - symmetry in E. apply app_nil in E as [-> ->]. exists logs. split; [by constructor|].
    apply Forall_Forall2_diag, Forall_true. intros l. by exists [].
  - destruct ops1 as [|op' ops1]; simpl in E.
    + subst ops2. exists (l1 ++ (op :: log) :: l2). split; [by constructor|].
      apply Forall_Forall2_diag, Forall_true. intros l. by exists [].
    + injection E as <- ->. destruct (IH ops1 eq_refl) as (rest & Hr & Hf). exists rest. split; [done|].
      apply Forall2_app_inv_l in Hf as (r1 & r2' & H1 & H2 & ->). apply Forall2_cons_inv_l in H2 as (r & r2 & [d ->] & H2 & ->).
      apply Forall2_app; [done|]. constructor; [|done]. by exists (op :: d).
Qed.

(** ** What one delivery leaves *)

Definition permit_of (op : memory_op) : Z :=
  match op with TakePermit => 1 | ReturnPermit => -1 | _ => 0 end.

(** Attempts that are neither delivered nor failed. *)
Definition gap_of (op : memory_op) : Z :=
  match op with CountAttempt => 1 | CountDelivered | CountFailed => -1 | _ => 0 end.

(** Every entry added to the in-flight table is dropped later. *)
Definition closed (ops : list memory_op) : Prop :=
  forall o1 k d o2, ops = o1 ++ AddInflight k d :: o2 -> DropInflight k ∈ o2.

Lemma idle_tally f ops : (forall op, idle op -> f op = 0) -> Forall idle ops -> tally f ops = 0.
Proof. intros Hf. induction 1 as [|op ops Hi _ IH]; simpl; [done|]. by rewrite (Hf _ Hi), IH. Qed.
Lemma idle_permit op : idle op -> permit_of op = 0.
Proof. by destruct op. Qed.
Lemma idle_gap op : idle op -> gap_of op = 0.
Proof. by destruct op. Qed.

Lemma suffix_app {A} (done rest a b : list A) :
  a ++ b = done ++ rest -> (exists a', rest = a' ++ b /\ exists d, a = d ++ a') \/ exists d, b = d ++ rest.
Proof.
  intros H. apply app_eq_inv in H as [(k & -> & ->)|(k & -> & ->)]; [left|right]; eauto.
Qed.

(** Operations that move no permit. *)
Definition flat (ops : list memory_op) : Prop := Forall (fun op => permit_of op = 0) ops.

Lemma flat_suffix done rest ops : flat ops -> ops = done ++ rest -> tally permit_of rest = 0.
Proof.
  intros Hf ->. apply Forall_app in Hf as [_ Hf]. induction Hf as [|op l Hz _ IH]; simpl; [done|]. by rewrite Hz, IH.
Qed.
Lemma flat_tally ops : flat ops -> tally permit_of ops = 0.
Proof. intros Hf. by apply (flat_suffix [] ops ops). Qed.
Lemma idle_flat ops : Forall idle ops -> flat ops.
Proof. intros Hi. eapply Forall_impl; [done|]. apply idle_permit. Qed.
Lemma execution_flat r b ops : execution_ops r b ops -> flat ops.
Proof. by destruct 1; repeat constructor. Qed.

(** The permits held after a permit was taken and until it is returned. *)
Lemma held_suffix done rest mid :
  flat mid -> TakePermit :: mid ++ [ReturnPermit] = done ++ rest -> -1 <= tally permit_of rest <= 0.
Proof.
  intros Hf E. destruct done as [|x done]; simpl in E; [subst rest|injection E as <- E].
  { simpl. rewrite tally_app, flat_tally by done. simpl. lia. }
  apply suffix_app in E as [(a' & -> & d & ->)|[d E]].
  - rewrite tally_app, (flat_suffix d a' (d ++ a')) by done. simpl. lia.
  - destruct d as [|y [|z d]]; simplify_list_eq; simpl; lia.
Qed.

(** While it runs a delivery holds no permit or one. *)
Lemma delivery_suffix c b ops done rest :
  delivery_ops c b ops -> ops = done ++ rest -> -1 <= tally permit_of rest <= 0.
Proof.
  assert (forall pre ops, flat pre -> (forall done rest, ops = done ++ rest -> -1 <= tally permit_of rest <= 0) ->
    pre ++ ops = done ++ rest -> -1 <= tally permit_of rest <= 0) as Hpre.
  { intros pre l Hp Hl E. apply suffix_app in E as [(a' & -> & d & ->)|[d E]]; [|by eapply Hl].
    rewrite tally_app, (flat_suffix d a' (d ++ a')) by done. specialize (Hl [] l eq_refl). lia. }
  intros H E. destruct H as [b pre Hp|b pre ops Hp Hx|b pre Hp|b pre d ops Hp Hx];
    apply idle_flat in Hp; try apply execution_flat in Hx.
  - rewrite (flat_suffix done rest pre) by done. lia.
  - eapply Hpre; [exact Hp| |exact E]. intros d r Hr. rewrite (flat_suffix d r ops) by done. lia.
  - eapply Hpre; [exact Hp| |exact E]. intros d r Hr. apply (held_suffix d r []); [constructor|exact Hr].
  - eapply Hpre; [exact Hp| |exact E]. intros e r Hr.
    apply (held_suffix e r (AddInflight (inflight_key c) d :: ops ++ [DropInflight (inflight_key c)])).
    + constructor; [done|]. apply Forall_app. split; [done|by repeat constructor].
    + rewrite <-Hr. simpl. by rewrite <-app_assoc.
Qed.

Lemma delivery_balanced c b ops : delivery_ops c b ops -> tally permit_of ops = 0.
Proof.
  destruct 1 as [b pre Hp|b pre ops Hp Hx|b pre Hp|b pre d ops Hp Hx];
    rewrite ?tally_app, (flat_tally pre (idle_flat pre Hp)); simpl;
    rewrite ?tally_app, ?(flat_tally ops (execution_flat _ _ _ Hx)); done.
Qed.

Lemma delivery_gap c ops : delivery_ops c true ops -> tally gap_of ops = 0.
Proof.
  assert (forall r l, execution_ops r true l -> tally gap_of l = 0) as Hexec by (by intros r l Hx; inversion Hx).
  remember true as b eqn:E. destruct 1 as [b pre Hp|b pre ops Hp Hx|b pre Hp|b pre d ops Hp Hx]; subst b;
    rewrite ?tally_app, (idle_tally gap_of pre idle_gap Hp); simpl; rewrite ?tally_app, ?(Hexec _ _ Hx); done.
Qed.

Lemma closed_app a b : closed a -> closed b -> closed (a ++ b).
Proof.
  intros Ha Hb o1 k d o2 H. apply suffix_app in H as [([|x a'] & E & e & ->)|[e E]].
  - simpl in E. eapply (Hb []). done.
  - injection E as <- ->. apply elem_of_app. left. by eapply Ha.
  - by eapply Hb.
Qed.
Lemma closed_without ops : Forall (fun op => match op with AddInflight _ _ => False | _ => True end) ops -> closed ops.
Proof. intros Hf o1 k d o2 ->. apply Forall_app in Hf as [_ Hf]. by inversion Hf. Qed.
Lemma idle_closed ops : Forall idle ops -> closed ops.
Proof. intros Hi. apply closed_without. eapply Forall_impl; [done|]. by intros []. Qed.
Lemma execution_closed r b ops : execution_ops r b ops -> closed ops.
Proof. destruct 1; apply closed_without; by repeat constructor. Qed.

Lemma delivery_closed c b ops : delivery_ops c b ops -> closed ops.
Proof.
  destruct 1 as [b pre Hp|b pre ops Hp Hx|b pre Hp|b pre d ops Hp Hx].
  - by apply idle_closed.
  - apply closed_app; [by apply idle_closed|by eapply execution_closed].
  - apply closed_app; [by apply idle_closed|]. apply closed_without. by repeat constructor.
  - apply closed_app; [by apply idle_closed|]. intros o1 k d0 o2 E.
    destruct o1 as [|x o1]; [done|]. injection E as _ E. destruct o1 as [|y o1].
    + injection E as -> -> <-. set_solver.
    + injection E as _ E. assert (closed (ops ++ [DropInflight (inflight_key c); ReturnPermit])) as Hc.
      { apply closed_app; [by eapply execution_closed|]. apply closed_without. by repeat constructor. }
      by eapply Hc.
Qed.

(** ** What the operations do to the memory *)

Section memory.
Context (sanitize_error : string -> string).
Abbreviation apply_ops := (apply_ops sanitize_error).

Lemma permits_tally ops m : my_permits (apply_ops ops m) = my_permits m + tally permit_of ops.
Proof.
  revert m. induction ops as [|op ops IH]; intros m; simpl; [lia|]. rewrite IH. destruct op; simpl; lia.
Qed.

(** Attempts without a verdict. *)
Definition unsettled (c : RuntimeCounters) : Z :=
  ct_outbound_attempts c - ct_outbound_delivered c - ct_outbound_failed c.

Lemma gap_tally ops m a a' :
  my_accounting m = Some a -> my_accounting (apply_ops ops m) = Some a' -> unsettled a' = unsettled a + tally gap_of ops.
Proof.
  revert m a. induction ops as [|op ops IH]; intros m a Ha; simpl.
  - rewrite Ha. intros [= <-]. lia.
  - assert (exists b, my_accounting (apply_op sanitize_error op m) = Some b /\ unsettled b = unsettled a + gap_of op)
      as (b & Hb & Hu).
    { unfold unsettled. destruct op; simpl; rewrite Ha; eexists; (split; [reflexivity|simpl; lia]). }
    intros H. rewrite (IH _ _ Hb H), Hu. lia.
Qed.

(** Entries that are still to be dropped by somebody. *)
Definition awaited (m : memory) (logs : list (list memory_op)) : Prop :=
  od_wf (my_inflight m) /\
  forall k, od_get k (my_inflight m) <> None -> exists log, log ∈ logs /\ DropInflight k ∈ log.

Lemma awaited_step m l1 op log l2 :
  closed (op :: log) -> awaited m (l1 ++ (op :: log) :: l2) ->
  awaited (apply_op sanitize_error op m) (l1 ++ log :: l2).
Proof.
  intros Hc [Hwf Hk].
  assert (forall k, od_get k (my_inflight m) <> None -> op <> DropInflight k ->
    exists l, l ∈ l1 ++ log :: l2 /\ DropInflight k ∈ l) as Hstay.
  { intros k Hn Hop. destruct (Hk k Hn) as (l & Hl & Hd). apply elem_of_app in Hl as [Hl|[->|Hl]%elem_of_cons].
    - exists l. set_solver.
    - exists log. apply elem_of_cons in Hd as [<-|Hd]; [done|]. set_solver.
    - exists l. set_solver. }
  destruct op as [| | |key d|key| | | | | | | | | | | |]; simpl;
    try (split; [exact Hwf|]; intros k Hn; by apply Hstay); split; simpl.
  - by apply od_set_wf.
  - intros k Hn. destruct (decide (key = k)) as [->|Hne].
    + exists log. split; [set_solver|]. by apply (Hc [] k d log).
    + rewrite od_get_set_ne in Hn by done. by apply Hstay.
  - by apply od_del_wf.
  - intros k Hn. destruct (decide (key = k)) as [->|Hne]; [by rewrite od_get_del_eq in Hn|].
    rewrite od_get_del_ne in Hn by done. apply Hstay; [done|]. by intros [= ->].
Qed.

Lemma closed_tail op log : closed (op :: log) -> closed log.
Proof. intros Hc o1 k d o2 ->. by apply (Hc (op :: o1) k d). Qed.

Lemma inflight_emptied logs ops m :
  interleaved logs ops -> Forall closed logs -> awaited m logs -> my_inflight (apply_ops ops m) = [].
Proof.
  intros H. revert m. induction H as [logs H|l1 op log l2 ops _ IH]; intros m Hc Ha; simpl.
  - destruct Ha as [_ Hk]. destruct (my_inflight m) as [|[k v] d] eqn:E; [done|].
    destruct (Hk k) as (l & Hl & Hd); [simpl; by rewrite decide_True|].
    rewrite Forall_forall in H. rewrite <-(H l Hl) in Hd. set_solver.
  - apply Forall_app in Hc as [Hc1 [Hco Hc2]%Forall_cons]. apply IH.
    + apply Forall_app. split; [done|]. constructor; [by eapply closed_tail|done].
    + by apply awaited_step.
Qed.
End memory.

(** ** Any number of deliveries *)

Section deliveries.
Context {Backend : TargetBackend} {Laws : TargetBackendLaws Backend}.
Context {Host : CoordinatorHost} {HostLaws : CoordinatorHostLaws Host}.
Context (compute_backoff : RetryPolicy -> Z -> Z) (as_raised : exc -> raised).
Context (to_builtins : OutboxDispatchContext -> list (string * Json.json)).
Context (sanitize_error : string -> string).

(** The operations of a delivery from a reachable store; [returned] ones ended
    with an outcome, others with an exception. *)
Definition delivery_log (returned : bool) (log : list memory_op) : Prop :=
  exists c s r s', reachable (w_db (dv_world (co_site s))) /\
    deliver_one compute_backoff as_raised to_builtins c s = (r, s') /\
    co_ops s' = co_ops s ++ log /\ returned = match r with Ok _ => true | Raise _ => false end.

Lemma delivery_log_ops b log : delivery_log b log -> exists c, delivery_ops c b log.
Proof.
  intros (c & s & r & s' & Hd & H & O & ->).
  destruct (delivery_run _ _ _ _ _ _ _ Hd H) as (ops & [Hs O' _ _ _]). exists c.
  rewrite O in O'. by apply app_inv_head in O' as ->.
Qed.

Lemma total_between f logs lo hi :
  Forall (fun l => lo <= tally f l <= hi) logs ->
  lo * Z.of_nat (length logs) <= total f logs <= hi * Z.of_nat (length logs).
Proof. induction 1 as [|l logs H _ IH]; simpl; [lia|]. nia. Qed.

(** C13: The memory deliveries share survives any interleaving.  Let the steps
    of any number of deliveries interleave, whatever each of them ran into.
    At every moment the permits in use are those in use at the start plus at
    most one per delivery, never less.  When all have ended, every permit is
    back and the in-flight table is empty again; and if all of them ended with
    an outcome, every outbound attempt counted since is counted exactly once
    more, as delivered or as failed. *)
Theorem shared_memory_restored outcomes logs ops m :
  Forall2 delivery_log outcomes logs -> interleaved logs ops -> my_inflight m = [] ->
  (forall before after, ops = before ++ after ->
     my_permits m <= my_permits (apply_ops sanitize_error before m) <= my_permits m + Z.of_nat (length logs)) /\
  my_permits (apply_ops sanitize_error ops m) = my_permits m /\
  my_inflight (apply_ops sanitize_error ops m) = [] /\
  (Forall (eq true) outcomes -> forall a a', my_accounting m = Some a ->
     my_accounting (apply_ops sanitize_error ops m) = Some a' ->
     ct_outbound_attempts a' - ct_outbound_attempts a =
     (ct_outbound_delivered a' - ct_outbound_delivered a) + (ct_outbound_failed a' - ct_outbound_failed a)).
Proof.
  intros Hl Hi Hm.
  assert (Forall (fun l => exists c b, delivery_ops c b l) logs) as Hops.
  { clear -Hl Laws HostLaws. induction Hl as [|b l bs ls H _ IH]; constructor; [|done]. destruct (delivery_log_ops _ _ H). eauto. }
  assert (Forall (fun l => 0 <= tally permit_of l <= 0) logs) as Hzero.
  { eapply Forall_impl; [exact Hops|]. intros l (c & b & H).
    pose proof (delivery_balanced c b l H). lia. }
  assert (total permit_of logs = 0) as Htot by (pose proof (total_between permit_of logs 0 0 Hzero); lia).
  split_and!.
  - intros before after ->. rewrite permits_tally.
    destruct (interleaved_rest _ _ _ Hi) as (rest & Hr & Hf). apply (interleaved_tally permit_of) in Hi, Hr.
    rewrite tally_app in Hi.
    assert (Forall (fun l => -1 <= tally permit_of l <= 0) rest) as Hrest.
    { clear -Hf Hops. induction Hf as [|l r ls rs [d ->] _ IH]; [constructor|].
      apply Forall_cons in Hops as [(c & b & Hd) Hops]. constructor; [by eapply delivery_suffix|by apply IH]. }
    pose proof (total_between permit_of rest _ _ Hrest). apply Forall2_length in Hf. lia.
  - rewrite permits_tally, (interleaved_tally permit_of _ _ Hi). lia.
  - eapply inflight_emptied; [done| |].
    + eapply Forall_impl; [exact Hops|]. intros l (c & b & H). by eapply delivery_closed.
    + unfold awaited. rewrite Hm. split; [apply NoDup_nil_2|done].
  - intros Hall a a' Ha Ha'. pose proof (gap_tally _ _ _ _ _ Ha Ha') as Hg.
    rewrite (interleaved_tally gap_of _ _ Hi) in Hg.
    assert (total gap_of logs = 0) as Hz; [|unfold unsettled in Hg; lia].
    clear -Hl Hall Laws HostLaws. induction Hl as [|b l bs ls H _ IH]; simpl; [done|].
    apply Forall_cons in Hall as [<- Hall]. destruct (delivery_log_ops _ _ H) as [c Hc].
    rewrite (delivery_gap _ _ Hc), IH by done. done.
Qed.
End deliveries.

(** ** Examples *)

Module MemoryExamples.
Definition empty : memory :=
  {| my_permits := 0; my_rejections := 0; my_inflight := []; my_stats := Some RouteStats_init;
     my_accounting := Some RuntimeCounters_default |}.

(** Two tasks deliver the same message; the second starts within the first. *)
Definition log : list memory_op := co_ops (CoordinatorExamples.run CoordinatorExamples.message).2.
Definition both : list memory_op := take 2 log ++ log ++ drop 2 log.

Lemma log_delivery : delivery_log (Backend := TargetExamples.backend) (Host := CoordinatorExamples.host)
  (fun _ _ => seconds 2) TargetExamples.as_raised (fun _ => []) true log.
Proof.
  assert (match (CoordinatorExamples.run CoordinatorExamples.message).1 with Ok _ => true | Raise _ => false end = true)
    as H by (vm_compute; reflexivity).
  unfold log. destruct (CoordinatorExamples.run CoordinatorExamples.message) as [r s'] eqn:E. cbn [fst snd] in *.
  exists CoordinatorExamples.message, CoordinatorExamples.start, r, s'.
  split; [exact CoordinatorExamples.delivery_start_reachable|]. split; [exact E|]. by split.
Qed.
End MemoryExamples.

(** Two deliveries of one target in flight share a key: when the first ends,
    the other is no longer in the table though it still runs. *)
Example inflight_key_shared :
  let live := CoordinatorExamples.message in
  let replay := CoordinatorExamples.delivery (dl_event live) "replay" (Some "run-1") in
  let ox := {| OutboxManager.ox_outbox_id := None; OutboxManager.ox_created := true;
               OutboxManager.ox_pipeline_worker := ""; OutboxManager.ox_skip_reason := None;
               OutboxManager.ox_attempt_number := None; OutboxManager.ox_replay_duplicate := false |} in
  my_inflight (apply_ops id [AddInflight (inflight_key live) (inflight_delivery live ox);
                             AddInflight (inflight_key replay) (inflight_delivery replay ox);
                             DropInflight (inflight_key live)] MemoryExamples.empty) = [].
Proof. vm_compute. done. Qed.

Lemma shared_memory_restored_witness :
  my_permits (apply_ops id MemoryExamples.both MemoryExamples.empty) = 0 /\
  my_inflight (apply_ops id MemoryExamples.both MemoryExamples.empty) = [].
Proof.
  assert (interleaved [MemoryExamples.log; MemoryExamples.log] MemoryExamples.both) as Hi.
  { vm_compute.
    do 2 apply (interleaved_step [] _ _ [_]).
    do 7 apply (interleaved_step [_] _ _ []).
    do 5 apply (interleaved_step [] _ _ [_]).
    constructor. repeat constructor. }
  destruct (shared_memory_restored (Laws := TargetExamples.backend_laws false) (HostLaws := CoordinatorExamples.host_laws)
    (fun _ _ => seconds 2) TargetExamples.as_raised (fun _ => []) id [true; true] [MemoryExamples.log; MemoryExamples.log]
    MemoryExamples.both MemoryExamples.empty) as (_ & Hp & Hf & _).
  - constructor; [exact MemoryExamples.log_delivery|]. constructor; [exact MemoryExamples.log_delivery|constructor].
  - exact Hi.
  - reflexivity.
  - split; [exact Hp|exact Hf].
Defined.
