(* ===== verification/Pipeline.v ===== *)
(** * The pipeline runner

    [src/src/medre/core/engine/pipeline/runner.py]: routing of an event into
    planned deliveries, and the processing of an event admitted by durable
    ingress up to its staging in the outbox.

    Resolution of relations, the conversation projection and the reads of
    stored events are reached through the class [PipelineHost].  Phase
    counters, logging and the direct (not durable) ingress path with its
    caches are left out. *)

From S2P Require Import Prelude.
From S2P Require Import Json.
From S2P Require Import Router.
From S2P Require Import Delivery.
From S2P Require Import Events.
From S2P Require Import Capability.
From S2P Require Import DeliveryPlan.
From S2P Require Import Store.
From S2P Require Import Outbox.
From S2P Require Import StorageProgram.
From S2P Require Import RetryPlan.
From S2P Require Import OutboxManager.
From S2P Require Import TargetDelivery.
From S2P Require Import DeliveryCoordinator.

Open Scope string_scope.
Open Scope list_scope.
Open Scope Z_scope.

(** ** Events *)

Definition validate_event (e : CanonicalEvent) : result exc unit :=
  if negb (truthy (ev_event_id e)) then Raise (ValueError "Event must have a non-empty event_id")
  else if negb (truthy (ev_event_kind e)) then Raise (ValueError "Event must have a non-empty event_kind")
  else if negb (truthy (ev_source_adapter e)) then Raise (ValueError "Event must have a non-empty source_adapter")
  else Ok tt.

Definition native_metadata_for_ref (e : CanonicalEvent) : list (string * json) :=
  default [] (em_native (ev_metadata e)).

(** [_build_inbound_native_ref]; the identifier and the time are drawn when a
    reference is built. *)
Definition build_inbound_native_ref (e : CanonicalEvent) : proc (option NativeMessageRef) :=
  match ev_source_native_ref e with
  | None => mret None
  | Some n =>
      if negb (truthy (nf_message n)) then mret None
      else
        u ← new_uuid;
        now ← read_clock;
        mret (Some {| nr_id := "nref-inbound-" +:+ u; nr_event_id := ev_event_id e; nr_adapter := nf_adapter n;
                      nr_native_channel_id := nf_channel n; nr_native_message_id := nf_message n;
                      nr_native_thread_id := nf_thread n; nr_native_relation_id := None;
                      nr_direction := "inbound"; nr_metadata := native_metadata_for_ref e; nr_created_at := now |})
  end.

(** ** Routing *)

(** [trace[-16:]]. *)
Definition TRACE_LIMIT : nat := 16.
Definition last_n {A} (n : nat) (l : list A) : list A := drop (length l - n) l.

Definition prior_trace (e : CanonicalEvent) : list string :=
  match em_routing (ev_metadata e) with Some m => rm_route_trace m | None => [] end.

Definition routed_metadata (e : CanonicalEvent) (route_ids : list string) : RoutingMetadata :=
  {| rm_matched_routes := route_ids;
     rm_fanout_group := em_routing (ev_metadata e) ≫= rm_fanout_group;
     rm_route_trace := last_n TRACE_LIMIT (prior_trace e ++ route_ids) |}.

Definition with_routing (e : CanonicalEvent) (m : RoutingMetadata) : CanonicalEvent :=
  let md := ev_metadata e in
  {| ev_columns := ev_columns e; ev_relations := ev_relations e; ev_payload := ev_payload e;
     ev_metadata := {| em_transport := em_transport md; em_routing := Some m; em_radio := em_radio md;
                       em_telemetry := em_telemetry md; em_native := em_native md; em_custom := em_custom md |};
     ev_source_native_ref := ev_source_native_ref e |}.

Definition matchable (e : CanonicalEvent) : RouteMatchableEvent :=
  {| me_source_adapter := ev_source_adapter e; me_event_kind := ev_event_kind e;
     me_source_channel_id := ev_source_channel_id e |}.

Definition with_plan_route (p : DeliveryPlan) (route_id : string) (policy : option RetryPolicy) : DeliveryPlan :=
  {| pl_plan_id := pl_plan_id p; pl_event_id := pl_event_id p; pl_target := pl_target p;
     pl_primary_strategy := pl_primary_strategy p; pl_fallback_chain := pl_fallback_chain p;
     pl_retry_policy := match policy with Some x => Some x | None => pl_retry_policy p end;
     pl_deadline := pl_deadline p; pl_route_id := Some route_id; pl_target_identity := pl_target_identity p;
     pl_capability_level := pl_capability_level p; pl_capability_field := pl_capability_field p;
     pl_capability_reason := pl_capability_reason p |}.

Section routing.
Context {Backend : TargetBackend} (sha256 : string -> string).
Context (router : Router) (route_retry_policies : list (string * RetryPolicy)).

Definition runner_adapter_capabilities (target : RouteTarget) : AdapterCapabilities :=
  default AdapterCapabilities_default
    (resolve_adapter_capabilities ((fun '(id, a) => (id, ad_capabilities a)) <$> adapters) target).

Definition plan_target (e : CanonicalEvent) (route : Route) (index : Z) (target : RouteTarget)
    : result exc (Route * DeliveryPlan) :=
  plan ← resolve_fallback sha256 e target (runner_adapter_capabilities target) (Some (rte_id route)) (Some index);
  Ok (route, with_plan_route plan (rte_id route) (od_get (rte_id route) route_retry_policies)).

(** [for target_index, target in enumerate(targets)]. *)
Fixpoint plan_targets (e : CanonicalEvent) (route : Route) (index : Z) (targets : list RouteTarget)
    : result exc (list (Route * DeliveryPlan)) :=
  match targets with
  | [] => Ok []
  | target :: rest =>
      p ← plan_target e route index target;
      ps ← plan_targets e route (index + 1) rest;
      Ok (p :: ps)
  end.

Fixpoint plan_routes (e : CanonicalEvent) (routes : list Route) : result exc (list (Route * DeliveryPlan)) :=
  match routes with
  | [] => Ok []
  | route :: rest =>
      ps ← plan_targets e route 0 (resolve_targets (matchable e) route);
      qs ← plan_routes e rest;
      Ok (ps ++ qs)
  end.

Definition route_event (e : CanonicalEvent) : result exc (CanonicalEvent * list (Route * DeliveryPlan)) :=
  match match_event router (matchable e) with
  | [] => Ok (e, [])
  | matched =>
      let e' := with_routing e (routed_metadata e (rte_id <$> matched)) in
      plans ← plan_routes e' matched;
      Ok (e', plans)
  end.
End routing.

(** ** Durable processing *)

Record authorized_read : Type := { ar_status : string; ar_event : option CanonicalEvent }.

Class PipelineHost : Type := {
  read_event_for_ingress : string -> proc authorized_read;
  get_metadata : string -> proc (option CanonicalEvent);
  get_event : string -> proc (option CanonicalEvent);
  resolve_event_relations : CanonicalEvent -> proc CanonicalEvent;
  repair_after_event_available : string -> proc unit;
  project_event : CanonicalEvent -> proc CanonicalEvent
}.

Class PipelineHostLaws (H : PipelineHost) : Prop := {
  read_ingress_traced id :: Traced (read_event_for_ingress id);
  metadata_traced id :: Traced (get_metadata id);
  get_event_traced id :: Traced (get_event id);
  resolve_traced e :: Traced (resolve_event_relations e);
  repair_traced id :: Traced (repair_after_event_available id);
  project_traced e :: Traced (project_event e)
}.

Section runner.
Context {Backend : TargetBackend} {Host : CoordinatorHost} {Pipeline : PipelineHost}.
Context (as_raised : exc -> raised) (to_builtins : OutboxDispatchContext -> list (string * json)).
Context (sha256 : string -> string) (router : Router) (route_retry_policies : list (string * RetryPolicy)).

Definition is_reaction (r : EventRelation) : bool := bool_decide (rl_type r = "reaction").

(** The loop of [_is_reaction_to_reaction]: a target that cannot be read does
    not count. *)
Fixpoint targets_reaction (relations : list EventRelation) : proc bool :=
  match relations with
  | [] => mret false
  | r :: rest =>
      if negb (is_reaction r) then targets_reaction rest
      else match opt_or_none (rl_target_event r) with
      | None => targets_reaction rest
      | Some id =>
          target ← try_except (get_event id) (mret None);
          match (target : option CanonicalEvent) with
          | None => targets_reaction rest
          | Some t =>
              if bool_decide (ev_event_kind t = MESSAGE_REACTED) || existsb is_reaction (ev_relations t)
              then mret true
              else targets_reaction rest
          end
      end
  end.

Definition is_reaction_to_reaction (e : CanonicalEvent) : proc bool :=
  if negb (bool_decide (ev_event_kind e = MESSAGE_REACTED)) then mret false
  else targets_reaction (ev_relations e).

(** Why an outcome defers the event, if it does. *)
Definition deferred_reason (o : DeliveryOutcome) : option string :=
  match oo_failure_kind o with
  | Some CAPACITY_REJECTION => Some (failure_value CAPACITY_REJECTION)
  | Some SHUTDOWN_REJECTION => Some (failure_value SHUTDOWN_REJECTION)
  | Some OUTBOX_NOT_OWNED =>
      if bool_decide (oo_failure_kind_detail o = Some OUTBOX_CREATION_FAILED_REASON)
      then Some OUTBOX_CREATION_FAILED_REASON else None
  | _ => None
  end.

(** [DurableIngressDeferredError]. *)
Definition DurableIngressDeferredError (event : string) (reasons : list string) : raised :=
  {| ex_type_name := "DurableIngressDeferredError"; ex_text := event +:+ ": " +:+ py_join ", " reasons;
     ex_adapter_send_error := None; ex_os_error := false |}.

(** [_process_admitted_event_scoped] with [enqueue]. *)
Definition enqueue_scoped (e : CanonicalEvent) : coord (list DeliveryOutcome) :=
  loop ← stored as_raised (is_reaction_to_reaction e);
  if (loop : bool) then mret []
  else
    '(routed, deliveries) ← delivering (checked as_raised (route_event sha256 router route_retry_policies e));
    match (deliveries : list (Route * DeliveryPlan)) with
    | [] => mret []
    | _ =>
        outcomes ← enqueue_many as_raised to_builtins routed deliveries;
        match omap deferred_reason outcomes with
        | [] => mret outcomes
        | reasons =>
            conclude (Raise (OtherError (DurableIngressDeferredError (ev_event_id e)
                                           (sorted_by String.leb (remove_dups reasons))) None))
        end
    end.

(** [enqueue_admitted_event]. *)
Definition enqueue_admitted_event (event_id : string) : coord (list DeliveryOutcome) :=
  authorized ← stored as_raised (read_event_for_ingress event_id);
  if negb (bool_decide (ar_status authorized = "retained")) then
    metadata ← stored as_raised (get_metadata event_id);
    match (metadata : option CanonicalEvent) with
    | None => raising as_raised (RuntimeError "admitted ingress event is missing")
    | Some _ => raising as_raised (RuntimeError "admitted ingress content authority denied")
    end
  else match ar_event authorized with
  | None => raising as_raised (RuntimeError "admitted ingress event is missing")
  | Some stored_event =>
      resolved ← stored as_raised (resolve_event_relations stored_event);
      stored as_raised (repair_after_event_available event_id) ;;
      event ← stored as_raised (project_event resolved);
      enqueue_scoped event
  end.
End runner.
