(* ===== verification/PipelineSafety.v ===== *)
(** * What routing and staging guarantee

    Routing plans every target of every matching route exactly once and marks
    the event so that a route recently traversed is recognised.  Staging an
    admitted event loses none of its deliveries. *)

From S2P Require Import Prelude.
From S2P Require Import DeliveryState.
From S2P Require Import Router.
From S2P Require Import Delivery.
From S2P Require Import Events.
From S2P Require Import Capability.
From S2P Require Import DeliveryPlan.
From S2P Require Import Store.
From S2P Require Import Outbox.
From S2P Require Import OutboxProofs.
From S2P Require Import OutboxCreate.
From S2P Require Import StorageProgram.
From S2P Require Import RetryPlan.
From S2P Require Import OutboxManager.
From S2P Require Import LifecycleSafety.
From S2P Require Import RetryRoundtrip.
From S2P Require Import TargetDelivery.
From S2P Require Import TargetSafety.
From S2P Require Import DeliveryCoordinator.
From S2P Require Import CoordinatorSafety.
From S2P Require Import Pipeline.

Open Scope string_scope.
Open Scope list_scope.
Open Scope Z_scope.

(** ** Routing *)

Lemma last_n_app {A} n (a b : list A) :
  (length b <= n)%nat -> last_n n (a ++ b) = last_n (n - length b) a ++ b.
Proof.
  intros H. unfold last_n. rewrite length_app, drop_app_le by lia. f_equal. f_equal. lia.
Qed.

Lemma filter_eq_NoDup (x : string) l : NoDup l -> x ∈ l -> length (filter (fun y => y = x) l) = 1%nat.
Proof.
  induction 1 as [|y l Hy Hn IH]; [set_solver|]. rewrite filter_cons. case_decide as E.
  - subst y. intros _. simpl. f_equal. assert (filter (fun y => y = x) l = []) as ->; [|done].
    destruct (filter _ l) as [|z l'] eqn:E; [done|]. exfalso. apply Hy.
    assert (z ∈ z :: l') as Hz by set_solver. rewrite <-E in Hz. by apply list_elem_of_filter in Hz as [-> ?].
  - intros [->|Hx]%elem_of_cons; [done|]. by apply IH.
Qed.

Lemma match_event_ids router e : router_wf router -> NoDup (rte_id <$> match_event router e).
Proof.
  intros Hwf. unfold match_event. rewrite sorted_by_perm.
  eapply sublist_NoDup; [|apply fmap_sublist, sublist_filter].
  by apply values_NoDup.
Qed.

Section routing.
Context {Backend : TargetBackend} (sha256 : string -> string).
Context (router : Router) (policies : list (string * RetryPolicy)).

(** What a plan says about the target it is for. *)
Definition plan_for (e : CanonicalEvent) (route : Route) (p : Route * DeliveryPlan) (target : RouteTarget) : Prop :=
  p.1 = route /\ pl_target p.2 = target /\ pl_event_id p.2 = ev_event_id e /\
  pl_route_id p.2 = Some (rte_id route) /\ pl_retry_policy p.2 = od_get (rte_id route) policies.

Lemma plan_targets_run e route n targets ps :
  plan_targets sha256 policies e route n targets = Ok ps -> Forall2 (plan_for e route) ps targets.
Proof.
  revert n ps. induction targets as [|t targets IH]; intros n ps; simpl; [by intros [= <-]|].
  intros (p & Hp & (qs & Hq & [= <-])%bind_Ok)%bind_Ok. constructor; [|by eapply IH].
  unfold plan_target, resolve_fallback in Hp. apply bind_Ok in Hp as (plan & Hplan & [= <-]).
  apply bind_Ok in Hplan as (decision & _ & [= <-]). unfold plan_for. simpl. split_and!; try done.
  by destruct (od_get _ _).
Qed.

(** The targets of the routes, in order, with their routes. *)
Definition wanted (routes : list Route) : list (Route * RouteTarget) :=
  routes ≫= fun route => (fun t => (route, t)) <$> rte_targets route.

Lemma plan_routes_run e routes ps :
  plan_routes sha256 policies e routes = Ok ps ->
  Forall2 (fun p '(route, t) => plan_for e route p t) ps (wanted routes).
Proof.
  revert ps. induction routes as [|route routes IH]; intros ps; simpl; [by intros [= <-]|].
  intros (ps1 & H1 & (ps2 & H2 & [= <-])%bind_Ok)%bind_Ok. unfold wanted. cbn. apply Forall2_app; [|by apply IH].
  apply plan_targets_run in H1. unfold resolve_targets in H1. clear -H1.
  induction H1; cbn; constructor; done.
Qed.

(** Two events that differ at most in their routing metadata. *)
Record same_but_routing (e e' : CanonicalEvent) : Prop := {
  sb_columns : ev_columns e' = ev_columns e;
  sb_relations : ev_relations e' = ev_relations e;
  sb_payload : ev_payload e' = ev_payload e;
  sb_native_ref : ev_source_native_ref e' = ev_source_native_ref e;
  sb_transport : em_transport (ev_metadata e') = em_transport (ev_metadata e);
  sb_radio : em_radio (ev_metadata e') = em_radio (ev_metadata e);
  sb_telemetry : em_telemetry (ev_metadata e') = em_telemetry (ev_metadata e);
  sb_native : em_native (ev_metadata e') = em_native (ev_metadata e);
  sb_custom : em_custom (ev_metadata e') = em_custom (ev_metadata e)
}.

(** C15: Routing an event plans every target of every matching route exactly
    once, in the routes' delivery order; each plan is for the event, carries
    its route and the retry policy configured for it.  Of the event only the
    routing metadata changes: columns, payload, relations, source reference and
    every other metadata namespace are kept; the metadata names the matched
    routes and keeps the fanout group (nothing changes when no route matches).
    As long as at most sixteen routes match, a planned delivery is recognised as
    a loop exactly when its route is among the most recent hops that fit into
    the sixteen-entry trace beside the newly matched routes. *)
Theorem route_event_plans e e' ds :
  router_wf router -> route_event sha256 router policies e = Ok (e', ds) ->
  let matched := match_event router (matchable e) in
  Forall2 (fun d '(route, target) => plan_for e route d target) ds (wanted matched) /\
  same_but_routing e e' /\
  (matched = [] -> e' = e) /\
  (matched <> [] -> exists m, em_routing (ev_metadata e') = Some m /\
     rm_matched_routes m = rte_id <$> matched /\
     rm_fanout_group m = em_routing (ev_metadata e) ≫= rm_fanout_group) /\
  ((length matched <= TRACE_LIMIT)%nat -> forall route plan source run, (route, plan) ∈ ds ->
     route_trace_loop {| dl_event := e'; dl_route := route; dl_plan := plan; dl_source := source; dl_run := run |}
       = true <->
     rte_id route ∈ last_n (TRACE_LIMIT - length matched) (prior_trace e)).
Proof.
  intros Hwf H matched. unfold route_event in H. fold matched in H.
  pose proof (match_event_ids router (matchable e) Hwf) as Hnd. fold matched in Hnd.
  destruct matched as [|m ms] eqn:Hm.
  { injection H as <- <-. split_and!; [constructor|by split|done..|]. intros _ route plan source run Hin. set_solver. }
  apply bind_Ok in H as (ps & Hp & [= <- <-]). apply plan_routes_run in Hp.
  split_and!; [done|by split|done|by eexists|].
  intros Hle route plan source run Hin.
  assert (rte_id route ∈ rte_id <$> (m :: ms)) as Hr.
  { apply list_elem_of_lookup in Hin as [i Hi]. destruct (Forall2_lookup_l _ _ _ _ _ Hp Hi) as ([r t] & Hw & [Heq _]).
    simpl in Heq. subst r. apply list_elem_of_lookup_2 in Hw. unfold wanted in Hw.
    apply list_elem_of_bind in Hw as (r & Hw & Hr). apply list_elem_of_fmap in Hw as (t' & [= -> _] & _).
    by apply list_elem_of_fmap_2. }
  unfold route_trace_loop. cbn [dl_event dl_route with_routing ev_metadata em_routing routed_metadata rm_route_trace].
  change (rte_id m :: list_fmap Route string rte_id ms) with (rte_id <$> m :: ms).
  set (ids := rte_id <$> m :: ms) in *.
  assert (length ids = length (m :: ms)) as Hlen by apply length_fmap.
  rewrite last_n_app by (rewrite Hlen; exact Hle). rewrite Hlen, filter_app, length_app, (filter_eq_NoDup _ _ Hnd Hr), Z.ltb_lt.
  set (kept := last_n _ _). split.
  - intros Hlt. destruct (filter (fun id => id = rte_id route) kept) as [|x l] eqn:E; [simpl in Hlt; lia|].
    assert (x ∈ x :: l) as Hx by set_solver. rewrite <-E in Hx. by apply list_elem_of_filter in Hx as [-> ?].
  - intros Hx. assert (rte_id route ∈ filter (fun id => id = rte_id route) kept) as Hf by (by apply list_elem_of_filter).
    destruct (filter (fun id => id = rte_id route) kept); [set_solver|]. simpl. lia.
Qed.
End routing.

(** ** Staging *)

Lemma reachable_distinct d : reachable d -> receipts_distinct d.
Proof. intros [ops ->]. apply (ev_receipts _ _ (exec_evolves ops empty_db)), NoDup_nil_2. Qed.

(** A creation that returned left a row of the item's delivery in the outbox. *)
Lemma plain_create_row now item snap d r d' :
  create_outbox_item now item false snap d = (Ok r, d') ->
  exists row : Row, row ∈ outbox d' /\ row_of_item item row = true.
Proof.
  unfold create_outbox_item.
  destruct (create_checks item false snap) as [[st source]|]; [|done].
  destruct (snapshot_deadline snap) as [dl|]; [|done]. cbv zeta. unfold atomically. rewrite plain_create_run.
  destruct (select_adoptable item d) as [i|] eqn:Hsel.
  - apply select_adoptable_Some in Hsel as (row & Hin & _ & Ha & _). intros [= _ <-]. exists row. split; [done|].
    unfold adoptable in Ha. by apply andb_true_iff in Ha as [? _].
  - destruct (create_tail _ _ _ _ _ _ d) as [[a dx]|e] eqn:Ht; [|destruct e; rewrite ?Hsel; done].
    apply create_tail_inv in Ht as (d1 & Hi & -> & [Ho _]). apply insert_outbox_Ok in Hi as [-> _].
    intros [= _ ->]. unfold same in Ho. simpl in Ho. rewrite Ho.
    exists (item_row item (it_attempt_number item) st source now). split; [set_solver|].
    unfold row_of_item. simpl. by rewrite !andb_true_iff, !bool_decide_eq_true.
Qed.

(** The row is the delivery's. *)
Definition row_for (c : delivery_context) (row : Row) : Prop :=
  event_id row = ev_event_id (dl_event c) /\ delivery_plan_id row = pl_plan_id (dl_plan c) /\
  target_adapter row = dl_adapter c /\ target_channel row = opt_or_none (rt_channel (dl_target c)).

(** Staging that did not fail left the delivery's row in the outbox. *)
Lemma staging_row to_builtins c w ctx w' :
  create_for_delivery to_builtins (dl_event c) (dl_route c) (dl_plan c) (dl_target c) (dl_adapter c) "live" None
    true w = (Ok ctx, w') ->
  ox_skip_reason ctx <> Some OUTBOX_CREATION_FAILED_REASON ->
  exists row : Row, row ∈ outbox (w_db w') /\ row_for c row.
Proof.
  intros H Hskip. unfold create_for_delivery in H.
  apply proc_bind_Ok in H as ([src run'] & w1 & [= <- <- <-] & H).
  apply proc_bind_Ok in H as (now & w2 & _ & H). apply proc_bind_Ok in H as (u & w3 & _ & H).
  unfold try_except in H. match type of H with match ?m with _ => _ end = _ => destruct m as [[x|e] w4] eqn:Hm end.
  2: { injection H as <- _. done. }
  injection H as -> ->. apply proc_bind_Ok in Hm as (snap & w5 & _ & Hm).
  apply proc_bind_Ok in Hm as (v & w6 & _ & Hm). apply proc_bind_Ok in Hm as (written & w7 & _ & Hm).
  apply proc_bind_Ok in Hm as (created & w8 & Hc & [= _ <-]).
  apply call_run in Hc as (d & _ & Hc). apply plain_create_row in Hc as (row & Hin & Hr).
  exists row. split; [done|]. unfold row_of_item in Hr. simpl in Hr.
  rewrite !andb_true_iff, !bool_decide_eq_true in Hr. by destruct Hr as [[[? ?] ?] ?].
Qed.

(** The live delivery of a planned target. *)
Definition live (e : CanonicalEvent) (p : Route * DeliveryPlan) : delivery_context :=
  {| dl_event := e; dl_route := p.1; dl_plan := p.2; dl_source := "live"; dl_run := None |}.

(** Nothing of the delivery is lost: its row is in the outbox, or a receipt on
    record says why it was suppressed. *)
Definition staged (d : db) (e : CanonicalEvent) (p : Route * DeliveryPlan) (o : DeliveryOutcome) : Prop :=
  about (live e p) o /\
  ((oo_status o = "queued" /\ exists row : Row, row ∈ outbox d /\ row_for (live e p) row) \/
   (oo_status o = "skipped" /\ exists rc, oo_receipt o = Some rc /\ recorded d rc /\ rc_status rc = "suppressed")).

Lemma staged_later w w' e p o : later w w' -> staged (w_db w) e p o -> staged (w_db w') e p o.
Proof.
  intros L [Ha [(Hs & row & Hin & Hrow)|(Hs & rc & Ho & Hr & Hst)]]; split; try done; [left|right].
  - split; [done|]. destruct (later_row _ _ _ L Hin) as (row' & Hin' & [Hf _ _]). exists row'. split; [done|].
    unfold row_for in *. by rewrite Hf.
  - split; [done|]. exists rc. split_and!; [done| |done]. by eapply later_recorded.
Qed.

Section staging.
Context {Backend : TargetBackend} {Laws : TargetBackendLaws Backend}.
Context {Host : CoordinatorHost} {HostLaws : CoordinatorHostLaws Host}.
Context (as_raised : exc -> raised) (to_builtins : OutboxDispatchContext -> list (string * Json.json)).

Lemma incomplete_calm P c : Calm P (incomplete_identity_outcome as_raised c).
Proof. unfold incomplete_identity_outcome. apply calm_suppressed. Qed.

Lemma enqueue_calm e route plan : Calm idle (enqueue_one as_raised to_builtins e route plan).
Proof.
  unfold enqueue_one. case_match; [apply incomplete_calm|].
  apply calm_bind; [apply (preflight_gate as_raised)|]. intros [o|]; [apply calm_ret|].
  apply calm_bind; [apply calm_stored, _|]. intros ox. case_match; apply calm_ret.
Qed.

(** A delivery that does not defer its event is staged. *)
Lemma enqueue_run e route plan s o s' :
  receipts_distinct (w_db (co_world s)) ->
  enqueue_one as_raised to_builtins e route plan s = (Ok o, s') -> deferred_reason o = None ->
  staged (w_db (co_world s')) e (route, plan) o.
Proof.
  intros Hd H Hdef. unfold enqueue_one in H. cbv zeta in H. fold (live e (route, plan)) in H.
  case_match.
  { unfold incomplete_identity_outcome in H. pose proof H as [rc ->]%suppressed_run. apply suppressed_recorded in H as (rc' & Hrc & Hr); [|done].
    split; [done|]. right. split; [done|]. by exists rc'. }
  destruct (preflight_gate as_raised (live e (route, plan)) None) as [Hc Hg Hrc].
  apply cbind_run in H as [(e' & _ & [=])|(pre & s1 & Hp & H)].
  destruct pre as [o'|].
  - injection H as <- <-. pose proof Hp as [Ha Hs]%Hg. apply Hrc in Hp; [|done]. split; [done|]. right.
    split; [done|]. destruct (oo_receipt o') as [rc|]; [by exists rc|done].
  - apply cbind_run in H as [(e' & _ & [=])|(ox & s2 & Hx & H)]. apply stored_run in Hx.
    case_bool_decide as Hskip; injection H as <- <-; [by rewrite Hskip in Hdef|].
    split; [done|]. left. split; [done|]. by eapply (staging_row to_builtins (live e (route, plan))).
Qed.

Lemma enqueue_many_calm e ps : Calm idle (enqueue_many as_raised to_builtins e ps).
Proof.
  induction ps as [|[route plan] ps IH]; cbn; [apply calm_ret|].
  apply calm_bind; [apply enqueue_calm|]. intros o. apply calm_bind; [done|]. intros os. apply calm_ret.
Qed.

Lemma enqueue_many_run e ps s os s' :
  receipts_distinct (w_db (co_world s)) ->
  enqueue_many as_raised to_builtins e ps s = (Ok os, s') -> omap deferred_reason os = [] ->
  Forall2 (staged (w_db (co_world s')) e) ps os.
Proof.
  revert s os. induction ps as [|[route plan] ps IH]; intros s os Hd H Hdef; cbn in H; [by injection H as <- _|].
  apply cbind_run in H as [(e' & _ & [=])|(o & s1 & Ho & H)].
  apply cbind_run in H as [(e' & _ & [=])|(os' & s2 & Hos & H)]. injection H as <- <-.
  cbn in Hdef. destruct (deferred_reason o) eqn:Hdo; [done|].
  destruct (enqueue_calm _ _ _ _ _ _ Ho) as (ops & [M _] & _).
  destruct (enqueue_many_calm _ _ _ _ _ Hos) as (ops' & [M' _] & _). constructor.
  - eapply staged_later; [apply M'|]. by eapply enqueue_run.
  - eapply IH; [|done..]. eapply later_distinct, Hd. apply M.
Qed.

Context {Pipeline : PipelineHost} {PipelineLaws : PipelineHostLaws Pipeline}.
Context (sha256 : string -> string) (router : Router) (policies : list (string * RetryPolicy)).

#[local] Instance traced_targets_reaction rs : Traced (targets_reaction rs).
Proof. induction rs as [|r rs IH]; cbn; [apply _|]. solve_traced. Qed.
#[local] Instance traced_reaction e : Traced (is_reaction_to_reaction e).
Proof. unfold is_reaction_to_reaction. solve_traced. Qed.

(** What became of an event that is staged. *)
Inductive disposed (d : db) (e : CanonicalEvent) (os : list DeliveryOutcome) : Prop :=
| Ignored w w' : is_reaction_to_reaction e w = (Ok true, w') -> os = [] -> disposed d e os
| Staged routed ds :
    route_event sha256 router policies e = Ok (routed, ds) -> Forall2 (staged d routed) ds os -> disposed d e os.

Lemma scoped_calm e : Calm idle (enqueue_scoped as_raised to_builtins sha256 router policies e).
Proof.
  unfold enqueue_scoped. apply calm_bind; [apply calm_stored, _|]. intros [|]; [apply calm_ret|].
  apply calm_bind; [apply calm_delivering, _|]. intros [routed ds]. destruct ds; [apply calm_ret|].
  apply calm_bind; [apply enqueue_many_calm|]. intros os. case_match; [apply calm_ret|apply calm_conclude].
Qed.

Lemma scoped_staging_run e s os s' :
  receipts_distinct (w_db (co_world s)) ->
  enqueue_scoped as_raised to_builtins sha256 router policies e s = (Ok os, s') ->
  disposed (w_db (co_world s')) e os.
Proof.
  intros Hd H. apply cbind_run in H as [(e' & _ & [=])|(loop & s1 & Hl & H)].
  destruct loop; [injection H as <- <-; eapply Ignored; [by eapply stored_run|done]|].
  apply cbind_run in H as [(e' & _ & [=])|([routed ds] & s2 & Hr & H)].
  apply (stored_run as_raised (of_result (route_event sha256 router policies e))) in Hr as Hr'.
  injection Hr' as Hroute _. pose proof (calm_stored as_raised idle (of_result (route_event sha256 router policies e)) _) as Hc.
  destruct (Hc _ _ _ Hr) as (ops & [M _] & _). destruct (calm_stored as_raised idle _ _ _ _ _ Hl) as (ops' & [M' _] & _).
  eapply Staged; [exact Hroute|]. destruct ds as [|p ds]; [injection H as <- _; constructor|].
  apply cbind_run in H as [(e' & _ & [=])|(os' & s3 & Hos & H)].
  destruct (omap deferred_reason os') eqn:Hdef; [|done]. injection H as <- <-.
  eapply enqueue_many_run; [|done..]. eapply later_distinct; [apply M|]. eapply later_distinct, Hd. apply M'.
Qed.

(** The event an ingress item stands for, as prepared for routing: read with
    retained content, its relations resolved, projected. *)
Definition prepared (id : string) (e : CanonicalEvent) : Prop :=
  exists a st re w1 w1' w2 w2' w3 w3',
    read_event_for_ingress id w1 = (Ok a, w1') /\ ar_status a = "retained" /\ ar_event a = Some st /\
    resolve_event_relations st w2 = (Ok re, w2') /\ project_event re w3 = (Ok e, w3').

Lemma admitted_calm id :
  Calm idle (enqueue_admitted_event as_raised to_builtins sha256 router policies id).
Proof.
  unfold enqueue_admitted_event. apply calm_bind; [apply calm_stored, _|]. intros a. case_match.
  { apply calm_bind; [apply calm_stored, _|]. intros m. case_match; apply calm_conclude. }
  case_match; [|apply calm_conclude]. apply calm_bind; [apply calm_stored, _|]. intros re.
  apply calm_bind; [apply calm_stored, _|]. intros _. apply calm_bind; [apply calm_stored, _|]. intros e.
  apply scoped_calm.
Qed.

(** C14: Staging an admitted event loses none of its deliveries.  If it returns,
    no adapter was called, and the event, read with retained content, either
    is a reaction to a reaction, which is ignored, or was routed, and each
    planned delivery has its outcome, in order: queued, with its row in the
    outbox, or skipped, with a suppression receipt on record.  A delivery whose
    row could not be created is in no returned result: the event is then
    deferred. *)
Theorem admitted_event_staged id s os s' :
  reachable (w_db (co_world s)) ->
  enqueue_admitted_event as_raised to_builtins sha256 router policies id s = (Ok os, s') ->
  dv_native (co_site s') = dv_native (co_site s) /\
  exists e, prepared id e /\ disposed (w_db (co_world s')) e os.
Proof.
  intros Hd%reachable_distinct H. destruct (admitted_calm id _ _ _ H) as (ops & [[_ Hn] _] & _). split; [done|].
  apply cbind_run in H as [(e' & _ & [=])|(a & s1 & Ha & H)]. destruct (bool_decide (ar_status a = "retained")) eqn:Hst.
  2: { apply cbind_run in H as [(e' & _ & [=])|(m & s2 & _ & H)]. by destruct m. }
  apply bool_decide_eq_true in Hst. simpl in H. destruct (ar_event a) as [st|] eqn:Hev; [|done].
  apply cbind_run in H as [(e' & _ & [=])|(re & s2 & Hre & H)].
  apply cbind_run in H as [(e' & _ & [=])|([] & s3 & Hrep & H)].
  apply cbind_run in H as [(e' & _ & [=])|(e & s4 & He & H)]. exists e. split.
  { exists a, st, re. do 6 eexists. split_and!; [by eapply stored_run|done|done|by eapply stored_run|by eapply stored_run]. }
  eapply scoped_staging_run; [|exact H].
  destruct (calm_stored as_raised idle _ _ _ _ _ Ha) as (? & [[L1 _] _] & _).
  destruct (calm_stored as_raised idle _ _ _ _ _ Hre) as (? & [[L2 _] _] & _).
  destruct (calm_stored as_raised idle _ _ _ _ _ Hrep) as (? & [[L3 _] _] & _).
  destruct (calm_stored as_raised idle _ _ _ _ _ He) as (? & [[L4 _] _] & _).
  eapply later_distinct; [|exact Hd]. etrans; [exact L1|]. etrans; [exact L2|]. by etrans.
Qed.
End staging.

(** ** Examples *)

Module PipelineExamples.
Definition router : Router := Router_init [RoundtripExamples.route].

Definition routed : result exc (CanonicalEvent * list (Route * DeliveryPlan)) :=
  route_event (Backend := TargetExamples.backend) PlanExamples.pad router [] RoundtripExamples.event.

(** A host that finds the event retained and leaves it as it is. *)
Definition pipeline : PipelineHost :=
  {| read_event_for_ingress := fun _ => mret {| ar_status := "retained"; ar_event := Some RoundtripExamples.event |};
     get_metadata := fun _ => mret None; get_event := fun _ => mret None;
     resolve_event_relations := fun e => mret e; repair_after_event_available := fun _ => mret tt;
     project_event := fun e => mret e |}.

Lemma staging_host_laws : PipelineHostLaws pipeline.
Proof. split; intros; apply _. Qed.

Abbreviation staging :=
  (enqueue_admitted_event (Backend := TargetExamples.backend) (Pipeline := pipeline) TargetExamples.as_raised
     (fun _ => []) PlanExamples.pad router [] "evt-1" CoordinatorExamples.start).
End PipelineExamples.

Lemma route_event_plans_witness :
  exists e' route plan, PipelineExamples.routed = Ok (e', [(route, plan)]) /\
    pl_event_id plan = "evt-1" /\ pl_route_id plan = Some "route-1".
Proof.
  assert (match PipelineExamples.routed with Ok (_, ds) => length ds = 1%nat | Raise _ => False end) as H
    by (vm_compute; reflexivity).
  destruct PipelineExamples.routed as [[e' ds]|] eqn:E; [|destruct H].
  destruct (route_event_plans (Backend := TargetExamples.backend) PlanExamples.pad PipelineExamples.router []
    RoundtripExamples.event e' ds (Router_init_wf _) E) as [Hp _].
  destruct ds as [|[route plan] [|]]; [discriminate H| |discriminate H]. exists e', route, plan. split; [reflexivity|].
  destruct (Forall2_cons_1 _ _ _ _ _ Hp) as [(_ & _ & He & Hr & _) _].
  split; [exact He|exact Hr].
Defined.

Lemma admitted_event_staged_witness :
  exists o, PipelineExamples.staging.1 = Ok [o] /\ oo_status o = "queued" /\
    dv_native (co_site PipelineExamples.staging.2) = [] /\
    exists e, disposed (Backend := TargetExamples.backend) (Pipeline := PipelineExamples.pipeline)
      PlanExamples.pad PipelineExamples.router [] (w_db (co_world PipelineExamples.staging.2)) e [o].
Proof.
  assert (match PipelineExamples.staging.1 with Ok [o] => oo_status o = "queued" | _ => False end) as H
    by (vm_compute; reflexivity).
  destruct PipelineExamples.staging as [res s'] eqn:E. cbn [fst snd] in *.
  destruct res as [[|o [|]]|]; try destruct H. exists o. split; [reflexivity|]. split; [reflexivity|].
  destruct (admitted_event_staged (Laws := TargetExamples.backend_laws false) (HostLaws := CoordinatorExamples.host_laws)
    (PipelineLaws := PipelineExamples.staging_host_laws) TargetExamples.as_raised (fun _ => [])
    PlanExamples.pad PipelineExamples.router [] "evt-1" CoordinatorExamples.start [o] s'
    CoordinatorExamples.delivery_start_reachable E) as [Hn (e & _ & Hd)].
  split; [exact Hn|]. exists e. exact Hd.
Defined.
