(* ===== verification/Conversation.v ===== *)
(** * Relations and conversations

    [src/src/medre/core/planning/relation_resolution.py] and
    [conversation_graph.py], with the tables of
    [storage/sqlite/_conversation.py].

    Events and native references are append-only evidence; the conversation an
    event belongs to is derived from them and stored in a projection that can
    be repaired or rebuilt.  A repair holds a lock: the evidence it reads is one
    database [c].  A storage call that fails, and evidence that arrives while
    a repair runs, are not modelled, nor is the [updated_at] column. *)

From S2P Require Import Prelude.
From S2P Require Import Delivery.
From S2P Require Import Events.
From S2P Require Import Store.
From S2P Require Import ContentStore.

Open Scope string_scope.
Open Scope list_scope.
Open Scope Z_scope.

(** ** Relation resolution *)

Definition native_key (n : NativeRef) : string * option string * string := (nf_adapter n, nf_channel n, nf_message n).

Definition with_target (r : EventRelation) (id : string) : EventRelation :=
  {| rl_type := rl_type r; rl_target_event := Some id; rl_target_native := rl_target_native r;
     rl_key := rl_key r; rl_fallback_text := rl_fallback_text r; rl_metadata := rl_metadata r |}.

Definition with_relations (e : CanonicalEvent) (rs : list EventRelation) : CanonicalEvent :=
  {| ev_columns := ev_columns e; ev_relations := rs; ev_payload := ev_payload e; ev_metadata := ev_metadata e;
     ev_source_native_ref := ev_source_native_ref e |}.

Section resolution.
Context (c : cdb).

(** The body of the loop of [resolve_event_relations]: the relation and
    whether it changed. *)
Definition resolve_one (r : EventRelation) : EventRelation * bool :=
  match rl_target_event r, rl_target_native r with
  | None, Some n =>
      match resolve_native_ref (core c) (native_key n) with
      | Some id => (with_target r id, true)
      | None => (r, false)
      end
  | _, _ => (r, false)
  end.

Definition resolve_event_relations (e : CanonicalEvent) : CanonicalEvent :=
  let resolved := resolve_one <$> ev_relations e in
  if existsb snd resolved then with_relations e resolved.*1 else e.

Definition resolve_relation (r : EventRelation) : result exc EventRelation :=
  match rl_target_event r, rl_target_native r with
  | Some _, _ => Ok r
  | None, None => Raise (ValueError "Relation must have either target_event_id or target_native_ref to be resolved")
  | None, Some n =>
      match resolve_native_ref (core c) (native_key n) with
      | None => Ok r
      | Some id => EventRelation_init (with_target r id)
      end
  end.
End resolution.

(** [create_relation_event] at a time and with a new identifier. *)
Definition create_relation_event (now : instant) (uuid : string) (source : CanonicalEvent) (relation_type : string)
    (target : NativeRef) (key : option string) : result exc CanonicalEvent :=
  relation ← EventRelation_init
    {| rl_type := relation_type; rl_target_event := None; rl_target_native := Some target; rl_key := key;
       rl_fallback_text := None; rl_metadata := [] |};
  CanonicalEvent_init
    {| ev_columns := {| ev_event_id := uuid; ev_event_kind := ev_event_kind source;
                        ev_schema_version := ev_schema_version source; ev_timestamp := now;
                        ev_source_adapter := ev_source_adapter source;
                        ev_source_transport_id := ev_source_transport_id source;
                        ev_source_channel_id := ev_source_channel_id source;
                        ev_parent_event_id := Some (ev_event_id source);
                        ev_lineage := ev_lineage source ++ [ev_event_id source]; ev_depth := ev_depth source + 1;
                        ev_trace_id := ev_trace_id source; ev_root_event_id := None; ev_conversation_id := None |};
       ev_relations := [relation]; ev_payload := ev_payload source;
       ev_metadata := {| em_transport := None; em_routing := None; em_radio := None; em_telemetry := None;
                         em_native := None; em_custom := [] |};
       ev_source_native_ref := None |}.

(** ** Identity on ingress *)

Definition MAX_WALK_DEPTH : nat := 64.

(** [_assign_identity]. *)
Definition assign_identity (e : CanonicalEvent) (root : string) : CanonicalEvent :=
  if bool_decide (ev_root_event_id e = Some root) && bool_decide (ev_conversation_id e = Some root) then e
  else
    let k := ev_columns e in
    {| ev_columns := {| ev_event_id := ev_event_id k; ev_event_kind := ev_event_kind k;
                        ev_schema_version := ev_schema_version k; ev_timestamp := ev_timestamp k;
                        ev_source_adapter := ev_source_adapter k; ev_source_transport_id := ev_source_transport_id k;
                        ev_source_channel_id := ev_source_channel_id k; ev_parent_event_id := ev_parent_event_id k;
                        ev_lineage := ev_lineage k; ev_depth := ev_depth k; ev_trace_id := ev_trace_id k;
                        ev_root_event_id := Some root; ev_conversation_id := Some root |};
       ev_relations := ev_relations e; ev_payload := ev_payload e; ev_metadata := ev_metadata e;
       ev_source_native_ref := ev_source_native_ref e |}.

Section authority.
Context (get : string -> result exc (option CanonicalEvent)).

(** The loops over relations: the first target that is stored. *)
Fixpoint first_target (rs : list EventRelation) : result exc (option CanonicalEvent) :=
  match rs with
  | [] => Ok None
  | r :: rest =>
      match rl_target_event r with
      | None => first_target rest
      | Some id =>
          target ← get id;
          match (target : option CanonicalEvent) with Some t => Ok (Some t) | None => first_target rest end
      end
  end.

(** [_resolve_root_from]; [left] is what the depth limit leaves. *)
Fixpoint resolve_root_from (left : nat) (visited : list string) (e : CanonicalEvent) : result exc string :=
  if elem (ev_event_id e) visited then Ok (ev_event_id e)
  else match left with
  | O => Ok (ev_event_id e)
  | S left' =>
      match ev_root_event_id e with
      | Some root => Ok root
      | None =>
          parent ← first_target (ev_relations e);
          match (parent : option CanonicalEvent) with
          | None => Ok (ev_event_id e)
          | Some p => resolve_root_from left' (ev_event_id e :: visited) p
          end
      end
  end.

Definition resolve_conversation_identity (e : CanonicalEvent) : result exc CanonicalEvent :=
  match ev_root_event_id e with
  | Some root => Ok (assign_identity e root)
  | None =>
      target ← first_target (ev_relations e);
      match (target : option CanonicalEvent) with
      | None => Ok (assign_identity e (ev_event_id e))
      | Some t => root ← resolve_root_from MAX_WALK_DEPTH [] t; Ok (assign_identity e root)
      end
  end.
End authority.

(** ** The projection *)

Definition CONVERSATION_MEMBERSHIP_STATES : list string := ["root"; "resolved"; "unresolved"; "cycle"].
Definition CONVERSATION_PROJECTION_STATUSES : list string := ["clean"; "dirty"; "rebuilding"].

Record ConversationMembership : Set := {
  mb_event_id : string;
  mb_root : string;
  mb_conversation : string;
  mb_target : option string;
  mb_relation_type : option string;
  mb_depth : Z;
  mb_state : string
}.

#[export] Instance ConversationMembership_eq_dec : EqDecision ConversationMembership.
Proof. solve_decision. Defined.

Definition ConversationMembership_init (m : ConversationMembership) : result exc ConversationMembership :=
  let state s := bool_decide (mb_state m = s) in
  if negb (elem (mb_state m) CONVERSATION_MEMBERSHIP_STATES) then Raise (ValueError "invalid conversation resolution state")
  else if mb_depth m <? 0 then Raise (ValueError "conversation membership depth must be non-negative")
  else if negb (bool_decide (mb_conversation m = mb_root m))
  then Raise (ValueError "conversation_id must equal root_event_id in the current projection")
  else if state "root" && negb (bool_decide (mb_root m = mb_event_id m))
  then Raise (ValueError "root membership must self-root")
  else if state "root" && bool_decide (mb_target m <> None)
  then Raise (ValueError "root membership cannot have a resolved target")
  else if state "root" && bool_decide (mb_relation_type m <> None)
  then Raise (ValueError "root membership cannot have a relation type")
  else if state "root" && negb (mb_depth m =? 0) then Raise (ValueError "root membership depth must be zero")
  else if state "unresolved" && bool_decide (mb_relation_type m = None)
  then Raise (ValueError "unresolved membership requires a relation type")
  else if (state "resolved" || state "cycle") && bool_decide (mb_target m = None)
  then Raise (ValueError "membership requires a resolved target")
  else if (state "resolved" || state "cycle") && bool_decide (mb_relation_type m = None)
  then Raise (ValueError "membership requires a relation type")
  else if state "resolved" && (mb_depth m =? 0) then Raise (ValueError "resolved membership depth must be positive")
  else if state "cycle" && negb (mb_depth m =? 0) then Raise (ValueError "cycle membership depth must be zero")
  else Ok m.

Definition CONVERSATION_PROJECTION_REVISION : Z := 1.

Record ConversationProjectionState : Set := {
  ps_revision : Z;
  ps_status : string;
  ps_last_event_id : option string
}.

Definition ConversationProjectionState_init (s : ConversationProjectionState) : result exc ConversationProjectionState :=
  if ps_revision s <? 1 then Raise (ValueError "conversation projection revision must be positive")
  else if negb (elem (ps_status s) CONVERSATION_PROJECTION_STATUSES)
  then Raise (ValueError "invalid conversation projection status")
  else if negb (bool_decide (ps_status s = "rebuilding")) && bool_decide (ps_last_event_id s <> None)
  then Raise (ValueError "only rebuilding conversation projection state may carry progress")
  else Ok s.

(** The two projection tables and the caches of one run. *)
Record conversation : Type := {
  cv_rows : list (string * ConversationMembership);
  cv_marker : option ConversationProjectionState;
  cv_members : list (string * ConversationMembership);
  cv_events : list (string * option CanonicalEvent)
}.

Definition conv (A : Type) : Type := conversation -> result exc A * conversation.

#[export] Instance conv_ret : MRet conv := fun _ a s => (Ok a, s).
#[export] Instance conv_bind : MBind conv := fun _ _ k m s =>
  match m s with
  | (Ok a, s') => k a s'
  | (Raise e, s') => (Raise e, s')
  end.

Definition cv_fail {A} (e : exc) : conv A := fun s => (Raise e, s).
Definition cv_of {A} (r : result exc A) : conv A := fun s => (r, s).
Definition cv_get {A} (f : conversation -> A) : conv A := fun s => (Ok (f s), s).

Definition set_rows (rows : list (string * ConversationMembership)) : conv unit := fun s =>
  (Ok tt, {| cv_rows := rows; cv_marker := cv_marker s; cv_members := cv_members s; cv_events := cv_events s |}).
Definition set_marker (m : ConversationProjectionState) : conv unit := fun s =>
  (Ok tt, {| cv_rows := cv_rows s; cv_marker := Some m; cv_members := cv_members s; cv_events := cv_events s |}).
Definition set_caches (members : list (string * ConversationMembership))
    (events : list (string * option CanonicalEvent)) : conv unit := fun s =>
  (Ok tt, {| cv_rows := cv_rows s; cv_marker := cv_marker s; cv_members := members; cv_events := events |}).
Definition remember_event (id : string) (e : option CanonicalEvent) : conv unit := fun s =>
  (Ok tt, {| cv_rows := cv_rows s; cv_marker := cv_marker s; cv_members := cv_members s;
             cv_events := od_set id e (cv_events s) |}).

Definition set_members (members : list (string * ConversationMembership)) : conv unit := fun s =>
  (Ok tt, {| cv_rows := cv_rows s; cv_marker := cv_marker s; cv_members := members; cv_events := cv_events s |}).

(** [cache[id] = ConversationMembership(...)]. *)
Definition cache_member (m : ConversationMembership) : conv unit :=
  m ← cv_of (ConversationMembership_init m);
  members ← cv_get cv_members;
  set_members (od_set (mb_event_id m) m members).

(** Parent, relation type and whether there is a dependency at all. *)
Record edge : Set := { eg_parent : option string; eg_type : option string; eg_dependency : bool }.

Section projection.
Context (c : cdb) (get : string -> result exc (option CanonicalEvent)).

(** ** Statements *)

Definition list_relation_sources_for_native_ref (key : string * option string * string) : list string :=
  reverse (remove_dups (reverse (rw_event_id <$>
    filter (fun w => (nc_adapter (rw_native w), nc_channel (rw_native w), nc_message (rw_native w)) =
                     (Some key.1.1, key.1.2, Some key.2)) (relation_rows c)))).

Definition list_native_refs_for_event (id : string) : list NativeMessageRef :=
  sorted_by (on_key (fun n => (nr_created_at n, nr_id n)) (lex_leb Z.leb String.leb))
    (filter (fun n => nr_event_id n = id) (native_refs (core c))).

(** The CHECK clauses and references of [conversation_membership]. *)
Definition membership_check (m : ConversationMembership) : bool :=
  (0 <=? mb_depth m) && bool_decide (mb_conversation m = mb_root m) &&
  elem (mb_state m) CONVERSATION_MEMBERSHIP_STATES.

Definition membership_references (m : ConversationMembership) : bool :=
  event_exists c (mb_event_id m) && event_exists c (mb_root m) &&
  match mb_target m with Some t => event_exists c t | None => true end.

(** [put_conversation_membership]: was a row written? *)
Definition put_conversation_membership (m : ConversationMembership) : conv bool :=
  rows ← cv_get cv_rows;
  if bool_decide (od_get (mb_event_id m) rows = Some m) then mret false
  else if negb (membership_check m) then cv_fail IntegrityError
  else if negb (membership_references m) then cv_fail ForeignKeyError
  else set_rows (od_set (mb_event_id m) m rows) ;; mret true.

Definition get_conversation_membership (id : string) : conv (option ConversationMembership) :=
  cv_get (fun s => od_get id (cv_rows s)).

Definition put_state (status : string) (last : option string) : conv unit :=
  m ← cv_of (ConversationProjectionState_init {| ps_revision := CONVERSATION_PROJECTION_REVISION; ps_status := status;
                                                ps_last_event_id := last |});
  set_marker m.

(** ** Ancestry *)

(** [_get_event]. *)
Definition get_event (id : string) : conv (option CanonicalEvent) :=
  known ← cv_get (fun s => od_get id (cv_events s));
  match (known : option (option CanonicalEvent)) with
  | Some e => mret e
  | None => e ← cv_of (get id); remember_event id e ;; mret e
  end.

(** The stored event a relation points to now, and whether it points to one
    at all. *)
Definition relation_target (r : EventRelation) : conv (option string * bool) :=
  match rl_target_event r, rl_target_native r with
  | Some id, _ =>
      e ← get_event id;
      mret (match (e : option CanonicalEvent) with Some _ => Some id | None => None end, true)
  | None, Some n =>
      match resolve_native_ref (core c) (native_key n) with
      | None => mret (None, true)
      | Some id =>
          e ← get_event id;
          mret (match (e : option CanonicalEvent) with Some _ => Some id | None => None end, true)
      end
  | None, None => mret (None, false)
  end.

(** [first_dependency_type or relation.relation_type]. *)
Definition type_or (first : option string) (t : string) : option string :=
  match opt_or_none first with Some x => Some x | None => Some t end.

(** [_select_parent]. *)
Fixpoint select_parent (dependency : bool) (first : option string) (rs : list EventRelation) : conv edge :=
  match rs with
  | [] => mret {| eg_parent := None; eg_type := first; eg_dependency := dependency |}
  | r :: rest =>
      '(target, depends) ← relation_target r;
      match (target : option string) with
      | Some id => mret {| eg_parent := Some id; eg_type := Some (rl_type r); eg_dependency := true |}
      | None => if (depends : bool) then select_parent true (type_or first (rl_type r)) rest
                else select_parent dependency first rest
      end
  end.

(** [path[positions[current]:]]. *)
Fixpoint cycle_from (current : string) (path : list (string * edge)) : option (list (string * edge)) :=
  match path with
  | [] => None
  | p :: rest => if bool_decide (p.1 = current) then Some (p :: rest) else cycle_from current rest
  end.

(** [min(cycle)]; the list is not empty. *)
Fixpoint least_from (best : string) (ids : list string) : string :=
  match ids with
  | [] => best
  | x :: rest => least_from (if String.ltb x best then x else best) rest
  end.

Definition cycle_membership (root : string) (p : string * edge) : ConversationMembership :=
  {| mb_event_id := p.1; mb_root := root; mb_conversation := root; mb_target := eg_parent p.2;
     mb_relation_type := eg_type p.2; mb_depth := 0; mb_state := "cycle" |}.

Fixpoint cache_cycle (root : string) (cycle : list (string * edge)) : conv unit :=
  match cycle with
  | [] => mret tt
  | p :: rest => cache_member (cycle_membership root p) ;; cache_cycle root rest
  end.

Definition terminal_membership (current : string) (e : edge) : ConversationMembership :=
  {| mb_event_id := current; mb_root := current; mb_conversation := current; mb_target := None;
     mb_relation_type := eg_type e; mb_depth := 0;
     mb_state := if eg_dependency e then "unresolved" else "root" |}.

(** The [while] loop of [_resolve_membership]; the result is the path. *)
Fixpoint walk (fuel : nat) (path : list (string * edge)) (current : string) : conv (list (string * edge)) :=
  known ← cv_get (fun s => od_get current (cv_members s));
  match (known : option ConversationMembership) with
  | Some _ => mret path
  | None =>
      match cycle_from current path with
      | Some cycle => cache_cycle (least_from current cycle.*1) cycle ;; mret path
      | None =>
          event ← get_event current;
          match (event : option CanonicalEvent) with
          | None => cv_fail (ValueError "cannot project missing canonical event")
          | Some e =>
              edge ← select_parent false None (ev_relations e);
              let path := path ++ [(current, edge)] in
              match eg_parent edge with
              | None => cache_member (terminal_membership current edge) ;; mret path
              | Some parent =>
                  match fuel with
                  | O => cv_fail (RuntimeError "out of fuel")
                  | S fuel' => walk fuel' path parent
                  end
              end
          end
      end
  end.

Definition child_membership (node : string) (e : edge) (parent : string) (m : ConversationMembership)
    : ConversationMembership :=
  {| mb_event_id := node; mb_root := mb_root m; mb_conversation := mb_conversation m; mb_target := Some parent;
     mb_relation_type := eg_type e; mb_depth := mb_depth m + 1;
     mb_state := if bool_decide (mb_state m = "unresolved") then "unresolved" else "resolved" |}.

(** [for node_id in reversed(path)]. *)
Fixpoint unwind (rpath : list (string * edge)) : conv unit :=
  match rpath with
  | [] => mret tt
  | (node, e) :: rest =>
      known ← cv_get (fun s => od_get node (cv_members s));
      match (known : option ConversationMembership) with
      | Some _ => unwind rest
      | None =>
          match eg_parent e with
          | None => cv_fail (RuntimeError "conversation projection lost terminal edge")
          | Some parent =>
              found ← cv_get (fun s => od_get parent (cv_members s));
              match (found : option ConversationMembership) with
              | None => cv_fail (RuntimeError "conversation projection could not resolve parent")
              | Some m => cache_member (child_membership node e parent m) ;; unwind rest
              end
          end
      end
  end.

(** A walk visits an event at most once. *)
Definition walk_fuel : nat := length (canonical_events (core c)).

Definition resolve_membership (id : string) : conv ConversationMembership :=
  known ← cv_get (fun s => od_get id (cv_members s));
  match (known : option ConversationMembership) with
  | Some m => mret m
  | None =>
      path ← walk walk_fuel [] id;
      unwind (rev path) ;;
      found ← cv_get (fun s => od_get id (cv_members s));
      match (found : option ConversationMembership) with
      | None => cv_fail (RuntimeError "conversation projection produced no membership")
      | Some m => mret m
      end
  end.

(** ** Repair *)

(** Members cached since [before], by key. *)
Definition new_members (before : list string) : conv (list (string * ConversationMembership)) :=
  cv_get (fun s => sorted_by (on_key fst String.leb) (filter (fun kv => kv.1 ∉ before) (cv_members s))).

Fixpoint put_all (members : list (string * ConversationMembership)) : conv (list string) :=
  match members with
  | [] => mret []
  | (id, m) :: rest =>
      changed ← put_conversation_membership m;
      ids ← put_all rest;
      mret (if (changed : bool) then id :: ids else ids)
  end.

(** [_reconcile_event_unlocked]. *)
Definition reconcile_event_unlocked (id : string) : conv (ConversationMembership * list string) :=
  before ← cv_get (fun s => od_keys (cv_members s));
  m ← resolve_membership id;
  new ← new_members before;
  changed ← put_all new;
  mret (m, changed).

Definition reconcile_event (id : string) : conv (ConversationMembership * list string) :=
  set_caches [] [] ;; reconcile_event_unlocked id.

(** Root and conversation of a membership are equal. *)
Definition project_event (e : CanonicalEvent) : conv CanonicalEvent :=
  known ← get_conversation_membership (ev_event_id e);
  m ← match (known : option ConversationMembership) with
      | Some m => mret m
      | None => '(m, _) ← reconcile_event (ev_event_id e); mret m
      end;
  mret (assign_identity e (mb_root m)).

(** [_native_dependent_sources]: distinct sources, the first occurrence
    counts. *)
Definition distinct (ids : list string) : list string := reverse (remove_dups (reverse ids)).

Definition native_dependent_sources (id : string) : list string :=
  distinct (list_native_refs_for_event id ≫= fun n => list_relation_sources_for_native_ref (native_ref_identity n)).

Definition dependent_sources (id : string) : list string :=
  distinct (list_relation_sources c id ++ native_dependent_sources id).

(** Sources not seen yet go to the end of the queue. *)
Fixpoint add_sources (processed pending queued sources : list string) : list string * list string :=
  match sources with
  | [] => (pending, queued)
  | s :: rest =>
      if elem s processed || elem s queued then add_sources processed pending queued rest
      else add_sources processed (pending ++ [s]) (s :: queued) rest
  end.

(** [sorted(anchors)] for the set of the changed events and the current one. *)
Definition anchors_of (changed : list string) (current : string) : list string :=
  sorted_by String.leb (remove_dups (current :: changed)).

(** The [while] loop of [_repair_dependents_unlocked]: the changed events and
    the membership asked for. *)
Fixpoint repair_loop (fuel : nat) (requested : option string) (pending queued processed changed : list string)
    (found : option ConversationMembership) : conv (list string * option ConversationMembership) :=
  match pending with
  | [] => mret (changed, found)
  | current :: rest =>
      match fuel with
      | O => cv_fail (RuntimeError "out of fuel")
      | S fuel' =>
          '(m, ids) ← reconcile_event_unlocked current;
          let found := if bool_decide (Some current = requested) then Some m else found in
          let '(pending, queued) :=
            add_sources (current :: processed) rest queued (anchors_of ids current ≫= dependent_sources) in
          repair_loop fuel' requested pending queued (current :: processed) (ids ++ changed) found
      end
  end.

(** An event is queued at most once. *)
Definition repair_fuel : nat := length (canonical_events (core c)).

Definition repair_dependents_unlocked (initial : list string) (requested : option string)
    : conv (list string * option ConversationMembership) :=
  set_caches [] [] ;;
  '(changed, found) ← repair_loop repair_fuel requested initial initial [] [] None;
  mret (sorted_by String.leb (remove_dups changed), found).

Definition repair_after_event_available (id : string) : conv (ConversationMembership * list string) :=
  '(changed, found) ← repair_dependents_unlocked [id] (Some id);
  match (found : option ConversationMembership) with
  | None => cv_fail (RuntimeError "conversation repair produced no membership")
  | Some m => mret (m, changed)
  end.

Definition repair_after_native_ref_available (id : string) : conv (list string) :=
  '(changed, _) ← repair_dependents_unlocked (native_dependent_sources id) None;
  mret changed.

(** ** Rebuild *)

Definition REBUILD_PAGE_SIZE : Z := 256.
Definition REBUILD_MEMBERSHIP_CACHE_SIZE : nat := 256.

Record ConversationRebuildSummary : Set := { rs_scanned : Z; rs_changed : Z; rs_skipped : bool }.

(** Oldest entries leave the cache between the events of a rebuild. *)
Definition prune {A} (cache : list A) : list A := drop (length cache - REBUILD_MEMBERSHIP_CACHE_SIZE) cache.

(** One event of a page; [cached] is [membership_cache]. *)
Definition rebuild_event (cached : list (string * ConversationMembership)) (id : string)
    : conv (list (string * ConversationMembership) * Z) :=
  set_caches cached [] ;;
  resolve_membership id ;;
  new ← new_members (od_keys cached);
  changed ← put_all new;
  mret (prune (foldl (fun d kv => od_set kv.1 kv.2 d) cached new), Z.of_nat (length changed)).

Fixpoint rebuild_page (cached : list (string * ConversationMembership)) (changed : Z) (ids : list string)
    : conv (list (string * ConversationMembership) * Z) :=
  match ids with
  | [] => mret (cached, changed)
  | id :: rest => '(cached, n) ← rebuild_event cached id; rebuild_page cached (changed + n) rest
  end.

Fixpoint rebuild_pages (fuel : nat) (cursor : option string) (cached : list (string * ConversationMembership))
    (scanned changed : Z) : conv (Z * Z) :=
  ids ← cv_of (list_event_ids_page c cursor REBUILD_PAGE_SIZE);
  match last ids with
  | None => mret (scanned, changed)
  | Some final =>
      '(cached, changed) ← rebuild_page cached changed ids;
      put_state "rebuilding" (Some final) ;;
      match fuel with
      | O => cv_fail (RuntimeError "out of fuel")
      | S fuel' => rebuild_pages fuel' (Some final) cached (scanned + Z.of_nat (length ids)) changed
      end
  end.

Definition rebuild_all : conv ConversationRebuildSummary :=
  prior ← cv_get cv_marker;
  let current_with status :=
    match (prior : option ConversationProjectionState) with
    | Some p => (ps_revision p =? CONVERSATION_PROJECTION_REVISION) && bool_decide (ps_status p = status)
    | None => false
    end in
  if current_with "clean" then
    put_state "dirty" None ;; mret {| rs_scanned := 0; rs_changed := 0; rs_skipped := true |}
  else
    let cursor := if current_with "rebuilding" then prior ≫= ps_last_event_id else None in
    put_state "rebuilding" cursor ;;
    '(scanned, changed) ← rebuild_pages walk_fuel cursor [] 0 0;
    put_state "dirty" None ;;
    mret {| rs_scanned := scanned; rs_changed := changed; rs_skipped := false |}.

Definition mark_clean : conv unit := put_state "clean" None.
End projection.
