(* ===== verification/ConversationGraph.v ===== *)
(** * Ancestry as a graph

    What the conversation of an event is: each stored event has at most one
    parent, so its ancestry is a chain that ends at an event without parent
    or runs into a cycle.  [member] says which membership that gives, and
    [resolve_run] that [resolve_membership] computes it. *)

From S2P Require Import Prelude.
From S2P Require Import Delivery.
From S2P Require Import Events.
From S2P Require Import Store.
From S2P Require Import ContentStore.
From S2P Require Import Conversation.

Open Scope string_scope.
Open Scope list_scope.
Open Scope Z_scope.

(** ** Memberships of a graph *)

Section graph.
Context (E : string -> option edge).

Definition up (x p : string) : Prop := exists e, E x = Some e /\ eg_parent e = Some p.

(** The membership of an event. *)
Inductive member : string -> ConversationMembership -> Prop :=
| Terminal x e : E x = Some e -> eg_parent e = None -> member x (terminal_membership x e)
| OnCycle x e root :
    E x = Some e -> tc up x x -> rtc up x root -> (forall y, rtc up x y -> String.leb root y = true) ->
    member x (cycle_membership root (x, e))
| Child x e p m :
    E x = Some e -> eg_parent e = Some p -> ~ tc up x x -> member p m -> member x (child_membership x e p m).

Lemma up_fun x p q : up x p -> up x q -> p = q.
Proof. intros (e & H & Hp) (e' & H' & Hq). congruence. Qed.

(** Two walks from one event: one continues the other. *)
Lemma up_line x y z : rtc up x y -> rtc up x z -> rtc up y z \/ rtc up z y.
Proof.
  intros H. revert z. induction H as [x|x x' y Hx H IH]; intros z Hz; [by left|].
  destruct Hz as [x|x x'' z Hx' Hz]; [right; by eapply rtc_l|]. rewrite (up_fun _ _ _ Hx' Hx) in Hz. by apply IH.
Qed.

Lemma tc_first x y : tc up x y -> exists x', up x x' /\ rtc up x' y.
Proof. destruct 1 as [x y H|x x' y H Hr]; [by exists y|exists x'; split; [done|by apply tc_rtc]]. Qed.

(** A cycle is left by no walk. *)
Lemma cycle_back x y : tc up x x -> rtc up x y -> rtc up y x.
Proof.
  intros Hc H. revert Hc. induction H as [x|x x1 y Hx H IH]; intros Hc; [done|].
  destruct (tc_first _ _ Hc) as (x' & Hx' & Hr). rewrite (up_fun _ _ _ Hx' Hx) in Hr.
  etrans; [|exact Hr]. apply IH. eapply tc_rtc_l; [exact Hr|by apply tc_once].
Qed.
Lemma cycle_on x y : tc up x x -> rtc up x y -> tc up y y.
Proof.
  intros Hc H. eapply tc_rtc_l; [by apply cycle_back|]. by eapply tc_rtc_r.
Qed.
Lemma terminal_off x y e : E y = Some e -> eg_parent e = None -> rtc up x y -> ~ tc up x x.
Proof.
  intros He Hp H Hc. destruct (tc_first y y) as (p & (e' & He' & Hp') & _); [by eapply cycle_on|]. congruence.
Qed.

Lemma member_fun x m m' : member x m -> member x m' -> m = m'.
Proof.
  intros H. revert m'. induction H as [x e He Hp|x e root He Hc Hr Hl|x e p m He Hp Hc Hm IH]; intros m' H'.
  - destruct H' as [x e' He' _|x e' ? _ Hc|x e' p m He' Hp' _ _]; [congruence| |congruence].
    exfalso. by eapply (terminal_off x x e).
  - destruct H' as [x e' He' Hp|x e' root' He' _ Hr' Hl'|x e' p m _ _ Hc' _]; [|f_equal|done].
    + exfalso. by eapply (terminal_off x x e').
    + apply (leb_antisym_eq (leb := String.leb)); auto.
    + congruence.
  - destruct H' as [x e' He' Hp'|x e' ? _ Hc' _ _|x e' p' m' He' Hp' _ Hm']; [congruence|done|].
    rewrite He in He'. injection He' as <-. rewrite Hp in Hp'. injection Hp' as <-. f_equal. by apply IH.
Qed.

Lemma member_event x m : member x m -> mb_event_id m = x.
Proof. by destruct 1. Qed.
Lemma member_stored x m : member x m -> is_Some (E x).
Proof. by destruct 1; eexists. Qed.
Lemma member_root x m : member x m -> mb_conversation m = mb_root m /\ rtc up x (mb_root m).
Proof.
  induction 1 as [x e|x e root|x e p m He Hp Hc Hm [IH1 IH2]]; simpl; [split; done..|split; [done|]].
  eapply rtc_l; [by exists e|done].
Qed.

(** What holds of every edge read from relations. *)
Definition edge_ok (e : edge) : Prop :=
  (eg_parent e <> None -> eg_type e <> None) /\
  if eg_dependency e then eg_type e <> None else eg_parent e = None /\ eg_type e = None.

Hypothesis edges_ok : forall x e, E x = Some e -> edge_ok e.

Lemma member_depth x m : member x m -> 0 <= mb_depth m.
Proof. induction 1; simpl; lia. Qed.

Lemma member_valid x m : member x m -> ConversationMembership_init m = Ok m.
Proof.
  intros H. pose proof (member_depth _ _ H) as Hd. pose proof (member_root _ _ H) as [Hr _].
  destruct H as [x e He Hp|x e root He Hc _ _|x e p m He Hp Hc Hm]; destruct (edges_ok _ _ He) as [Ht Hk].
  - unfold ConversationMembership_init. simpl. rewrite Hp in *. destruct (eg_dependency e); simpl.
    + destruct (eg_type e); [|done]. simpl. rewrite bool_decide_eq_true_2; done.
    + destruct Hk as [_ ->]. simpl. rewrite !bool_decide_eq_true_2; done.
  - destruct (tc_first _ _ Hc) as (p & (e' & He' & Hp) & _). rewrite He in He'. injection He' as <-.
    rewrite Hp in *. destruct (eg_type e) as [t|] eqn:Ety; [|by destruct Ht].
    unfold ConversationMembership_init. simpl. rewrite Hp, Ety. simpl. rewrite !bool_decide_eq_true_2; done.
  - rewrite Hp in *. destruct (eg_type e) as [t|] eqn:Ety; [|by destruct Ht].
    unfold ConversationMembership_init. simpl in *. rewrite Ety. rewrite (proj2 (Z.ltb_ge _ _)) by lia.
    rewrite (bool_decide_eq_true_2 (mb_conversation m = mb_root m)) by done.
    apply member_depth in Hm. case_bool_decide; simpl; [done|]. by rewrite (proj2 (Z.eqb_neq _ _)) by lia.
Qed.
End graph.

(** Only the edges of the ancestry matter. *)
Lemma up_agree (E E' : string -> option edge) x y :
  (forall z, rtc (up E) x z -> E z = E' z) -> rtc (up E) x y -> rtc (up E') x y.
Proof.
  intros Ha H. induction H as [x|x x' y Hx H IH]; [done|]. eapply rtc_l.
  - destruct Hx as (e & He & Hp). exists e. split; [by rewrite <-Ha|done].
  - apply IH. intros z Hz. apply Ha. by eapply rtc_l.
Qed.
Lemma agree_sym (E E' : string -> option edge) x :
  (forall z, rtc (up E) x z -> E z = E' z) -> forall z, rtc (up E') x z -> E' z = E z.
Proof.
  intros Ha z H. symmetry. apply Ha. induction H as [x|x x' y Hx H IH]; [done|].
  assert (up E x x') as Hx'.
  { destruct Hx as (e & He & Hp). exists e. split; [by rewrite Ha|done]. }
  eapply rtc_l; [done|]. apply IH. intros z Hz. apply Ha. by eapply rtc_l.
Qed.
Lemma cycle_agree (E E' : string -> option edge) x :
  (forall z, rtc (up E) x z -> E z = E' z) -> tc (up E) x x -> tc (up E') x x.
Proof.
  intros Ha (x' & (e & He & Hp) & Hr)%tc_first. eapply tc_rtc_r.
  - apply tc_once. exists e. split; [by rewrite <-Ha|done].
  - apply up_agree with E; [|done]. intros z Hz. apply Ha. eapply rtc_l; [by exists e|done].
Qed.

Lemma member_agree (E E' : string -> option edge) x m :
  (forall z, rtc (up E) x z -> E z = E' z) -> member E x m -> member E' x m.
Proof.
  intros Ha H. induction H as [x e He Hp|x e root He Hc Hr Hl|x e p m He Hp Hc Hm IH].
  - apply Terminal; [by rewrite <-Ha|done].
  - apply OnCycle; [by rewrite <-Ha|by eapply cycle_agree|by eapply up_agree|].
    intros y Hy. apply Hl. eapply up_agree; [|done]. by apply agree_sym.
  - apply Child; [by rewrite <-Ha|done| |].
    + intros Hc'. apply Hc. eapply cycle_agree; [|done]. by apply agree_sym.
    + apply IH. intros z Hz. apply Ha. eapply rtc_l; [by exists e|done].
Qed.

(** ** The graph of a database *)

(** What matters of a relation: its type and where it points. *)
Definition point : Type := string * option string * option NativeRef.
Definition relation_point (r : EventRelation) : point := (rl_type r, rl_target_event r, rl_target_native r).
Definition row_point (w : RelationRow) : point := (rw_type w, rw_target_event w, join_native (rw_native w)).

(** The event has an entry. *)
Abbreviation cached d x := (is_Some (od_get x d)).

Section store.
Context (c : cdb).

Definition stored_id (id : string) : option string := if event_exists c id then Some id else None.

(** The stored event a relation points to, and whether it points at all. *)
Definition aim (t : point) : option string * bool :=
  match t with
  | (_, Some id, _) => (stored_id id, true)
  | (_, None, Some n) => (resolve_native_ref (core c) (native_key n) ≫= stored_id, true)
  | (_, None, None) => (None, false)
  end.

Fixpoint pick (dependency : bool) (first : option string) (ts : list point) : edge :=
  match ts with
  | [] => {| eg_parent := None; eg_type := first; eg_dependency := dependency |}
  | t :: rest =>
      match aim t with
      | (Some id, _) => {| eg_parent := Some id; eg_type := Some t.1.1; eg_dependency := true |}
      | (None, true) => pick true (type_or first t.1.1) rest
      | (None, false) => pick dependency first rest
      end
  end.

Definition edges (id : string) : option edge :=
  if event_exists c id then Some (pick false None (row_point <$> relations_of c id)) else None.

Lemma pick_ok (dependency : bool) (first : option string) ts :
  (if dependency then first <> None else first = None) -> edge_ok (pick dependency first ts).
Proof.
  revert dependency first. induction ts as [|t ts IH]; intros dependency first H; simpl.
  - unfold edge_ok. simpl. split; [done|]. by destruct dependency.
  - destruct (aim t) as [[id|] [|]]; [done|done| |by apply IH]. apply IH. unfold type_or. by destruct (opt_or_none first).
Qed.
Lemma edges_ok x e : edges x = Some e -> edge_ok e.
Proof. unfold edges. case_match; [|done]. intros [= <-]. by apply pick_ok. Qed.

Lemma stored_id_Some x id : stored_id x = Some id -> x = id /\ event_exists c id = true.
Proof. unfold stored_id. case_match; [|done]. by intros [= ->]. Qed.

(** A parent is what some relation points to. *)
Lemma pick_parent dependency first ts p :
  eg_parent (pick dependency first ts) = Some p -> exists t, t ∈ ts /\ (aim t).1 = Some p.
Proof.
  revert dependency first. induction ts as [|t ts IH]; intros dependency first; simpl; [done|].
  destruct (aim t) as [[id|] [|]] eqn:Ht; simpl.
  1, 2: intros [= <-]; exists t; rewrite Ht; split; [set_solver|done].
  all: intros (t' & ? & ?)%IH; exists t'; set_solver.
Qed.
Lemma aim_stored t p : (aim t).1 = Some p -> event_exists c p = true.
Proof.
  destruct t as [[ty [id|]] [n|]]; simpl; [| | |done].
  1, 2: by intros [_ ?]%stored_id_Some.
  intros (x & _ & [_ ?]%stored_id_Some)%bind_Some. done.
Qed.
Lemma up_stored x p : up edges x p -> event_exists c x = true /\ event_exists c p = true.
Proof.
  intros (e & He & Hp). unfold edges in He. case_match eqn:Hx; [|done]. injection He as <-. split; [done|].
  apply pick_parent in Hp as (t & _ & Ht). by eapply aim_stored.
Qed.
Lemma rtc_stored x p : rtc (up edges) x p -> event_exists c x = true -> event_exists c p = true.
Proof. induction 1 as [|x y z H _ IH]; [done|]. intros _. apply IH. by apply up_stored in H as [_ ?]. Qed.

(** ** Reading it *)

(** How events are read: what is stored is found, with the relations of its
    rows, and nothing else is. *)
Class Reads (get : string -> result exc (option CanonicalEvent)) : Prop := {
  reads_stored id : event_exists c id = true -> exists e, get id = Ok (Some e) /\
    relation_point <$> ev_relations e = row_point <$> relations_of c id;
  reads_missing id : event_exists c id = false -> get id = Ok None
}.

Context (get : string -> result exc (option CanonicalEvent)) `{!Reads get}.

(** Only the cache of events may have changed, and it agrees with the store. *)
Definition agree (s : conversation) : Prop := forall id e, od_get id (cv_events s) = Some e -> get id = Ok e.
Record quiet (s s' : conversation) : Prop := {
  qu_rows : cv_rows s' = cv_rows s;
  qu_marker : cv_marker s' = cv_marker s;
  qu_members : cv_members s' = cv_members s;
  qu_agree : agree s'
}.

Lemma quiet_refl s : agree s -> quiet s s.
Proof. by split. Qed.
Lemma quiet_trans s1 s2 s3 : quiet s1 s2 -> quiet s2 s3 -> quiet s1 s3.
Proof. intros [] []. split; [congruence..|done]. Qed.

Lemma get_event_run id s :
  agree s -> exists e s', get_event get id s = (Ok e, s') /\ get id = Ok e /\ quiet s s'.
Proof.
  intros Ha. unfold get_event, mbind, conv_bind, cv_get. destruct (od_get id (cv_events s)) as [e|] eqn:E.
  - exists e, s. split; [done|]. split; [by apply Ha|by apply quiet_refl].
  - assert (exists e, get id = Ok e) as [e He].
    { destruct (event_exists c id) eqn:Hx; [apply reads_stored in Hx as (e & ? & _); by exists (Some e)|].
      exists None. by apply reads_missing. }
    unfold cv_of, remember_event. rewrite He. do 2 eexists. split; [done|]. split; [done|]. split; [done..|].
    intros id' e'. simpl. destruct (decide (id = id')) as [->|Hne].
    + rewrite od_get_set_eq. by intros [= <-].
    + rewrite od_get_set_ne by done. apply Ha.
Qed.

Lemma get_stored id e : get id = Ok e -> stored_id id = (fun _ => id) <$> e.
Proof.
  intros He. unfold stored_id. destruct (event_exists c id) eqn:Hx.
  - apply reads_stored in Hx as (e' & He' & _). rewrite He in He'. by injection He' as ->.
  - apply reads_missing in Hx. rewrite He in Hx. by injection Hx as ->.
Qed.

Lemma relation_target_run r s :
  agree s -> exists s', relation_target c get r s = (Ok (aim (relation_point r)), s') /\ quiet s s'.
Proof.
  intros Ha. unfold relation_target, aim, relation_point. destruct (rl_target_event r) as [id|].
  - unfold mbind, conv_bind. destruct (get_event_run id s Ha) as (e & s' & -> & Hg & Hq). exists s'. split; [|done].
    rewrite (get_stored _ _ Hg). by destruct e.
  - destruct (rl_target_native r) as [n|]; [|by exists s].
    destruct (resolve_native_ref (core c) (native_key n)) as [id|]; simpl; [|by exists s].
    unfold mbind, conv_bind. destruct (get_event_run id s Ha) as (e & s' & -> & Hg & Hq). exists s'. split; [|done].
    rewrite (get_stored _ _ Hg). by destruct e.
Qed.

Lemma select_parent_run dependency first rs s :
  agree s -> exists s', select_parent c get dependency first rs s =
    (Ok (pick dependency first (relation_point <$> rs)), s') /\ quiet s s'.
Proof.
  revert dependency first s. induction rs as [|r rs IH]; intros dependency first s Ha; cbn [select_parent]; [by exists s|].
  unfold mbind, conv_bind. destruct (relation_target_run r s Ha) as (s1 & -> & Hq). cbn [fmap list_fmap pick].
  destruct (aim (relation_point r)) as [[id|] [|]]; [by exists s1..| |].
  all: match goal with |- context [select_parent _ _ ?d ?f _ ?s1] => destruct (IH d f s1) as (s2 & -> & Hq2) end;
    [apply Hq|]; eexists; split; [done|by eapply quiet_trans].
Qed.

(** ** Walking up *)

(** A cache that holds memberships of this graph, and cycles whole. *)
Record sound (d : list (string * ConversationMembership)) : Prop := {
  so_wf : od_wf d;
  so_member x m : od_get x d = Some m -> member edges x m;
  so_closed x p : cached d x -> tc (up edges) x x -> up edges x p -> cached d p
}.

Lemma sound_nil : sound [].
Proof. split; [constructor|done|]. by intros x p [? [=]]. Qed.
Lemma sound_cycle d x y : sound d -> cached d x -> tc (up edges) x x -> rtc (up edges) x y -> cached d y.
Proof.
  intros Hs Hx Hc H. revert Hx Hc. induction H as [x|x x' y Hx' _ IH]; intros Hx Hc; [done|].
  apply IH; [by eapply so_closed|]. eapply cycle_on; [exact Hc|by apply rtc_once].
Qed.

Definition with_members (s : conversation) (d : list (string * ConversationMembership)) : conversation :=
  {| cv_rows := cv_rows s; cv_marker := cv_marker s; cv_members := d; cv_events := cv_events s |}.

Lemma cache_member_run x m s :
  member edges x m -> cache_member m s = (Ok tt, with_members s (od_set x m (cv_members s))).
Proof.
  intros Hm. unfold cache_member, mbind, conv_bind, cv_of.
  rewrite (member_valid edges edges_ok _ _ Hm). cbn. by rewrite (member_event _ _ _ Hm).
Qed.

Lemma cached_set (d : list (string * ConversationMembership)) x y m : cached (od_set x m d) y <-> y = x \/ cached d y.
Proof.
  destruct (decide (x = y)) as [->|Hne].
  - rewrite od_get_set_eq. split; [by left|eauto].
  - rewrite od_get_set_ne by done. split; [by right|]. by intros [->|?].
Qed.

(** One more event off every cycle. *)
Lemma sound_set d x m : sound d -> member edges x m -> ~ tc (up edges) x x -> sound (od_set x m d).
Proof.
  intros [Hw Hm Hc] Hx Hn. split; [by apply od_set_wf| |].
  - intros y m'. destruct (decide (x = y)) as [->|Hne]; [rewrite od_get_set_eq; by intros [= <-]|].
    rewrite od_get_set_ne by done. apply Hm.
  - intros y p. rewrite !cached_set. intros [->|Hy] Hcy Hp; [done|]. right. by eapply Hc.
Qed.

(** Each event of the path has the next as its parent, the last one [y]. *)
Fixpoint linked (path : list (string * edge)) (y : string) : Prop :=
  match path with
  | [] => True
  | (x, e) :: rest =>
      edges x = Some e /\ eg_parent e = Some (match rest with [] => y | (z, _) :: _ => z end) /\ linked rest y
  end.

Lemma linked_snoc path x e y :
  linked (path ++ [(x, e)]) y <-> linked path x /\ edges x = Some e /\ eg_parent e = Some y.
Proof.
  induction path as [|[z e'] path IH]; simpl; [tauto|]. rewrite IH. destruct path as [|[z' e''] path]; simpl; tauto.
Qed.
Lemma linked_app path1 path2 y :
  linked (path1 ++ path2) y -> linked path1 (match path2 with [] => y | (z, _) :: _ => z end) /\ linked path2 y.
Proof.
  induction path1 as [|[x e] path1 IH]; simpl; [done|]. intros (He & Hp & H). apply IH in H as [H1 H2].
  split_and!; try done. destruct path1 as [|[z e'] path1]; [|done]. by destruct path2 as [|[z' ?] ?].
Qed.
Lemma linked_tc path y x : linked path y -> x ∈ path.*1 -> tc (up edges) x y.
Proof.
  revert x. induction path as [|[z e] path IH]; intros x; cbn; [by intros _ ?%elem_of_nil|].
  intros (He & Hp & Hl) [->|Hx]%elem_of_cons; [|by apply IH].
  destruct path as [|[z' e'] path]; [apply tc_once; by exists e|].
  eapply tc_l; [by exists e|]. apply IH; [done|set_solver].
Qed.
Lemma linked_edge path y x e : linked path y -> (x, e) ∈ path -> edges x = Some e.
Proof.
  induction path as [|[z e'] path IH]; cbn; [by intros _ ?%elem_of_nil|].
  intros (He & _ & Hl) [[= -> ->]|Hx]%elem_of_cons; [done|by apply IH].
Qed.
Lemma linked_up path y x p : linked path y -> x ∈ path.*1 -> up edges x p -> p ∈ path.*1 \/ p = y.
Proof.
  revert x. induction path as [|[z e] path IH]; intros x; cbn; [by intros _ ?%elem_of_nil|].
  intros (He & Hp & Hl) [->|Hx]%elem_of_cons Hu.
  - destruct Hu as (e' & He' & Hp'). rewrite He in He'. injection He' as <-. rewrite Hp in Hp'. injection Hp' as <-.
    destruct path as [|[z' e'] path]; [by right|left; set_solver].
  - destruct (IH x Hl Hx Hu) as [?|?]; [left; set_solver|by right].
Qed.
Lemma linked_from x e rest y z : linked ((x, e) :: rest) y -> z ∈ ((x, e) :: rest).*1 -> rtc (up edges) x z.
Proof.
  revert x e. induction rest as [|[x' e'] rest IH]; intros x e; cbn.
  - by intros _ ->%list_elem_of_singleton.
  - intros (He & Hp & Hl) [->|Hz]%elem_of_cons; [done|]. eapply rtc_l; [by exists e|]. by eapply IH.
Qed.
Lemma linked_stored path y x : linked path y -> x ∈ path.*1 -> event_exists c x = true.
Proof.
  intros Hl ([x' e] & -> & Hx)%list_elem_of_fmap. pose proof (linked_edge _ _ _ _ Hl Hx) as He.
  unfold edges in He. by case_match.
Qed.

(** ** Cycles *)

Lemma cycle_from_Some current path cyc :
  cycle_from current path = Some cyc -> exists pre e rest, path = pre ++ cyc /\ cyc = (current, e) :: rest.
Proof.
  induction path as [|[x e] path IH]; simpl; [done|]. case_bool_decide as Hx.
  - intros [= <-]. subst x. by exists [], e, path.
  - intros (pre & e' & rest & -> & ->)%IH. by exists ((x, e) :: pre), e', rest.
Qed.
Lemma cycle_from_None current path : cycle_from current path = None -> current ∉ path.*1.
Proof.
  induction path as [|[x e] path IH]; cbn; [set_solver|]. case_bool_decide; [done|]. intros ?%IH. set_solver.
Qed.

Lemma string_ltb_spec a b : if String.ltb a b then String.leb a b = true else String.leb b a = true.
Proof.
  unfold String.ltb, String.leb. rewrite (String.compare_antisym b a). by destruct (String.compare a b).
Qed.

Lemma least_from_spec best ids :
  least_from best ids ∈ best :: ids /\ forall y, y ∈ best :: ids -> String.leb (least_from best ids) y = true.
Proof.
  revert best. induction ids as [|x ids IH]; intros best; simpl.
  - split; [set_solver|]. intros y ->%list_elem_of_singleton. apply leb_refl_le, _.
  - pose proof (string_ltb_spec x best) as Hx. destruct (String.ltb x best).
    all: match goal with |- context [least_from ?b _] => destruct (IH b) as [Hin Hle] end.
    all: split; [set_solver|]; intros y [->|[->|Hy]%elem_of_cons]%elem_of_cons; try (apply Hle; set_solver).
    all: eapply leb_trans_le; [apply Hle, list_elem_of_here|done].
Qed.

(** No walk leaves a path that closes at its head. *)
Lemma cycle_inside e rest current y z :
  let cyc := (current, e) :: rest in
  linked cyc current -> y ∈ cyc.*1 -> rtc (up edges) y z -> z ∈ cyc.*1.
Proof.
  intros cyc Hl Hy H. induction H as [|y y' z Hu _ IH]; [done|]. apply IH.
  destruct (linked_up _ _ _ _ Hl Hy Hu) as [?| ->]; [done|]. apply list_elem_of_here.
Qed.

(** What a path that closes at its head says about its events. *)
Lemma cycle_members e rest current x ex :
  let cyc := (current, e) :: rest in
  linked cyc current -> (x, ex) ∈ cyc ->
  tc (up edges) x x /\ member edges x (cycle_membership (least_from current cyc.*1) (x, ex)).
Proof.
  intros cyc Hl Hx. assert (x ∈ cyc.*1) as Hx1 by (by apply (list_elem_of_fmap_2 fst) in Hx).
  pose proof (fun y z => cycle_inside e rest current y z Hl) as Hin.
  assert (forall y, y ∈ cyc.*1 -> tc (up edges) y current) as Hto by (intros y; by apply linked_tc).
  assert (tc (up edges) current current) as Hcur by (apply Hto, list_elem_of_here).
  assert (forall y, y ∈ cyc.*1 -> rtc (up edges) current y) as Hfrom by (intros y; by apply (linked_from current e rest current)).
  split; [eapply tc_rtc_r; [by apply Hto|by apply Hfrom]|].
  destruct (least_from_spec current cyc.*1) as [Hleast Hle].
  assert (least_from current cyc.*1 ∈ cyc.*1) as Hroot.
  { apply elem_of_cons in Hleast as [->|?]; [apply list_elem_of_here|done]. }
  apply OnCycle.
  - by eapply linked_edge.
  - eapply tc_rtc_r; [by apply Hto|by apply Hfrom].
  - etrans; [by apply tc_rtc, Hto|by apply Hfrom].
  - intros y Hy. apply Hle, list_elem_of_further. by apply (Hin x).
Qed.

Lemma cache_cycle_run root cyc s :
  (forall x e, (x, e) ∈ cyc -> member edges x (cycle_membership root (x, e))) ->
  exists d, cache_cycle root cyc s = (Ok tt, with_members s d) /\
    (od_wf (cv_members s) -> od_wf d) /\ (forall x, cached d x <-> x ∈ cyc.*1 \/ cached (cv_members s) x) /\
    forall x m, od_get x d = Some m -> od_get x (cv_members s) = Some m \/ member edges x m.
Proof.
  revert s. induction cyc as [|[x e] cyc IH]; intros s Hm; cbn [cache_cycle].
  - exists (cv_members s). split; [by destruct s|]. split; [done|]. split; [set_solver|by left].
  - pose proof (Hm x e (list_elem_of_here _ _)) as Hx. unfold mbind at 1, conv_bind at 1.
    rewrite (cache_member_run _ _ _ Hx).
    destruct (IH (with_members s (od_set x (cycle_membership root (x, e)) (cv_members s)))) as (d & -> & Hw & Hd & Hg).
    { intros y e' Hy. apply Hm. by apply list_elem_of_further. }
    exists d. simpl in *. split; [done|]. split; [intros ?; by apply Hw, od_set_wf|]. split.
    + intros y. rewrite Hd, cached_set, elem_of_cons. tauto.
    + intros y m Hy. destruct (Hg y m Hy) as [H|H]; [|by right]. destruct (decide (x = y)) as [->|Hne].
      * rewrite od_get_set_eq in H. injection H as <-. by right.
      * rewrite od_get_set_ne in H by done. by left.
Qed.

(** ** Resolution *)

(** The path ends in cached events, and what comes before is on no cycle. *)
Definition settled (d : list (string * ConversationMembership)) (path : list (string * edge)) : Prop :=
  exists prefix tail y, path = prefix ++ tail /\ linked prefix y /\ cached d y /\
    (forall x, x ∈ tail.*1 -> cached d x) /\ (forall x, x ∈ prefix.*1 -> ~ tc (up edges) x x).

(** The run kept the tables; the cache grew and is sound. *)
Record grew (s s' : conversation) : Prop := {
  gw_rows : cv_rows s' = cv_rows s;
  gw_marker : cv_marker s' = cv_marker s;
  gw_agree : agree s';
  gw_sound : sound (cv_members s');
  gw_cached x : cached (cv_members s) x -> cached (cv_members s') x
}.

Lemma grew_quiet s s1 s' : quiet s s1 -> grew s1 s' -> grew s s'.
Proof. intros [Hr Hm Hd _] [Hr' Hm' Ha Hs Hc]. split; [congruence..|done|done|]. intros x. rewrite <-Hd. apply Hc. Qed.
Lemma grew_trans s1 s2 s3 : grew s1 s2 -> grew s2 s3 -> grew s1 s3.
Proof. intros [] []. split; [congruence..|done|done|]. auto. Qed.

Lemma closed_cycle path current cyc s :
  agree s -> sound (cv_members s) -> linked path current -> NoDup path.*1 ->
  cycle_from current path = Some cyc ->
  exists s', cache_cycle (least_from current cyc.*1) cyc s = (Ok tt, s') /\ grew s s' /\
    settled (cv_members s') path /\ cached (cv_members s') current.
Proof.
  intros Ha Hs Hl Hn (pre & e & rest & -> & ->)%cycle_from_Some. apply linked_app in Hl as [Hpre Hcyc].
  pose proof (fun x ex => cycle_members e rest current x ex Hcyc) as Hm.
  destruct (cache_cycle_run (least_from current ((current, e) :: rest).*1) ((current, e) :: rest) s)
    as (d & -> & Hw & Hd & Hg); [intros x ex Hx; by apply Hm|].
  assert (cached d current) as Hcur by (apply Hd; left; apply list_elem_of_here).
  exists (with_members s d). split; [done|]. split; [|split; [|done]].
  - split; simpl; try done; [|intros x Hx; apply Hd; by right]. split; [apply Hw, Hs| |].
    + intros x m Hx. destruct (Hg x m Hx) as [H|H]; [by eapply so_member|done].
    + intros x p Hx Hc Hu. apply Hd. apply Hd in Hx as [Hx|Hx]; [|right; by eapply so_closed].
      left. destruct (linked_up _ _ _ _ Hcyc Hx Hu) as [?| ->]; [done|apply list_elem_of_here].
  - exists pre, ((current, e) :: rest), current. split_and!; try done.
    + intros x Hx. apply Hd. by left.
    + intros x Hx Hc. rewrite fmap_app in Hn. apply NoDup_app in Hn as (_ & Hn & _). apply (Hn x Hx).
      assert (rtc (up edges) x current) as Hr by (by apply tc_rtc, (linked_tc pre)).
      eapply (cycle_inside e rest current current); [done|apply list_elem_of_here|]. by apply cycle_back.
Qed.

Lemma path_bound path x :
  NoDup path -> (forall y, y ∈ path -> event_exists c y = true) -> x ∉ path -> event_exists c x = true ->
  (length path < walk_fuel c)%nat.
Proof.
  intros Hn He Hx Hex. unfold walk_fuel. change (length path) with (pred (length (x :: path))).
  assert (length (x :: path) <= length (canonical_events (core c)))%nat; [|simpl in *; lia].
  apply submseteq_length, NoDup_submseteq; [by constructor|].
  intros y [->|Hy]%elem_of_cons; [by apply elem_true|by apply elem_true, He].
Qed.

(** Events that lead to a cached one that is off this path are on no cycle. *)
Lemma cached_off d path y :
  sound d -> linked path y -> cached d y -> (forall x, x ∈ path.*1 -> od_get x d = None) ->
  forall x, x ∈ path.*1 -> ~ tc (up edges) x x.
Proof.
  intros Hs Hl Hy Hnone x Hx Hc. pose proof (linked_tc _ _ _ Hl Hx) as Hxy%tc_rtc.
  destruct (sound_cycle d y x Hs Hy) as [m Hm]; [by eapply cycle_on|by apply cycle_back|].
  rewrite (Hnone x Hx) in Hm. done.
Qed.

Lemma walk_eq fuel path current :
  walk c get fuel path current =
    (known ← cv_get (fun s => od_get current (cv_members s));
     match (known : option ConversationMembership) with
     | Some _ => mret path
     | None =>
         match cycle_from current path with
         | Some cycle => cache_cycle (least_from current cycle.*1) cycle ;; mret path
         | None =>
             event ← get_event get current;
             match (event : option CanonicalEvent) with
             | None => cv_fail (ValueError "cannot project missing canonical event")
             | Some e =>
                 edge ← select_parent c get false None (ev_relations e);
                 let path := path ++ [(current, edge)] in
                 match eg_parent edge with
                 | None => cache_member (terminal_membership current edge) ;; mret path
                 | Some parent =>
                     match fuel with
                     | O => cv_fail (RuntimeError "out of fuel")
                     | S fuel' => walk c get fuel' path parent
                     end
                 end
             end
         end
     end).
Proof. by destruct fuel. Qed.

(** Reading an event and its parent. *)
Lemma visit_run current s :
  agree s -> event_exists c current = true ->
  exists e s1 s2 ed, get_event get current s = (Ok (Some e), s1) /\
    select_parent c get false None (ev_relations e) s1 = (Ok ed, s2) /\ edges current = Some ed /\ quiet s s2.
Proof.
  intros Ha Hex. destruct (get_event_run current s Ha) as (o & s1 & Hg & Hget & Hq).
  destruct (reads_stored _ Hex) as (e & He & Hpt). rewrite Hget in He. injection He as ->.
  destruct (select_parent_run false None (ev_relations e) s1) as (s2 & Hp & Hq2); [apply Hq|].
  exists e, s1, s2, (pick false None (relation_point <$> ev_relations e)). split_and!; [done..| |by eapply quiet_trans].
  unfold edges. by rewrite Hex, Hpt.
Qed.

Lemma walk_run fuel path current s :
  agree s -> sound (cv_members s) -> linked path current -> NoDup path.*1 ->
  (forall x, x ∈ path.*1 -> od_get x (cv_members s) = None) ->
  event_exists c current = true -> (length path + fuel = walk_fuel c)%nat ->
  exists path' s', walk c get fuel path current s = (Ok path', s') /\ grew s s' /\
    settled (cv_members s') path' /\ (forall x, x ∈ path.*1 \/ x = current -> x ∈ path'.*1 \/ cached (cv_members s') x).
Proof.
  revert path current s. induction fuel as [fuel IH] using lt_wf_ind; intros path current s Ha Hs Hl Hn Hnone Hex Hf.
  rewrite walk_eq. unfold mbind, conv_bind, cv_get.
  destruct (od_get current (cv_members s)) as [m|] eqn:Hcur.
  { assert (cached (cv_members s) current) as Hc by (by exists m). exists path, s. split; [done|]. split; [by split|].
    split; [|intros x [?| ->]; [by left|by right]]. exists path, [], current. rewrite app_nil_r. split_and!; [done..| |].
    - by intros x ?%elem_of_nil.
    - by eapply cached_off. }
  destruct (cycle_from current path) as [cyc|] eqn:Hcyc.
  { destruct (closed_cycle path current cyc s) as (s' & -> & Hg & Hset & Hc); [done..|].
    exists path, s'. split_and!; [done..|]. intros x [?| ->]; [by left|by right]. }
  apply cycle_from_None in Hcyc.
  destruct (visit_run current s Ha Hex) as (e & s1 & s2 & ed & -> & -> & Hed & Hq).
  pose proof Hq as [_ _ Hd Ha2].
  destruct (eg_parent ed) as [parent|] eqn:Hp.
  - assert (linked (path ++ [(current, ed)]) parent) as Hl' by (by apply linked_snoc).
    assert (length path < walk_fuel c)%nat as Hb.
    { rewrite <-(length_fmap fst path). eapply path_bound; [done| |exact Hcyc|done]. intros y Hy. by apply (linked_stored path current). }
    destruct fuel as [|fuel]; [lia|].
    destruct (IH fuel (le_n _) (path ++ [(current, ed)]) parent s2) as (path' & s' & -> & Hg & Hset & Hcov); try done.
    + by rewrite Hd.
    + rewrite fmap_app. by apply NoDup_snoc.
    + intros x. rewrite fmap_app, elem_of_app, Hd. intros [?| ->%list_elem_of_singleton]; [by apply Hnone|done].
    + apply (up_stored current). by exists ed.
    + rewrite length_app. simpl. lia.
    + exists path', s'. split; [done|]. split; [by eapply grew_quiet|]. split; [done|].
      intros x Hx. apply Hcov. left. rewrite fmap_app. set_solver.
  - pose proof (Terminal edges current ed Hed Hp) as Hm. rewrite (cache_member_run _ _ s2 Hm).
    assert (~ tc (up edges) current current) as Hoff by (by apply (terminal_off edges current current ed)).
    exists (path ++ [(current, ed)]). eexists. split; [done|]. split; [|split].
    + eapply grew_quiet; [done|]. split; simpl; [done..| |].
      * apply sound_set; [by rewrite Hd|done..].
      * intros x. rewrite cached_set. by right.
    + exists path, [(current, ed)], current. simpl. split_and!; [done|done| | |].
      * apply cached_set. by left.
      * intros x ->%list_elem_of_singleton. apply cached_set. by left.
      * intros x Hx. eapply terminal_off; [exact Hed|exact Hp|]. by apply tc_rtc, (linked_tc path).
    + intros x Hx. left. rewrite fmap_app. set_solver.
Qed.

Lemma unwind_cached l rest s :
  (forall x, x ∈ l.*1 -> cached (cv_members s) x) -> unwind (l ++ rest) s = unwind rest s.
Proof.
  induction l as [|[x e] l IH]; intros H; [done|]. cbn [unwind app]. unfold mbind at 1, conv_bind at 1, cv_get at 1.
  destruct (H x (list_elem_of_here _ _)) as [m ->]. apply IH. intros y Hy. apply H. by apply list_elem_of_further.
Qed.

Lemma unwind_run prefix y s :
  agree s -> sound (cv_members s) -> linked prefix y -> cached (cv_members s) y ->
  (forall x, x ∈ prefix.*1 -> ~ tc (up edges) x x) ->
  exists s', unwind (rev prefix) s = (Ok tt, s') /\ grew s s' /\ forall x, x ∈ prefix.*1 -> cached (cv_members s') x.
Proof.
  revert y s. induction prefix as [|[x e] prefix IH] using rev_ind; intros y s Ha Hs Hl Hy Hoff.
  { exists s. split; [done|]. split; [by split|]. by intros x ?%elem_of_nil. }
  apply linked_snoc in Hl as (Hl & He & Hp). rewrite rev_unit. cbn [unwind].
  unfold mbind, conv_bind, cv_get.
  assert (forall x, x ∈ prefix.*1 -> ~ tc (up edges) x x) as Hoff'
    by (intros z Hz; apply Hoff; rewrite fmap_app, elem_of_app; by left).
  assert (~ tc (up edges) x x) as Hx by (apply Hoff; rewrite fmap_app, elem_of_app; right; apply list_elem_of_here).
  assert (forall s1, grew s s1 -> cached (cv_members s1) x -> exists s', unwind (rev prefix) s1 = (Ok tt, s') /\ grew s s' /\
            forall z, z ∈ (prefix ++ [(x, e)]).*1 -> cached (cv_members s') z) as Hrest.
  { intros s1 Hg Hc. destruct (IH x s1) as (s' & Hu & Hg' & Hcov); [apply Hg|apply Hg|done..|].
    exists s'. split; [done|]. split; [by eapply grew_trans|]. intros z. rewrite fmap_app, elem_of_app.
    intros [Hz| ->%list_elem_of_singleton]; [by apply Hcov|by apply Hg']. }
  destruct (od_get x (cv_members s)) as [m|] eqn:Hc; [apply Hrest; [by split|by exists m]|].
  rewrite Hp. destruct Hy as [m Hm]. rewrite Hm.
  pose proof (Child edges x e y m He Hp Hx (so_member _ Hs _ _ Hm)) as Hch.
  rewrite (cache_member_run _ _ s Hch). apply Hrest.
  - split; simpl; [done..|by apply sound_set|]. intros z. rewrite cached_set. by right.
  - apply cached_set. by left.
Qed.

(** Resolution finds the membership, whatever is cached already. *)
Lemma resolve_run id s :
  agree s -> sound (cv_members s) -> event_exists c id = true ->
  exists m s', resolve_membership c get id s = (Ok m, s') /\ member edges id m /\ grew s s' /\
    od_get id (cv_members s') = Some m.
Proof.
  intros Ha Hs Hex. unfold resolve_membership, mbind, conv_bind, cv_get.
  destruct (od_get id (cv_members s)) as [m|] eqn:Hid.
  { exists m, s. split_and!; [done| |by split|done]. by eapply so_member. }
  destruct (walk_run (walk_fuel c) [] id s) as (path & s1 & -> & Hg & (prefix & tail & y & -> & Hl & Hy & Ht & Hoff) & Hcov);
    try done; [by constructor|by intros x ?%elem_of_nil|].
  rewrite rev_app_distr, unwind_cached; [|by intros x ([x1 e1] & -> & Hx%list_elem_of_In%in_rev%list_elem_of_In%(list_elem_of_fmap_2 fst))%list_elem_of_fmap; apply Ht].
  destruct (unwind_run prefix y s1) as (s2 & -> & Hg2 & Hcov2); [apply Hg|apply Hg|done..|].
  assert (cached (cv_members s2) id) as [m Hm].
  { destruct (Hcov id (or_intror eq_refl)) as [Hin|Hin]; [|by apply Hg2]. rewrite fmap_app, elem_of_app in Hin.
    destruct Hin as [?|?]; [by apply Hcov2|by apply Hg2, Ht]. }
  rewrite Hm. exists m, s2. split_and!; [done| |by eapply grew_trans|done].
  eapply so_member; [apply Hg2|done].
Qed.
End store.
