(* ===== verification/ConversationSafety.v ===== *)
(** * The conversation projection follows the evidence

    Repairing after new evidence about one event leaves the whole projection
    as the evidence now says, whatever arrived late. *)

From S2P Require Import Prelude.
From S2P Require Import Json.
From S2P Require Import Delivery.
From S2P Require Import Events.
From S2P Require Import Store.
From S2P Require Import ContentStore.
From S2P Require Import IngressProofs.
From S2P Require Import ContentSteps.
From S2P Require Import Conversation.
From S2P Require Import ConversationGraph.

Open Scope string_scope.
Open Scope list_scope.
Open Scope Z_scope.

Section repair.
Context (c : cdb) (get : string -> result exc (option CanonicalEvent)) `{!Reads c get}.

Abbreviation member_of := (member (edges c)).

(** ** Writing memberships *)

Lemma member_checks x m : member_of x m -> membership_check m = true /\ membership_references c m = true.
Proof.
  intros Hm. pose proof (member_valid _ (edges_ok c) _ _ Hm) as Hv. pose proof (member_depth _ _ _ Hm) as Hd.
  pose proof (member_root _ _ _ Hm) as [Hr Hup]. split.
  - unfold membership_check. rewrite (proj2 (Z.leb_le _ _) Hd), (bool_decide_eq_true_2 _ Hr).
    unfold ConversationMembership_init in Hv. by destruct (elem (mb_state m) _).
  - unfold membership_references. rewrite (member_event _ _ _ Hm).
    assert (event_exists c x = true) as Hx.
    { destruct (member_stored _ _ _ Hm) as [e He]. unfold edges in He. by case_match. }
    rewrite Hx, (rtc_stored _ _ _ Hup Hx). simpl.
    assert (forall e p, edges c x = Some e -> eg_parent e = Some p -> event_exists c p = true) as Hp.
    { intros e p He Hp. apply (up_stored c x p). by exists e. }
    destruct Hm as [x e He _|x e root He _ _ _|x e p m He Hpe _ _]; simpl; [done| |by eapply Hp].
    destruct (eg_parent e) eqn:Hpe; [by eapply Hp|done].
Qed.

(** Only rows of the projection changed. *)
Record wrote (s s' : conversation) : Prop := {
  wr_marker : cv_marker s' = cv_marker s;
  wr_members : cv_members s' = cv_members s;
  wr_events : cv_events s' = cv_events s
}.

Lemma put_run x m s :
  member_of x m -> exists b s', put_conversation_membership c m s = (Ok b, s') /\ wrote s s' /\
    od_get x (cv_rows s') = Some m /\ forall y, y <> x -> od_get y (cv_rows s') = od_get y (cv_rows s).
Proof.
  intros Hm. destruct (member_checks _ _ Hm) as [Hc Hr]. unfold put_conversation_membership, mbind, conv_bind, cv_get.
  rewrite (member_event _ _ _ Hm), Hc, Hr. case_bool_decide as Hx; simpl.
  - exists false, s. split_and!; done.
  - do 2 eexists. split; [done|]. split; [done|]. simpl. split; [apply od_get_set_eq|].
    intros y Hy. by apply od_get_set_ne.
Qed.

Lemma put_all_run l s :
  (forall x m, (x, m) ∈ l -> member_of x m) ->
  exists ids s', put_all c l s = (Ok ids, s') /\ wrote s s' /\ ids ⊆ l.*1 /\
    (forall x m, (x, m) ∈ l -> od_get x (cv_rows s') = Some m) /\
    forall y, y ∉ l.*1 -> od_get y (cv_rows s') = od_get y (cv_rows s).
Proof.
  revert s. induction l as [|[x m] l IH]; intros s Hl; cbn [put_all].
  { exists [], s. split_and!; try done. by intros x m ?%elem_of_nil. }
  pose proof (Hl x m (list_elem_of_here _ _)) as Hm. unfold mbind, conv_bind.
  destruct (put_run x m s Hm) as (b & s1 & -> & [M1 D1 E1] & Hx & Hne).
  destruct (IH s1) as (ids & s2 & -> & [M2 D2 E2] & Hids & Hin & Hout); [intros y m' ?; apply Hl; by apply list_elem_of_further|].
  do 2 eexists. split; [done|]. split; [split; congruence|]. split_and!.
  - destruct b; cbn; set_solver.
  - intros y m' [[= -> ->]|Hy]%elem_of_cons; [|by apply Hin]. destruct (decide (x ∈ l.*1)) as [Hxl|Hxl].
    + apply list_elem_of_fmap in Hxl as ([x' m'] & -> & Hxl). simpl in *. rewrite (Hin _ _ Hxl). f_equal.
      eapply (member_fun (edges c)); [|exact Hm]. apply Hl. by apply list_elem_of_further.
    + by rewrite Hout.
  - cbn. intros y Hy. rewrite Hout by set_solver. apply Hne. set_solver.
Qed.

(** ** Reconciling one event *)

(** What was resolved in this run is in the table. *)
Record running (s : conversation) : Prop := {
  ru_agree : agree get s;
  ru_sound : sound c (cv_members s);
  ru_written x m : od_get x (cv_members s) = Some m -> od_get x (cv_rows s) = Some m
}.

(** Rows are kept or become right. *)
Definition righted (s s' : conversation) : Prop :=
  cv_marker s' = cv_marker s /\ (forall x, cached (cv_members s) x -> cached (cv_members s') x) /\
  (forall x, cached (cv_rows s) x -> cached (cv_rows s') x) /\
  forall x m, od_get x (cv_rows s') = Some m -> od_get x (cv_rows s) = Some m \/ member_of x m.

Lemma righted_refl s : righted s s.
Proof. split_and!; [done..|by left]. Qed.
Lemma righted_trans s1 s2 s3 : righted s1 s2 -> righted s2 s3 -> righted s1 s3.
Proof.
  intros (M1 & C1 & K1 & R1) (M2 & C2 & K2 & R2). split; [congruence|]. split; [auto|]. split; [auto|].
  intros x m [H|H]%R2; [by apply R1|by right].
Qed.

(** Resolving an event and writing what that found out. *)
Lemma resolve_put_run id s :
  running s -> event_exists c id = true ->
  exists m s1 new ids s2, resolve_membership c get id s = (Ok m, s1) /\
    new_members (od_keys (cv_members s)) s1 = (Ok new, s1) /\ put_all c new s1 = (Ok ids, s2) /\
    member_of id m /\ running s2 /\ righted s s2 /\ cached (cv_members s2) id /\
    (forall x m, (x, m) ∈ new -> od_get x (cv_members s2) = Some m).
Proof.
  intros [Ha Hs Hw] Hex.
  destruct (resolve_run c get id s Ha Hs Hex) as (m & s1 & Hres & Hm & [R1 M1 A1 S1 C1] & Hid).
  set (new := sorted_by (on_key fst String.leb) (filter (fun kv => kv.1 ∉ od_keys (cv_members s)) (cv_members s1))).
  assert (forall x m, (x, m) ∈ new <-> od_get x (cv_members s1) = Some m /\ ~ cached (cv_members s) x) as Hnew.
  { intros x m'. unfold new. rewrite elem_of_sorted_by, list_elem_of_filter. simpl.
    rewrite <-od_get_None, eq_None_not_Some.
    split; [intros [? ?%od_In_get]; [done|apply S1]|intros [?%od_get_In ?]; done]. }
  destruct (put_all_run new s1) as (ids & s2 & Hput & [M2 D2 E2] & Hids & Hin & Hout).
  { intros x m' [Hx _]%Hnew. by eapply (so_member c). }
  assert (forall x m', od_get x (cv_members s1) = Some m' -> od_get x (cv_rows s2) = Some m') as Hw2.
  { intros x m' Hx. destruct (od_get x (cv_members s)) as [m0|] eqn:Hx0.
    - assert (m0 = m') as <- by (eapply (member_fun (edges c) x); eapply (so_member c); [exact Hs|done|exact S1|done]).
      rewrite Hout; [rewrite R1; by apply Hw|]. intros ([x' m1] & -> & [_ Hn]%Hnew)%list_elem_of_fmap. apply Hn. by exists m0.
    - apply Hin, Hnew. split; [done|]. rewrite Hx0. by intros [? [=]]. }
  exists m, s1, new, ids, s2. split; [done|]. split; [done|]. split; [done|]. split; [done|]. split; [|split; [|split]].
  - split; [unfold agree; by rewrite E2|by rewrite D2|by rewrite D2].
  - split; [congruence|]. rewrite D2. split; [done|]. split.
    { intros x [m' Hx]. destruct (decide (x ∈ new.*1)) as [([x' m2] & -> & Hxn)%list_elem_of_fmap|Hxn]; simpl in *.
      - exists m2. by apply Hin.
      - exists m'. by rewrite Hout, R1. }
    intros x m' Hx. destruct (decide (x ∈ new.*1)) as [([x' m2] & -> & Hxn)%list_elem_of_fmap|Hxn]; simpl in *.
    + right. rewrite (Hin _ _ Hxn) in Hx. injection Hx as <-. apply Hnew in Hxn as [Hxn _]. by eapply (so_member c).
    + left. by rewrite Hout, R1 in Hx.
  - rewrite D2. by exists m.
  - intros x m'. rewrite D2. by intros [? _]%Hnew.
Qed.

Lemma reconcile_member_run id s :
  running s -> event_exists c id = true ->
  exists m ids s', reconcile_event_unlocked c get id s = (Ok (m, ids), s') /\ member_of id m /\
    running s' /\ righted s s' /\ cached (cv_members s') id.
Proof.
  intros Hr Hex. destruct (resolve_put_run id s Hr Hex) as (m & s1 & new & ids & s2 & Hres & Hnew & Hput & Hm & Hr2 & Hg & Hc & _).
  unfold reconcile_event_unlocked, mbind, conv_bind, cv_get. rewrite Hres, Hnew, Hput. by exists m, ids, s2.
Qed.

(** ** The traversal *)

Lemma add_sources_spec processed sources : forall pending queued,
  exists new, add_sources processed pending queued sources = (pending ++ new, rev new ++ queued) /\
    NoDup new /\ (forall x, x ∈ new -> x ∈ sources /\ x ∉ processed /\ x ∉ queued) /\
    forall x, x ∈ sources -> x ∈ processed \/ x ∈ rev new ++ queued.
Proof.
  induction sources as [|y sources IH]; intros pending queued; cbn [add_sources].
  { exists []. rewrite app_nil_r. split_and!; [done|constructor|by intros x ?%elem_of_nil|by intros x ?%elem_of_nil]. }
  destruct (elem y processed || elem y queued) eqn:Hy.
  - destruct (IH pending queued) as (new & -> & Hn & Hin & Hcov). exists new. split_and!; [done|done| |].
    + intros x Hx. destruct (Hin x Hx). set_solver.
    + intros x [->|Hx]%elem_of_cons; [|by apply Hcov]. breflect. destruct Hy; [by left|right; set_solver].
  - breflect. destruct Hy as [Hy1 Hy2].
    destruct (IH (pending ++ [y]) (y :: queued)) as (new & -> & Hn & Hin & Hcov). exists (y :: new).
    simpl. rewrite <-!app_assoc. simpl. split_and!; [done| | |].
    + constructor; [|done]. intros Hy. destruct (Hin y Hy) as (_ & _ & []). set_solver.
    + intros x [->|Hx]%elem_of_cons; [set_solver|]. destruct (Hin x Hx) as (? & ? & ?). set_solver.
    + intros x [->|Hx]%elem_of_cons; [right; set_solver|]. by apply Hcov.
Qed.

Lemma elem_of_distinct x l : x ∈ distinct l <-> x ∈ l.
Proof. unfold distinct. by rewrite elem_of_reverse, elem_of_remove_dups, elem_of_reverse. Qed.

Hypothesis rows_stored : forall w, w ∈ relation_rows c -> event_exists c (rw_event_id w) = true.

Lemma sources_stored x y : y ∈ dependent_sources c x -> event_exists c y = true.
Proof.
  assert (forall P `{!forall w, Decision (P w)}, y ∈ reverse (remove_dups (reverse (rw_event_id <$> filter P (relation_rows c)))) ->
    event_exists c y = true) as H.
  { intros P ?. rewrite elem_of_reverse, elem_of_remove_dups, elem_of_reverse.
    intros (w & -> & [_ Hw]%list_elem_of_filter)%list_elem_of_fmap. by apply rows_stored. }
  unfold dependent_sources. rewrite elem_of_distinct, elem_of_app. intros [Hy|Hy]; [by eapply H|].
  unfold native_dependent_sources in Hy. rewrite elem_of_distinct in Hy.
  apply list_elem_of_bind in Hy as (n & Hy & _). by eapply H.
Qed.

(** The queue of the traversal and what was taken from it. *)
Record queue_ok (pending queued processed : list string) (s : conversation) : Prop := {
  qo_distinct : NoDup (processed ++ pending);
  qo_queued x : x ∈ queued <-> x ∈ processed \/ x ∈ pending;
  qo_stored x : x ∈ processed \/ x ∈ pending -> event_exists c x = true;
  qo_done x : x ∈ processed -> cached (cv_members s) x;
  qo_sources x y : x ∈ processed -> y ∈ dependent_sources c x -> y ∈ queued
}.

Lemma anchors_current ids x : x ∈ anchors_of ids x.
Proof. unfold anchors_of. rewrite elem_of_sorted_by, elem_of_remove_dups. apply list_elem_of_here. Qed.

Lemma queue_step current rest queued processed ids s s' :
  queue_ok (current :: rest) queued processed s -> (forall x, cached (cv_members s) x -> cached (cv_members s') x) ->
  cached (cv_members s') current ->
  exists pending' queued',
    add_sources (current :: processed) rest queued (anchors_of ids current ≫= dependent_sources c) = (pending', queued') /\
    rest ⊆ pending' /\ queue_ok pending' queued' (current :: processed) s'.
Proof.
  intros [Hn Hq Hst Hd Hs] Hc Hcur.
  destruct (add_sources_spec (current :: processed) (anchors_of ids current ≫= dependent_sources c) rest queued)
    as (new & -> & Hnn & Hin & Hcov).
  do 2 eexists. split; [done|]. split; [set_solver|]. split.
  - rewrite <-Permutation_middle in Hn. rewrite (app_assoc (current :: processed)). apply NoDup_app.
    split_and!; [done| |done]. intros x Hx Hnew. destruct (Hin x Hnew) as (_ & _ & []). apply Hq. set_solver.
  - intros x. rewrite elem_of_app, list_elem_of_In, <-in_rev, <-list_elem_of_In, Hq. set_solver.
  - intros x [Hx|[Hx|Hx]%elem_of_app]; [apply Hst; set_solver|apply Hst; set_solver|].
    destruct (Hin x Hx) as (Hx' & _). apply list_elem_of_bind in Hx' as (a & Hx' & _). by eapply sources_stored.
  - intros x [->|Hx]%elem_of_cons; [done|auto].
  - intros x y [->|Hx]%elem_of_cons Hy; [|apply elem_of_app; right; by eapply Hs].
    destruct (Hcov y) as [Hp|?]; [|set_solver|done].
    apply list_elem_of_bind. exists current. split; [done|apply anchors_current].
Qed.

(** The traversal ends with a set of reconciled events that has everything
    that depends on it. *)
Lemma repair_loop_run fuel requested : forall pending queued processed changed found s,
  running s -> queue_ok pending queued processed s -> (length processed + fuel = repair_fuel c)%nat ->
  (forall r, requested = Some r -> r ∈ processed -> exists m, found = Some m /\ member_of r m) ->
  exists ids found' finished s',
    repair_loop c get fuel requested pending queued processed changed found s = (Ok (ids, found'), s') /\
    running s' /\ righted s s' /\ processed ++ pending ⊆ finished /\ queue_ok [] finished finished s' /\
    (forall r, requested = Some r -> r ∈ finished -> exists m, found' = Some m /\ member_of r m).
Proof.
  induction fuel as [|fuel IH]; intros pending queued processed changed found s Hr Hq Hf Hfound.
  all: destruct pending as [|current rest].
  1, 3: exists changed, found, processed, s; split_and!; [done|done|apply righted_refl|set_solver| |done];
    destruct Hq as [Hn Hqu Hst Hd Hs]; split; [done|set_solver|done|done|];
    intros x y Hx Hy; apply (Hs x y Hx) in Hy; apply Hqu in Hy; set_solver.
  - exfalso. assert (length processed < walk_fuel c)%nat; [|unfold walk_fuel, repair_fuel in *; lia].
    destruct Hq as [Hn _ Hst _ _]. rewrite <-Permutation_middle in Hn. inversion Hn as [|? ? Hcur Hn']; subst.
    apply NoDup_app in Hn' as (Hn' & _). eapply (path_bound c processed current); [done|auto|set_solver|].
    apply Hst. right. apply list_elem_of_here.
  - cbn [repair_loop]. unfold mbind at 1, conv_bind at 1.
    destruct (reconcile_member_run current s Hr) as (m & ids & s1 & -> & Hm & Hr1 & Hg1 & Hc1).
    { apply Hq. right. apply list_elem_of_here. }
    destruct (queue_step current rest queued processed ids s s1) as (pending' & queued' & -> & Hrest & Hq1);
      [done|apply Hg1|done|].
    destruct (IH pending' queued' (current :: processed) (ids ++ changed)
      (if bool_decide (Some current = requested) then Some m else found) s1)
      as (ids' & found' & finished & s' & -> & Hr' & Hg' & Hp & Hqf & Hfound'); [done|done|simpl; lia| |].
    { intros r -> Hr2. case_bool_decide as E; [injection E as ->; by exists m|].
      apply Hfound; [done|]. set_solver. }
    exists ids', found', finished, s'. split_and!; try done; [by eapply righted_trans|].
    set_solver.
Qed.

Lemma dependents_run initial requested s :
  NoDup initial -> (forall x, x ∈ initial -> event_exists c x = true) ->
  exists ids found finished s',
    repair_dependents_unlocked c get initial requested s = (Ok (ids, found), s') /\
    cv_marker s' = cv_marker s /\ initial ⊆ finished /\
    (forall x y, x ∈ finished -> y ∈ dependent_sources c x -> y ∈ finished) /\
    (forall x, x ∈ finished -> exists m, od_get x (cv_rows s') = Some m /\ member_of x m) /\
    (forall x, cached (cv_rows s) x -> cached (cv_rows s') x) /\
    (forall x m, od_get x (cv_rows s') = Some m -> od_get x (cv_rows s) = Some m \/ member_of x m) /\
    (forall r, requested = Some r -> r ∈ initial -> exists m, found = Some m /\ member_of r m).
Proof.
  intros Hn Hst. unfold repair_dependents_unlocked, mbind, conv_bind, set_caches.
  destruct (repair_loop_run (repair_fuel c) requested initial initial [] [] None
    {| cv_rows := cv_rows s; cv_marker := cv_marker s; cv_members := []; cv_events := [] |})
    as (ids & found & finished & s' & -> & [_ Hso Hw] & (Hm & _ & Hk & Hr) & Hin & [_ _ _ Hd Hs] & Hf).
  - split; [done|apply sound_nil|done].
  - split; [done|set_solver| |by intros x ?%elem_of_nil|by intros x y ?%elem_of_nil].
    intros x [?%elem_of_nil|?]; [done|by apply Hst].
  - done.
  - by intros r _ ?%elem_of_nil.
  - do 4 eexists. split; [done|]. split; [done|]. simpl in *. split_and!; [set_solver|done| |done|done|].
    + intros x Hx. destruct (Hd x Hx) as [m Hxm]. exists m. split; [by apply Hw|by eapply (so_member c)].
    + intros r Hreq Hri. apply Hf; [done|set_solver].
Qed.
End repair.

(** ** New evidence *)

Lemma find_app {A} (f : A -> bool) l l' :
  List.find f (l ++ l') = match List.find f l with Some x => Some x | None => List.find f l' end.
Proof. induction l as [|x l IH]; simpl; [done|]. by destruct (f x). Qed.

Section sources.
Context (c : cdb).

Lemma native_source w n p :
  w ∈ relation_rows c -> join_native (rw_native w) = Some n ->
  resolve_native_ref (core c) (native_key n) = Some p -> rw_event_id w ∈ native_dependent_sources c p.
Proof.
  intros Hw Hn Hr. unfold native_dependent_sources. rewrite elem_of_distinct. apply list_elem_of_bind.
  unfold resolve_native_ref in Hr. apply fmap_Some in Hr as (r & Hr & ->). apply find_Some_elem in Hr as [Hr Hk].
  apply bool_decide_eq_true in Hk. exists r. split.
  - unfold list_relation_sources_for_native_ref. rewrite elem_of_reverse, elem_of_remove_dups, elem_of_reverse.
    apply list_elem_of_fmap_2, list_elem_of_filter. split; [|done]. rewrite Hk. unfold native_key.
    unfold join_native in Hn. destruct (rw_native w) as [[a|] ch [m|] th]; simpl in *; try done.
    case_match; [|done]. by injection Hn as <-.
  - unfold list_native_refs_for_event. by rewrite elem_of_sorted_by, list_elem_of_filter.
Qed.

(** A child depends on its parent. *)
Lemma up_source x p : up (edges c) x p -> x ∈ dependent_sources c p.
Proof.
  intros (e & He & Hp). unfold edges in He. case_match; [|done]. injection He as <-.
  apply pick_parent in Hp as (t & (w & -> & [<- Hw]%list_elem_of_filter)%list_elem_of_fmap & Ha).
  unfold dependent_sources. rewrite elem_of_distinct, elem_of_app. unfold aim, row_point in Ha.
  destruct (rw_target_event w) as [id|] eqn:Ht.
  - left. apply stored_id_Some in Ha as [<- _]. unfold list_relation_sources.
    rewrite elem_of_reverse, elem_of_remove_dups, elem_of_reverse. by apply list_elem_of_fmap_2, list_elem_of_filter.
  - right. destruct (join_native (rw_native w)) as [n|] eqn:Hn; [|done].
    apply bind_Some in Ha as (id & Hr & [<- _]%stored_id_Some). by eapply native_source.
Qed.
End sources.

(** [c'] has what [c] has and evidence about one event more: the event itself,
    its relations, native references to it. *)
Record grown (c c' : cdb) (id : string) : Prop := {
  gn_events x : event_exists c' x = true <-> event_exists c x = true \/ x = id;
  gn_relations x : event_exists c x = true -> relations_of c' x = relations_of c x;
  gn_natives : exists ns, native_refs (core c') = native_refs (core c) ++ ns /\ Forall (fun n => nr_event_id n = id) ns
}.

Section growth.
Context (c c' : cdb) (id : string) (Hgrown : grown c c' id).

Lemma resolve_grown key :
  resolve_native_ref (core c') key = resolve_native_ref (core c) key \/ resolve_native_ref (core c') key = Some id.
Proof.
  destruct Hgrown as [_ _ (ns & Hns & Hid)]. unfold resolve_native_ref. rewrite Hns, find_app.
  destruct (List.find _ (native_refs (core c))) eqn:E; [by left|].
  destruct (List.find _ ns) as [n|] eqn:E'; [|by left]. right. apply find_Some_elem in E' as [Hn _]. simpl. f_equal.
  rewrite Forall_forall in Hid. by apply Hid.
Qed.

Lemma stored_grown x : x <> id \/ event_exists c id = true -> stored_id c' x = stored_id c x.
Proof.
  intros Hx. unfold stored_id. pose proof (gn_events _ _ _ Hgrown x) as He.
  destruct (event_exists c x) eqn:E, (event_exists c' x) eqn:E'; try done.
  - discriminate (proj2 He (or_introl eq_refl)).
  - destruct (proj1 He eq_refl) as [?| ->]; [done|]. destruct Hx; congruence.
Qed.

(** The edges of an event change only if it points to [id]. *)
Lemma edges_grown x :
  event_exists c x = true ->
  event_exists c id = true \/ x ∉ list_relation_sources c' id -> x ∉ native_dependent_sources c' id ->
  edges c' x = edges c x.
Proof.
  intros Hx Hr Hn. unfold edges. rewrite Hx, (proj2 (gn_events _ _ _ Hgrown x) (or_introl Hx)). f_equal.
  rewrite (gn_relations _ _ _ Hgrown x Hx).
  assert (forall w, w ∈ relations_of c x -> aim c' (row_point w) = aim c (row_point w)) as Ha.
  { intros w Hw. rewrite <-(gn_relations _ _ _ Hgrown x Hx) in Hw. apply list_elem_of_filter in Hw as [<- Hw].
    unfold aim, row_point. destruct (rw_target_event w) as [t|] eqn:Ht.
    - rewrite stored_grown; [done|]. destruct Hr as [?|Hr]; [by right|]. left. intros ->. apply Hr.
      unfold list_relation_sources. rewrite elem_of_reverse, elem_of_remove_dups, elem_of_reverse.
      by apply list_elem_of_fmap_2, list_elem_of_filter.
    - destruct (join_native (rw_native w)) as [n|] eqn:Hj; [|done]. f_equal.
      destruct (resolve_grown (native_key n)) as [->|Hres]; [|by destruct Hn; eapply native_source].
      destruct (resolve_native_ref (core c) (native_key n)) as [t|] eqn:Ht'; [|done]. simpl. apply stored_grown.
      destruct (decide (t = id)) as [->|]; [|by left]. destruct Hn. eapply native_source; [done|done|].
      destruct (resolve_grown (native_key n)); congruence. }
  generalize false, (@None string). revert Ha. induction (relations_of c x) as [|w ws IH]; intros Ha dep first; [done|].
  cbn [fmap list_fmap pick]. rewrite Ha by apply list_elem_of_here.
  assert (forall w, w ∈ ws -> aim c' (row_point w) = aim c (row_point w)) as Ha' by (intros ??; apply Ha; set_solver).
  destruct (aim c (row_point w)) as [[p|] [|]]; [done|done|by apply IH|by apply IH].
Qed.
End growth.

(** The projection says of every stored event what the evidence says. *)
Definition projected (c : cdb) (rows : list (string * ConversationMembership)) : Prop :=
  forall x, event_exists c x = true -> exists m, od_get x rows = Some m /\ member (edges c) x m.

(** Rows that are kept or right make a projection of [c'], if the traversal
    reached what changed and everything that depends on it. *)
Lemma traversal_projects c c' id rows rows' (finished : list string) :
  grown c c' id -> projected c rows ->
  (forall x y, x ∈ finished -> y ∈ dependent_sources c' x -> y ∈ finished) ->
  (forall x, x ∈ finished -> exists m, od_get x rows' = Some m /\ member (edges c') x m) ->
  (forall x, cached rows x -> cached rows' x) ->
  (forall x m, od_get x rows' = Some m -> od_get x rows = Some m \/ member (edges c') x m) ->
  (forall x, event_exists c' x = true -> x ∉ finished -> event_exists c x = true /\ edges c' x = edges c x) ->
  projected c' rows'.
Proof.
  intros Hg Hp Hcl Hfin Hkeep Hrow Hsame x Hx. destruct (decide (x ∈ finished)) as [Hf|Hf]; [by apply Hfin|].
  assert (forall y, rtc (up (edges c')) x y -> event_exists c' y = true /\ y ∉ finished) as Hout.
  { intros y H. clear Hrow Hkeep. induction H as [x|x z y Hu H IH]; [done|]. apply IH.
    - by apply up_stored in Hu as [_ ?].
    - intros Hz. apply Hf. eapply Hcl; [exact Hz|]. by apply up_source. }
  destruct (Hsame x Hx Hf) as [Hx0 _]. destruct (Hp x Hx0) as (m & Hm & Hmem).
  assert (member (edges c') x m) as Hmem'.
  { eapply member_agree; [|exact Hmem]. apply agree_sym. intros y Hy. destruct (Hout y Hy) as [Hy1 Hy2]. by apply Hsame. }
  destruct (Hkeep x) as [m' Hm']; [by exists m|]. exists m'. split; [done|].
  destruct (Hrow x m' Hm') as [H|H]; [|done]. rewrite Hm in H. by injection H as <-.
Qed.

(** C22: After an event arrives, repairing it repairs the whole projection,
    however late the event is and whatever already pointed to it.  If the
    projection was right before the event, its relations and its native
    references were stored, then the repair succeeds, every stored event has
    the membership the evidence now gives it (the root of its chain of first
    stored targets, or the least event of the cycle the chain runs into, with
    its depth and state), and the membership returned is the event's. *)
Theorem event_repair_complete sha256 c c' id get s :
  content_ok sha256 c' -> Reads c' get -> grown c c' id -> projected c (cv_rows s) ->
  exists m ids s', repair_after_event_available c' get id s = (Ok (m, ids), s') /\
    member (edges c') id m /\ projected c' (cv_rows s') /\ cv_marker s' = cv_marker s.
Proof.
  intros Hok Hget Hg Hp.
  assert (forall w, w ∈ relation_rows c' -> event_exists c' (rw_event_id w) = true) as Hrel.
  { intros w Hw. apply elem_true. pose proof (ok_relations _ _ Hok) as H. rewrite Forall_forall in H. by apply H. }
  assert (event_exists c' id = true) as Hid by (apply (gn_events _ _ _ Hg); by right).
  unfold repair_after_event_available, mbind, conv_bind.
  destruct (dependents_run c' get Hrel [id] (Some id) s)
    as (ids & found & finished & s' & -> & Hm & Hin & Hcl & Hfin & Hkeep & Hrow & Hreq).
  { apply NoDup_singleton. } { by intros x ->%list_elem_of_singleton. }
  destruct (Hreq id eq_refl (list_elem_of_here _ _)) as (m & -> & Hmem). exists m, ids, s'. split_and!; try done.
  eapply traversal_projects; try done. intros x Hx Hf.
  assert (id ∈ finished) as Hidf by (apply Hin, list_elem_of_here).
  assert (x ∉ dependent_sources c' id) as Hd by (intros ?; by eapply Hf, Hcl).
  unfold dependent_sources in Hd. rewrite elem_of_distinct, elem_of_app in Hd.
  apply (gn_events _ _ _ Hg) in Hx as [Hx| ->]; [|done]. split; [done|]. eapply edges_grown; [done|done|right|]; tauto.
Qed.

(** After a native reference of a stored event is recorded, repairing the
    events that point to it natively, and theirs, repairs the whole
    projection; the event itself is not touched unless it is among them. *)
Theorem native_repair_complete sha256 c c' id get s :
  content_ok sha256 c' -> Reads c' get -> grown c c' id -> event_exists c id = true -> projected c (cv_rows s) ->
  exists ids s', repair_after_native_ref_available c' get id s = (Ok ids, s') /\
    projected c' (cv_rows s') /\ cv_marker s' = cv_marker s.
Proof.
  intros Hok Hget Hg Hid Hp.
  assert (forall w, w ∈ relation_rows c' -> event_exists c' (rw_event_id w) = true) as Hrel.
  { intros w Hw. apply elem_true. pose proof (ok_relations _ _ Hok) as H. rewrite Forall_forall in H. by apply H. }
  unfold repair_after_native_ref_available, mbind, conv_bind.
  destruct (dependents_run c' get Hrel (native_dependent_sources c' id) None s)
    as (ids & found & finished & s' & -> & Hm & Hin & Hcl & Hfin & Hkeep & Hrow & _).
  { unfold native_dependent_sources, distinct. rewrite reverse_Permutation. apply NoDup_remove_dups. }
  { intros x Hx. apply (sources_stored c' Hrel id). unfold dependent_sources.
    rewrite elem_of_distinct, elem_of_app. by right. }
  exists ids, s'. split_and!; try done. eapply traversal_projects; try done. intros x Hx Hf.
  assert (event_exists c x = true) as Hx0 by (apply (gn_events _ _ _ Hg) in Hx as [?| ->]; done).
  split; [done|]. eapply edges_grown; [done|done|by left|]. intros Hn. by apply Hf, Hin.
Qed.

(** ** The store is such evidence *)

Lemma decode_points rows rels :
  decode_all (fun r => row_to_relation (bare_relation r) None) rows = Ok rels ->
  relation_point <$> rels = row_point <$> rows.
Proof.
  revert rels. induction rows as [|w rows IH]; intros rels; cbn; [by intros [= <-]|].
  intros (r & Hr & (rs & Hrs & [= <-])%bind_Ok)%bind_Ok. cbn. f_equal; [|by apply IH].
  unfold row_to_relation, EventRelation_init in Hr. case_match; [done|]. by injection Hr as <-.
Qed.

(** The store's own read is one, if every event can be decoded. *)
Lemma envelope_reads sha256 c :
  content_ok sha256 c -> forallb (fun id => isOk (get_envelope c id)) (canonical_events (core c)) = true ->
  Reads c (get_envelope c).
Proof.
  intros Hok Hdec. rewrite forallb_forall in Hdec. assert (forall id, event_exists c id = true <-> find_event c id <> None) as Hf.
  { intros id. unfold event_exists, find_event. rewrite elem_true, <-(ok_events _ _ Hok), list_elem_of_fmap. split.
    - intros (w & -> & Hw) Hn. rewrite find_None_elem in Hn. apply Hn in Hw. by rewrite bool_decide_eq_true_2 in Hw.
    - destruct (List.find _ _) as [w|] eqn:E; [|done]. intros _. apply find_Some_elem in E as [Hw He%bool_decide_eq_true].
      by exists w. }
  split; intros id He.
  - assert (isOk (get_envelope c id) = true) as Hd by (apply Hdec, list_elem_of_In; by apply elem_true in He).
    apply Hf in He. unfold get_envelope in *. destruct (find_event c id) as [w|]; [|done].
    destruct (decode_all _ _) as [rels|] eqn:Hrels; [|done]. cbn in Hd |- *.
    destruct (row_to_event w [] _ rels) as [e|] eqn:Hrow; [|done]. exists e. split; [done|].
    unfold row_to_event in Hrow. apply bind_Ok in Hrow as (md & _ & Hinit). unfold CanonicalEvent_init in Hinit.
    apply bind_Ok in Hinit as (k & _ & [= <-]). simpl. by apply decode_points.
  - destruct (find_event c id) eqn:E; [|unfold get_envelope; by rewrite E].
    rewrite (proj2 (Hf id)) in He; [done|]. by rewrite E.
Qed.

Lemma new_relations_other id key now rs x :
  x <> id -> filter (fun w => rw_event_id w = x) (new_relations id key now rs) = [].
Proof.
  intros Hne. revert key. induction rs as [|r rs IH]; intros key; cbn [new_relations]; [done|].
  rewrite filter_cons_False by (simpl; congruence). apply IH.
Qed.

Lemma append_run e now c c' :
  append_event e now c = (Ok tt, c') -> c' = admitted e "append" now None c /\ event_exists c (ev_event_id e) = false.
Proof.
  unfold append_event, catomically, wrap_event_error.
  destruct (event_admission_ops e "append" now None c) as [[u c1]|x] eqn:H; [|by destruct x].
  intros [= _ <-]. by apply event_admission_Ok in H.
Qed.

Lemma append_ok sha256 e now c c' : append_event e now c = (Ok tt, c') -> content_ok sha256 c -> content_ok sha256 c'.
Proof. intros [-> Hnew]%append_run. apply content_ok_admitted; [set_solver|done]. Qed.

(** So is what an append adds. *)
Lemma append_grown e now c c' : append_event e now c = (Ok tt, c') -> grown c c' (ev_event_id e).
Proof.
  intros [-> Hnew]%append_run. split.
  - intros x. unfold event_exists. rewrite !elem_true. unfold admitted, admitted_core. cbn. set_solver.
  - intros x Hx. assert (x <> ev_event_id e) as Hne by congruence. unfold relations_of.
    change (relation_rows (admitted e "append" now None c)) with
      (relation_rows c ++ new_relations (ev_event_id e) (Z.of_nat (length (relation_rows c)) + 1) now (ev_relations e)).
    by rewrite filter_app, new_relations_other, app_nil_r.
  - exists []. cbn. by rewrite app_nil_r.
Qed.

Lemma native_run n d d' :
  store_native_ref n d = (Ok tt, d') -> nr_event_id n ∈ canonical_events d ->
  core_change d d' /\ exists ns, native_refs d' = native_refs d ++ ns /\ Forall (fun m => nr_event_id m = nr_event_id n) ns.
Proof.
  unfold store_native_ref. intros H Hn.
  assert (d' = d \/ d' = set_native_refs d (native_refs d ++ [n])) as [->| ->]
    by (repeat case_match; simplify_eq; auto).
  - split; [reflexivity|]. exists []. by rewrite app_nil_r.
  - split; [by apply core_change_add_native, elem_true|]. exists [n]. split; [done|]. by constructor.
Qed.

(** And what a native reference adds. *)
Lemma native_grown n c d' :
  store_native_ref n (core c) = (Ok tt, d') -> event_exists c (nr_event_id n) = true ->
  grown c (set_core c d') (nr_event_id n).
Proof.
  intros H Hn. destruct (native_run _ _ _ H) as [[He _ _ _ _] Hns]; [by apply elem_true|].
  split; [|done|done]. intros x. unfold event_exists. simpl. rewrite He. split; [by left|]. by intros [?| ->].
Qed.

(** ** Examples *)

Module ConversationExamples.
Definition to_event (t : string) : EventRelation :=
  {| rl_type := "reply"; rl_target_event := Some t; rl_target_native := None; rl_key := None;
     rl_fallback_text := None; rl_metadata := [] |}.
Definition to_native (m : string) : EventRelation :=
  {| rl_type := "reply"; rl_target_event := None;
     rl_target_native := Some {| nf_adapter := "matrix"; nf_channel := Some "room"; nf_message := m; nf_thread := None |};
     rl_key := None; rl_fallback_text := None; rl_metadata := [] |}.

Definition event (id : string) (relations : list EventRelation) : CanonicalEvent :=
  {| ev_columns := {| ev_event_id := id; ev_event_kind := "message.text"; ev_schema_version := 1; ev_timestamp := 0;
                      ev_source_adapter := "matrix"; ev_source_transport_id := "m1"; ev_source_channel_id := None;
                      ev_parent_event_id := None; ev_lineage := []; ev_depth := 0; ev_trace_id := None;
                      ev_root_event_id := None; ev_conversation_id := None |};
     ev_relations := relations; ev_payload := [];
     ev_metadata := {| em_transport := None; em_routing := None; em_radio := None; em_telemetry := None;
                       em_native := None; em_custom := [] |};
     ev_source_native_ref := None |}.

Definition append (c : cdb) (e : CanonicalEvent) : cdb := (append_event e 0 c).2.
Definition empty : conversation := {| cv_rows := []; cv_marker := None; cv_members := []; cv_events := [] |}.

(** A reply to a reply to an event that arrives last. *)
Definition only_b : cdb := append empty_cdb (event "b" [to_event "a"]).
Definition before : cdb := append only_b (event "c" [to_event "b"]).
Definition after : cdb := append before (event "a" []).

Lemma append_b : append_event (event "b" [to_event "a"]) 0 empty_cdb = (Ok tt, only_b).
Proof. vm_compute. reflexivity. Qed.
Lemma append_c : append_event (event "c" [to_event "b"]) 0 only_b = (Ok tt, before).
Proof. vm_compute. reflexivity. Qed.
Lemma append_a : append_event (event "a" []) 0 before = (Ok tt, after).
Proof. vm_compute. reflexivity. Qed.

Definition repair (c : cdb) (id : string) (s : conversation) : conversation :=
  (repair_after_event_available c (get_envelope c) id s).2.
Definition state_of (s : conversation) (id : string) : option (string * Z * string) :=
  (fun m => (mb_root m, mb_depth m, mb_state m)) <$> od_get id (cv_rows s).

Definition first_repairs : conversation := repair before "c" (repair only_b "b" empty).
Definition last_repair : conversation := repair after "a" first_repairs.

(** A reply in native terms, and the reference that resolves it. *)
Definition only_a : cdb := append empty_cdb (event "a" []).
Definition unresolved : cdb := append only_a (event "b" [to_native "x"]).
Definition ref : NativeMessageRef :=
  {| nr_id := "n1"; nr_event_id := "a"; nr_adapter := "matrix"; nr_native_channel_id := Some "room";
     nr_native_message_id := "x"; nr_native_thread_id := None; nr_native_relation_id := None;
     nr_direction := "outbound"; nr_metadata := []; nr_created_at := 0 |}.
Definition resolved : cdb := set_core unresolved (store_native_ref ref (core unresolved)).2.
Definition digest (s : string) : string := s.

Definition two_roots : conversation :=
  {| cv_rows := [("a", terminal_membership "a" {| eg_parent := None; eg_type := None; eg_dependency := false |});
                 ("b", terminal_membership "b" {| eg_parent := None; eg_type := Some "reply"; eg_dependency := true |})];
     cv_marker := None; cv_members := []; cv_events := [] |}.

Lemma append_root : append_event (event "a" []) 0 empty_cdb = (Ok tt, only_a).
Proof. vm_compute. reflexivity. Qed.
Lemma append_unresolved : append_event (event "b" [to_native "x"]) 0 only_a = (Ok tt, unresolved).
Proof. vm_compute. reflexivity. Qed.
Lemma two_roots_projected : projected unresolved (cv_rows two_roots).
Proof.
  intros x Hx%elem_true. change (canonical_events (core unresolved)) with ["a"; "b"] in Hx.
  apply elem_of_cons in Hx as [->|[->|[]%elem_of_nil]%elem_of_cons]; eexists; (split; [reflexivity|]);
    by apply Terminal.
Qed.
End ConversationExamples.

(** A late parent gives its earlier descendants their root. *)
Example late_parent :
  ConversationExamples.state_of ConversationExamples.first_repairs "c" = Some ("b", 1, "unresolved") /\
  ConversationExamples.state_of ConversationExamples.last_repair "c" = Some ("a", 2, "resolved").
Proof. vm_compute. done. Qed.

Lemma event_repair_complete_witness :
  exists m, od_get "c" (cv_rows ConversationExamples.last_repair) = Some m /\ mb_root m = "a" /\
    member (edges ConversationExamples.after) "c" m.
Proof.
  pose proof (empty_content_ok (strict := true) ConversationExamples.digest) as Ok0.
  pose proof (append_ok _ _ _ _ _ ConversationExamples.append_b Ok0) as Okb.
  pose proof (append_ok _ _ _ _ _ ConversationExamples.append_c Okb) as Okc.
  pose proof (append_ok _ _ _ _ _ ConversationExamples.append_a Okc) as Oka.
  assert (Reads ConversationExamples.only_b (get_envelope ConversationExamples.only_b)) as Rb
    by (apply (envelope_reads _ _ Okb); vm_compute; reflexivity).
  assert (Reads ConversationExamples.before (get_envelope ConversationExamples.before)) as Rc
    by (apply (envelope_reads _ _ Okc); vm_compute; reflexivity).
  assert (Reads ConversationExamples.after (get_envelope ConversationExamples.after)) as Ra
    by (apply (envelope_reads _ _ Oka); vm_compute; reflexivity).
  assert (projected empty_cdb (cv_rows ConversationExamples.empty)) as P0 by (intros x Hx; discriminate Hx).
  destruct (event_repair_complete _ _ _ "b" _ _ Okb Rb (append_grown _ _ _ _ ConversationExamples.append_b) P0)
    as (m1 & i1 & s1 & E1 & _ & P1 & _).
  destruct (event_repair_complete _ _ _ "c" _ _ Okc Rc (append_grown _ _ _ _ ConversationExamples.append_c) P1)
    as (m2 & i2 & s2 & E2 & _ & P2 & _).
  destruct (event_repair_complete _ _ _ "a" _ _ Oka Ra (append_grown _ _ _ _ ConversationExamples.append_a) P2)
    as (m3 & i3 & s3 & E3 & _ & P3 & _).
  assert (s3 = ConversationExamples.last_repair) as ->.
  { unfold ConversationExamples.last_repair, ConversationExamples.first_repairs, ConversationExamples.repair.
    rewrite E1. cbn [snd]. rewrite E2. cbn [snd]. rewrite E3. reflexivity. }
  destruct (P3 "c" eq_refl) as (m & Hm & Hmem). exists m. split; [exact Hm|]. split; [|exact Hmem].
  vm_compute in Hm. injection Hm as <-. reflexivity.
Defined.

Lemma native_repair_complete_witness :
  exists ids s, repair_after_native_ref_available ConversationExamples.resolved
      (get_envelope ConversationExamples.resolved) "a" ConversationExamples.two_roots = (Ok ids, s) /\
    ConversationExamples.state_of s "b" = Some ("a", 1, "resolved") /\
    projected ConversationExamples.resolved (cv_rows s).
Proof.
  pose proof (empty_content_ok (strict := true) ConversationExamples.digest) as Ok0.
  pose proof (append_ok _ _ _ _ _ ConversationExamples.append_root Ok0) as Oka.
  pose proof (append_ok _ _ _ _ _ ConversationExamples.append_unresolved Oka) as Okb.
  assert (store_native_ref ConversationExamples.ref (core ConversationExamples.unresolved) =
    (Ok tt, core ConversationExamples.resolved)) as Hn by (vm_compute; reflexivity).
  assert (event_exists ConversationExamples.unresolved "a" = true) as Hex by (vm_compute; reflexivity).
  assert (content_ok ConversationExamples.digest ConversationExamples.resolved) as Ok.
  { apply (content_ok_core _ ConversationExamples.unresolved); [|exact Okb].
    apply (native_run _ _ _ Hn). apply elem_true. exact Hex. }
  assert (Reads ConversationExamples.resolved (get_envelope ConversationExamples.resolved)) as R
    by (apply (envelope_reads _ _ Ok); vm_compute; reflexivity).
  destruct (native_repair_complete _ ConversationExamples.unresolved _ "a" _ ConversationExamples.two_roots Ok R
    (native_grown ConversationExamples.ref _ _ Hn Hex) Hex ConversationExamples.two_roots_projected)
    as (ids & s & Hrun & Hp & _).
  exists ids, s. split; [exact Hrun|]. split; [|exact Hp]. vm_compute in Hrun. injection Hrun as _ <-. reflexivity.
Defined.
