(* ===== verification/ConversationRebuild.v ===== *)
(** * Rebuilding the conversation projection

    A rebuild that starts from scratch projects every stored event when the
    evidence has no cycles.  With cycles it need not: the cache it prunes can
    lose part of a cycle, and the rest is then taken for a chain
    ([rebuild_breaks_cycle]). *)

From S2P Require Import Prelude.
From S2P Require Import Delivery.
From S2P Require Import Events.
From S2P Require Import Store.
From S2P Require Import ContentStore.
From S2P Require Import IngressProofs.
From S2P Require Import ContentSteps.
From S2P Require Import Conversation.
From S2P Require Import ConversationGraph.
From S2P Require Import ConversationSafety.

Open Scope string_scope.
Open Scope list_scope.
Open Scope Z_scope.

(** ** Pages *)

Abbreviation string_sorted := (StronglySorted (fun a b : string => String.leb a b = true)).

Lemma string_ltb_true a b : String.ltb a b = true <-> String.leb b a = false.
Proof.
  unfold String.ltb, String.leb. rewrite (String.compare_antisym b a). by destruct (String.compare a b).
Qed.

Lemma filter_sorted (P : string -> Prop) `{!forall x, Decision (P x)} l : string_sorted l -> string_sorted (filter P l).
Proof.
  induction 1 as [|x l Hs IH Hx]; [constructor|]. rewrite filter_cons. case_decide; [|done]. constructor; [done|].
  rewrite Forall_forall in *. intros y [_ Hy]%list_elem_of_filter. by apply Hx.
Qed.

Lemma sorted_ids_filter (P : string -> Prop) `{!forall x, Decision (P x)} l :
  sorted_by String.leb (filter P l) = filter P (sorted_by String.leb l).
Proof.
  apply (sorted_perm_unique String.leb).
  - intros a b _ _. apply (leb_antisym_eq (leb := String.leb)).
  - by apply sorted_by_sorted; apply _.
  - by apply filter_sorted, sorted_by_sorted; apply _.
  - etrans; [apply sorted_by_perm|]. apply filter_Permutation. symmetry. apply sorted_by_perm.
Qed.

Lemma sorted_split front a back :
  string_sorted (front ++ a :: back) -> NoDup (front ++ a :: back) ->
  (forall x, x ∈ front ++ [a] -> String.leb x a = true) /\ (forall x, x ∈ back -> String.leb x a = false).
Proof.
  intros Hs Hn. apply StronglySorted_app in Hs as (Hc & _ & Hb). inversion Hb as [|? ? _ Hf]; subst.
  rewrite Forall_forall in Hf. split.
  - intros x [Hx| ->%list_elem_of_singleton]%elem_of_app; [|apply leb_refl_le, _].
    apply Hc; [done|apply list_elem_of_here].
  - intros x Hx. apply not_true_iff_false. intros Hle.
    assert (x = a) as -> by (apply (leb_antisym_eq (leb := String.leb)); auto).
    apply NoDup_app in Hn as (_ & _ & Hn). by apply NoDup_cons in Hn as [? _].
Qed.

(** What comes after an event in the order of pages. *)
Lemma sorted_after ids front a back :
  NoDup ids -> sorted_by String.leb ids = front ++ a :: back ->
  sorted_by String.leb (filter (fun id => String.ltb a id = true) ids) = back.
Proof.
  intros Hn Hs. rewrite sorted_ids_filter, Hs.
  destruct (sorted_split front a back) as [Hle Hgt].
  { rewrite <-Hs. by apply sorted_by_sorted; apply _. } { by rewrite <-Hs, sorted_by_perm. }
  change (a :: back) with ([a] ++ back). rewrite app_assoc, filter_app.
  rewrite (proj2 (filter_nil_iff _ (front ++ [a]))).
  - apply filter_id_on. intros x Hx. by apply string_ltb_true, Hgt.
  - intros x Hx. rewrite string_ltb_true, (Hle x Hx). done.
Qed.

(** ** Events and pages of a rebuild *)

Section rebuild.
Context (c : cdb) (get : string -> result exc (option CanonicalEvent)) `{!Reads c get}.
Hypothesis acyclic : forall x, ~ tc (up (edges c)) x x.

(** What is carried from event to event: right memberships, all written. *)
Record carried (cached : list (string * ConversationMembership)) (s : conversation) : Prop := {
  ca_wf : od_wf cached;
  ca_member x m : (x, m) ∈ cached -> member (edges c) x m;
  ca_written x m : (x, m) ∈ cached -> od_get x (cv_rows s) = Some m
}.

(** Rows are kept or become right, and these are right now. *)
Record advanced (ids : list string) (s s' : conversation) : Prop := {
  av_right x : x ∈ ids -> exists m, od_get x (cv_rows s') = Some m /\ member (edges c) x m;
  av_kept x m : od_get x (cv_rows s) = Some m -> member (edges c) x m -> od_get x (cv_rows s') = Some m
}.

Lemma righted_kept s s' x m :
  righted c s s' -> od_get x (cv_rows s) = Some m -> member (edges c) x m -> od_get x (cv_rows s') = Some m.
Proof.
  intros (_ & _ & Hk & Hr) Hx Hm. destruct (Hk x) as [m' Hm']; [by exists m|].
  destruct (Hr x m' Hm') as [H|H]; [congruence|]. by rewrite (member_fun _ _ _ _ Hm H).
Qed.

Lemma carried_sound cached s : carried cached s -> sound c cached.
Proof.
  intros [Hw Hm _]. split; [done| |by intros x p _ H%acyclic]. intros x m H%od_get_In. by apply Hm.
Qed.

Lemma foldl_od_set (new cached : list (string * ConversationMembership)) :
  (od_wf cached -> od_wf (foldl (fun d kv => od_set kv.1 kv.2 d) cached new)) /\
  forall kv, kv ∈ foldl (fun d kv => od_set kv.1 kv.2 d) cached new -> kv ∈ cached \/ kv ∈ new.
Proof.
  revert cached. induction new as [|[x m] new IH]; intros cached; simpl; [by split; [|left]|].
  destruct (IH (od_set x m cached)) as [Hw Hin]. split; [intros ?; by apply Hw, od_set_wf|].
  intros [y m'] [H|H]%Hin; [|right; set_solver]. apply od_set_In in H as [[-> ->]|H]; [right|left]; set_solver.
Qed.

Lemma prune_spec (d : list (string * ConversationMembership)) :
  (od_wf d -> od_wf (prune d)) /\ forall kv, kv ∈ prune d -> kv ∈ d.
Proof.
  unfold prune. split.
  - unfold od_wf, od_keys. rewrite fmap_drop. intros H. eapply sublist_NoDup; [exact H|apply sublist_drop].
  - intros kv. apply subseteq_drop.
Qed.

Lemma rebuild_event_run cached id s :
  carried cached s -> event_exists c id = true ->
  exists cached' n s', rebuild_event c get cached id s = (Ok (cached', n), s') /\ carried cached' s' /\
    advanced [id] s s' /\ cv_marker s' = cv_marker s.
Proof.
  intros Hc Hex. pose proof (carried_sound _ _ Hc) as Hso. pose proof Hc as [Hw Hm Hwr].
  set (s0 := {| cv_rows := cv_rows s; cv_marker := cv_marker s; cv_members := cached; cv_events := [] |}).
  assert (running c get s0) as Hr0.
  { split; [by intros ??|done|]. intros x m H%od_get_In. by apply Hwr. }
  destruct (resolve_put_run c get id s0 Hr0 Hex)
    as (m & s1 & new & ids & s2 & Hres & Hnew & Hput & Hmid & [_ Hso2 Hwr2] & Hg & [m' Hid] & Hin).
  unfold rebuild_event, mbind, conv_bind, set_caches. fold s0. rewrite Hres.
  change (od_keys (cv_members s0)) with (od_keys cached) in Hnew. rewrite Hnew, Hput.
  do 3 eexists. split; [done|]. split; [|split; [|apply Hg]].
  - destruct (foldl_od_set new cached) as [Hfw Hfin].
    destruct (prune_spec (foldl (fun d kv => od_set kv.1 kv.2 d) cached new)) as [Hpw Hpin].
    split; [by apply Hpw, Hfw| |].
    + intros x mx [H|H]%Hpin%Hfin; [by apply Hm|]. eapply so_member; [exact Hso2|by apply Hin].
    + intros x mx [H|H]%Hpin%Hfin; [|by apply Hwr2, Hin].
      eapply (righted_kept s0 s2); [done|by apply Hwr|by apply Hm].
  - split.
    + intros x ->%list_elem_of_singleton. exists m'. split; [by apply Hwr2|by eapply so_member].
    + intros x mx Hx Hmx. by eapply (righted_kept s0 s2).
Qed.

Lemma advanced_app ids ids' s1 s2 s3 : advanced ids s1 s2 -> advanced ids' s2 s3 -> advanced (ids ++ ids') s1 s3.
Proof.
  intros [R1 K1] [R2 K2]. split; [|by auto]. intros x [Hx|Hx]%elem_of_app; [|by apply R2].
  destruct (R1 x Hx) as (m & ? & ?). exists m. auto.
Qed.

Lemma rebuild_page_run ids : forall cached changed s,
  carried cached s -> (forall x, x ∈ ids -> event_exists c x = true) ->
  exists cached' n s', rebuild_page c get cached changed ids s = (Ok (cached', n), s') /\ carried cached' s' /\
    advanced ids s s' /\ cv_marker s' = cv_marker s.
Proof.
  induction ids as [|id ids IH]; intros cached changed s Hc Hex; cbn [rebuild_page].
  { exists cached, changed, s. split_and!; [done..| |done]. split; [by intros x ?%elem_of_nil|done]. }
  unfold mbind, conv_bind. destruct (rebuild_event_run cached id s Hc) as (c1 & n & s1 & -> & Hc1 & Ha1 & Hm1).
  { apply Hex, list_elem_of_here. }
  destruct (IH c1 (changed + n) s1 Hc1) as (c2 & n2 & s2 & -> & Hc2 & Ha2 & Hm2).
  { intros x Hx. by apply Hex, list_elem_of_further. }
  exists c2, n2, s2. split_and!; [done|done| |congruence]. by apply (advanced_app [id] ids s s1 s2).
Qed.

Hypothesis events_distinct : NoDup (canonical_events (core c)).
Abbreviation all_ids := (sorted_by String.leb (canonical_events (core c))).

Lemma page_run past todo cursor :
  all_ids = past ++ todo -> last past = cursor ->
  list_event_ids_page c cursor REBUILD_PAGE_SIZE = Ok (take (Z.to_nat REBUILD_PAGE_SIZE) todo).
Proof.
  intros Hall Hl. unfold list_event_ids_page. change (REBUILD_PAGE_SIZE <? 1) with false. cbv iota. do 2 f_equal.
  destruct cursor as [a|].
  - apply last_Some in Hl as [front ->]. rewrite <-app_assoc in Hall. by eapply sorted_after.
  - apply last_None in Hl as ->. rewrite filter_id_on; [done|]. done.
Qed.

Lemma put_state_run status last s :
  status ∈ CONVERSATION_PROJECTION_STATUSES -> status = "rebuilding" \/ last = None ->
  exists s', put_state status last s = (Ok tt, s') /\ cv_rows s' = cv_rows s /\
    cv_marker s' = Some {| ps_revision := CONVERSATION_PROJECTION_REVISION; ps_status := status; ps_last_event_id := last |}.
Proof.
  intros Hst Hl. unfold put_state, mbind, conv_bind, cv_of, ConversationProjectionState_init.
  cbn [ps_revision ps_status ps_last_event_id].
  change (CONVERSATION_PROJECTION_REVISION <? 1) with false. rewrite (proj2 (elem_true _ _) Hst). cbn [negb].
  destruct Hl as [->| ->]; [rewrite bool_decide_eq_true_2 by done|rewrite (bool_decide_eq_false_2 (None <> None)), andb_false_r by naive_solver].
  all: eexists; split; [done|]; done.
Qed.

Lemma ids_stored x past todo : all_ids = past ++ todo -> x ∈ todo -> event_exists c x = true.
Proof.
  intros Hall Hx. apply elem_true, (elem_of_sorted_by String.leb). rewrite Hall. set_solver.
Qed.

Lemma rebuild_pages_run fuel : forall past todo cached scanned changed s,
  all_ids = past ++ todo -> (length todo <= fuel)%nat -> carried cached s ->
  exists n s', rebuild_pages c get fuel (last past) cached scanned changed s =
    (Ok (scanned + Z.of_nat (length todo), n), s') /\ advanced todo s s'.
Proof.
  induction fuel as [|fuel IH]; intros past todo cached scanned changed s Hall Hf Hc.
  all: destruct (decide (todo = [])) as [->|Hne].
  1, 3: exists changed, s; cbn [rebuild_pages]; unfold mbind, conv_bind, cv_of;
    rewrite (page_run past [] _ Hall eq_refl), take_nil; cbn; rewrite Z.add_0_r; split; [done|];
    split; [by intros x ?%elem_of_nil|done].
  { destruct todo; [done|simpl in Hf; lia]. }
  cbn [rebuild_pages]. unfold mbind, conv_bind, cv_of. rewrite (page_run past todo _ Hall eq_refl).
  set (k := Z.to_nat REBUILD_PAGE_SIZE). assert (k = S (pred k)) as Hk by done.
  pose proof (take_drop k todo) as Hsplit.
  assert (take k todo <> []) as Hpage by (rewrite Hk; by destruct todo).
  destruct (last (take k todo)) as [final|] eqn:Hl; [|by apply last_None in Hl].
  destruct (rebuild_page_run (take k todo) cached changed s Hc) as (c1 & n1 & s1 & -> & Hc1 & Ha1 & _).
  { intros x Hx. eapply (ids_stored x past todo); [done|]. rewrite <-Hsplit. set_solver. }
  destruct (put_state_run "rebuilding" (Some final) s1) as (s2 & -> & Hr2 & _); [set_solver|by left|].
  destruct (IH (past ++ take k todo) (drop k todo) c1 (scanned + Z.of_nat (length (take k todo))) n1 s2) as (n & s' & Hrun & Ha2).
  - by rewrite <-app_assoc, Hsplit.
  - rewrite length_drop. rewrite Hk. simpl. lia.
  - destruct Hc1 as [? ? Hw]. split; [done..|]. by rewrite Hr2.
  - rewrite last_app, Hl in Hrun. rewrite Hrun. exists n, s'. split.
    + do 3 f_equal. pose proof (f_equal length Hsplit) as Hlen. rewrite length_app in Hlen. lia.
    + rewrite <-Hsplit. apply (advanced_app _ _ s s1 s'); [done|]. destruct Ha2 as [R K]. rewrite Hr2 in K. by split.
Qed.

(** C23: A rebuild that starts from scratch projects every event when the
    evidence has no cycles: it succeeds, scans every stored event exactly
    once, whatever the number of pages and whatever the bounded cache forgets,
    and afterwards each event has the membership the evidence gives it.  The
    projection is left dirty until the runtime marks it clean. *)
Theorem rebuild_projects s :
  (forall p, cv_marker s = Some p -> ps_status p = "dirty") ->
  exists n s', rebuild_all c get s =
    (Ok {| rs_scanned := Z.of_nat (length (canonical_events (core c))); rs_changed := n; rs_skipped := false |}, s') /\
    projected c (cv_rows s') /\
    cv_marker s' = Some {| ps_revision := CONVERSATION_PROJECTION_REVISION; ps_status := "dirty"; ps_last_event_id := None |}.
Proof.
  intros Hm. unfold rebuild_all, mbind, conv_bind, cv_get.
  assert (forall st, st <> "dirty" -> match cv_marker s with
    | Some p => (ps_revision p =? CONVERSATION_PROJECTION_REVISION) && bool_decide (ps_status p = st)
    | None => false end = false) as Hst.
  { intros st Hne. destruct (cv_marker s) as [p|]; [|done]. rewrite (Hm p eq_refl), bool_decide_eq_false_2 by done.
    apply andb_false_r. }
  rewrite !Hst by done. destruct (put_state_run "rebuilding" None s) as (s1 & -> & Hr1 & _); [set_solver|by left|].
  destruct (rebuild_pages_run (walk_fuel c) [] all_ids [] 0 0 s1) as (n & s2 & Hrun & [Ha _]); [done| | |].
  { unfold walk_fuel. by rewrite (Permutation_length (sorted_by_perm _ _)). }
  { split; [constructor|by intros x m ?%elem_of_nil..]. }
  cbn [last] in Hrun. rewrite Hrun. destruct (put_state_run "dirty" None s2) as (s3 & -> & Hr3 & Hm3); [set_solver|by right|].
  exists n, s3. split_and!; [|rewrite Hr3|done].
  - do 2 f_equal. rewrite Z.add_0_l. by rewrite (Permutation_length (sorted_by_perm _ _)).
  - intros x Hx. apply Ha. rewrite elem_of_sorted_by. by apply elem_true.
Qed.
End rebuild.

(** ** Examples *)

(** Parents that are older by name leave no room for a cycle. *)
Lemma ranked_acyclic c :
  (forall x p, up (edges c) x p -> String.ltb p x = true) -> forall x, ~ tc (up (edges c)) x x.
Proof.
  intros Hup. assert (forall x y, tc (up (edges c)) x y -> String.ltb y x = true) as H.
  { induction 1 as [x y H|x y z H _ IH]; [by apply Hup|]. apply Hup in H. apply string_ltb_true.
    apply string_ltb_true in IH, H. apply not_true_iff_false. intros Hxz.
    destruct (leb_total_or (leb := String.leb) y z) as [Hyz|Hzy]; [congruence|].
    rewrite (leb_trans_le (leb := String.leb) x z y Hxz Hzy) in H. done. }
  intros x Hx%H%string_ltb_true. by rewrite (leb_refl_le String.leb) in Hx.
Qed.

Module RebuildExamples.
(** Two events that answer each other, and one between. *)
Definition cyclic : cdb :=
  foldl ConversationExamples.append empty_cdb
    [ConversationExamples.event "l" []; ConversationExamples.event "m" [ConversationExamples.to_event "z"];
     ConversationExamples.event "z" [ConversationExamples.to_event "m"]].

Definition on_cycle (id other : string) : string * ConversationMembership :=
  (id, {| mb_event_id := id; mb_root := "m"; mb_conversation := "m"; mb_target := Some other;
          mb_relation_type := Some "reply"; mb_depth := 0; mb_state := "cycle" |}).
Definition unrelated (n : nat) : string * ConversationMembership :=
  let id := "b" +:+ pretty n in
  (id, {| mb_event_id := id; mb_root := id; mb_conversation := id; mb_target := None; mb_relation_type := None;
          mb_depth := 0; mb_state := "root" |}).

(** The cache of a rebuild that met the cycle and then 254 other events. *)
Definition full_cache : list (string * ConversationMembership) :=
  on_cycle "m" "z" :: on_cycle "z" "m" :: (unrelated <$> seq 0 254).

Definition page (cached : list (string * ConversationMembership)) (ids : list string) : conversation :=
  (rebuild_page cyclic (get_envelope cyclic) cached 0 ids ConversationExamples.empty).2.
End RebuildExamples.

(** Met with an empty cache both events are on the cycle.  Once one more event
    pushed the first of them out of a full cache, the rebuild takes them for
    a chain and overwrites what it had written. *)
Example rebuild_breaks_cycle :
  ConversationExamples.state_of (RebuildExamples.page [] ["m"; "z"]) "m" = Some ("m", 0, "cycle") /\
  ConversationExamples.state_of (RebuildExamples.page [] ["m"; "z"]) "z" = Some ("m", 0, "cycle") /\
  ConversationExamples.state_of (RebuildExamples.page RebuildExamples.full_cache ["l"; "m"; "z"]) "m"
    = Some ("m", 1, "resolved") /\
  ConversationExamples.state_of (RebuildExamples.page RebuildExamples.full_cache ["l"; "m"; "z"]) "z"
    = Some ("m", 2, "resolved").
Proof. vm_compute. done. Qed.

Lemma rebuild_projects_witness :
  exists n s, rebuild_all ConversationExamples.after (get_envelope ConversationExamples.after) ConversationExamples.empty =
    (Ok {| rs_scanned := 3; rs_changed := n; rs_skipped := false |}, s) /\
    ConversationExamples.state_of s "c" = Some ("a", 2, "resolved").
Proof.
  pose proof (empty_content_ok (strict := true) ConversationExamples.digest) as Ok0.
  pose proof (append_ok _ _ _ _ _ ConversationExamples.append_b Ok0) as Okb.
  pose proof (append_ok _ _ _ _ _ ConversationExamples.append_c Okb) as Okc.
  pose proof (append_ok _ _ _ _ _ ConversationExamples.append_a Okc) as Oka.
  assert (Reads ConversationExamples.after (get_envelope ConversationExamples.after)) as Ra
    by (apply (envelope_reads _ _ Oka); vm_compute; reflexivity).
  assert (forall x p, up (edges ConversationExamples.after) x p -> String.ltb p x = true) as Hup.
  { intros x p Hu. pose proof (up_stored _ _ _ Hu) as [Hx _]. apply elem_true in Hx.
    change (canonical_events (core ConversationExamples.after)) with ["b"; "c"; "a"] in Hx.
    apply elem_of_cons in Hx as [->|[->|[->|[]%elem_of_nil]%elem_of_cons]%elem_of_cons];
      destruct Hu as (e & He & Hp); vm_compute in He; injection He as <-; vm_compute in Hp;
      [injection Hp as <-; reflexivity|injection Hp as <-; reflexivity|discriminate Hp]. }
  destruct (rebuild_projects ConversationExamples.after (get_envelope ConversationExamples.after)
    (ranked_acyclic _ Hup) (ok_unique _ _ Oka) ConversationExamples.empty) as (n & s & Hrun & _ & _).
  { intros p Hp. discriminate Hp. }
  exists n, s. split; [exact Hrun|]. vm_compute in Hrun. injection Hrun as _ <-. reflexivity.
Defined.
